(* ===== verification/_CoqProject ===== *)
-Q . S2P
Prelude.v
Err.v
Buffer.v
Protocol.v
MessageConnection.v
Response.v
Request.v
TcpBridge.v
TcpServer.v
GdbConnection.v
GdbStub.v
Pipe.v
PipeClients.v
Daemon.v
Frontend.v
UsbBackend.v
UsbkBackend.v
UsbReader.v
Files.v
Process.v
Shim.v
AppletControl.v
ToolClient.v
Interfaces.v
Filesystem.v
FSCommands.v
Kernel.v
CrashReport.v
Debugger.v
GdbDevice.v
Tipc.v
Services.v
DeviceInterface.v
DeviceService.v
ToolCommands.v
