(* ===== verification/Prelude.v ===== *)
(** * Twili / Twib: a verification development

    Twili is a Nintendo Switch system module that lets a host computer debug and
    manage the programs on the device; Twib is the host's side: a daemon ([twibd])
    that keeps the devices and a tool ([twib]) that talks to the daemon and offers a
    GDB server.  All of them exchange messages with a 32-byte header, a payload and a
    list of object ids.  This library models the parts of the program that have a
    logic of their own, in the order in which a byte travels through them.

    ** The parts and the files that model them

    - [Prelude] (this file): outcomes of C++ calls, machine integers, byte strings
      indexed by [Z], [std::map] as an ordered association list, the tactics [zlia]
      and [inv_bind].
    - [Err] (common/err.hpp, err_defs.{hpp,cpp}): the result codes and
      [ResultDescription::Lookup]'s binary search.
    - [Buffer] (common/Buffer.{hpp,cpp}): the byte queue under every transport: a
      vector, two heads, an optional limit.
    - [Protocol] (common/Protocol.hpp): the message header's layout, the encoding of
      whole messages, the commands of each interface.
    - [MessageConnection] (twib/common/MessageConnection, SocketMessageConnection):
      the host's parser of the message stream, and its sending side.
    - [Response] (twili/bridge/ResponseOpener, ResponseWriter, Packing.hpp,
      tcp/ and usb/ResponseState): how the device answers.  The class
      [ResponseStateLaws] is what [ResponseOpener] relies on of a transport; the TCP and
      the USB response states are its instances.
    - [Request] (twili/bridge/RequestHandler, Unpacking.hpp, Streaming.hpp): reading a
      command's arguments as they arrive, invoking it, streams, dispatch.
    - [TcpBridge] (twili/bridge/tcp/Connection.cpp): the device's parser of the request
      stream, which drives [Request]'s handlers; [TcpServer] (twili/bridge/tcp/TCPBridge.cpp):
      the thread that takes clients and polls their sockets, with the main thread's part.
    - [GdbConnection] (twib/tool/GdbConnection): the GDB remote protocol's packets,
      escapes, checksums and hexadecimal numbers.
    - [GdbStub] (twib/tool/GdbStub): the GDB server: every packet and query, the
      threads and processes it keeps, the debug events it takes in.  The device is the
      class [ITwibDebugger]/[ITwibDeviceInterface]; [Device] is an instance.
    - [Pipe] (twili/TwibPipe): the pipes of a monitored process, over arbitrary
      callbacks; [PipeClients] (bridge/interfaces/ITwibPipeReader, ITwibPipeWriter,
      service/IPipe) are the callbacks there are.
    - [Daemon] (twib/daemon/Daemon, Messages, BridgeObject, LocalClient, TCPBackend,
      SocketFrontend): the queue of jobs between clients and devices, who owns which
      object, and what happens when a client or a device is lost; [Frontend]
      (SocketFrontend, platform/unix/EventLoop): the thread that serves the clients' sockets.
    - [UsbBackend] (twib/daemon/USBBackend): a device's transfers with libusb;
      [UsbkBackend] (twib/daemon/USBKBackend): the same device with libusbK.
    - [UsbReader] (twili/bridge/usb/RequestReader): the device's end of those transfers,
      which drives [Request]'s handlers as [TcpBridge] does.
    - [Files] (twili/process/fs): the files a process is loaded from; an NRO file served
      as an NSO file without being copied.
    - [Process] (twili/process, bridge/interfaces/ITwibProcessMonitor, FileManager, the
      services of the shims): monitored processes, the trackers that queue and launch
      them, and the clients that watch them, as a step relation.
    - [Shim] (service/IHBABIShim, hbabi_shim, shell_shim, twili_applet_shim/applet_host): the
      programs that host an application: its configuration, its start, its end.
    - [AppletControl] (twili_applet_shim/applet_control, applet_common): the program that has the
      system create an applet for each queued process, interleaved with the steps of [Process].
    - [ToolClient] (twib/tool/Client, SocketClient, RemoteObject, Packing.hpp): the tool's
      calls: tags, pending responses, packing of arguments and unpacking of results.
    - [Interfaces] (twib/tool/interfaces, twili/bridge/interfaces): every remote call with
      its arguments, every command with its parameters and results.
    - [Filesystem] (bridge/interfaces/ITwibFilesystemAccessor, ITwibFileAccessor,
      ITwibDirectoryAccessor): the device's files over the kernel's file service;
      [FSCommands] (twib/tool/Twib.cpp, platform/fs.cpp): pull, push, ls, rm, mkdir and mv,
      through [Interfaces] down to [Filesystem].
    - [Kernel] (twili/hos_types.hpp, twib/tool/DebugTypes.hpp): the kernel's debugging calls
      and their structures, field by field.
    - [CrashReport] (twili/ELFCrashReport, Elf.hpp): the core file of a process, and a reader
      of core files.
    - [Debugger] (bridge/interfaces/ITwibDebugger): the device's debuggers; [GdbDevice] makes
      them the device of [GdbStub].
    - [Tipc] (twili/tipc.hpp): requests to services over TIPC; [Services] (twili/Services,
      SystemVersion, parts of ShellTracker): which service takes which command on which version
      of the system.
    - [DeviceInterface] (bridge/interfaces/ITwibDeviceInterface): the handlers of the device's
      first object; [DeviceService] (twili/service/ITwiliService, IAppletShim): the requests of the
      programs on the device, and the named pipes they share with that object.
    - [ToolCommands] (twib/tool/Twib.cpp, platform/InputPump.cpp): the tool's other commands.

    ** How the definitions correspond to the code

    A definition has the name of the C++ function it models, in a module named after
    the class.  State is passed explicitly: a record per class, whose fields have the
    names of the members.  A call has an [outcome]; [Undefined] stands for behaviour
    the C++ standard leaves undefined, and is kept wherever the source does not exclude
    it.  Integers that can wrap around do ([u64], [u32], [u8]).  Template parameters are
    data.  What a callback does, what a socket returns and what a remote object answers
    are arguments of the definitions; hypotheses about them are named where they are
    used ([sends], [posts], [FiniteEvents], [SizedMemory]) and have an instance in the
    witnesses.

    ** What the theorems show

    - Data structures: the buffer refines a bounded queue ([buffer_refines_queue]); a
      pipe refines a queue with one reader and one writer and conserves its bytes
      ([pipe_refines_queue], [pipe_conserves]).
    - Wire formats: messages sent through one connection and cut into arbitrary pieces
      arrive unchanged ([send_receive_roundtrip], [process_takes_first_message]); a
      response of the device is such a message on both transports
      ([respond_ok_is_message], [usb_respond_ok_is_message]); GDB packets and numbers
      survive ([gdb_framing_roundtrip], [hex_roundtrip], [gdb_xfer_reassembles]).
    - Requests: a well-formed request invokes its command once with its arguments, an
      oversized one is refused ([request_invokes_once], [oversized_request_refused]),
      and the TCP connection serves requests that arrive in any pieces, also back to
      back ([tcp_request_served], [tcp_pipelined]), and of several clients at a time
      whose requests to object zero do not overlap ([requests_served_together],
      [requests_collide], [tcp_lost_handler_followed]); a write request reaches the pipe
      and the next reader ([pipe_writer_delivers]).  The USB reader serves them too, as
      the TCP connection does up to the answer ([usb_request_served], [usb_serves_like_tcp],
      [usb_late_answer_discards]).
    - The daemon: the requests of all clients are posted, each in its client's order, however they
      arrive ([frontend_posts_requests], [requests_before_loss]); a request's answer goes to the client that asked, under its tag
      ([daemon_round_trip]); an object of a device is closed once, when its owner is done
      with it ([daemon_object_lifetime]); [daemon_device_loss] says what a lost device
      leaves.  Its USB devices send requests and assemble responses exactly
      ([usb_request_sent], [usb_response_assembled]), inside their memory
      ([usb_transfers_bounded], [usb_negative_transfer]), and the two libraries' backends are equivalent
      ([usbk_equivalent_to_libusb]).
    - Processes: at most one applet runs at a time, no step loops for ever, and only code for a
      file that could not be made is undefined ([one_applet_at_a_time]); a client finds every state of its process in order
      ([state_changes_in_order]); the life of an applet from launch to exit
      ([applet_life]).  The control applet, one call at a time, keeps to this however its
      calls are interleaved with the device ([control_and_device_safe]), starts the queued process
      when it can be launched and the system grants it ([queued_applet_started]) and takes what it
      controls with it when it ends ([control_end_exits_all]).  A shim calls its application with
      exactly its configuration and hands back what it leaves ([shim_runs_application],
      [suspended_shim_waits], [next_argv_arrives]), in a heap that fits ([applet_heap_bounds]).  A
      named pipe carries a program's data to the tool ([named_pipe_carries], [named_pipes_kept]).
      A loader that reads the NSO file made from an NRO file gets the
      NRO file's segments ([nso_loads_the_nro], [transmutation_reads_segments],
      [nro_refused], [exefs_files]).
    - The GDB server: packets keep its state well formed, have no undefined behaviour
      and are answered once, but for those that are undefined ([gdb_packet_safety],
      [gdb_undefined_packets]; every thread list is: [gdb_thread_list]); stop reports and
      dispatch are right ([gdb_stop_report], [gdb_dispatch]); taking
      events in terminates ([gdb_ingest_terminates]).
    - The tool: no call is answered twice, and each is answered, waits, or has not got there
      while the tags differ ([calls_answered_once], [call_races_with_failure],
      [sync_wakeup_lost]), with the results the device's handler gave
      ([response_reaches_call]); each call of the tool has a command
      of the device that takes its arguments and gives its results ([tool_calls_are_served]);
      what is printed of a result code can be looked up ([printed_code_is_read]); a program
      that is run is shown in full before it is waited for, in every order of the threads
      ([run_shows_output]).
    - Files of the device: a push stores a file that fits, a pull of it gives it back, through every
      layer between the command and the file service ([push_stores_file],
      [transfer_round_trip]).
    - Core files can be read back ([core_dump_readable]).
    - Debuggers: events are given once and in order ([debug_events_in_order]), no two debuggers
      have a title in common ([debugger_titles]), the two searches for the main module agree
      ([target_entry_found]), memory is written as sent ([write_memory_stream]); the kernel's
      events reach the GDB client ([gdb_stop_on_device], [gdb_server_on_device]).
    - The system: a TIPC call goes through whole and its answer is taken inside the buffer
      ([tipc_call_round_trip], [tipc_response_in_bounds]); events and launches of 12.0.0 are
      exact ([shell_events_served], [launch_reaches_loader]); the list of processes is what the
      kernel told ([process_list_reported]), and eleven commands of the device interface answer
      every request once ([device_requests_answered]).
    - Where the code does not do what it should, a theorem says exactly when and how:
      [gdb_undefined_packets], [unsized_encode_not_injective],
      [tcp_partial_header_hangs], [short_request_unanswered], [oversized_payload_throws],
      [pipe_loses_waiting_write], [pipe_writer_closed_aborts],
      [pipe_writer_interrupted], [pipe_writer_drops_tail], [pipe_second_call_aborts],
      [ipc_read_eof_answers_twice], [daemon_tcp_objects_unclosable],
      [daemon_remove_device_hides_other], [daemon_close_disowns_other_device],
      [usb_empty_header_repeats], [usb_reader_overtaken], [usb_exception_stops_data],
      [menu_not_asked_to_exit], [tracker_waits_for_shim], [suspended_terminate_twice],
      [failed_launch_unanswered], [unknown_response_stops_client],
      [tag_collision_loses_call], [async_error_called_twice], [pull_keeps_old_tail],
      [large_pull_ends_device], [ls_never_ends], [core_dump_unknown_exception],
      [old_shell_events], [accept_reads_past_fds], [network_bounce_ends_bridge],
      [no_socket_unlocks_twice], [failed_launch_stalls_queue], [refused_applet_blocks].

    ** Fuel

    Loops that are not structural have fuel, and [OutOfFuel] is never a result the
    theorems accept: [MessageConnection.Process] needs two turns of its loop per
    message it returns; [GdbConnection.Process] one turn per character;
    [TcpBridge.Process] one turn per request and one more to see that the input is used
    up ([tcp_partial_header_hangs] shows an input for which no fuel is enough, because
    the code does not terminate); [tcp_Send] and [PostBufferSync] one turn per byte
    at most; [Daemon.fresh_client_id] one turn per number drawn; [IngestEvents] one turn per pending event; [Pipe.exec]'s fuel is the depth
    to which callbacks call the pipe again; [Process.depth] that of state changes inside
    a state change, and [pop_queued] has a turn per queued process and two more, as an
    exit in the loop may queue another one ([one_applet_at_a_time] excludes
    [OutOfFuel] for both); the loops over a debug handle's events, a memory map's regions and
    the shell's events one turn per element and one more ([raises], [tile] and
    [event_source] say how many there are); the uninterrupted [queue_loop] of the
    control applet two turns, as what it has created has to attach before the next ([queue_is_a_run]
    turns it into a run of the steps, which have no fuel); the schedules of [run_threads] are lists, and
    [run_shows_output] says how many rounds of the threads are enough.

    ** What is not modelled

    Threads: a connection's mutexes and the handover of tasks to the main thread; a task or an event
    is one step here.  Two threads at work on one list or map at the same time, where the code takes no
    lock (the tool's map of requests, the daemon's list of a TCP device's requests), are interleaved at
    its operations, not inside them.  The daemon's queue keeps the order of each producer only, so a
    step takes any of its jobs; theorems about one exchange take the first.  Sockets, USB
    hardware and the IPC server beyond what the arguments above say: how interfaces are
    probed, claimed and brought up, the event loop of Windows, device announcements.  What the
    shims do before their first request to the device and around the call of the application
    (services, standard output, filesystem permissions, saved registers), platform layers, the
    command line, logging and the vendored queue are left out;
    [PFS0BuilderFile] is used by no part of the program and does not have the interface of
    the other files.  libtransistor, msgpack11 and the C library are arguments. *)
From stdpp Require Export base numbers list option gmap strings.
From Stdlib Require Export Ascii Sorted.
From coqutil Require Export Byte Word.LittleEndianList.

Global Open Scope Z_scope.

(** ** Outcomes of C++ code

    A call returns ([Done]), leaves by a C++ exception ([Throws]), ends the
    process through [twili::Abort] ([Aborts]) or [exit], or has undefined
    behaviour ([Undefined]: an access outside an object, a null dereference, a
    value-returning function that falls off its end).  [OutOfFuel] is not an
    outcome of the code: a loop modelled with fuel gives it when the fuel was not
    enough, and every fuelled function has a theorem that says how much is. *)
Inductive exn : Type :=
| length_error
| out_of_range
| invalid_argument
| bad_alloc
| bad_function_call
| runtime_error
| ResultError (code : Z).

Inductive outcome (A : Type) : Type :=
| Done (a : A)
| Throws (e : exn)
| Aborts (code : Z)
| Undefined
| OutOfFuel.
Arguments Done {A} a.
Arguments Throws {A} e.
Arguments Aborts {A} code.
Arguments Undefined {A}.
Arguments OutOfFuel {A}.

#[export] Instance exn_eq_dec : EqDecision exn.
Proof. solve_decision. Defined.
#[export] Instance outcome_eq_dec {A} `{EqDecision A} : EqDecision (outcome A).
Proof. solve_decision. Defined.

#[export] Instance outcome_ret : MRet outcome := fun A => @Done A.
#[export] Instance outcome_bind : MBind outcome := fun A B f m =>
  match m with
  | Done a => f a
  | Throws e => Throws e
  | Aborts c => Aborts c
  | Undefined => Undefined
  | OutOfFuel => OutOfFuel
  end.
#[export] Instance outcome_fmap : FMap outcome := fun A B f m => m ≫= (fun a => Done (f a)).

#[export] Instance Done_inj {A} : Inj (=) (=) (@Done A).
Proof. by intros a b [= ->]. Qed.

Lemma bind_done {A B} (a : A) (f : A → outcome B) : Done a ≫= f = f a.
Proof. reflexivity. Qed.

Lemma bind_Done_inv {A B} (m : outcome A) (f : A → outcome B) b :
  m ≫= f = Done b → ∃ a, m = Done a ∧ f a = Done b.
Proof. destruct m; cbn; intros; try discriminate; eauto. Qed.

(** [ok m Q]: the call has no undefined behaviour, and if it returns, its result
    satisfies [Q]. *)
Definition ok {A} (m : outcome A) (Q : A → Prop) : Prop :=
  match m with Done a => Q a | Undefined => False | _ => True end.

Lemma ok_bind {A B} (m : outcome A) (f : A → outcome B) (Q : B → Prop) :
  ok m (fun a => ok (f a) Q) → ok (m ≫= f) Q.
Proof. by destruct m. Qed.
Lemma ok_mono {A} (m : outcome A) (P Q : A → Prop) : ok m P → (∀ a, P a → Q a) → ok m Q.
Proof. destruct m; cbn; auto. Qed.
Lemma ok_done {A} (m : outcome A) (Q : A → Prop) a : ok m Q → m = Done a → Q a.
Proof. by intros Hok ->. Qed.

(** ** Machine integers *)

(** [size_t], [uint64_t], [uint32_t] and [uint8_t] arithmetic wraps around. *)
Definition u64 (z : Z) : Z := z `mod` 2 ^ 64.
Definition u32 (z : Z) : Z := z `mod` 2 ^ 32.
Definition u8 (z : Z) : Z := z `mod` 2 ^ 8.

Lemma u64_small z : 0 ≤ z < 2 ^ 64 → u64 z = z.
Proof. apply Z.mod_small. Qed.
Lemma u32_small z : 0 ≤ z < 2 ^ 32 → u32 z = z.
Proof. apply Z.mod_small. Qed.
Lemma u64_range z : 0 ≤ u64 z < 2 ^ 64.
Proof. apply Z.mod_pos_bound; lia. Qed.
Lemma u32_range z : 0 ≤ u32 z < 2 ^ 32.
Proof. apply Z.mod_pos_bound; lia. Qed.

Lemma u64_affine k x y : u64 (k * u64 x + y) = u64 (k * x + y).
Proof. unfold u64. by rewrite Zplus_mod, Zmult_mod_idemp_r, <- Zplus_mod. Qed.

(** ** Byte strings indexed by [Z] *)

Abbreviation byte := (Init.Byte.byte).
Abbreviation bytes := (list Init.Byte.byte).

Definition zlen {A} (l : list A) : Z := Z.of_nat (length l).
Definition ztake {A} (n : Z) (l : list A) : list A := take (Z.to_nat n) l.
Definition zdrop {A} (n : Z) (l : list A) : list A := drop (Z.to_nat n) l.
Definition zreplicate {A} (n : Z) (x : A) : list A := replicate (Z.to_nat n) x.

#[export] Instance byte_eq_dec : EqDecision byte := Byte.byte_eq_dec.

(** [std::copy_n(src, len, l.begin() + off)] for an in-range destination. *)
Definition overwrite {A} (l : list A) (off : Z) (src : list A) : list A :=
  ztake off l ++ src ++ zdrop (off + zlen src) l.

(** ASCII text as bytes, for string literals of the source. *)
Definition ch (c : Ascii.ascii) : byte := Ascii.byte_of_ascii c.
Arguments ch c%_char.
Definition str (s : string) : bytes := String.list_byte_of_string s.
Arguments str s%_string.

(** ** [std::map] with integer keys: the pairs in increasing order of their keys *)

Abbreviation omap A := (list (Z * A)).

Fixpoint om_find {A} (k : Z) (m : omap A) : option A :=
  match m with
  | [] => None
  | (k', a) :: m => if k' =? k then Some a else om_find k m
  end.
Fixpoint om_insert {A} (k : Z) (a : A) (m : omap A) : omap A :=
  match m with
  | [] => [(k, a)]
  | (k', a') :: m' => if k <? k' then (k, a) :: m else (k', a') :: om_insert k a m'
  end.
(** [emplace] and [insert] keep the element that is there. *)
Definition om_emplace {A} (k : Z) (a : A) (m : omap A) : omap A :=
  match om_find k m with Some _ => m | None => om_insert k a m end.
(** Assignment through an iterator or a reference to an element. *)
Fixpoint om_set {A} (k : Z) (a : A) (m : omap A) : omap A :=
  match m with
  | [] => []
  | (k', a') :: m' => if k' =? k then (k', a) :: m' else (k', a') :: om_set k a m'
  end.
Fixpoint om_erase {A} (k : Z) (m : omap A) : omap A :=
  match m with
  | [] => []
  | (k', a') :: m' => if k' =? k then om_erase k m' else (k', a') :: om_erase k m'
  end.
(** The elements from an iterator on, and after it. *)
Fixpoint om_from {A} (k : Z) (m : omap A) : omap A :=
  match m with
  | [] => []
  | (k', a') :: m' => if k' =? k then m else om_from k m'
  end.

Section zlist.
Context {A : Type}.
Implicit Types (l k : list A) (n m : Z).

Lemma zlen_nonneg l : 0 ≤ zlen l.
Proof. unfold zlen; lia. Qed.
Lemma zlen_nil : zlen (@nil A) = 0.
Proof. reflexivity. Qed.
Lemma zlen_cons x l : zlen (x :: l) = 1 + zlen l.
Proof. unfold zlen; cbn [length]; lia. Qed.
Lemma zlen_app l k : zlen (l ++ k) = zlen l + zlen k.
Proof. unfold zlen; rewrite length_app; lia. Qed.
Lemma zlen_ztake n l : zlen (ztake n l) = Z.max 0 (Z.min n (zlen l)).
Proof. unfold zlen, ztake; rewrite length_take; lia. Qed.
Lemma zlen_zdrop n l : zlen (zdrop n l) = zlen l - Z.max 0 (Z.min n (zlen l)).
Proof. unfold zlen, zdrop; rewrite length_drop; lia. Qed.
Lemma zlen_zreplicate n (x : A) : zlen (zreplicate n x) = Z.max 0 n.
Proof. unfold zlen, zreplicate; rewrite length_replicate; lia. Qed.
Lemma zlen_0_inv l : zlen l ≤ 0 → l = [].
Proof. destruct l; [done|]; unfold zlen; cbn [length]; lia. Qed.
Lemma zlen_overwrite l off k :
  0 ≤ off → off + zlen k ≤ zlen l → zlen (overwrite l off k) = zlen l.
Proof.
  intros. unfold overwrite. rewrite !zlen_app, zlen_ztake, zlen_zdrop.
  pose proof (zlen_nonneg k). lia.
Qed.

Lemma ztake_all n l : zlen l ≤ n → ztake n l = l.
Proof. intros. unfold ztake. apply take_ge. unfold zlen in *; lia. Qed.
Lemma ztake_0 n l : n ≤ 0 → ztake n l = [].
Proof. intros. unfold ztake. replace (Z.to_nat n) with 0%nat by lia. done. Qed.
Lemma zdrop_0 n l : n ≤ 0 → zdrop n l = l.
Proof. intros. unfold zdrop. replace (Z.to_nat n) with 0%nat by lia. done. Qed.
Lemma zdrop_all n l : zlen l ≤ n → zdrop n l = [].
Proof. intros. unfold zdrop. apply drop_ge. unfold zlen in *; lia. Qed.
Lemma ztake_zdrop n l : ztake n l ++ zdrop n l = l.
Proof. apply take_drop. Qed.
Lemma ztake_app n l k : n = zlen l → ztake n (l ++ k) = l.
Proof. intros ->. unfold ztake, zlen. rewrite Nat2Z.id. apply take_app_length. Qed.
Lemma ztake_app_le n l k : n ≤ zlen l → ztake n (l ++ k) = ztake n l.
Proof. intros. unfold ztake, zlen in *. apply take_app_le. lia. Qed.
Lemma ztake_app_ge n l k : zlen l ≤ n → ztake n (l ++ k) = l ++ ztake (n - zlen l) k.
Proof.
  intros. unfold ztake, zlen in *. rewrite take_app, take_ge by lia.
  f_equal. f_equal. lia.
Qed.
Lemma zdrop_app n l k : n = zlen l → zdrop n (l ++ k) = k.
Proof. intros ->. unfold zdrop, zlen. rewrite Nat2Z.id. apply drop_app_length. Qed.
Lemma zdrop_app_le n l k : n ≤ zlen l → zdrop n (l ++ k) = zdrop n l ++ k.
Proof. intros. unfold zdrop, zlen in *. apply drop_app_le. lia. Qed.
Lemma zdrop_app_ge n l k : zlen l ≤ n → zdrop n (l ++ k) = zdrop (n - zlen l) k.
Proof. intros. unfold zdrop, zlen in *. rewrite drop_app_ge by lia. f_equal. lia. Qed.
Lemma zdrop_zdrop n m l : 0 ≤ n → 0 ≤ m → zdrop n (zdrop m l) = zdrop (m + n) l.
Proof. intros. unfold zdrop. rewrite drop_drop. f_equal. lia. Qed.
Lemma ztake_ztake n m l : ztake n (ztake m l) = ztake (Z.min n m) l.
Proof. unfold ztake. rewrite take_take. f_equal. lia. Qed.
Lemma zdrop_ztake n m l : 0 ≤ n → zdrop n (ztake m l) = ztake (m - n) (zdrop n l).
Proof.
  intros. unfold zdrop, ztake. rewrite skipn_firstn_comm. f_equal. lia.
Qed.

Lemma pair_ind (P : list A → Prop) :
  P [] → (∀ x, P [x]) → (∀ x y l, P l → P (x :: y :: l)) → ∀ l, P l.
Proof.
  intros H0 H1 H2 l. enough (P l ∧ ∀ x, P (x :: l)) by tauto.
  induction l as [|y l [IH1 IH2]]; [by auto|]. split; [done|]. intros x. by apply H2.
Qed.
End zlist.

Section omap_lemmas.
Context {A : Type}.
Implicit Types (m : omap A).

Lemma om_find_insert k a m k' :
  om_find k m = None →
  om_find k' (om_insert k a m) = if k =? k' then Some a else om_find k' m.
Proof.
  induction m as [|[k1 a1] m IH]; [done|]. cbn. destruct (Z.eqb_spec k1 k); [done|].
  intros Hk. destruct (k <? k1); cbn; [by destruct (k =? k')|].
  rewrite IH by done. destruct (Z.eqb_spec k1 k'), (Z.eqb_spec k k'); congruence.
Qed.

Lemma om_find_emplace k a m k' :
  om_find k' (om_emplace k a m) =
    if k =? k' then Some (default a (om_find k m)) else om_find k' m.
Proof.
  unfold om_emplace. destruct (om_find k m) eqn:Hk; [|by rewrite om_find_insert].
  by destruct (Z.eqb_spec k k') as [<-|].
Qed.

Lemma om_find_set k a m k' :
  om_find k' (om_set k a m) =
    if k =? k' then (fun _ => a) <$> om_find k m else om_find k' m.
Proof.
  induction m as [|[k1 a1] m IH]; cbn; [by destruct (k =? k')|].
  destruct (Z.eqb_spec k1 k); cbn.
  - subst. by destruct (k =? k').
  - rewrite IH. destruct (Z.eqb_spec k1 k'), (Z.eqb_spec k k'); congruence.
Qed.

Lemma om_find_erase k m k' :
  om_find k' (om_erase k m) = if k =? k' then None else om_find k' m.
Proof.
  induction m as [|[k1 a1] m IH]; cbn; [by destruct (k =? k')|].
  destruct (Z.eqb_spec k1 k); cbn; rewrite IH;
    destruct (Z.eqb_spec k k'), (Z.eqb_spec k1 k'); congruence.
Qed.

Lemma om_find_in k a m : om_find k m = Some a → In (k, a) m.
Proof.
  induction m as [|[k1 a1] m IH]; [done|]. cbn. destruct (Z.eqb_spec k1 k); [|auto].
  intros [= ->]. subst. auto.
Qed.

(** The keys are in increasing order. *)
Definition om_sorted (m : omap A) : Prop := StronglySorted Z.lt (map fst m).

Lemma om_sorted_insert k a m :
  om_sorted m → om_find k m = None → om_sorted (om_insert k a m).
Proof.
  unfold om_sorted. induction m as [|[k1 a1] m IH]; cbn.
  - intros _ _. repeat constructor.
  - intros Hs Hk. destruct (Z.eqb_spec k1 k); [done|].
    apply StronglySorted_inv in Hs as [Hs Hall]. destruct (Z.ltb_spec k k1); cbn.
    + repeat constructor; try done. eapply Forall_impl; [done|]. cbn. lia.
    + constructor; [by apply IH|]. clear IH Hs Hk.
      induction m as [|[k2 a2] m IH]; cbn; [repeat constructor; lia|].
      apply Forall_cons in Hall as [? Hall].
      destruct (k <? k2); cbn; repeat constructor; auto; lia.
Qed.

Lemma om_sorted_emplace k a m : om_sorted m → om_sorted (om_emplace k a m).
Proof.
  intros. unfold om_emplace. destruct (om_find k m) eqn:E; [done|].
  by apply om_sorted_insert.
Qed.

Lemma om_set_keys k a m : map fst (om_set k a m) = map fst m.
Proof.
  induction m as [|[k1 a1] m IH]; [done|]. cbn. destruct (k1 =? k); cbn; by rewrite ?IH.
Qed.

Lemma om_sorted_erase k m : om_sorted m → om_sorted (om_erase k m).
Proof.
  unfold om_sorted. induction m as [|[k1 a1] m IH]; [done|]. cbn. intros Hs.
  apply StronglySorted_inv in Hs as [Hs Hall].
  destruct (k1 =? k); cbn; [by apply IH|]. constructor; [by apply IH|].
  clear -Hall. induction m as [|[k2 a2] m IH]; [constructor|].
  cbn in *. apply Forall_cons in Hall as [? ?]. destruct (k2 =? k); cbn; auto.
Qed.
End omap_lemmas.

Create HintDb twili discriminated.
#[export] Hint Rewrite @zlen_nil @zlen_cons @zlen_app @zlen_ztake @zlen_zdrop
  @zlen_zreplicate : zlen.
#[export] Hint Resolve zlen_nonneg u64_range u32_range : twili.

(** [zlia]: linear arithmetic over lengths of byte strings. *)
Ltac zlen_facts :=
  repeat match goal with
  | |- context [zlen ?l] =>
      lazymatch goal with H : 0 ≤ zlen l |- _ => fail | _ => pose proof (zlen_nonneg l) end
  | _ : context [zlen ?l] |- _ =>
      lazymatch goal with H : 0 ≤ zlen l |- _ => fail | _ => pose proof (zlen_nonneg l) end
  end.
Ltac zlia := autorewrite with zlen in *; zlen_facts; lia.

(** Inverts a hypothesis [m ≫= f = Done b] and the ones it produces. *)
Ltac inv_bind :=
  repeat match goal with
  | H : _ ≫= _ = Done _ |- _ =>
      let a := fresh "a" in let E := fresh "E" in
      apply bind_Done_inv in H as (a & E & H)
  | H : Done _ = Done _ |- _ => injection H as H; try subst
  end.
