(* ===== verification/Err.v ===== *)
(** * common/err.hpp and common/err_defs.{hpp,cpp}: result codes and their descriptions

    [TWILI_RESULT] packs a description number above the module number 0xEF;
    [ResultDescription::Lookup] searches the table of descriptions with
    [std::lower_bound], which needs the table to be ordered by code. *)
From S2P Require Import Prelude.
Local Open Scope string_scope.
Local Open Scope Z_scope.

Module Err.

Definition TWILI_RESULT (code : Z) : Z := Z.lor (Z.shiftl code 9) 239.

Definition TWILI_ERR_INVALID_NRO : Z := TWILI_RESULT 1.
Definition TWILI_ERR_NO_CRASHED_PROCESSES : Z := TWILI_RESULT 2.
Definition TWILI_ERR_FATAL_USB_TRANSFER : Z := TWILI_RESULT 4.
Definition TWILI_ERR_UNRECOGNIZED_PID : Z := TWILI_RESULT 7.
Definition TWILI_ERR_UNRECOGNIZED_HANDLE_PLACEHOLDER : Z := TWILI_RESULT 8.
Definition TWILI_ERR_IO_ERROR : Z := TWILI_RESULT 10.
Definition TWILI_ERR_WONT_DEBUG_SELF : Z := TWILI_RESULT 11.
Definition TWILI_ERR_INVALID_PIPE : Z := TWILI_RESULT 12.
Definition TWILI_ERR_EOF : Z := TWILI_RESULT 13.
Definition TWILI_ERR_INVALID_PIPE_STATE : Z := TWILI_RESULT 14.
Definition TWILI_ERR_PIPE_ALREADY_EXISTS : Z := TWILI_RESULT 15.
Definition TWILI_ERR_NO_SUCH_PIPE : Z := TWILI_RESULT 16.
Definition TWILI_ERR_ALREADY_WAITING : Z := TWILI_RESULT 18.
Definition TWILI_ERR_FATAL_BRIDGE_STATE : Z := TWILI_RESULT 19.
Definition TWILI_ERR_APPLET_SHIM_UNKNOWN_MODE : Z := TWILI_RESULT 21.
Definition TWILI_ERR_APPLET_SHIM_WRONG_MODE : Z := TWILI_RESULT 22.
Definition TWILI_ERR_APPLET_SHIM_NO_COMMANDS_LEFT : Z := TWILI_RESULT 23.
Definition TWILI_ERR_APPLET_TRACKER_INVALID_STATE : Z := TWILI_RESULT 24.
Definition TWILI_ERR_TRACKER_NO_PROCESSES_CREATED : Z := TWILI_RESULT 25.
Definition TWILI_ERR_MONITORED_PROCESS_ALREADY_ATTACHED : Z := TWILI_RESULT 28.
Definition TWILI_ERR_UNRECOGNIZED_MONITORED_PROCESS_TYPE : Z := TWILI_RESULT 30.
Definition TWILI_ERR_TOO_MANY_MODULES : Z := TWILI_RESULT 31.
Definition TWILI_ERR_INTERRUPTED : Z := TWILI_RESULT 32.
Definition TWILI_ERR_NO_MODULES : Z := TWILI_RESULT 34.
Definition TWILI_ERR_UNKNOWN_FILESYSTEM : Z := TWILI_RESULT 35.
Definition TWILI_ERR_INVALID_PROCESS_STATE : Z := TWILI_RESULT 36.
Definition TWILI_ERR_UNSPECIFIED : Z := TWILI_RESULT 37.
Definition TWILI_ERR_SYSMODULE_BEING_DEBUGGED : Z := TWILI_RESULT 38.
Definition TWILI_ERR_INVALID_DEBUGGER_STATE : Z := TWILI_RESULT 39.
Definition TWILI_ERR_SYSTEM_VERSION_NOT_SET : Z := TWILI_RESULT 40.
Definition TWILI_ERR_SYSTEM_VERSION_ALREADY_SET : Z := TWILI_RESULT 40.
Definition TWILI_ERR_OPERATION_NOT_SUPPORTED_FOR_SYSTEM_VERSION : Z := TWILI_RESULT 41.
Definition TWILI_ERR_TODO : Z := TWILI_RESULT 42.
Definition TWILI_ERR_USB_SERIAL_INIT_FAILED : Z := TWILI_RESULT 43.
Definition TWILI_ERR_NO_LONGER_REQUESTED_TO_LAUNCH : Z := TWILI_RESULT 44.
Definition TWILI_ERR_ECS_CONFUSED : Z := TWILI_RESULT 45.
Definition TWILI_ERR_WATCHDOG_EXPIRED : Z := TWILI_RESULT 46.
Definition TWILI_ERR_PROTOCOL_UNRECOGNIZED_OBJECT : Z := TWILI_RESULT 1001.
Definition TWILI_ERR_PROTOCOL_UNRECOGNIZED_FUNCTION : Z := TWILI_RESULT 1002.
Definition TWILI_ERR_PROTOCOL_TRANSFER_ERROR : Z := TWILI_RESULT 1003.
Definition TWILI_ERR_PROTOCOL_UNRECOGNIZED_DEVICE : Z := TWILI_RESULT 1004.
Definition TWILI_ERR_PROTOCOL_BAD_REQUEST : Z := TWILI_RESULT 1005.
Definition TWILI_ERR_BAD_REQUEST : Z := TWILI_ERR_PROTOCOL_BAD_REQUEST.
Definition TWILI_ERR_PROTOCOL_BAD_RESPONSE : Z := TWILI_RESULT 1006.
Definition TWILI_ERR_BAD_RESPONSE : Z := TWILI_ERR_PROTOCOL_BAD_RESPONSE.
Definition TWILI_TIPC_ERR_UNEXPECTED_RESPONSE_TAG : Z := TWILI_RESULT 2001.
Definition TWILI_TIPC_ERR_UNEXPECTED_RESPONSE_RAW_COUNT : Z := TWILI_RESULT 2002.
Definition TWILI_TIPC_ERR_UNEXPECTED_RESPONSE_SPECIAL_HEADER : Z := TWILI_RESULT 2003.
Definition TWILI_TIPC_ERR_UNEXPECTED_RESPONSE_COPY_HANDLE_COUNT : Z := TWILI_RESULT 2004.
Definition TWILI_TIPC_ERR_UNEXPECTED_RESPONSE_MOVE_HANDLE_COUNT : Z := TWILI_RESULT 2005.
Definition TWILI_TIPC_ERR_UNEXPECTED_RESPONSE_PID : Z := TWILI_RESULT 2006.

Inductive ResultVisibility : Type := Internal | Api | User.

Record ResultDescription : Type := mk_ResultDescription {
  code : Z;
  visibility : ResultVisibility;
  name : string;
  description : string;
  help : option string }.

#[export] Instance ResultVisibility_eq_dec : EqDecision ResultVisibility.
Proof. solve_decision. Defined.
#[export] Instance ResultDescription_eq_dec : EqDecision ResultDescription.
Proof. solve_decision. Defined.

(** The [describe] macro takes the name from the spelling of the code. *)
Definition describe (vis : ResultVisibility) (r : Z) (name description : string)
    (help : option string) : ResultDescription :=
  mk_ResultDescription r vis name description help.

Definition descriptions : list ResultDescription := [
  describe User TWILI_ERR_INVALID_NRO "TWILI_ERR_INVALID_NRO" "Invalid NRO file"
    None;
  describe User TWILI_ERR_NO_CRASHED_PROCESSES "TWILI_ERR_NO_CRASHED_PROCESSES" "There are no crashed processes"
    None;
  describe Internal TWILI_ERR_FATAL_USB_TRANSFER "TWILI_ERR_FATAL_USB_TRANSFER" "Unrecoverable USB error"
    (Some "The device encountered a fatal error while processing USB transfers.");
  describe Internal TWILI_ERR_UNRECOGNIZED_PID "TWILI_ERR_UNRECOGNIZED_PID" "Unrecognized PID"
    (Some "A non-monitored process tried to open an HBABI shim.");
  describe Internal TWILI_ERR_UNRECOGNIZED_HANDLE_PLACEHOLDER "TWILI_ERR_UNRECOGNIZED_HANDLE_PLACEHOLDER" "Unrecognized handle placeholder"
    (Some "A monitored process requested an invalid handle while translating HBABI entries.");
  describe User TWILI_ERR_IO_ERROR "TWILI_ERR_IO_ERROR" "IO Error"
    (Some "A socket was closed or a file operation failed unexpectedly.");
  describe User TWILI_ERR_WONT_DEBUG_SELF "TWILI_ERR_WONT_DEBUG_SELF" "Won't debug self"
    (Some "The sysmodule tried to perform an operation that would result in debugging itself. This occurs normally when the sysmodule tries to get info on itself while listing processes.");
  describe User TWILI_ERR_INVALID_PIPE "TWILI_ERR_INVALID_PIPE" "Invalid pipe"
    (Some "A monitored process tried to open a pipe with a bad index.");
  describe User TWILI_ERR_EOF "TWILI_ERR_EOF" "End-of-file"
    (Some "The other end of a pipe was closed.");
  describe Internal TWILI_ERR_INVALID_PIPE_STATE "TWILI_ERR_INVALID_PIPE_STATE" "Invalid pipe state"
    (Some "An operation was attempted on a busy end of a pipe.");
  describe User TWILI_ERR_PIPE_ALREADY_EXISTS "TWILI_ERR_PIPE_ALREADY_EXISTS" "Pipe already exists"
    (Some "A named pipe already exists with the requested name.");
  describe User TWILI_ERR_NO_SUCH_PIPE "TWILI_ERR_NO_SUCH_PIPE" "No such pipe"
    (Some "There is no named pipe with the requested name.");
  describe User TWILI_ERR_ALREADY_WAITING "TWILI_ERR_ALREADY_WAITING" "Already waiting"
    (Some "A bridge object was asked to wait on an event that there is already an outstanding wait request for.");
  describe Internal TWILI_ERR_FATAL_BRIDGE_STATE "TWILI_ERR_FATAL_BRIDGE_STATE" "Fatal bridge state"
    None;
  describe Internal TWILI_ERR_APPLET_SHIM_UNKNOWN_MODE "TWILI_ERR_APPLET_SHIM_UNKNOWN_MODE" "Unknown applet shim mode"
    None;
  describe Internal TWILI_ERR_APPLET_SHIM_WRONG_MODE "TWILI_ERR_APPLET_SHIM_WRONG_MODE" "Wrong applet shim mode"
    None;
  describe Internal TWILI_ERR_APPLET_SHIM_NO_COMMANDS_LEFT "TWILI_ERR_APPLET_SHIM_NO_COMMANDS_LEFT" "No applet shim commands left"
    None;
  describe Internal TWILI_ERR_APPLET_TRACKER_INVALID_STATE "TWILI_ERR_APPLET_TRACKER_INVALID_STATE" "Applet tracker encountered invalid state"
    None;
  describe Internal TWILI_ERR_TRACKER_NO_PROCESSES_CREATED "TWILI_ERR_TRACKER_NO_PROCESSES_CREATED" "No processes created by tracker"
    None;
  describe Internal TWILI_ERR_MONITORED_PROCESS_ALREADY_ATTACHED "TWILI_ERR_MONITORED_PROCESS_ALREADY_ATTACHED" "Monitored process already attached"
    None;
  describe Api TWILI_ERR_UNRECOGNIZED_MONITORED_PROCESS_TYPE "TWILI_ERR_UNRECOGNIZED_MONITORED_PROCESS_TYPE" "Unrecognized monitored process type"
    (Some "CreateMonitoredProcess was called with an invalid type.");
  describe Internal TWILI_ERR_TOO_MANY_MODULES "TWILI_ERR_TOO_MANY_MODULES" "Too many modules"
    (Some "An ECS process was requested to be launched with too many modules.");
  describe Api TWILI_ERR_INTERRUPTED "TWILI_ERR_INTERRUPTED" "Interruped"
    (Some "Another request was received to wait on this event");
  describe Internal TWILI_ERR_NO_MODULES "TWILI_ERR_NO_MODULES" "No modules"
    (Some "An ECS process was requested to be launched with no modules.");
  describe User TWILI_ERR_UNKNOWN_FILESYSTEM "TWILI_ERR_UNKNOWN_FILESYSTEM" "Unknown filesystem"
    (Some "Attempted to open an unrecognized filesystem.");
  describe Api TWILI_ERR_INVALID_PROCESS_STATE "TWILI_ERR_INVALID_PROCESS_STATE" "Invalid process state"
    (Some "The process is in an invalid state for the requested operation.");
  describe Internal TWILI_ERR_UNSPECIFIED "TWILI_ERR_UNSPECIFIED" "Unspecified"
    None;
  describe User TWILI_ERR_SYSMODULE_BEING_DEBUGGED "TWILI_ERR_SYSMODULE_BEING_DEBUGGED" "Sysmodule being debugged"
    (Some "An operation was requested that depends on a sysmodule that is currently being debugged.");
  describe Internal TWILI_ERR_INVALID_DEBUGGER_STATE "TWILI_ERR_INVALID_DEBUGGER_STATE" "Invalid debugger state"
    (Some "The kernel has behaved unexpectedly while performing a debugger operation.");
  describe Internal TWILI_ERR_SYSTEM_VERSION_NOT_SET "TWILI_ERR_SYSTEM_VERSION_NOT_SET" "System version not set"
    (Some "The system version has not been determined yet.");
  describe Internal TWILI_ERR_SYSTEM_VERSION_ALREADY_SET "TWILI_ERR_SYSTEM_VERSION_ALREADY_SET" "System version already set"
    (Some "Attempted to set the system version twice.");
  describe User TWILI_ERR_OPERATION_NOT_SUPPORTED_FOR_SYSTEM_VERSION "TWILI_ERR_OPERATION_NOT_SUPPORTED_FOR_SYSTEM_VERSION" "Operation not supported for system version"
    (Some "An operation was requested that is not supported on the current system version.");
  describe Internal TWILI_ERR_TODO "TWILI_ERR_TODO" "Todo"
    (Some "The requsted operation has not been implemented yet.");
  describe Internal TWILI_ERR_USB_SERIAL_INIT_FAILED "TWILI_ERR_USB_SERIAL_INIT_FAILED" "USB serial init failed"
    (Some "An error was encountered while initializing USB serial");
  describe Api TWILI_ERR_NO_LONGER_REQUESTED_TO_LAUNCH "TWILI_ERR_NO_LONGER_REQUESTED_TO_LAUNCH" "Process no longer requested to launch"
    (Some "A process launch was cancelled asynchronously.");
  describe Internal TWILI_ERR_ECS_CONFUSED "TWILI_ERR_ECS_CONFUSED" "ECS confused"
    (Some "ECS encountered an invalid state.");
  describe Internal TWILI_ERR_WATCHDOG_EXPIRED "TWILI_ERR_WATCHDOG_EXPIRED" "Watchdog expired"
    (Some "The internal watchdog expired, indicating that the sysmodule has locked up.");
  describe Api TWILI_ERR_PROTOCOL_UNRECOGNIZED_OBJECT "TWILI_ERR_PROTOCOL_UNRECOGNIZED_OBJECT" "Unrecognized object"
    (Some "The bridge did not recognize the requested object.");
  describe Api TWILI_ERR_PROTOCOL_UNRECOGNIZED_FUNCTION "TWILI_ERR_PROTOCOL_UNRECOGNIZED_FUNCTION" "Unrecognized function"
    (Some "The object did not recognize the requested function.");
  describe User TWILI_ERR_PROTOCOL_TRANSFER_ERROR "TWILI_ERR_PROTOCOL_TRANSFER_ERROR" "Transfer error"
    (Some "An error was encountered while transferring data to or from the bridge.");
  describe User TWILI_ERR_PROTOCOL_UNRECOGNIZED_DEVICE "TWILI_ERR_PROTOCOL_UNRECOGNIZED_DEVICE" "Unrecognized device"
    (Some "The bridge daemon did not recognize the requested device.");
  describe Api TWILI_ERR_PROTOCOL_BAD_REQUEST "TWILI_ERR_PROTOCOL_BAD_REQUEST" "Bad request"
    (Some "The request was malformed.");
  describe Api TWILI_ERR_PROTOCOL_BAD_RESPONSE "TWILI_ERR_PROTOCOL_BAD_RESPONSE" "Bad response"
    (Some "The response was malformed.");
  describe Internal TWILI_TIPC_ERR_UNEXPECTED_RESPONSE_TAG "TWILI_TIPC_ERR_UNEXPECTED_RESPONSE_TAG" "Unexpected TIPC response tag"
    None;
  describe Internal TWILI_TIPC_ERR_UNEXPECTED_RESPONSE_RAW_COUNT "TWILI_TIPC_ERR_UNEXPECTED_RESPONSE_RAW_COUNT" "Unexpected TIPC response raw count"
    None;
  describe Internal TWILI_TIPC_ERR_UNEXPECTED_RESPONSE_SPECIAL_HEADER "TWILI_TIPC_ERR_UNEXPECTED_RESPONSE_SPECIAL_HEADER" "Unexpected TIPC response special header"
    None;
  describe Internal TWILI_TIPC_ERR_UNEXPECTED_RESPONSE_COPY_HANDLE_COUNT "TWILI_TIPC_ERR_UNEXPECTED_RESPONSE_COPY_HANDLE_COUNT" "Unexpected TIPC response copy handle count"
    None;
  describe Internal TWILI_TIPC_ERR_UNEXPECTED_RESPONSE_MOVE_HANDLE_COUNT "TWILI_TIPC_ERR_UNEXPECTED_RESPONSE_MOVE_HANDLE_COUNT" "Unexpected TIPC response move handle count"
    None;
  describe Internal TWILI_TIPC_ERR_UNEXPECTED_RESPONSE_PID "TWILI_TIPC_ERR_UNEXPECTED_RESPONSE_PID" "Unexpected TIPC response pid"
    None].

(** [std::lower_bound] on a table ordered by code: the elements from the first one
    whose code is not less than [value]. *)
Fixpoint lower_bound (value : Z) (l : list ResultDescription) : list ResultDescription :=
  match l with
  | [] => []
  | d :: l' => if code d <? value then lower_bound value l' else l
  end.

Definition Lookup (c : Z) : ResultDescription :=
  let unknown := mk_ResultDescription c Internal "Unknown" "Unknown" None in
  match lower_bound c descriptions with
  | [] => unknown
  | i :: _ => if negb (code i =? c) then unknown else i
  end.

(** ** Specification *)

(** Ordered as the search needs it; the first description of a code. *)
Fixpoint ordered (l : list ResultDescription) : bool :=
  match l with
  | d :: (d' :: _) as l' => (code d <=? code d') && ordered l'
  | _ => true
  end.
Definition first_with (c : Z) (l : list ResultDescription) : option ResultDescription :=
  List.find (fun d => code d =? c) l.

(** ** Lemmas *)

Lemma ordered_head d l : ordered (d :: l) = true → Forall (fun d' => code d <= code d') l.
Proof.
  revert d. induction l as [|d' l IH]; intros d; [by constructor|].
  cbn. rewrite andb_true_iff. intros [Hd Hl]. apply Z.leb_le in Hd.
  constructor; [done|]. eapply Forall_impl; [by apply IH|]. cbn. lia.
Qed.

Lemma lower_bound_first c l :
  ordered l = true →
  match lower_bound c l with
  | i :: _ => if code i =? c then Some i else None
  | [] => None
  end = first_with c l.
Proof.
  unfold first_with. induction l as [|d l IH]; [done|]. intros Ho. cbn.
  destruct (Z.ltb_spec (code d) c).
  - destruct (Z.eqb_spec (code d) c); [lia|]. apply IH.
    cbn in Ho. destruct l; [done|]. by apply andb_true_iff in Ho as [_ ?].
  - destruct (Z.eqb_spec (code d) c); [done|].
    apply ordered_head in Ho. clear IH. induction Ho as [|d' l Hd' _ IH]; [done|]. cbn.
    destruct (Z.eqb_spec (code d') c); [lia|done].
Qed.

Lemma Lookup_first c :
  Lookup c = default (mk_ResultDescription c Internal "Unknown" "Unknown" None)
               (first_with c descriptions).
Proof.
  rewrite <- lower_bound_first by reflexivity. unfold Lookup.
  destruct (lower_bound c descriptions) as [|i l]; [done|]. by destruct (code i =? c).
Qed.

(** looking a result code up.  The binary search over the table returns the
    first description with the code, and the unknown description exactly for the
    codes that the table does not have; every code of the table is found with its
    own name but one: [SYSTEM_VERSION_ALREADY_SET] has the number of
    [SYSTEM_VERSION_NOT_SET] and is described as that. *)
Theorem lookup_finds_description (c : Z) :
  Lookup c = default (mk_ResultDescription c Internal "Unknown" "Unknown" None)
               (first_with c descriptions) ∧
  List.filter (fun d => negb (bool_decide (Lookup (code d) = d))) descriptions =
    [describe Internal TWILI_ERR_SYSTEM_VERSION_ALREADY_SET
       "TWILI_ERR_SYSTEM_VERSION_ALREADY_SET" "System version already set"
       (Some "Attempted to set the system version twice.")].
Proof. split; [apply Lookup_first|by vm_compute]. Qed.

End Err.
