(* ===== verification/Buffer.v ===== *)
(** * common/Buffer.{hpp,cpp}: the growable byte queue

    [twili::util::Buffer] is a byte vector with a read head and a write head.
    The pending bytes are those between the heads; [Compact] moves them to the
    front when more room is needed; a limit may bound the vector.  The
    operations are modelled with 64-bit wrap-around head arithmetic, the
    [std::length_error] of [std::vector::resize], and the undefined behaviour of
    copies that leave the vector.  [contents] is the abstraction to a FIFO byte
    queue, and [wf] the invariant under which every operation refines it. *)
From S2P Require Import Prelude.

Module Buffer.

(** The vector, the heads and the limit. *)
Record t : Type := mk {
  data : bytes;
  read_head : Z;
  write_head : Z;
  limit : option Z }.

(** [std::vector<uint8_t>::max_size()] is PTRDIFF_MAX. *)
Definition vector_max_size : Z := 2 ^ 63 - 1.

(** [std::vector<uint8_t>::resize]: new elements are zero. *)
Definition vector_resize (l : bytes) (n : Z) : outcome bytes :=
  if vector_max_size <? n then Throws length_error
  else Done (ztake n l ++ zreplicate (n - zlen l) Byte.x00).

(** The three constructors. *)
Definition Buffer_default : t := mk (zreplicate 2048 Byte.x00) 0 0 None.
Definition Buffer_limited (lim : Z) : t :=
  mk (zreplicate (Z.min 2048 lim) Byte.x00) 0 0 (Some lim).
Definition Buffer_of (v : bytes) : t := mk v 0 (zlen v) None.

Definition ReadAvailable (b : t) : Z := u64 (write_head b - read_head b).
Definition WriteAvailableHint (b : t) : Z := u64 (zlen (data b) - write_head b).

Definition MarkWritten (b : t) (size : Z) : t :=
  mk (data b) (read_head b) (u64 (write_head b + size)) (limit b).
Definition MarkRead (b : t) (size : Z) : t :=
  mk (data b) (u64 (read_head b + size)) (write_head b) (limit b).
Definition Clear (b : t) : t := mk (data b) 0 0 (limit b).

(** [std::copy(data.begin() + read_head, data.end(), data.begin())] moves the
    tail to the front and leaves the last [read_head] bytes as they were. *)
Definition Compact (b : t) : outcome t :=
  if zlen (data b) <? read_head b then Undefined
  else
    let moved := zdrop (read_head b) (data b) in
    Done (mk (moved ++ zdrop (zlen moved) (data b)) 0
             (u64 (write_head b - read_head b)) (limit b)).

(** [limit && write_head + size > *limit] *)
Definition exceeds_limit (b : t) (size : Z) : bool :=
  match limit b with
  | Some lim => lim <? u64 (write_head b + size)
  | None => false
  end.

Definition needs_space (b : t) (size : Z) : bool :=
  zlen (data b) <? u64 (write_head b + size).

Definition set_data (b : t) (d : bytes) : t :=
  mk d (read_head b) (write_head b) (limit b).

Definition EnsureSpace (b : t) (size : Z) : outcome (t * bool) :=
  b ← (if needs_space b size then Compact b else Done b);
  if needs_space b size then
    if exceeds_limit b size then Done (b, false)
    else
      d ← vector_resize (data b) (u64 (write_head b + size));
      Done (set_data b d, true)
  else Done (b, true).

Definition TryEnsureSpace (b : t) (size : Z) : outcome t :=
  b ← (if needs_space b size then Compact b else Done b);
  if needs_space b size then
    d ← vector_resize (data b)
          (match limit b with
           | Some lim => if exceeds_limit b size then lim else u64 (write_head b + size)
           | None => u64 (write_head b + size)
           end);
    Done (set_data b d)
  else Done b.

(** The pointer [Reserve] returns is [data() + write_head]; the model returns the
    room behind it, and [store] writes through that pointer. *)
Definition Reserve (b : t) (size : Z) : outcome (t * Z) :=
  b ← TryEnsureSpace b size;
  Done (b, u64 (zlen (data b) - write_head b)).

Definition store (b : t) (off : Z) (src : bytes) : outcome t :=
  let pos := write_head b + off in
  if (pos <? 0) || (zlen (data b) <? pos + zlen src) then Undefined
  else Done (set_data b (overwrite (data b) pos src)).

Definition Write (b : t) (io : bytes) : outcome (t * bool) :=
  '(b, ok) ← EnsureSpace b (zlen io);
  if negb ok then Done (b, false)
  else
    b ← store b 0 io;
    Done (MarkWritten b (zlen io), true).

(** [copy_n] out of the vector from the read head. *)
Definition load (b : t) (size : Z) : outcome bytes :=
  if zlen (data b) <? read_head b + size then Undefined
  else Done (ztake size (zdrop (read_head b) (data b))).

(** [bool Read(uint8_t *io, size_t size)]: [None] leaves the destination alone. *)
Definition Read (b : t) (size : Z) : outcome (t * option bytes) :=
  if write_head b <? u64 (read_head b + size) then Done (b, None)
  else
    io ← load b size;
    Done (MarkRead b size, Some io).

(** [bool Read(std::string &str, size_t len)] *)
Definition Read_string (b : t) (len : Z) : outcome (t * option bytes) :=
  if ReadAvailable b <? len then Done (b, None)
  else
    s ← load b len;
    Done (MarkRead b len, Some s).

(** [bool Read(Buffer &other, size_t size)]: [other.Reserve] runs first, so it
    may grow (or throw) even when the read then fails. *)
Definition Read_buffer (b other : t) (size : Z) : outcome (t * t * bool) :=
  '(other, _) ← Reserve other size;
  '(b, got) ← Read b size;
  match got with
  | Some io =>
      other ← store other 0 io;
      Done (b, MarkWritten other size, true)
  | None => Done (b, other, false)
  end.

(** [std::vector<uint8_t>(data.begin() + read_head, data.begin() + write_head)] *)
Definition GetData (b : t) : outcome bytes :=
  if (write_head b <? read_head b) || (zlen (data b) <? write_head b) then Undefined
  else Done (ztake (write_head b - read_head b) (zdrop (read_head b) (data b))).
Definition GetString (b : t) : outcome bytes :=
  if (write_head b <? read_head b) || (zlen (data b) <? write_head b) then Undefined
  else Done (ztake (write_head b - read_head b) (zdrop (read_head b) (data b))).

(** ** Abstraction *)

(** The bytes pending read, oldest first. *)
Definition contents (b : t) : bytes :=
  ztake (write_head b - read_head b) (zdrop (read_head b) (data b)).

Record wf (b : t) : Prop := {
  wf_read : 0 ≤ read_head b;
  wf_order : read_head b ≤ write_head b;
  wf_write : write_head b ≤ zlen (data b);
  wf_size : zlen (data b) ≤ vector_max_size;
  wf_limit : ∀ lim, limit b = Some lim → zlen (data b) ≤ lim < 2 ^ 63 }.

(** A well-formed buffer without a limit. *)
Definition plain (b : t) : Prop := wf b ∧ limit b = None.

(** Whether [size] more bytes fit under the limit. *)
Definition fits (b : t) (size : Z) : Prop :=
  match limit b with Some lim => zlen (contents b) + size ≤ lim | None => True end.

#[export] Instance fits_dec b size : Decision (fits b size).
Proof. unfold fits. destruct (limit b); apply _. Defined.

(** ** Specification: a bounded FIFO queue of bytes *)

Record queue : Type := Queue { q_bytes : bytes; q_cap : option Z }.

(** What a client does with a buffer.  [OpFill] is the sequence
    [Reserve(hint)], a write of [io] through the returned pointer,
    [MarkWritten(io.size())] that the socket code performs. *)
Inductive op : Type :=
| OpWrite (io : bytes)
| OpRead (n : Z)
| OpReadString (n : Z)
| OpFill (hint : Z) (io : bytes)
| OpMarkRead (n : Z)
| OpGetData
| OpClear.

Inductive reply : Type :=
| ROk (ok : bool)
| RBytes (o : option bytes)
| RUnit.

Definition q_room (q : queue) (n : Z) : bool :=
  match q_cap q with Some c => zlen (q_bytes q) + n <=? c | None => true end.

Definition q_step (q : queue) (o : op) : queue * reply :=
  match o with
  | OpWrite io =>
      if q_room q (zlen io) then (Queue (q_bytes q ++ io) (q_cap q), ROk true)
      else (q, ROk false)
  | OpRead n | OpReadString n =>
      if n <=? zlen (q_bytes q)
      then (Queue (zdrop n (q_bytes q)) (q_cap q), RBytes (Some (ztake n (q_bytes q))))
      else (q, RBytes None)
  | OpFill _ io => (Queue (q_bytes q ++ io) (q_cap q), RUnit)
  | OpMarkRead n => (Queue (zdrop n (q_bytes q)) (q_cap q), RUnit)
  | OpGetData => (q, RBytes (Some (q_bytes q)))
  | OpClear => (Queue [] (q_cap q), RUnit)
  end.

(** The preconditions a client owes: sizes that fit a [ptrdiff_t], no more marked
    read than is pending, no more filled than was reserved. *)
Definition q_ok (q : queue) (o : op) : Prop :=
  match o with
  | OpWrite io => zlen (q_bytes q) + zlen io ≤ vector_max_size
  | OpRead n | OpReadString n => 0 ≤ n < 2 ^ 63
  | OpFill hint io =>
      zlen io ≤ hint ∧ q_room q (zlen io) = true ∧
      zlen (q_bytes q) + hint ≤ vector_max_size
  | OpMarkRead n => 0 ≤ n ≤ zlen (q_bytes q)
  | OpGetData | OpClear => True
  end.

Fixpoint q_run (q : queue) (os : list op) : queue * list reply :=
  match os with
  | [] => (q, [])
  | o :: os =>
      let '(q, r) := q_step q o in
      let '(q, rs) := q_run q os in (q, r :: rs)
  end.

Fixpoint q_oks (q : queue) (os : list op) : Prop :=
  match os with
  | [] => True
  | o :: os => q_ok q o ∧ q_oks (fst (q_step q o)) os
  end.

(** The same client running on the buffer. *)
Definition run1 (b : t) (o : op) : outcome (t * reply) :=
  match o with
  | OpWrite io => '(b, ok) ← Write b io; Done (b, ROk ok)
  | OpRead n => '(b, r) ← Read b n; Done (b, RBytes r)
  | OpReadString n => '(b, r) ← Read_string b n; Done (b, RBytes r)
  | OpFill hint io =>
      '(b, avail) ← Reserve b hint;
      if avail <? zlen io then Undefined
      else b ← store b 0 io; Done (MarkWritten b (zlen io), RUnit)
  | OpMarkRead n => Done (MarkRead b n, RUnit)
  | OpGetData => d ← GetData b; Done (b, RBytes (Some d))
  | OpClear => Done (Clear b, RUnit)
  end.

Fixpoint run (b : t) (os : list op) : outcome (t * list reply) :=
  match os with
  | [] => Done (b, [])
  | o :: os =>
      '(b, r) ← run1 b o;
      '(b, rs) ← run b os;
      Done (b, r :: rs)
  end.

Definition abs (b : t) : queue := Queue (contents b) (limit b).

(** ** Lemmas *)

Lemma fits_limit b size lim :
  limit b = Some lim → fits b size ↔ zlen (contents b) + size ≤ lim.
Proof. unfold fits. by intros ->. Qed.

Ltac unfold_wf H := destruct H as [? ? ? ? ?]; unfold vector_max_size in *.

(** Re-establishes [wf] after a head or vector update, given the rewriting [r]
    that normalises lengths and wrap-arounds. *)
Tactic Notation "solve_wf" "with" tactic3(r) :=
  constructor; cbn; unfold vector_max_size in *; r;
  try (intros ? ?; repeat match goal with
       | Hl : ∀ lim, ?o = Some lim → _ , E : ?o = Some _ |- _ => specialize (Hl _ E)
       end);
  try zlia; try done.
Tactic Notation "solve_wf" := solve_wf with idtac.

Lemma zlen_contents b : wf b → zlen (contents b) = write_head b - read_head b.
Proof. intros H; unfold_wf H. unfold contents. zlia. Qed.

Lemma ReadAvailable_contents b : wf b → ReadAvailable b = zlen (contents b).
Proof.
  intros H. rewrite zlen_contents by done. unfold_wf H.
  unfold ReadAvailable. apply u64_small. lia.
Qed.

Lemma Buffer_default_wf : wf Buffer_default ∧ contents Buffer_default = [].
Proof. split; [|done]. solve_wf. Qed.

Lemma Buffer_limited_wf lim :
  0 ≤ lim < 2 ^ 63 → wf (Buffer_limited lim) ∧ contents (Buffer_limited lim) = [].
Proof.
  intros. split; [|done]. solve_wf. simplify_eq. zlia.
Qed.

Lemma Buffer_of_wf v :
  zlen v ≤ vector_max_size → wf (Buffer_of v) ∧ contents (Buffer_of v) = v.
Proof.
  intros. split.
  - solve_wf.
  - unfold contents; cbn. rewrite zdrop_0 by lia. apply ztake_all. lia.
Qed.

Lemma Clear_wf b : wf b → wf (Clear b) ∧ contents (Clear b) = [].
Proof.
  intros H; unfold_wf H. split; [|done].
  solve_wf.
Qed.

Lemma Compact_spec b :
  wf b → ∃ b', Compact b = Done b' ∧ wf b' ∧ contents b' = contents b ∧
    read_head b' = 0 ∧ limit b' = limit b ∧ zlen (data b') = zlen (data b).
Proof.
  intros H. pose proof (zlen_contents b H) as Hlen. unfold_wf H.
  unfold Compact. destruct (Z.ltb_spec (zlen (data b)) (read_head b)); [lia|].
  set (d := _ ++ _).
  assert (zlen d = zlen (data b)) as Hd by (subst d; zlia).
  eexists; split; [done|]; cbn. rewrite u64_small by lia.
  split_and!; try done.
  - solve_wf with (rewrite ?Hd).
  - unfold contents; cbn. rewrite zdrop_0 by lia. rewrite Z.sub_0_r.
    subst d. rewrite ztake_app_le by zlia. done.
Qed.

(** The first half of [EnsureSpace] and [TryEnsureSpace]. *)
Lemma maybe_compact_spec b size :
  wf b → 0 ≤ size < 2 ^ 63 →
  ∃ b', (if needs_space b size then Compact b else Done b) = Done b' ∧
    wf b' ∧ contents b' = contents b ∧ limit b' = limit b ∧
    zlen (data b') = zlen (data b) ∧
    (needs_space b' size = true → read_head b' = 0).
Proof.
  intros H Hs. destruct (needs_space b size) eqn:En.
  - destruct (Compact_spec b H) as (b' & ? & ? & ? & ? & ? & ?). eauto 10.
  - exists b. split_and!; try done. congruence.
Qed.

Lemma needs_space_spec b size :
  wf b → 0 ≤ size < 2 ^ 63 →
  needs_space b size = bool_decide (zlen (data b) < write_head b + size).
Proof.
  intros H ?; unfold_wf H. unfold needs_space. rewrite u64_small by lia.
  case_bool_decide; [apply Z.ltb_lt | apply Z.ltb_ge]; lia.
Qed.

Lemma exceeds_limit_spec b size :
  wf b → 0 ≤ size < 2 ^ 63 → read_head b = 0 →
  exceeds_limit b size = bool_decide (¬ fits b size).
Proof.
  intros H ? Hr. pose proof (zlen_contents b H). unfold_wf H.
  unfold exceeds_limit. case_bool_decide as Hf; unfold fits in Hf;
    destruct (limit b) as [lim|]; try tauto.
  - rewrite u64_small by lia. apply Z.ltb_lt. lia.
  - rewrite u64_small by lia. apply Z.ltb_ge. lia.
Qed.

(** Growing the vector keeps the heads and the pending bytes. *)
Lemma resize_spec b n :
  wf b → zlen (data b) ≤ n ≤ vector_max_size →
  (∀ lim, limit b = Some lim → n ≤ lim) →
  ∃ d, vector_resize (data b) n = Done d ∧ zlen d = n ∧
    wf (set_data b d) ∧ contents (set_data b d) = contents b.
Proof.
  intros H Hn Hlim. unfold_wf H. unfold vector_resize.
  destruct (Z.ltb_spec vector_max_size n); [unfold vector_max_size in *; lia|].
  rewrite ztake_all by lia. eexists; split; [done|].
  split_and!; [zlia| |].
  - solve_wf.
  - unfold contents; cbn. rewrite zdrop_app_le by lia.
    rewrite ztake_app_le by zlia. done.
Qed.

Lemma EnsureSpace_spec b size :
  wf b → 0 ≤ size → zlen (contents b) + size ≤ vector_max_size →
  ∃ b', EnsureSpace b size = Done (b', bool_decide (fits b size)) ∧
    wf b' ∧ contents b' = contents b ∧ limit b' = limit b ∧
    (fits b size → write_head b' + size ≤ zlen (data b')).
Proof.
  intros H Hs Hmax. pose proof (zlen_nonneg (contents b)).
  assert (size < 2 ^ 63) by (unfold vector_max_size in *; lia).
  destruct (maybe_compact_spec b size H ltac:(lia))
    as (b1 & E1 & Hb1 & Hc & Hl & Hd & Hr).
  unfold EnsureSpace. rewrite E1. cbn.
  assert (fits b size ↔ fits b1 size) as Hf by (unfold fits; by rewrite Hc, Hl).
  pose proof (zlen_contents b1 Hb1) as Hlen1. rewrite Hc in Hlen1.
  destruct (needs_space b1 size) eqn:En.
  - specialize (Hr eq_refl). rewrite exceeds_limit_spec by (done || lia).
    rewrite needs_space_spec in En by (done || lia). apply bool_decide_eq_true in En.
    destruct (decide (fits b1 size)) as [Hfit|Hfit].
    2: { rewrite bool_decide_eq_true_2 by done. exists b1.
         rewrite bool_decide_eq_false_2 by tauto. split_and!; tauto. }
    { rewrite (bool_decide_eq_false_2 (¬ _)) by tauto.
      rewrite bool_decide_eq_true_2 by tauto.
      unfold vector_max_size in *. rewrite u64_small by lia.
      destruct (resize_spec b1 (write_head b1 + size) Hb1) as (d & -> & Hd1 & Hw & Hc1).
      * unfold vector_max_size in *; lia.
      * intros lim Hlim. unfold fits in Hfit. rewrite Hlim in Hfit. rewrite Hc in Hfit. lia.
      * exists (set_data b1 d). cbn. split_and!; try done; try congruence. lia. }
  - rewrite needs_space_spec in En by (done || lia). apply bool_decide_eq_false in En.
    assert (fits b1 size) as Hfit.
    { unfold fits. destruct (limit b1) eqn:El; [|done]. rewrite Hc.
      unfold_wf Hb1. specialize (wf_limit0 _ El). lia. }
    exists b1. rewrite bool_decide_eq_true_2 by tauto. split_and!; try tauto. lia.
Qed.

(** [Reserve] never fails on a well-formed buffer; an unlimited buffer offers at
    least [size] bytes, a limited one as many of them as the limit allows. *)
Lemma Reserve_spec b size :
  wf b → 0 ≤ size → zlen (contents b) + size ≤ vector_max_size →
  ∃ b' avail, Reserve b size = Done (b', avail) ∧
    wf b' ∧ contents b' = contents b ∧ limit b' = limit b ∧
    avail = zlen (data b') - write_head b' ∧
    match limit b with
    | None => size ≤ avail
    | Some lim => Z.min size (lim - zlen (contents b)) ≤ avail ≤ lim - zlen (contents b)
    end.
Proof.
  intros H Hs Hmax. pose proof (zlen_nonneg (contents b)).
  assert (size < 2 ^ 63) by (unfold vector_max_size in *; lia).
  destruct (maybe_compact_spec b size H ltac:(lia))
    as (b1 & E1 & Hb1 & Hc & Hl & Hd & Hr).
  unfold Reserve, TryEnsureSpace. rewrite E1. cbn.
  pose proof (zlen_contents b1 Hb1) as Hlen1. rewrite Hc in Hlen1.
  destruct (needs_space b1 size) eqn:En.
  - specialize (Hr eq_refl). rewrite exceeds_limit_spec by (done || lia).
    rewrite needs_space_spec in En by (done || lia). apply bool_decide_eq_true in En.
    unfold vector_max_size in *. rewrite u64_small by lia.
    set (n := match limit b1 with Some _ => _ | None => _ end).
    assert (zlen (data b1) ≤ n ≤ vector_max_size ∧
      (∀ lim, limit b1 = Some lim → n ≤ lim ∧ n = Z.min lim (zlen (contents b) + size)) ∧
      (limit b1 = None → n = zlen (contents b) + size)) as (Hn & Hn1 & Hn2).
    { subst n. rewrite <- Hc. destruct (limit b1) as [lim|] eqn:El.
      - rewrite (bool_decide_ext _ _ (not_iff_compat (fits_limit b1 size lim El))).
        unfold_wf Hb1. specialize (wf_limit0 _ El). rewrite Hc.
        case_bool_decide; (split; [lia|]); (split; [|done]); intros ? [= <-]; lia.
      - unfold_wf Hb1. rewrite Hc. split; [lia|]. split; [done|]. intros _. lia. }
    destruct (resize_spec b1 n Hb1 Hn ltac:(naive_solver)) as (d & -> & Hd1 & Hw & Hc1).
    cbn. unfold_wf Hb1. rewrite u64_small by lia.
    eexists _, _. split; [done|]. cbn. split_and!; try done; try congruence.
    rewrite <- Hl. destruct (limit b1) as [lim|].
    + destruct (Hn1 _ eq_refl). specialize (wf_limit0 _ eq_refl). lia.
    + specialize (Hn2 eq_refl). lia.
  - rewrite needs_space_spec in En by (done || lia). apply bool_decide_eq_false in En.
    cbn. unfold_wf Hb1. rewrite u64_small by lia.
    eexists _, _. split; [done|]. split_and!; try done.
    rewrite <- Hl. destruct (limit b1) as [lim|] eqn:El; [|lia].
    specialize (wf_limit0 _ eq_refl). lia.
Qed.

(** Storing behind the write head and marking the bytes written appends them. *)
Lemma store_spec b io :
  wf b → write_head b + zlen io ≤ zlen (data b) →
  ∃ b', store b 0 io = Done b' ∧ wf (MarkWritten b' (zlen io)) ∧
    contents (MarkWritten b' (zlen io)) = contents b ++ io ∧
    limit b' = limit b ∧ contents b' = contents b ∧ wf b'.
Proof.
  intros H Hroom. pose proof (zlen_nonneg io). pose proof (zlen_contents b H) as Hlen.
  unfold_wf H. unfold store. rewrite Z.add_0_r.
  destruct (Z.ltb_spec (write_head b) 0); [lia|].
  destruct (Z.ltb_spec (zlen (data b)) (write_head b + zlen io)); [lia|]. cbn.
  eexists; split; [done|].
  assert (zdrop (read_head b) (overwrite (data b) (write_head b) io) =
          contents b ++ io ++ zdrop (write_head b + zlen io) (data b)) as Hcat.
  { unfold overwrite. rewrite zdrop_app_le by zlia. f_equal.
    rewrite zdrop_ztake by lia. done. }
  assert (zlen (overwrite (data b) (write_head b) io) = zlen (data b)) as Hlo
    by (apply zlen_overwrite; lia).
  split_and!.
  - solve_wf with (rewrite ?Hlo, ?u64_small by lia).
  - unfold contents at 1; cbn. rewrite Hcat, u64_small by lia.
    rewrite app_assoc. apply ztake_app. zlia.
  - done.
  - unfold contents at 1; cbn. rewrite Hcat. apply ztake_app. lia.
  - solve_wf with (rewrite ?Hlo).
Qed.

Lemma Write_spec b io :
  wf b → zlen (contents b) + zlen io ≤ vector_max_size →
  ∃ b', Write b io = Done (b', bool_decide (fits b (zlen io))) ∧ wf b' ∧ limit b' = limit b ∧
    contents b' = if decide (fits b (zlen io)) then contents b ++ io else contents b.
Proof.
  intros H Hmax. pose proof (zlen_nonneg io).
  destruct (EnsureSpace_spec b (zlen io) H ltac:(lia) Hmax) as (b1 & E1 & Hb1 & Hc & Hl & Hroom).
  unfold Write. rewrite E1. cbn. case_decide as Hf.
  - rewrite bool_decide_eq_true_2 by done. cbn.
    destruct (store_spec b1 io Hb1 (Hroom Hf)) as (b2 & -> & Hw & Hc2 & Hl2 & _). cbn.
    eexists; split; [done|]. split_and!; [done| |congruence]. cbn. congruence.
  - rewrite bool_decide_eq_false_2 by done. cbn. eauto 10.
Qed.

(** On an unlimited buffer a write always succeeds and appends. *)
Lemma Write_unlimited b io :
  wf b → limit b = None → zlen (contents b) + zlen io ≤ vector_max_size →
  ∃ b', Write b io = Done (b', true) ∧ wf b' ∧ limit b' = None ∧
    contents b' = contents b ++ io.
Proof.
  intros H Hl Hmax. destruct (Write_spec b io H Hmax) as (b' & E & ? & ? & ?).
  assert (fits b (zlen io)) by (unfold fits; by rewrite Hl).
  rewrite bool_decide_eq_true_2 in E by done. rewrite decide_True in * by done.
  exists b'. split_and!; congruence.
Qed.

Lemma MarkRead_spec b n :
  wf b → 0 ≤ n ≤ zlen (contents b) →
  wf (MarkRead b n) ∧ contents (MarkRead b n) = zdrop n (contents b).
Proof.
  intros H Hn. pose proof (zlen_contents b H). unfold_wf H. split.
  - solve_wf with (rewrite ?u64_small by lia).
  - unfold contents; cbn. rewrite u64_small by lia.
    rewrite zdrop_ztake, zdrop_zdrop by lia. f_equal. lia.
Qed.

Lemma load_spec b n :
  wf b → 0 ≤ n ≤ zlen (contents b) → load b n = Done (ztake n (contents b)).
Proof.
  intros H Hn. pose proof (zlen_contents b H). unfold_wf H. unfold load.
  destruct (Z.ltb_spec (zlen (data b)) (read_head b + n)); [lia|].
  unfold contents. rewrite ztake_ztake. by rewrite Z.min_l by lia.
Qed.

Lemma Read_spec b n :
  wf b → 0 ≤ n < 2 ^ 63 →
  if decide (n ≤ zlen (contents b))
  then Read b n = Done (MarkRead b n, Some (ztake n (contents b)))
  else Read b n = Done (b, None).
Proof.
  intros H Hn. pose proof (zlen_contents b H). unfold Read.
  pose proof H as H'. unfold_wf H'. rewrite u64_small by lia.
  case_decide; destruct (Z.ltb_spec (write_head b) (read_head b + n)); try lia; [|done].
  rewrite load_spec by (done || lia). done.
Qed.

Lemma Read_string_spec b n :
  wf b → 0 ≤ n →
  if decide (n ≤ zlen (contents b))
  then Read_string b n = Done (MarkRead b n, Some (ztake n (contents b)))
  else Read_string b n = Done (b, None).
Proof.
  intros H Hn. unfold Read_string. rewrite ReadAvailable_contents by done.
  case_decide; destruct (Z.ltb_spec (zlen (contents b)) n); try lia; [|done].
  rewrite load_spec by (done || lia). done.
Qed.

Lemma GetData_spec b : wf b → GetData b = Done (contents b).
Proof.
  intros H; unfold_wf H. unfold GetData.
  destruct (Z.ltb_spec (write_head b) (read_head b)); [lia|].
  destruct (Z.ltb_spec (zlen (data b)) (write_head b)); [lia|]. done.
Qed.

(** [Reserve], fill, [MarkWritten]: how bytes arrive from a socket. *)
Lemma Fill_spec b hint io :
  wf b → zlen io ≤ hint → fits b (zlen io) →
  zlen (contents b) + hint ≤ vector_max_size →
  ∃ b1 b2 avail, Reserve b hint = Done (b1, avail) ∧ zlen io ≤ avail ∧
    store b1 0 io = Done b2 ∧ wf (MarkWritten b2 (zlen io)) ∧
    limit b2 = limit b ∧ contents (MarkWritten b2 (zlen io)) = contents b ++ io.
Proof.
  intros H Hio Hfit Hmax. pose proof (zlen_nonneg io).
  destruct (Reserve_spec b hint H ltac:(lia) Hmax)
    as (b1 & avail & E & Hw & Hc & Hl & Ha & Hroom).
  assert (zlen io ≤ avail).
  { unfold fits in Hfit. destruct (limit b); lia. }
  destruct (store_spec b1 io Hw ltac:(lia)) as (b2 & Es & Hw2 & Hc2 & Hl2 & _).
  exists b1, b2, avail. rewrite Hc in Hc2. split_and!; congruence.
Qed.

(** [Read(Buffer &other, n)] into an emptied plain buffer moves [n] bytes, or
    nothing when fewer are pending. *)
Lemma Read_buffer_spec b o n :
  plain b → plain o → contents o = [] → 0 ≤ n ≤ vector_max_size →
  ∃ b' o', Read_buffer b o n = Done (b', o', bool_decide (n ≤ zlen (contents b))) ∧
    plain b' ∧ plain o' ∧
    contents b' = (if decide (n ≤ zlen (contents b)) then zdrop n (contents b)
                   else contents b) ∧
    contents o' = (if decide (n ≤ zlen (contents b)) then ztake n (contents b) else []).
Proof.
  intros [Hb Hbl] [Ho Hol] Hoc Hn. unfold vector_max_size in *.
  destruct (Reserve_spec o n Ho ltac:(lia)) as (o1 & a & E1 & Ho1 & Hc1 & Hl1 & Ha & Hroom).
  { rewrite Hoc. unfold vector_max_size. zlia. }
  rewrite Hol in Hroom. unfold Read_buffer. rewrite E1. cbn [mbind outcome_bind].
  pose proof (Read_spec b n Hb ltac:(lia)) as HR.
  case_decide as Hle; rewrite HR; cbn [mbind outcome_bind].
  - rewrite bool_decide_eq_true_2 by done.
    assert (zlen (ztake n (contents b)) = n) as Hz by zlia.
    destruct (store_spec o1 (ztake n (contents b)) Ho1 ltac:(lia))
      as (o2 & -> & Hw & Hc & Hl & _).
    rewrite Hz in *. cbn. eexists _, _. split; [done|].
    destruct (MarkRead_spec b n Hb ltac:(lia)) as [Hbw Hbc].
    rewrite Hc, Hc1, Hoc. split_and!; try done; (split; [done|cbn; congruence]).
  - rewrite bool_decide_eq_false_2 by done. eexists _, _. split; [done|].
    split_and!; try done; try (split; congruence). congruence.
Qed.

(** [Reserve] keeps a plain buffer plain. *)
Lemma Reserve_plain b n :
  plain b → 0 ≤ n → zlen (contents b) + n ≤ vector_max_size →
  ∃ b' avail, Reserve b n = Done (b', avail) ∧ plain b' ∧ contents b' = contents b ∧
    n ≤ avail ∧ avail = zlen (data b') - write_head b'.
Proof.
  intros [Hb Hl] Hn Hmax. destruct (Reserve_spec b n Hb Hn Hmax)
    as (b' & a & E & Hw & Hc & Hl' & Ha & Hroom).
  rewrite Hl in Hroom. exists b', a. split_and!; try done. split; congruence.
Qed.

(** An empty buffer cannot be grown beyond what a vector can hold. *)
Lemma Reserve_length_error b n :
  wf b → limit b = None → read_head b = 0 → write_head b = 0 → 2 ^ 63 ≤ n < 2 ^ 64 →
  Reserve b n = Throws length_error.
Proof.
  intros [] Hl Hr Hw Hn. unfold Reserve, TryEnsureSpace, needs_space.
  assert (u64 (0 + n) = n) as Hu by (apply u64_small; lia). unfold vector_max_size in *.
  rewrite Hw, Hu, (proj2 (Z.ltb_lt (zlen (data b)) n)) by lia.
  unfold Compact. rewrite Hr, Hw, (proj2 (Z.ltb_ge (zlen (data b)) 0)) by lia.
  cbn [mbind outcome_bind data write_head limit].
  rewrite zdrop_0, (zdrop_all (zlen _)), app_nil_r by lia. change (u64 (0 - 0)) with 0.
  rewrite Hu, (proj2 (Z.ltb_lt (zlen (data b)) n)) by lia. rewrite Hl.
  unfold vector_resize, vector_max_size. by rewrite (proj2 (Z.ltb_lt (2 ^ 63 - 1) _)) by lia.
Qed.

Lemma q_room_fits b n : q_room (abs b) n = bool_decide (fits b n).
Proof.
  unfold q_room; cbn. case_bool_decide as Hf; unfold fits in Hf; destruct (limit b);
    try done; [apply Z.leb_le | apply Z.leb_gt]; lia.
Qed.

Lemma run1_refines b o :
  wf b → q_ok (abs b) o →
  ∃ b', run1 b o = Done (b', snd (q_step (abs b) o)) ∧ wf b' ∧
    abs b' = fst (q_step (abs b) o).
Proof.
  intros H Hok. destruct o as [io|n|n|hint io|n| |]; cbn [q_ok] in Hok; cbn [run1 q_step].
  - destruct (Write_spec b io H Hok) as (b' & -> & Hw & Hl & Hc). cbn [mbind outcome_bind].
    rewrite q_room_fits. exists b'. case_decide as Hf.
    + rewrite bool_decide_eq_true_2 by done. split_and!; try done. unfold abs. by rewrite Hl, Hc.
    + rewrite bool_decide_eq_false_2 by done. split_and!; try done. unfold abs. by rewrite Hl, Hc.
  - pose proof (Read_spec b n H Hok) as HR. cbn [abs q_bytes q_cap].
    case_decide; rewrite HR; cbn [mbind outcome_bind].
    + rewrite (proj2 (Z.leb_le _ _)) by lia.
      destruct (MarkRead_spec b n H ltac:(lia)) as [? Hc].
      eexists; split_and!; [done..|]. unfold abs. by rewrite Hc.
    + rewrite (proj2 (Z.leb_gt _ _)) by lia. by exists b.
  - pose proof (Read_string_spec b n H ltac:(lia)) as HR. cbn [abs q_bytes q_cap].
    case_decide; rewrite HR; cbn [mbind outcome_bind].
    + rewrite (proj2 (Z.leb_le _ _)) by lia.
      destruct (MarkRead_spec b n H ltac:(lia)) as [? Hc].
      eexists; split_and!; [done..|]. unfold abs. by rewrite Hc.
    + rewrite (proj2 (Z.leb_gt _ _)) by lia. by exists b.
  - destruct Hok as (? & Hr & ?). rewrite q_room_fits in Hr.
    apply bool_decide_eq_true in Hr.
    destruct (Fill_spec b hint io) as (b1 & b2 & a & E1 & Ha & E2 & Hw & Hl & Hc);
      [done..|].
    rewrite E1. cbn [mbind outcome_bind]. rewrite (proj2 (Z.ltb_ge _ _)) by lia.
    rewrite E2. cbn. eexists; split_and!; [done..|]. unfold abs. cbn. congruence.
  - destruct (MarkRead_spec b n H Hok) as [? Hc].
    eexists; split_and!; [done..|]. unfold abs. by rewrite Hc.
  - rewrite GetData_spec by done. by exists b.
  - destruct (Clear_wf b H) as [? Hc].
    eexists; split_and!; [done..|]. unfold abs. by rewrite Hc.
Qed.

(** C1: [util::Buffer] implements a bounded FIFO byte queue: from any
    well-formed buffer, any sequence of client operations whose preconditions
    hold returns normally, gives the replies of the queue specification, and
    leaves a well-formed buffer that represents the specification's final queue.
    Compaction, growth and the limit are invisible except through the replies. *)
Theorem buffer_refines_queue (b : t) (os : list op) :
  wf b → q_oks (abs b) os →
  ∃ b', run b os = Done (b', snd (q_run (abs b) os)) ∧ wf b' ∧
    abs b' = fst (q_run (abs b) os).
Proof.
  revert b. induction os as [|o os IH]; intros b H Hok; [by exists b|].
  destruct Hok as [Ho Hos]. destruct (run1_refines b o H Ho) as (b1 & E1 & Hw1 & Ha1).
  cbn [run q_run]. rewrite E1. cbn [mbind outcome_bind].
  destruct (q_step (abs b) o) as [q1 r1]; cbn in *. rewrite <- Ha1 in Hos |- *.
  destruct (IH b1 Hw1 Hos) as (b2 & E2 & Hw2 & Ha2). rewrite E2. cbn.
  destruct (q_run (abs b1) os) as [q2 rs]; cbn in *. by exists b2.
Qed.

Lemma buffer_refines_queue_witness :
  ∃ b', run (Buffer_limited 4) [OpWrite (str "abcd"); OpRead 3; OpWrite (str "xyz");
                                OpWrite (str "q"); OpRead 5; OpGetData]
        = Done (b', [ROk true; RBytes (Some (str "abc")); ROk true; ROk false;
                     RBytes None; RBytes (Some (str "dxyz"))]) ∧ wf b' ∧
        abs b' = Queue (str "dxyz") (Some 4).
Proof.
  apply (buffer_refines_queue (Buffer_limited 4)
           [OpWrite (str "abcd"); OpRead 3; OpWrite (str "xyz"); OpWrite (str "q");
            OpRead 5; OpGetData]).
  - apply Buffer_limited_wf. lia.
  - vm_compute. intuition discriminate.
Defined.

(** The header comment promises that a read of more than is available returns
    false and leaves the data alone; [read_head + size] wraps around in 64 bits,
    so a size close to 2^64 passes the check and the copy leaves the vector. *)
Lemma Read_overflow_undefined b :
  wf b → 0 < read_head b → Read b (2 ^ 64 - read_head b) = Undefined.
Proof.
  intros H ?. unfold_wf H. unfold Read.
  replace (u64 (read_head b + (2 ^ 64 - read_head b))) with 0
    by (unfold u64; replace (read_head b + (2 ^ 64 - read_head b)) with (2 ^ 64) by lia;
        by rewrite Z.mod_same by lia).
  rewrite (proj2 (Z.ltb_ge _ _)) by lia. unfold load.
  by rewrite (proj2 (Z.ltb_lt _ _)) by lia.
Qed.

End Buffer.
