(* ===== verification/Protocol.v ===== *)
(** * common/Protocol.hpp: the message header and the command numbers

    Requests and responses share one header, [protocol::MessageHeader].  Its two
    anonymous unions are single fields here ([device_id]/[client_id] and
    [command_id]/[result_code]).  The struct is transferred as its object
    representation: 28 bytes of fields, little-endian, and 4 bytes of trailing
    padding ([pad]) that make [sizeof] 32. *)
From S2P Require Import Prelude.

Module Protocol.

Record MessageHeader : Type := mkHeader {
  device_id : Z;      (* or client_id *)
  object_id : Z;
  command_id : Z;     (* or result_code *)
  tag : Z;
  payload_size : Z;
  object_count : Z;
  pad : Z }.

Abbreviation client_id := device_id.
Abbreviation result_code := command_id.

Definition sizeof_MessageHeader : Z := 32.

#[export] Instance MessageHeader_eq_dec : EqDecision MessageHeader.
Proof. solve_decision. Defined.

Definition VERSION : Z := 2.

(** The object representation of the header, and back. *)
Definition encode_header (h : MessageHeader) : bytes :=
  le_split 4 (device_id h) ++ le_split 4 (object_id h) ++ le_split 4 (command_id h) ++
  le_split 4 (tag h) ++ le_split 8 (payload_size h) ++ le_split 4 (object_count h) ++
  le_split 4 (pad h).

Definition field (l : bytes) (off n : Z) : Z := le_combine (ztake n (zdrop off l)).

Definition decode_header (l : bytes) : MessageHeader :=
  mkHeader (field l 0 4) (field l 4 4) (field l 8 4) (field l 12 4)
           (field l 16 8) (field l 24 4) (field l 28 4).

(** Arrays of [uint32_t] (object IDs). *)
Definition encode_u32s (ids : list Z) : bytes := ids ≫= le_split 4.

Fixpoint decode_u32s_aux (n : nat) (l : bytes) : list Z :=
  match n with
  | O => []
  | S n => le_combine (ztake 4 l) :: decode_u32s_aux n (zdrop 4 l)
  end.
Definition decode_u32s (n : Z) (l : bytes) : list Z := decode_u32s_aux (Z.to_nat n) l.

(** The command enumerations, one per interface, with their wire numbers. *)
Inductive ITwibMetaInterface : Type := LIST_DEVICES | CONNECT_TCP.
Definition ITwibMetaInterface_Command (c : ITwibMetaInterface) : Z :=
  match c with LIST_DEVICES => 10 | CONNECT_TCP => 11 end.

Inductive ITwibDeviceInterface : Type :=
| CREATE_MONITORED_PROCESS | REBOOT | COREDUMP | TERMINATE | LIST_PROCESSES
| UPGRADE_TWILI | IDENTIFY | LIST_NAMED_PIPES | OPEN_NAMED_PIPE
| OPEN_ACTIVE_DEBUGGER | GET_MEMORY_INFO | PRINT_DEBUG_INFO
| LAUNCH_UNMONITORED_PROCESS | OPEN_FILESYSTEM_ACCESSOR
| WAIT_TO_DEBUG_APPLICATION | WAIT_TO_DEBUG_TITLE | REBOOT_UNSAFE.
Definition ITwibDeviceInterface_Command (c : ITwibDeviceInterface) : Z :=
  match c with
  | CREATE_MONITORED_PROCESS => 10 | REBOOT => 11 | COREDUMP => 12 | TERMINATE => 13
  | LIST_PROCESSES => 14 | UPGRADE_TWILI => 15 | IDENTIFY => 16 | LIST_NAMED_PIPES => 17
  | OPEN_NAMED_PIPE => 18 | OPEN_ACTIVE_DEBUGGER => 19 | GET_MEMORY_INFO => 20
  | PRINT_DEBUG_INFO => 21 | LAUNCH_UNMONITORED_PROCESS => 22
  | OPEN_FILESYSTEM_ACCESSOR => 23 | WAIT_TO_DEBUG_APPLICATION => 24
  | WAIT_TO_DEBUG_TITLE => 25 | REBOOT_UNSAFE => 26
  end.

Inductive ITwibPipeReader : Type := PipeReader_READ.
Definition ITwibPipeReader_Command (c : ITwibPipeReader) : Z :=
  match c with PipeReader_READ => 10 end.

Inductive ITwibPipeWriter : Type := PipeWriter_WRITE | PipeWriter_CLOSE.
Definition ITwibPipeWriter_Command (c : ITwibPipeWriter) : Z :=
  match c with PipeWriter_WRITE => 10 | PipeWriter_CLOSE => 11 end.

Inductive ITwibDebugger : Type :=
| QUERY_MEMORY | READ_MEMORY | WRITE_MEMORY | LIST_THREADS | GET_DEBUG_EVENT
| GET_THREAD_CONTEXT | BREAK_PROCESS | CONTINUE_DEBUG_EVENT | SET_THREAD_CONTEXT
| GET_NSO_INFOS | WAIT_EVENT | GET_TARGET_ENTRY | LAUNCH_DEBUG_PROCESS | GET_NRO_INFOS.
Definition ITwibDebugger_Command (c : ITwibDebugger) : Z :=
  match c with
  | QUERY_MEMORY => 10 | READ_MEMORY => 11 | WRITE_MEMORY => 12 | LIST_THREADS => 13
  | GET_DEBUG_EVENT => 14 | GET_THREAD_CONTEXT => 15 | BREAK_PROCESS => 16
  | CONTINUE_DEBUG_EVENT => 17 | SET_THREAD_CONTEXT => 18 | GET_NSO_INFOS => 19
  | WAIT_EVENT => 20 | GET_TARGET_ENTRY => 21 | LAUNCH_DEBUG_PROCESS => 22
  | GET_NRO_INFOS => 24
  end.

Inductive ITwibProcessMonitor : Type :=
| Monitor_LAUNCH | Monitor_LAUNCH_SUSPENDED | Monitor_TERMINATE | Monitor_APPEND_CODE
| Monitor_OPEN_STDIN | Monitor_OPEN_STDOUT | Monitor_OPEN_STDERR
| Monitor_WAIT_STATE_CHANGE.
Definition ITwibProcessMonitor_Command (c : ITwibProcessMonitor) : Z :=
  match c with
  | Monitor_LAUNCH => 10 | Monitor_LAUNCH_SUSPENDED => 11 | Monitor_TERMINATE => 12
  | Monitor_APPEND_CODE => 13 | Monitor_OPEN_STDIN => 14 | Monitor_OPEN_STDOUT => 15
  | Monitor_OPEN_STDERR => 16 | Monitor_WAIT_STATE_CHANGE => 17
  end.

Inductive ITwibFilesystemAccessor : Type :=
| CREATE_FILE | DELETE_FILE | CREATE_DIRECTORY | DELETE_DIRECTORY
| DELETE_DIRECTORY_RECURSIVELY | RENAME_FILE | RENAME_DIRECTORY | GET_ENTRY_TYPE
| OPEN_FILE | OPEN_DIRECTORY.
Definition ITwibFilesystemAccessor_Command (c : ITwibFilesystemAccessor) : Z :=
  match c with
  | CREATE_FILE => 10 | DELETE_FILE => 11 | CREATE_DIRECTORY => 12 | DELETE_DIRECTORY => 13
  | DELETE_DIRECTORY_RECURSIVELY => 14 | RENAME_FILE => 15 | RENAME_DIRECTORY => 16
  | GET_ENTRY_TYPE => 17 | OPEN_FILE => 18 | OPEN_DIRECTORY => 19
  end.

Inductive ITwibFileAccessor : Type :=
| File_READ | File_WRITE | File_FLUSH | File_SET_SIZE | File_GET_SIZE.
Definition ITwibFileAccessor_Command (c : ITwibFileAccessor) : Z :=
  match c with
  | File_READ => 10 | File_WRITE => 11 | File_FLUSH => 12 | File_SET_SIZE => 13
  | File_GET_SIZE => 14
  end.

Inductive ITwibDirectoryAccessor : Type := Directory_READ | Directory_GET_ENTRY_COUNT.
Definition ITwibDirectoryAccessor_Command (c : ITwibDirectoryAccessor) : Z :=
  match c with Directory_READ => 10 | Directory_GET_ENTRY_COUNT => 11 end.

(** The command that closes an object, understood by every object. *)
Definition CLOSE_OBJECT : Z := 4294967295.

(** The client id of requests twibd makes for itself. *)
Definition META_CLIENT : Z := 4294967295.

(** ** A message as a value: header fields, payload and object ids *)

Record message : Type := mkMessage {
  m_header : MessageHeader;
  m_payload : bytes;
  m_objects : bytes }.

#[export] Instance message_eq_dec : EqDecision message.
Proof. solve_decision. Defined.

Definition encode_message (m : message) : bytes :=
  encode_header (m_header m) ++ m_payload m ++ m_objects m.

(** Every field in its range. *)
Record header_ok (h : MessageHeader) : Prop := {
  ok_device : 0 ≤ device_id h < 2 ^ 32;
  ok_object : 0 ≤ object_id h < 2 ^ 32;
  ok_command : 0 ≤ command_id h < 2 ^ 32;
  ok_tag : 0 ≤ tag h < 2 ^ 32;
  ok_payload : 0 ≤ payload_size h < 2 ^ 64;
  ok_count : 0 ≤ object_count h < 2 ^ 32;
  ok_pad : 0 ≤ pad h < 2 ^ 32 }.

(** The header describes the payload and object ids that follow it, and the
    payload is not so large that a vector could not hold it. *)
Record message_ok (m : message) : Prop := {
  mok_header : header_ok (m_header m);
  mok_payload : zlen (m_payload m) = payload_size (m_header m);
  mok_objects : zlen (m_objects m) = 4 * object_count (m_header m);
  mok_small : payload_size (m_header m) < 2 ^ 62 }.

(** ** Lemmas *)

Lemma zlen_le_split n z : zlen (le_split n z) = Z.of_nat n.
Proof. unfold zlen. by rewrite length_le_split. Qed.
#[export] Hint Rewrite zlen_le_split : zlen.

Lemma zlen_encode_header h : zlen (encode_header h) = 32.
Proof. unfold encode_header. rewrite !zlen_app, !zlen_le_split. lia. Qed.
#[export] Hint Rewrite zlen_encode_header : zlen.

Lemma le_combine_le_split n z :
  0 ≤ z < 2 ^ (8 * Z.of_nat n) → le_combine (le_split n z) = z.
Proof.
  intros. rewrite le_combine_split. apply Z.mod_small.
  by rewrite (Z.mul_comm (Z.of_nat n)).
Qed.

(** Reading the little-endian field that follows the prefix [pre]. *)
Lemma field_at pre n z post l off :
  l = pre ++ le_split n z ++ post → zlen pre = off → 0 ≤ z < 2 ^ (8 * Z.of_nat n) →
  field l off (Z.of_nat n) = z.
Proof.
  intros -> <- Hz. unfold field. rewrite zdrop_app by done.
  rewrite ztake_app by (by rewrite zlen_le_split). by apply le_combine_le_split.
Qed.

(** Solves [field (encode_header h) off n = f] from the fields before [f]. *)
Ltac solve_field n pre z post :=
  apply (field_at pre n z post); [by rewrite <- ?app_assoc, ?app_nil_r | zlia | lia].

Lemma decode_encode_header h : header_ok h → decode_header (encode_header h) = h.
Proof.
  intros []. destruct h as [d o c t p n q]; cbn in *.
  unfold decode_header, encode_header; cbn.
  f_equal.
  - solve_field 4%nat (@nil byte) d (le_split 4 o ++ le_split 4 c ++ le_split 4 t ++
      le_split 8 p ++ le_split 4 n ++ le_split 4 q).
  - solve_field 4%nat (le_split 4 d) o (le_split 4 c ++ le_split 4 t ++
      le_split 8 p ++ le_split 4 n ++ le_split 4 q).
  - solve_field 4%nat (le_split 4 d ++ le_split 4 o) c (le_split 4 t ++
      le_split 8 p ++ le_split 4 n ++ le_split 4 q).
  - solve_field 4%nat (le_split 4 d ++ le_split 4 o ++ le_split 4 c) t
      (le_split 8 p ++ le_split 4 n ++ le_split 4 q).
  - solve_field 8%nat (le_split 4 d ++ le_split 4 o ++ le_split 4 c ++ le_split 4 t) p
      (le_split 4 n ++ le_split 4 q).
  - solve_field 4%nat (le_split 4 d ++ le_split 4 o ++ le_split 4 c ++ le_split 4 t ++
      le_split 8 p) n (le_split 4 q).
  - solve_field 4%nat (le_split 4 d ++ le_split 4 o ++ le_split 4 c ++ le_split 4 t ++
      le_split 8 p ++ le_split 4 n) q (@nil byte).
Qed.

Lemma le_combine_range l : 0 ≤ le_combine l < 2 ^ (8 * zlen l).
Proof. apply le_combine_bound. Qed.

Lemma field_range l off n : 0 ≤ n → 0 ≤ field l off n < 2 ^ (8 * n).
Proof.
  intros Hn. unfold field. pose proof (le_combine_range (ztake n (zdrop off l))) as [? Hlt].
  split; [done|]. eapply Z.lt_le_trans; [exact Hlt|].
  apply Z.pow_le_mono_r; [lia|]. rewrite zlen_ztake. pose proof (zlen_nonneg (zdrop off l)). lia.
Qed.

(** Whatever 32 bytes arrive, the decoded fields are in range. *)
Lemma decode_header_ok l : header_ok (decode_header l).
Proof.
  unfold decode_header; constructor; cbn -[field]; apply (field_range l); lia.
Qed.

Lemma split_combine_take l off n :
  0 ≤ off → off + Z.of_nat n ≤ zlen l →
  le_split n (field l off (Z.of_nat n)) = ztake (Z.of_nat n) (zdrop off l).
Proof.
  intros. unfold field. apply split_le_combine'.
  pose proof (zlen_ztake (Z.of_nat n) (zdrop off l)) as E. rewrite zlen_zdrop in E.
  unfold zlen in *. lia.
Qed.

(** Any 32 bytes are the representation of the header they decode to. *)
Lemma encode_decode_header l : zlen l = 32 → encode_header (decode_header l) = l.
Proof.
  intros Hl. unfold encode_header, decode_header; cbn -[field].
  assert (∀ off, 0 ≤ off → off + 4 ≤ zlen l →
    le_split 4 (field l off 4) = ztake 4 (zdrop off l)) as H4
    by (intros; apply (split_combine_take l off 4); lia).
  assert (le_split 8 (field l 16 8) = ztake 8 (zdrop 16 l)) as -> 
    by (apply (split_combine_take l 16 8); lia).
  rewrite !H4 by lia.
  rewrite (ztake_all _ (zdrop 28 l)) by zlia.
  assert (∀ a n b : Z, 0 ≤ a → 0 ≤ n → a + n = b →
    ztake n (zdrop a l) ++ zdrop b l = zdrop a l) as Hj.
  { intros a n b ? ? <-. rewrite <- (zdrop_zdrop n a) by lia. apply ztake_zdrop. }
  rewrite (Hj 24 4 28), (Hj 16 8 24), (Hj 12 4 16), (Hj 8 4 12), (Hj 4 4 8), (Hj 0 4 4) by lia.
  by apply zdrop_0.
Qed.

(** Object ids survive the wire. *)
Lemma decode_encode_u32s ids :
  Forall (fun i => 0 ≤ i < 2 ^ 32) ids →
  decode_u32s (zlen ids) (encode_u32s ids) = ids.
Proof.
  unfold decode_u32s, zlen. rewrite Nat2Z.id.
  induction 1 as [|i ids Hi _ IH]; [done|]. cbn [length decode_u32s_aux encode_u32s mbind list_bind].
  rewrite ztake_app, zdrop_app by (by rewrite zlen_le_split).
  rewrite le_combine_le_split by (cbn; lia). f_equal. exact IH.
Qed.

Lemma zlen_encode_u32s ids : zlen (encode_u32s ids) = 4 * zlen ids.
Proof.
  induction ids as [|i ids IH]; [done|]. change (encode_u32s (i :: ids)) with
    (le_split 4 i ++ encode_u32s ids). rewrite zlen_app, zlen_le_split, zlen_cons, IH. lia.
Qed.
#[export] Hint Rewrite zlen_encode_u32s : zlen.

Lemma zlen_encode_message m :
  message_ok m →
  zlen (encode_message m) = 32 + payload_size (m_header m) + 4 * object_count (m_header m).
Proof.
  intros []. unfold encode_message. rewrite !zlen_app, zlen_encode_header. lia.
Qed.

End Protocol.
