(* ===== verification/MessageConnection.v ===== *)
(** * twib/common: framed messages over a byte stream

    [MessageConnection] cuts the bytes of [in_buffer] into messages (header,
    payload, object ids) and queues outgoing ones in [out_buffer].  How bytes get
    in and out is left to two virtual methods, [RequestInput] and
    [RequestOutput]; [SocketMessageConnection] implements them for an event loop
    that signals readability and writability.  The semaphore around [out_buffer]
    only serialises threads and is not modelled: an operation is one step. *)
From S2P Require Import Prelude Buffer Protocol.
Import Buffer Protocol.

Module MessageConnection.

(** [MessageConnection::Request] *)
Record Request : Type := mkRequest {
  mh : MessageHeader;
  payload : Buffer.t;
  object_ids : Buffer.t }.

Record MC : Type := mkMC {
  error_flag : bool;
  in_buffer : Buffer.t;
  out_buffer : Buffer.t;
  current_rq : Request;
  has_current_mh : bool;
  has_current_payload : bool }.

Definition set_in (c : MC) (b : Buffer.t) : MC :=
  mkMC (error_flag c) b (out_buffer c) (current_rq c) (has_current_mh c)
    (has_current_payload c).
Definition set_out (c : MC) (b : Buffer.t) : MC :=
  mkMC (error_flag c) (in_buffer c) b (current_rq c) (has_current_mh c)
    (has_current_payload c).
Definition set_error (c : MC) : MC :=
  mkMC true (in_buffer c) (out_buffer c) (current_rq c) (has_current_mh c)
    (has_current_payload c).
Definition set_rq (c : MC) (rq : Request) (m p : bool) : MC :=
  mkMC (error_flag c) (in_buffer c) (out_buffer c) rq m p.

(** How an iteration of the loop of [Process] ends. *)
Inductive control : Type :=
| Fallthrough                       (* go on to the next [if] *)
| Continue                          (* back to the loop's condition *)
| Return (rq : option Request).     (* [return], [nullptr] for [None] *)

Section Process.
Context {Env : Type}.
(** The virtual methods; they return true when more data was obtained. *)
Variable RequestInput : Env → MC → outcome (Env * MC * bool).
Variable RequestOutput : Env → MC → outcome (Env * MC * bool).

(** [in_buffer.Reserve(n); if(RequestInput()) { continue; } return nullptr;] *)
Definition starve (e : Env) (c : MC) (n : Z) : outcome (Env * MC * control) :=
  '(b, _) ← Reserve (in_buffer c) n;
  '(e, c, more) ← RequestInput e (set_in c b);
  Done (e, c, if more : bool then Continue else Return None).

Definition Process_header (e : Env) (c : MC) : outcome (Env * MC * control) :=
  if has_current_mh c then Done (e, c, Fallthrough)
  else
    '(b, got) ← Read (in_buffer c) sizeof_MessageHeader;
    let c := set_in c b in
    match got with
    | Some l =>
        let rq := mkRequest (decode_header l) (Clear (payload (current_rq c)))
                    (object_ids (current_rq c)) in
        Done (e, set_rq c rq true false, Fallthrough)
    | None => starve e c sizeof_MessageHeader
    end.

Definition Process_payload (e : Env) (c : MC) : outcome (Env * MC * control) :=
  if has_current_payload c then Done (e, c, Fallthrough)
  else
    let rq := current_rq c in
    let n := payload_size (mh rq) in
    '(b, p, ok) ← Read_buffer (in_buffer c) (payload rq) n;
    let c := set_in c b in
    if ok : bool then
      Done (e, set_rq c (mkRequest (mh rq) p (Clear (object_ids rq))) true true,
            Fallthrough)
    else starve e (set_rq c (mkRequest (mh rq) p (object_ids rq))
                     (has_current_mh c) false) n.

Definition Process_objects (e : Env) (c : MC) : outcome (Env * MC * control) :=
  let rq := current_rq c in
  let n := u64 (object_count (mh rq) * 4) in
  '(b, o, ok) ← Read_buffer (in_buffer c) (object_ids rq) n;
  let c := set_in c b in
  let rq := mkRequest (mh rq) (payload rq) o in
  if ok : bool then Done (e, set_rq c rq false false, Return (Some rq))
  else starve e (set_rq c rq (has_current_mh c) (has_current_payload c)) n.

(** The loop's body. *)
Definition Process_body (e : Env) (c : MC) : outcome (Env * MC * control) :=
  '(e, c, k) ← Process_header e c;
  match k with
  | Fallthrough =>
      '(e, c, k) ← Process_payload e c;
      match k with
      | Fallthrough => Process_objects e c
      | _ => Done (e, c, k)
      end
  | _ => Done (e, c, k)
  end.

(** [while(in_buffer.ReadAvailable() > 0 || RequestInput()) { ... } return nullptr;] *)
Fixpoint Process (fuel : nat) (e : Env) (c : MC) : outcome (Env * MC * option Request) :=
  match fuel with
  | O => OutOfFuel
  | S fuel =>
      '(e, c, go) ← (if 0 <? ReadAvailable (in_buffer c) then Done (e, c, true)
                     else RequestInput e c);
      if go : bool then
        '(e, c, k) ← Process_body e c;
        match k with
        | Return rq => Done (e, c, rq)
        | _ => Process fuel e c
        end
      else Done (e, c, None)
  end.

(** [SendMessage]: the results of the three writes are ignored. *)
Definition SendMessage (e : Env) (c : MC) (h : MessageHeader) (p : bytes) (ids : list Z)
  : outcome (Env * MC * bool) :=
  '(o, _) ← Write (out_buffer c) (encode_header h);
  '(o, _) ← Write o p;
  '(o, _) ← Write o (encode_u32s ids);
  RequestOutput e (set_out c o).
End Process.

(** ** SocketMessageConnection *)

(** [Env] counts the notifications sent to the event loop. *)
Definition Socket_RequestInput (e : nat) (c : MC) : outcome (nat * MC * bool) :=
  Done (e, c, false).
Definition Socket_RequestOutput (e : nat) (c : MC) : outcome (nat * MC * bool) :=
  Done (S e, c, false).

Definition WantsRead (c : MC) : bool := true.
Definition WantsWrite (c : MC) : bool := 0 <? ReadAvailable (out_buffer c).

(** [SignalRead]: [r] is what [recv] delivers into the reserved room, [None] for
    an error; an orderly shutdown delivers no bytes. *)
Definition SignalRead (c : MC) (r : option bytes) : outcome MC :=
  '(b, avail) ← Reserve (in_buffer c) 8192;
  let c := set_in c b in
  match r with
  | None | Some [] => Done (set_error c)
  | Some io =>
      if avail <? zlen io then Undefined
      else
        b ← store b 0 io;
        Done (set_in c (MarkWritten b (zlen io)))
  end.

(** [SignalWrite]: [r] is the result of [send] on the pending output. *)
Definition SignalWrite (c : MC) (r : Z) : MC :=
  if 0 <? ReadAvailable (out_buffer c) then
    if r <? 0 then set_error c
    else if 0 <? r then set_out c (MarkRead (out_buffer c) r)
    else c
  else c.

Definition SignalError (c : MC) : MC := set_error c.

Definition init : MC :=
  mkMC false Buffer_default Buffer_default
    (mkRequest (mkHeader 0 0 0 0 0 0 0) Buffer_default Buffer_default) false false.

(** The socket's [Process]: no input can be requested, so one pass of the loop is
    all there is ([process_fuel] below). *)
Definition Socket_Process (e : nat) (c : MC) : outcome (nat * MC * option Request) :=
  Process Socket_RequestInput 1 e c.

Definition message_of (rq : Request) : message :=
  mkMessage (mh rq) (contents (payload rq)) (contents (object_ids rq)).

(** The drain loop of the event loop's [Prepare] methods:
    [while((rq = connection.Process()) != nullptr) { handle(rq); }]. *)
Fixpoint drain (fuel : nat) (c : MC) : outcome (MC * list message) :=
  match fuel with
  | O => OutOfFuel
  | S fuel =>
      '(_, c, rq) ← Socket_Process O c;
      match rq with
      | None => Done (c, [])
      | Some rq => '(c, ms) ← drain fuel c; Done (c, message_of rq :: ms)
      end
  end.

(** The event loop on an incoming stream: for each chunk [recv] delivers,
    [SignalRead], then [Prepare] drains. *)
Fixpoint receive (fuel : nat) (c : MC) (chunks : list bytes) : outcome (MC * list message) :=
  match chunks with
  | [] => Done (c, [])
  | io :: chunks =>
      c ← SignalRead c (Some io);
      '(c, ms) ← drain fuel c;
      '(c, ms') ← receive fuel c chunks;
      Done (c, ms ++ ms')
  end.

(** Sending a list of messages, and what is then pending on the wire. *)
Definition send_all (c : MC) (ms : list (MessageHeader * bytes * list Z)) : outcome MC :=
  foldl (fun acc '(h, p, ids) =>
    c ← acc; '(_, c, _) ← SendMessage Socket_RequestOutput O c h p ids; Done c)
    (Done c) ms.

(** A message to send: [SendMessage]'s three arguments, and the message they make. *)
Definition send_message (x : MessageHeader * bytes * list Z) : message :=
  let '(h, p, ids) := x in mkMessage h p (encode_u32s ids).

(** ** Specification: parsing one message off a byte stream *)

Definition parse (l : bytes) : option (message * bytes) :=
  if zlen l <? 32 then None
  else
    let h := decode_header (ztake 32 l) in
    let n := 32 + payload_size h + 4 * object_count h in
    if zlen l <? n then None
    else Some (mkMessage h (ztake (payload_size h) (zdrop 32 l))
                 (ztake (4 * object_count h) (zdrop (32 + payload_size h) l)),
               zdrop n l).

Definition stream (ms : list message) : bytes := ms ≫= encode_message.

(** Two messages, used by the witnesses, and a connection that holds their bytes. *)
Definition example_sends : list (MessageHeader * bytes * list Z) :=
  [(mkHeader 1 0 16 7 3 0 0, str "abc", []); (mkHeader 1 2 10 8 0 2 0, [], [5; 70000])].

Definition example_conn : MC :=
  set_in init (Buffer_of (stream (send_message <$> example_sends))).

(** The bytes of the connection that have not become a message yet. *)
Definition residue (c : MC) : bytes :=
  (if has_current_mh c then
     encode_header (mh (current_rq c)) ++
     (if has_current_payload c then contents (payload (current_rq c)) else [])
   else []) ++ contents (in_buffer c).

Record inv0 (c : MC) : Prop := {
  inv_in : plain (in_buffer c);
  inv_payload : plain (payload (current_rq c));
  inv_objects : plain (object_ids (current_rq c));
  inv_mh : has_current_mh c = true →
    header_ok (mh (current_rq c)) ∧ payload_size (mh (current_rq c)) < 2 ^ 62;
  inv_pl : has_current_payload c = true →
    has_current_mh c = true ∧
    zlen (contents (payload (current_rq c))) = payload_size (mh (current_rq c));
  inv_nopl : has_current_mh c = true → has_current_payload c = false →
    contents (payload (current_rq c)) = [];
  inv_obj : has_current_payload c = true → contents (object_ids (current_rq c)) = [] }.

(** Between calls of [Process] a header is only kept while something of its message
    is missing. *)
Definition need (c : MC) : Prop :=
  has_current_mh c = true →
  if has_current_payload c then 0 < object_count (mh (current_rq c))
  else 0 < payload_size (mh (current_rq c)).

Definition inv (c : MC) : Prop := inv0 c ∧ need c.

(** ** Lemmas *)

Lemma init_inv : inv init ∧ residue init = [].
Proof.
  destruct Buffer_default_wf as [? ?].
  split; [split; [constructor; cbn; try done; split; done | done] | done].
Qed.

(** Equation of [parse] on a stream that starts with a header. *)
Lemma parse_header h l :
  header_ok h →
  parse (encode_header h ++ l) =
    let n := payload_size h + 4 * object_count h in
    if zlen l <? n then None
    else Some (mkMessage h (ztake (payload_size h) l)
                 (ztake (4 * object_count h) (zdrop (payload_size h) l)), zdrop n l).
Proof.
  intros Hh. pose proof Hh as []. unfold parse.
  assert (zlen (encode_header h ++ l) <? 32 = false) as -> by (apply Z.ltb_ge; zlia).
  rewrite (ztake_app 32) by (by rewrite zlen_encode_header).
  rewrite decode_encode_header by done. cbn.
  assert (zlen (encode_header h ++ l) <? 32 + payload_size h + 4 * object_count h
          = (zlen l <? payload_size h + 4 * object_count h)) as ->.
  { rewrite zlen_app, zlen_encode_header. destruct (Z.ltb_spec (zlen l) (payload_size h + 4 * object_count h));
      [apply Z.ltb_lt | apply Z.ltb_ge]; lia. }
  destruct (zlen l <? _); [done|].
  rewrite (zdrop_app 32) by (by rewrite zlen_encode_header).
  rewrite !zdrop_app_ge by (rewrite zlen_encode_header; lia).
  rewrite zlen_encode_header. do 3 f_equal; try lia. do 2 f_equal. lia.
Qed.

(** What [Process] does on a connection whose unparsed bytes are [residue c]: it
    takes one message off the front when a whole one is there. *)
Definition process_post (c : MC) (r : option Request) (c' : MC) : Prop :=
  inv c' ∧
  match r with
  | Some rq => parse (residue c) = Some (message_of rq, residue c') ∧
               has_current_mh c' = false
  | None => parse (residue c) = None ∧ residue c' = residue c
  end.

Lemma starve_spec c n :
  inv0 c → 0 ≤ n < 2 ^ 62 → zlen (contents (in_buffer c)) ≤ 2 ^ 62 →
  ∃ b, starve Socket_RequestInput O c n = Done (O, set_in c b, Return None) ∧
    plain b ∧ contents b = contents (in_buffer c).
Proof.
  intros [] Hn Hsz. destruct (Reserve_plain (in_buffer c) n) as (b & a & E & Hb & Hc & _ & _);
    [done|lia|unfold vector_max_size; lia|].
  unfold starve. rewrite E. cbn. by exists b.
Qed.

Lemma set_in_same c b :
  inv0 c → plain b → contents b = contents (in_buffer c) →
  inv0 (set_in c b) ∧ residue (set_in c b) = residue c.
Proof.
  intros [] ? Hc. split; [by constructor|]. unfold residue; cbn. by rewrite Hc.
Qed.

Lemma residue_payload c :
  inv0 c → has_current_payload c = true →
  residue c = encode_header (mh (current_rq c)) ++
    contents (payload (current_rq c)) ++ contents (in_buffer c).
Proof.
  intros [] Hp. destruct (inv_pl0 Hp) as [Hm _]. unfold residue.
  by rewrite Hm, Hp, <- app_assoc.
Qed.

Lemma residue_header c :
  inv0 c → has_current_mh c = true → has_current_payload c = false →
  residue c = encode_header (mh (current_rq c)) ++ contents (in_buffer c).
Proof. intros [] Hm Hp. unfold residue. by rewrite Hm, Hp, app_nil_r. Qed.

(** The object ids, once the payload is complete. *)
Lemma Process_objects_spec c :
  inv0 c → has_current_payload c = true → zlen (contents (in_buffer c)) ≤ 2 ^ 62 →
  ∃ c' r, Process_objects Socket_RequestInput O c = Done (O, c', Return r) ∧
    process_post c r c'.
Proof.
  intros H Hp Hsz. pose proof H as []. destruct (inv_pl0 Hp) as [Hm Hpl].
  destruct (inv_mh0 Hm) as [Hh Hs]. pose proof Hh as []. set (h := mh (current_rq c)) in *.
  pose proof (residue_payload c H Hp) as Hres. fold h in Hres.
  pose proof (parse_header h (contents (payload (current_rq c)) ++ contents (in_buffer c)) Hh)
    as Hparse.
  rewrite <- Hres in Hparse. cbn zeta in Hparse. rewrite zlen_app, Hpl in Hparse.
  unfold Process_objects. fold h. rewrite u64_small by lia.
  destruct (Read_buffer_spec (in_buffer c) (object_ids (current_rq c)) (object_count h * 4))
    as (b & o & E & Hb & Ho & Hbc & Hoc); [done|done|auto|unfold vector_max_size; lia|].
  rewrite E. cbn [mbind outcome_bind]. case_decide as Hle.
  - rewrite bool_decide_eq_true_2 by done. eexists _, _. split; [done|].
    rewrite (proj2 (Z.ltb_ge _ _)) in Hparse by lia.
    split; [split; [constructor; cbn; try done|]; done|]. split; [|done].
    rewrite Hparse. unfold message_of; cbn.
    rewrite ztake_app, (zdrop_app (payload_size h)) by done.
    rewrite Hoc. unfold residue; cbn. rewrite Hbc.
    rewrite (zdrop_app_ge) by lia. rewrite Hpl.
    replace (payload_size h + 4 * object_count h - payload_size h) with (object_count h * 4)
      by lia.
    by replace (4 * object_count h) with (object_count h * 4) by lia.
  - rewrite bool_decide_eq_false_2 by done.
    set (c1 := set_rq _ _ _ _).
    assert (inv0 c1 ∧ residue c1 = residue c ∧ contents (in_buffer c1) = contents (in_buffer c))
      as (Hc1 & Hr1 & Hi1).
    { subst c1. split; [constructor; cbn; rewrite ?Hp; try done|].
      unfold residue; cbn. rewrite Hbc. done. }
    destruct (starve_spec c1 (object_count h * 4) Hc1 ltac:(lia)) as (b' & -> & Hb' & Hc');
      [rewrite Hi1; done|].
    destruct (set_in_same c1 b' Hc1 Hb' Hc') as [? Hr'].
    eexists _, _. split; [done|]. split.
    + split; [done|]. intros _. cbn. rewrite Hp. fold h. zlia.
    + rewrite (proj2 (Z.ltb_lt _ _)) in Hparse by lia. split; [done|congruence].
Qed.

(** The payload, once the header is there. *)
Lemma Process_payload_spec c :
  inv0 c → has_current_mh c = true → zlen (contents (in_buffer c)) ≤ 2 ^ 62 →
  ∃ c' k, Process_payload Socket_RequestInput O c = Done (O, c', k) ∧
    match k with
    | Fallthrough => inv0 c' ∧ has_current_payload c' = true ∧ residue c' = residue c ∧
                     zlen (contents (in_buffer c')) ≤ 2 ^ 62
    | Continue => False
    | Return r => process_post c r c'
    end.
Proof.
  intros H Hm Hsz. pose proof H as [].
  destruct (inv_mh0 Hm) as [Hh Hs]. pose proof Hh as []. set (h := mh (current_rq c)) in *.
  unfold Process_payload. fold h. destruct (has_current_payload c) eqn:Hp.
  { exists c, Fallthrough. done. }
  pose proof (residue_header c H Hm Hp) as Hres. fold h in Hres.
  pose proof (parse_header h (contents (in_buffer c)) Hh) as Hparse.
  rewrite <- Hres in Hparse. cbn zeta in Hparse.
  destruct (Read_buffer_spec (in_buffer c) (payload (current_rq c)) (payload_size h))
    as (b & p & E & Hb & Ho & Hbc & Hoc); [done|done|auto|unfold vector_max_size; lia|].
  rewrite E. cbn [mbind outcome_bind]. case_decide as Hle.
  - rewrite bool_decide_eq_true_2 by done. eexists _, _. split; [done|]. cbn.
    destruct (Clear_wf (object_ids (current_rq c)) (proj1 inv_objects0)) as [? ?].
    split_and!; [|done| |].
    + constructor; cbn; try done; try (split; done); rewrite ?Hoc; try (split; done).
      * split; [done|]. apply inv_objects0.
      * split; [done|]. fold h. zlia.
    + rewrite Hres. unfold residue; cbn. rewrite Hoc, Hbc. fold h.
      by rewrite <- app_assoc, ztake_zdrop.
    + rewrite Hbc. zlia.
  - rewrite bool_decide_eq_false_2 by done.
    set (c1 := set_rq _ _ _ _).
    assert (inv0 c1 ∧ residue c1 = residue c ∧ contents (in_buffer c1) = contents (in_buffer c))
      as (Hc1 & Hr1 & Hi1).
    { subst c1. split; [constructor; cbn; try done|].
      unfold residue; cbn. rewrite Hbc, Hp. done. }
    destruct (starve_spec c1 (payload_size h) Hc1 ltac:(lia)) as (b' & -> & Hb' & Hc');
      [rewrite Hi1; done|].
    destruct (set_in_same c1 b' Hc1 Hb' Hc') as [? Hr'].
    eexists _, _. split; [done|]. cbn. split.
    + split; [done|]. intros _. cbn. fold h. zlia.
    + rewrite (proj2 (Z.ltb_lt _ _)) in Hparse by lia. split; [done|congruence].
Qed.

(** The next header on the stream announces a payload that a vector can hold. *)
Definition next_ok (c : MC) : Prop :=
  has_current_mh c = false → 32 ≤ zlen (contents (in_buffer c)) →
  payload_size (decode_header (ztake 32 (contents (in_buffer c)))) < 2 ^ 62.

Lemma Process_header_spec c :
  inv c → next_ok c → zlen (contents (in_buffer c)) ≤ 2 ^ 62 →
  ∃ c' k, Process_header Socket_RequestInput O c = Done (O, c', k) ∧
    match k with
    | Fallthrough => inv0 c' ∧ has_current_mh c' = true ∧ residue c' = residue c ∧
                     zlen (contents (in_buffer c')) ≤ 2 ^ 62
    | Continue => False
    | Return r => process_post c r c'
    end.
Proof.
  intros [H Hneed] Hnext Hsz. pose proof H as []. unfold Process_header.
  destruct (has_current_mh c) eqn:Hm; [by exists c, Fallthrough|].
  specialize (Hnext Hm).
  assert (has_current_payload c = false) as Hp.
  { destruct (has_current_payload c); [|done]. by destruct inv_pl0 as [? _]. }
  assert (residue c = contents (in_buffer c)) as Hres by (unfold residue; by rewrite Hm).
  pose proof (Read_spec (in_buffer c) 32 (proj1 inv_in0) ltac:(lia)) as HR.
  unfold sizeof_MessageHeader. case_decide as Hle; rewrite HR; cbn [mbind outcome_bind].
  - eexists _, _. split; [done|]. cbn.
    destruct (MarkRead_spec (in_buffer c) 32 (proj1 inv_in0) ltac:(lia)) as [? Hc].
    destruct (Clear_wf (payload (current_rq c)) (proj1 inv_payload0)) as [? ?].
    split_and!; [|done| |].
    + constructor; cbn; try done.
      * split; [done|]. apply inv_in0.
      * split; [done|]. apply inv_payload0.
      * intros _. split; [apply decode_header_ok | auto].
    + rewrite Hres. unfold residue; cbn. rewrite app_nil_r, Hc.
      rewrite encode_decode_header by zlia. apply ztake_zdrop.
    + rewrite Hc. zlia.
  - destruct (starve_spec c 32 H ltac:(lia) Hsz) as (b' & E & Hb' & Hc').
    destruct (set_in_same c b' H Hb' Hc') as [? Hr'].
    assert (set_in (set_in c (in_buffer c)) b' = set_in c b') as Hset by done.
    replace (set_in c (in_buffer c)) with c by (destruct c; done).
    rewrite E. eexists _, _. split; [done|]. cbn. split.
    + split; [done|]. intros Hm'. cbn in Hm'. congruence.
    + split; [|done]. unfold parse. rewrite Hres. by rewrite (proj2 (Z.ltb_lt _ _)) by lia.
Qed.

(** [Process] on a socket: it returns, takes the first message of the unparsed bytes
    when it is complete, and otherwise returns null and keeps every byte. *)
Lemma Socket_Process_spec c :
  inv c → next_ok c → zlen (contents (in_buffer c)) ≤ 2 ^ 62 →
  ∃ c' r, Socket_Process O c = Done (O, c', r) ∧ process_post c r c'.
Proof.
  intros H Hnext Hsz. unfold Socket_Process. cbn [Process].
  pose proof H as [H0 Hneed]. pose proof H0 as [].
  rewrite ReadAvailable_contents by apply inv_in0.
  destruct (Z.ltb_spec 0 (zlen (contents (in_buffer c)))) as [Hpos|Hempty].
  - cbn [mbind outcome_bind].
    destruct (Process_header_spec c H Hnext Hsz) as (c1 & k1 & E1 & Hk1).
    unfold Process_body. rewrite E1. cbn [mbind outcome_bind].
    destruct k1 as [| |r]; [|done|by exists c1, r].
    destruct Hk1 as (H1 & Hm1 & Hr1 & Hs1).
    destruct (Process_payload_spec c1 H1 Hm1 Hs1) as (c2 & k2 & E2 & Hk2).
    rewrite E2. cbn [mbind outcome_bind]. unfold process_post in *. rewrite <- Hr1.
    destruct k2 as [| |r]; [|done|by exists c2, r].
    destruct Hk2 as (H2 & Hp2 & Hr2 & Hs2).
    destruct (Process_objects_spec c2 H2 Hp2 Hs2) as (c3 & r & E3 & Hk3).
    rewrite E3. cbn. exists c3, r. unfold process_post in Hk3. rewrite Hr2 in Hk3. done.
  - cbn. exists c, None. split; [done|]. split; [done|]. split; [|done].
    apply zlen_0_inv in Hempty. unfold residue. rewrite Hempty, app_nil_r.
    unfold need in Hneed. destruct (has_current_mh c) eqn:Hm; [|done].
    destruct (inv_mh0 eq_refl) as [Hh _]. pose proof Hh as []. specialize (Hneed eq_refl).
    rewrite parse_header by done. cbn zeta. rewrite (proj2 (Z.ltb_lt _ _)); [done|].
    destruct (has_current_payload c) eqn:Hp; [|zlia].
    destruct (inv_pl0 eq_refl) as [_ ->]. lia.
Qed.

(** ** Streams of messages *)

Lemma parse_app l k m r : parse l = Some (m, r) → parse (l ++ k) = Some (m, r ++ k).
Proof.
  unfold parse. destruct (Z.ltb_spec (zlen l) 32); [done|].
  rewrite (proj2 (Z.ltb_ge (zlen (l ++ k)) 32)) by zlia.
  rewrite (ztake_app_le 32) by lia. set (h := decode_header (ztake 32 l)).
  pose proof (decode_header_ok (ztake 32 l)) as Hh. fold h in Hh. destruct Hh.
  destruct (Z.ltb_spec (zlen l) (32 + payload_size h + 4 * object_count h)); [done|].
  rewrite (proj2 (Z.ltb_ge (zlen (l ++ k)) _)) by zlia.
  intros [= <- <-]. rewrite !zdrop_app_le by lia. rewrite !ztake_app_le by zlia. done.
Qed.

Lemma parse_encode m k : message_ok m → parse (encode_message m ++ k) = Some (m, k).
Proof.
  intros []. pose proof mok_header0 as []. destruct m as [h p o]; cbn in *.
  unfold encode_message; cbn. rewrite <- app_assoc, parse_header by done. cbn zeta.
  rewrite (proj2 (Z.ltb_ge _ _)) by zlia. rewrite <- app_assoc.
  rewrite ztake_app, zdrop_app, ztake_app by lia.
  rewrite app_assoc, zdrop_app by zlia. done.
Qed.

Lemma residue_length c : inv c → zlen (contents (in_buffer c)) ≤ zlen (residue c).
Proof. intros _. unfold residue. zlia. Qed.

(** The bytes present are a prefix of a stream of good messages. *)
Lemma stream_next_ok c ms k :
  inv c → Forall message_ok ms → residue c ++ k = stream ms → next_ok c.
Proof.
  intros _ Hms Heq Hm Hlen. unfold residue in Heq. rewrite Hm in Heq; cbn in Heq.
  destruct Hms as [|m ms Hok _].
  - assert (zlen (contents (in_buffer c) ++ k) = 0) by (rewrite Heq; done). zlia.
  - destruct Hok. cbn in Heq. rewrite <- (ztake_app_le 32 _ k) by lia.
    rewrite Heq. unfold encode_message. rewrite <- !app_assoc.
    rewrite ztake_app by (by rewrite zlen_encode_header).
    rewrite decode_encode_header by done. lia.
Qed.

Lemma drain_spec fuel c ms k :
  inv c → Forall message_ok ms → residue c ++ k = stream ms →
  zlen (stream ms) ≤ 2 ^ 62 → (length ms < fuel)%nat →
  ∃ c' ms1 ms2, drain fuel c = Done (c', ms1) ∧ ms = ms1 ++ ms2 ∧ inv c' ∧
    residue c' ++ k = stream ms2 ∧ parse (residue c') = None.
Proof.
  revert c ms. induction fuel as [|fuel IH]; intros c ms H Hms Heq Hsz Hfuel; [lia|].
  assert (zlen (residue c) ≤ 2 ^ 62) by (rewrite <- Heq in Hsz; zlia).
  pose proof (residue_length c H).
  destruct (Socket_Process_spec c H) as (c1 & r & E & Hi1 & Hr);
    [by eapply stream_next_ok|lia|].
  cbn [drain]. rewrite E. cbn [mbind outcome_bind]. destruct r as [rq|].
  - destruct Hr as [Hp _]. pose proof (parse_app _ k _ _ Hp) as Hpk. rewrite Heq in Hpk.
    destruct Hms as [|m ms Hok Hms]; [done|]. cbn in Hpk.
    rewrite parse_encode in Hpk by done. injection Hpk as Hmm Hrest. rewrite <- Hmm.
    destruct (IH c1 ms) as (c' & ms1 & ms2 & E' & -> & ? & ? & ?); try done.
    + cbn in Hsz. rewrite zlen_app in Hsz. change (zlen (stream ms) ≤ 2 ^ 62).
      pose proof (zlen_nonneg (encode_message m)). unfold stream in *. lia.
    + cbn in Hfuel. lia.
    + rewrite E'. cbn. by exists c', (m :: ms1), ms2.
  - destruct Hr as [Hp Hres]. exists c1, [], ms. cbn. rewrite Hres. done.
Qed.

(** One [recv]: the bytes join the unparsed ones. *)
Lemma SignalRead_spec c io :
  inv c → 0 < zlen io ≤ 8192 → zlen (contents (in_buffer c)) ≤ 2 ^ 62 →
  ∃ c', SignalRead c (Some io) = Done c' ∧ inv c' ∧ residue c' = residue c ++ io.
Proof.
  intros [H Hn] Hio Hsz. pose proof H as [[Hw Hl]].
  destruct (Fill_spec (in_buffer c) 8192 io) as (b1 & b2 & a & E1 & Ha & E2 & Hw2 & Hl2 & Hc);
    [done|lia|unfold fits; by rewrite Hl|unfold vector_max_size; lia|].
  unfold SignalRead. rewrite E1. cbn [mbind outcome_bind].
  destruct io as [|x io]; [zlia|]. rewrite (proj2 (Z.ltb_ge _ _)) by lia.
  cbn [set_in in_buffer]. rewrite E2. cbn [mbind outcome_bind].
  eexists; split; [done|]. split; [split; [|done]|].
  - constructor; cbn; try done. split; [done|cbn; congruence].
  - unfold residue. cbn [set_in in_buffer has_current_mh has_current_payload current_rq].
    by rewrite Hc, app_assoc.
Qed.

Lemma receive_spec fuel c ms chunks :
  inv c → Forall message_ok ms → residue c ++ concat chunks = stream ms →
  Forall (fun io => 0 < zlen io ≤ 8192) chunks →
  zlen (stream ms) ≤ 2 ^ 62 → (length ms < fuel)%nat → parse (residue c) = None →
  ∃ c', receive fuel c chunks = Done (c', ms) ∧ inv c' ∧ residue c' = [].
Proof.
  intros H Hms Heq Hch. revert c ms H Hms Heq.
  induction Hch as [|io chunks Hio _ IH]; intros c ms H Hms Heq Hsz Hfuel Hnone.
  - rewrite app_nil_r in Heq. destruct Hms as [|m ms Hok Hms].
    + by exists c.
    + rewrite Heq in Hnone. cbn in Hnone. by rewrite parse_encode in Hnone.
  - pose proof (residue_length c H).
    assert (zlen (residue c) ≤ 2 ^ 62) by (rewrite <- Heq in Hsz; zlia).
    destruct (SignalRead_spec c io H Hio ltac:(lia)) as (c1 & E1 & Hi1 & Hr1).
    cbn in Heq. rewrite app_assoc, <- Hr1 in Heq.
    destruct (drain_spec fuel c1 ms (concat chunks) Hi1 Hms Heq Hsz Hfuel)
      as (c2 & ms1 & ms2 & E2 & -> & H2 & Heq2 & Hp2).
    apply Forall_app in Hms as [_ Hms2].
    destruct (IH c2 ms2 H2 Hms2 Heq2) as (c3 & E3 & H3 & Hr3); try done.
    + unfold stream in *. rewrite bind_app, zlen_app in Hsz.
      pose proof (zlen_nonneg (ms1 ≫= encode_message)). lia.
    + rewrite length_app in Hfuel. lia.
    + cbn [receive]. rewrite E1. cbn [mbind outcome_bind]. rewrite E2.
      cbn [mbind outcome_bind]. rewrite E3. cbn. by exists c3.
Qed.

(** [SendMessage] appends the message's representation to the pending output. *)
Lemma SendMessage_spec c h p ids :
  plain (out_buffer c) →
  zlen (contents (out_buffer c)) + zlen (encode_message (send_message (h, p, ids))) ≤ 2 ^ 62 →
  ∃ c', SendMessage Socket_RequestOutput O c h p ids = Done (1%nat, c', false) ∧
    plain (out_buffer c') ∧
    contents (out_buffer c') = contents (out_buffer c) ++ encode_message (send_message (h, p, ids)).
Proof.
  intros [Hw Hl] Hsz. unfold encode_message, send_message in *; cbn [m_header m_payload m_objects] in *.
  rewrite !zlen_app in Hsz. zlen_facts.
  destruct (Write_unlimited (out_buffer c) (encode_header h) Hw Hl)
    as (b1 & E1 & Hw1 & Hl1 & Hc1); [unfold vector_max_size; lia|].
  destruct (Write_unlimited b1 p Hw1 Hl1) as (b2 & E2 & Hw2 & Hl2 & Hc2);
    [rewrite Hc1, zlen_app; unfold vector_max_size; lia|].
  destruct (Write_unlimited b2 (encode_u32s ids) Hw2 Hl2) as (b3 & E3 & Hw3 & Hl3 & Hc3);
    [rewrite Hc2, Hc1, !zlen_app; unfold vector_max_size; lia|].
  unfold SendMessage. rewrite E1. cbn [mbind outcome_bind]. rewrite E2.
  cbn [mbind outcome_bind]. rewrite E3. cbn. eexists; split; [done|]. split; [done|].
  cbn. by rewrite Hc3, Hc2, Hc1, <- !app_assoc.
Qed.

Lemma send_all_spec xs c :
  plain (out_buffer c) →
  zlen (contents (out_buffer c)) + zlen (stream (send_message <$> xs)) ≤ 2 ^ 62 →
  ∃ c', send_all c xs = Done c' ∧ plain (out_buffer c') ∧
    contents (out_buffer c') = contents (out_buffer c) ++ stream (send_message <$> xs).
Proof.
  revert c. induction xs as [|[[h p] ids] xs IH]; intros c Hp Hsz.
  - exists c. cbn. by rewrite app_nil_r.
  - rewrite fmap_cons in Hsz |- *.
    change (stream (send_message (h, p, ids) :: (send_message <$> xs)))
      with (encode_message (send_message (h, p, ids)) ++ stream (send_message <$> xs)) in *.
    rewrite zlen_app in Hsz. zlen_facts.
    destruct (SendMessage_spec c h p ids Hp ltac:(lia)) as (c1 & E1 & Hp1 & Hc1).
    destruct (IH c1 Hp1) as (c2 & E2 & Hp2 & Hc2); [rewrite Hc1, zlen_app; lia|].
    exists c2. unfold send_all. cbn [foldl mbind outcome_bind]. rewrite E1.
    cbn [mbind outcome_bind]. split; [exact E2|]. split; [done|].
    by rewrite Hc2, Hc1, app_assoc.
Qed.

(** C2: end to end, the framing loses, duplicates and reorders nothing.  If one
    connection sends any list of messages whose headers describe their payloads and
    object ids, then whatever pieces (of 1 to 8192 bytes) the resulting byte stream
    is cut into on its way, a fresh connection at the other end that processes each
    piece as it arrives returns from every call, yields exactly those messages in
    order, and is left with no unparsed byte. *)
Theorem send_receive_roundtrip (xs : list (MessageHeader * bytes * list Z)) :
  Forall (fun x => message_ok (send_message x)) xs →
  zlen (stream (send_message <$> xs)) ≤ 2 ^ 62 →
  ∃ s, send_all init xs = Done s ∧
    ∀ chunks, concat chunks = contents (out_buffer s) →
      Forall (fun io => 0 < zlen io ≤ 8192) chunks →
      ∃ c, receive (S (length xs)) init chunks = Done (c, send_message <$> xs) ∧
           residue c = [].
Proof.
  intros Hok Hsz. destruct init_inv as [Hi Hr0].
  destruct Buffer_default_wf as [? Hc0].
  destruct (send_all_spec xs init) as (s & E & Hp & Hc); [by split|cbn; rewrite Hc0; zlia|].
  exists s. split; [done|]. intros chunks Heq Hch. rewrite Hc in Heq. cbn in Heq.
  destruct (receive_spec (S (length xs)) init (send_message <$> xs) chunks)
    as (c & Er & _ & Hr); try done.
  - by rewrite Forall_fmap.
  - rewrite length_fmap. lia.
  - by exists c.
Qed.

Lemma send_receive_roundtrip_witness :
  ∃ s, send_all init example_sends = Done s ∧
    ∀ chunks, concat chunks = contents (out_buffer s) →
      Forall (fun io => 0 < zlen io ≤ 8192) chunks →
      ∃ c, receive 3 init chunks = Done (c, send_message <$> example_sends) ∧
           residue c = [].
Proof.
  apply (send_receive_roundtrip example_sends).
  - repeat constructor; cbn; lia.
  - vm_compute. discriminate.
Defined.

(** one call of [Process] on a socket connection, from any state its own calls
    can leave, returns; it takes off exactly the first message of the unparsed
    bytes when a whole one is there, and otherwise returns null having consumed
    nothing; and the state it leaves is again such a state. *)
Theorem process_takes_first_message (c : MC) :
  inv c → next_ok c → zlen (contents (in_buffer c)) ≤ 2 ^ 62 →
  ∃ c' r, Socket_Process O c = Done (O, c', r) ∧ inv c' ∧
    match r with
    | Some rq => parse (residue c) = Some (message_of rq, residue c')
    | None => parse (residue c) = None ∧ residue c' = residue c
    end.
Proof.
  intros H Hn Hs. destruct (Socket_Process_spec c H Hn Hs) as (c' & r & E & Hi & Hr).
  exists c', r. split_and!; [done..|]. destruct r; tauto.
Qed.

Lemma process_takes_first_message_witness :
  ∃ c' r, Socket_Process O example_conn = Done (O, c', r) ∧ inv c' ∧
    match r with
    | Some rq => parse (residue example_conn) = Some (message_of rq, residue c')
    | None => parse (residue example_conn) = None ∧ residue c' = residue example_conn
    end.
Proof.
  apply (process_takes_first_message example_conn).
  - destruct init_inv as [[[] ?] _]. split; [|done]. constructor; try done.
  - intros _ _. vm_compute. reflexivity.
  - vm_compute. discriminate.
Defined.

(** an announced payload that no vector can hold.  On a connection between
    messages whose next 32 bytes are a header with a payload size of 2^63 or more,
    [Process] leaves by [std::length_error] whatever follows, because the payload
    buffer is grown to the announced size before the bytes are there; nothing in the
    connection catches it. *)
Theorem oversized_payload_throws (c : MC) (h : MessageHeader) (rest : bytes) :
  inv c → has_current_mh c = false →
  contents (in_buffer c) = encode_header h ++ rest → header_ok h → 2 ^ 63 ≤ payload_size h →
  Socket_Process O c = Throws length_error.
Proof.
  intros [H0 _] Hm Hc Hh Hbig. pose proof H0 as []. unfold Socket_Process. cbn [Process].
  assert (32 ≤ zlen (contents (in_buffer c))) as Hlen
    by (rewrite Hc, zlen_app, zlen_encode_header; pose proof (zlen_nonneg rest); lia).
  rewrite ReadAvailable_contents by apply inv_in0.
  rewrite (proj2 (Z.ltb_lt 0 _)) by lia. cbn [mbind outcome_bind].
  unfold Process_body, Process_header. rewrite Hm.
  pose proof (Read_spec (in_buffer c) 32 (proj1 inv_in0) ltac:(lia)) as HR.
  rewrite decide_True in HR by lia. unfold sizeof_MessageHeader. rewrite HR.
  cbn [mbind outcome_bind]. unfold Process_payload. cbn [has_current_payload set_rq].
  rewrite Hc, ztake_app by (by rewrite zlen_encode_header).
  rewrite decode_encode_header by done.
  cbn [current_rq set_rq mh payload]. unfold Read_buffer.
  rewrite Reserve_length_error; [done|apply Clear_wf; apply inv_payload0|apply inv_payload0
    |done|done|destruct Hh; lia].
Qed.

Lemma oversized_payload_throws_witness :
  Socket_Process O (set_in init (Buffer_of (encode_header (mkHeader 0 0 0 0 (2 ^ 63) 0 0))))
    = Throws length_error.
Proof.
  apply (oversized_payload_throws _ (mkHeader 0 0 0 0 (2 ^ 63) 0 0) []); try done; try reflexivity.
Defined.

End MessageConnection.
