(* ===== verification/Response.v ===== *)
(** * twili/bridge: responses

    [ResponseOpener] and [ResponseWriter] build a response on a
    [detail::ResponseState], whose virtual methods are the class [ResponseStateImpl]
    with its laws [ResponseStateLaws]; the TCP and USB bridges implement it.
    [PackingHelper] is a function on the packable values.  What a transport has sent
    is its byte log [wire]. *)
From S2P Require Import Prelude Err Protocol MessageConnection.
Import Protocol.

Module Response.
Import Err.

(** ** detail::ResponseState *)

(** [objects] holds the ids of the objects; [transport] is what the TCP and USB
    subclasses add. *)
Record ResponseState (T : Type) : Type := mk_ResponseState {
  client : Z;
  request_tag : Z;
  objects : list Z;
  transferred_size : Z;
  total_size : Z;
  expected_objects : Z;
  has_begun : bool;
  transport : T }.
Arguments mk_ResponseState {T}. Arguments client {T}. Arguments request_tag {T}.
Arguments objects {T}. Arguments transferred_size {T}. Arguments total_size {T}.
Arguments expected_objects {T}. Arguments has_begun {T}. Arguments transport {T}.

Definition new_ResponseState {T} (client tag : Z) (t : T) : ResponseState T :=
  mk_ResponseState client tag [] 0 0 0 false t.
Definition set_transport {T} (r : ResponseState T) (t : T) : ResponseState T :=
  mk_ResponseState (client r) (request_tag r) (objects r) (transferred_size r)
    (total_size r) (expected_objects r) (has_begun r) t.
Definition add_transferred {T} (r : ResponseState T) (n : Z) : ResponseState T :=
  mk_ResponseState (client r) (request_tag r) (objects r) (u64 (transferred_size r + n))
    (total_size r) (expected_objects r) (has_begun r) (transport r).
Definition set_begun {T} (r : ResponseState T) (size count : Z) : ResponseState T :=
  mk_ResponseState (client r) (request_tag r) (objects r) (transferred_size r)
    size count true (transport r).
Definition push_object {T} (r : ResponseState T) (id : Z) : ResponseState T :=
  mk_ResponseState (client r) (request_tag r) (objects r ++ [id]) (transferred_size r)
    (total_size r) (expected_objects r) (has_begun r) (transport r).

Class ResponseStateImpl (T : Type) : Type := {
  GetMaxTransferSize : T → Z;
  SendHeader : MessageHeader → ResponseState T → outcome (ResponseState T);
  SendData : bytes → ResponseState T → outcome (ResponseState T);
  Finalize : ResponseState T → outcome (ResponseState T);
  ReserveObjectId : T → Z * T;
  InsertObject : Z → T → T }.

(** What a working transport promises: headers, data and object ids are sent in
    order and in full, and [Finalize] aborts on a response that is not the one
    announced. *)
Class ResponseStateLaws (T : Type) `{ResponseStateImpl T} : Type := {
  good : T → Prop;
  wire : T → bytes;
  SendHeader_law : ∀ h r, good (transport r) →
    ∃ t, SendHeader h r = Done (set_transport r t) ∧ good t ∧
      GetMaxTransferSize t = GetMaxTransferSize (transport r) ∧
      wire t = wire (transport r) ++ encode_header h;
  SendData_law : ∀ d r, good (transport r) → u64 (transferred_size r) = transferred_size r →
    ∃ t, SendData d r = Done (set_transport (add_transferred r (zlen d)) t) ∧ good t ∧
      GetMaxTransferSize t = GetMaxTransferSize (transport r) ∧
      wire t = wire (transport r) ++ d;
  Finalize_law : ∀ r, good (transport r) → transferred_size r = total_size r →
    zlen (objects r) = expected_objects r →
    4 * expected_objects r ≤ GetMaxTransferSize (transport r) →
    ∃ t, Finalize r = Done (set_transport r t) ∧ good t ∧
      wire t = wire (transport r) ++ encode_u32s (objects r);
  Finalize_abort : ∀ r,
    transferred_size r ≠ total_size r ∨ zlen (objects r) ≠ expected_objects r →
    Finalize r = Aborts TWILI_ERR_BAD_RESPONSE }.

(** ** ResponseOpener and ResponseWriter *)

Section opener.
Context {T : Type} `{HT : ResponseStateImpl T}.
(** The fields of the header that [BeginError] leaves uninitialised. *)
Context (junk_object_id junk_pad : Z).
Implicit Types r : ResponseState T.

Definition BeginError (code payload_size object_count : Z) r : outcome (ResponseState T) :=
  if has_begun r then Aborts TWILI_ERR_FATAL_BRIDGE_STATE
  else if GetMaxTransferSize (transport r) <? object_count * 4
  then Aborts TWILI_ERR_FATAL_BRIDGE_STATE
  else
    let hdr := mkHeader (client r) junk_object_id code (request_tag r) payload_size
                 object_count junk_pad in
    SendHeader hdr (set_begun r payload_size object_count).
Definition BeginOk (payload_size object_count : Z) r : outcome (ResponseState T) :=
  BeginError 0 payload_size object_count r.
Definition RespondError (code : Z) r : outcome (ResponseState T) :=
  r ← BeginError code 0 0 r; Finalize r.

(** [ResponseOpener::MakeObject]: the object is registered under a fresh id. *)
Definition MakeObject r : ResponseState T * Z :=
  let '(id, t) := ReserveObjectId (transport r) in
  (set_transport r (InsertObject id t), id).

Definition Write (data : bytes) r : outcome (ResponseState T) := SendData data r.
Definition Object (id : Z) r : ResponseState T * Z := (push_object r id, u32 (zlen (objects r))).

(** ** Packing *)

(** What [PackingHelper] is specialised for; a vector of plain data has its element
    size and its elements' bytes. *)
Inductive value : Type :=
| VVector (element_size : Z) (elements : list bytes)
| VBuffer (pending : bytes)
| VString (text : bytes)
| VVectorOf (values : list value)
| VObject (id : Z)
| VMsgPack (dump : bytes)
| VPod (representation : bytes).

Fixpoint GetSize (v : value) : Z :=
  match v with
  | VVector size l => u64 (u64 (zlen l * size) + 8)
  | VBuffer l => u64 (8 + zlen l)
  | VString l => u64 (8 + zlen l)
  | VVectorOf l =>
      (fix sum (acc : Z) (l : list value) : Z :=
         match l with [] => acc | v :: l => sum (u64 (acc + GetSize v)) l end) 8 l
  | VObject _ => 4
  | VMsgPack l => u64 (8 + zlen l)
  | VPod l => zlen l
  end.

Fixpoint GetObjectCount (v : value) : Z :=
  match v with
  | VVectorOf l =>
      (fix sum (acc : Z) (l : list value) : Z :=
         match l with [] => acc | v :: l => sum (u32 (acc + GetObjectCount v)) l end) 0 l
  | VObject _ => 1
  | _ => 0
  end.

Fixpoint Pack (v : value) r : outcome (ResponseState T) :=
  match v with
  | VVector _ l => r ← Write (le_split 8 (zlen l)) r; Write (concat l) r
  | VBuffer l | VString l | VMsgPack l => r ← Write (le_split 8 (zlen l)) r; Write l r
  | VVectorOf l =>
      r ← Write (le_split 8 (zlen l)) r;
      (fix each (l : list value) r : outcome (ResponseState T) :=
         match l with [] => Done r | v :: l => r ← Pack v r; each l r end) l r
  | VObject id => let '(r, i) := Object id r in Write (le_split 4 i) r
  | VPod l => Write l r
  end.

Definition total_of (f : value → Z) (wrap : Z → Z) (args : list value) : Z :=
  foldr (fun v acc => wrap (f v + acc)) 0 args.

Definition RespondOk (args : list value) r : outcome (ResponseState T) :=
  let size := total_of GetSize u64 args in
  let object_count := total_of GetObjectCount u32 args in
  r ← BeginOk size object_count r;
  r ← foldl (fun m v => r ← m; Pack v r) (Done r) args;
  Finalize r.
End opener.

(** ** TCPBridge::Connection::ResponseState *)

Section tcp.
(** [bsd_send] on the socket: the new state and the result. *)
Context {S : Type} (bsd_send : S → bytes → S * Z).

Record tcp_connection : Type := mk_tcp {
  socket : S;
  deletion_flag : bool;
  next_object_id : Z;
  tcp_objects : list Z;
  sent : bytes }.

Definition tcp_GetMaxTransferSize (c : tcp_connection) : Z := 16384.

(** [Panic] and the flag set before it. *)
Definition tcp_Panic (c : tcp_connection) : tcp_connection :=
  mk_tcp (socket c) true (next_object_id c) (tcp_objects c) (sent c).

(** [Send]: every turn sends at least one byte, so the length of the data bounds the
    turns. *)
Fixpoint tcp_Send_loop (fuel : nat) (data : bytes) (c : tcp_connection) :
    outcome tcp_connection :=
  if deletion_flag c || (zlen data =? 0) then Done c
  else
    match fuel with
    | O => OutOfFuel
    | Datatypes.S fuel =>
        let '(s, r) := bsd_send (socket c) data in
        let c := mk_tcp s false (next_object_id c) (tcp_objects c) (sent c) in
        if r <=? 0 then Done (tcp_Panic c)
        else if zlen data <? r then Undefined
        else tcp_Send_loop fuel (zdrop r data)
               (mk_tcp s false (next_object_id c) (tcp_objects c) (sent c ++ ztake r data))
    end.
Definition tcp_Send (data : bytes) (c : tcp_connection) : outcome tcp_connection :=
  tcp_Send_loop (length data) data c.

Definition tcp_SendHeader (hdr : MessageHeader) (r : ResponseState tcp_connection) :=
  t ← tcp_Send (encode_header hdr) (transport r); Done (set_transport r t).
Definition tcp_SendData (data : bytes) (r : ResponseState tcp_connection) :=
  t ← tcp_Send data (transport r);
  Done (set_transport (add_transferred r (zlen data)) t).
Definition tcp_Finalize (r : ResponseState tcp_connection) :
    outcome (ResponseState tcp_connection) :=
  if negb (transferred_size r =? total_size r) then Aborts TWILI_ERR_BAD_RESPONSE
  else if negb (zlen (objects r) =? expected_objects r) then Aborts TWILI_ERR_BAD_RESPONSE
  else if 0 <? expected_objects r then
    t ← tcp_Send (encode_u32s (objects r)) (transport r); Done (set_transport r t)
  else Done r.
Definition tcp_ReserveObjectId (c : tcp_connection) : Z * tcp_connection :=
  (next_object_id c, mk_tcp (socket c) (deletion_flag c) (u32 (next_object_id c + 1))
                       (tcp_objects c) (sent c)).
Definition tcp_InsertObject (id : Z) (c : tcp_connection) : tcp_connection :=
  mk_tcp (socket c) (deletion_flag c) (next_object_id c)
    (if decide (id ∈ tcp_objects c) then tcp_objects c else tcp_objects c ++ [id]) (sent c).

#[export] Instance tcp_impl : ResponseStateImpl tcp_connection := {
  GetMaxTransferSize := tcp_GetMaxTransferSize;
  SendHeader := tcp_SendHeader;
  SendData := tcp_SendData;
  Finalize := tcp_Finalize;
  ReserveObjectId := tcp_ReserveObjectId;
  InsertObject := tcp_InsertObject }.
End tcp.
Arguments mk_tcp {S}. Arguments socket {S}. Arguments deletion_flag {S}.
Arguments next_object_id {S}. Arguments tcp_objects {S}. Arguments sent {S}.

(** ** USBBridge::ResponseState *)

Inductive endpoint : Type := response_meta | response_data.

Section usb.
(** Posting a buffer to an endpoint and waiting for its completion: the new state of
    the hardware, the urb status and the transferred size. *)
Context {E : Type} (post : E → endpoint → bytes → E * Z * Z).

Record usb_bridge : Type := mk_usb {
  hardware : E;
  response_data_buffer_size : Z;
  object_id_counter : Z;
  usb_objects : list Z;
  (** whether [RequestReader::ResetHandler] has run since the request *)
  reader_reset : bool;
  posted : bytes }.

Fixpoint PostBufferSync (fuel : nat) (e : endpoint) (data : bytes) (b : usb_bridge) :
    outcome usb_bridge :=
  let '(hw, status, transferred) := post (hardware b) e data in
  if negb (status =? 3) then Aborts TWILI_ERR_FATAL_USB_TRANSFER
  else
    let b := mk_usb hw (response_data_buffer_size b) (object_id_counter b) (usb_objects b)
               (reader_reset b) (posted b ++ ztake transferred data) in
    if transferred <? zlen data then
      match fuel with
      | O => OutOfFuel
      | Datatypes.S fuel => PostBufferSync fuel e (zdrop transferred data) b
      end
    else Done b.

Definition usb_GetMaxTransferSize (b : usb_bridge) : Z := response_data_buffer_size b.

Definition reset_reader (b : usb_bridge) : usb_bridge :=
  mk_usb (hardware b) (response_data_buffer_size b) (object_id_counter b) (usb_objects b)
    true (posted b).

Definition usb_SendHeader (hdr : MessageHeader) (r : ResponseState usb_bridge) :=
  t ← PostBufferSync (length (encode_header hdr)) response_meta (encode_header hdr)
        (reset_reader (transport r));
  Done (set_transport r t).

(** The end of [SendData] for data that fits into the buffer. *)
Definition usb_send_chunk (data : bytes) (r : ResponseState usb_bridge) :
    outcome (ResponseState usb_bridge) :=
  if response_data_buffer_size (transport r) <? zlen data then Undefined
  else
    t ← PostBufferSync (length data) response_data data (transport r);
    Done (set_transport (add_transferred r (zlen data)) t).
Fixpoint usb_SendData_loop (fuel : nat) (data : bytes) (r : ResponseState usb_bridge) :
    outcome (ResponseState usb_bridge) :=
  let max_size := response_data_buffer_size (transport r) in
  if max_size <? zlen data then
    match fuel with
    | O => OutOfFuel
    | Datatypes.S fuel =>
        r ← (if max_size =? 0 then Done r else usb_send_chunk (ztake max_size data) r);
        usb_SendData_loop fuel (zdrop max_size data) r
    end
  else usb_send_chunk data r.
Definition usb_SendData (data : bytes) (r : ResponseState usb_bridge) :
    outcome (ResponseState usb_bridge) :=
  if zlen data =? 0 then Done r else usb_SendData_loop (length data) data r.

Definition usb_Finalize (r : ResponseState usb_bridge) : outcome (ResponseState usb_bridge) :=
  if negb (transferred_size r =? total_size r) then Aborts TWILI_ERR_BAD_RESPONSE
  else if negb (zlen (objects r) =? expected_objects r) then Aborts TWILI_ERR_BAD_RESPONSE
  else if 0 <? expected_objects r then
    let ids := encode_u32s (objects r) in
    if response_data_buffer_size (transport r) <? zlen ids then Undefined
    else
      t ← PostBufferSync (length ids) response_data ids (transport r);
      Done (set_transport r t)
  else Done r.
Definition usb_ReserveObjectId (b : usb_bridge) : Z * usb_bridge :=
  (object_id_counter b, mk_usb (hardware b) (response_data_buffer_size b)
     (u32 (object_id_counter b + 1)) (usb_objects b) (reader_reset b) (posted b)).
Definition usb_InsertObject (id : Z) (b : usb_bridge) : usb_bridge :=
  mk_usb (hardware b) (response_data_buffer_size b) (object_id_counter b)
    (if decide (id ∈ usb_objects b) then usb_objects b else usb_objects b ++ [id])
    (reader_reset b) (posted b).

#[export] Instance usb_impl : ResponseStateImpl usb_bridge := {
  GetMaxTransferSize := usb_GetMaxTransferSize;
  SendHeader := usb_SendHeader;
  SendData := usb_SendData;
  Finalize := usb_Finalize;
  ReserveObjectId := usb_ReserveObjectId;
  InsertObject := usb_InsertObject }.
End usb.
Arguments mk_usb {E}. Arguments hardware {E}. Arguments response_data_buffer_size {E}.
Arguments object_id_counter {E}. Arguments usb_objects {E}. Arguments reader_reset {E}.
Arguments posted {E}.

(** ** Specification *)

(** The bytes of a packed value and the objects it brings, the first of which gets
    index [n]. *)
Fixpoint packed (v : value) (n : Z) : bytes * list Z :=
  match v with
  | VVector _ l => (le_split 8 (zlen l) ++ concat l, [])
  | VBuffer l | VString l | VMsgPack l => (le_split 8 (zlen l) ++ l, [])
  | VVectorOf l =>
      let '(d, os) :=
        (fix each (l : list value) (n : Z) : bytes * list Z :=
           match l with
           | [] => ([], [])
           | v :: l =>
               let '(d, os) := packed v n in
               let '(d', os') := each l (n + zlen os) in
               (d ++ d', os ++ os')
           end) l n in
      (le_split 8 (zlen l) ++ d, os)
  | VObject id => (le_split 4 (u32 n), [id])
  | VPod l => (l, [])
  end.
Fixpoint packed_list (l : list value) (n : Z) : bytes * list Z :=
  match l with
  | [] => ([], [])
  | v :: l =>
      let '(d, os) := packed v n in
      let '(d', os') := packed_list l (n + zlen os) in
      (d ++ d', os ++ os')
  end.

(** Elements of a vector have the element size. *)
Fixpoint value_ok (v : value) : Prop :=
  match v with
  | VVector size l => Forall (fun e => zlen e = size) l
  | VVectorOf l => (fix each (l : list value) : Prop :=
                      match l with [] => True | v :: l => value_ok v ∧ each l end) l
  | _ => True
  end.

(** The message a response should be. *)
Definition response_message (client tag code junk_object_id junk_pad : Z)
    (args : list value) : message :=
  let '(payload, os) := packed_list args 0 in
  mkMessage (mkHeader client junk_object_id code tag (zlen payload) (zlen os) junk_pad)
    payload (encode_u32s os).

(** ** Lemmas *)

Lemma value_nested_ind (P : value → Prop) :
  (∀ size l, P (VVector size l)) → (∀ l, P (VBuffer l)) → (∀ l, P (VString l)) →
  (∀ l, Forall P l → P (VVectorOf l)) → (∀ id, P (VObject id)) → (∀ l, P (VMsgPack l)) →
  (∀ l, P (VPod l)) → ∀ v, P v.
Proof.
  intros H1 H2 H3 H4 H5 H6 H7. fix IH 1. intros [size l|l|l|l|id|l|l];
    [apply H1|apply H2|apply H3| |apply H5|apply H6|apply H7].
  apply H4. induction l as [|v l IHl]; constructor; [apply IH|exact IHl].
Qed.

Lemma packed_VVectorOf l n :
  packed (VVectorOf l) n = (le_split 8 (zlen l) ++ (packed_list l n).1, (packed_list l n).2).
Proof.
  cbn [packed].
  assert (∀ l n, (fix each (l : list value) (n : Z) : bytes * list Z :=
           match l with
           | [] => ([], [])
           | v :: l =>
               let '(d, os) := packed v n in
               let '(d', os') := each l (n + zlen os) in
               (d ++ d', os ++ os')
           end) l n = packed_list l n) as ->.
  { clear. induction l as [|v l IH]; intros n; [done|]. cbn.
    destruct (packed v n) as [d os]. by rewrite IH. }
  by destruct (packed_list l n).
Qed.

(** Sizes: [GetSize] and [GetObjectCount] are those of what is packed, as long as
    they do not overflow. *)
Lemma zlen_concat_uniform size (l : list bytes) :
  Forall (fun e => zlen e = size) l → zlen (concat l) = zlen l * size.
Proof.
  induction 1 as [|e l He _ IH]; [done|]. cbn [concat]. rewrite zlen_app, IH, zlen_cons. lia.
Qed.

Lemma packed_objects_nonneg v n : 0 ≤ zlen (packed v n).1 ∧ 0 ≤ zlen (packed v n).2.
Proof. split; apply zlen_nonneg. Qed.

Lemma value_ok_VVectorOf l : value_ok (VVectorOf l) ↔ Forall value_ok l.
Proof.
  cbn. induction l as [|v l IH]; [split; constructor|]. rewrite Forall_cons. by rewrite IH.
Qed.

Lemma GetSize_packed v n :
  value_ok v → zlen (packed v n).1 < 2 ^ 64 → zlen (packed v n).2 < 2 ^ 32 →
  GetSize v = zlen (packed v n).1 ∧ GetObjectCount v = zlen (packed v n).2.
Proof.
  revert n. induction v as [size l|l|l|l IH|id|l|l] using value_nested_ind; intros n Hok Hs Ho;
    try (cbn in *; rewrite zlen_app, Protocol.zlen_le_split in *; zlen_facts;
         rewrite u64_small by lia; split; [lia|done]).
  - cbn in Hok. apply zlen_concat_uniform in Hok. cbn in *.
    rewrite zlen_app, Protocol.zlen_le_split in *. rewrite <- Hok.
    zlen_facts. rewrite (u64_small (zlen (concat l))) by lia.
    rewrite u64_small by lia. split; [lia|done].
  - apply value_ok_VVectorOf in Hok. rewrite packed_VVectorOf in *. cbn [fst snd] in *.
    rewrite zlen_app, Protocol.zlen_le_split in *. cbn [GetSize GetObjectCount].
    change (Z.of_nat 8) with 8 in *.
    set (sum1 := fix sum (acc : Z) (l : list value) : Z :=
           match l with [] => acc | v :: l => sum (u64 (acc + GetSize v)) l end).
    set (sum2 := fix sum (acc : Z) (l : list value) : Z :=
           match l with [] => acc | v :: l => sum (u32 (acc + GetObjectCount v)) l end).
    enough (∀ a b, 0 ≤ a → 0 ≤ b → a + zlen (packed_list l n).1 < 2 ^ 64 →
              b + zlen (packed_list l n).2 < 2 ^ 32 →
              sum1 a l = a + zlen (packed_list l n).1 ∧
              sum2 b l = b + zlen (packed_list l n).2) as Hsum
      by (destruct (Hsum 8 0) as [E1 E2]; lia).
    clear Hs Ho. revert n Hok. induction IH as [|v l Hv _ IHl]; intros n Hok a b Ha Hb Hsa Hsb;
      [cbn in *; change (zlen []) with 0; lia|].
    apply Forall_cons in Hok as [Hokv Hok]. cbn [packed_list] in *.
    destruct (packed v n) as [d os] eqn:Ev.
    destruct (packed_list l (n + zlen os)) as [d' os'] eqn:El. cbn [fst snd] in *.
    rewrite !zlen_app in *. zlen_facts.
    destruct (Hv n Hokv) as [E1 E2]; [rewrite Ev; cbn; lia|rewrite Ev; cbn; lia|].
    rewrite Ev in E1, E2. cbn [fst snd] in *. cbn [sum1 sum2]. rewrite E1, E2.
    rewrite u64_small, u32_small by lia.
    specialize (IHl (n + zlen os) Hok (a + zlen d) (b + zlen os)).
    rewrite El in IHl. cbn [fst snd] in IHl. lia.
  - cbn in *. rewrite Protocol.zlen_le_split. done.
  - done.
Qed.

Lemma total_packed l n :
  Forall value_ok l → zlen (packed_list l n).1 < 2 ^ 64 → zlen (packed_list l n).2 < 2 ^ 32 →
  total_of GetSize u64 l = zlen (packed_list l n).1 ∧
  total_of GetObjectCount u32 l = zlen (packed_list l n).2.
Proof.
  intros Hok. revert n. induction Hok as [|v l Hv _ IH]; intros n Hs Ho; [done|].
  cbn [packed_list total_of foldr] in *. fold (total_of GetSize u64 l) (total_of GetObjectCount u32 l).
  destruct (packed v n) as [d os] eqn:Ev.
  destruct (packed_list l (n + zlen os)) as [d' os'] eqn:El. cbn [fst snd] in *.
  rewrite !zlen_app in *. zlen_facts.
  destruct (GetSize_packed v n Hv) as [E1 E2]; [rewrite Ev; cbn; lia|rewrite Ev; cbn; lia|].
  destruct (IH (n + zlen os)) as [E3 E4]; [rewrite El; cbn; lia|rewrite El; cbn; lia|].
  rewrite Ev in E1, E2. rewrite El in E3, E4. cbn [fst snd] in *.
  rewrite E1, E2, E3, E4, u64_small, u32_small by lia. done.
Qed.

Section writing.
Context {T : Type} `{HT : ResponseStateImpl T} `{HL : !ResponseStateLaws T}.
Implicit Types r : ResponseState T.

(** [r'] is [r] with [d] and objects [os] written. *)
Definition wrote r (d : bytes) (os : list Z) r' : Prop :=
  good (transport r') ∧ wire (transport r') = wire (transport r) ++ d ∧
  GetMaxTransferSize (transport r') = GetMaxTransferSize (transport r) ∧
  r' = mk_ResponseState (client r) (request_tag r) (objects r ++ os)
         (u64 (transferred_size r + zlen d)) (total_size r) (expected_objects r) (has_begun r)
         (transport r').

Lemma Write_wrote d r :
  good (transport r) → u64 (transferred_size r) = transferred_size r →
  ∃ r', Write d r = Done r' ∧ wrote r d [] r'.
Proof.
  intros Hg Hu. destruct (SendData_law d r Hg Hu) as (t & E & Hg' & Hm & Hw).
  eexists. split; [exact E|]. split_and!; [done|done|done|].
  unfold set_transport, add_transferred. cbn. by rewrite app_nil_r.
Qed.

Lemma wrote_trans r1 d1 os1 r2 d2 os2 r3 :
  wrote r1 d1 os1 r2 → wrote r2 d2 os2 r3 → wrote r1 (d1 ++ d2) (os1 ++ os2) r3.
Proof.
  intros (_ & Hw1 & Hm1 & E1) (Hg2 & Hw2 & Hm2 & E2). split_and!; [done| |congruence|].
  - rewrite Hw2, Hw1. by rewrite app_assoc.
  - rewrite E2, E1. cbn. f_equal; [by rewrite app_assoc|].
    rewrite zlen_app. unfold u64. rewrite Zplus_mod_idemp_l. f_equal. lia.
Qed.

Lemma wrote_nil r : good (transport r) → u64 (transferred_size r) = transferred_size r →
  wrote r [] [] r.
Proof.
  intros Hg Hu. split_and!; [done|by rewrite app_nil_r|done|].
  destruct r; cbn in *. change (zlen []) with 0. by rewrite app_nil_r, Z.add_0_r, Hu.
Qed.

Lemma wrote_range r d os r' : wrote r d os r' → u64 (transferred_size r') = transferred_size r'.
Proof. intros (_ & _ & _ & ->). cbn. unfold u64. apply Zmod_mod. Qed.
Lemma wrote_objects r d os r' : wrote r d os r' → objects r' = objects r ++ os.
Proof. by intros (_ & _ & _ & ->). Qed.

Lemma Pack_spec v r :
  good (transport r) → u64 (transferred_size r) = transferred_size r →
  ∃ r', Pack v r = Done r' ∧
    wrote r (packed v (zlen (objects r))).1 (packed v (zlen (objects r))).2 r'.
Proof.
  revert r. induction v as [size l|l|l|l IH|id|l|l] using value_nested_ind; intros r Hg Hu.
  1,2,3,6: cbn [Pack packed fst snd]; destruct (Write_wrote (le_split 8 (zlen l)) r Hg Hu) as (r1 & E1 & W1);
    rewrite E1; cbn [mbind outcome_bind].
  - destruct (Write_wrote (concat l) r1) as (r2 & E2 & W2); [apply W1|by eapply wrote_range|].
    exists r2. split; [done|]. exact (wrote_trans _ _ _ _ _ _ _ W1 W2).
  - destruct (Write_wrote l r1) as (r2 & E2 & W2); [apply W1|by eapply wrote_range|].
    exists r2. split; [done|]. exact (wrote_trans _ _ _ _ _ _ _ W1 W2).
  - destruct (Write_wrote l r1) as (r2 & E2 & W2); [apply W1|by eapply wrote_range|].
    exists r2. split; [done|]. exact (wrote_trans _ _ _ _ _ _ _ W1 W2).
  - destruct (Write_wrote l r1) as (r2 & E2 & W2); [apply W1|by eapply wrote_range|].
    exists r2. split; [done|]. exact (wrote_trans _ _ _ _ _ _ _ W1 W2).
  - rewrite packed_VVectorOf. cbn [Pack fst snd].
    destruct (Write_wrote (le_split 8 (zlen l)) r Hg Hu) as (r1 & E1 & W1).
    rewrite E1. cbn [mbind outcome_bind].
    assert (objects r1 = objects r) as Eo by (rewrite (wrote_objects _ _ _ _ W1); apply app_nil_r).
    rewrite <- Eo. clear E1. pose proof (wrote_range _ _ _ _ W1) as Hu1.
    set (each := fix each (l : list value) r : outcome (ResponseState T) :=
         match l with [] => Done r | v :: l => r ← Pack v r; each l r end).
    enough (∃ r2, each l r1 = Done r2 ∧
      wrote r1 (packed_list l (zlen (objects r1))).1 (packed_list l (zlen (objects r1))).2 r2)
      as (r2 & E2 & W2) by (exists r2; split; [done|exact (wrote_trans _ _ _ _ _ _ _ W1 W2)]).
    pose proof (proj1 W1) as Hg1. clear W1 Eo Hg Hu. revert r1 Hu1 Hg1.
    induction IH as [|v l Hv _ IHl]; intros r1 Hu1 Hg1; [exists r1; split; [done|by apply wrote_nil]|].
    cbn [packed_list each]. destruct (Hv r1 Hg1 Hu1) as (r2 & E2 & W2). rewrite E2.
    cbn [mbind outcome_bind]. destruct (packed v (zlen (objects r1))) as [d os]. cbn [fst snd] in W2.
    destruct (IHl r2) as (r3 & E3 & W3); [by eapply wrote_range|apply W2|].
    exists r3. split; [done|]. rewrite (wrote_objects _ _ _ _ W2), zlen_app in W3.
    destruct (packed_list l _) as [d' os']. exact (wrote_trans _ _ _ _ _ _ _ W2 W3).
  - cbn [Pack Object packed fst snd].
    destruct (Write_wrote (le_split 4 (u32 (zlen (objects r)))) (push_object r id) Hg Hu) as (r1 & E1 & W1).
    exists r1. split; [done|]. destruct W1 as (? & ? & ? & E). split_and!; [done|done|done|].
    rewrite E. cbn. by rewrite app_nil_r.
  - cbn [Pack packed fst snd]. by apply Write_wrote.
Qed.

Lemma Pack_list_spec l r :
  good (transport r) → u64 (transferred_size r) = transferred_size r →
  ∃ r', foldl (fun m v => r ← m; Pack v r) (Done r) l = Done r' ∧
    wrote r (packed_list l (zlen (objects r))).1 (packed_list l (zlen (objects r))).2 r'.
Proof.
  revert r. induction l as [|v l IH]; intros r Hg Hu; [exists r; split; [done|by apply wrote_nil]|].
  cbn [foldl packed_list mbind outcome_bind].
  destruct (Pack_spec v r Hg Hu) as (r1 & E1 & W1). rewrite E1.
  destruct (packed v (zlen (objects r))) as [d os]. cbn [fst snd] in W1.
  destruct (IH r1) as (r2 & E2 & W2); [apply W1|by eapply wrote_range|].
  exists r2. split; [done|]. rewrite (wrote_objects _ _ _ _ W1), zlen_app in W2.
  destruct (packed_list l _) as [d' os']. exact (wrote_trans _ _ _ _ _ _ _ W1 W2).
Qed.

(** A fresh response answered with [args] is exactly one message on the wire. *)
Lemma RespondOk_spec jo jp args c tg (t : T) :
  let m := response_message c tg 0 jo jp args in
  good t → Forall value_ok args → zlen (m_payload m) < 2 ^ 64 →
  zlen (m_objects m) ≤ GetMaxTransferSize t → zlen (packed_list args 0).2 < 2 ^ 32 →
  ∃ r', RespondOk jo jp args (new_ResponseState c tg t) = Done r' ∧ good (transport r') ∧
    wire (transport r') = wire t ++ encode_message m ∧ has_begun r' = true.
Proof.
  intros m Hg Hok Hs Hm Ho. subst m. unfold response_message in *.
  pose proof (total_packed args 0 Hok) as Ht.
  destruct (packed_list args 0) as [payload os] eqn:Ep. cbn [fst snd m_payload m_objects] in *.
  rewrite Protocol.zlen_encode_u32s in Hm.
  destruct Ht as [Es Eo]; [done|done|]. unfold RespondOk, BeginOk, BeginError. rewrite Es, Eo.
  cbn [has_begun new_ResponseState transport]. rewrite (proj2 (Z.ltb_ge _ _)) by lia.
  cbv zeta. cbn [client request_tag new_ResponseState set_begun].
  set (hdr := mkHeader c jo 0 tg (zlen payload) (zlen os) jp).
  set (r0 := set_begun (new_ResponseState c tg t) (zlen payload) (zlen os)).
  destruct (SendHeader_law hdr r0 Hg) as (t1 & E1 & Hg1 & Hm1 & Hw1). rewrite E1.
  cbn [mbind outcome_bind].
  destruct (Pack_list_spec args (set_transport r0 t1)) as (r2 & E2 & Hg2 & Hw2 & Hm2 & Er2);
    [done|done|]. rewrite E2. cbn [mbind outcome_bind].
  cbn [objects set_transport r0 set_begun new_ResponseState] in *.
  change (zlen []) with 0 in *. rewrite Ep in *. cbn [fst snd] in *.
  assert (transferred_size r2 = zlen payload ∧ total_size r2 = zlen payload ∧
          objects r2 = os ∧ expected_objects r2 = zlen os ∧ has_begun r2 = true)
    as (Et2 & Ets2 & Eob2 & Eex2 & Ebg2).
  { rewrite Er2. cbn. rewrite u64_small by (pose proof (zlen_nonneg payload); lia). done. }
  destruct (Finalize_law r2) as (t3 & E3 & Hg3 & Hw3); [done|congruence|congruence| |].
  { rewrite Eex2, Hm2. cbn. rewrite Hm1. cbn. lia. }
  exists (set_transport r2 t3). rewrite E3. split_and!; [done|done| |done].
  cbn [transport set_transport]. rewrite Hw3, Hw2. cbn [transport set_transport]. rewrite Hw1, Eob2.
  unfold encode_message. cbn [m_header m_payload m_objects]. cbn. by rewrite <- !app_assoc.
Qed.
(** A response without objects: begun, written in pieces, finalized. *)
Lemma BeginOk_spec jo jp n c tg (t : T) :
  good t → 0 ≤ GetMaxTransferSize t →
  ∃ r, BeginOk jo jp n 0 (new_ResponseState c tg t) = Done r ∧
    good (transport r) ∧ transferred_size r = 0 ∧ total_size r = n ∧
    objects r = [] ∧ expected_objects r = 0 ∧
    GetMaxTransferSize (transport r) = GetMaxTransferSize t ∧
    wire (transport r) = wire t ++ encode_header (mkHeader c jo 0 tg n 0 jp).
Proof.
  intros Hg Ht. unfold BeginOk, BeginError.
  cbn [has_begun new_ResponseState transport].
  rewrite (proj2 (Z.ltb_ge _ _)) by lia. cbv zeta.
  set (r0 := set_begun (new_ResponseState c tg t) n 0).
  cbn [client request_tag new_ResponseState].
  destruct (SendHeader_law (mkHeader c jo 0 tg n 0 jp) r0 Hg) as (t1 & E1 & Hg1 & Hm1 & Hw1).
  exists (set_transport r0 t1). by rewrite E1.
Qed.

Lemma Finalize_spec r d r' :
  wrote r d [] r' → transferred_size r = 0 → total_size r = zlen d →
  objects r = [] → expected_objects r = 0 → zlen d < 2 ^ 64 →
  0 ≤ GetMaxTransferSize (transport r) →
  ∃ r2, Finalize r' = Done r2 ∧ good (transport r2) ∧
    wire (transport r2) = wire (transport r) ++ d.
Proof.
  intros (Hg & Hw & Hm & E) E0 Et Eo Ee Hd Hmax.
  assert (objects r' = []) as Eo' by (by rewrite E; cbn; rewrite Eo).
  destruct (Finalize_law r') as (t & Ef & Hgt & Hwt).
  - done.
  - rewrite E. cbn. rewrite E0, Et. apply u64_small. pose proof (zlen_nonneg d). lia.
  - rewrite Eo', E. cbn. by rewrite Ee.
  - rewrite Hm, E. cbn. rewrite Ee. lia.
  - exists (set_transport r' t). rewrite Ef. split_and!; [done|done|].
    cbn [transport set_transport]. rewrite Hwt, Hw, Eo'. cbn. by rewrite app_nil_r.
Qed.

End writing.

(** ** The TCP transport keeps the promise *)

Section tcp_laws.
Context {S : Type} (bsd_send : S → bytes → S * Z).

(** A socket that sends something every time it is asked to. *)
Definition sends : Prop := ∀ s d, d ≠ [] → 0 < (bsd_send s d).2 ≤ zlen d.
(** A socket that never claims to have sent more than it was given. *)
Definition sends_at_most : Prop := ∀ s d, (bsd_send s d).2 ≤ zlen d.

(** Whatever the socket does, a prefix goes out, and all of it unless the connection
    is given up. *)
Lemma tcp_Send_prefix fuel d (c : @tcp_connection S) :
  sends_at_most → zlen d ≤ Z.of_nat fuel →
  ∃ c' l k, tcp_Send_loop bsd_send fuel d c = Done c' ∧ d = l ++ k ∧ sent c' = sent c ++ l ∧
    next_object_id c' = next_object_id c ∧ tcp_objects c' = tcp_objects c ∧
    (deletion_flag c' = false → k = []) ∧ (deletion_flag c = true → c' = c).
Proof.
  intros Hs. revert d c. induction fuel as [|fuel IH]; intros d c Hf; cbn [tcp_Send_loop].
  - assert (d = []) as -> by (by apply zlen_0_inv).
    change (zlen [] =? 0) with true. rewrite orb_true_r. exists c, [], [].
    rewrite (app_nil_r (sent c)). by split_and!.
  - destruct (deletion_flag c) eqn:Ed; cbn [orb].
    { exists c, [], d. rewrite app_nil_r. split_and!; try done. congruence. }
    destruct (Z.eqb_spec (zlen d) 0) as [Hz|Hz].
    { exists c, [], []. rewrite (app_nil_r (sent c)). split_and!; try done. apply zlen_0_inv. lia. }
    pose proof (Hs (socket c) d) as Hr. destruct (bsd_send (socket c) d) as [s r]. cbn in Hr.
    destruct (Z.leb_spec r 0).
    { eexists _, [], d. split; [done|]. cbn. rewrite app_nil_r. split_and!; done. }
    rewrite (proj2 (Z.ltb_ge _ _)) by lia.
    destruct (IH (zdrop r d) (mk_tcp s false (next_object_id c) (tcp_objects c)
                                (sent c ++ ztake r d)))
      as (c' & l & k & E & El & Es & E1 & E2 & E3 & _); [zlia|].
    exists c', (ztake r d ++ l), k. cbn [next_object_id tcp_objects sent].
    rewrite E, Es, E1, E2. cbn.
    rewrite <- !app_assoc, <- El, ztake_zdrop. split_and!; done.
Qed.

Lemma tcp_Send_all fuel d (c : @tcp_connection S) :
  sends → zlen d ≤ Z.of_nat fuel → deletion_flag c = false →
  ∃ c', tcp_Send_loop bsd_send fuel d c = Done c' ∧ deletion_flag c' = false ∧
    sent c' = sent c ++ d.
Proof.
  intros Hs. revert d c. induction fuel as [|fuel IH]; intros d c Hf Hd;
    cbn [tcp_Send_loop]; rewrite Hd; cbn [orb].
  - assert (d = []) as -> by (by apply zlen_0_inv). exists c. by rewrite app_nil_r.
  - destruct (Z.eqb_spec (zlen d) 0) as [Hz|Hz].
    { assert (d = []) as -> by (apply zlen_0_inv; lia). exists c. by rewrite app_nil_r. }
    assert (d ≠ []) as Hne by (by intros ->).
    pose proof (Hs (socket c) d Hne) as Hr. destruct (bsd_send (socket c) d) as [s r]. cbn in Hr.
    rewrite (proj2 (Z.leb_gt _ _)), (proj2 (Z.ltb_ge _ _)) by lia.
    destruct (IH (zdrop r d) (mk_tcp s false (next_object_id c) (tcp_objects c)
                                (sent c ++ ztake r d))) as (c' & E & ? & Es); [zlia|done|].
    exists c'. cbn [next_object_id tcp_objects sent]. rewrite E, Es. cbn.
    by rewrite <- app_assoc, ztake_zdrop.
Qed.

#[export] Instance tcp_laws (Hs : sends) :
  @ResponseStateLaws (@tcp_connection S) (tcp_impl bsd_send).
Proof.
  refine {| good := fun c : tcp_connection => deletion_flag c = false; wire := sent |}.
  - intros h r Hg. destruct (tcp_Send_all (length (encode_header h)) (encode_header h) (transport r))
      as (c & E & Hd & Hw); [done|done|done|].
    exists c. cbn. unfold tcp_SendHeader, tcp_Send. by rewrite E.
  - intros d r Hg _. destruct (tcp_Send_all (length d) d (transport r))
      as (c & E & Hd & Hw); [done|done|done|].
    exists c. cbn. unfold tcp_SendData, tcp_Send. by rewrite E.
  - intros r Hg Ht Ho _. cbn. unfold tcp_Finalize, tcp_Send.
    rewrite Ht, Ho, !Z.eqb_refl. cbn [negb].
    destruct (Z.ltb_spec 0 (expected_objects r)).
    + destruct (tcp_Send_all (length (encode_u32s (objects r))) (encode_u32s (objects r))
        (transport r)) as (c & E & Hd & Hw); [done|done|done|].
      exists c. by rewrite E.
    + assert (objects r = []) as -> by (apply zlen_0_inv; lia).
      exists (transport r). cbn. rewrite app_nil_r. by destruct r.
  - intros r [Hne|Hne]; cbn; unfold tcp_Finalize.
    + by rewrite (proj2 (Z.eqb_neq _ _) Hne).
    + destruct (_ =? total_size r); [|done]. by rewrite (proj2 (Z.eqb_neq _ _) Hne).
Defined.
End tcp_laws.

(** ** So does the USB transport *)

Section usb_laws.
Context {E : Type} (post : E → endpoint → bytes → E * Z * Z).

(** Hardware whose transfers complete and make progress. *)
Definition posts : Prop := ∀ e ep d, d ≠ [] →
  let '(_, status, n) := post e ep d in status = 3 ∧ 0 < n ≤ zlen d.

Lemma PostBufferSync_all fuel ep d (b : @usb_bridge E) :
  posts → d ≠ [] → zlen d ≤ Z.of_nat fuel →
  ∃ b', PostBufferSync post fuel ep d b = Done b' ∧ posted b' = posted b ++ d ∧
    response_data_buffer_size b' = response_data_buffer_size b.
Proof.
  intros Hp. revert d b. induction fuel as [|fuel IH]; intros d b Hne Hf.
  { apply zlen_0_inv in Hf. done. }
  cbn [PostBufferSync]. pose proof (Hp (hardware b) ep d Hne) as Hn.
  destruct (post (hardware b) ep d) as [[hw status] n]. destruct Hn as [-> Hn]. cbn [negb Z.eqb].
  destruct (Z.ltb_spec n (zlen d)).
  - set (b1 := mk_usb hw _ _ _ _ _).
    destruct (IH (zdrop n d) b1) as (b' & E' & Hw & Hsz); [|zlia|].
    { intros Hz. assert (zlen (zdrop n d) = 0) as Hz' by (by rewrite Hz). zlia. }
    exists b'. cbn. rewrite E', Hw, Hsz. cbn. by rewrite <- app_assoc, ztake_zdrop.
  - eexists. split; [done|]. cbn. by rewrite ztake_all by lia.
Qed.

Lemma usb_send_chunk_all d (r : ResponseState (@usb_bridge E)) :
  posts → d ≠ [] → zlen d ≤ response_data_buffer_size (transport r) →
  ∃ t, usb_send_chunk post d r = Done (set_transport (add_transferred r (zlen d)) t) ∧
    posted t = posted (transport r) ++ d ∧
    response_data_buffer_size t = response_data_buffer_size (transport r).
Proof.
  intros Hp Hne Hl. unfold usb_send_chunk. rewrite (proj2 (Z.ltb_ge _ _)) by lia.
  destruct (PostBufferSync_all (length d) response_data d (transport r))
    as (t & E' & ? & ?); [done|done|done|].
  rewrite E'. by exists t.
Qed.

Lemma usb_SendData_loop_all fuel d (r : ResponseState (@usb_bridge E)) :
  posts → 0 < response_data_buffer_size (transport r) → d ≠ [] → zlen d ≤ Z.of_nat fuel →
  ∃ t, usb_SendData_loop post fuel d r = Done (set_transport (add_transferred r (zlen d)) t) ∧
    posted t = posted (transport r) ++ d ∧
    response_data_buffer_size t = response_data_buffer_size (transport r).
Proof.
  intros Hp. revert d r. induction fuel as [|fuel IH]; intros d r Hpos Hne Hf.
  { apply zlen_0_inv in Hf. done. }
  cbn [usb_SendData_loop]. set (m := response_data_buffer_size (transport r)) in *.
  destruct (Z.ltb_spec m (zlen d)) as [Hlt|]; [|by apply usb_send_chunk_all].
  rewrite (proj2 (Z.eqb_neq m 0)) by lia.
  destruct (usb_send_chunk_all (ztake m d) r) as (t1 & E1 & Hw1 & Hs1); [done| |fold m; zlia|].
  { intros Hz. assert (zlen (ztake m d) = 0) as Hz' by (by rewrite Hz). zlia. }
  rewrite E1. cbn [mbind outcome_bind].
  destruct (IH (zdrop m d) (set_transport (add_transferred r (zlen (ztake m d))) t1))
    as (t2 & E2 & Hw2 & Hs2); [cbn; rewrite Hs1; done| |zlia|].
  { intros Hz. assert (zlen (zdrop m d) = 0) as Hz' by (by rewrite Hz). zlia. }
  exists t2. rewrite E2, Hw2, Hs2. cbn [transport set_transport].
  rewrite Hw1, <- app_assoc, ztake_zdrop, Hs1. split_and!; [|done|done].
  unfold set_transport, add_transferred. cbn. do 2 f_equal. unfold u64.
  rewrite Zplus_mod_idemp_l. f_equal. zlia.
Qed.

#[export] Instance usb_laws (Hp : posts) :
  @ResponseStateLaws (@usb_bridge E) (usb_impl post).
Proof.
  refine {| good := fun b : usb_bridge => 0 < response_data_buffer_size b; wire := posted |}.
  - intros h r Hg.
    destruct (PostBufferSync_all (length (encode_header h)) response_meta (encode_header h)
      (reset_reader (transport r))) as (t & E' & Hw & Hs); [done|done|done|].
    exists t. cbn. unfold usb_SendHeader. rewrite E'. cbn in *. unfold usb_GetMaxTransferSize.
    by rewrite Hs.
  - intros d r Hg Hu. cbn. unfold usb_SendData, usb_GetMaxTransferSize.
    destruct (Z.eqb_spec (zlen d) 0) as [Hz|Hz].
    + assert (d = []) as -> by (apply zlen_0_inv; lia). exists (transport r).
      rewrite app_nil_r. split_and!; [|done|done|done].
      destruct r; unfold set_transport, add_transferred; cbn in *.
      by rewrite Z.add_0_r, Hu.
    + destruct (usb_SendData_loop_all (length d) d r) as (t & E' & ? & Hs);
        [done|done|by intros ->|done|].
      exists t. by rewrite E', Hs.
  - intros r Hg Ht Ho Hm. cbn in *. unfold usb_Finalize, usb_GetMaxTransferSize in *.
    rewrite Ht, Ho, !Z.eqb_refl. cbn [negb].
    destruct (Z.ltb_spec 0 (expected_objects r)).
    + rewrite Protocol.zlen_encode_u32s, (proj2 (Z.ltb_ge _ _)) by lia.
      destruct (PostBufferSync_all (length (encode_u32s (objects r))) response_data
        (encode_u32s (objects r)) (transport r)) as (t & E' & Hw & Hs); [done| |done|].
      { intros Hz. assert (zlen (encode_u32s (objects r)) = 0) as Hz' by (by rewrite Hz).
        rewrite Protocol.zlen_encode_u32s in Hz'. lia. }
      exists t. by rewrite E', Hs.
    + assert (objects r = []) as -> by (apply zlen_0_inv; lia).
      exists (transport r). cbn. rewrite app_nil_r. by destruct r.
  - intros r [Hne|Hne]; cbn; unfold usb_Finalize.
    + by rewrite (proj2 (Z.eqb_neq _ _) Hne).
    + destruct (_ =? total_size r); [|done]. by rewrite (proj2 (Z.eqb_neq _ _) Hne).
Defined.
End usb_laws.

(** ** Theorems *)

(** A socket that takes at most three bytes at a time, and one that fails. *)
Definition slow_send (s : unit) (d : bytes) : unit * Z := (tt, Z.min 3 (zlen d)).
Definition new_tcp {S} (s : S) : tcp_connection := mk_tcp s false 1 [0] [].

Lemma slow_sends : sends slow_send.
Proof.
  intros s d Hd. cbn. assert (zlen d ≠ 0) by (intros Hz; apply Hd, zlen_0_inv; lia). zlia.
Qed.

(** C35: a response is one message.  On any transport that keeps the promise of
    [ResponseStateLaws] — the TCP and the USB response states do — [RespondOk] on a
    fresh response neither aborts nor fails, and puts on the wire exactly the
    encoding of one message: the request's client and tag, result code 0, the packed
    arguments and the ids of the objects among them, with the sizes of the header
    matching; the receiver's parser takes that message off the stream. *)
Theorem respond_ok_is_message {T} `{HT : ResponseStateImpl T} `{HL : !ResponseStateLaws T}
    (junk_object_id junk_pad c tg : Z) (args : list value) (t : T) (rest : bytes) :
  let m := response_message c tg 0 junk_object_id junk_pad args in
  good t → Forall value_ok args → message_ok m → zlen (m_objects m) ≤ GetMaxTransferSize t →
  ∃ r', RespondOk junk_object_id junk_pad args (new_ResponseState c tg t) = Done r' ∧
    good (transport r') ∧ wire (transport r') = wire t ++ encode_message m ∧
    MessageConnection.parse (encode_message m ++ rest) = Some (m, rest).
Proof.
  intros m Hg Hok Hm Hmax.
  destruct (RespondOk_spec junk_object_id junk_pad args c tg t) as (r' & E & ? & ? & _);
    [done|done| |done| |].
  - destruct Hm as [_ Hp _ Hs]. fold m. lia.
  - destruct Hm as [[] _ Hob _]. subst m. unfold response_message in *.
    destruct (packed_list args 0) as [pl os]. cbn in *. lia.
  - exists r'. split_and!; [done|done|done|]. by apply MessageConnection.parse_encode.
Qed.

Lemma respond_ok_is_message_witness :
  ∃ r', @RespondOk _ (tcp_impl slow_send) 7 0
      [VVectorOf [VString (str "hb"); VObject 5]; VPod [Byte.x01]; VObject 6]
      (new_ResponseState 3 9 (new_tcp tt)) = Done r' ∧
    deletion_flag (transport r') = false ∧
    sent (transport r') = encode_message (response_message 3 9 0 7 0
      [VVectorOf [VString (str "hb"); VObject 5]; VPod [Byte.x01]; VObject 6]) ∧
    MessageConnection.parse (encode_message (response_message 3 9 0 7 0
      [VVectorOf [VString (str "hb"); VObject 5]; VPod [Byte.x01]; VObject 6]) ++ [Byte.xff]) =
      Some (response_message 3 9 0 7 0
        [VVectorOf [VString (str "hb"); VObject 5]; VPod [Byte.x01]; VObject 6], [Byte.xff]).
Proof.
  apply (@respond_ok_is_message _ (tcp_impl slow_send) (tcp_laws slow_send slow_sends)).
  - reflexivity.
  - repeat constructor.
  - repeat constructor; vm_compute; try discriminate; reflexivity.
  - vm_compute. discriminate.
Defined.

(** the USB transport carries the same bytes.  With hardware that completes its
    transfers, [SendData] of any size, cut into buffer-sized posts, and the header
    and object ids, posted again while the hardware takes only a part, arrive in
    order and in full; so a response over USB is the same message as over TCP. *)
Theorem usb_respond_ok_is_message {E} (post : E → endpoint → bytes → E * Z * Z)
    (junk_object_id junk_pad c tg : Z) (args : list value) (b : usb_bridge) :
  let m := response_message c tg 0 junk_object_id junk_pad args in
  posts post → 0 < response_data_buffer_size b → Forall value_ok args → message_ok m →
  zlen (m_objects m) ≤ response_data_buffer_size b →
  ∃ r', @RespondOk _ (usb_impl post) junk_object_id junk_pad args (new_ResponseState c tg b) =
      Done r' ∧ posted (transport r') = posted b ++ encode_message m.
Proof.
  intros m Hp Hb Hok Hm Hmax.
  destruct (@respond_ok_is_message _ (usb_impl post) (usb_laws post Hp)
    junk_object_id junk_pad c tg args b []) as (r' & E' & _ & Hw & _); [done..|].
  by exists r'.
Qed.

Lemma usb_respond_ok_is_message_witness :
  ∃ r', @RespondOk _ (usb_impl (fun (e : unit) _ d => (tt, 3, Z.min 5 (zlen d)))) 0 0
      [VVector 1 [[Byte.x01]; [Byte.x02]; [Byte.x03]]; VObject 4]
      (new_ResponseState 1 2 (mk_usb tt 4 1 [] false [])) = Done r' ∧
    posted (transport r') = encode_message (response_message 1 2 0 0 0
      [VVector 1 [[Byte.x01]; [Byte.x02]; [Byte.x03]]; VObject 4]).
Proof.
  apply usb_respond_ok_is_message.
  - intros e ep d Hd. split; [done|].
    assert (zlen d ≠ 0) by (intros Hz; apply Hd, zlen_0_inv; lia). zlia.
  - cbn. lia.
  - repeat constructor.
  - repeat constructor; vm_compute; try discriminate; reflexivity.
  - vm_compute. discriminate.
Defined.

(** a response that is not what it announced does not go unnoticed.  Beginning a
    second response, or announcing more object ids than a transfer holds, aborts
    with the fatal bridge error; finishing a response that has written another number
    of bytes, or holds another number of objects, than its header says aborts with
    the bad response error. *)
Theorem response_misuse_aborts {T} `{HT : ResponseStateImpl T} `{HL : !ResponseStateLaws T}
    (junk_object_id junk_pad code size count : Z) (r : ResponseState T) :
  (has_begun r = true ∨ GetMaxTransferSize (transport r) < count * 4 →
   BeginError junk_object_id junk_pad code size count r = Aborts TWILI_ERR_FATAL_BRIDGE_STATE) ∧
  (transferred_size r ≠ total_size r ∨ zlen (objects r) ≠ expected_objects r →
   Finalize r = Aborts TWILI_ERR_BAD_RESPONSE).
Proof.
  split; [|apply Finalize_abort]. intros Hr. unfold BeginError.
  destruct (has_begun r); [done|]. destruct Hr as [|Hr]; [done|].
  by rewrite (proj2 (Z.ltb_lt _ _) Hr).
Qed.

Lemma response_misuse_aborts_witness :
  @BeginError _ (tcp_impl slow_send) 0 0 0 0 5000 (new_ResponseState 1 2 (new_tcp tt)) =
    Aborts TWILI_ERR_FATAL_BRIDGE_STATE.
Proof.
  apply (@response_misuse_aborts _ (tcp_impl slow_send) (tcp_laws slow_send slow_sends)
    0 0 0 0 5000 (new_ResponseState 1 2 (new_tcp tt))). right. reflexivity.
Defined.

(** a failing socket.  Whatever [bsd_send] returns, as long as it claims no more
    than it was given, sending terminates, what went out is a prefix of the data, and
    it is all of the data unless the connection has been marked for deletion; on a
    connection already marked nothing is sent. *)
Theorem tcp_send_prefix {S} (bsd_send : S → bytes → S * Z) (d : bytes) (c : tcp_connection) :
  sends_at_most bsd_send →
  ∃ c' l k, tcp_Send bsd_send d c = Done c' ∧ d = l ++ k ∧ sent c' = sent c ++ l ∧
    (deletion_flag c' = false → k = []) ∧ (deletion_flag c = true → c' = c).
Proof.
  intros Hs. destruct (tcp_Send_prefix bsd_send (length d) d c Hs) as
    (c' & l & k & ? & ? & ? & _ & _ & ? & ?); [done|].
  by exists c', l, k.
Qed.

Lemma tcp_send_prefix_witness :
  ∃ c' l k, tcp_Send (fun n d => (n - 1, Z.min n (zlen d))) (str "hello") (new_tcp 3) = Done c' ∧
    str "hello" = l ++ k ∧ sent c' = [] ++ l ∧
    (deletion_flag c' = false → k = []) ∧ (false = true → c' = new_tcp 3).
Proof. apply (tcp_send_prefix _ (str "hello") (new_tcp 3)). intros n d. cbn. lia. Defined.

End Response.
