(* ===== verification/Request.v ===== *)
(** * twili/bridge: reading a request's arguments and dispatching it

    The arguments of a command are unpacked from the payload as it arrives
    ([UnpackingHelper], [UnpackingHolder]); [SmartRequestHandler] invokes the
    command's function once they are complete; [SmartRequestDispatcher] picks the
    command by its number.  Template parameters are data here: an argument type is a
    value of [arg_type], a command is its number and argument types.  What a handler
    does to the outside is a list of [event]s.  Payload buffers have no limit and are
    their pending bytes. *)
From S2P Require Import Prelude Err Protocol.

Module Request.
Import Err.

(** ** Unpacking *)

Inductive arg_type : Type :=
| AVector (element_size : Z)
| AString
| AStream
| APod (size : Z).

(** A vector is its size and the bytes of its elements. *)
Inductive arg : Type :=
| Vector (size : Z) (raw : bytes)
| String (text : bytes)
| Stream (expected_size : Z)
| Pod (representation : bytes).

(** [buffer.Read] of [n] bytes: all of them or nothing. *)
Definition read (n : Z) (buffer : bytes) : option (bytes * bytes) :=
  if zlen buffer <? n then None else Some (ztake n buffer, zdrop n buffer).

(** An argument's slot of the holder: [has_value]/[value], and the helper's
    [has_size]/[size]. *)
Record slot : Type := mk_slot { ty : arg_type; size_read : option Z; value : option arg }.

Definition new_slot (t : arg_type) : slot := mk_slot t None None.

Section unpacking.
(** The largest allocation that succeeds. *)
Context (heap : Z).

(** [std::vector<T> vec(size)] *)
Definition allocate (element_size n : Z) : outcome unit :=
  if (2 ^ 63 - 1) <? n * element_size then Throws length_error
  else if heap <? n * element_size then Throws bad_alloc
  else Done tt.

(** [UnpackingHelper::Unpack] by argument type; a helper that has its size keeps it. *)
Definition Unpack_vector (element_size : Z) (h : option Z) (buffer : bytes) :
    outcome (option Z * bytes * option (Z * bytes)) :=
  let '(h, buffer) :=
    match h with
    | Some n => (Some n, buffer)
    | None => match read 8 buffer with
              | None => (None, buffer)
              | Some (l, buffer) => (Some (le_combine l), buffer)
              end
    end in
  match h with
  | None => Done (None, buffer, None)
  | Some n =>
      _ ← allocate element_size n;
      match read (n * element_size) buffer with
      | None => Done (Some n, buffer, None)
      | Some (l, buffer) => Done (Some n, buffer, Some (n, l))
      end
  end.

Definition Unpack_helper (s : slot) (buffer : bytes) : outcome (slot * bytes * bool) :=
  match ty s with
  | AVector size =>
      '(h, buffer, r) ← Unpack_vector size (size_read s) buffer;
      match r with
      | None => Done (mk_slot (ty s) h None, buffer, false)
      | Some (n, l) => Done (mk_slot (ty s) h (Some (Vector n l)), buffer, true)
      end
  | AString =>
      '(h, buffer, r) ← Unpack_vector 1 (size_read s) buffer;
      match r with
      | None => Done (mk_slot (ty s) h None, buffer, false)
      | Some (n, l) => Done (mk_slot (ty s) h (Some (String l)), buffer, true)
      end
  | AStream =>
      match read 8 buffer with
      | None => Done (s, buffer, false)
      | Some (l, buffer) =>
          Done (mk_slot (ty s) (Some (le_combine l)) (Some (Stream (le_combine l))), buffer, true)
      end
  | APod n =>
      match read n buffer with
      | None => Done (s, buffer, false)
      | Some (l, buffer) => Done (mk_slot (ty s) None (Some (Pod l)), buffer, true)
      end
  end.

(** [UnpackingHolder::Unpack]: the arguments in order, from the first that has no
    value yet. *)
Fixpoint Unpack (slots : list slot) (buffer : bytes) : outcome (list slot * bytes * bool) :=
  match slots with
  | [] => Done ([], buffer, true)
  | s :: slots =>
      '(s, buffer, done) ← (match value s with
                            | Some _ => Done (s, buffer, true)
                            | None => Unpack_helper s buffer
                            end);
      if done : bool then
        '(slots, buffer, done) ← Unpack slots buffer; Done (s :: slots, buffer, done)
      else Done (s :: slots, buffer, false)
  end.

(** The stream is the last argument, if there is one. *)
Fixpoint GetStream (slots : list slot) : option Z :=
  match slots with
  | [] => None
  | s :: slots =>
      match ty s, value s with
      | AStream, Some (Stream n) => Some n
      | _, _ => GetStream slots
      end
  end.
Definition GetValues (slots : list slot) : list arg :=
  slots ≫= (fun s => match value s with Some a => [a] | None => [] end).

(** ** SmartRequestHandler *)

(** The invocation of the command's function, a response with the bad request error,
    and the calls of the stream's callbacks with the bytes they take. *)
Inductive event : Type :=
| Invoke (args : list arg)
| RespondError (code : Z)
| Received (data : bytes)
| Finished (pending : bytes).

Record handler : Type := mk_handler {
  parameter_holder : list slot;
  consumed_size : Z;
  payload_size : Z;
  streaming : bool;
  has_signaled_bad_request : bool }.

Definition new_handler (types : list arg_type) (size : Z) : handler :=
  mk_handler (map new_slot types) 0 size false false.

(** How much of the pending data the stream's [receive] callback takes. *)
Context (receive : bytes → Z).

Definition SignalBadRequest (h : handler) : outcome (handler * list event) :=
  if has_signaled_bad_request h then Aborts TWILI_ERR_FATAL_BRIDGE_STATE
  else Done (mk_handler (parameter_holder h) (consumed_size h) (payload_size h) (streaming h) true,
             [RespondError TWILI_ERR_PROTOCOL_BAD_REQUEST]).

Definition FlushReceiveBuffer (h : handler) (buffer : bytes) :
    outcome (handler * bytes * list event) :=
  if has_signaled_bad_request h then Done (h, [], [])
  else if negb (streaming h) then
    '(slots, buffer', done) ← Unpack (parameter_holder h) buffer;
    let consumed := u64 (consumed_size h + (zlen buffer - zlen buffer')) in
    let h := mk_handler slots consumed (payload_size h) false false in
    if done : bool then
      let bad :=
        match GetStream slots with
        | Some expected => negb (expected =? u64 (payload_size h - consumed))
        | None => consumed <? payload_size h
        end in
      if bad then '(h, e) ← SignalBadRequest h; Done (h, buffer', e)
      else Done (mk_handler slots consumed (payload_size h) true false, buffer',
                 [Invoke (GetValues slots)])
    else Done (h, buffer', [])
  else
    match GetStream (parameter_holder h) with
    | Some _ =>
        let n := receive buffer in
        if (n <? 0) || (zlen buffer <? n) then Undefined
        else Done (h, zdrop n buffer, [Received (ztake n buffer)])
    | None =>
        if 0 <? zlen buffer then '(h, e) ← SignalBadRequest h; Done (h, buffer, e)
        else Done (h, buffer, [])
    end.

Definition Finalize (h : handler) (buffer : bytes) : outcome (handler * bytes * list event) :=
  '(h, buffer, e) ← FlushReceiveBuffer h buffer;
  match GetStream (parameter_holder h) with
  | Some _ => if streaming h then Done (h, buffer, e ++ [Finished buffer])
              else Done (h, buffer, e)
  | None => Done (h, buffer, e)
  end.

(** A payload that arrives in pieces, then the end of the command. *)
Fixpoint run (h : handler) (buffer : bytes) (pieces : list bytes) : outcome (list event) :=
  match pieces with
  | [] => '(_, _, e) ← Finalize h buffer; Done e
  | p :: pieces =>
      '(h, buffer, e) ← FlushReceiveBuffer h (buffer ++ p);
      e' ← run h buffer pieces;
      Done (e ++ e')
  end.
End unpacking.

(** ** SmartRequestDispatcher *)

Record command : Type := mk_command { cmd_id : Z; parameters : list arg_type }.

Inductive request_handler : Type :=
| Discarding
| Smart (cmd : Z) (h : handler).

(** The fold over the commands: the last match stays. *)
Definition OpenRequest (commands : list command) (command_id payload_size : Z) :
    request_handler * list event :=
  let found := foldl (fun acc c =>
    if cmd_id c =? command_id then Some (Smart command_id (new_handler (parameters c) payload_size))
    else acc) None commands in
  match found with
  | Some h => (h, [])
  | None => (Discarding, [RespondError TWILI_ERR_PROTOCOL_UNRECOGNIZED_FUNCTION])
  end.

(** [RequestHandler]'s virtual methods on either kind. *)
Definition handler_flush (heap : Z) (receive : bytes → Z) (h : request_handler) (buffer : bytes) :
    outcome (request_handler * bytes * list event) :=
  match h with
  | Discarding => Done (Discarding, [], [])
  | Smart c h => '(h, buffer, e) ← FlushReceiveBuffer heap receive h buffer;
                 Done (Smart c h, buffer, e)
  end.
Definition handler_finalize (heap : Z) (receive : bytes → Z) (h : request_handler) (buffer : bytes) :
    outcome (request_handler * bytes * list event) :=
  match h with
  | Discarding => Done (Discarding, [], [])
  | Smart c h => '(h, buffer, e) ← Finalize heap receive h buffer;
                 Done (Smart c h, buffer, e)
  end.

(** ** Specification *)

(** The client's packing of arguments (twib/tool/Packing.hpp). *)
Definition encode_arg (a : arg) : bytes :=
  match a with
  | Vector n raw => le_split 8 n ++ raw
  | String l => le_split 8 (zlen l) ++ l
  | Stream n => le_split 8 n
  | Pod l => l
  end.
Definition encode_args (l : list arg) : bytes := l ≫= encode_arg.

Definition arg_ok (heap : Z) (t : arg_type) (a : arg) : Prop :=
  match t, a with
  | AVector size, Vector n raw =>
      zlen raw = n * size ∧ 0 ≤ size ∧ 0 ≤ n < 2 ^ 64 ∧ n * size ≤ heap
  | AString, String l => zlen l ≤ heap
  | AStream, Stream n => 0 ≤ n < 2 ^ 64
  | APod size, Pod l => zlen l = size
  | _, _ => False
  end.
Definition no_stream (types : list arg_type) : Prop := Forall (fun t => t ≠ AStream) types.

(** The data a handler's events hand to the stream. *)
Definition streamed (l : list event) : bytes :=
  l ≫= (fun e => match e with Received d | Finished d => d | _ => [] end).

(** The stream's callbacks: [receive] some times, then [finish] once, with these bytes. *)
Definition callbacks (l : list event) (pending : bytes) : Prop :=
  ∃ ds, l = map Received ds ++ [Finished pending].

(** What [run] should give, from the result of unpacking the whole payload: nothing
    for a short one, one error for a long one or a wrong stream size, else exactly
    one invocation and, for a stream, its data; none is left to [finish] if [consumes]. *)
Definition run_result (consumes : Prop) (u : outcome (list slot * bytes * bool)) (r : outcome (list event)) : Prop :=
  match u with
  | Done (slots, rest, false) => r = Done []
  | Done (slots, rest, true) =>
      match GetStream slots with
      | None => r = Done [if decide (rest = []) then Invoke (GetValues slots)
                          else RespondError TWILI_ERR_PROTOCOL_BAD_REQUEST]
      | Some n =>
          if decide (n = zlen rest) then
            ∃ l d, r = Done (Invoke (GetValues slots) :: l) ∧ streamed l = rest ∧
              callbacks l d ∧ (consumes → d = [])
          else r = Done [RespondError TWILI_ERR_PROTOCOL_BAD_REQUEST]
      end
  | _ => True
  end.

Fixpoint stream_of (l : list arg) : option Z :=
  match l with
  | [] => None
  | Stream n :: _ => Some n
  | _ :: l => stream_of l
  end.

(** ** Lemmas *)

Lemma read_app n b1 b2 :
  match read n b1 with
  | Some (l, r) => read n (b1 ++ b2) = Some (l, r ++ b2)
  | None => True
  end.
Proof.
  unfold read. destruct (Z.ltb_spec (zlen b1) n); [done|].
  rewrite (proj2 (Z.ltb_ge _ _)) by zlia. f_equal.
  by rewrite ztake_app_le, zdrop_app_le by lia.
Qed.

Lemma read_exact n l r : zlen l = n → read n (l ++ r) = Some (l, r).
Proof.
  intros Hl. unfold read. rewrite (proj2 (Z.ltb_ge _ _)) by zlia.
  by rewrite ztake_app, zdrop_app.
Qed.

Lemma read_suffix n b l r : read n b = Some (l, r) → ∃ k, b = k ++ r.
Proof.
  unfold read. destruct (zlen b <? n); [done|]. intros [= <- <-].
  exists (ztake n b). by rewrite ztake_zdrop.
Qed.

Section unpacking.
Context (heap : Z).

Lemma Unpack_vector_app size h b1 b2 :
  match Unpack_vector heap size h b1 with
  | Done (h1, r1, Some x) => Unpack_vector heap size h (b1 ++ b2) = Done (h1, r1 ++ b2, Some x)
  | Done (h1, r1, None) =>
      Unpack_vector heap size h1 (r1 ++ b2) = Unpack_vector heap size h (b1 ++ b2)
  | o => Unpack_vector heap size h (b1 ++ b2) = o
  end.
Proof.
  unfold Unpack_vector. destruct h as [n|].
  - destruct (allocate heap size n) as [u| | | |] eqn:Ea; cbn; try done.
    pose proof (read_app (n * size) b1 b2) as Hr.
    destruct (read (n * size) b1) as [[l r]|]; [by rewrite Hr|]. by rewrite Ea.
  - pose proof (read_app 8 b1 b2) as Hr8.
    destruct (read 8 b1) as [[l r]|]; [|done]. rewrite Hr8.
    destruct (allocate heap size (le_combine l)) as [u| | | |] eqn:Ea; cbn; try done.
    pose proof (read_app (le_combine l * size) r b2) as Hr.
    destruct (read (le_combine l * size) r) as [[l' r']|]; [by rewrite Hr|]. by rewrite Ea.
Qed.

Lemma Unpack_helper_app s b1 b2 :
  match Unpack_helper heap s b1 with
  | Done (s1, r1, true) =>
      Unpack_helper heap s (b1 ++ b2) = Done (s1, r1 ++ b2, true) ∧ is_Some (value s1)
  | Done (s1, r1, false) =>
      Unpack_helper heap s1 (r1 ++ b2) = Unpack_helper heap s (b1 ++ b2) ∧
      (value s = None → value s1 = None)
  | o => Unpack_helper heap s (b1 ++ b2) = o
  end.
Proof.
  unfold Unpack_helper. destruct s as [[size| |  |n] h v]; cbn.
  - pose proof (Unpack_vector_app size h b1 b2) as Hv.
    destruct (Unpack_vector heap size h b1) as [[[h1 r1] [[n l]|]]| | | |]; cbn; rewrite Hv;
      cbn; eauto.
  - pose proof (Unpack_vector_app 1 h b1 b2) as Hv.
    destruct (Unpack_vector heap 1 h b1) as [[[h1 r1] [[n l]|]]| | | |]; cbn; rewrite Hv;
      cbn; eauto.
  - pose proof (read_app 8 b1 b2) as Hr. destruct (read 8 b1) as [[l r]|]; [rewrite Hr|]; eauto.
  - pose proof (read_app n b1 b2) as Hr. destruct (read n b1) as [[l r]|]; [rewrite Hr|]; eauto.
Qed.

(** Unpacking is incremental: a piece, then the rest, is as good as everything. *)
Lemma Unpack_app slots b1 b2 :
  match Unpack heap slots b1 with
  | Done (s1, r1, true) => Unpack heap slots (b1 ++ b2) = Done (s1, r1 ++ b2, true)
  | Done (s1, r1, false) => Unpack heap s1 (r1 ++ b2) = Unpack heap slots (b1 ++ b2)
  | o => Unpack heap slots (b1 ++ b2) = o
  end.
Proof.
  revert b1. induction slots as [|s slots IH]; intros b1; [done|]. cbn [Unpack].
  destruct (value s) as [a|] eqn:Ev; cbn [mbind outcome_bind].
  - specialize (IH b1). destruct (Unpack heap slots b1) as [[[s1 r1] []]| | | |]; cbn;
      rewrite ?Ev; cbn; by rewrite IH.
  - pose proof (Unpack_helper_app s b1 b2) as Hh.
    destruct (Unpack_helper heap s b1) as [[[s1 r1] []]| | | |]; cbn [mbind outcome_bind];
      try (rewrite Hh; done).
    + destruct Hh as [Hh [a Ea]]. rewrite Hh. cbn [mbind outcome_bind]. specialize (IH r1).
      destruct (Unpack heap slots r1) as [[[s2 r2] []]| | | |]; cbn [mbind outcome_bind Unpack];
        rewrite ?Ea; cbn [mbind outcome_bind]; by rewrite IH.
    + destruct Hh as [Hh Hn]. cbn [Unpack]. by rewrite (Hn Ev), Hh.
Qed.

Lemma Unpack_vector_suffix size h b h1 r x :
  Unpack_vector heap size h b = Done (h1, r, x) → ∃ k, b = k ++ r.
Proof.
  unfold Unpack_vector. destruct h as [n|].
  - destruct (allocate heap size n); cbn; try done.
    destruct (read (n * size) b) as [[l r']|] eqn:Er; intros [= <- <- <-];
      [by eapply read_suffix|by exists []].
  - destruct (read 8 b) as [[l r1]|] eqn:E8; [|intros [= <- <- <-]; by exists []].
    apply read_suffix in E8 as [k1 ->]. destruct (allocate _ _ _); cbn; try done.
    destruct (read _ r1) as [[l' r']|] eqn:Er; intros [= <- <- <-]; [|by eexists].
    apply read_suffix in Er as [k2 ->]. exists (k1 ++ k2). by rewrite <- app_assoc.
Qed.

Lemma Unpack_helper_suffix s b s1 r d :
  Unpack_helper heap s b = Done (s1, r, d) → ∃ k, b = k ++ r.
Proof.
  unfold Unpack_helper. destruct (ty s) as [size| | |n].
  - destruct (Unpack_vector heap size (size_read s) b) as [[[h x] [[? ?]|]]| | | |] eqn:E; cbn;
      try done; intros [= <- <- <-]; by eapply Unpack_vector_suffix.
  - destruct (Unpack_vector heap 1 (size_read s) b) as [[[h x] [[? ?]|]]| | | |] eqn:E; cbn;
      try done; intros [= <- <- <-]; by eapply Unpack_vector_suffix.
  - destruct (read 8 b) as [[l x]|] eqn:E; intros [= <- <- <-];
      [by eapply read_suffix|by exists []].
  - destruct (read n b) as [[l x]|] eqn:E; intros [= <- <- <-];
      [by eapply read_suffix|by exists []].
Qed.

Lemma Unpack_suffix slots b s1 r d :
  Unpack heap slots b = Done (s1, r, d) → zlen r ≤ zlen b.
Proof.
  revert b s1 r d. induction slots as [|s slots IH]; intros b s1 r d; cbn [Unpack].
  { by intros [= _ <- _]. }
  intros E. destruct (value s) as [a|]; cbn [mbind outcome_bind] in E.
  - destruct (Unpack heap slots b) as [[[s2 r2] d2]| | | |] eqn:E2; cbn in E; try done.
    injection E as <- <- <-. by eapply IH.
  - destruct (Unpack_helper heap s b) as [[[s2 r2] []]| | | |] eqn:Eh; cbn in E; try done.
    + apply Unpack_helper_suffix in Eh as [k ->].
      destruct (Unpack heap slots r2) as [[[s3 r3] d3]| | | |] eqn:E2; cbn in E; try done.
      injection E as <- <- <-. apply IH in E2. zlia.
    + injection E as <- <- <-. apply Unpack_helper_suffix in Eh as [k ->]. zlia.
Qed.

(** ** Running a handler over a payload *)

Context (receive : bytes → Z).
Context (Hreceive : ∀ b, 0 ≤ receive b ≤ zlen b).

Lemma run_bad h pieces b :
  has_signaled_bad_request h = true → streaming h = false → run heap receive h b pieces = Done [].
Proof.
  revert b. induction pieces as [|p pieces IH]; intros b Hb Hs; cbn [run]; unfold Finalize,
    FlushReceiveBuffer; rewrite Hb; cbn [mbind outcome_bind].
  - destruct (GetStream _); by rewrite ?Hs.
  - by rewrite IH.
Qed.

Lemma run_no_stream h pieces b :
  has_signaled_bad_request h = false → streaming h = true → GetStream (parameter_holder h) = None →
  b ++ concat pieces = [] → run heap receive h b pieces = Done [].
Proof.
  revert b. induction pieces as [|p pieces IH]; intros b Hb Hs Hn He; cbn [run]; unfold Finalize,
    FlushReceiveBuffer; rewrite Hb, Hs; cbn [negb mbind outcome_bind]; rewrite Hn.
  - apply app_eq_nil in He as [-> _]. change (0 <? zlen []) with false. cbn. by rewrite Hn.
  - cbn [concat] in He. rewrite app_assoc in He. pose proof He as He'.
    apply app_eq_nil in He as [-> Hc].
    change (0 <? zlen []) with false. cbn [mbind outcome_bind]. rewrite IH; by rewrite ?Hc.
Qed.

Lemma run_streaming h n pieces b :
  has_signaled_bad_request h = false → streaming h = true →
  GetStream (parameter_holder h) = Some n →
  ∃ l d, run heap receive h b pieces = Done l ∧ streamed l = b ++ concat pieces ∧
    callbacks l d ∧ ((∀ b, receive b = zlen b) → d = []).
Proof.
  revert b. induction pieces as [|p pieces IH]; intros b Hb Hs Hn; cbn [run]; unfold Finalize,
    FlushReceiveBuffer; rewrite Hb, Hs; cbn [negb mbind outcome_bind]; rewrite Hn.
  - pose proof (Hreceive b). rewrite (proj2 (Z.ltb_ge (receive b) 0)),
      (proj2 (Z.ltb_ge (zlen b) (receive b))) by lia. cbn. rewrite ?Hn, ?Hs.
    eexists _, _. split; [done|]. unfold streamed. cbn. rewrite !app_nil_r, ztake_zdrop.
    split_and!; [done|by exists [ztake (receive b) b]|]. intros ->. by apply zdrop_all.
  - pose proof (Hreceive (b ++ p)) as Hr. set (m := receive (b ++ p)) in *.
    rewrite (proj2 (Z.ltb_ge m 0)), (proj2 (Z.ltb_ge (zlen (b ++ p)) m)) by lia.
    cbn [orb mbind outcome_bind]. destruct (IH (zdrop m (b ++ p))) as (l & d & El & Hst & [ds ->] & Hd);
      [done..|]. rewrite El. cbn [mbind outcome_bind]. eexists _, d. split; [done|].
    split_and!; [|by exists (ztake m (b ++ p) :: ds)|done].
    change (streamed ([Received (ztake m (b ++ p))] ++ map Received ds ++ [Finished d])) with
      (ztake m (b ++ p) ++ streamed (map Received ds ++ [Finished d])). rewrite Hst, app_assoc, ztake_zdrop.
    cbn [concat]. by rewrite app_assoc.
Qed.

Lemma FlushReceiveBuffer_done slots c size b s1 r1 :
  Unpack heap slots b = Done (s1, r1, true) → 0 ≤ c → c + zlen b ≤ size < 2 ^ 64 →
  FlushReceiveBuffer heap receive (mk_handler slots c size false false) b =
    let c1 := c + (zlen b - zlen r1) in
    let bad := match GetStream s1 with
               | Some n => bool_decide (n ≠ size - c1)
               | None => c1 <? size
               end in
    if bad then Done (mk_handler s1 c1 size false true, r1,
                      [RespondError TWILI_ERR_PROTOCOL_BAD_REQUEST])
    else Done (mk_handler s1 c1 size true false, r1, [Invoke (GetValues s1)]).
Proof.
  intros E Hc Hs. pose proof (Unpack_suffix _ _ _ _ _ E). pose proof (zlen_nonneg r1).
  unfold FlushReceiveBuffer. cbn [has_signaled_bad_request streaming negb parameter_holder].
  rewrite E. cbn [mbind outcome_bind consumed_size payload_size].
  rewrite (u64_small (c + _)) by lia. set (c1 := c + (zlen b - zlen r1)).
  assert (match GetStream s1 with
          | Some expected => negb (expected =? u64 (size - c1))
          | None => c1 <? size
          end = match GetStream s1 with
                | Some n => bool_decide (n ≠ size - c1)
                | None => c1 <? size
                end) as ->.
  { destruct (GetStream s1) as [n|]; [|done]. rewrite u64_small by (subst c1; lia).
    destruct (Z.eqb_spec n (size - c1)); case_bool_decide; done. }
  by destruct (match GetStream s1 with Some _ => _ | None => _ end).
Qed.

Lemma run_spec pieces slots c size b :
  0 ≤ c → size = c + zlen (b ++ concat pieces) → size < 2 ^ 64 →
  run_result ((∀ b, receive b = zlen b) ∧ (∀ s r, Unpack heap slots b ≠ Done (s, r, true)))
    (Unpack heap slots (b ++ concat pieces)) (run heap receive (mk_handler slots c size false false) b pieces).
Proof.
  revert slots c b. induction pieces as [|p pieces IH]; intros slots c b Hc Hsz Hlt.
  - cbn [concat run] in *. rewrite app_nil_r in *. unfold Finalize, run_result.
    destruct (Unpack heap slots b) as [[[s1 r1] []]| | | |] eqn:E; try done.
    + rewrite (FlushReceiveBuffer_done _ _ _ _ _ _ E) by lia. cbv zeta.
      pose proof (Unpack_suffix _ _ _ _ _ E). zlen_facts.
      destruct (GetStream s1) as [n|] eqn:Eg.
      * replace (size - (c + (zlen b - zlen r1))) with (zlen r1) by lia.
        case_bool_decide as Hn; case_decide; try done; cbn; rewrite Eg; [done|].
        eexists _, r1. split; [done|]. cbn. rewrite app_nil_r. split_and!; [done|by exists []|].
        intros [_ Hnot]. by destruct (Hnot s1 r1).
      * destruct (Z.ltb_spec (c + (zlen b - zlen r1)) size); cbn; rewrite Eg; case_decide as Hr;
          try done; [subst r1; change (zlen []) with 0 in *; lia|].
        destruct Hr. apply zlen_0_inv. lia.
    + unfold FlushReceiveBuffer. cbn [has_signaled_bad_request streaming negb parameter_holder].
      rewrite E. cbn. by destruct (GetStream s1).
  - cbn [concat run] in *. rewrite app_assoc in *.
    pose proof (Unpack_app slots (b ++ p) (concat pieces)) as Ha.
    destruct (Unpack heap slots (b ++ p)) as [[[s1 r1] []]| | | |] eqn:E.
    + rewrite Ha. cbn [run_result].
      rewrite zlen_app in Hsz. pose proof (Unpack_suffix _ _ _ _ _ E).
      pose proof (zlen_nonneg (concat pieces)).
      rewrite (FlushReceiveBuffer_done _ _ _ _ _ _ E) by lia. cbv zeta.
      assert (size - (c + (zlen (b ++ p) - zlen r1)) = zlen (r1 ++ concat pieces)) as Hrem
        by (rewrite (zlen_app r1); lia).
      destruct (GetStream s1) as [n|] eqn:Eg.
      * rewrite Hrem. case_bool_decide as Hn; case_decide; try done; cbn [mbind outcome_bind].
        { by rewrite run_bad. }
        destruct (run_streaming (mk_handler s1 (c + (zlen (b ++ p) - zlen r1)) size true false)
          n pieces r1) as (l & d & El & ? & ? & Hd); [done|done|done|].
        rewrite El. exists l, d. split_and!; [done..|]. intros [Hall _]. by apply Hd.
      * destruct (Z.ltb_spec (c + (zlen (b ++ p) - zlen r1)) size); cbn [mbind outcome_bind].
        { rewrite run_bad by done. case_decide as Hr; [|done].
          rewrite Hr in Hrem. change (zlen []) with 0 in Hrem. lia. }
        assert (r1 ++ concat pieces = []) as Hr by (apply zlen_0_inv; lia).
        rewrite run_no_stream by done. case_decide; done.
    + rewrite <- Ha. unfold FlushReceiveBuffer at 1.
      cbn [has_signaled_bad_request streaming negb parameter_holder]. rewrite E.
      cbn [mbind outcome_bind consumed_size payload_size].
      rewrite zlen_app in Hsz. pose proof (Unpack_suffix _ _ _ _ _ E).
      pose proof (zlen_nonneg (concat pieces)). pose proof (zlen_nonneg r1).
      rewrite u64_small by lia.
      specialize (IH s1 (c + (zlen (b ++ p) - zlen r1)) r1 ltac:(lia)).
      rewrite (zlen_app r1) in IH. specialize (IH ltac:(lia) Hlt).
      assert (Unpack heap s1 r1 = Done (s1, r1, false)) as Hnot.
      { pose proof (Unpack_app slots (b ++ p) []) as Hnil. rewrite E, !app_nil_r in Hnil. by rewrite Hnil, E. }
      set (o := run heap receive _ r1 pieces) in *.
      assert ((e' ← o; Done ([] ++ e')) = o) as -> by (by destruct o).
      unfold run_result in *. destruct (Unpack heap s1 (r1 ++ concat pieces)) as [[[s2 r2] []]| | | |]; try done.
      destruct (GetStream s2); [|done]. case_decide; [|done].
      destruct IH as (l & d & He & ? & ? & Hd). exists l, d. split_and!; [done..|]. intros [Hall _].
      apply Hd. split; [done|]. intros s r. by rewrite Hnot.
    + by rewrite Ha.
    + by rewrite Ha.
    + by rewrite Ha.
    + by rewrite Ha.
Qed.
End unpacking.

Section decoding.
Context (heap : Z) (Hheap : heap < 2 ^ 63).

Lemma Unpack_vector_exact size n raw rest :
  zlen raw = n * size → 0 ≤ size → 0 ≤ n < 2 ^ 64 → n * size ≤ heap →
  Unpack_vector heap size None (le_split 8 n ++ raw ++ rest) =
    Done (Some n, rest, Some (n, raw)).
Proof.
  intros Hl Hs Hn Hh. unfold Unpack_vector.
  rewrite read_exact by (by rewrite Protocol.zlen_le_split).
  rewrite le_combine_split. change (8 * Z.of_nat 8) with 64.
  rewrite Z.mod_small by lia. unfold allocate.
  rewrite (proj2 (Z.ltb_ge (2 ^ 63 - 1) _)), (proj2 (Z.ltb_ge heap _)) by lia.
  cbn [mbind outcome_bind]. by rewrite read_exact.
Qed.

Lemma Unpack_helper_exact t a rest :
  arg_ok heap t a →
  ∃ h, Unpack_helper heap (new_slot t) (encode_arg a ++ rest) = Done (mk_slot t h (Some a), rest, true).
Proof.
  unfold Unpack_helper. destruct t as [size| | |n], a as [m raw|l|m|l]; try done; cbn.
  - intros (? & ? & ? & ?). rewrite <- app_assoc, Unpack_vector_exact by done. by eexists.
  - intros Hl. rewrite <- app_assoc. pose proof (zlen_nonneg l).
    rewrite Unpack_vector_exact by lia. by eexists.
  - intros Hm. rewrite read_exact by (by rewrite Protocol.zlen_le_split).
    rewrite le_combine_split, Z.mod_small by (change (8 * Z.of_nat 8) with 64; lia). by eexists.
  - intros Hl. rewrite read_exact by done. by eexists.
Qed.

Lemma Unpack_args types args rest :
  Forall2 (arg_ok heap) types args →
  ∃ slots, Unpack heap (map new_slot types) (encode_args args ++ rest) = Done (slots, rest, true) ∧
    GetValues slots = args ∧ GetStream slots = stream_of args.
Proof.
  induction 1 as [|t a types args Ha _ IH]; [by exists []|].
  destruct (Unpack_helper_exact t a (encode_args args ++ rest) Ha) as [h Eh].
  destruct IH as (slots & E & Ev & Es). exists (mk_slot t h (Some a) :: slots).
  cbn [map Unpack new_slot value]. change (encode_args (a :: args)) with (encode_arg a ++ encode_args args).
  rewrite <- app_assoc. fold (new_slot t). rewrite Eh. cbn [mbind outcome_bind]. rewrite E.
  cbn [mbind outcome_bind]. split; [done|]. split.
  - change (GetValues (mk_slot t h (Some a) :: slots)) with (a :: GetValues slots). by rewrite Ev.
  - cbn. destruct t, a; try done; by rewrite Es.
Qed.

Lemma Unpack_prefix types args b k :
  Forall2 (arg_ok heap) types args → b ++ k = encode_args args → k ≠ [] →
  ∃ slots r, Unpack heap (map new_slot types) b = Done (slots, r, false).
Proof.
  intros Hok Hb Hk. destruct (Unpack_args types args [] Hok) as (slots & E & _).
  rewrite app_nil_r, <- Hb in E. pose proof (Unpack_app heap (map new_slot types) b k) as Ha.
  destruct (Unpack heap (map new_slot types) b) as [[[s r] []]| | | |]; rewrite E in Ha; try done.
  - injection Ha as _ Hr. symmetry in Hr. by apply app_eq_nil in Hr as [_ ?].
  - by exists s, r.
Qed.
End decoding.

Lemma stream_encoded args n : stream_of args = Some n → encode_args args ≠ [].
Proof.
  induction args as [|a args IH]; [done|]. unfold encode_args. cbn. intros Hs [Ha Hargs]%app_eq_nil.
  destruct a as [m raw|l|m|l]; [by apply IH..| |by apply IH].
  discriminate Ha.
Qed.

(** The whole of a well-formed payload. *)
Lemma run_args heap receive types args pieces data :
  heap < 2 ^ 63 → (∀ b, 0 ≤ receive b ≤ zlen b) → Forall2 (arg_ok heap) types args →
  concat pieces = encode_args args ++ data → zlen (concat pieces) < 2 ^ 64 →
  zlen data = default 0 (stream_of args) →
  ∃ l, run heap receive (new_handler types (zlen (concat pieces))) [] pieces =
         Done (Invoke args :: l) ∧
    streamed l = data ∧ (stream_of args = None → l = []) ∧
    (stream_of args ≠ None → ∃ d, callbacks l d ∧ ((∀ b, receive b = zlen b) → d = [])).
Proof.
  intros Hheap Hrec Hok Hcat Hlt Hdata.
  destruct (Unpack_args heap Hheap types args data Hok) as (slots & E & Ev & Es).
  pose proof (run_spec heap receive Hrec pieces (map new_slot types) 0 (zlen (concat pieces)) []
    ltac:(lia) eq_refl Hlt) as Hrun.
  cbn [app] in Hrun. rewrite Hcat in Hrun at 1. rewrite E in Hrun. unfold run_result in Hrun.
  rewrite Es, Ev in Hrun. unfold new_handler. destruct (stream_of args) as [n|] eqn:En; cbn in Hdata.
  - rewrite decide_True in Hrun by done. destruct Hrun as (l & d & El & ? & ? & Hd).
    exists l. rewrite El. split_and!; [done..|]. intros _. exists d. split; [done|]. intros Hall.
    apply Hd. split; [done|]. intros s r Ed.
    destruct (Unpack_prefix heap Hheap types args [] (encode_args args) Hok) as (? & ? & E0); [done| |by rewrite E0 in Ed].
    by apply (stream_encoded args n).
  - assert (data = []) as -> by (apply zlen_0_inv; lia). rewrite decide_True in Hrun by done.
    exists []. by rewrite Hrun.
Qed.

(** ** Theorems *)

(** C36: a well-formed request invokes its command exactly once.  If the payload, cut
    into any pieces, is the client's encoding of arguments of the command's types,
    the handler invokes the command once, with exactly these arguments, and does
    nothing else; with a stream argument of the size that follows, the stream then
    gets exactly the remaining bytes in order and is finished once, after them; no byte is
    left then if it takes all it is given. *)
Theorem request_invokes_once heap receive types args pieces data :
  heap < 2 ^ 63 → (∀ b, 0 ≤ receive b ≤ zlen b) → Forall2 (arg_ok heap) types args →
  concat pieces = encode_args args ++ data → zlen (concat pieces) < 2 ^ 64 →
  zlen data = default 0 (stream_of args) →
  ∃ l, run heap receive (new_handler types (zlen (concat pieces))) [] pieces =
         Done (Invoke args :: l) ∧
    streamed l = data ∧ (stream_of args = None → l = []) ∧
    (stream_of args ≠ None → ∃ d, callbacks l d ∧ ((∀ b, receive b = zlen b) → d = [])).
Proof. apply run_args. Qed.

Lemma request_invokes_once_witness :
  ∃ l, run 4096 zlen (new_handler [AString; APod 4; AStream] 27) []
      [[Byte.x02; Byte.x00; Byte.x00; Byte.x00; Byte.x00]; [Byte.x00; Byte.x00; Byte.x00];
       str "ab" ++ [Byte.x07; Byte.x00]; [];
       [Byte.x00; Byte.x00; Byte.x05; Byte.x00; Byte.x00; Byte.x00; Byte.x00; Byte.x00;
        Byte.x00; Byte.x00] ++ str "hel"; str "lo"] =
    Done (Invoke [String (str "ab"); Pod [Byte.x07; Byte.x00; Byte.x00; Byte.x00]; Stream 5] :: l) ∧
    streamed l = str "hello" ∧ (Some 5 = None → l = []) ∧
    (Some 5 ≠ None → ∃ d, callbacks l d ∧ ((∀ b : bytes, zlen b = zlen b) → d = [])).
Proof.
  apply (request_invokes_once 4096 zlen [AString; APod 4; AStream]
    [String (str "ab"); Pod [Byte.x07; Byte.x00; Byte.x00; Byte.x00]; Stream 5]
    [[Byte.x02; Byte.x00; Byte.x00; Byte.x00; Byte.x00]; [Byte.x00; Byte.x00; Byte.x00];
       str "ab" ++ [Byte.x07; Byte.x00]; [];
       [Byte.x00; Byte.x00; Byte.x05; Byte.x00; Byte.x00; Byte.x00; Byte.x00; Byte.x00;
        Byte.x00; Byte.x00] ++ str "hel"; str "lo"] (str "hello")).
  - lia.
  - intros b. pose proof (zlen_nonneg b). lia.
  - repeat constructor; vm_compute; discriminate.
  - reflexivity.
  - reflexivity.
  - reflexivity.
Defined.

(** a request of the wrong size is refused.  If bytes are left after the
    arguments, or the announced stream size is not what follows, the handler answers
    with the bad request error, once, and never invokes the command. *)
Theorem oversized_request_refused heap receive types args pieces data :
  heap < 2 ^ 63 → (∀ b, 0 ≤ receive b ≤ zlen b) → Forall2 (arg_ok heap) types args →
  concat pieces = encode_args args ++ data → zlen (concat pieces) < 2 ^ 64 →
  zlen data ≠ default 0 (stream_of args) →
  run heap receive (new_handler types (zlen (concat pieces))) [] pieces =
    Done [RespondError TWILI_ERR_PROTOCOL_BAD_REQUEST].
Proof.
  intros Hheap Hrec Hok Hcat Hlt Hdata.
  destruct (Unpack_args heap Hheap types args data Hok) as (slots & E & Ev & Es).
  pose proof (run_spec heap receive Hrec pieces (map new_slot types) 0 (zlen (concat pieces)) []
    ltac:(lia) eq_refl Hlt) as Hrun.
  cbn [app] in Hrun. rewrite Hcat in Hrun at 1. rewrite E in Hrun. unfold run_result in Hrun.
  rewrite Es, Ev in Hrun. unfold new_handler. destruct (stream_of args) as [n|]; cbn in Hdata.
  - rewrite decide_False in Hrun by congruence. done.
  - rewrite decide_False in Hrun by (by intros ->). done.
Qed.

Lemma oversized_request_refused_witness :
  run 4096 zlen (new_handler [APod 1] 3) [] [str "a"; str "bc"] =
    Done [RespondError TWILI_ERR_PROTOCOL_BAD_REQUEST].
Proof.
  apply (oversized_request_refused 4096 zlen [APod 1] [Pod (str "a")] [str "a"; str "bc"] (str "bc")).
  - lia.
  - intros b. pose proof (zlen_nonneg b). lia.
  - repeat constructor.
  - reflexivity.
  - reflexivity.
  - discriminate.
Defined.

(** a request that is too short is never answered.  If the payload ends inside
    the encoding of the arguments, the handler does nothing at all, also when the
    command is finalized: no invocation and no error response, so the client waits
    for a response that does not come. *)
Theorem short_request_unanswered heap receive types args pieces k :
  heap < 2 ^ 63 → (∀ b, 0 ≤ receive b ≤ zlen b) → Forall2 (arg_ok heap) types args →
  concat pieces ++ k = encode_args args → k ≠ [] → zlen (concat pieces) < 2 ^ 64 →
  run heap receive (new_handler types (zlen (concat pieces))) [] pieces = Done [].
Proof.
  intros Hheap Hrec Hok Hcat Hk Hlt.
  destruct (Unpack_prefix heap Hheap types args (concat pieces) k Hok Hcat Hk) as (slots & r & E).
  pose proof (run_spec heap receive Hrec pieces (map new_slot types) 0 (zlen (concat pieces)) []
    ltac:(lia) eq_refl Hlt) as Hrun.
  cbn [app] in Hrun. by rewrite E in Hrun.
Qed.

Lemma short_request_unanswered_witness :
  run 4096 zlen (new_handler [APod 8] 4) [] [str "ab"; str "cd"] = Done [].
Proof.
  apply (short_request_unanswered 4096 zlen [APod 8] [Pod (str "abcdefgh")] [str "ab"; str "cd"]
    (str "efgh")).
  - lia.
  - intros b. pose proof (zlen_nonneg b). lia.
  - repeat constructor.
  - reflexivity.
  - discriminate.
  - reflexivity.
Defined.

End Request.
