(* ===== verification/TcpBridge.v ===== *)
(** * twili/bridge/tcp/Connection.cpp: one TCP client of the bridge

    [Process] cuts the received bytes into requests and hands them to the request
    handlers of the connection's objects.  The handover to the main thread
    ([Synchronize]) blocks until the main thread has done the task, so a task is one
    step here.  A header and a payload size that have not been written yet are
    [None]: reading them is undefined.  What the handlers do is the [log], each event
    with the tag of its request.

    A handler lives in the dispatcher of its object, and the connection points to it.  A
    connection's own objects are used by one request at a time; object zero is shared with
    the other connections, so whose handler is there ([dispatcher]) is an argument and a
    result, and following a pointer to one that was destroyed is undefined ([follow]). *)
From S2P Require Import Prelude Err Protocol Request.
Import Protocol.

Module TcpBridge.
Import Err.

Record connection : Type := mk {
  self : Z;
  in_buffer : bytes;
  has_current_mh : bool;
  has_current_payload : bool;
  current_mh : option MessageHeader;
  payload_received : option Z;
  payload_buffer : bytes;
  current_object : option Z;
  current_handler : Request.request_handler;
  objects : omap (list Request.command);
  deletion_flag : bool;
  log : list (Z * Request.event) }.

Definition Connection_new (self : Z) (object_zero : list Request.command) : connection :=
  mk self [] false false None None [] None Request.Discarding [(0, object_zero)] false [].

Definition set_in (c : connection) (l : bytes) : connection :=
  mk (self c) l (has_current_mh c) (has_current_payload c) (current_mh c) (payload_received c)
    (payload_buffer c) (current_object c) (current_handler c) (objects c) (deletion_flag c) (log c).
Definition set_mh (c : connection) (h : MessageHeader) : connection :=
  mk (self c) (in_buffer c) true false (Some h) (Some 0) [] (current_object c) (current_handler c)
    (objects c) (deletion_flag c) (log c).
Definition set_payload (c : connection) (n : Z) (l : bytes) : connection :=
  mk (self c) (in_buffer c) (has_current_mh c) (has_current_payload c) (current_mh c) (Some n) l
    (current_object c) (current_handler c) (objects c) (deletion_flag c) (log c).
Definition set_handler (c : connection) (o : option Z) (h : Request.request_handler) : connection :=
  mk (self c) (in_buffer c) (has_current_mh c) (has_current_payload c) (current_mh c) (payload_received c)
    (payload_buffer c) o h (objects c) (deletion_flag c) (log c).
Definition set_buffer (c : connection) (l : bytes) : connection :=
  mk (self c) (in_buffer c) (has_current_mh c) (has_current_payload c) (current_mh c) (payload_received c)
    l (current_object c) (current_handler c) (objects c) (deletion_flag c) (log c).
Definition end_message (c : connection) : connection :=
  mk (self c) (in_buffer c) false false (current_mh c) (payload_received c) (payload_buffer c)
    (current_object c) (current_handler c) (objects c) (deletion_flag c) (log c).
Definition set_objects (c : connection) (m : omap (list Request.command)) : connection :=
  mk (self c) (in_buffer c) (has_current_mh c) (has_current_payload c) (current_mh c) (payload_received c)
    (payload_buffer c) (current_object c) (current_handler c) m (deletion_flag c) (log c).
Definition add_log (c : connection) (t : Z) (e : Request.event) : connection :=
  mk (self c) (in_buffer c) (has_current_mh c) (has_current_payload c) (current_mh c) (payload_received c)
    (payload_buffer c) (current_object c) (current_handler c) (objects c) (deletion_flag c)
    (log c ++ [(t, e)]).
Definition Panic (c : connection) : connection :=
  mk (self c) (in_buffer c) (has_current_mh c) (has_current_payload c) (current_mh c) (payload_received c)
    (payload_buffer c) (current_object c) (current_handler c) (objects c) true (log c).

(** Object zero is one object for all connections ([bridge.object_zero]), and its dispatcher has
    room for one handler, which the connections point to ([current_handler]): whose handler it
    holds.  Another request opened there destroys it, and so does the end of any. *)
Definition dispatcher : Type := option Z.

Section connection.
Context (heap : Z) (receive : bytes → Z).
(** What invoking a command does to the connection's objects; whether what is sent when the last
    event of the log happens cannot be sent. *)
Context (func : Z → Z → list Request.arg → omap (list Request.command) →
                omap (list Request.command)).
Context (fails : list (Z * Request.event) → bool).

(** [PumpInput]: [None] for an error or the end of the connection. *)
Definition PumpInput (c : connection) (io : option bytes) : connection :=
  match io with
  | None | Some [] => Panic c
  | Some io => set_in c (in_buffer c ++ io)
  end.

(** The effects of a handler's events. *)
Definition happen1 (h : MessageHeader) (c : connection) (e : Request.event) : connection :=
  let c := add_log c (tag h) e in
  let c := match e with
           | Request.Invoke args => set_objects c (func (object_id h) (command_id h) args (objects c))
           | _ => c
           end in
  if fails (log c) then Panic c else c.
Definition happen (h : MessageHeader) (c : connection) (l : list Request.event) : connection :=
  foldl (happen1 h) c l.

(** [emplace] in object zero's dispatcher; a command that is not found leaves it as it is. *)
Definition emplace (c : connection) (h : MessageHeader) (handler : Request.request_handler)
    (z : dispatcher) : dispatcher :=
  match handler with
  | Request.Smart _ _ => if object_id h =? 0 then Some (self c) else z
  | Request.Discarding => z
  end.

Definition BeginProcessingCommandImpl (z : dispatcher) (c : connection) (h : MessageHeader) :
    dispatcher * connection :=
  match om_find (object_id h) (objects c) with
  | None => (z, happen h c [Request.RespondError TWILI_ERR_PROTOCOL_UNRECOGNIZED_OBJECT])
  | Some commands =>
      if command_id h =? CLOSE_OBJECT then
        let c := if object_id h =? 0 then c
                 else set_objects c (om_erase (object_id h) (objects c)) in
        (z, happen h c [Request.RespondError 0])
      else
        let '(handler, e) := Request.OpenRequest commands (command_id h) (payload_size h) in
        (emplace c h handler z, happen h (set_handler c (Some (object_id h)) handler) e)
  end.

Definition ResetHandler (c : connection) : connection :=
  set_handler c (current_object c) Request.Discarding.

(** Following [current_handler]. *)
Definition on_zero (c : connection) : bool :=
  match current_handler c, current_object c with
  | Request.Smart _ _, Some id => id =? 0
  | _, _ => false
  end.
Definition follow (z : dispatcher) (c : connection) : outcome Request.request_handler :=
  if on_zero c && negb (bool_decide (z = Some (self c))) then Undefined else Done (current_handler c).

(** [current_object->FinalizeCommand()] *)
Definition Object_FinalizeCommand (z : dispatcher) (c : connection) : dispatcher :=
  match current_object c with
  | Some id => if id =? 0 then None else z
  | None => z
  end.

Inductive Task : Type := BeginProcessingCommand | FlushReceiveBuffer | FinalizeCommand.

Definition Synchronized (task : Task) (z : dispatcher) (c : connection) (h : MessageHeader) :
    outcome (dispatcher * connection) :=
  match task with
  | BeginProcessingCommand => Done (BeginProcessingCommandImpl z c h)
  | FlushReceiveBuffer =>
      handler ← follow z c;
      '(handler, l, e) ← Request.handler_flush heap receive handler (payload_buffer c);
      Done (z, happen h (set_handler (set_buffer c l) (current_object c) handler) e)
  | FinalizeCommand =>
      handler ← follow z c;
      '(handler, l, e) ← Request.handler_finalize heap receive handler (payload_buffer c);
      let c := happen h (set_handler (set_buffer c l) (current_object c) handler) e in
      Done (Object_FinalizeCommand z c, ResetHandler (set_handler c None (current_handler c)))
  end.

(** [current_mh] and [payload_size] where they are read. *)
Definition read_mh (c : connection) : outcome MessageHeader :=
  match current_mh c with Some h => Done h | None => Undefined end.
Definition read_payload_size (c : connection) : outcome Z :=
  match payload_received c with Some n => Done n | None => Undefined end.

(** The first half of the loop's body: there is no [return] when the header is not
    complete. *)
Definition Process_header (z : dispatcher) (c : connection) : outcome (dispatcher * connection) :=
  if has_current_mh c then Done (z, c)
  else if zlen (in_buffer c) <? 32 then Done (z, c)
  else
    let h := decode_header (ztake 32 (in_buffer c)) in
    Synchronized BeginProcessingCommand z (set_mh (set_in c (zdrop 32 (in_buffer c))) h) h.

(** The second half; the boolean is whether to go on. *)
Definition Process_payload (z : dispatcher) (c : connection) : outcome (dispatcher * connection * bool) :=
  if has_current_payload c then Done (z, c, true)
  else
    h ← read_mh c;
    got ← read_payload_size c;
    let missing := u64 (payload_size h - got) in
    let payload_avail := Z.min (zlen (in_buffer c)) missing in
    let c := set_payload (set_in c (zdrop payload_avail (in_buffer c)))
               (u64 (got + payload_avail))
               (payload_buffer c ++ ztake payload_avail (in_buffer c)) in
    '(z, c) ← Synchronized FlushReceiveBuffer z c h;
    got ← read_payload_size c;
    if got =? payload_size h then
      '(z, c) ← Synchronized FinalizeCommand z c h;
      Done (z, end_message c, true)
    else Done (z, c, false).

Fixpoint Process (fuel : nat) (z : dispatcher) (c : connection) : outcome (dispatcher * connection) :=
  match fuel with
  | O => OutOfFuel
  | S fuel =>
      if deletion_flag c || (zlen (in_buffer c) =? 0) then Done (z, c)
      else
        '(z, c) ← Process_header z c;
        '(z, c, continue) ← Process_payload z c;
        if continue : bool then Process fuel z c else Done (z, c)
  end.

(** What the socket thread does with each packet of data. *)
Fixpoint serve (fuel : nat) (z : dispatcher) (c : connection) (packets : list bytes) :
    outcome (dispatcher * connection) :=
  match packets with
  | [] => Done (z, c)
  | io :: packets => '(z, c) ← Process fuel z (PumpInput c (Some io)); serve fuel z c packets
  end.

(** ** Specification *)

(** Between two requests. *)
Record idle (c : connection) : Prop := mk_idle {
  idle_in : in_buffer c = [];
  idle_mh : has_current_mh c = false;
  idle_payload : has_current_payload c = false;
  idle_object : current_object c = None;
  idle_handler : current_handler c = Request.Discarding;
  idle_alive : deletion_flag c = false }.

(** [idle], and a request has been processed before. *)
Definition settled (c : connection) : Prop :=
  idle c ∧ ∃ h, current_mh c = Some h ∧ payload_received c = Some (payload_size h) ∧
    0 ≤ payload_size h < 2 ^ 64.

(** [settled], with bytes waiting that are not a whole header. *)
Definition stuck (l : bytes) (c : connection) : Prop :=
  settled (set_in c []) ∧ in_buffer c = l.

(** A request's handler and what opening the request answers. *)
Definition opened (m : omap (list Request.command)) (h : MessageHeader) :
    Request.request_handler * list Request.event :=
  match om_find (object_id h) m with
  | None => (Request.Discarding,
             [Request.RespondError TWILI_ERR_PROTOCOL_UNRECOGNIZED_OBJECT])
  | Some commands =>
      if command_id h =? CLOSE_OBJECT then (Request.Discarding, [Request.RespondError 0])
      else Request.OpenRequest commands (command_id h) (payload_size h)
  end.
(** The handler over the pieces of the payload, with [b] still unread. *)
Definition handle (h : Request.request_handler) (b : bytes) (pieces : list bytes) :
    outcome (list Request.event) :=
  match h with
  | Request.Discarding => Done []
  | Request.Smart _ h => Request.run heap receive h b pieces
  end.

(** In the middle of the payload of [h], [got] bytes of which have been handed over. *)
Record mid (c : connection) (h : MessageHeader) (got : Z) (rh : Request.request_handler)
    (b : bytes) : Prop := mk_mid {
  mid_mh : has_current_mh c = true;
  mid_payload : has_current_payload c = false;
  mid_header : current_mh c = Some h;
  mid_got : payload_received c = Some got;
  mid_buffer : payload_buffer c = b;
  mid_handler : current_handler c = rh;
  mid_alive : deletion_flag c = false }.

Definition tagged (h : MessageHeader) (l : list Request.event) : list (Z * Request.event) :=
  map (fun e => (tag h, e)) l.

(** What a connection points to in object zero's dispatcher is still there. *)
Definition owns (z : dispatcher) (c : connection) : Prop := on_zero c = true → z = Some (self c).

(** ** Lemmas *)

Context (Hfails : ∀ l, fails l = false).

Lemma happen_spec h c l :
  in_buffer (happen h c l) = in_buffer c ∧ has_current_mh (happen h c l) = has_current_mh c ∧
  has_current_payload (happen h c l) = has_current_payload c ∧
  current_mh (happen h c l) = current_mh c ∧
  payload_received (happen h c l) = payload_received c ∧
  payload_buffer (happen h c l) = payload_buffer c ∧
  current_object (happen h c l) = current_object c ∧
  current_handler (happen h c l) = current_handler c ∧
  deletion_flag (happen h c l) = deletion_flag c ∧
  log (happen h c l) = log c ++ tagged h l ∧ self (happen h c l) = self c.
Proof.
  revert c. induction l as [|e l IH]; intros c; [by rewrite app_nil_r|].
  unfold happen in *. cbn [foldl].
  destruct (IH (happen1 h c e)) as (-> & -> & -> & -> & -> & -> & -> & -> & -> & -> & ->).
  unfold happen1. rewrite Hfails. destruct e; cbn; by rewrite <- app_assoc.
Qed.

Lemma flush_handle rh b p ps evs :
  handle rh b (p :: ps) = Done evs →
  ∃ rh1 b1 e e', Request.handler_flush heap receive rh (b ++ p) = Done (rh1, b1, e) ∧
    handle rh1 b1 ps = Done e' ∧ evs = e ++ e'.
Proof.
  destruct rh as [|n h]; cbn [handle Request.handler_flush].
  - intros [= <-]. by exists Request.Discarding, [], [], [].
  - cbn [Request.run]. destruct (Request.FlushReceiveBuffer heap receive h (b ++ p))
      as [[[h1 b1] e]| | | |]; cbn; try done.
    destruct (Request.run heap receive h1 b1 ps) as [e'| | | |] eqn:E; cbn; try done.
    intros [= <-]. by exists (Request.Smart n h1), b1, e, e'.
Qed.

Lemma finalize_handle rh b evs :
  handle rh b [] = Done evs →
  ∃ rh1 b1, Request.handler_finalize heap receive rh b = Done (rh1, b1, evs).
Proof.
  destruct rh as [|n h]; cbn [handle Request.handler_finalize].
  - intros [= <-]. by exists Request.Discarding, [].
  - cbn [Request.run]. destruct (Request.Finalize heap receive h b)
      as [[[h1 b1] e]| | | |]; cbn; try done.
    intros [= <-]. by exists (Request.Smart n h1), b1.
Qed.

Lemma mid_happen c h got rh b l :
  mid c h got rh b →
  mid (happen h c l) h got rh b ∧ in_buffer (happen h c l) = in_buffer c ∧
  log (happen h c l) = log c ++ tagged h l ∧
  current_object (happen h c l) = current_object c ∧ self (happen h c l) = self c.
Proof.
  intros []. destruct (happen_spec h c l) as (E1 & E2 & E3 & E4 & E5 & E6 & E7 & E8 & E9 & E10 & E11).
  split_and!; [split; congruence|done..].
Qed.

(** A connection whose handler is in object zero's dispatcher has not lost it. *)
Lemma owns_idle z c : current_handler c = Request.Discarding → owns z c.
Proof. intros H. unfold owns, on_zero. by rewrite H. Qed.
Lemma owns_elsewhere z c : current_object c ≠ Some 0 → owns z c.
Proof.
  intros H. unfold owns, on_zero. destruct (current_handler c); [done|]. destruct (current_object c) as [id|]; [|done].
  intros ->%Z.eqb_eq. done.
Qed.
Lemma owns_follow z c : owns z c → follow z c = Done (current_handler c).
Proof.
  intros H. unfold follow. destruct (on_zero c) eqn:E; [|done]. by rewrite bool_decide_eq_true_2 by by apply H.
Qed.
Lemma owns_same z c c' rh rh' b b' e :
  owns z c → current_handler c = rh → Request.handler_flush heap receive rh b = Done (rh', b', e) →
  current_handler c' = rh' → current_object c' = current_object c → self c' = self c → owns z c'.
Proof.
  unfold owns, on_zero. intros H Eh Ef Eh' Eo Es. rewrite Eh', Eo, Es. rewrite Eh in H.
  destruct rh as [|n hd]; cbn [Request.handler_flush] in Ef; [by injection Ef as <- _ _|].
  apply bind_Done_inv in Ef as ([[hd' b1] e1] & _ & [= <- _ _]). exact H.
Qed.

Lemma header_step z c h r rh es :
  idle (set_in c []) → in_buffer c = encode_header h ++ r → header_ok h →
  opened (objects c) h = (rh, es) →
  ∃ z' c', Process_header z c = Done (z', c') ∧ mid c' h 0 rh [] ∧ in_buffer c' = r ∧
    log c' = log c ++ tagged h es ∧ self c' = self c ∧ owns z' c' ∧
    (object_id h ≠ 0 → z' = z ∧ current_object c' ≠ Some 0).
Proof.
  intros [_ H2 H3 H4 H5 H6] Hin Hh Hop. cbn in *. unfold Process_header. rewrite H2, Hin.
  rewrite zlen_app, zlen_encode_header. pose proof (zlen_nonneg r).
  rewrite (proj2 (Z.ltb_ge _ _)) by lia.
  rewrite ztake_app, zdrop_app by (by rewrite zlen_encode_header).
  rewrite decode_encode_header by done. cbn [Synchronized].
  set (c1 := set_mh (set_in c r) h). unfold BeginProcessingCommandImpl.
  change (objects c1) with (objects c). unfold opened in Hop.
  assert (∀ z' c2 o, mid c2 h 0 rh [] → in_buffer c2 = r → log c2 = log c → self c2 = self c → current_object c2 = o →
    (o ≠ Some 0 ∨ rh = Request.Discarding ∨ z' = Some (self c)) → (object_id h ≠ 0 → z' = z ∧ o ≠ Some 0) →
    ∃ z'' c', Done (z', happen h c2 es) = Done (z'', c') ∧ mid c' h 0 rh [] ∧ in_buffer c' = r ∧
      log c' = log c ++ tagged h es ∧ self c' = self c ∧ owns z'' c' ∧
      (object_id h ≠ 0 → z'' = z ∧ current_object c' ≠ Some 0)) as Hgo.
  { intros z' c2 o Hm Hin2 Hlog Hs Ho Hown Hz. destruct (mid_happen c2 h 0 rh [] es Hm) as (Hm' & E2 & E3 & E4 & E5).
    eexists _, _. split; [done|]. rewrite E2, E3, E4, E5, Hlog, Hs, Ho, Hin2. split_and!; try done.
    destruct Hown as [Ho'|[->| ->]].
    - apply owns_elsewhere. by rewrite E4, Ho.
    - by apply owns_idle, (mid_handler _ _ _ _ _ Hm').
    - intros _. by rewrite E5, Hs. }
  destruct (om_find (object_id h) (objects c)) as [cmds|].
  2: { injection Hop as <- <-. by apply (Hgo z c1 None); [split|..|left|]. }
  destruct (command_id h =? CLOSE_OBJECT).
  - injection Hop as <- <-. destruct (object_id h =? 0).
    + by apply (Hgo z c1 None); [split|..|left|].
    + by apply (Hgo z (set_objects c1 _) None); [split|..|left|].
  - rewrite Hop. apply (Hgo _ (set_handler c1 (Some (object_id h)) rh) (Some (object_id h))); [by split|done..| |].
    + unfold emplace. destruct rh; [by right; left|]. destruct (Z.eqb_spec (object_id h) 0) as [->|]; [by right; right|].
      left. congruence.
    + intros Hne. unfold emplace. rewrite (proj2 (Z.eqb_neq _ _) Hne). split; [by destruct rh|congruence].
Qed.

Lemma payload_step z c h got rh b p rest evs ps :
  mid c h got rh b → owns z c → in_buffer c = p ++ rest → 0 ≤ got → payload_size h < 2 ^ 64 →
  got + zlen p ≤ payload_size h → (got + zlen p < payload_size h → rest = []) →
  handle rh b (p :: ps) = Done evs →
  ∃ c1 rh1 b1 e e', mid c1 h (got + zlen p) rh1 b1 ∧ in_buffer c1 = rest ∧
    log c1 = log c ++ tagged h e ∧ handle rh1 b1 ps = Done e' ∧ evs = e ++ e' ∧
    owns z c1 ∧ current_object c1 = current_object c ∧ self c1 = self c ∧
    Process_payload z c =
      if got + zlen p =? payload_size h then
        '(z, c) ← Synchronized FinalizeCommand z c1 h; Done (z, end_message c, true)
      else Done (z, c1, false).
Proof.
  intros [H1 H2 H3 H4 H5 H6 H7] Hown Hin Hg Hlt Hle Hrest Hh.
  destruct (flush_handle _ _ _ _ _ Hh) as (rh1 & b1 & e & e' & Ef & Eh & ->).
  unfold Process_payload, read_mh, read_payload_size. rewrite H2, H3, H4.
  cbn [mbind outcome_bind]. rewrite Hin. pose proof (zlen_nonneg p) as Hp.
  rewrite (u64_small (payload_size h - got)) by lia.
  assert (Z.min (zlen (p ++ rest)) (payload_size h - got) = zlen p) as ->.
  { rewrite zlen_app. pose proof (zlen_nonneg rest).
    destruct (Z.eq_dec (got + zlen p) (payload_size h)); [lia|].
    rewrite Hrest by lia. change (zlen []) with 0. lia. }
  rewrite zdrop_app, ztake_app by done. rewrite u64_small, H5 by lia.
  set (c0 := set_payload (set_in c rest) (got + zlen p) (b ++ p)).
  cbn [Synchronized]. rewrite (owns_follow z c0) by exact Hown. cbn [mbind outcome_bind].
  change (current_handler c0) with (current_handler c).
  change (payload_buffer c0) with (b ++ p). rewrite H6, Ef. cbn [mbind outcome_bind].
  set (c1 := happen h _ e).
  destruct (happen_spec h (set_handler (set_buffer c0 b1) (current_object c0) rh1) e)
    as (E1 & E2 & E3 & E4 & E5 & E6 & E7 & E8 & E9 & E10 & E11).
  fold c1 in E1, E2, E3, E4, E5, E6, E7, E8, E9, E10, E11. subst c0.
  cbn in E1, E2, E3, E4, E5, E6, E7, E8, E9, E10, E11.
  exists c1, rh1, b1, e, e'. split_and!; [split; congruence|done..| |done|done|].
  - by eapply (owns_same z c c1).
  - by rewrite E5.
Qed.

Lemma finalize_step z c1 h rh1 b1 evs :
  mid c1 h (payload_size h) rh1 b1 → owns z c1 → handle rh1 b1 [] = Done evs → 0 ≤ payload_size h < 2 ^ 64 →
  ∃ z' c', ('(z, c) ← Synchronized FinalizeCommand z c1 h; Done (z, end_message c, true)) = Done (z', c', true) ∧
    idle (set_in c' []) ∧ in_buffer c' = in_buffer c1 ∧ log c' = log c1 ++ tagged h evs ∧
    current_mh c' = Some h ∧ payload_received c' = Some (payload_size h) ∧ self c' = self c1 ∧
    (current_object c1 ≠ Some 0 → z' = z).
Proof.
  intros [H1 H2 H3 H4 H5 H6 H7] Hown Hh Hs. destruct (finalize_handle _ _ _ Hh) as (rh2 & b2 & Ef).
  cbn [Synchronized]. rewrite (owns_follow z c1 Hown). cbn [mbind outcome_bind]. rewrite H5, H6, Ef.
  cbn [mbind outcome_bind].
  destruct (happen_spec h (set_handler (set_buffer c1 b2) (current_object c1) rh2) evs)
    as (E1 & E2 & E3 & E4 & E5 & E6 & E7 & E8 & E9 & E10 & E11).
  eexists _, _. split; [done|]. cbn in *. split_and!; try congruence. { split; cbn; try done; congruence. }
  intros Hne. unfold Object_FinalizeCommand. rewrite E7. destruct (current_object c1) as [id|]; [|done].
  rewrite (proj2 (Z.eqb_neq id 0)); congruence.
Qed.

Lemma Process_eq fuel z c :
  Process (S fuel) z c =
    if deletion_flag c || (zlen (in_buffer c) =? 0) then Done (z, c)
    else
      '(z, c) ← Process_header z c;
      '(z, c, continue) ← Process_payload z c;
      if continue : bool then Process fuel z c else Done (z, c).
Proof. reflexivity. Qed.

(** One packet of a request that is being served: the request goes on, or ends. *)
Lemma serve_packet fuel z c h got rh b p ps evs :
  mid c h got rh b → owns z c → in_buffer c = p → 0 ≤ got → payload_size h < 2 ^ 64 →
  got + zlen (concat (p :: ps)) = payload_size h → Forall (fun l => l ≠ []) ps →
  handle rh b (p :: ps) = Done evs →
  ∃ z' c' e e', ('(z, c, continue) ← Process_payload z c;
      if continue : bool then Process (S fuel) z c else Done (z, c)) = Done (z', c') ∧
    owns z' c' ∧ self c' = self c ∧ (current_object c ≠ Some 0 → z' = z ∧ current_object c' ≠ Some 0) ∧
    log c' = log c ++ tagged h e ∧ evs = e ++ e' ∧
    match ps with
    | [] => settled c' ∧ e' = []
    | _ => in_buffer c' = [] ∧ ∃ rh' b', mid c' h (got + zlen p) rh' b' ∧ handle rh' b' ps = Done e'
    end.
Proof.
  intros Hm Hown Hin Hg Hlt Hsz Hne Hh. cbn [concat] in Hsz. rewrite zlen_app in Hsz. pose proof (zlen_nonneg p).
  pose proof (zlen_nonneg (concat ps)).
  destruct (payload_step z c h got rh b p [] evs ps) as
    (c1 & rh1 & b1 & e & e' & Hm1 & Hin1 & Hlog1 & Hh1 & -> & Hown1 & Ho1 & Hs1 & ->);
    [done|done|by rewrite app_nil_r|done|done|lia|done|done|].
  destruct ps as [|p2 ps].
  - change (zlen (concat [])) with 0 in *. rewrite (proj2 (Z.eqb_eq (got + zlen p) (payload_size h))) by lia.
    replace (got + zlen p) with (payload_size h) in Hm1 by lia.
    destruct (finalize_step z c1 h rh1 b1 e' Hm1 Hown1 Hh1 ltac:(lia)) as
      (z2 & c2 & -> & Hidle & Hin2 & Hlog2 & Hmh & Hgot & Hs2 & Hz2).
    cbn [mbind outcome_bind]. rewrite Process_eq, Hin2, Hin1.
    change (zlen [] =? 0) with true. rewrite orb_true_r.
    exists z2, c2, (e ++ e'), []. split; [done|]. split_and!.
    + apply owns_idle, (idle_handler _ Hidle).
    + congruence.
    + intros Hne0. split; [apply Hz2; congruence|]. intros E. pose proof (idle_object _ Hidle) as E'. cbn in E'. congruence.
    + rewrite Hlog2, Hlog1. unfold tagged. by rewrite map_app, app_assoc.
    + by rewrite app_nil_r.
    + split; [destruct Hidle; split; cbn in *; congruence|]. exists h. split_and!; [done|done|lia..].
    + done.
  - apply Forall_cons in Hne as [Hp2 Hne].
    assert (0 < zlen p2) as Hp2' by (pose proof (zlen_nonneg p2); destruct (Z.eq_dec (zlen p2) 0);
      [destruct Hp2; apply zlen_0_inv; lia|lia]).
    cbn [concat] in Hsz. rewrite zlen_app in Hsz. pose proof (zlen_nonneg (concat ps)).
    rewrite (proj2 (Z.eqb_neq _ _)) by lia. cbn [mbind outcome_bind].
    exists z, c1, e, e'. split_and!; try done; [intros ?; split; [done|congruence]|]. by exists rh1, b1.
Qed.

(** The packets that follow find the request in the middle. *)
Lemma next_packet fuel z c h got rh b p ps evs :
  mid c h got rh b → owns z c → in_buffer c = [] → p ≠ [] → 0 ≤ got → payload_size h < 2 ^ 64 →
  got + zlen (concat (p :: ps)) = payload_size h → Forall (fun l => l ≠ []) ps →
  handle rh b (p :: ps) = Done evs →
  ∃ z' c' e e', Process (S (S fuel)) z (PumpInput c (Some p)) = Done (z', c') ∧
    owns z' c' ∧ self c' = self c ∧ (current_object c ≠ Some 0 → z' = z ∧ current_object c' ≠ Some 0) ∧
    log c' = log c ++ tagged h e ∧ evs = e ++ e' ∧
    match ps with
    | [] => settled c' ∧ e' = []
    | _ => in_buffer c' = [] ∧ ∃ rh' b', mid c' h (got + zlen p) rh' b' ∧ handle rh' b' ps = Done e'
    end.
Proof.
  intros Hm Hown Hin Hp Hg Hlt Hsz Hne Hh.
  assert (PumpInput c (Some p) = set_in c p) as -> by (destruct p; [done|]; cbn; by rewrite Hin).
  set (c2 := set_in c p). assert (mid c2 h got rh b) as Hm2 by (destruct Hm; by split).
  rewrite Process_eq. destruct Hm2 as [Hmh2 _ _ _ _ _ Hal2]. rewrite Hal2. change (in_buffer c2) with p.
  assert (0 < zlen p) by (pose proof (zlen_nonneg p); destruct (Z.eq_dec (zlen p) 0); [destruct Hp; apply zlen_0_inv; lia|lia]).
  rewrite (proj2 (Z.eqb_neq (zlen p) 0)) by lia. cbn [orb].
  unfold Process_header. rewrite Hmh2. cbn [mbind outcome_bind].
  apply (serve_packet fuel z c2 h got rh b p ps evs); try done. destruct Hm; by split.
Qed.

(** The first packet of a request. *)
Lemma first_packet fuel z c h p ps rh es evs :
  idle c → header_ok h → opened (objects c) h = (rh, es) →
  zlen (concat (p :: ps)) = payload_size h → Forall (fun l => l ≠ []) ps →
  handle rh [] (p :: ps) = Done evs →
  ∃ z' c' e e', Process (S (S fuel)) z (PumpInput c (Some (encode_header h ++ p))) = Done (z', c') ∧
    owns z' c' ∧ self c' = self c ∧ (object_id h ≠ 0 → z' = z ∧ current_object c' ≠ Some 0) ∧
    log c' = log c ++ tagged h (es ++ e) ∧ evs = e ++ e' ∧
    match ps with
    | [] => settled c' ∧ e' = []
    | _ => in_buffer c' = [] ∧ ∃ rh' b', mid c' h (zlen p) rh' b' ∧ handle rh' b' ps = Done e'
    end.
Proof.
  intros Hi Hh Hop Hsz Hne Hrun. pose proof (zlen_nonneg p).
  assert (zlen (encode_header h ++ p) ≠ 0) as Hnz by (rewrite zlen_app, zlen_encode_header; lia).
  assert (PumpInput c (Some (encode_header h ++ p)) = set_in c (encode_header h ++ p)) as ->.
  { destruct (encode_header h ++ p) eqn:E; [done|]. cbn. by rewrite (idle_in c Hi). }
  set (c0 := set_in c (encode_header h ++ p)). rewrite Process_eq.
  change (deletion_flag c0) with (deletion_flag c). rewrite (idle_alive c Hi).
  change (in_buffer c0) with (encode_header h ++ p). rewrite (proj2 (Z.eqb_neq _ 0) Hnz). cbn [orb].
  destruct (header_step z c0 h p rh es) as (z1 & c1 & -> & Hm & Hin & Hlog & Hs & Hown & Hz);
    [destruct Hi; by split|done..|]. cbn [mbind outcome_bind].
  destruct (serve_packet fuel z1 c1 h 0 rh [] p ps evs) as
    (z' & c' & e & e' & E & Hown' & Hs' & Hz' & Hlog' & -> & Hrest); try done; [apply Hh|].
  exists z', c', e, e'. split_and!; try done; [by rewrite Hs', Hs| |].
  - intros Hne0. destruct (Hz Hne0) as [-> Ho]. by apply Hz'.
  - rewrite Hlog', Hlog. unfold tagged. by rewrite map_app, <- app_assoc.
Qed.

Lemma serve_rest fuel z c h got rh b ps evs :
  mid c h got rh b → owns z c → in_buffer c = [] → 0 ≤ got → payload_size h < 2 ^ 64 → ps ≠ [] →
  got + zlen (concat ps) = payload_size h → Forall (fun l => l ≠ []) ps → handle rh b ps = Done evs →
  ∃ z' c', serve (S (S fuel)) z c ps = Done (z', c') ∧ settled c' ∧ log c' = log c ++ tagged h evs ∧
    self c' = self c.
Proof.
  revert z c got rh b evs. induction ps as [|p ps IH]; intros z c got rh b evs Hm Hown Hin Hg Hlt Hps Hsz Hne Hh; [done|].
  apply Forall_cons in Hne as [Hp Hne].
  destruct (next_packet fuel z c h got rh b p ps evs) as (z1 & c1 & e & e' & E & Hown1 & Hs1 & _ & Hlog & -> & Hrest); try done.
  cbn [serve]. rewrite E. cbn [mbind outcome_bind]. destruct ps as [|p2 ps].
  - destruct Hrest as [Hset ->]. exists z1, c1. split_and!; [done|done|by rewrite app_nil_r|done].
  - destruct Hrest as [Hin1 (rh' & b' & Hm' & Hh')]. change (concat (p :: p2 :: ps)) with (p ++ concat (p2 :: ps)) in Hsz.
    rewrite zlen_app in Hsz. pose proof (zlen_nonneg p).
    destruct (IH z1 c1 (got + zlen p) rh' b' e') as (z' & c' & E' & Hset & Hlog' & Hs'); try done; [lia|lia|].
    exists z', c'. split_and!; [exact E'|done| |congruence]. rewrite Hlog', Hlog. unfold tagged. by rewrite map_app, app_assoc.
Qed.
End connection.

Section hang.
Context (heap : Z) (receive : bytes → Z).
Context (func : Z → Z → list Request.arg → omap (list Request.command) → omap (list Request.command)).
Context (fails : list (Z * Request.event) → bool).

Lemma stuck_step l z c :
  0 < zlen l < 32 → stuck l c →
  ∃ c', Process_header heap receive func fails z c = Done (z, c) ∧
    Process_payload heap receive func fails z c = Done (z, c', true) ∧ stuck l c'.
Proof.
  intros Hl [[[_ H2 H3 H4 H5 H6] (h & Hmh & Hgot & Hsz)] Hin]. cbn in *.
  unfold Process_header, Process_payload, read_mh, read_payload_size.
  rewrite H2, H3, Hmh, Hgot, Hin, (proj2 (Z.ltb_lt (zlen l) 32)) by lia.
  cbn [mbind outcome_bind]. rewrite Z.sub_diag. change (u64 0) with 0.
  rewrite Z.min_r, (zdrop_0 0 l), (ztake_0 0 l), Z.add_0_r, (u64_small (payload_size h)) by lia.
  cbn [Synchronized]. unfold follow, on_zero. cbn [current_handler set_payload set_in payload_buffer]. rewrite H5.
  cbn [andb mbind outcome_bind Request.handler_flush happen foldl].
  unfold read_payload_size. cbn. rewrite Z.eqb_refl. cbn. rewrite H4.
  eexists. split; [done|]. split; [done|]. split; [|done].
  split; [by split|]. exists h. split_and!; try done; lia.
Qed.
End hang.

(** A request served from its packets. *)
Lemma serve_request heap receive func fails z c h p ps rh es evs :
  (∀ l, fails l = false) →
  idle c → header_ok h → opened (objects c) h = (rh, es) →
  zlen (concat (p :: ps)) = payload_size h → Forall (fun l => l ≠ []) ps →
  handle heap receive rh [] (p :: ps) = Done evs →
  ∃ z' c', serve heap receive func fails 2 z c ((encode_header h ++ p) :: ps) = Done (z', c') ∧
    settled c' ∧ log c' = log c ++ tagged h (es ++ evs).
Proof.
  intros Hf Hi Hh Hop Hsz Hne Hrun. cbn [serve].
  destruct (first_packet heap receive func fails Hf 0 z c h p ps rh es evs) as
    (z1 & c1 & e & e' & E & Hown & Hs & _ & Hlog & -> & Hrest); try done. rewrite E. cbn [mbind outcome_bind].
  destruct ps as [|p2 ps].
  - destruct Hrest as [Hset ->]. exists z1, c1. by rewrite app_nil_r.
  - destruct Hrest as [Hin (rh' & b' & Hm & Hh')]. change (concat (p :: p2 :: ps)) with (p ++ concat (p2 :: ps)) in Hsz.
    rewrite zlen_app in Hsz. pose proof (zlen_nonneg p).
    destruct (serve_rest heap receive func fails Hf 0 z1 c1 h (zlen p) rh' b' (p2 :: ps) e')
      as (z' & c' & E' & Hset & Hlog' & _); try done; [apply Hh|].
    exists z', c'. split_and!; [exact E'|done|]. rewrite Hlog', Hlog. unfold tagged. by rewrite !map_app, !app_assoc.
Qed.

(** ** Theorems *)

(** serving a request.  On a connection between requests, a request whose payload
    arrives in any pieces — the first behind the header — is opened on the object and
    command its header names, its handler gets exactly the payload and is finalized
    once, an unknown object or command and a closed object are answered once, every
    answer carries the request's tag, and the connection ends between requests
    again, all input consumed. *)
Theorem tcp_request_served heap receive func fails z c h p ps rh es evs :
  (∀ l, fails l = false) →
  idle c → header_ok h → opened (objects c) h = (rh, es) →
  zlen (concat (p :: ps)) = payload_size h → Forall (fun l => l ≠ []) ps →
  handle heap receive rh [] (p :: ps) = Done evs →
  ∃ z' c', serve heap receive func fails 2 z c ((encode_header h ++ p) :: ps) = Done (z', c') ∧
    settled c' ∧ log c' = log c ++ tagged h (es ++ evs).
Proof. apply serve_request. Qed.

Lemma tcp_request_served_witness :
  ∃ z' c', serve 4096 zlen (fun _ _ _ m => m) (fun _ => false) 2 None
      (Connection_new 1 [Request.mk_command 7 [Request.APod 4]])
      [encode_header (mkHeader 1 0 7 9 4 0 0) ++ str "ab"; str "cd"] = Done (z', c') ∧
    settled c' ∧ log c' = [] ++ tagged (mkHeader 1 0 7 9 4 0 0)
      ([] ++ [Request.Invoke [Request.Pod (str "abcd")]]).
Proof.
  apply (tcp_request_served 4096 zlen (fun _ _ _ m => m) (fun _ => false) None
    (Connection_new 1 [Request.mk_command 7 [Request.APod 4]]) (mkHeader 1 0 7 9 4 0 0)
    (str "ab") [str "cd"] (Request.Smart 7 (Request.new_handler [Request.APod 4] 4))
    [] [Request.Invoke [Request.Pod (str "abcd")]]).
  - done.
  - by split.
  - split; cbn; lia.
  - reflexivity.
  - reflexivity.
  - repeat constructor; discriminate.
  - reflexivity.
Defined.

(** pipelined requests.  When a whole request is at the front of the received
    bytes and more follows, one turn of the loop serves it and leaves exactly what
    follows, so requests sent back to back are served in order. *)
Theorem tcp_pipelined heap receive func fails fuel z c h p rest rh es evs :
  (∀ l, fails l = false) →
  idle (set_in c []) → in_buffer c = encode_header h ++ p ++ rest → header_ok h →
  opened (objects c) h = (rh, es) → zlen p = payload_size h →
  handle heap receive rh [] [p] = Done evs →
  ∃ z' c', Process heap receive func fails (S fuel) z c = Process heap receive func fails fuel z' c' ∧
    idle (set_in c' []) ∧ in_buffer c' = rest ∧ log c' = log c ++ tagged h (es ++ evs).
Proof.
  intros Hf Hi Hin Hh Hop Hsz Hrun. rewrite Process_eq.
  change (deletion_flag c) with (deletion_flag (set_in c [])). rewrite (idle_alive _ Hi), Hin.
  rewrite (proj2 (Z.eqb_neq (zlen (encode_header h ++ p ++ rest)) 0))
    by (rewrite zlen_app, zlen_encode_header; pose proof (zlen_nonneg (p ++ rest)); lia).
  cbn [orb].
  destruct (header_step heap receive func fails Hf z c h (p ++ rest) rh es)
    as (z1 & c1 & -> & Hm & Hin1 & Hlog1 & _ & Hown & _); [done..|]. cbn [mbind outcome_bind].
  destruct (payload_step heap receive func fails Hf z1 c1 h 0 rh [] p rest evs []) as
    (c2 & rh1 & b1 & e & e' & Hm2 & Hin2 & Hlog2 & Hh2 & -> & Hown2 & _ & _ & ->);
    [done|done|done|lia|apply Hh|lia|lia|done|].
  cbn [Z.add]. rewrite Hsz, Z.eqb_refl. rewrite Z.add_0_l, Hsz in Hm2.
  destruct (finalize_step heap receive func fails Hf z1 c2 h rh1 b1 e' Hm2 Hown2 Hh2) as
    (z3 & c3 & -> & Hidle & Hin3 & Hlog3 & _); [apply Hh|].
  cbn [mbind outcome_bind]. exists z3, c3. split_and!; [done|done|congruence|].
  rewrite Hlog3, Hlog2, Hlog1. unfold tagged. by rewrite !map_app, !app_assoc.
Qed.

Lemma tcp_pipelined_witness :
  ∃ z' c', Process 4096 zlen (fun _ _ _ m => m) (fun _ => false) 3 None
      (set_in (Connection_new 1 []) (encode_header (mkHeader 1 0 7 9 2 0 0) ++ str "ab" ++ str "x")) =
    Process 4096 zlen (fun _ _ _ m => m) (fun _ => false) 2 z' c' ∧
    idle (set_in c' []) ∧ in_buffer c' = str "x" ∧
    log c' = [] ++ tagged (mkHeader 1 0 7 9 2 0 0)
      ([Request.RespondError TWILI_ERR_PROTOCOL_UNRECOGNIZED_FUNCTION] ++ []).
Proof.
  apply (tcp_pipelined 4096 zlen (fun _ _ _ m => m) (fun _ => false) 2 None
    (set_in (Connection_new 1 []) (encode_header (mkHeader 1 0 7 9 2 0 0) ++ str "ab" ++ str "x"))
    (mkHeader 1 0 7 9 2 0 0) (str "ab") (str "x") Request.Discarding
    [Request.RespondError TWILI_ERR_PROTOCOL_UNRECOGNIZED_FUNCTION] []).
  - done.
  - by split.
  - reflexivity.
  - split; cbn; lia.
  - reflexivity.
  - reflexivity.
  - reflexivity.
Defined.

(** a header cut in two hangs the bridge.  If, after a served request, a packet
    brings between 1 and 31 bytes, [Process] never returns: it has no [return] for an
    incomplete header, finalizes the old request again and again and never lets the
    thread receive the rest.  Before the first request the same packet makes it read
    the uninitialised header. *)
Theorem tcp_partial_header_hangs heap receive func fails z c l :
  settled c → 0 < zlen l < 32 →
  (∀ fuel, Process heap receive func fails fuel z (PumpInput c (Some l)) = OutOfFuel) ∧
  (∀ fuel id commands, Process heap receive func fails (S fuel) z
     (PumpInput (Connection_new id commands) (Some l)) = Undefined).
Proof.
  intros Hs Hl.
  assert (∀ c, in_buffer c = [] → PumpInput c (Some l) = set_in c l) as Hpump.
  { intros c0 Hc0. destruct l; [change (zlen []) with 0 in Hl; lia|]. cbn. by rewrite Hc0. }
  split.
  - rewrite Hpump by apply Hs.
    assert (stuck l (set_in c l)) as Hst by (split; [destruct Hs as [[] ?]; by split|done]).
    revert Hst. generalize (set_in c l) as c0. clear Hs Hpump c. intros c Hst fuel.
    revert c Hst. induction fuel as [|fuel IH]; intros c Hst; [done|]. rewrite Process_eq.
    destruct (stuck_step heap receive func fails l z c Hl Hst) as (c' & E1 & E2 & Hst').
    destruct Hst as [[[_ _ _ _ _ Hal] _] Hin]. cbn in Hal. rewrite Hal, Hin.
    rewrite (proj2 (Z.eqb_neq (zlen l) 0)) by lia. cbn [orb].
    rewrite E1. cbn [mbind outcome_bind]. rewrite E2. cbn [mbind outcome_bind]. by apply IH.
  - intros fuel id commands. rewrite Hpump by done. rewrite Process_eq. cbn [deletion_flag in_buffer
      set_in Connection_new]. rewrite (proj2 (Z.eqb_neq (zlen l) 0)) by lia. cbn [orb].
    unfold Process_header. cbn [has_current_mh in_buffer set_in Connection_new].
    by rewrite (proj2 (Z.ltb_lt (zlen l) 32)) by lia.
Qed.

Lemma tcp_partial_header_hangs_witness :
  (∀ fuel, Process 4096 zlen (fun _ _ _ m => m) (fun _ => false) fuel None (PumpInput
     (mk 1 [] false false (Some (mkHeader 1 0 7 9 2 0 0)) (Some 2) [] None Request.Discarding []
        false []) (Some (str "abc"))) = OutOfFuel) ∧
  (∀ fuel id commands, Process 4096 zlen (fun _ _ _ m => m) (fun _ => false) (S fuel) None
     (PumpInput (Connection_new id commands) (Some (str "abc"))) = Undefined).
Proof.
  apply tcp_partial_header_hangs.
  - split; [by split|]. exists (mkHeader 1 0 7 9 2 0 0). repeat split; cbn; lia.
  - split; reflexivity.
Defined.

(** a handler that is lost is still followed.  When a request on object zero is being received and
    another connection has opened a request there, or ended one, the next bytes of the first are
    handed to the handler that was destroyed. *)
Theorem tcp_lost_handler_followed heap receive func fails fuel z c h got cmd hd b p :
  mid c h got (Request.Smart cmd hd) b → current_object c = Some 0 → z ≠ Some (self c) →
  in_buffer c = [] → p ≠ [] → Process heap receive func fails (S fuel) z (PumpInput c (Some p)) = Undefined.
Proof.
  intros [H1 H2 H3 H4 H5 H6 H7] Ho Hz Hin Hp.
  assert (PumpInput c (Some p) = set_in c p) as -> by (destruct p; [done|]; cbn; by rewrite Hin).
  rewrite Process_eq. cbn [deletion_flag in_buffer set_in]. rewrite H7.
  assert (zlen p ≠ 0) as Hnz by (intros E; apply Hp; apply zlen_0_inv; lia).
  rewrite (proj2 (Z.eqb_neq _ _) Hnz). cbn [orb]. unfold Process_header. cbn [has_current_mh set_in]. rewrite H1.
  cbn [mbind outcome_bind]. unfold Process_payload, read_mh, read_payload_size.
  cbn [has_current_payload set_in current_mh payload_received]. rewrite H2, H3, H4. cbn [mbind outcome_bind Synchronized].
  unfold follow, on_zero. cbn [current_handler current_object self set_payload set_in]. rewrite H6, Ho. cbn [Z.eqb andb].
  by rewrite bool_decide_eq_false_2.
Qed.

End TcpBridge.
