(* ===== verification/TcpServer.v ===== *)
(** * twili/bridge/tcp/TCPBridge.cpp: the thread that serves the TCP clients

    [SocketThread] waits for the network, makes the sockets, and then in each turn of its loop
    waits for them with [bsd_poll], takes a new client, reads what the clients have sent and lets
    their connections ([TcpBridge]) process it.  The main thread changes the state of the network
    and closes the sockets meanwhile, so the loop is cut where it can be interrupted: a [place] is
    where the thread stands, and a [step] is what one of the two threads does next.  What the
    socket library returns is an argument of the steps.  A file descriptor of -1 is a closed
    socket.  Object zero, and the handler in its dispatcher, is shared by all connections, which
    the model tells apart by the descriptors they were made with.  [past_end] is what reading the
    entry behind the last one of the polled array finds: [None] is what the language says
    (undefined), [Some] the content of the memory there. *)
From S2P Require Import Prelude Err Protocol Request TcpBridge.
Import Protocol.

Module TcpServer.

(** ** State *)

(** [nifm::IRequest::State] *)
Inductive State : Type := Error | Pending | Connected.
#[export] Instance State_eq_dec : EqDecision State.
Proof. solve_decision. Defined.

Record client : Type := mk_client { fd : Z; conn : TcpBridge.connection }.

Record bridge : Type := mk {
  network_state : State;
  thread_destroy : bool;
  server_socket : Z;
  announce_socket : Z;
  connections : list client;
  zero : TcpBridge.dispatcher }.     (* of [object_zero] *)

Definition set_network (st : State) (b : bridge) : bridge :=
  mk st (thread_destroy b) (server_socket b) (announce_socket b) (connections b) (zero b).
Definition set_destroy (b : bridge) : bridge :=
  mk (network_state b) true (server_socket b) (announce_socket b) (connections b) (zero b).
Definition set_sockets (server announce : Z) (b : bridge) : bridge :=
  mk (network_state b) (thread_destroy b) server announce (connections b) (zero b).
Definition set_connections (b : bridge) (cs : list client) : bridge :=
  mk (network_state b) (thread_destroy b) (server_socket b) (announce_socket b) cs (zero b).
Definition set_served (b : bridge) (z : TcpBridge.dispatcher) (cs : list client) : bridge :=
  mk (network_state b) (thread_destroy b) (server_socket b) (announce_socket b) cs z.

(** Where the thread stands: at the top of the loop; waiting for the network; behind the scope of
    the lock; in [bsd_poll] with the descriptors given to it; ended. *)
Inductive place : Type := Top | Waiting | Ready | InPoll (fds : list Z) | Exited.

(** What [revents] of one entry says: [POLLERR], [POLLHUP] or [POLLNVAL]; [POLLIN]. *)
Record revent : Type := mk_revent { failed : bool; pollin : bool }.

(** What making the sockets returns. *)
Record made_sockets : Type := mk_made {
  stream_fd : Z; stream_bound : bool; stream_listens : bool; dgram_fd : Z }.

(** What one turn finds: the entries, what [bsd_accept] returns and whether there is memory for
    the connection, and what [bsd_recv] gives for a descriptor ([None] for an error). *)
Record turn : Type := mk_turn {
  revents : list revent; accepted : Z; memory : bool; received : Z → option bytes }.

Section server.
Context (heap : Z) (receive : bytes → Z).
Context (func : Z → Z → list Request.arg → omap (list Request.command) →
                omap (list Request.command)).
Context (fails : list (Z * Request.event) → bool).
Context (object_zero : list Request.command) (past_end : option revent) (fuel : nat).

(** ** The main thread *)

Definition network_event (st : State) (b : bridge) : bridge :=
  let b := set_network st b in
  if decide (st = Connected) then b else set_sockets (-1) (-1) b.

Definition destroy (b : bridge) : bridge :=
  let b := set_destroy b in set_sockets (-1) (announce_socket b) b.

(** A response that is sent later and fails panics its connection. *)
Definition lost (k : nat) (b : bridge) : bridge :=
  set_connections b (alter (fun c => mk_client (-1) (TcpBridge.Panic (conn c))) k (connections b)).

(** ** The socket thread *)

(** The boolean is whether the caller's lock still holds the mutex. *)
Definition ResetSockets (m : made_sockets) (b : bridge) : bool * bridge :=
  let b := set_sockets (stream_fd m) (announce_socket b) b in
  if stream_fd m =? -1 then (false, b)
  else if negb (stream_bound m) then (true, b)
  else if negb (stream_listens m) then (true, b)
  else (true, set_sockets (server_socket b) (dgram_fd m) b).

Definition loop_top (b : bridge) : place * bridge :=
  if thread_destroy b then (Exited, b)
  else if decide (network_state b = Connected) then (Ready, b)
  else (Waiting, set_connections b []).

(** The loop around the condition variable, and what follows it.  The lock's destructor unlocks a
    mutex that must be held. *)
Definition wake (m : made_sockets) (b : bridge) : outcome (place * bridge) :=
  if negb (bool_decide (network_state b = Connected)) && negb (thread_destroy b) then Done (Waiting, b)
  else if thread_destroy b then Done (Exited, b)
  else
    let '(held, b) := ResetSockets m b in
    if held : bool then Done (Ready, b) else Undefined.

Definition poll (b : bridge) : place * bridge :=
  (InPoll (server_socket b :: map fd (connections b)), b).

Definition revent_at (l : list revent) (fdi : nat) : outcome revent :=
  match l !! fdi with
  | Some e => Done e
  | None => match past_end with Some e => Done e | None => Undefined end
  end.

Definition accept_client (t : turn) (b : bridge) : bridge :=
  if accepted t <? 0 then b
  else if memory t
  then set_connections b
         (connections b ++ [mk_client (accepted t) (TcpBridge.Connection_new (accepted t) object_zero)])
  else b.

(** The loop that reads from the clients. *)
Fixpoint pump (t : turn) (fdi : nat) (cs : list client) : outcome (list client) :=
  match cs with
  | [] => Done []
  | c :: cs =>
      e ← revent_at (revents t) fdi;
      if failed e then pump t (S fdi) cs
      else
        let c := if pollin e then mk_client (fd c) (TcpBridge.PumpInput (conn c) (received t (fd c))) else c in
        cs ← pump t (S fdi) cs; Done (c :: cs)
  end.

(** The loop that lets the connections process what they have. *)
Fixpoint process_all (z : TcpBridge.dispatcher) (cs : list client) :
    outcome (TcpBridge.dispatcher * list client) :=
  match cs with
  | [] => Done (z, [])
  | c :: cs =>
      '(z, c) ← match TcpBridge.Process heap receive func fails fuel z (conn c) with
                | Throws (ResultError _) => Done (z, mk_client (fd c) (TcpBridge.Panic (conn c)))
                | r => '(z, r) ← r; Done (z, mk_client (fd c) r)
                end;
      '(z, cs) ← process_all z cs;
      Done (z, if TcpBridge.deletion_flag (conn c) then cs else c :: cs)
  end.

(** From the return of [bsd_poll] ([None] for a failure) to the end of the loop's body. *)
Definition polled (t : option turn) (b : bridge) : outcome (place * bridge) :=
  match t with
  | None => Done (Exited, set_destroy b)
  | Some t =>
      e ← revent_at (revents t) 0;
      if failed e then
        if decide (network_state b = Connected) then Done (Exited, set_destroy b) else Done (Top, b)
      else
        let b := if pollin e then accept_client t b else b in
        cs ← pump t 1 (connections b);
        '(z, cs) ← process_all (zero b) cs;
        Done (Top, set_served b z cs)
  end.

(** ** Steps *)

Inductive op : Type :=
| OpTop | OpWake (m : made_sockets) | OpPoll | OpPolled (t : option turn)
| OpNetwork (st : State) | OpDestroy | OpLost (k : nat).

(** A step of the thread happens where the thread stands. *)
Definition step (o : op) (s : place * bridge) : outcome (place * bridge) :=
  let '(p, b) := s in
  match o, p with
  | OpNetwork st, _ => Done (p, network_event st b)
  | OpDestroy, _ => Done (p, destroy b)
  | OpLost k, _ => Done (p, lost k b)
  | OpTop, Top => Done (loop_top b)
  | OpWake m, Waiting => wake m b
  | OpPoll, Ready => Done (poll b)
  | OpPolled t, InPoll _ => polled t b
  | _, _ => Done s
  end.
Fixpoint run (l : list op) (s : place * bridge) : outcome (place * bridge) :=
  match l with [] => Done s | o :: l => s ← step o s; run l s end.

End server.

(** ** Turns *)

(** The steps of one turn that finds [t]. *)
Definition turn_ops (t : turn) : list op := [OpPoll; OpPolled (Some t); OpTop].

(** A turn that brings no client and no error, and data for those it names. *)
Record quiet (fds : list Z) (t : turn) : Prop := mk_quiet {
  quiet_entries : length (revents t) = S (length fds);
  quiet_alive : Forall (fun e => failed e = false) (revents t);
  quiet_server : ∀ e, revents t !! 0%nat = Some e → pollin e = false;
  quiet_data : ∀ k e f, revents t !! S k = Some e → fds !! k = Some f → pollin e = true →
    received t f ≠ None }.

(** What the turns bring for the client at [k] with descriptor [f]. *)
Definition packet (k : nat) (f : Z) (t : turn) : list bytes :=
  match revents t !! S k, received t f with
  | Some e, Some d => if pollin e then [d] else []
  | _, _ => []
  end.
Definition packets (k : nat) (f : Z) (ts : list turn) : list bytes := ts ≫= packet k f.

(** A request as a client sends it: its header, the part of the payload behind the header and the
    other parts, and what the connection makes of it. *)
Record request_in : Type := mk_request_in {
  q_header : MessageHeader; q_first : bytes; q_rest : list bytes;
  q_handler : Request.request_handler; q_opened : list Request.event; q_events : list Request.event }.
Definition parts (q : request_in) : list bytes := (encode_header (q_header q) ++ q_first q) :: q_rest q.
Record sends (heap : Z) (receive : bytes → Z) (c : TcpBridge.connection) (q : request_in) : Prop := mk_sends {
  sends_idle : TcpBridge.idle c;
  sends_header : header_ok (q_header q);
  sends_opened : TcpBridge.opened (TcpBridge.objects c) (q_header q) = (q_handler q, q_opened q);
  sends_size : zlen (concat (q_first q :: q_rest q)) = payload_size (q_header q);
  sends_parts : Forall (fun l => l ≠ []) (q_rest q);
  sends_handled : TcpBridge.handle heap receive (q_handler q) [] (q_first q :: q_rest q) = Done (q_events q) }.

(** A client sends in some turn between the first and the last of its parts, these included; two
    clients do so in the same turn. *)
Definition sending (k : nat) (f : Z) (before : list turn) (t : turn) (after : list turn) : Prop :=
  packets k f (before ++ [t]) ≠ [] ∧ packets k f (t :: after) ≠ [].
Definition overlap (k : nat) (f : Z) (k' : nat) (f' : Z) (ts : list turn) : Prop :=
  ∃ before t after, ts = before ++ t :: after ∧ sending k f before t after ∧ sending k' f' before t after.

(** A connection with this much of its request still to come. *)
Definition serving (heap : Z) (receive : bytes → Z) (q : request_in) (c0 : TcpBridge.connection)
    (todo : list bytes) (c : TcpBridge.connection) : Prop :=
  TcpBridge.in_buffer c = [] ∧ TcpBridge.deletion_flag c = false ∧
  (object_id (q_header q) ≠ 0 → TcpBridge.current_object c ≠ Some 0) ∧
  ((todo = parts q ∧ c = c0) ∨
   (todo ≠ [] ∧ (length todo < length (parts q))%nat ∧ Forall (fun l => l ≠ []) todo ∧ ∃ got rh b e e',
      TcpBridge.mid c (q_header q) got rh b ∧ 0 ≤ got ∧
      got + zlen (concat todo) = payload_size (q_header q) ∧
      TcpBridge.handle heap receive rh b todo = Done e' ∧ q_events q = e ++ e' ∧
      TcpBridge.log c = TcpBridge.log c0 ++ TcpBridge.tagged (q_header q) (q_opened q ++ e)) ∨
   (todo = [] ∧ TcpBridge.settled c ∧
      TcpBridge.log c = TcpBridge.log c0 ++ TcpBridge.tagged (q_header q) (q_opened q ++ q_events q))).

Section turns.
Context (heap : Z) (receive : bytes → Z).
Context (func : Z → Z → list Request.arg → omap (list Request.command) →
                omap (list Request.command)).
Context (fails : list (Z * Request.event) → bool) (Hfails : ∀ l, fails l = false).
Context (object_zero : list Request.command) (past_end : option revent) (n : nat).
#[local] Notation Process := (TcpBridge.Process heap receive func fails (S (S n))).
#[local] Notation run := (run heap receive func fails object_zero past_end (S (S n))).
#[local] Notation serving := (serving heap receive).
#[local] Notation sends := (sends heap receive).

(** A client after the first loop of a turn. *)
Definition given (t : turn) (fdi : nat) (c : client) : client :=
  match revents t !! fdi with
  | Some e => if pollin e then mk_client (fd c) (TcpBridge.PumpInput (conn c) (received t (fd c))) else c
  | None => c
  end.

Lemma fd_given t fdi c : fd (given t fdi c) = fd c.
Proof. unfold given. destruct (revents t !! fdi) as [e|]; [by destruct (pollin e)|done]. Qed.

Lemma pump_quiet t i cs :
  (∀ k, (k < length cs)%nat → ∃ e, revents t !! (i + k)%nat = Some e ∧ failed e = false) →
  pump past_end t i cs = Done (imap (fun k c => given t (i + k) c) cs).
Proof.
  revert i. induction cs as [|c cs IH]; intros i H; [done|]. cbn [pump imap].
  destruct (H O) as (e & He & Hf); [cbn; lia|]. rewrite Nat.add_0_r in He.
  unfold revent_at. rewrite He. cbn [mbind outcome_bind]. rewrite Hf, IH.
  - cbn [mbind outcome_bind]. rewrite Nat.add_0_r. unfold given at 2. rewrite He. do 2 f_equal.
    apply imap_ext. intros k c' _. cbn. by rewrite Nat.add_succ_r.
  - intros k Hk. replace (S i + k)%nat with (i + S k)%nat by lia. apply H. cbn. lia.
Qed.

(** A client that is served without a packet, and with one. *)
Lemma client_still q c0 todo z c : serving q c0 todo c → Process z c = Done (z, c).
Proof. intros (Hin & _). rewrite TcpBridge.Process_eq, Hin. by rewrite orb_true_r. Qed.

Lemma client_packet q c0 d todo z c :
  serving q c0 (d :: todo) c → sends c0 q → TcpBridge.owns z c →
  ∃ z' c', Process z (TcpBridge.PumpInput c (Some d)) = Done (z', c') ∧ serving q c0 todo c' ∧
    TcpBridge.owns z' c' ∧ (object_id (q_header q) ≠ 0 → z' = z).
Proof.
  intros (Hin & _ & Ho & Hc) [Hi Hh Hop Hsz Hne Hev] Hown. pose proof (ok_payload _ Hh).
  destruct Hc as [[[= -> ->] ->]|[(_ & Hlen & Hne' & got & rh & b & e & e' & Hm & Hg & Hsz' & Hh' & He & Hlog)|[? _]]]; [..|done].
  - destruct (TcpBridge.first_packet heap receive func fails Hfails n z c0 (q_header q) (q_first q) (q_rest q)
      (q_handler q) (q_opened q) (q_events q)) as (z' & c' & e & e' & E & Hown' & _ & Hz & Hlog & He & Hrest); try done.
    exists z', c'. split_and!; [exact E| |done|by intros [? _]%Hz]. rewrite He in *. destruct (q_rest q) as [|p2 ps] eqn:Eq.
    + destruct Hrest as [Hset ->]. pose proof (proj1 Hset) as Hid. split_and!; [apply Hid|apply Hid|by intros [_ ?]%Hz|].
      right; right. rewrite app_nil_r in He. split_and!; [done|done|by rewrite Hlog, He].
    + destruct Hrest as (Hin' & rh' & b' & Hm & Hh'). split_and!; [done|apply (TcpBridge.mid_alive _ _ _ _ _ Hm)|by intros [_ ?]%Hz|].
      right; left. unfold parts. rewrite Eq. split_and!; [done|cbn; lia|done|].
      exists (zlen (q_first q)), rh', b', e, e'. split_and!; try done; [apply zlen_nonneg|].
      change (concat (q_first q :: p2 :: ps)) with (q_first q ++ concat (p2 :: ps)) in Hsz. by rewrite zlen_app in Hsz.
  - apply Forall_cons in Hne' as [Hd Hne'].
    destruct (TcpBridge.next_packet heap receive func fails Hfails n z c (q_header q) got rh b d todo e')
      as (z' & c' & e1 & e2 & E & Hown' & _ & Hz & Hlog' & -> & Hrest); try done; [lia|].
    exists z', c'. split_and!; [exact E| |done|by intros [? _]%Ho%Hz]. destruct todo as [|p2 ps].
    + destruct Hrest as [Hset ->]. pose proof (proj1 Hset) as Hid. split_and!; [apply Hid|apply Hid|by intros [_ ?]%Ho%Hz|].
      right; right. rewrite app_nil_r in He. split_and!; [done|done|]. rewrite Hlog', Hlog, He.
      unfold TcpBridge.tagged. by rewrite !map_app, !app_assoc.
    + destruct Hrest as (Hin' & rh' & b' & Hm' & Hh2). split_and!; [done|apply (TcpBridge.mid_alive _ _ _ _ _ Hm')|by intros [_ ?]%Ho%Hz|].
      right; left. split_and!; [done|cbn in *; lia|done|].
      exists (got + zlen d), rh', b', (e ++ e1), e2. pose proof (zlen_nonneg d).
      change (concat (d :: p2 :: ps)) with (d ++ concat (p2 :: ps)) in Hsz'. rewrite zlen_app in Hsz'.
      split_and!; try done; [lia|lia|by rewrite <- app_assoc|]. rewrite Hlog', Hlog.
      unfold TcpBridge.tagged. by rewrite !map_app, !app_assoc.
Qed.

(** A client of another object has nothing in object zero's dispatcher. *)
Lemma serving_elsewhere q c0 todo c :
  serving q c0 todo c → object_id (q_header q) ≠ 0 → TcpBridge.on_zero c = false.
Proof.
  intros (_ & _ & Ho & _) Hne. specialize (Ho Hne). unfold TcpBridge.on_zero.
  destruct (TcpBridge.current_handler c), (TcpBridge.current_object c) as [id|]; try done.
  apply Z.eqb_neq. congruence.
Qed.

(** Who is in object zero's dispatcher, or may be after this turn. *)
Definition claims (t : turn) (Q : nat → request_in) (k : nat) (c : client) : Prop :=
  object_id (q_header (Q k)) = 0 ∧ (TcpBridge.on_zero (conn c) = true ∨ packet k (fd c) t ≠ []).

Lemma given_packet t k c :
  (∀ e, revents t !! S k = Some e → pollin e = true → received t (fd c) ≠ None) →
  packet k (fd c) t = [] ∧ given t (S k) c = c ∨
  ∃ d, packet k (fd c) t = [d] ∧ conn (given t (S k) c) = TcpBridge.PumpInput (conn c) (Some d).
Proof.
  intros H. unfold packet, given. destruct (revents t !! S k) as [e|]; [|by left].
  destruct (pollin e) eqn:Ep; [|left; by destruct (received t (fd c))].
  destruct (received t (fd c)) as [d|] eqn:Ed; [right; by exists d|]. by destruct (H e).
Qed.

(** One client's part of a turn; who does not claim object zero's dispatcher leaves it. *)
Lemma client_turn t Q c0 k todo z c :
  serving (Q k) c0 (packet k (fd c) t ++ todo) (conn c) → sends c0 (Q k) → TcpBridge.owns z (conn c) →
  (∀ e, revents t !! S k = Some e → pollin e = true → received t (fd c) ≠ None) →
  ∃ z1 c1, Process z (conn (given t (S k) c)) = Done (z1, c1) ∧ serving (Q k) c0 todo c1 ∧
    TcpBridge.owns z1 c1 ∧ (¬ claims t Q k c → z1 = z ∧ TcpBridge.on_zero c1 = false).
Proof.
  intros Hs Hq Hown Hdata. unfold claims. destruct (given_packet t k c Hdata) as [[Ep ->]|(d & Ep & Eg)]; rewrite Ep in *.
  - exists z, (conn c). split_and!; [by eapply client_still|done|done|]. intros Hn. split; [done|].
    destruct (Z.eq_dec (object_id (q_header (Q k))) 0) as [E0|Hne]; [|by eapply serving_elsewhere].
    destruct (TcpBridge.on_zero (conn c)); [|done]. destruct Hn. split; [done|by left].
  - rewrite Eg. destruct (client_packet (Q k) c0 d todo z (conn c) Hs Hq Hown) as (z1 & c1 & E & Hs1 & Hown1 & Hz).
    exists z1, c1. split_and!; try done. intros Hn.
    assert (object_id (q_header (Q k)) ≠ 0) as Hne by (intros E0; apply Hn; split; [done|by right]).
    split; [by apply Hz|by eapply serving_elsewhere].
Qed.

Lemma process_turn t Q C0 T i z cs :
  (∀ j c, cs !! j = Some c →
    serving (Q (i + j)%nat) (C0 (i + j)%nat) (packet (i + j) (fd c) t ++ T (i + j)%nat) (conn c) ∧
    sends (C0 (i + j)%nat) (Q (i + j)%nat) ∧ TcpBridge.owns z (conn c) ∧
    ∀ e, revents t !! S (i + j) = Some e → pollin e = true → received t (fd c) ≠ None) →
  (∀ j j' c c', j ≠ j' → cs !! j = Some c → cs !! j' = Some c' →
    ¬ (claims t Q (i + j) c ∧ claims t Q (i + j') c')) →
  ∃ z' cs', process_all heap receive func fails (S (S n)) z (imap (fun j c => given t (S (i + j)) c) cs) = Done (z', cs') ∧
    length cs' = length cs ∧ ((∀ j c, cs !! j = Some c → ¬ claims t Q (i + j) c) → z' = z) ∧
    ∀ j c c', cs !! j = Some c → cs' !! j = Some c' → fd c' = fd c ∧
      serving (Q (i + j)%nat) (C0 (i + j)%nat) (T (i + j)%nat) (conn c') ∧ TcpBridge.owns z' (conn c').
Proof.
  revert i z. induction cs as [|c cs IH]; intros i z H Hex; [by exists z, []|].
  destruct (H 0%nat c eq_refl) as (Hs & Hq & Hown & Hdata). rewrite Nat.add_0_r in Hs, Hq, Hdata.
  destruct (client_turn t Q (C0 i) i (T i) z c Hs Hq Hown Hdata) as (z1 & c1 & E1 & Hs1 & Hown1 & Hz1).
  assert (∀ j c', cs !! j = Some c' → claims t Q i c → ¬ claims t Q (S i + j) c') as Halone.
  { intros j c' Hj Hc Hc'. apply (Hex 0%nat (S j) c c'); try done. rewrite Nat.add_0_r, Nat.add_succ_r. by split. }
  destruct (IH (S i) z1) as (z2 & cs2 & E2 & Hlen & Hz2 & Hcs).
  - intros j c' Hj. destruct (H (S j) c' Hj) as (Hs' & Hq' & Hown' & Hdata'). rewrite Nat.add_succ_r in *.
    split_and!; try done. intros Hon. destruct (decide (z1 = z)) as [->|Hne]; [by apply Hown'|exfalso].
    assert (claims t Q (S i + j) c') as Hc'.
    { split; [|by left]. destruct (Z.eq_dec (object_id (q_header (Q (S i + j)%nat))) 0) as [?|Ho]; [done|].
      by rewrite (serving_elsewhere _ _ _ _ Hs' Ho) in Hon. }
    apply Hne, Hz1. intros Hc. by apply (Halone j c').
  - intros j j' c1' c2' Hne H1 H2. pose proof (Hex (S j) (S j') c1' c2' ltac:(lia) H1 H2) as Hx.
    by rewrite !Nat.add_succ_r in Hx.
  - exists z2, (mk_client (fd c) c1 :: cs2). split_and!.
    + cbn [imap process_all]. rewrite Nat.add_0_r, E1. cbn [mbind outcome_bind].
      assert (imap (fun j c => given t (S (i + S j)) c) cs = imap (fun j c => given t (S (S i + j)) c) cs) as Ei
        by (apply imap_ext; intros; by rewrite Nat.add_succ_r).
      rewrite fd_given. change ((λ (j : nat) (c : client), given t (S (i + j)) c) ∘ S) with (fun j c => given t (S (i + S j)) c).
      rewrite Ei, E2. cbn [mbind outcome_bind conn]. by rewrite (proj1 (proj2 Hs1)).
    + cbn. by rewrite Hlen.
    + intros Hn. rewrite Hz2; [apply Hz1; specialize (Hn 0%nat c eq_refl); by rewrite Nat.add_0_r in Hn|].
      intros j c' Hj. specialize (Hn (S j) c' Hj). by rewrite Nat.add_succ_r in Hn.
    + intros [|j] c2 c'; [|rewrite Nat.add_succ_r; apply Hcs]. intros [= <-] [= <-]. rewrite Nat.add_0_r.
      split_and!; [done|done|]. cbn [conn]. intros Hon.
      assert (z2 = z1) as ->; [|by apply Hown1]. apply Hz2. intros j c' Hj Hc'.
      assert (¬ claims t Q i c) as Hn by (intros Hc; by apply (Halone j c')). destruct (Hz1 Hn) as [_ Hf]. congruence.
Qed.

Lemma server_run_app l l' s : run (l ++ l') s = s ← run l s; run l' s.
Proof.
  revert s. induction l as [|o l IH]; intros s; [done|]. cbn [app TcpServer.run].
  destruct (step _ _ _ _ _ _ _ o s) as [s1| | | |]; cbn [mbind outcome_bind]; [apply IH|done..].
Qed.

Lemma turn_served t b z cs :
  thread_destroy b = false → network_state b = Connected → quiet (map fd (connections b)) t →
  process_all heap receive func fails (S (S n)) (zero b) (imap (fun j c => given t (S j) c) (connections b)) = Done (z, cs) →
  run (turn_ops t) (Ready, b) = Done (Ready, set_served b z cs).
Proof.
  intros Hdes Hnet [Hlen Halive Hserver _] Hall. cbn [turn_ops TcpServer.run step poll mbind outcome_bind polled].
  rewrite length_map in Hlen. destruct (lookup_lt_is_Some_2 (revents t) 0) as [e0 He0]; [lia|].
  unfold revent_at at 1. rewrite He0. cbn [mbind outcome_bind].
  rewrite (proj1 (Forall_lookup _ _) Halive _ _ He0), (Hserver _ He0), pump_quiet.
  - cbn [Nat.add mbind outcome_bind]. rewrite Hall. cbn [mbind outcome_bind].
    unfold step, loop_top. cbn [thread_destroy network_state set_served]. by rewrite Hdes, Hnet, decide_True.
  - intros k Hk. destruct (lookup_lt_is_Some_2 (revents t) (1 + k)) as [e He]; [lia|].
    exists e. split; [done|]. by apply (proj1 (Forall_lookup _ _) Halive _ _ He).
Qed.

Lemma turns_served Q C0 before ts b :
  thread_destroy b = false → network_state b = Connected →
  Forall (quiet (map fd (connections b))) ts →
  (∀ k c, connections b !! k = Some c →
    serving (Q k) (C0 k) (packets k (fd c) ts) (conn c) ∧ sends (C0 k) (Q k) ∧ TcpBridge.owns (zero b) (conn c) ∧
    packets k (fd c) (before ++ ts) = parts (Q k)) →
  (∀ k k' c c', k ≠ k' → connections b !! k = Some c → connections b !! k' = Some c' →
    object_id (q_header (Q k)) = 0 → object_id (q_header (Q k')) = 0 →
    ¬ overlap k (fd c) k' (fd c') (before ++ ts)) →
  ∃ z cs, run (ts ≫= turn_ops) (Ready, b) = Done (Ready, set_served b z cs) ∧ length cs = length (connections b) ∧
    ∀ k c c', connections b !! k = Some c → cs !! k = Some c' → fd c' = fd c ∧ serving (Q k) (C0 k) [] (conn c').
Proof.
  revert before b. induction ts as [|t ts IH]; intros before b Hdes Hnet Hq H Hno.
  - exists (zero b), (connections b). split_and!; [by destruct b|done|]. intros k c c' Hc. rewrite Hc. intros [= <-].
    split; [done|]. apply (H k c Hc).
  - apply Forall_cons in Hq as [Hq1 Hq].
    assert (∀ k c, connections b !! k = Some c → claims t Q k c → sending k (fd c) before t ts) as Hclaim.
    { intros k c Hc [E0 Hcl]. destruct (H k c Hc) as (Hs & [Hi _ _ _ _ _] & _ & Hp). unfold sending, packets in *.
      rewrite bind_app in *. cbn [mbind list_bind] in *.
      destruct Hcl as [Hon|Hpk]; [|split; [destruct (before ≫= _), (packet k (fd c) t); done|by destruct (packet k (fd c) t)]].
      destruct Hs as (_ & _ & _ & [[_ Ec]|[(Hne & Hlen & _)|(_ & Hset & _)]]).
      - rewrite Ec in Hon. unfold TcpBridge.on_zero in Hon. by rewrite (TcpBridge.idle_handler _ Hi) in Hon.
      - split; [|done]. intros E. apply app_nil in E as [E _]. rewrite <- Hp, E in Hlen. cbn in Hlen. lia.
      - unfold TcpBridge.on_zero in Hon. by rewrite (TcpBridge.idle_handler _ (proj1 Hset)) in Hon. }
    destruct (process_turn t Q C0 (fun k => match connections b !! k with Some c => packets k (fd c) ts | None => [] end)
      0 (zero b) (connections b)) as (z1 & cs1 & E1 & Hlen1 & _ & Hcs1).
    { intros j c Hc. cbn [Nat.add]. rewrite Hc. destruct (H j c Hc) as (Hs & Hsd & Hown & _).
      split_and!; try done. intros e He. eapply (quiet_data _ _ Hq1); [done|]. by rewrite list_lookup_fmap, Hc. }
    { intros j j' c c' Hne Hc Hc' [Hc1 Hc2]. cbn [Nat.add] in *. apply (Hno j j' c c'); [done..|apply Hc1|apply Hc2|].
      exists before, t, ts. split_and!; [done|by apply Hclaim..]. }
    cbn [mbind list_bind]. rewrite server_run_app, (turn_served t b z1 cs1 Hdes Hnet Hq1 E1). cbn [mbind outcome_bind].
    set (b1 := set_served b z1 cs1).
    assert (∀ k c1, cs1 !! k = Some c1 → ∃ c, connections b !! k = Some c ∧ fd c1 = fd c ∧
      serving (Q k) (C0 k) (packets k (fd c) ts) (conn c1) ∧ TcpBridge.owns z1 (conn c1)) as Hb1.
    { intros k c1 Hc1. destruct (lookup_lt_is_Some_2 (connections b) k) as [c Hc]; [rewrite <- Hlen1; by eapply lookup_lt_Some|].
      exists c. split; [done|]. specialize (Hcs1 k c c1 Hc Hc1). cbn [Nat.add] in Hcs1. by rewrite Hc in Hcs1. }
    destruct (IH (before ++ [t]) b1) as (z & cs & E & Hlen & Hcs); [done|done| | | |].
    + replace (map fd (connections b1)) with (map fd (connections b)); [done|]. apply list_eq_same_length with (length (connections b));
        [by rewrite length_map|by rewrite length_map|]. intros k f f' _. rewrite !list_lookup_fmap.
      destruct (connections b !! k) as [c|] eqn:Hc; [|done]. cbn [connections b1 set_served].
      destruct (cs1 !! k) as [c1|] eqn:Hc1; [|done]. destruct (Hb1 k c1 Hc1) as (c2 & Hc2 & Hf & _).
      rewrite Hc in Hc2. cbn. congruence.
    + intros k c1 Hc1. destruct (Hb1 k c1 Hc1) as (c & Hc & Hf & Hs & Hown). destruct (H k c Hc) as (_ & Hsd & _ & Hp).
      rewrite Hf, <- app_assoc. by split_and!.
    + intros k k' c1 c1' Hne Hc1 Hc1' H0 H0'. destruct (Hb1 k c1 Hc1) as (c & Hc & -> & _).
      destruct (Hb1 k' c1' Hc1') as (c' & Hc' & -> & _). rewrite <- app_assoc. by apply (Hno k k' c c').
    + exists z, cs. split_and!; [exact E|by rewrite Hlen|]. intros k c c' Hc Hc'.
      destruct (lookup_lt_is_Some_2 cs1 k) as [c1 Hc1]; [rewrite Hlen1; by eapply lookup_lt_Some|].
      destruct (Hcs k c1 c' Hc1 Hc') as [Hf Hs]. split; [|done]. destruct (Hb1 k c1 Hc1) as (c2 & Hc2 & Hf2 & _). congruence.
Qed.
End turns.

(** ** Theorems *)


(** Two commands of object zero, and one of another object of the first client's. *)
Definition ex_command : list Request.command := [Request.mk_command 7 [Request.APod 4]].
Definition ex_client (f : Z) : client :=
  mk_client f (TcpBridge.set_objects (TcpBridge.Connection_new f ex_command) [(0, ex_command); (1, ex_command)]).
Definition ex_bridge : bridge := mk Connected false 3 4 [ex_client 5; ex_client 6] None.
Definition ex_header (object tag : Z) : MessageHeader := mkHeader 1 object 7 tag 4 0 0.
Definition ex_request (object tag : Z) (p : bytes) (ps : list bytes) : request_in :=
  mk_request_in (ex_header object tag) p ps (Request.Smart 7 (Request.new_handler [Request.APod 4] 4)) []
    [Request.Invoke [Request.Pod (p ++ concat ps)]].
(** The second client's request arrives between the two parts of the first one's. *)
Definition ex_turn (a b : bool) (data : Z → option bytes) : turn :=
  mk_turn [mk_revent false false; mk_revent false a; mk_revent false b] (-1) true data.
Definition ex_turns (object : Z) : list turn :=
  [ex_turn true false (fun _ => Some (encode_header (ex_header 0 8) ++ str "ab"));
   ex_turn false true (fun _ => Some (encode_header (ex_header object 9) ++ str "wxyz"));
   ex_turn true false (fun _ => Some (str "cd"))].
Definition ex_run (ts : list turn) : outcome (place * bridge) :=
  run 4096 zlen (fun _ _ _ m => m) (fun _ => false) ex_command None 2 (ts ≫= turn_ops) (Ready, ex_bridge).


(** requests to object zero collide.  A client's request to object zero that is received in two
    parts, and a whole request of another client to object zero between them, which destroys the
    first one's handler: the second part is handed to it nevertheless. *)
Theorem requests_collide : ex_run (ex_turns 0) = Undefined.
Proof. reflexivity. Qed.

Lemma pump_app past t i cs c :
  (i + length cs ≤ length (revents t))%nat →
  ∃ cs', pump past t i cs = Done cs' ∧
    pump past t i (cs ++ [c]) = (l ← pump past t (i + length cs) [c]; Done (cs' ++ l)).
Proof.
  revert i. induction cs as [|c1 cs IH]; intros i H.
  - exists []. rewrite Nat.add_0_r. split; [done|]. cbn [app]. by destruct (pump _ _ _ _).
  - cbn [length] in H. destruct (IH (S i)) as (cs' & E & E'); [lia|].
    replace (i + length (c1 :: cs))%nat with (S i + length cs)%nat by (cbn; lia).
    set (tail := pump past t (S i + length cs) [c]) in *. cbn [app pump]. rewrite E, E'. unfold revent_at.
    destruct (lookup_lt_is_Some_2 (revents t) i) as [e He]; [lia|]. rewrite He. cbn [mbind outcome_bind].
    destruct (failed e); [by exists cs'|]. eexists. split; [done|]. by destruct tail.
Qed.

(** C38: taking a client reads outside the polled array.  The array is made before the client is
    taken, and the loop that follows reads an entry for every client: for the new one there is
    none, so the turn is undefined; where the memory behind the array says an error the new client
    is dropped without a word. *)
Theorem accept_reads_past_fds heap receive func fails object_zero fuel t b e :
  revents t !! 0%nat = Some (mk_revent false true) → 0 ≤ accepted t → memory t = true →
  length (revents t) = S (length (connections b)) → failed e = true →
  polled heap receive func fails object_zero None fuel (Some t) b = Undefined ∧
  polled heap receive func fails object_zero (Some e) fuel (Some t) b =
    polled heap receive func fails object_zero (Some e) fuel
      (Some (mk_turn (<[0%nat := mk_revent false false]> (revents t)) (accepted t) (memory t) (received t))) b.
Proof.
  intros He Ha Hm Hlen Hf. cbn [polled].
  set (t' := mk_turn _ (accepted t) (memory t) (received t)).
  assert (∀ past i cs, pump past t (S i) cs = pump past t' (S i) cs) as Hsame.
  { intros past i cs. revert i. induction cs as [|c cs IH]; intros i; [done|]. cbn [pump].
    unfold revent_at. cbn [revents t']. rewrite list_lookup_insert_ne by done.
    destruct (match revents t !! S i with Some e => _ | None => _ end) as [e1| | | |]; try done.
    cbn [mbind outcome_bind]. by rewrite IH. }
  assert (revent_at None (revents t) 0 = Done (mk_revent false true)) as E1 by (unfold revent_at; by rewrite He).
  assert (revent_at (Some e) (revents t) 0 = Done (mk_revent false true)) as E2 by (unfold revent_at; by rewrite He).
  assert (revent_at (Some e) (revents t') 0 = Done (mk_revent false false)) as E3
    by (unfold revent_at; cbn [revents t']; by rewrite list_lookup_insert_eq by lia).
  rewrite E1, E2, E3. cbn [mbind outcome_bind failed pollin]. unfold accept_client.
  rewrite (proj2 (Z.ltb_ge _ _) Ha), Hm. cbn [connections set_connections].
  set (c := mk_client _ _).
  assert ((revents t) !! (1 + length (connections b))%nat = None) as Hnone by (apply lookup_ge_None_2; lia).
  split.
  - destruct (pump_app None t 1 (connections b) c) as (cs & _ & ->); [lia|]. cbn [pump].
    unfold revent_at. by rewrite Hnone.
  - destruct (pump_app (Some e) t 1 (connections b) c) as (cs & E & ->); [lia|]. cbn [pump].
    unfold revent_at at 1. rewrite Hnone. cbn [mbind outcome_bind]. rewrite Hf, <- Hsame, E.
    cbn [mbind outcome_bind]. by rewrite app_nil_r.
Qed.

Lemma accept_reads_past_fds_witness :
  polled 4096 zlen (fun _ _ _ m => m) (fun _ => false) ex_command None 2
    (Some (mk_turn [mk_revent false true; mk_revent false false; mk_revent false false] 7 true (fun _ => None)))
    ex_bridge = Undefined ∧
  polled 4096 zlen (fun _ _ _ m => m) (fun _ => false) ex_command (Some (mk_revent true false)) 2
    (Some (mk_turn [mk_revent false true; mk_revent false false; mk_revent false false] 7 true (fun _ => None)))
    ex_bridge =
  polled 4096 zlen (fun _ _ _ m => m) (fun _ => false) ex_command (Some (mk_revent true false)) 2
    (Some (mk_turn [mk_revent false false; mk_revent false false; mk_revent false false] 7 true (fun _ => None)))
    ex_bridge.
Proof.
  apply (accept_reads_past_fds 4096 zlen (fun _ _ _ m => m) (fun _ => false) ex_command 2
    (mk_turn [mk_revent false true; mk_revent false false; mk_revent false false] 7 true (fun _ => None))
    ex_bridge (mk_revent true false)); done.
Defined.

Lemma exited_step heap receive func fails object_zero past_end fuel o b :
  ∃ b', step heap receive func fails object_zero past_end fuel o (Exited, b) = Done (Exited, b').
Proof. destruct o; cbn; eauto. Qed.
Lemma exited_run heap receive func fails object_zero past_end fuel l b :
  ∃ b', run heap receive func fails object_zero past_end fuel l (Exited, b) = Done (Exited, b').
Proof.
  revert b. induction l as [|o l IH]; intros b; [by exists b|]. cbn [run].
  destruct (exited_step heap receive func fails object_zero past_end fuel o b) as [b' ->]. apply IH.
Qed.

(** a network that comes back at once ends the bridge.  The main thread wakes the socket thread
    by closing the server socket; when the network is connected again before the socket thread
    looks, it takes the error for one of its own and ends, and whatever happens later no client is
    ever taken or served again. *)
Theorem network_bounce_ends_bridge heap receive func fails object_zero past_end fuel fds b st t e l :
  st ≠ Connected → revents t !! 0%nat = Some e → failed e = true →
  ∃ b', run heap receive func fails object_zero past_end fuel
    (OpNetwork st :: OpNetwork Connected :: OpPolled (Some t) :: l) (InPoll fds, b) = Done (Exited, b').
Proof.
  intros Hst He Hf. cbn [run step mbind outcome_bind]. unfold network_event.
  rewrite (decide_False _ _ Hst). cbn [network_state set_network set_sockets decide_rel].
  unfold polled, revent_at. rewrite He. cbn [mbind outcome_bind]. rewrite Hf. apply exited_run.
Qed.

Lemma network_bounce_ends_bridge_witness :
  ∃ b', run 4096 zlen (fun _ _ _ m => m) (fun _ => false) ex_command None 2
    [OpNetwork Pending; OpNetwork Connected;
     OpPolled (Some (mk_turn [mk_revent true false; mk_revent false false; mk_revent false false] (-1) true (fun _ => None)));
     OpTop; OpPoll] (InPoll [3; 5; 6], ex_bridge) = Done (Exited, b').
Proof.
  apply (network_bounce_ends_bridge 4096 zlen (fun _ _ _ m => m) (fun _ => false) ex_command None 2 [3; 5; 6] ex_bridge Pending
    (mk_turn [mk_revent true false; mk_revent false false; mk_revent false false] (-1) true (fun _ => None))
    (mk_revent true false) [OpTop; OpPoll]); done.
Defined.

(** A network that goes and comes back later: the clients are gone, the sockets are made anew and
    the thread waits for new clients. *)
Theorem network_recovers heap receive func fails object_zero past_end fuel fds b st t e m :
  st ≠ Connected → thread_destroy b = false → revents t !! 0%nat = Some e → failed e = true →
  stream_fd m ≠ -1 → stream_bound m = true → stream_listens m = true →
  run heap receive func fails object_zero past_end fuel
    [OpNetwork st; OpPolled (Some t); OpTop; OpNetwork Connected; OpWake m; OpPoll] (InPoll fds, b) =
  Done (InPoll [stream_fd m], mk Connected false (stream_fd m) (dgram_fd m) [] (zero b)).
Proof.
  intros Hst Hd He Hf Hs Hb Hl.
  assert (step heap receive func fails object_zero past_end fuel (OpNetwork st) (InPoll fds, b) =
    Done (InPoll fds, mk st false (-1) (-1) (connections b) (zero b))) as E1.
  { cbn [step]. unfold network_event. rewrite (decide_False _ _ Hst). by rewrite <- Hd. }
  cbn [run]. rewrite E1. cbn [mbind outcome_bind step]. unfold polled, revent_at. rewrite He.
  cbn [mbind outcome_bind network_state]. rewrite Hf, (decide_False _ _ Hst). cbn [mbind outcome_bind step].
  unfold loop_top. cbn [thread_destroy network_state]. rewrite (decide_False _ _ Hst). cbn [mbind outcome_bind step].
  unfold wake, ResetSockets. cbn. by rewrite (proj2 (Z.eqb_neq _ _) Hs), Hb, Hl.
Qed.

(** Without a socket the mutex is unlocked twice. *)
Lemma no_socket_unlocks_twice m b :
  network_state b = Connected → thread_destroy b = false → stream_fd m = -1 → wake m b = Undefined.
Proof. intros Hn Hd Hs. unfold wake, ResetSockets. by rewrite Hn, Hd, Hs. Qed.

End TcpServer.
