(* ===== verification/GdbConnection.v ===== *)
(** * twib/tool/GdbConnection.{hpp,cpp}: the GDB remote serial protocol framing

    Packets are [$payload#xx] with a two-digit hexadecimal checksum, [}] escapes and,
    until no-ack mode starts, an acknowledgement character per packet.  The three
    [util::Buffer]s of the connection have no limit and are only used as queues, so
    they are modelled by their pending bytes (what [Buffer.buffer_refines_queue]
    justifies).  What the connection writes to [out_file] is the log [out]. *)
From S2P Require Import Prelude.

Module GdbConnection.

Inductive State : Type :=
| WAITING_PACKET_OPEN
| READING_PACKET_DATA
| ESCAPE_CHARACTER
| CHECKSUM_0
| CHECKSUM_1.

Record t : Type := mk {
  in_buffer : bytes;
  message_buffer : bytes;
  state : State;
  checksum : Z;
  checksum_hex0 : byte;
  ack_enabled : bool;
  error_flag : bool;
  out_buffer : bytes;
  out : bytes }.

Definition set_in (c : t) (l : bytes) : t :=
  mk l (message_buffer c) (state c) (checksum c) (checksum_hex0 c) (ack_enabled c)
    (error_flag c) (out_buffer c) (out c).
Definition set_machine (c : t) (s : State) (m : bytes) (k : Z) (h : byte) : t :=
  mk (in_buffer c) m s k h (ack_enabled c) (error_flag c) (out_buffer c) (out c).
Definition SignalError (c : t) : t :=
  mk (in_buffer c) (message_buffer c) (state c) (checksum c) (checksum_hex0 c)
    (ack_enabled c) true (out_buffer c) (out c).
Definition StartNoAckMode (c : t) : t :=
  mk (in_buffer c) (message_buffer c) (state c) (checksum c) (checksum_hex0 c)
    false (error_flag c) (out_buffer c) (out c).
(** [write(out_file.fd, &msg, 1)] of an acknowledgement; its result is ignored. *)
Definition write_ack (c : t) (msg : byte) : t :=
  mk (in_buffer c) (message_buffer c) (state c) (checksum c) (checksum_hex0 c)
    (ack_enabled c) (error_flag c) (out_buffer c) (out c ++ [msg]).
Definition set_out_buffer (c : t) (l : bytes) : t :=
  mk (in_buffer c) (message_buffer c) (state c) (checksum c) (checksum_hex0 c)
    (ack_enabled c) (error_flag c) l (out c).
Definition set_out (c : t) (l o : bytes) : t :=
  mk (in_buffer c) (message_buffer c) (state c) (checksum c) (checksum_hex0 c)
    (ack_enabled c) (error_flag c) l o.

Definition init : t :=
  mk [] [] WAITING_PACKET_OPEN 0 Byte.x00 true false [] [].

(** ** Hexadecimal *)

Definition DecodeHexNybble (n : byte) : Z :=
  let n := byte.unsigned n in
  if (48 <=? n) && (n <=? 57) then n - 48
  else if (97 <=? n) && (n <=? 102) then n - 97 + 10
  else if (65 <=? n) && (n <=? 70) then n - 65 + 10
  else 0.

Definition DecodeHexByte (h0 h1 : byte) : Z :=
  Z.lor (u8 (Z.shiftl (DecodeHexNybble h0) 4)) (DecodeHexNybble h1).

(** [out<<= 4; out|= DecodeHexNybble(c)] on a [uint64_t]. *)
Definition push_nybble (out : Z) (c : byte) : Z :=
  Z.lor (u64 (Z.shiftl out 4)) (DecodeHexNybble c).

(** Both consume what they decode; [DecodeWithSeparator] stops at [sep] and consumes
    it, and returns the rest of the packet. *)
Fixpoint DecodeWithSeparator_loop (out : Z) (sep : byte) (packet : bytes) : Z * bytes :=
  match packet with
  | [] => (out, [])
  | c :: packet =>
      if decide (c = sep) then (out, packet)
      else DecodeWithSeparator_loop (push_nybble out c) sep packet
  end.
Definition DecodeWithSeparator (sep : byte) (packet : bytes) : Z * bytes :=
  DecodeWithSeparator_loop 0 sep packet.

Definition Decode (packet : bytes) : Z := foldl push_nybble 0 packet.

(** [Decode(std::vector<uint8_t>&)]: an odd last nybble is consumed and dropped. *)
Fixpoint Decode_bytes (packet : bytes) : bytes :=
  match packet with
  | h0 :: h1 :: packet => byte.of_Z (DecodeHexByte h0 h1) :: Decode_bytes packet
  | _ => []
  end.

(** [Decode(Buffer &out)]: the same loop writing into the room reserved in [out]. *)
Fixpoint Decode_buffer (out packet : bytes) : bytes :=
  match packet with
  | h0 :: h1 :: packet => Decode_buffer (out ++ [byte.of_Z (DecodeHexByte h0 h1)]) packet
  | _ => out
  end.

Definition EncodeHexNybble (n : Z) : byte :=
  if n <? 10 then byte.of_Z (48 + n) else byte.of_Z (97 + n - 10).

(** The loop from [bit_offset = 8 * k] down. *)
Fixpoint Encode_loop (n size : Z) (k : nat) : bytes :=
  match k with
  | O => []
  | S k =>
      let bit_offset := 8 * Z.of_nat (S k) in
      (if negb (size =? 0) || negb (Z.land (Z.shiftr n (bit_offset - 8)) 255 =? 0)
       then [EncodeHexNybble (Z.land (Z.shiftr n (bit_offset - 4)) 15);
             EncodeHexNybble (Z.land (Z.shiftr n (bit_offset - 8)) 15)]
       else []) ++ Encode_loop n size k
  end.
Definition Encode (n size : Z) : bytes :=
  Encode_loop n size (if size =? 0 then 8%nat else Z.to_nat size).

Definition Encode_bytes (p : bytes) : bytes :=
  p ≫= (fun b => let n := byte.unsigned b in
    [EncodeHexNybble (Z.land (Z.shiftr n 4) 15); EncodeHexNybble (Z.land (Z.shiftr n 0) 15)]).

(** ** Receiving *)

(** [message_buffer.Write(ch ^ 0x20)]: the argument is an [int] (of a signed [char]),
    and the template overload writes its four bytes. *)
Definition write_xor (x : byte) : bytes :=
  let c := byte.unsigned x in
  le_split 4 (u32 (Z.lxor (if c <? 128 then c else c - 256) 32)).

(** What one character does: go on, report a break, give up, or deliver a message. *)
Inductive effect : Type := More | Interrupt | Fatal | Deliver.

Definition Process_char (c : t) (x : byte) : t * effect :=
  match state c with
  | WAITING_PACKET_OPEN =>
      if decide (x = ch "+") then (c, More)
      else if decide (x = Byte.x03) then (c, Interrupt)
      else if decide (x ≠ ch "$") then (SignalError c, Fatal)
      else (set_machine c READING_PACKET_DATA [] 0 (checksum_hex0 c), More)
  | READING_PACKET_DATA =>
      if decide (x = ch "#")
      then (set_machine c CHECKSUM_0 (message_buffer c) (checksum c) (checksum_hex0 c), More)
      else
        let k := u8 (checksum c + byte.unsigned x) in
        if decide (x = ch "}")
        then (set_machine c ESCAPE_CHARACTER (message_buffer c) k (checksum_hex0 c), More)
        else (set_machine c READING_PACKET_DATA (message_buffer c ++ [x]) k
                (checksum_hex0 c), More)
  | ESCAPE_CHARACTER =>
      (set_machine c READING_PACKET_DATA (message_buffer c ++ write_xor x)
         (u8 (checksum c + byte.unsigned x)) (checksum_hex0 c), More)
  | CHECKSUM_0 => (set_machine c CHECKSUM_1 (message_buffer c) (checksum c) x, More)
  | CHECKSUM_1 =>
      let c := set_machine c WAITING_PACKET_OPEN (message_buffer c) (checksum c)
                 (checksum_hex0 c) in
      if negb (DecodeHexByte (checksum_hex0 c) x =? checksum c) then
        if ack_enabled c then (write_ack c (ch "-"), More)
        else (SignalError c, Fatal)
      else ((if ack_enabled c then write_ack c (ch "+") else c), Deliver)
  end.

(** The loop over [in_buffer]: [None] is the null pointer; the boolean is
    [interrupted]. *)
Fixpoint Process_loop (c : t) (l : bytes) : t * option bytes * bool :=
  match l with
  | [] => (set_in c [], None, false)
  | x :: l =>
      let '(c, e) := Process_char c x in
      match e with
      | More => Process_loop c l
      | Interrupt => (set_in c l, None, true)
      | Fatal => (set_in c l, None, false)
      | Deliver => (set_in c l, Some (message_buffer c), false)
      end
  end.
Definition Process (c : t) : t * option bytes * bool := Process_loop c (in_buffer c).

(** [InputMember::SignalRead]: [r] is what [read] delivers, [None] for an error or the
    end of the file. *)
Definition SignalRead (c : t) (r : option bytes) : t :=
  match r with
  | None | Some [] => SignalError c
  | Some io => set_in c (in_buffer c ++ io)
  end.

(** ** Sending *)

(** The loop that escapes the payload and sums what it writes. *)
Fixpoint escape_loop (out : bytes) (checksum : Z) (buffer : bytes) : bytes * Z :=
  match buffer with
  | [] => (out, checksum)
  | x :: buffer =>
      let esc := bool_decide (x = ch "#") || bool_decide (x = ch "$") ||
                 bool_decide (x = ch "}") || bool_decide (x = ch "*") in
      let '(out, checksum, x) :=
        (if esc then (out ++ [ch "}"], u8 (checksum + byte.unsigned (ch "}")),
                      byte.of_Z (Z.lxor (byte.unsigned x) 32))
         else (out, checksum, x)) in
      escape_loop (out ++ [x]) (u8 (checksum + byte.unsigned x)) buffer
  end.

Definition frame (buffer : bytes) : bytes :=
  let '(body, checksum) := escape_loop [ch "$"] 0 buffer in
  body ++ [ch "#"] ++ Encode checksum 1.

(** [while(out_buffer.ReadAvailable()) { r = write(...); ... }]: [ws] are the results
    of the successive writes. *)
Fixpoint pump (c : t) (ws : list Z) : outcome t :=
  match out_buffer c with
  | [] => Done c
  | _ =>
      match ws with
      | [] => OutOfFuel
      | r :: ws =>
          if r <? 0 then Done (SignalError c)
          else if zlen (out_buffer c) <? r then Undefined
          else pump (set_out c (zdrop r (out_buffer c)) (out c ++ ztake r (out_buffer c))) ws
      end
  end.

Definition Respond (c : t) (buffer : bytes) (ws : list Z) : outcome t :=
  pump (set_out_buffer c (out_buffer c ++ frame buffer)) ws.

(** The payloads of the fixed replies; [snprintf("E%02x", no & 0xff)]. *)
Definition payload_Empty : bytes := [].
Definition payload_Ok : bytes := str "OK".
Definition payload_Error (no : Z) : bytes :=
  let n := Z.land no 255 in
  [ch "E"; EncodeHexNybble (Z.shiftr n 4); EncodeHexNybble (Z.land n 15)].

Definition RespondEmpty (c : t) (ws : list Z) : outcome t := Respond c payload_Empty ws.
Definition RespondError (c : t) (no : Z) (ws : list Z) : outcome t :=
  Respond c (payload_Error no) ws.
Definition RespondOk (c : t) (ws : list Z) : outcome t := Respond c payload_Ok ws.

(** The packet loop of [GdbStub::Logic::Prepare] as far as the connection goes: take
    messages until there is none. *)
Fixpoint drain (fuel : nat) (c : t) : outcome (t * list bytes) :=
  match fuel with
  | O => OutOfFuel
  | S fuel =>
      let '(c, m, interrupted) := Process c in
      match m with
      | None => Done (c, [])
      | Some m => '(c, ms) ← drain fuel c; Done (c, m :: ms)
      end
  end.

Fixpoint receive (fuel : nat) (c : t) (chunks : list bytes) : outcome (t * list bytes) :=
  match chunks with
  | [] => Done (c, [])
  | io :: chunks =>
      '(c, ms) ← drain fuel (SignalRead c (Some io));
      '(c, ms') ← receive fuel c chunks;
      Done (c, ms ++ ms')
  end.

(** ** Specification *)

(** The character machine run over a whole input, messages collected: what
    [Process] computes if it is called until it returns null.  [None] when the
    input makes it give up or reports a break. *)
Fixpoint run_chars (c : t) (l : bytes) : option (t * list bytes) :=
  match l with
  | [] => Some (c, [])
  | x :: l =>
      let '(c, e) := Process_char c x in
      match e with
      | More => run_chars c l
      | Deliver => '(c', ms) ← run_chars c l; Some (c', message_buffer c :: ms)
      | Interrupt | Fatal => None
      end
  end.

(** The escaped form of a payload and its checksum. *)
Definition special (x : byte) : bool :=
  bool_decide (x = ch "#") || bool_decide (x = ch "$") ||
  bool_decide (x = ch "}") || bool_decide (x = ch "*").
Definition flip (x : byte) : byte := byte.of_Z (Z.lxor (byte.unsigned x) 32).
Definition escape1 (x : byte) : bytes := if special x then [ch "}"; flip x] else [x].
Definition escape (p : bytes) : bytes := p ≫= escape1.
Definition sum (k : Z) (l : bytes) : Z := foldl (fun k x => u8 (k + byte.unsigned x)) k l.

(** What the receiver makes of a payload: an escaped character arrives as the four
    bytes of an integer. *)
Definition received (p : bytes) : bytes :=
  p ≫= (fun x => if special x then [x; Byte.x00; Byte.x00; Byte.x00] else [x]).

(** The acknowledgements of [n] packets. *)
Definition acks (c : t) (n : nat) : bytes :=
  if ack_enabled c then replicate n (ch "+") else [].

(** ** Lemmas *)

Lemma byte_range b : 0 ≤ byte.unsigned b < 256.
Proof. apply byte.unsigned_range. Qed.

Lemma unsigned_of_Z_small z : 0 ≤ z < 256 → byte.unsigned (byte.of_Z z) = z.
Proof. intros. rewrite byte.unsigned_of_Z. by apply Z.mod_small. Qed.

Lemma Z_below_ind (n : nat) (P : Z → Prop) :
  Forall P (seqZ 0 (Z.of_nat n)) → ∀ z, 0 ≤ z < Z.of_nat n → P z.
Proof. intros HF z Hz. rewrite Forall_forall in HF. apply HF, elem_of_seqZ. lia. Qed.

Lemma Decode_Encode_nybble d : 0 ≤ d < 16 → DecodeHexNybble (EncodeHexNybble d) = d.
Proof.
  revert d. apply (Z_below_ind 16). repeat (constructor; [vm_compute; reflexivity|]).
  constructor.
Qed.

Lemma DecodeHexNybble_range c : 0 ≤ DecodeHexNybble c < 16.
Proof.
  unfold DecodeHexNybble. repeat case_match; try lia;
    repeat match goal with H : _ && _ = true |- _ => apply andb_true_iff in H as [] end; lia.
Qed.

Lemma lor_nybble a d : 0 ≤ d < 16 → Z.lor (Z.shiftl a 4) d = 16 * a + d.
Proof.
  intros Hd. pose proof (Z.add_lor_land (Z.shiftl a 4) d) as Hsum.
  assert (Z.land (Z.shiftl a 4) d = 0) as Hland.
  { apply Z.bits_inj'. intros i Hi. rewrite Z.land_spec, Z.bits_0.
    destruct (Z.lt_ge_cases i 4).
    - by rewrite Z.shiftl_spec_low.
    - rewrite (Z.bits_above_log2 d i); [by rewrite andb_false_r|lia|].
      destruct (Z.eq_dec d 0) as [->|]; [cbn; lia|]. apply Z.log2_lt_pow2; [lia|].
      apply Z.lt_le_trans with (2 ^ 4); [lia|]. apply Z.pow_le_mono_r; lia. }
  rewrite Hland, Z.shiftl_mul_pow2 in Hsum by lia. rewrite Z.shiftl_mul_pow2 by lia. lia.
Qed.

Lemma push_nybble_arith a c :
  push_nybble a c = u64 (16 * a + DecodeHexNybble c).
Proof.
  pose proof (DecodeHexNybble_range c). unfold push_nybble, u64.
  rewrite Z.shiftl_mul_pow2 by lia. change (2 ^ 4) with 16.
  replace ((a * 16) `mod` 2 ^ 64) with (Z.shiftl (a `mod` 2 ^ 60) 4)
    by (rewrite Z.shiftl_mul_pow2 by lia; change (2 ^ 64) with (2 ^ 60 * 2 ^ 4);
        by rewrite Z.mul_mod_distr_r).
  rewrite lor_nybble by done.
  replace (16 * a + DecodeHexNybble c) with (DecodeHexNybble c + a * 2 ^ 4) by lia.
  pose proof (Z.mod_pos_bound a (2 ^ 60) ltac:(lia)).
  apply (Z.mod_unique _ _ (a / 2 ^ 60)); [lia|]. pose proof (Z.div_mod a (2 ^ 60)). lia.
Qed.

Lemma DecodeHexByte_arith h0 h1 :
  DecodeHexByte h0 h1 = 16 * DecodeHexNybble h0 + DecodeHexNybble h1.
Proof.
  pose proof (DecodeHexNybble_range h0). pose proof (DecodeHexNybble_range h1).
  unfold DecodeHexByte, u8. rewrite Z.mod_small, lor_nybble; [done|done|].
  rewrite Z.shiftl_mul_pow2 by lia. lia.
Qed.

Lemma shift_nybble n k : 0 ≤ k → Z.land (Z.shiftr n k) 15 = (n / 2 ^ k) `mod` 16.
Proof.
  intros. rewrite Z.shiftr_div_pow2 by done. change 15 with (Z.ones 4).
  by rewrite Z.land_ones by lia.
Qed.

Lemma byte_nybbles n k :
  0 ≤ k → 16 * ((n / 2 ^ (k + 4)) `mod` 16) + (n / 2 ^ k) `mod` 16 = (n / 2 ^ k) `mod` 256.
Proof.
  intros. rewrite Z.pow_add_r by lia. rewrite <- Z.div_div by lia.
  change (2 ^ 4) with 16. set (m := n / 2 ^ k).
  change 256 with (16 * 16). rewrite Z.rem_mul_r by lia. lia.
Qed.

(** Decoding the loop's digits, for a fixed size. *)
Lemma Decode_Encode_loop n size k acc :
  size ≠ 0 → 0 ≤ n →
  foldl push_nybble acc (Encode_loop n size k) =
    if decide (k = O) then acc
    else u64 (acc * 2 ^ (8 * Z.of_nat k) + n `mod` 2 ^ (8 * Z.of_nat k)).
Proof.
  intros Hs Hn. revert acc. induction k as [|k IH]; intros acc; [done|].
  cbn [Encode_loop]. rewrite (proj2 (Z.eqb_neq size 0)) by done. cbn [negb orb].
  rewrite foldl_app. rewrite IH. cbn [foldl].
  rewrite !push_nybble_arith, !shift_nybble by lia.
  rewrite !Decode_Encode_nybble by (apply Z.mod_pos_bound; lia).
  replace (8 * Z.of_nat (S k) - 8) with (8 * Z.of_nat k) by lia.
  replace (8 * Z.of_nat (S k) - 4) with (8 * Z.of_nat k + 4) by lia.
  pose proof (byte_nybbles n (8 * Z.of_nat k) ltac:(lia)) as Hb.
  set (a := (n / 2 ^ (8 * Z.of_nat k + 4)) `mod` 16) in *.
  set (b := (n / 2 ^ (8 * Z.of_nat k)) `mod` 16) in *.
  assert (u64 (16 * u64 (16 * acc + a) + b) = u64 (256 * acc + (n / 2 ^ (8 * Z.of_nat k)) `mod` 256))
    as ->.
  { rewrite <- Hb, u64_affine. f_equal. lia. }
  destruct (decide (S k = 0%nat)) as [?|_]; [lia|].
  replace (8 * Z.of_nat (S k)) with (8 * Z.of_nat k + 8) by lia.
  rewrite (Z.pow_add_r 2 (8 * Z.of_nat k) 8) by lia. change (2 ^ 8) with 256.
  set (p := 2 ^ (8 * Z.of_nat k)).
  assert (0 < p) by (apply Z.pow_pos_nonneg; lia).
  rewrite (Z.rem_mul_r n p 256) by lia.
  case_decide as Hk.
  - subst k p. cbn. rewrite Z.div_1_r, Z.mod_1_r. f_equal. lia.
  - rewrite (Z.mul_comm (u64 _)), u64_affine. f_equal. lia.
Qed.

Lemma Encode_sized_roundtrip n size :
  1 ≤ size ≤ 8 → 0 ≤ n < 2 ^ (8 * size) → Decode (Encode n size) = n.
Proof.
  intros Hs Hn. unfold Decode, Encode.
  rewrite (proj2 (Z.eqb_neq size 0)) by lia.
  rewrite Decode_Encode_loop by lia. rewrite decide_False by lia.
  rewrite Z2Nat.id by lia. rewrite Z.mod_small by lia. cbn. apply u64_small.
  split; [lia|]. apply Z.lt_le_trans with (2 ^ (8 * size)); [lia|].
  apply Z.pow_le_mono_r; lia.
Qed.

(** Two digits per byte, for any byte string. *)
Lemma Decode_Encode_bytes p : Decode_bytes (Encode_bytes p) = p.
Proof.
  induction p as [|b p IH]; [done|].
  change (Encode_bytes (b :: p)) with
    ([EncodeHexNybble (Z.land (Z.shiftr (byte.unsigned b) 4) 15);
      EncodeHexNybble (Z.land (Z.shiftr (byte.unsigned b) 0) 15)] ++ Encode_bytes p).
  cbn [app Decode_bytes]. rewrite IH. f_equal.
  rewrite DecodeHexByte_arith, !shift_nybble by lia.
  rewrite !Decode_Encode_nybble by (apply Z.mod_pos_bound; lia).
  pose proof (byte_nybbles (byte.unsigned b) 0 ltac:(lia)) as Hb. change (0 + 4) with 4 in Hb.
  rewrite Hb. rewrite Z.div_1_r, Z.mod_small by apply byte_range. apply byte.of_Z_unsigned.
Qed.

Lemma Decode_buffer_spec out p : Decode_buffer out p = out ++ Decode_bytes p.
Proof.
  revert out. induction p as [|h0|h0 h1 p IH] using pair_ind; intros out;
    cbn; rewrite ?app_nil_r; try done.
  by rewrite IH, <- app_assoc.
Qed.

(** Without a size, zero bytes are skipped wherever they are: a trailing one too. *)
Lemma Encode_loop_shift n k :
  0 ≤ n → Encode_loop (256 * n) 0 (S k) = Encode_loop n 0 k.
Proof.
  intros Hn. induction k as [|k IH].
  - cbn [Encode_loop]. change (8 * Z.of_nat 1 - 8) with 0. rewrite Z.shiftr_0_r.
    change 255 with (Z.ones 8). rewrite Z.land_ones by lia. change (2 ^ 8) with 256.
    rewrite (Z.mul_comm 256), Z.mod_mul by lia. done.
  - assert (∀ j, 0 ≤ j → Z.shiftr (256 * n) (8 + j) = Z.shiftr n j) as Hsh.
    { intros j ?. rewrite <- Z.shiftr_shiftr by lia. f_equal.
      rewrite Z.shiftr_div_pow2 by lia. change (2 ^ 8) with 256.
      rewrite (Z.mul_comm 256). apply Z.div_mul. lia. }
    replace (Encode_loop n 0 (S k)) with
      ((if negb (0 =? 0) || negb (Z.land (Z.shiftr n (8 * Z.of_nat (S k) - 8)) 255 =? 0)
       then [EncodeHexNybble (Z.land (Z.shiftr n (8 * Z.of_nat (S k) - 4)) 15);
             EncodeHexNybble (Z.land (Z.shiftr n (8 * Z.of_nat (S k) - 8)) 15)]
       else []) ++ Encode_loop n 0 k) by done.
    rewrite <- IH.
    rewrite <- (Hsh (8 * Z.of_nat (S k) - 8)), <- (Hsh (8 * Z.of_nat (S k) - 4)) by lia.
    replace (8 + (8 * Z.of_nat (S k) - 8)) with (8 * Z.of_nat (S (S k)) - 8) by lia.
    replace (8 + (8 * Z.of_nat (S k) - 4)) with (8 * Z.of_nat (S (S k)) - 4) by lia.
    reflexivity.
Qed.

Lemma Encode_unsized_collision n :
  0 ≤ n < 2 ^ 56 → Encode (256 * n) 0 = Encode n 0.
Proof.
  intros Hn. unfold Encode. change (0 =? 0) with true. cbv iota.
  rewrite Encode_loop_shift by lia.
  assert (Z.land (Z.shiftr n (8 * Z.of_nat 8 - 8)) 255 = 0) as Htop.
  { rewrite Z.shiftr_div_pow2, Z.div_small by (change (8 * Z.of_nat 8 - 8) with 56; lia). done. }
  change (Encode_loop n 0 8) with
    ((if negb (0 =? 0) || negb (Z.land (Z.shiftr n (8 * Z.of_nat 8 - 8)) 255 =? 0)
     then [EncodeHexNybble (Z.land (Z.shiftr n (8 * Z.of_nat 8 - 4)) 15);
           EncodeHexNybble (Z.land (Z.shiftr n (8 * Z.of_nat 8 - 8)) 15)]
     else []) ++ Encode_loop n 0 7).
  by rewrite Htop.
Qed.

(** ** Framing *)

Lemma write_xor_flip x :
  special x = true → write_xor (flip x) = [x; Byte.x00; Byte.x00; Byte.x00].
Proof. destruct x; vm_compute; done. Qed.

Lemma escape_loop_spec out k p :
  escape_loop out k p = (out ++ escape p, sum k (escape p)).
Proof.
  revert out k. induction p as [|x p IH]; intros out k; [by rewrite app_nil_r|].
  cbn [escape_loop]. change (bool_decide _ || _ || _ || _) with (special x).
  change (escape (x :: p)) with (escape1 x ++ escape p).
  unfold escape1. destruct (special x); rewrite IH; unfold sum; rewrite foldl_app; cbn [foldl];
    rewrite <- !app_assoc; done.
Qed.

Lemma sum_range k l : 0 ≤ k < 256 → 0 ≤ sum k l < 256.
Proof.
  revert k. induction l as [|x l IH]; intros k Hk; [done|]. cbn. apply IH.
  apply Z.mod_pos_bound. lia.
Qed.

Lemma frame_spec p :
  ∃ d1 d0, frame p = [ch "$"] ++ escape p ++ [ch "#"; d1; d0] ∧
    DecodeHexByte d1 d0 = sum 0 (escape p).
Proof.
  unfold frame. rewrite escape_loop_spec.
  pose proof (sum_range 0 (escape p) ltac:(lia)) as Hr. set (k := sum 0 (escape p)) in *.
  eexists _, _. rewrite <- app_assoc. split.
  - unfold Encode. cbn [Z.eqb Z.to_nat Pos.to_nat Encode_loop Nat.add Pos.iter_op]. done.
  - cbn -[Z.land Z.shiftr DecodeHexByte EncodeHexNybble]. clearbody k.
    rewrite DecodeHexByte_arith, !shift_nybble by lia.
    rewrite !Decode_Encode_nybble by (apply Z.mod_pos_bound; lia).
    pose proof (byte_nybbles k 0 ltac:(lia)) as Hb. change (0 + 4) with 4 in Hb.
    change (8 * Z.of_nat 1 - 4) with 4. change (8 * Z.of_nat 1 - 8) with 0.
    rewrite Hb, Z.div_1_r. apply Z.mod_small. lia.
Qed.

Lemma run_chars_app c l k c1 ms :
  run_chars c l = Some (c1, ms) →
  run_chars c (l ++ k) = '(c2, ms') ← run_chars c1 k; Some (c2, ms ++ ms').
Proof.
  revert c ms. induction l as [|x l IH]; intros c ms E; cbn in *.
  - injection E as <- <-. destruct (run_chars c k) as [[]|]; done.
  - destruct (Process_char c x) as [c' []]; try done.
    + by apply IH.
    + destruct (run_chars c' l) as [[c'' ms']|] eqn:El; [|done]. cbn in E.
      injection E as -> <-. rewrite (IH _ _ El).
      destruct (run_chars c1 k) as [[]|]; done.
Qed.

Lemma run_chars_fails c l k : run_chars c l = None → run_chars c (l ++ k) = None.
Proof.
  revert c. induction l as [|x l IH]; intros c; [done|]. cbn.
  destruct (Process_char c x) as [c1 []]; try done; [apply IH|].
  destruct (run_chars c1 l) as [[? ?]|] eqn:El; [done|]. by rewrite (IH _ El).
Qed.

(** The escaped payload, in the data state. *)
Lemma run_escape c p m k h :
  run_chars (set_machine c READING_PACKET_DATA m k h) (escape p) =
    Some (set_machine c READING_PACKET_DATA (m ++ received p) (sum k (escape p)) h, []).
Proof.
  revert m k. induction p as [|x p IH]; intros m k; [by rewrite app_nil_r|].
  change (escape (x :: p)) with (escape1 x ++ escape p).
  assert (run_chars (set_machine c READING_PACKET_DATA m k h) (escape1 x) =
    Some (set_machine c READING_PACKET_DATA (m ++ received [x]) (sum k (escape1 x)) h, [])) as E.
  { unfold escape1. destruct (special x) eqn:Es.
    - cbn [run_chars Process_char set_machine state].
      rewrite decide_False, decide_True by done. cbn [run_chars Process_char set_machine state].
      rewrite write_xor_flip by done. unfold received. cbn [mbind list_bind].
      rewrite Es. done.
    - unfold special in Es. rewrite !orb_false_iff, !bool_decide_eq_false in Es.
      destruct Es as [[[? ?] ?] ?]. cbn [run_chars Process_char set_machine state].
      rewrite !decide_False by done. unfold received. cbn [mbind list_bind].
      unfold special. rewrite !bool_decide_eq_false_2 by done. done. }
  rewrite (run_chars_app _ _ _ _ _ E), IH. cbn [mbind option_bind app].
  change (received (x :: p)) with ((if special x then [x; Byte.x00; Byte.x00; Byte.x00] else [x])
    ++ received p). change (received [x]) with
    ((if special x then [x; Byte.x00; Byte.x00; Byte.x00] else [x]) ++ []).
  unfold sum. rewrite foldl_app, app_nil_r, <- app_assoc. done.
Qed.

(** A whole packet, between packets. *)
Definition after_frame (c : t) (p : bytes) (h : byte) : t :=
  let c := set_machine c WAITING_PACKET_OPEN (received p) (sum 0 (escape p)) h in
  if ack_enabled c then write_ack c (ch "+") else c.

Lemma run_frame c p :
  state c = WAITING_PACKET_OPEN →
  ∃ h, run_chars c (frame p) = Some (after_frame c p h, [received p]).
Proof.
  intros Hs. destruct (frame_spec p) as (d1 & d0 & -> & Hd). exists d1.
  assert (run_chars c [ch "$"] =
    Some (set_machine c READING_PACKET_DATA [] 0 (checksum_hex0 c), [])) as E1.
  { cbn [run_chars]. unfold Process_char. rewrite Hs. done. }
  rewrite (run_chars_app _ _ _ _ _ E1).
  rewrite (run_chars_app _ _ _ _ _ (run_escape c p [] 0 (checksum_hex0 c))). cbn [app].
  cbn [run_chars Process_char set_machine state]. rewrite decide_True by done.
  cbn [run_chars Process_char state message_buffer checksum checksum_hex0 set_machine].
  rewrite Hd, Z.eqb_refl. cbn [negb]. unfold after_frame, set_machine; cbn.
  destruct (ack_enabled c); done.
Qed.

Lemma run_frames c ps :
  state c = WAITING_PACKET_OPEN →
  ∃ c', run_chars c (ps ≫= frame) = Some (c', map received ps) ∧ state c' = WAITING_PACKET_OPEN ∧
    error_flag c' = error_flag c ∧ ack_enabled c' = ack_enabled c ∧
    out c' = out c ++ acks c (length ps).
Proof.
  revert c. induction ps as [|p ps IH]; intros c Hs.
  - exists c. split_and!; try done. unfold acks. destruct (ack_enabled c); by rewrite app_nil_r.
  - destruct (run_frame c p Hs) as [h E].
    destruct (IH (after_frame c p h)) as (c' & E' & Hs' & He' & Ha' & Ho').
    { unfold after_frame; cbn. by destruct (ack_enabled c). }
    exists c'. change ((p :: ps) ≫= frame) with (frame p ++ (ps ≫= frame)).
    rewrite (run_chars_app _ _ _ _ _ E), E'. cbn. split_and!; try done.
    + rewrite He'. unfold after_frame; cbn. by destruct (ack_enabled c).
    + rewrite Ha'. unfold after_frame; cbn. by destruct (ack_enabled c) eqn:Ea.
    + rewrite Ho'. unfold after_frame, acks; cbn. destruct (ack_enabled c) eqn:Ea; cbn;
        rewrite ?Ea; [by rewrite <- app_assoc|done].
Qed.

(** The machine does not look at [in_buffer]. *)
Lemma Process_char_in c l x :
  Process_char (set_in c l) x =
    let '(c', e) := Process_char c x in (set_in c' l, e).
Proof.
  unfold Process_char. destruct c as [? ? [] ? ? [] ? ? ?]; cbn; repeat case_decide; try done;
    by destruct (negb _).
Qed.

Lemma run_chars_in c l k :
  run_chars (set_in c k) l = '(c', ms) ← run_chars c l; Some (set_in c' k, ms).
Proof.
  revert c. induction l as [|x l IH]; intros c; [done|]. cbn. rewrite Process_char_in.
  destruct (Process_char c x) as [c1 []]; try done.
  rewrite IH. destruct (run_chars c1 l) as [[? ?]|]; done.
Qed.

Lemma set_in_set_in c l k : set_in (set_in c l) k = set_in c k.
Proof. done. Qed.

(** One call of [Process] against the whole-input run. *)
Lemma Process_loop_run c l c' ms :
  run_chars c l = Some (c', ms) →
  match ms with
  | [] => Process_loop c l = (set_in c' [], None, false)
  | m :: ms => ∃ c1 l1, Process_loop c l = (set_in c1 l1, Some m, false) ∧
      run_chars c1 l1 = Some (c', ms)
  end.
Proof.
  revert c ms. induction l as [|x l IH]; intros c ms E; cbn in *.
  - injection E as <- <-. done.
  - destruct (Process_char c x) as [c1 []]; try done.
    + by apply IH.
    + destruct (run_chars c1 l) as [[c2 ms']|] eqn:El; [|done]. cbn in E.
      injection E as -> <-. by exists c1, l.
Qed.

Lemma drain_run fuel c c' ms :
  run_chars c (in_buffer c) = Some (c', ms) → (length ms < fuel)%nat →
  drain fuel c = Done (set_in c' [], ms).
Proof.
  revert c c' ms. induction fuel as [|fuel IH]; intros c c' ms E Hf; [lia|]. cbn [drain].
  unfold Process. pose proof (Process_loop_run _ _ _ _ E) as HP. destruct ms as [|m ms].
  - by rewrite HP.
  - destruct HP as (c1 & l1 & -> & E1).
    assert (run_chars (set_in c1 l1) (in_buffer (set_in c1 l1)) = Some (set_in c' l1, ms)) as E2
      by (cbn; by rewrite run_chars_in, E1).
    assert (length ms < fuel)%nat by (cbn in Hf; lia).
    by rewrite (IH _ _ ms E2).
Qed.

Lemma receive_run fuel c chunks c' ms :
  in_buffer c = [] → Forall (fun io => io ≠ []) chunks →
  run_chars c (concat chunks) = Some (c', ms) → (length ms < fuel)%nat →
  receive fuel c chunks = Done (set_in c' [], ms).
Proof.
  intros Hin Hch. revert c c' ms Hin. induction Hch as [|io chunks Hio _ IH];
    intros c c' ms Hin E Hf; cbn [receive concat] in *.
  - injection E as <- <-. unfold set_in. rewrite <- Hin. by destruct c.
  - assert (SignalRead c (Some io) = set_in c io) as ->
      by (destruct io; [done|]; cbn; by rewrite Hin).
    destruct (run_chars c io) as [[c1 ms1]|] eqn:E1.
    + rewrite (run_chars_app _ _ _ _ _ E1) in E.
      destruct (run_chars c1 (concat chunks)) as [[c2 ms2]|] eqn:E2; [|done]. cbn in E.
      injection E as -> <-. rewrite length_app in Hf.
      rewrite (drain_run fuel (set_in c io) (set_in c1 io) ms1);
        [|cbn; by rewrite run_chars_in, E1|lia]. cbn [mbind outcome_bind].
      rewrite (IH (set_in (set_in c1 io) []) (set_in c' []) ms2); [done|done| |lia].
      rewrite !set_in_set_in, run_chars_in, E2. cbn. done.
    + by rewrite (run_chars_fails _ _ _ E1) in E.
Qed.

(** C39: the GDB packet framing.  Whatever payloads are framed (with escapes and
    checksums) and however the resulting bytes are cut into reads, a connection
    between packets that processes each read as it comes delivers one message per
    payload, in order, raises no error, acknowledges every packet with one [+] while
    acknowledgements are enabled, and ends between packets with an empty input
    buffer.  Each message is the payload with three zero bytes after every character
    that had to be escaped; a payload without [#], [$], [}] and [*] is delivered
    exactly. *)
Theorem gdb_framing_roundtrip (c : t) (ps : list bytes) (chunks : list bytes) :
  state c = WAITING_PACKET_OPEN → in_buffer c = [] →
  concat chunks = (ps ≫= frame) → Forall (fun io => io ≠ []) chunks →
  (∃ c', receive (S (length ps)) c chunks = Done (c', map received ps) ∧
    state c' = WAITING_PACKET_OPEN ∧ in_buffer c' = [] ∧
    error_flag c' = error_flag c ∧ out c' = out c ++ acks c (length ps)) ∧
  (Forall (Forall (fun x => special x = false)) ps → map received ps = ps).
Proof.
  intros Hs Hin Hcat Hch. split.
  - destruct (run_frames c ps Hs) as (c' & E & ? & ? & ? & ?).
    rewrite <- Hcat in E. exists (set_in c' []).
    rewrite (receive_run _ _ _ _ _ Hin Hch E) by (rewrite length_map; lia). done.
  - clear. induction 1 as [|p ps Hp _ IH]; [done|]. cbn. rewrite IH. f_equal.
    induction Hp as [|x p Hx _ IHp]; [done|]. unfold received. rewrite bind_cons, Hx.
    cbn [app]. f_equal. exact IHp.
Qed.

Lemma gdb_framing_roundtrip_witness :
  (∃ c', receive 3 init [str "$m0,"; str "4#fd$a}"; [Byte.x03; ch "#"; ch "e"]; str "1"]
        = Done (c', [str "m0,4"; str "a#" ++ [Byte.x00; Byte.x00; Byte.x00]]) ∧
    state c' = WAITING_PACKET_OPEN ∧ in_buffer c' = [] ∧
    error_flag c' = false ∧ out c' = str "++") ∧
  (Forall (Forall (fun x => special x = false)) [str "m0,4"; str "a#"] →
   map received [str "m0,4"; str "a#"] = [str "m0,4"; str "a#"]).
Proof.
  apply (gdb_framing_roundtrip init [str "m0,4"; str "a#"]); try reflexivity.
  repeat constructor; discriminate.
Defined.

(** hexadecimal numbers of a fixed size round-trip: for one to eight bytes,
    decoding what [Encode(n, size)] writes gives [n] back for every [n] of that
    size, and byte strings survive [Encode]/[Decode] whatever they contain. *)
Theorem hex_roundtrip (n size : Z) (p : bytes) :
  1 ≤ size ≤ 8 → 0 ≤ n < 2 ^ (8 * size) →
  Decode (Encode n size) = n ∧ Decode_bytes (Encode_bytes p) = p ∧
  Decode_buffer [] (Encode_bytes p) = p.
Proof.
  intros. split_and!; [by apply Encode_sized_roundtrip | apply Decode_Encode_bytes |].
  by rewrite Decode_buffer_spec, Decode_Encode_bytes.
Qed.

Lemma hex_roundtrip_witness :
  Decode (Encode 4660 2) = 4660 ∧ Decode_bytes (Encode_bytes (str "GDB")) = str "GDB" ∧
  Decode_buffer [] (Encode_bytes (str "GDB")) = str "GDB".
Proof. apply (hex_roundtrip 4660 2); cbn; lia. Defined.

(** without a size, which is how process and thread ids are sent, [Encode] skips
    every zero byte and not only the leading ones, so a number and 256 times it are
    encoded alike: the encoding of process ids is not injective. *)
Theorem unsized_encode_not_injective (n : Z) :
  0 ≤ n < 2 ^ 56 → Encode (256 * n) 0 = Encode n 0 ∧ Decode (Encode 256 0) = 1.
Proof. intros. split; [by apply Encode_unsized_collision | reflexivity]. Qed.

Lemma unsized_encode_not_injective_witness :
  Encode (256 * 81) 0 = Encode 81 0 ∧ Decode (Encode 256 0) = 1.
Proof. apply (unsized_encode_not_injective 81). lia. Defined.

End GdbConnection.
