(* ===== verification/GdbStub.v ===== *)
(** * twib/tool/GdbStub.{hpp,cpp}: the GDB server of the command line tool

    The stub's state is explicit; the remote device is reached through the
    interfaces [ITwibDebugger] and [ITwibDeviceInterface] over a world [W].  A
    reference or pointer to a process or thread is its key, and following it is a
    lookup: a missing entry is a dangling pointer.  What is handed to
    [GdbConnection::Respond] is the log [replies] ([GdbConnection.frame] is what
    the connection makes of each). *)
From S2P Require Import Prelude GdbConnection.

(** ** The remote interfaces *)

(** ThreadContext: the 268 bytes from [x], the 520 bytes from [fpr]. *)
Record ThreadContext : Type := mk_ThreadContext {
  tc_x : bytes; tc_pad : Z; tc_fpr : bytes; tc_tpidr : Z }.

Record LoadedModuleInfo : Type := mk_LoadedModuleInfo {
  build_id : bytes; base_addr : Z; module_size : Z }.

Inductive ExceptionType : Type :=
| Trap | InstructionAbort | DataAbortMisc | PcSpAlignmentFault | DebuggerAttached
| BreakPoint | UserBreak | DebuggerBreak | BadSvcId | SError | UnknownException.

Inductive EventType : Type :=
| AttachProcess
| AttachThread (thread_id tls_pointer : Z)
| ExitProcess
| ExitThread
| Exception (exception_type : ExceptionType)
| UnknownEvent.

Record DebugEvent : Type := mk_DebugEvent { event_type : EventType; event_thread_id : Z }.

(** A request to a device gives a value or the code of a [ResultError]. *)
Class ITwibDebugger (W : Type) : Type := {
  GetThreadContext : Z → Z → W → W * (ThreadContext + Z);
  SetThreadContext : Z → Z → ThreadContext → W → W * (unit + Z);
  ReadMemory : Z → Z → Z → W → W * (bytes + Z);
  WriteMemory : Z → Z → bytes → W → W * (unit + Z);
  GetDebugEvent : Z → W → W * (option DebugEvent + Z);
  ContinueDebugEvent : Z → Z → list Z → W → W * (unit + Z);
  BreakProcess : Z → W → W * (unit + Z);
  AsyncWait : Z → W → W;
  GetTargetEntry : Z → W → W * (Z + Z);
  LaunchDebugProcess : Z → W → W * (unit + Z);
  GetNsoInfos : Z → W → W * (list LoadedModuleInfo + Z);
  GetNroInfos : Z → W → W * (list LoadedModuleInfo + Z) }.

Class ITwibDeviceInterface (W : Type) : Type := {
  OpenActiveDebugger : Z → W → W * (Z + Z);
  WaitToDebugApplication : W → W * (Z + Z);
  WaitToDebugTitle : Z → W → W * (Z + Z) }.

(** What the termination of the event loop relies on: a process has finitely many
    pending events. *)
Class FiniteEvents (W : Type) `{ITwibDebugger W} : Type := {
  pending : Z → W → nat;
  GetDebugEvent_pending : ∀ h w w' e,
    GetDebugEvent h w = (w', inl (Some e)) → (pending h w' < pending h w)%nat }.

Module GdbStub.

(** ** Text of the C++ standard library *)

Definition endl : bytes := [Byte.x0a].

(** [while(packet.Read(ch) && ch != sep)]: the characters before [sep], and what is
    left after it. *)
Fixpoint read_until (sep : byte) (packet : bytes) : bytes * bytes :=
  match packet with
  | [] => ([], [])
  | c :: packet =>
      if decide (c = sep) then ([], packet)
      else let '(l, r) := read_until sep packet in (c :: l, r)
  end.

(** [os << std::hex << n]: lower case, no leading zeros. *)
Fixpoint hex_digits (k : nat) (n : Z) (acc : bytes) : bytes :=
  match k with
  | O => acc
  | S k =>
      let acc := GdbConnection.EncodeHexNybble (n mod 16) :: acc in
      if n / 16 =? 0 then acc else hex_digits k (n / 16) acc
  end.
Definition hex (n : Z) : bytes := hex_digits 16 n [].

Definition digit_value (c : byte) : option Z :=
  let n := byte.unsigned c in
  if (48 <=? n) && (n <=? 57) then Some (n - 48)
  else if (97 <=? n) && (n <=? 102) then Some (n - 87)
  else if (65 <=? n) && (n <=? 70) then Some (n - 55)
  else None.
Fixpoint digits (acc : Z) (l : bytes) : Z :=
  match l with
  | [] => acc
  | c :: l => match digit_value c with Some d => digits (16 * acc + d) l | None => acc end
  end.
Definition isspace (c : byte) : bool :=
  let n := byte.unsigned c in (n =? 32) || ((9 <=? n) && (n <=? 13)).
Fixpoint skip_space (l : bytes) : bytes :=
  match l with c :: l' => if isspace c then skip_space l' else l | [] => [] end.
(** [std::stoull(l, 0, 16)]: spaces, a sign, [0x] and the digits. *)
Definition stoull16 (l : bytes) : Z + exn :=
  let l := skip_space l in
  let '(neg, l) :=
    match l with
    | c :: l' => if decide (c = ch "-") then (true, l')
                 else if decide (c = ch "+") then (false, l') else (false, l)
    | [] => (false, l)
    end in
  let l :=
    match l with
    | z :: x :: d :: l' =>
        if bool_decide (z = ch "0") && (bool_decide (x = ch "x") || bool_decide (x = ch "X"))
           && bool_decide (is_Some (digit_value d))
        then d :: l' else l
    | _ => l
    end in
  match l with
  | c :: _ =>
      match digit_value c with
      | None => inr invalid_argument
      | Some _ =>
          let n := digits 0 l in
          if 2 ^ 64 <=? n then inr out_of_range
          else inl (if neg then u64 (- n) else n)
      end
  | [] => inr invalid_argument
  end.

(** ** State *)

Inductive GetQuery : Type :=
| QSupported | QCurrentThread | QFThreadInfo | QSThreadInfo | QThreadExtraInfo
| QOffsets | QRemoteCommand | QXfer.
Inductive SetQuery : Type := QStartNoAckMode | QThreadEvents.
Inductive Multiletter : Type := VAttach | VContQuery | VCont.
Inductive XferObject : Type := xfer_libraries.

Record Query (V : Type) : Type := mk_Query {
  field : bytes; visitor : V; should_advertise : bool; separator : byte }.
Arguments mk_Query {V}. Arguments field {V}. Arguments visitor {V}.
Arguments should_advertise {V}. Arguments separator {V}.

Record registry : Type := mk_registry {
  features : list bytes;
  gettable_queries : list (bytes * Query GetQuery);
  settable_queries : list (bytes * Query SetQuery);
  multiletter_handlers : list (bytes * Multiletter);
  xfer_objects : list (bytes * XferObject) }.

Record Thread : Type := mk_Thread { thread_id : Z; tls_addr : Z }.

Record Process : Type := mk_Process {
  pid : Z;
  debugger : Z;
  threads : omap Thread;
  running_thread_ids : list Z;
  has_events : bool;
  running : bool }.

(** A thread iterator: at an element, at the end, or the value read through the end
    of the process map. *)
Inductive thread_iter : Type := TAt (tid : Z) | TEnd | TGarbage.

Record thread_info : Type := mk_thread_info {
  valid : bool; process_iterator : option Z; thread_iterator : thread_iter }.

Record stub (W : Type) : Type := mk_stub {
  world : W;
  connection : GdbConnection.t;
  replies : list bytes;
  reg : registry;
  current_thread : option (Z * Z);
  attached_processes : omap Process;
  stop_reason : bytes;
  waiting_for_stop : bool;
  has_async_wait : bool;
  multiprocess_enabled : bool;
  get_thread_info : thread_info;
  thread_events_enabled : bool }.
Arguments mk_stub {W}. Arguments world {W}. Arguments connection {W}.
Arguments replies {W}. Arguments reg {W}. Arguments current_thread {W}.
Arguments attached_processes {W}. Arguments stop_reason {W}.
Arguments waiting_for_stop {W}. Arguments has_async_wait {W}.
Arguments multiprocess_enabled {W}. Arguments get_thread_info {W}.
Arguments thread_events_enabled {W}.

(** Assignments to fields. *)
Section setters.
Context {W : Type}.
Implicit Types s : stub W.
Definition set_world s (w : W) := mk_stub w (connection s) (replies s) (reg s)
  (current_thread s) (attached_processes s) (stop_reason s) (waiting_for_stop s)
  (has_async_wait s) (multiprocess_enabled s) (get_thread_info s) (thread_events_enabled s).
Definition set_connection s c : stub W := mk_stub (world s) c (replies s) (reg s)
  (current_thread s) (attached_processes s) (stop_reason s) (waiting_for_stop s)
  (has_async_wait s) (multiprocess_enabled s) (get_thread_info s) (thread_events_enabled s).
Definition add_reply s r := mk_stub (world s) (connection s) (replies s ++ [r]) (reg s)
  (current_thread s) (attached_processes s) (stop_reason s) (waiting_for_stop s)
  (has_async_wait s) (multiprocess_enabled s) (get_thread_info s) (thread_events_enabled s).
Definition set_current s c := mk_stub (world s) (connection s) (replies s) (reg s)
  c (attached_processes s) (stop_reason s) (waiting_for_stop s)
  (has_async_wait s) (multiprocess_enabled s) (get_thread_info s) (thread_events_enabled s).
Definition set_processes s m := mk_stub (world s) (connection s) (replies s) (reg s)
  (current_thread s) m (stop_reason s) (waiting_for_stop s)
  (has_async_wait s) (multiprocess_enabled s) (get_thread_info s) (thread_events_enabled s).
Definition set_stop_reason s r := mk_stub (world s) (connection s) (replies s) (reg s)
  (current_thread s) (attached_processes s) r (waiting_for_stop s)
  (has_async_wait s) (multiprocess_enabled s) (get_thread_info s) (thread_events_enabled s).
Definition set_waiting s b := mk_stub (world s) (connection s) (replies s) (reg s)
  (current_thread s) (attached_processes s) (stop_reason s) b
  (has_async_wait s) (multiprocess_enabled s) (get_thread_info s) (thread_events_enabled s).
Definition set_async s b := mk_stub (world s) (connection s) (replies s) (reg s)
  (current_thread s) (attached_processes s) (stop_reason s) (waiting_for_stop s)
  b (multiprocess_enabled s) (get_thread_info s) (thread_events_enabled s).
Definition set_multiprocess s b := mk_stub (world s) (connection s) (replies s) (reg s)
  (current_thread s) (attached_processes s) (stop_reason s) (waiting_for_stop s)
  (has_async_wait s) b (get_thread_info s) (thread_events_enabled s).
Definition set_info s i := mk_stub (world s) (connection s) (replies s) (reg s)
  (current_thread s) (attached_processes s) (stop_reason s) (waiting_for_stop s)
  (has_async_wait s) (multiprocess_enabled s) i (thread_events_enabled s).
Definition set_events s b := mk_stub (world s) (connection s) (replies s) (reg s)
  (current_thread s) (attached_processes s) (stop_reason s) (waiting_for_stop s)
  (has_async_wait s) (multiprocess_enabled s) (get_thread_info s) b.
(** [get_thread_info.valid = false]. *)
Definition invalidate s := set_info s (mk_thread_info false
  (process_iterator (get_thread_info s)) (thread_iterator (get_thread_info s))).
Definition update_process s p (f : Process → Process) :=
  match om_find p (attached_processes s) with
  | Some q => set_processes s (om_set p (f q) (attached_processes s))
  | None => s
  end.
End setters.

Definition set_threads (p : Process) (ts : omap Thread) (ids : list Z) : Process :=
  mk_Process (pid p) (debugger p) ts ids (has_events p) (running p).
Definition set_running (p : Process) (b : bool) : Process :=
  mk_Process (pid p) (debugger p) (threads p) (running_thread_ids p) (has_events p) b.
Definition set_running_ids (p : Process) (ids : list Z) : Process :=
  mk_Process (pid p) (debugger p) (threads p) ids (has_events p) (running p).
Definition set_has_events (p : Process) : Process :=
  mk_Process (pid p) (debugger p) (threads p) (running_thread_ids p) true (running p).

(** ** The constructor *)

Definition AdvertiseRead (o : XferObject) : bool := match o with xfer_libraries => true end.
Definition AdvertiseWrite (o : XferObject) : bool := match o with xfer_libraries => false end.

(** [unordered_map::find] and [emplace] (which keeps an element that is there). *)
Fixpoint assoc {A} (k : bytes) (m : list (bytes * A)) : option A :=
  match m with
  | [] => None
  | (k', a) :: m => if decide (k' = k) then Some a else assoc k m
  end.
Definition emplace {A} (k : bytes) (a : A) (m : list (bytes * A)) : list (bytes * A) :=
  match assoc k m with Some _ => m | None => m ++ [(k, a)] end.

Definition AddFeature (f : bytes) (r : registry) : registry :=
  mk_registry (features r ++ [f]) (gettable_queries r) (settable_queries r)
    (multiletter_handlers r) (xfer_objects r).
Definition AddGettableQuery (q : Query GetQuery) (r : registry) : registry :=
  let r := mk_registry (features r) (emplace (field q) q (gettable_queries r))
             (settable_queries r) (multiletter_handlers r) (xfer_objects r) in
  if should_advertise q then AddFeature (str "q" ++ field q ++ str "+") r else r.
Definition AddSettableQuery (q : Query SetQuery) (r : registry) : registry :=
  let r := mk_registry (features r) (gettable_queries r)
             (emplace (field q) q (settable_queries r)) (multiletter_handlers r)
             (xfer_objects r) in
  if should_advertise q then AddFeature (str "Q" ++ field q ++ str "+") r else r.
Definition AddMultiletterHandler (name : bytes) (h : Multiletter) (r : registry) : registry :=
  mk_registry (features r) (gettable_queries r) (settable_queries r)
    (emplace name h (multiletter_handlers r)) (xfer_objects r).
Definition AddXferObject (name : bytes) (o : XferObject) (r : registry) : registry :=
  let r := mk_registry (features r) (gettable_queries r) (settable_queries r)
             (multiletter_handlers r) (emplace name o (xfer_objects r)) in
  let r := if AdvertiseRead o
           then AddFeature (str "qXfer:" ++ name ++ str ":read+") r else r in
  if AdvertiseWrite o then AddFeature (str "qXfer:" ++ name ++ str ":write+") r else r.

Definition empty_registry : registry := mk_registry [] [] [] [] [].
Definition GdbStub_registry : registry :=
  let q n v sep := AddGettableQuery (mk_Query n v false sep) in
  let s n v := AddSettableQuery (mk_Query n v true (ch ":")) in
  AddXferObject (str "libraries") xfer_libraries
  (AddMultiletterHandler (str "Cont") VCont
  (AddMultiletterHandler (str "Cont?") VContQuery
  (AddMultiletterHandler (str "Attach") VAttach
  (s (str "ThreadEvents") QThreadEvents
  (s (str "StartNoAckMode") QStartNoAckMode
  (q (str "Xfer") QXfer (ch ":")
  (q (str "Rcmd") QRemoteCommand (ch ",")
  (q (str "Offsets") QOffsets (ch ":")
  (q (str "ThreadExtraInfo") QThreadExtraInfo (ch ",")
  (q (str "sThreadInfo") QSThreadInfo (ch ":")
  (q (str "fThreadInfo") QFThreadInfo (ch ":")
  (q (str "C") QCurrentThread (ch ":")
  (q (str "Supported") QSupported (ch ":") empty_registry))))))))))))).

Definition init {W} (w : W) : stub W :=
  mk_stub w GdbConnection.init [] GdbStub_registry None [] (str "W00") false false false
    (mk_thread_info false None TEnd) false.

Definition ShiftPid (pid : Z) : Z := if pid =? 0 then 512 else pid.
Definition UnshiftPid (pid : Z) : Z := if pid =? 512 then 0 else pid.

Definition Process_new (pid debugger : Z) : Process := mk_Process pid debugger [] [] false false.

(** ** Handlers *)

Section handlers.
Context {W : Type} `{HD : ITwibDebugger W} `{HI : ITwibDeviceInterface W}.
(** The object representation of a [std::string] with a given text. *)
Context (string_object : bytes → bytes).
(** Bounds the loops that wait on the device. *)
Context (fuel : nat).
Implicit Types s : stub W.

Definition Respond s (buffer : bytes) : stub W := add_reply s buffer.
Definition RespondEmpty s : stub W := Respond s GdbConnection.payload_Empty.
Definition RespondError s (no : Z) : stub W := Respond s (GdbConnection.payload_Error no).
Definition RespondOk s : stub W := Respond s GdbConnection.payload_Ok.

(** Following [current_thread] or a reference to a process. *)
Definition deref_process s (p : Z) : outcome Process :=
  match om_find p (attached_processes s) with Some q => Done q | None => Undefined end.
Definition deref_current s : outcome (Process * Thread) :=
  match current_thread s with
  | None => Undefined
  | Some (p, t) =>
      q ← deref_process s p;
      match om_find t (threads q) with Some th => Done (q, th) | None => Undefined end
  end.
(** A request, its error caught by the caller or not. *)
Definition request {A} s (m : W → W * (A + Z)) : stub W * (A + Z) :=
  let '(w, r) := m (world s) in (set_world s w, r).
Definition uncaught {A} (x : stub W * (A + Z)) : outcome (stub W * A) :=
  match x with
  | (s, inl a) => Done (s, a)
  | (s, inr c) => Throws (ResultError c)
  end.

Definition i64 (z : Z) : Z := if z <? 2 ^ 63 then z else z - 2 ^ 64.

(** [None] for the pid is the current process, whose pointer is followed. *)
Definition ReadThreadId s (packet : bytes) : outcome (Z * Z * bytes) :=
  pid ← match current_thread s with
        | None => Done 0
        | Some _ => '(q, _) ← deref_current s; Done (i64 (pid q))
        end;
  let '(pid, packet) :=
    match packet with
    | c :: packet' =>
        if decide (c = ch "p") then
          match packet' with
          | d :: packet'' =>
              if decide (d = ch "-") then (-1, packet'')
              else let '(n, r) := GdbConnection.DecodeWithSeparator (ch ".") packet' in
                   (i64 n, r)
          | [] => (i64 0, [])
          end
        else (pid, packet)
    | [] => (pid, packet)
    end in
  match packet with
  | d :: packet' =>
      if decide (d = ch "-") then Done (pid, -1, packet')
      else Done (pid, i64 (GdbConnection.Decode packet), [])
  | [] => Done (pid, 0, [])
  end.

Definition HandleGetStopReason s : stub W := Respond s (stop_reason s).
Definition Stop s : stub W := HandleGetStopReason (set_waiting s false).

Definition HandleIsThreadAlive s (packet : bytes) : stub W := RespondOk s.

Definition HandleDetach s (packet : bytes) : outcome (stub W) :=
  match packet with
  | c :: packet =>
      if decide (c ≠ ch ";") then Done (RespondError s 1)
      else
        let p := GdbConnection.Decode packet in
        '(q, _) ← deref_current s;
        let s := if pid q =? p then set_current s None else s in
        let s := invalidate s in
        let s := set_processes s (om_erase p (attached_processes s)) in
        Done (RespondOk (set_stop_reason s (str "W00")))
  | [] =>
      let s := set_processes (invalidate (set_current s None)) [] in
      Done (RespondOk (set_stop_reason s (str "W00")))
  end.

(** Thread::GetRegisters and SetRegisters. *)
Definition GetRegisters (q : Process) (t : Thread) : W → W * (ThreadContext + Z) :=
  GetThreadContext (debugger q) (thread_id t).
Definition SetRegisters (q : Process) (t : Thread) (tc : ThreadContext) :
    W → W * (unit + Z) :=
  SetThreadContext (debugger q) (thread_id t) tc.

Definition HandleReadGeneralRegisters s : outcome (stub W) :=
  match current_thread s with
  | None => Done (RespondError s 1)
  | Some _ =>
      '(q, t) ← deref_current s;
      match request s (GetRegisters q t) with
      | (s, inl tc) =>
          Done (Respond s (GdbConnection.Encode_bytes (tc_x tc) ++
                           GdbConnection.Encode_bytes (tc_fpr tc)))
      | (s, inr code) => Done (RespondError s code)
      end
  end.

(** The two guards report an error and go on. *)
Definition HandleWriteGeneralRegisters s (packet : bytes) : outcome (stub W) :=
  let s := match current_thread s with None => RespondError s 1 | Some _ => s end in
  let registers := GdbConnection.Decode_bytes packet in
  let s := if zlen registers <? 788 then RespondError s 1 else s in
  if zlen registers <? 268 + 520 then Undefined
  else
    let tc := mk_ThreadContext (ztake 268 registers) 0 (ztake 520 (zdrop 268 registers)) 0 in
    '(q, t) ← deref_current s;
    match request s (SetRegisters q t tc) with
    | (s, inl _) => Done (RespondOk s)
    | (s, inr code) => Done (RespondError s code)
    end.

Definition HandleSetCurrentThread s (packet : bytes) : outcome (stub W) :=
  if zlen packet <? 2 then Done (RespondError s 1)
  else match packet with
  | [] => Done (RespondError s 1)
  | op :: packet =>
      '(p, tid, _) ← ReadThreadId s packet;
      let proc :=
        if p =? 0 then (fun x => x.2) <$> head (attached_processes s)
        else om_find (u64 p) (attached_processes s) in
      match proc with
      | None => Done (RespondError s 1)
      | Some proc =>
          if tid =? 0 then
            (* the address of [*threads.begin()], read by the log message *)
            match threads proc with
            | [] => Undefined
            | (t, _) :: _ => Done (RespondOk (set_current s (Some (pid proc, t))))
            end
          else
            match om_find (u64 tid) (threads proc) with
            | None => Done (RespondError s 1)
            | Some _ => Done (RespondOk (set_current s (Some (pid proc, u64 tid))))
            end
      end
  end.

Definition HandleReadMemory s (packet : bytes) : outcome (stub W) :=
  let '(address, packet) := GdbConnection.DecodeWithSeparator (ch ",") packet in
  let size := GdbConnection.Decode packet in
  match current_thread s with
  | None => Done (RespondError s 1)
  | Some _ =>
      '(q, _) ← deref_current s;
      match request s (ReadMemory (debugger q) address size) with
      | (s, inl mem) => Done (Respond s (GdbConnection.Encode_bytes mem))
      | (s, inr code) => Done (RespondError s code)
      end
  end.

(** The log message reads four bytes of the data whatever its size. *)
Definition HandleWriteMemory s (packet : bytes) : outcome (stub W) :=
  let '(address, packet) := GdbConnection.DecodeWithSeparator (ch ",") packet in
  let '(size, packet) := GdbConnection.DecodeWithSeparator (ch ":") packet in
  match current_thread s with
  | None => Done (RespondError s 1)
  | Some _ =>
      let data := GdbConnection.Decode_bytes packet in
      if negb (zlen data =? size) then Done (RespondError s 1)
      else if zlen data <? 4 then Undefined
      else
        '(q, _) ← deref_current s;
        match request s (WriteMemory (debugger q) address data) with
        | (s, inl _) => Done (RespondOk s)
        | (s, inr code) => Done (RespondError s code)
        end
  end.

(** ** Debug events *)

Record ingest : Type := mk_ingest {
  ig_stub : stub W; ig_style : byte; ig_signal : Z; ig_thread : Z; ig_stopped : bool }.

Definition signal_of (e : ExceptionType) (signal : Z) : Z :=
  match e with
  | Trap => 5
  | InstructionAbort => 145
  | DataAbortMisc => 11
  | PcSpAlignmentFault => 145
  | DebuggerAttached => 0
  | BreakPoint => 5
  | UserBreak => 149
  | DebuggerBreak => 2
  | BadSvcId => 12
  | SError => 10
  | UnknownException => signal
  end.

(** The body of the event loop of [Process::IngestEvents] on process [p]. *)
Definition ingest_event (p : Z) (g : ingest) (e : DebugEvent) : outcome ingest :=
  q ← deref_process (ig_stub g) p;
  let s := update_process (ig_stub g) p (fun q => set_running q false) in
  let q := set_running q false in
  let tid := event_thread_id e in
  match event_type e with
  | AttachProcess => Done (mk_ingest s (ig_style g) (ig_signal g) tid (ig_stopped g))
  | AttachThread tid tls =>
      let s := update_process s p (fun q =>
        set_threads q (om_emplace tid (mk_Thread tid tls) (threads q))
          (running_thread_ids q ++ [tid])) in
      let s := invalidate s in
      if thread_events_enabled s then Done (mk_ingest s (ig_style g) 5 tid true)
      else Done (mk_ingest s (ig_style g) (ig_signal g) tid (ig_stopped g))
  | ExitProcess => Done (mk_ingest s (ch "W") 0 tid true)
  | ExitThread =>
      let s :=
        match om_find tid (threads q) with
        | Some _ =>
            let s := if decide (current_thread s = Some (p, tid))
                     then set_current s None else s in
            invalidate (update_process s p (fun q =>
              set_threads q (om_erase tid (threads q))
                (List.filter (fun i => negb (i =? tid)) (running_thread_ids q))))
        | None => s
        end in
      if thread_events_enabled s then Done (mk_ingest s (ch "w") 0 tid true)
      else Done (mk_ingest s (ig_style g) (ig_signal g) tid (ig_stopped g))
  | Exception ty => Done (mk_ingest s (ig_style g) (signal_of ty (ig_signal g)) tid true)
  | UnknownEvent => Done (mk_ingest s (ig_style g) (ig_signal g) tid (ig_stopped g))
  end.

Fixpoint ingest_loop (n : nat) (p : Z) (g : ingest) : outcome ingest :=
  match n with
  | O => OutOfFuel
  | S n =>
      if ig_stopped g then Done g
      else
        q ← deref_process (ig_stub g) p;
        '(s, e) ← uncaught (request (ig_stub g) (GetDebugEvent (debugger q)));
        let g := mk_ingest s (ig_style g) (ig_signal g) (ig_thread g) (ig_stopped g) in
        match e with
        | None => Done g
        | Some e => g ← ingest_event p g e; ingest_loop n p g
        end
  end.

Definition stop_text (p : Z) (g : ingest) : bytes :=
  let style := ig_style g in
  if decide (style = ch "T") then
    [ch "T"] ++ GdbConnection.Encode (ig_signal g) 1 ++
    (if ig_thread g =? 0 then []
     else str "thread:p" ++ GdbConnection.Encode p 0 ++ str "." ++
          GdbConnection.Encode (ig_thread g) 0 ++ str ";")
  else if decide (style = ch "W") then [ch "W"] ++ GdbConnection.Encode (ig_signal g) 1
  else if decide (style = ch "w") then
    [ch "w"] ++ GdbConnection.Encode (ig_signal g) 1 ++ str ";p" ++
    GdbConnection.Encode p 0 ++ str "." ++ GdbConnection.Encode (ig_thread g) 0
  else str "T05".

Definition IngestEvents s (p : Z) : outcome (stub W * bool) :=
  q ← deref_process s p;
  let was_running := running q in
  g ← ingest_loop fuel p (mk_ingest s (ch "T") 0 0 false);
  let s := ig_stub g in
  q ← deref_process s p;
  let s := if ig_stopped g then set_stop_reason s (stop_text (pid q) g) else s in
  let s := if has_async_wait s then s
           else set_async (set_world s (AsyncWait (debugger q) (world s))) true in
  if was_running && negb (running q) && negb (ig_stopped g) then
    '(s, _) ← uncaught (request s (ContinueDebugEvent (debugger q) 7 (running_thread_ids q)));
    Done (update_process s p (fun q => set_running q true), false)
  else Done (s, ig_stopped g).

(** The callback given to [AsyncWait] for the process whose debugger is [h]. *)
Definition async_wait_done s (h r : Z) : stub W :=
  let s := set_async s false in
  if r =? 0 then
    set_processes s (map (fun '(k, q) => (k, if debugger q =? h then set_has_events q else q))
                       (attached_processes s))
  else s.

(** ** Multi-letter packets *)

Definition HandleVAttach s (packet : bytes) : outcome (stub W) :=
  let p := GdbConnection.Decode packet in
  match om_find p (attached_processes s) with
  | Some _ => Done (RespondError s 1)
  | None =>
      if negb (multiprocess_enabled s) && (0 <? zlen (attached_processes s))
      then Done (RespondError s 1)
      else
        '(s, h) ← uncaught (request s (OpenActiveDebugger (UnshiftPid p)));
        let s := set_processes s (om_emplace p (Process_new p h) (attached_processes s)) in
        '(s, _) ← IngestEvents s p;
        q ← deref_process s p;
        s ← match threads q with
            | [] =>
                let '(s, _) := request s (LaunchDebugProcess (debugger q)) in
                '(s, _) ← IngestEvents s p; Done s
            | _ => Done s
            end;
        Done (HandleGetStopReason s)
  end.

(** [response.Write(std::string("vCont;c;C"))]: the argument is an rvalue, which
    does not bind to [Write(std::string &)], so the template overload copies the
    string object itself. *)
Definition HandleVContQuery s (packet : bytes) : stub W :=
  Respond s (string_object (str "vCont;c;C")).

Abbreviation actions := (omap (omap unit)).

(** [process_actions.insert({p, {}}).first->second], then an [insert] per thread. *)
Definition add_actions (a : actions) (p : Z) (tids : list Z) : actions :=
  let a := om_emplace p [] a in
  match om_find p a with
  | Some ts => om_set p (foldl (fun ts t => om_emplace t tt ts) ts tids) a
  | None => a
  end.

(** One action: [None] is the early return. *)
Definition vcont_action s (action tid_text : bytes) (a : actions) :
    outcome (option actions) :=
  match action with
  | [] => Done None
  | c :: _ =>
      if bool_decide (c = ch "C") || bool_decide (c = ch "c") then
        '(p, tid) ← match tid_text with
                    | [] => Done (-1, -1)
                    | _ => '(p, tid, _) ← ReadThreadId s tid_text; Done (p, tid)
                    end;
        if p =? -1 then
          Done (Some (foldl (fun a '(k, q) => add_actions a k (map fst (threads q))) a
                        (attached_processes s)))
        else
          match om_find (u64 p) (attached_processes s) with
          | None => Done (Some a)
          | Some q =>
              if tid =? -1 then Done (Some (add_actions a (u64 p) (map fst (threads q))))
              else Done (Some (add_actions a (u64 p)
                     (match om_find (u64 tid) (threads q) with
                      | Some _ => [u64 tid]
                      | None => []
                      end)))
          end
      else Done (Some a)
  end.

(** The parsing loop; [None] when it has answered with an error. *)
Fixpoint vcont_parse s (packet action tid_text : bytes) (reading_action : bool)
    (a : actions) : outcome (option actions) :=
  match packet with
  | [] => vcont_action s action tid_text a
  | c :: packet =>
      if decide (c = ch ";") then
        r ← vcont_action s action tid_text a;
        match r with
        | None => Done None
        | Some a => vcont_parse s packet [] [] true a
        end
      else if decide (c = ch ":") then vcont_parse s packet action tid_text false a
      else if reading_action then vcont_parse s packet (action ++ [c]) tid_text true a
      else vcont_parse s packet action (tid_text ++ [c]) false a
  end.

(** Continuing the processes in order; [true] when one of them had stopped. *)
Fixpoint vcont_run s (a : actions) : outcome (stub W * bool) :=
  match a with
  | [] => Done (s, false)
  | (p, ts) :: a =>
      match om_find p (attached_processes s) with
      | None => vcont_run s a
      | Some _ =>
          '(s, stopped) ← IngestEvents s p;
          if stopped : bool then Done (s, true)
          else
            q ← deref_process s p;
            let ids := List.filter (fun t => bool_decide (is_Some (om_find t (threads q))))
                         (map fst ts) in
            let s := update_process s p (fun q => set_running_ids q ids) in
            '(s, _) ← uncaught (request s (ContinueDebugEvent (debugger q) 7 ids));
            vcont_run (update_process s p (fun q => set_running q true)) a
      end
  end.

Definition HandleVCont s (packet : bytes) : outcome (stub W) :=
  r ← vcont_parse s packet [] [] true [];
  match r with
  | None => Done (RespondError s 1)
  | Some a =>
      '(s, stopped) ← vcont_run s a;
      if stopped : bool then Done (Stop s) else Done (set_waiting s true)
  end.

(** ** Queries *)

(** The features GDB sends, split at semicolons. *)
Fixpoint read_features (n : nat) (packet : bytes) : list bytes :=
  match n, packet with
  | S n, _ :: _ => let '(f, packet) := read_until (ch ";") packet in
                   f :: read_features n packet
  | _, _ => []
  end.
Definition QueryGetSupported s (packet : bytes) : stub W :=
  let s := foldl (fun s f => if decide (f = str "multiprocess+")
                             then set_multiprocess s true else s)
             s (read_features (length packet) packet) in
  let response :=
    match features (reg s) with
    | [] => []
    | f :: fs => foldl (fun r f => r ++ str ";" ++ f) f fs
    end in
  Respond s response.

Definition QueryGetCurrentThread s (packet : bytes) : outcome (stub W) :=
  '(p, t) ← match current_thread s with
            | None => Done (0, 0)
            | Some _ => '(q, th) ← deref_current s; Done (pid q, thread_id th)
            end;
  Done (Respond s ((if multiprocess_enabled s
                    then str "p" ++ GdbConnection.Encode p 0 ++ str "." else []) ++
                   GdbConnection.Encode t 0)).

Definition list_thread (multi : bool) (p : Z) (response : bytes) (t : Thread) : bytes :=
  response ++ (match response with [] => str "m" | _ => str "," end) ++
  (if multi then str "p" ++ GdbConnection.Encode p 0 ++ str "." else []) ++
  GdbConnection.Encode (thread_id t) 0.
Definition list_threads (multi : bool) (p : Z) (response : bytes) (ts : omap Thread) : bytes :=
  foldl (fun r '(_, t) => list_thread multi p r t) response ts.

(** [threads.begin()] of the process an iterator of [attached_processes] points to; the end
    iterator points to none. *)
Definition threads_begin (ps : omap Process) : outcome thread_iter :=
  match ps with
  | [] => Undefined
  | (_, q) :: _ => Done (match threads q with [] => TEnd | (t, _) :: _ => TAt t end)
  end.
(** The threads from an iterator on. *)
Definition threads_from (q : Process) (it : thread_iter) : outcome (omap Thread) :=
  match it with
  | TAt t => match om_from t (threads q) with [] => Undefined | ts => Done ts end
  | TEnd => Done []
  | TGarbage => Undefined
  end.
(** The loop over the processes from the iterator on: it ends with the process iterator at the
    end, and then still asks it for its threads. *)
Fixpoint process_loop (multi : bool) (ps : omap Process) (it : thread_iter) (response : bytes) :
    outcome bytes :=
  match ps with
  | [] => Done response
  | (_, q) :: rest =>
      ts ← threads_from q it;
      it ← threads_begin rest;
      process_loop multi rest it (list_threads multi (pid q) response ts)
  end.

Definition QueryGetSThreadInfo s (packet : bytes) : outcome (stub W) :=
  let info := get_thread_info s in
  if negb (valid info) then Done (RespondError s 1)
  else
    response ←
      match process_iterator info with
      | None => Done []
      | Some p =>
          match om_from p (attached_processes s) with
          | [] => Undefined
          | ps => process_loop (multiprocess_enabled s) ps (thread_iterator info) []
          end
      end;
    let it := match process_iterator info with
              | None => thread_iterator info | Some _ => TGarbage end in
    match response with
    | [] => Done (Respond (set_info s (mk_thread_info false None it)) (str "l"))
    | _ => Done (Respond (set_info s (mk_thread_info true None it)) response)
    end.

Definition QueryGetFThreadInfo s (packet : bytes) : outcome (stub W) :=
  it ← threads_begin (attached_processes s);
  QueryGetSThreadInfo
    (set_info s (mk_thread_info true (fst <$> head (attached_processes s)) it)) packet.

(** The first eight bytes of a vector as an integer, whatever its size. *)
Definition read_u64 (v : bytes) : outcome Z :=
  if zlen v <? 8 then Undefined else Done (le_combine (ztake 8 v)).

(** The loop over the chunks of a thread's name from index [i] of [name]. *)
Fixpoint name_loop (n : nat) s (h addr : Z) (name : bytes) (i : Z) (extra : bytes) :
    outcome (stub W * (bytes + bytes)) :=
  match n with
  | O => OutOfFuel
  | S n =>
      match name !! Z.to_nat i with
      | None => Done (s, inl name)
      | Some c =>
          if decide (c = Byte.x00) then Done (s, inl name)
          else
            let extra := extra ++ [c] in
            if i =? zlen name - 1 then
              let addr := u64 (addr + zlen name) in
              match request s (ReadMemory h addr 64) with
              | (s, inl name) => name_loop n s h addr name 1 extra
              | (s, inr _) => Done (s, inr extra)
              end
            else name_loop n s h addr name (i + 1) extra
      end
  end.

(** The vector as a C string: up to the first zero byte of the vector. *)
Definition c_string (v : bytes) : outcome bytes :=
  if decide (Byte.x00 ∈ v) then Done (fst (read_until Byte.x00 v)) else Undefined.

(** The [try] block; what is left of [extra_info] when it throws. *)
Definition thread_name s (q : Process) (t : Thread) : outcome (stub W * bytes) :=
  match request s (ReadMemory (debugger q) (u64 (tls_addr t + 504)) 8) with
  | (s, inr _) => Done (s, [])
  | (s, inl v) =>
      tls_ctx_addr ← read_u64 v;
      match request s (ReadMemory (debugger q) (u64 (tls_ctx_addr + 424)) 8) with
      | (s, inr _) => Done (s, [])
      | (s, inl v) =>
          name_addr ← read_u64 v;
          if name_addr =? 0 then Done (s, [])
          else
            match request s (ReadMemory (debugger q) name_addr 64) with
            | (s, inr _) => Done (s, [])
            | (s, inl name) =>
                r ← name_loop fuel s (debugger q) name_addr name 0 [];
                match r with
                | (s, inl name) => l ← c_string name; Done (s, l)
                | (s, inr extra) => Done (s, extra)
                end
            end
      end
  end.

Definition QueryGetThreadExtraInfo s (packet : bytes) : outcome (stub W) :=
  '(p, tid, _) ← ReadThreadId s packet;
  match om_find (u64 p) (attached_processes s) with
  | None => Done (RespondError s 1)
  | Some q =>
      match om_find (u64 tid) (threads q) with
      | None => Done (RespondError s 1)
      | Some t =>
          '(s, extra_info) ← thread_name s q t;
          let extra_info := match extra_info with [] => str "?" | _ => extra_info end in
          Done (Respond s (GdbConnection.Encode_bytes extra_info))
      end
  end.

Definition QueryGetOffsets s (packet : bytes) : outcome (stub W) :=
  match current_thread s with
  | None => Done (RespondError s 1)
  | Some _ =>
      '(q, _) ← deref_current s;
      '(s, addr) ← uncaught (request s (GetTargetEntry (debugger q)));
      Done (Respond s (str "TextSeg=" ++ GdbConnection.Encode addr 8))
  end.

(** The text of the response, an exception caught by the handler being [inr]:
    a target error's code or an invalid argument. *)
Definition remote_command s (message : bytes) : outcome (stub W * bytes) :=
  let '(command, message) := read_until (ch " ") message in
  let syntax_error := str "Syntax error: expected end of input" ++ endl in
  let target_error (c : Z) := str "Target error: 0x" ++ hex c ++ endl in
  if decide (command = str "help") then
    Done (s, str "Available commands:" ++ endl ++ str "  - get base" ++ endl ++
             str "  - wait application" ++ endl ++
             str "  - wait title <title id>" ++ endl)
  else if decide (command = str "wait") then
    let '(wait_for, message) := read_until (ch " ") message in
    if decide (wait_for = str "application") then
      match message with
      | _ :: _ => Done (s, syntax_error)
      | [] =>
          match request s WaitToDebugApplication with
          | (s, inl p) => Done (s, str "PID: 0x" ++ hex p ++ endl)
          | (s, inr c) => Done (s, target_error c)
          end
      end
    else
      let '(tid_str, message) := read_until (ch " ") message in
      match message with
      | _ :: _ => Done (s, syntax_error)
      | [] =>
          match stoull16 tid_str with
          | inr invalid_argument => Done (s, str "Invalid argument." ++ endl)
          | inr e => Throws e
          | inl tid =>
              match request s (WaitToDebugTitle tid) with
              | (s, inl p) => Done (s, str "PID: 0x" ++ hex p ++ endl)
              | (s, inr c) => Done (s, target_error c)
              end
          end
      end
  else if decide (command = str "get") then
    let '(get_what, message) := read_until (ch " ") message in
    if decide (get_what = str "base") then
      match message, current_thread s with
      | _ :: _, _ => Done (s, syntax_error)
      | [], None => Done (s, str "no thread selected" ++ endl)
      | [], Some _ =>
          '(q, _) ← deref_current s;
          match request s (GetTargetEntry (debugger q)) with
          | (s, inl a) => Done (s, str "aslr base (best guess): 0x" ++ hex a ++ endl)
          | (s, inr c) => Done (s, target_error c)
          end
      end
    else Done (s, str "Unknown value '" ++ get_what ++ str "'" ++ endl)
  else Done (s, str "Unknown command '" ++ command ++ str "'" ++ endl).

Definition QueryGetRemoteCommand s (packet : bytes) : outcome (stub W) :=
  let message := GdbConnection.Decode_buffer [] packet in
  '(s, response) ← remote_command s message;
  Done (Respond s (GdbConnection.Encode_bytes response)).

(** ** Transfer objects *)

Definition quote : bytes := [Byte.x22].
Definition library (type : bytes) (info : LoadedModuleInfo) : bytes :=
  let id := GdbConnection.Encode_bytes (build_id info) in
  str "  <library" ++ str " name=" ++ quote ++ id ++ quote ++
  str " build_id=" ++ quote ++ id ++ quote ++
  str " type=" ++ quote ++ type ++ quote ++ str ">" ++ endl ++
  str "    <segment address=" ++ quote ++ str "0x" ++ hex (base_addr info) ++ quote ++
  str " />" ++ endl ++ str "  </library>" ++ endl.

(** A lone module is the main one; of several, the second is. *)
Definition skip_main (nsos : list LoadedModuleInfo) : list LoadedModuleInfo :=
  match nsos with
  | [] | [_] => []
  | rtld :: _ :: rest => rtld :: rest
  end.

Definition BuildLibraryList s (q : Process) : stub W * bytes :=
  let '(s, nsos) :=
    match request s (GetNsoInfos (debugger q)) with
    | (s, inl nsos) => (s, skip_main nsos ≫= library (str "nso"))
    | (s, inr _) => (s, [])
    end in
  let '(s, nros) :=
    match request s (GetNroInfos (debugger q)) with
    | (s, inl nros) => (s, nros ≫= library (str "nro"))
    | (s, inr _) => (s, [])
    end in
  (s, str "<library-list>" ++ endl ++ nsos ++ nros ++ str "</library-list>" ++ endl).

Definition XferReadLibraries s : outcome (stub W * bytes) :=
  match current_thread s with
  | None => Done (s, str "<library-list></library-list>")
  | Some _ => '(q, _) ← deref_current s; Done (BuildLibraryList s q)
  end.

Definition generator (o : XferObject) : stub W → outcome (stub W * bytes) :=
  match o with xfer_libraries => XferReadLibraries end.

(** The part of a string that a read at [offset] answers with, [string.size() -
    offset] wrapping around. *)
Definition xfer_slice (string : bytes) (offset length : Z) : outcome bytes :=
  let mark := if zlen string <=? u64 (offset + length) then str "l" else str "m" in
  let n := Z.min (u64 (zlen string - offset)) length in
  if (n =? 0) || (offset + n <=? zlen string)
  then Done (mark ++ ztake n (zdrop offset string)) else Undefined.

(** ReadOnlyStringXferObject::Read and Write. *)
Definition Read (o : XferObject) s (annex : bytes) (offset length : Z) : outcome (stub W) :=
  match annex with
  | _ :: _ => Done (RespondError s 0)
  | [] =>
      '(s, string) ← generator o s;
      response ← xfer_slice string offset length;
      Done (Respond s response)
  end.
Definition Write (o : XferObject) s (annex : bytes) (offset : Z) (data : bytes) : stub W :=
  RespondError s 30.

Definition QueryXfer s (packet : bytes) : outcome (stub W) :=
  let '(object_name, packet) := read_until (ch ":") packet in
  match assoc object_name (xfer_objects (reg s)) with
  | None => Done (RespondEmpty s)
  | Some o =>
      let '(op, packet) := read_until (ch ":") packet in
      if decide (op = str "read") then
        let '(annex, packet) := read_until (ch ":") packet in
        let '(offset, packet) := GdbConnection.DecodeWithSeparator (ch ",") packet in
        Read o s annex offset (GdbConnection.Decode packet)
      else if decide (op = str "write") then
        let '(annex, packet) := read_until (ch ":") packet in
        let '(offset, packet) := GdbConnection.DecodeWithSeparator (ch ":") packet in
        Done (Write o s annex offset packet)
      else Done (RespondEmpty s)
  end.

(** ** Settings *)

Definition QuerySetStartNoAckMode s (packet : bytes) : stub W :=
  RespondOk (set_connection s (GdbConnection.StartNoAckMode (connection s))).

Definition QuerySetThreadEvents s (packet : bytes) : stub W :=
  match packet with
  | [] => RespondError s 1
  | c :: _ =>
      if decide (c = ch "0") then RespondOk (set_events s false)
      else if decide (c = ch "1") then RespondOk (set_events s true)
      else RespondError s 1
  end.

(** ** Dispatch *)

Definition invoke_get (v : GetQuery) s (packet : bytes) : outcome (stub W) :=
  match v with
  | QSupported => Done (QueryGetSupported s packet)
  | QCurrentThread => QueryGetCurrentThread s packet
  | QFThreadInfo => QueryGetFThreadInfo s packet
  | QSThreadInfo => QueryGetSThreadInfo s packet
  | QThreadExtraInfo => QueryGetThreadExtraInfo s packet
  | QOffsets => QueryGetOffsets s packet
  | QRemoteCommand => QueryGetRemoteCommand s packet
  | QXfer => QueryXfer s packet
  end.
Definition invoke_set (v : SetQuery) s (packet : bytes) : stub W :=
  match v with
  | QStartNoAckMode => QuerySetStartNoAckMode s packet
  | QThreadEvents => QuerySetThreadEvents s packet
  end.
Definition invoke_multiletter (v : Multiletter) s (packet : bytes) : outcome (stub W) :=
  match v with
  | VAttach => HandleVAttach s packet
  | VContQuery => Done (HandleVContQuery s packet)
  | VCont => HandleVCont s packet
  end.

(** The loop that looks the field up after each character and stops at the
    separator of the query found. *)
Fixpoint match_query {V} (qs : list (bytes * Query V)) (name : bytes)
    (i : option (Query V)) (packet : bytes) : option (Query V) * bytes :=
  match packet with
  | [] => (i, [])
  | c :: packet =>
      if match i with Some q => bool_decide (c = separator q) | None => false end
      then (i, packet)
      else match_query qs (name ++ [c]) (assoc (name ++ [c]) qs) packet
  end.

Definition HandleGeneralGetQuery s (packet : bytes) : outcome (stub W) :=
  match match_query (gettable_queries (reg s)) [] None packet with
  | (Some q, packet) => invoke_get (visitor q) s packet
  | (None, _) => Done (RespondEmpty s)
  end.
Definition HandleGeneralSetQuery s (packet : bytes) : outcome (stub W) :=
  match match_query (settable_queries (reg s)) [] None packet with
  | (Some q, packet) => Done (invoke_set (visitor q) s packet)
  | (None, _) => Done (RespondEmpty s)
  end.
Definition HandleMultiletterPacket s (packet : bytes) : outcome (stub W) :=
  let '(title, packet) := read_until (ch ";") packet in
  match assoc title (multiletter_handlers (reg s)) with
  | Some v => invoke_multiletter v s packet
  | None => Done (RespondEmpty s)
  end.

(** The [switch] of [Logic::Prepare] on the first character of a packet. *)
Definition HandlePacket s (ident : byte) (packet : bytes) : outcome (stub W) :=
  if decide (ident = ch "!") then Done (RespondOk s)
  else if decide (ident = ch "?") then Done (HandleGetStopReason s)
  else if decide (ident = ch "D") then HandleDetach s packet
  else if decide (ident = ch "g") then HandleReadGeneralRegisters s
  else if decide (ident = ch "G") then HandleWriteGeneralRegisters s packet
  else if decide (ident = ch "H") then HandleSetCurrentThread s packet
  else if decide (ident = ch "m") then HandleReadMemory s packet
  else if decide (ident = ch "M") then HandleWriteMemory s packet
  else if decide (ident = ch "q") then HandleGeneralGetQuery s packet
  else if decide (ident = ch "Q") then HandleGeneralSetQuery s packet
  else if decide (ident = ch "T") then Done (HandleIsThreadAlive s packet)
  else if decide (ident = ch "v") then HandleMultiletterPacket s packet
  else Done (RespondEmpty s).

(** The packet loop: [None] is the early return, otherwise whether the last
    [Process] reported an interrupt. *)
Fixpoint packet_loop (n : nat) s : outcome (stub W * option bool) :=
  match n with
  | O => OutOfFuel
  | S n =>
      let '(c, buffer, interrupted) := GdbConnection.Process (connection s) in
      let s := set_connection s c in
      match buffer with
      | None => Done (s, Some interrupted)
      | Some [] =>
          Done (set_connection s (GdbConnection.SignalError (connection s)), None)
      | Some (ident :: packet) => s ← HandlePacket s ident packet; packet_loop n s
      end
  end.

(** The pass over the attached processes after it. *)
Fixpoint stop_loop (interrupted : bool) s (pids : list Z) : outcome (stub W) :=
  match pids with
  | [] => Done s
  | p :: pids =>
      q ← deref_process s p;
      s ← (if interrupted && running q
           then '(s, _) ← uncaught (request s (BreakProcess (debugger q))); Done s
           else Done s);
      s ← (if waiting_for_stop s && has_events q
           then '(s, stopped) ← IngestEvents s p; Done (if stopped : bool then Stop s else s)
           else Done s);
      stop_loop interrupted s pids
  end.

(** [Logic::Prepare]; the boolean is whether the input is watched again. *)
Definition Prepare s : outcome (stub W * bool) :=
  '(s, r) ← packet_loop fuel s;
  match r with
  | None => Done (s, false)
  | Some interrupted =>
      s ← (if interrupted || waiting_for_stop s
           then stop_loop interrupted s (map fst (attached_processes s)) else Done s);
      Done (s, true)
  end.
End handlers.

(** ** Specification *)

(** Well-formed states: the maps are ordered and keyed by the identifiers of their
    elements, the pointer to the current thread and the valid iterators do not
    dangle, and the registry is the constructor's. *)
Definition process_ok (k : Z) (q : Process) : Prop :=
  pid q = k ∧ om_sorted (threads q) ∧
  ∀ t th, om_find t (threads q) = Some th → thread_id th = t.

Record wf {W} (s : stub W) : Prop := mk_wf {
  wf_sorted : om_sorted (attached_processes s);
  wf_process : ∀ k q, om_find k (attached_processes s) = Some q → process_ok k q;
  wf_current : ∀ p t, current_thread s = Some (p, t) →
    ∃ q th, om_find p (attached_processes s) = Some q ∧ om_find t (threads q) = Some th;
  wf_info : valid (get_thread_info s) = true → process_iterator (get_thread_info s) = None;
  wf_reg : reg s = GdbStub_registry }.

(** One reply more; none. *)
Definition answers {W} (s s' : stub W) : Prop := ∃ r, replies s' = replies s ++ [r].
Definition silent {W} (s s' : stub W) : Prop :=
  replies s' = replies s ∧ waiting_for_stop s' = waiting_for_stop s.

(** A packet is answered once, or resumes the processes without an answer. *)
Definition handled {W} (s s' : stub W) : Prop :=
  wf s' ∧ (answers s s' ∨ replies s' = replies s ∧ waiting_for_stop s' = true).

(** What the interface promises about memory reads. *)
Class SizedMemory (W : Type) `{ITwibDebugger W} : Prop :=
  ReadMemory_size : ∀ h addr size w w' v,
    ReadMemory h addr size w = (w', inl v) → zlen v = size.

(** The packets with undefined behaviour: detaching from one process, or writing
    registers, with no current thread; writing too few registers; selecting the
    first thread of a process that has none; writing fewer than four bytes of
    memory; listing the threads; reading the library list beyond its end. *)
Definition selects_no_thread {W} (s : stub W) (packet : bytes) : Prop :=
  ∃ p r q, ReadThreadId s (tail packet) = Done (p, 0, r) ∧ threads q = [] ∧
    (p = 0 ∧ (∃ k l, attached_processes s = (k, q) :: l) ∨
     p ≠ 0 ∧ om_find (u64 p) (attached_processes s) = Some q).
Definition writes_short {W} (s : stub W) (packet : bytes) : Prop :=
  let '(size, packet) := GdbConnection.DecodeWithSeparator (ch ":")
    (GdbConnection.DecodeWithSeparator (ch ",") packet).2 in
  zlen (GdbConnection.Decode_bytes packet) = size ∧ size < 4.
Definition xfer_offset (packet : bytes) : Z :=
  let after l := (read_until (ch ":") l).2 in
  (GdbConnection.DecodeWithSeparator (ch ",") (after (after (after packet)))).1.
Definition xfer_past_end {W} `{ITwibDebugger W} (s : stub W) (packet : bytes) : Prop :=
  ∃ s' string, XferReadLibraries s = Done (s', string) ∧ zlen string < xfer_offset packet.

Inductive undefined_packet {W} `{ITwibDebugger W} (s : stub W) : byte → bytes → Prop :=
| undefined_detach packet :
    current_thread s = None → undefined_packet s (ch "D") (ch ";" :: packet)
| undefined_registers packet :
    current_thread s = None ∨ zlen (GdbConnection.Decode_bytes packet) < 788 →
    undefined_packet s (ch "G") packet
| undefined_select packet :
    2 ≤ zlen packet → selects_no_thread s packet → undefined_packet s (ch "H") packet
| undefined_write packet :
    current_thread s ≠ None → writes_short s packet → undefined_packet s (ch "M") packet
| undefined_threads packet q rest :
    match_query (gettable_queries (reg s)) [] None packet = (Some q, rest) →
    visitor q = QFThreadInfo → undefined_packet s (ch "q") packet
| undefined_xfer packet q rest :
    match_query (gettable_queries (reg s)) [] None packet = (Some q, rest) →
    visitor q = QXfer → xfer_past_end s rest → undefined_packet s (ch "q") packet.

(** What a client that reads the library list in pieces of [length] bytes does: ask
    for successive offsets until an answer starts with [l]. *)
Definition xfer_packet (offset length : Z) : bytes :=
  str "Xfer:libraries:read::" ++ hex offset ++ str "," ++ hex length.
Fixpoint xfer_client {W} (handle : stub W → bytes → outcome (stub W)) (n : nat)
    (s : stub W) (offset length : Z) : outcome (stub W * bytes) :=
  match n with
  | O => OutOfFuel
  | S n =>
      s ← handle s (xfer_packet offset length);
      match last (replies s) with
      | Some (c :: chunk) =>
          if decide (c = ch "l") then Done (s, chunk)
          else '(s, rest) ← xfer_client handle n s (offset + zlen chunk) length;
               Done (s, chunk ++ rest)
      | _ => Throws invalid_argument
      end
  end.

(** The events a debugger has ready, and what they do to the threads of a process. *)
Inductive delivers {W} `{ITwibDebugger W} (h : Z) : W → list DebugEvent → W → Prop :=
| delivers_nil w : delivers h w [] w
| delivers_cons w w1 w2 e es :
    GetDebugEvent h w = (w1, inl (Some e)) → delivers h w1 es w2 → delivers h w (e :: es) w2.
Definition track (ts : omap Thread) (e : DebugEvent) : omap Thread :=
  match event_type e with
  | AttachThread tid tls => om_emplace tid (mk_Thread tid tls) ts
  | ExitThread => om_erase (event_thread_id e) ts
  | _ => ts
  end.
Definition passes (e : DebugEvent) : Prop :=
  match event_type e with ExitProcess | Exception _ => False | _ => True end.

(** A device for the examples: pending events, memory full of zeros, no modules. *)
Module Device.
#[export] Instance debugger_ops : ITwibDebugger (list DebugEvent) := {
  GetThreadContext := fun _ _ w =>
    (w, inl (mk_ThreadContext (zreplicate 268 Byte.x00) 0 (zreplicate 520 Byte.x00) 0));
  SetThreadContext := fun _ _ _ w => (w, inl tt);
  ReadMemory := fun _ _ n w =>
    (w, if n <? 0 then inr 1 else inl (zreplicate n Byte.x00));
  WriteMemory := fun _ _ _ w => (w, inl tt);
  GetDebugEvent := fun _ w =>
    match w with [] => ([], inl None) | e :: w => (w, inl (Some e)) end;
  ContinueDebugEvent := fun _ _ _ w => (w, inl tt);
  BreakProcess := fun _ w => (w, inl tt);
  AsyncWait := fun _ w => w;
  GetTargetEntry := fun _ w => (w, inl 4096);
  LaunchDebugProcess := fun _ w => (w, inl tt);
  GetNsoInfos := fun _ w => (w, inl []);
  GetNroInfos := fun _ w => (w, inl []) }.
#[export] Instance device_ops : ITwibDeviceInterface (list DebugEvent) := {
  OpenActiveDebugger := fun p w => (w, inl p);
  WaitToDebugApplication := fun w => (w, inl 81);
  WaitToDebugTitle := fun t w => (w, inl 81) }.

#[export] Instance device_sized : SizedMemory (list DebugEvent).
Proof.
  intros h addr size w w' v. cbn. destruct (Z.ltb_spec size 0); [done|].
  intros [= _ <-]. rewrite zlen_zreplicate. lia.
Qed.
#[export] Instance device_finite : FiniteEvents (list DebugEvent).
Proof.
  refine {| pending := fun _ w => length w |}.
  intros h [|e1 w] w' e; cbn; [done|]. intros [= <- _]. lia.
Defined.

(** A stub attached to process 81 with threads 1 and 2, the first one current. *)
Definition attached_stub : stub (list DebugEvent) :=
  mk_stub [mk_DebugEvent (Exception BreakPoint) 2] GdbConnection.init [] GdbStub_registry
    (Some (81, 1))
    [(81, mk_Process 81 81 [(1, mk_Thread 1 8192); (2, mk_Thread 2 8704)] [1; 2] true true)]
    (str "W00") true false true (mk_thread_info false None TEnd) false.
End Device.
Import Device.

(** ** Lemmas *)

Section invariant.
Context {W : Type} `{HD : ITwibDebugger W} `{HI : ITwibDeviceInterface W}.
Implicit Types s : stub W.

(** [wf] and the replies only look at some of the fields. *)
Definition same s s' : Prop :=
  attached_processes s' = attached_processes s ∧ current_thread s' = current_thread s ∧
  get_thread_info s' = get_thread_info s ∧ reg s' = reg s.

Lemma wf_same s s' : same s s' → wf s → wf s'.
Proof. intros (E1 & E2 & E3 & E4) []. by split; rewrite ?E1, ?E2, ?E3, ?E4. Qed.

Lemma wf_invalidate s : wf s → wf (invalidate s).
Proof. by intros []. Qed.
Lemma wf_no_current s : wf s → wf (set_current s None).
Proof. by intros []. Qed.

Lemma deref_process_ok s p Q :
  wf s → (∃ q, om_find p (attached_processes s) = Some q) →
  (∀ q, om_find p (attached_processes s) = Some q → process_ok p q → Q q) →
  ok (deref_process s p) Q.
Proof.
  intros Hwf [q E] HQ. unfold deref_process. rewrite E. apply HQ; [done|].
  by apply (wf_process s).
Qed.

Lemma deref_current_ok s p t Q :
  wf s → current_thread s = Some (p, t) →
  (∀ q th, om_find p (attached_processes s) = Some q → process_ok p q →
     om_find t (threads q) = Some th → Q (q, th)) →
  ok (deref_current s) Q.
Proof.
  intros Hwf Hc HQ. unfold deref_current. rewrite Hc.
  destruct (wf_current s Hwf p t Hc) as (q & th & E & Et).
  apply ok_bind, deref_process_ok; [done|by exists q|]. intros q' E' Hq'.
  assert (q' = q) as -> by congruence. rewrite Et. by apply HQ.
Qed.

Lemma request_same {A} s (m : W → W * (A + Z)) s' r :
  request s m = (s', r) → same s s' ∧ silent s s' ∧ has_async_wait s' = has_async_wait s ∧
    stop_reason s' = stop_reason s ∧ thread_events_enabled s' = thread_events_enabled s.
Proof. unfold request. destruct (m (world s)). by intros [= <- <-]. Qed.

Lemma uncaught_ok {A} s (m : W → W * (A + Z)) Q :
  (∀ s' a, request s m = (s', inl a) → Q (s', a)) → ok (uncaught (request s m)) Q.
Proof. intros HQ. destruct (request s m) as [s' [a|c]] eqn:E; cbn; auto. Qed.

(** Changing an attached process through a reference to it. *)
Lemma wf_update s p f :
  wf s →
  (∀ q, om_find p (attached_processes s) = Some q → process_ok p q → process_ok p (f q)) →
  (∀ q t th, om_find p (attached_processes s) = Some q → current_thread s = Some (p, t) →
     om_find t (threads q) = Some th → is_Some (om_find t (threads (f q)))) →
  wf (update_process s p f).
Proof.
  intros Hwf Hf Hc. unfold update_process.
  destruct (om_find p (attached_processes s)) as [q|] eqn:E; [|done].
  destruct Hwf as [H1 H2 H3 H4 H5]. split; cbn; try done.
  - unfold om_sorted in *. by rewrite om_set_keys.
  - intros k q'. rewrite om_find_set. destruct (Z.eqb_spec p k) as [->|].
    + rewrite E. cbn. intros [= <-]. apply Hf; auto.
    + apply H2.
  - intros p' t Hcur. destruct (H3 p' t Hcur) as (q' & th & Eq & Et).
    rewrite om_find_set. destruct (Z.eqb_spec p p') as [->|]; [|by eauto].
    assert (q' = q) as -> by congruence.
    destruct (Hc q t th eq_refl Hcur Et) as [th' Eth].
    exists (f q), th'. by rewrite E.
Qed.

Lemma find_update s p f p' :
  om_find p' (attached_processes (update_process s p f)) =
    if p =? p' then f <$> om_find p (attached_processes s)
    else om_find p' (attached_processes s).
Proof.
  unfold update_process. destruct (om_find p (attached_processes s)) as [q|] eqn:E; cbn.
  - rewrite om_find_set. by rewrite E.
  - by destruct (Z.eqb_spec p p') as [->|].
Qed.

Lemma update_rest s p f :
  replies (update_process s p f) = replies s ∧
  waiting_for_stop (update_process s p f) = waiting_for_stop s ∧
  current_thread (update_process s p f) = current_thread s ∧
  world (update_process s p f) = world s ∧
  thread_events_enabled (update_process s p f) = thread_events_enabled s.
Proof. unfold update_process. by destruct (om_find p (attached_processes s)). Qed.

Lemma process_ok_insert p q tid tls ids :
  process_ok p q →
  process_ok p (set_threads q (om_emplace tid (mk_Thread tid tls) (threads q)) ids).
Proof.
  intros (? & ? & Hid). split_and!; cbn; [done|by apply om_sorted_emplace|].
  intros t th. rewrite om_find_emplace. destruct (Z.eqb_spec tid t) as [->|]; [|apply Hid].
  destruct (om_find t (threads q)) eqn:Et; cbn; intros [= <-]; [by apply Hid|done].
Qed.

Lemma process_ok_erase p q tid ids :
  process_ok p q → process_ok p (set_threads q (om_erase tid (threads q)) ids).
Proof.
  intros (? & ? & Hid). split_and!; cbn; [done|by apply om_sorted_erase|].
  intros t th. rewrite om_find_erase. destruct (tid =? t); [done|apply Hid].
Qed.

Definition attached s p : Prop := ∃ q, om_find p (attached_processes s) = Some q.
(** The other processes stay attached, and nothing is answered. *)
Definition quiet s s' : Prop :=
  wf s' ∧ silent s s' ∧ ∀ p, attached s p → attached s' p.

Lemma quiet_refl s : wf s → quiet s s.
Proof. done. Qed.
Lemma quiet_trans s1 s2 s3 : quiet s1 s2 → quiet s2 s3 → quiet s1 s3.
Proof.
  intros (? & [E1 E2] & Ha) (? & [E3 E4] & Hb).
  split_and!; [done|split; congruence|auto].
Qed.
Lemma quiet_same s s' : wf s → same s s' → silent s s' → quiet s s'.
Proof.
  intros Hwf Hs Hq. split_and!; [by eapply wf_same|done|].
  destruct Hs as (E & _). unfold attached. by rewrite E.
Qed.
Lemma quiet_request {A} s (m : W → W * (A + Z)) s' r :
  wf s → request s m = (s', r) → quiet s s'.
Proof. intros Hwf E. destruct (request_same _ _ _ _ E) as (? & ? & _). by apply quiet_same. Qed.
Lemma quiet_set_async s b : wf s → quiet s (set_async s b).
Proof. intros. by apply quiet_same. Qed.
Lemma quiet_update s p f :
  wf s → wf (update_process s p f) → quiet s (update_process s p f).
Proof.
  intros Hwf Hwf'. split_and!; [done|by split; apply update_rest|].
  intros k [q E]. unfold attached. rewrite find_update.
  destruct (Z.eqb_spec p k) as [->|]; [rewrite E; by eexists|by exists q].
Qed.
Lemma quiet_update_threads s p f :
  wf s → (∀ q, threads (f q) = threads q ∧ pid (f q) = pid q) → quiet s (update_process s p f).
Proof.
  intros Hwf Hf. apply quiet_update, wf_update; try done.
  - intros q _ (? & ? & ?). destruct (Hf q) as [E1 E2].
    unfold process_ok. by rewrite E1, E2.
  - intros q t th _ _ E. destruct (Hf q) as [-> _]. by rewrite E.
Qed.
Lemma quiet_invalidate s : wf s → quiet s (invalidate s).
Proof. intros. split_and!; [by apply wf_invalidate|done|done]. Qed.

Lemma quiet_attach s p tid tls ids :
  wf s → quiet s (update_process s p (fun q =>
    set_threads q (om_emplace tid (mk_Thread tid tls) (threads q)) (ids q))).
Proof.
  intros Hwf. apply quiet_update, wf_update; try done.
  - intros q _. by apply process_ok_insert.
  - intros q t th _ _ E. cbn. rewrite om_find_emplace. destruct (tid =? t); [done|by rewrite E].
Qed.

Lemma quiet_exit s p tid ids :
  wf s →
  quiet s (update_process
    (if decide (current_thread s = Some (p, tid)) then set_current s None else s) p
    (fun q => set_threads q (om_erase tid (threads q)) (ids q))).
Proof.
  intros Hwf. set (s1 := if decide _ then _ else s).
  assert (quiet s s1) as Hq1.
  { subst s1. case_decide; [|by apply quiet_refl].
    split_and!; [by apply wf_no_current|done|done]. }
  assert (current_thread s1 ≠ Some (p, tid)) as Hne
    by (subst s1; case_decide; done).
  apply (quiet_trans s s1); [done|]. apply quiet_update; [apply Hq1|].
  apply wf_update; [apply Hq1| |].
  - intros q _. by apply process_ok_erase.
  - intros q t th _ Hc E. cbn. rewrite om_find_erase.
    destruct (Z.eqb_spec tid t); [congruence|]. by rewrite E.
Qed.

Lemma ingest_event_ok p g e :
  wf (ig_stub g) → attached (ig_stub g) p →
  ok (ingest_event p g e) (fun g' => quiet (ig_stub g) (ig_stub g')).
Proof.
  intros Hwf Ha. unfold ingest_event.
  apply ok_bind, deref_process_ok; [done|done|]. intros q Eq Hq. cbn zeta.
  set (s0 := update_process (ig_stub g) p (fun q => set_running q false)).
  assert (quiet (ig_stub g) s0) as H0 by (by apply quiet_update_threads).
  pose proof (proj1 H0) as Hwf0.
  destruct (event_type e); cbn; try done.
  - pose proof (quiet_trans _ _ _ (quiet_attach s0 p thread_id0 tls_pointer
      (fun q => running_thread_ids q ++ [thread_id0]) Hwf0)
      (quiet_invalidate _ (proj1 (quiet_attach s0 p _ tls_pointer _ Hwf0)))).
    case_match; cbn; by eapply quiet_trans.
  - set (s1 := match om_find _ _ with Some _ => _ | None => s0 end).
    assert (quiet s0 s1) as H01.
    { subst s1. destruct (om_find (event_thread_id e) (threads q)); [|by apply quiet_refl].
      eapply quiet_trans; [|apply quiet_invalidate]; by apply quiet_exit. }
    case_match; cbn; by eapply quiet_trans.
Qed.

Lemma ingest_loop_ok n p g :
  wf (ig_stub g) → attached (ig_stub g) p →
  ok (ingest_loop n p g) (fun g' => quiet (ig_stub g) (ig_stub g')).
Proof.
  revert g. induction n as [|n IH]; intros g Hwf Ha; cbn [ingest_loop]; [done|].
  destruct (ig_stopped g); [by apply quiet_refl|].
  apply ok_bind, deref_process_ok; [done|done|]. intros q _ _.
  apply ok_bind, uncaught_ok. intros s' e E.
  pose proof (quiet_request _ _ _ _ Hwf E) as Hq. destruct e as [e|]; [|done].
  apply ok_bind. set (g1 := mk_ingest s' _ _ _ _).
  pose proof (proj2 (proj2 Hq) p Ha) as Ha1.
  eapply ok_mono; [apply (ingest_event_ok p g1 e); [apply Hq|done]|]. intros g2 Hq2.
  eapply ok_mono; [apply IH; [apply Hq2|by apply (proj2 (proj2 Hq2))]|]. intros g3 Hq3.
  eapply quiet_trans; [exact Hq|]. exact (quiet_trans _ _ _ Hq2 Hq3).
Qed.

Lemma IngestEvents_ok n s p :
  wf s → attached s p → ok (IngestEvents n s p) (fun r => quiet s r.1).
Proof.
  intros Hwf Ha. unfold IngestEvents.
  apply ok_bind, deref_process_ok; [done|done|]. intros q _ _. apply ok_bind.
  eapply ok_mono; [by apply (ingest_loop_ok n p (mk_ingest s (ch "T") 0 0 false))|].
  cbn. intros g Hq. pose proof (proj1 Hq) as Hwf1.
  apply ok_bind, deref_process_ok; [done|by apply Hq|]. intros q' _ _. cbn zeta.
  set (s2 := if ig_stopped g then _ else ig_stub g).
  set (s3 := if has_async_wait s2 then s2 else _).
  assert (quiet s s3) as Hq3.
  { subst s3 s2. destruct (ig_stopped g), (has_async_wait _);
      (eapply quiet_trans; [exact Hq|by apply quiet_same]). }
  destruct (_ && _); [|done]. apply ok_bind, uncaught_ok. intros s4 [] E.
  pose proof (quiet_request _ _ _ _ (proj1 Hq3) E) as Hq4. cbn.
  eapply quiet_trans; [exact Hq3|]. eapply quiet_trans; [exact Hq4|].
  apply quiet_update_threads; [apply Hq4|done].
Qed.

Lemma quiet_respond s s' r : quiet s s' → wf (Respond s' r) ∧ answers s (Respond s' r).
Proof.
  intros (Hwf & [E _] & _). split; [by apply (wf_same s')|]. exists r. cbn. by rewrite E.
Qed.
Lemma respond_ok s r : wf s → wf (Respond s r) ∧ answers s (Respond s r).
Proof. intros. by apply quiet_respond, quiet_refl. Qed.

Definition answered s s' : Prop := wf s' ∧ answers s s'.

Lemma request_answered {A} s (m : W → W * (A + Z)) (f : A → bytes) :
  wf s →
  ok (match request s m with
      | (s, inl a) => Done (Respond s (f a))
      | (s, inr c) => Done (RespondError s c)
      end) (answered s).
Proof.
  intros Hwf. destruct (request s m) as [s' [a|c]] eqn:E; cbn;
    by eapply quiet_respond, quiet_request.
Qed.

Lemma ReadThreadId_ok s packet : wf s → ok (ReadThreadId s packet) (fun _ => True).
Proof.
  intros Hwf. unfold ReadThreadId. apply ok_bind.
  apply ok_mono with (fun _ => True).
  - destruct (current_thread s) as [[p t]|] eqn:Ec; [|done].
    by apply ok_bind, (deref_current_ok s p t).
  - intros p _. repeat case_match; done.
Qed.

Lemma HandleDetach_ok s packet :
  wf s → ¬ undefined_packet s (ch "D") packet → ok (HandleDetach s packet) (answered s).
Proof.
  intros Hwf Hu. destruct packet as [|c packet]; cbn [HandleDetach].
  - destruct Hwf. split; [|by eexists]. split; cbn; try done. constructor.
  - case_decide as Hc; [by apply respond_ok|].
    assert (c = ch ";") as -> by (by destruct (decide (c = ch ";"))).
    destruct (current_thread s) as [[p t]|] eqn:Ec.
    2: { destruct Hu. by constructor. }
    cbn zeta. apply ok_bind, (deref_current_ok s p t); [done|done|]. intros q th Eq Hq _.
    set (pid' := GdbConnection.Decode packet). destruct Hq as (-> & _ & _).
    destruct Hwf as [H1 H2 H3 H4 H5]. split; [|destruct (p =? pid'); by eexists].
    split; cbn.
    + destruct (p =? pid'); cbn; by apply om_sorted_erase.
    + intros k q'. destruct (p =? pid'); cbn; rewrite om_find_erase;
        (destruct (pid' =? k); [done|apply H2]).
    + intros p' t'. destruct (Z.eqb_spec p pid') as [|Hne]; [done|]. cbn. intros Hcur.
      destruct (H3 p' t' Hcur) as (q' & th' & E1 & E2).
      rewrite om_find_erase. destruct (Z.eqb_spec pid' p'); [congruence|by eauto].
    + done.
    + by destruct (p =? pid').
Qed.

(** Handlers that do nothing without a current thread. *)
Lemma with_current_ok s (f : Process * Thread → outcome (stub W)) r :
  wf s → (∀ x, ok (f x) (answered s)) →
  ok (match current_thread s with
      | None => Done (Respond s r)
      | Some _ => x ← deref_current s; f x
      end) (answered s).
Proof.
  intros Hwf Hf. destruct (current_thread s) as [[p t]|] eqn:Ec; [|by apply respond_ok].
  by apply ok_bind, (deref_current_ok s p t).
Qed.

Lemma HandleReadGeneralRegisters_ok s : wf s → ok (HandleReadGeneralRegisters s) (answered s).
Proof.
  intros Hwf. apply (with_current_ok s (fun '(q, t) => _)); [done|]. intros [q t].
  by apply request_answered.
Qed.

Lemma HandleWriteGeneralRegisters_ok s packet :
  wf s → ¬ undefined_packet s (ch "G") packet →
  ok (HandleWriteGeneralRegisters s packet) (answered s).
Proof.
  intros Hwf Hu. unfold HandleWriteGeneralRegisters.
  destruct (current_thread s) as [[p t]|] eqn:Ec.
  2: { destruct Hu. constructor. by left. }
  destruct (Z.ltb_spec (zlen (GdbConnection.Decode_bytes packet)) 788) as [Hl|Hl].
  { destruct Hu. constructor. by right. }
  rewrite (proj2 (Z.ltb_ge _ (268 + 520))) by lia.
  apply ok_bind, (deref_current_ok s p t); [done|done|]. intros q th _ _ _.
  by apply (request_answered s _ (fun _ => GdbConnection.payload_Ok)).
Qed.

Lemma wf_select s k q t th :
  wf s → om_find k (attached_processes s) = Some q → om_find t (threads q) = Some th →
  answered s (RespondOk (set_current s (Some (pid q, t)))).
Proof.
  intros Hwf Ek Et. split; [|by eexists]. destruct (wf_process s Hwf k q Ek) as (-> & _ & _).
  destruct Hwf. split; cbn; try done. intros p' t' [= <- <-]. by eauto.
Qed.

Lemma HandleSetCurrentThread_ok s packet :
  wf s → ¬ undefined_packet s (ch "H") packet →
  ok (HandleSetCurrentThread s packet) (answered s).
Proof.
  intros Hwf Hu. unfold HandleSetCurrentThread.
  destruct (Z.ltb_spec (zlen packet) 2) as [|Hlen]; [by apply respond_ok|].
  destruct packet as [|op packet]; [by apply respond_ok|].
  pose proof (ReadThreadId_ok s packet Hwf) as Hread.
  destruct (ReadThreadId s packet) as [[[p tid] r]| | | |] eqn:Er; try done. cbn.
  set (proc := if p =? 0 then _ else _). destruct proc as [q|] eqn:Eproc; subst proc;
    [|by apply respond_ok].
  assert (∃ k, om_find k (attached_processes s) = Some q) as [k Ek].
  { destruct (p =? 0); [|by eauto].
    destruct (attached_processes s) as [|[k q'] l]; [done|]. injection Eproc as <-.
    exists k. cbn. by rewrite Z.eqb_refl. }
  destruct (Z.eqb_spec tid 0) as [->|Ht].
  - destruct (threads q) as [|[t th] l] eqn:Eth.
    + destruct Hu. constructor; [done|]. exists p, r, q. split_and!; [done|done|].
      destruct (Z.eqb_spec p 0) as [->|]; [left|by right].
      destruct (attached_processes s) as [|[k' q'] l']; [done|]. injection Eproc as ->.
      by eauto.
    + apply (wf_select s k q t th); [done|done|]. rewrite Eth. cbn. by rewrite Z.eqb_refl.
  - destruct (om_find (u64 tid) (threads q)) as [th|] eqn:Et; [|by apply respond_ok].
    by apply (wf_select s k q _ th).
Qed.

Lemma HandleReadMemory_ok s packet : wf s → ok (HandleReadMemory s packet) (answered s).
Proof.
  intros Hwf. unfold HandleReadMemory.
  destruct (GdbConnection.DecodeWithSeparator _ packet) as [address rest].
  apply (with_current_ok s (fun '(q, _) => _)); [done|]. intros [q t].
  by apply request_answered.
Qed.

Lemma HandleWriteMemory_ok s packet :
  wf s → ¬ undefined_packet s (ch "M") packet → ok (HandleWriteMemory s packet) (answered s).
Proof.
  intros Hwf Hu. unfold HandleWriteMemory.
  destruct (GdbConnection.DecodeWithSeparator (ch ",") packet) as [address r1] eqn:E1.
  destruct (GdbConnection.DecodeWithSeparator (ch ":") r1) as [size r2] eqn:E2.
  destruct (current_thread s) as [[p t]|] eqn:Ec; [|by apply respond_ok].
  destruct (Z.eqb_spec (zlen (GdbConnection.Decode_bytes r2)) size) as [Hs|]; cbn [negb];
    [|by apply respond_ok].
  destruct (Z.ltb_spec (zlen (GdbConnection.Decode_bytes r2)) 4).
  { destruct Hu. constructor; [by rewrite Ec|]. unfold writes_short. rewrite E1. cbn [snd].
    rewrite E2. lia. }
  apply ok_bind, (deref_current_ok s p t); [done|done|]. intros q th _ _ _.
  by apply (request_answered s _ (fun _ => GdbConnection.payload_Ok)).
Qed.

Lemma quiet_emplace s p h :
  wf s → om_find p (attached_processes s) = None →
  quiet s (set_processes s (om_emplace p (Process_new p h) (attached_processes s))).
Proof.
  intros [H1 H2 H3 H4 H5] Hp. split_and!; [|done|].
  - split; cbn; try done.
    + by apply om_sorted_emplace.
    + intros k q. rewrite om_find_emplace. destruct (Z.eqb_spec p k) as [<-|]; [|apply H2].
      rewrite Hp. intros [= <-]. split_and!; [done|constructor|done].
    + intros p' t Hc. destruct (H3 p' t Hc) as (q & th & E & Et). rewrite om_find_emplace.
      destruct (Z.eqb_spec p p'); [congruence|by eauto].
  - intros k [q E]. unfold attached. cbn. rewrite om_find_emplace.
    destruct (p =? k); by eexists.
Qed.

Lemma HandleVAttach_ok n s packet : wf s → ok (HandleVAttach n s packet) (answered s).
Proof.
  intros Hwf. unfold HandleVAttach. set (p := GdbConnection.Decode packet).
  destruct (om_find p (attached_processes s)) as [?|] eqn:Ep; [by apply respond_ok|].
  destruct (_ && _); [by apply respond_ok|].
  apply ok_bind, uncaught_ok. intros s1 h E1.
  pose proof (quiet_request _ _ _ _ Hwf E1) as Hq1.
  assert (om_find p (attached_processes s1) = None) as Ep1
    by (destruct (request_same _ _ _ _ E1) as ((-> & _) & _); done).
  pose proof (quiet_emplace s1 p h (proj1 Hq1) Ep1) as Hq2.
  set (s2 := set_processes s1 _) in *.
  assert (attached s2 p) as Ha2 by (eexists; cbn; rewrite om_find_emplace, Z.eqb_refl; done).
  apply ok_bind. eapply ok_mono; [by apply IngestEvents_ok; [apply Hq2|]|].
  intros [s3 b] Hq3. cbn in Hq3. pose proof (proj2 (proj2 Hq3) p Ha2) as Ha3.
  apply ok_bind, deref_process_ok; [apply Hq3|done|]. intros q _ _.
  pose proof (quiet_trans _ _ _ Hq1 (quiet_trans _ _ _ Hq2 Hq3)) as Hs3.
  apply ok_bind, (ok_mono _ (quiet s)); [|intros; by apply quiet_respond].
  destruct (threads q); [|done].
  destruct (request s3 (LaunchDebugProcess (debugger q))) as [s4 r] eqn:E4.
  pose proof (quiet_request _ _ _ _ (proj1 Hs3) E4) as Hq4.
  apply ok_bind. eapply ok_mono; [apply IngestEvents_ok; [apply Hq4|by apply (proj2 (proj2 Hq4))]|].
  intros [s5 b'] Hq5. cbn in *. by eapply quiet_trans, quiet_trans.
Qed.

Lemma vcont_action_ok s action tid_text a :
  wf s → ok (vcont_action s action tid_text a) (fun _ => True).
Proof.
  intros Hwf. unfold vcont_action. destruct action as [|c action]; [done|].
  destruct (_ || _); [|done]. apply ok_bind, (ok_mono _ (fun _ => True)).
  - destruct tid_text as [|d tid_text]; [done|].
    apply ok_bind. eapply ok_mono; [by apply ReadThreadId_ok|]. by intros [[? ?] ?] _.
  - intros [p tid] _. repeat case_match; done.
Qed.

Lemma vcont_parse_ok s packet action tid_text b a :
  wf s → ok (vcont_parse s packet action tid_text b a) (fun _ => True).
Proof.
  intros Hwf. revert action tid_text b a.
  induction packet as [|c packet IH]; intros; cbn [vcont_parse]; [by apply vcont_action_ok|].
  case_decide; [|case_decide; [|destruct b]; apply IH].
  apply ok_bind. eapply ok_mono; [by apply vcont_action_ok|]. intros [a'|] _; [apply IH|done].
Qed.

Lemma vcont_run_ok n s a : wf s → ok (vcont_run n s a) (fun r => quiet s r.1).
Proof.
  revert s. induction a as [|[p ts] a IH]; intros s Hwf; cbn [vcont_run];
    [by apply quiet_refl|].
  destruct (om_find p (attached_processes s)) as [q|] eqn:Ep; [|by apply IH].
  apply ok_bind. eapply ok_mono; [apply IngestEvents_ok; [done|by exists q]|].
  intros [s1 []] Hq1; cbn in Hq1; [done|].
  assert (attached s1 p) as Ha1 by (apply Hq1; by exists q).
  apply ok_bind, deref_process_ok; [apply Hq1|done|]. intros q1 _ _. cbn zeta.
  set (ids := List.filter _ _). set (s2 := update_process s1 p _).
  assert (quiet s1 s2) as Hq2 by (apply quiet_update_threads; [apply Hq1|done]).
  apply ok_bind, uncaught_ok. intros s3 [] E3.
  pose proof (quiet_request _ _ _ _ (proj1 Hq2) E3) as Hq3.
  pose proof (quiet_update_threads s3 p (fun q => set_running q true) (proj1 Hq3)
                (fun _ => conj eq_refl eq_refl)) as Hq4.
  eapply ok_mono; [apply IH, Hq4|]. intros r Hr.
  exact (quiet_trans _ _ _ Hq1 (quiet_trans _ _ _ Hq2
          (quiet_trans _ _ _ Hq3 (quiet_trans _ _ _ Hq4 Hr)))).
Qed.

Lemma answered_handled s s' : answered s s' → handled s s'.
Proof. intros [? ?]. split; [done|by left]. Qed.

Lemma HandleVCont_ok n s packet : wf s → ok (HandleVCont n s packet) (handled s).
Proof.
  intros Hwf. unfold HandleVCont. apply ok_bind. eapply ok_mono; [by apply vcont_parse_ok|].
  intros [a|] _; [|by apply answered_handled, respond_ok].
  apply ok_bind. eapply ok_mono; [by apply vcont_run_ok|].
  intros [s' []] Hq; cbn in *; destruct Hq as (Hwf' & [E _] & _).
  - apply answered_handled. split; [by apply (wf_same s')|]. eexists. cbn. by rewrite E.
  - split; [by apply (wf_same s')|by right].
Qed.

Lemma QueryGetSupported_ok s packet : wf s → answered s (QueryGetSupported s packet).
Proof.
  intros Hwf. unfold QueryGetSupported. apply quiet_respond.
  generalize (read_features (length packet) packet) as fs. intros fs.
  assert (∀ s, wf s → quiet s (foldl (fun s f => if decide (f = str "multiprocess+")
                                then set_multiprocess s true else s) s fs)) as Hf.
  { clear. induction fs as [|f fs IH]; intros s Hwf; [by apply quiet_refl|]. cbn.
    case_decide; [|by apply IH].
    eapply quiet_trans; [|apply IH]; [by apply quiet_same|by apply (wf_same s)]. }
  by apply Hf.
Qed.

Lemma QueryGetCurrentThread_ok s packet :
  wf s → ok (QueryGetCurrentThread s packet) (answered s).
Proof.
  intros Hwf. unfold QueryGetCurrentThread. apply ok_bind, (ok_mono _ (fun _ => True)).
  - destruct (current_thread s) as [[p t]|] eqn:Ec; [|done].
    by apply ok_bind, (deref_current_ok s p t).
  - intros [p t] _. by apply respond_ok.
Qed.

Lemma answered_info s i r :
  wf s → (valid i = true → process_iterator i = None) →
  answered s (Respond (set_info s i) r).
Proof. intros [] Hi. split; [|by eexists]. by split. Qed.

(** Listing the threads of any process ends at the end iterator. *)
Lemma process_loop_undefined multi p ps it r : process_loop multi (p :: ps) it r = Undefined.
Proof.
  assert (∀ q it, threads_from q it = Undefined ∨ ∃ ts, threads_from q it = Done ts) as Hf.
  { intros q [t| |]; cbn; [|by eauto..]. destruct (om_from t (threads q)); eauto. }
  revert p it r. induction ps as [|p' ps IH]; intros [k q] it r; cbn [process_loop];
    destruct (Hf q it) as [->|[ts ->]]; try done; cbn [mbind outcome_bind].
  destruct p' as [k' q']. exact (IH (k', q') _ _).
Qed.
Lemma QueryGetFThreadInfo_undefined s packet : QueryGetFThreadInfo s packet = Undefined.
Proof.
  unfold QueryGetFThreadInfo. destruct (attached_processes s) as [|[p q] l] eqn:E; [done|].
  cbn [threads_begin mbind outcome_bind head fmap option_map]. unfold QueryGetSThreadInfo.
  cbn [get_thread_info set_info valid negb process_iterator attached_processes multiprocess_enabled thread_iterator].
  rewrite E. cbn [fmap option_fmap option_map fst om_from]. by rewrite Z.eqb_refl, process_loop_undefined.
Qed.

Lemma QueryGetSThreadInfo_ok s packet :
  wf s → ok (QueryGetSThreadInfo s packet) (answered s).
Proof.
  intros Hwf. unfold QueryGetSThreadInfo. destruct (valid (get_thread_info s)) eqn:Hv; cbn [negb]; [|by apply respond_ok].
  rewrite (wf_info s Hwf Hv). by apply (answered_info s).
Qed.

(** The name loop stops on a zero byte of the last chunk it read. *)
Lemma name_loop_ok `{!SizedMemory W} n s h addr name i extra :
  wf s → zlen name = 64 → 0 ≤ i < 64 →
  ok (name_loop n s h addr name i extra) (fun r => quiet s r.1 ∧
    match r.2 with inl name => Byte.x00 ∈ name | inr _ => True end).
Proof.
  revert s addr name i extra. induction n as [|n IH]; intros s addr name i extra Hwf Hl Hi;
    cbn [name_loop]; [done|].
  destruct (name !! Z.to_nat i) as [c|] eqn:Ec.
  2: { apply lookup_ge_None in Ec. unfold zlen in Hl. lia. }
  case_decide as Hc.
  { subst c. split; [by apply quiet_refl|]. by eapply list_elem_of_lookup_2. }
  destruct (Z.eqb_spec i (zlen name - 1)).
  - destruct (request s _) as [s1 [name'|code]] eqn:E1;
      pose proof (quiet_request _ _ _ _ Hwf E1) as Hq1; [|done].
    assert (zlen name' = 64) as Hl'.
    { unfold request in E1. destruct (ReadMemory h _ 64 (world s)) as [w' r] eqn:Er.
      injection E1 as _ ->. by eapply ReadMemory_size. }
    eapply ok_mono; [apply IH; [apply Hq1|done|lia]|]. intros r [Hr ?].
    split; [by eapply quiet_trans|done].
  - apply IH; [done|done|lia].
Qed.

Lemma request_sized `{!SizedMemory W} s h addr size s' v :
  request s (ReadMemory h addr size) = (s', inl v) → zlen v = size.
Proof.
  unfold request. destruct (ReadMemory h addr size (world s)) as [w' r] eqn:Er.
  intros [= _ ->]. by eapply ReadMemory_size.
Qed.

Lemma thread_name_ok `{!SizedMemory W} n s q t :
  wf s → ok (thread_name n s q t) (fun r => quiet s r.1).
Proof.
  intros Hwf. unfold thread_name.
  lazymatch goal with |- context [request s ?m] => destruct (request s m) as [s1 [v1|]] eqn:E1 end;
    pose proof (quiet_request _ _ _ _ Hwf E1) as Hq1; [|done].
  unfold read_u64. rewrite (request_sized _ _ _ _ _ _ E1). change (8 <? 8) with false. cbn [mbind outcome_bind].
  lazymatch goal with |- context [request s1 ?m] => destruct (request s1 m) as [s2 [v2|]] eqn:E2 end;
    pose proof (quiet_trans _ _ _ Hq1 (quiet_request _ _ _ _ (proj1 Hq1) E2)) as Hq2; [|done].
  rewrite (request_sized _ _ _ _ _ _ E2). change (8 <? 8) with false. cbn [mbind outcome_bind].
  destruct (_ =? 0); [done|].
  lazymatch goal with |- context [request s2 ?m] => destruct (request s2 m) as [s3 [v3|]] eqn:E3 end;
    pose proof (quiet_trans _ _ _ Hq2 (quiet_request _ _ _ _ (proj1 Hq2) E3)) as Hq3; [|done].
  apply ok_bind. eapply ok_mono.
  { apply name_loop_ok; [apply Hq3|by eapply request_sized|lia]. }
  intros [s4 [name|extra]] [Hq4 Hz]; cbn in *; [|by eapply quiet_trans].
  unfold c_string. rewrite decide_True by done. cbn. by eapply quiet_trans.
Qed.

Lemma QueryGetThreadExtraInfo_ok `{!SizedMemory W} n s packet :
  wf s → ok (QueryGetThreadExtraInfo n s packet) (answered s).
Proof.
  intros Hwf. unfold QueryGetThreadExtraInfo. apply ok_bind.
  eapply ok_mono; [by apply ReadThreadId_ok|]. intros [[p tid] r] _.
  destruct (om_find _ _) as [q|]; [|by apply respond_ok].
  destruct (om_find _ _) as [t|]; [|by apply respond_ok].
  apply ok_bind. eapply ok_mono; [by apply thread_name_ok|].
  intros [s' l] Hq. by apply quiet_respond.
Qed.

Lemma QueryGetOffsets_ok s packet : wf s → ok (QueryGetOffsets s packet) (answered s).
Proof.
  intros Hwf. apply (with_current_ok s (fun '(q, _) => _)); [done|]. intros [q t].
  apply ok_bind, uncaught_ok. intros s' a E. by eapply quiet_respond, quiet_request.
Qed.

Lemma request_ok {A B} s (m : W → W * (A + Z)) (f : A → B) (g : Z → B) :
  wf s →
  ok (match request s m with
      | (s, inl a) => Done (s, f a)
      | (s, inr c) => Done (s, g c)
      end) (fun r => quiet s r.1).
Proof.
  intros Hwf. destruct (request s m) as [s' [a|c]] eqn:E; by eapply quiet_request.
Qed.

Lemma remote_command_ok s message :
  wf s → ok (remote_command s message) (fun r => quiet s r.1).
Proof.
  intros Hwf. unfold remote_command.
  destruct (read_until (ch " ") message) as [command m1].
  case_decide; [by apply quiet_refl|].
  case_decide; [|case_decide; [|by apply quiet_refl]];
    destruct (read_until (ch " ") m1) as [what m2]; case_decide; try by apply quiet_refl.
  - destruct m2; [|by apply quiet_refl].
    by apply (request_ok s _ (fun p => str "PID: 0x" ++ hex p ++ endl)).
  - destruct (read_until (ch " ") m2) as [tid m3]. destruct m3; [|by apply quiet_refl].
    destruct (stoull16 tid) as [n|[]]; try exact I; try by apply quiet_refl.
    by apply (request_ok s _ (fun p => str "PID: 0x" ++ hex p ++ endl)).
  - destruct m2; [|by apply quiet_refl].
    destruct (current_thread s) as [[p t]|] eqn:Ec; [|by apply quiet_refl].
    apply ok_bind, (deref_current_ok s p t); [done|done|]. intros q th _ _ _.
    by apply (request_ok s _ (fun a => str "aslr base (best guess): 0x" ++ hex a ++ endl)).
Qed.

Lemma QueryGetRemoteCommand_ok s packet :
  wf s → ok (QueryGetRemoteCommand s packet) (answered s).
Proof.
  intros Hwf. apply ok_bind. eapply ok_mono; [by apply remote_command_ok|].
  intros [s' r] Hq. by apply quiet_respond.
Qed.

Lemma BuildLibraryList_quiet s q : wf s → quiet s (BuildLibraryList s q).1.
Proof.
  intros Hwf. unfold BuildLibraryList.
  lazymatch goal with |- context [request s ?m] => destruct (request s m) as [s1 r1] eqn:E1 end.
  pose proof (quiet_request _ _ _ _ Hwf E1) as Hq1.
  destruct r1; lazymatch goal with |- context [request s1 ?m] => destruct (request s1 m) as [s2 r2] eqn:E2 end;
    pose proof (quiet_request _ _ _ _ (proj1 Hq1) E2) as Hq2;
    destruct r2; by eapply quiet_trans.
Qed.

Lemma XferReadLibraries_ok s : wf s → ok (XferReadLibraries s) (fun r => quiet s r.1).
Proof.
  intros Hwf. unfold XferReadLibraries.
  destruct (current_thread s) as [[p t]|] eqn:Ec; [|by apply quiet_refl].
  apply ok_bind, (deref_current_ok s p t); [done|done|]. intros q th _ _ _.
  by apply BuildLibraryList_quiet.
Qed.

Lemma xfer_slice_ok string offset length :
  0 ≤ offset → offset ≤ zlen string → ok (xfer_slice string offset length) (fun _ => True).
Proof.
  intros H0 Hle. unfold xfer_slice. set (n := Z.min _ _).
  assert (n ≤ zlen string - offset).
  { subst n. pose proof (Z.mod_le (zlen string - offset) (2 ^ 64)). unfold u64. lia. }
  destruct (Z.leb_spec (offset + n) (zlen string)); [|lia]. by rewrite orb_true_r.
Qed.

Lemma DecodeWithSeparator_nonneg sep l : 0 ≤ (GdbConnection.DecodeWithSeparator sep l).1.
Proof.
  unfold GdbConnection.DecodeWithSeparator.
  assert (∀ acc, 0 ≤ acc → 0 ≤ (GdbConnection.DecodeWithSeparator_loop acc sep l).1) as Hl;
    [|by apply Hl].
  induction l as [|c l IH]; intros acc Ha; cbn; [done|]. case_decide; [done|].
  apply IH. rewrite GdbConnection.push_nybble_arith. apply u64_range.
Qed.

Lemma QueryXfer_ok s packet :
  wf s → ¬ xfer_past_end s packet → ok (QueryXfer s packet) (answered s).
Proof.
  intros Hwf Hx. unfold QueryXfer, xfer_past_end, xfer_offset in *.
  destruct (read_until (ch ":") packet) as [name r1]. cbn [snd] in Hx.
  destruct (assoc name _) as [[]|]; [|by apply respond_ok].
  destruct (read_until (ch ":") r1) as [op r2]. cbn [snd] in Hx.
  destruct (read_until (ch ":") r2) as [annex r3]. cbn [snd] in Hx.
  case_decide.
  - pose proof (DecodeWithSeparator_nonneg (ch ",") r3) as H0.
    destruct (GdbConnection.DecodeWithSeparator (ch ",") r3) as [offset r4]. cbn [fst] in *.
    destruct annex; cbn [Read]; [|by apply respond_ok].
    apply ok_bind. pose proof (XferReadLibraries_ok s Hwf) as Hg. cbn [generator].
    destruct (XferReadLibraries s) as [[s1 string]| | | |] eqn:Eg; try done. cbn in *.
    apply ok_bind. eapply ok_mono; [apply xfer_slice_ok; [done|]|].
    + destruct (Z_le_dec offset (zlen string)); [done|]. destruct Hx. exists s1, string.
      split; [done|lia].
    + intros r _. by apply quiet_respond.
  - case_decide; [|by apply respond_ok].
    destruct (GdbConnection.DecodeWithSeparator (ch ":") r3). by apply respond_ok.
Qed.

Lemma invoke_get_ok `{!SizedMemory W} n v s packet :
  wf s → v ≠ QFThreadInfo → (v = QXfer → ¬ xfer_past_end s packet) →
  ok (invoke_get n v s packet) (answered s).
Proof.
  intros Hwf Hf Hx. destruct v; cbn [invoke_get].
  - by apply QueryGetSupported_ok.
  - by apply QueryGetCurrentThread_ok.
  - done.
  - by apply QueryGetSThreadInfo_ok.
  - by apply QueryGetThreadExtraInfo_ok.
  - by apply QueryGetOffsets_ok.
  - by apply QueryGetRemoteCommand_ok.
  - apply QueryXfer_ok; auto.
Qed.

Lemma invoke_set_ok v s packet : wf s → answered s (invoke_set v s packet).
Proof.
  intros Hwf. destruct v; cbn [invoke_set].
  - unfold QuerySetStartNoAckMode. by apply quiet_respond, quiet_same.
  - unfold QuerySetThreadEvents. destruct packet; [by apply respond_ok|].
    repeat case_decide; by apply quiet_respond, quiet_same.
Qed.

Lemma HandlePacket_ok `{!SizedMemory W} obj n s ident packet :
  wf s → ¬ undefined_packet s ident packet →
  ok (HandlePacket obj n s ident packet) (handled s).
Proof.
  intros Hwf Hu. unfold HandlePacket.
  assert (∀ m, ok m (answered s) → ok m (handled s)) as Ha
    by (intros m Hm; eapply ok_mono; [done|apply answered_handled]).
  repeat (case_decide; [subst ident|]).
  - by apply answered_handled, respond_ok.
  - by apply answered_handled, respond_ok.
  - by apply Ha, HandleDetach_ok.
  - by apply Ha, HandleReadGeneralRegisters_ok.
  - by apply Ha, HandleWriteGeneralRegisters_ok.
  - by apply Ha, HandleSetCurrentThread_ok.
  - by apply Ha, HandleReadMemory_ok.
  - by apply Ha, HandleWriteMemory_ok.
  - apply Ha. unfold HandleGeneralGetQuery.
    destruct (match_query _ _ _ _) as [[q|] rest] eqn:Em; [|by apply respond_ok].
    apply invoke_get_ok; [done|intros Hv..].
    + apply Hu. by eapply undefined_threads.
    + intros Hx. apply Hu. by eapply undefined_xfer.
  - apply Ha. unfold HandleGeneralSetQuery.
    destruct (match_query _ _ _ _) as [[q|] rest]; [by apply invoke_set_ok|by apply respond_ok].
  - by apply answered_handled, respond_ok.
  - unfold HandleMultiletterPacket. destruct (read_until _ _) as [title rest].
    destruct (assoc _ _) as [[]|]; cbn [invoke_multiletter];
      [by apply Ha, HandleVAttach_ok|by apply answered_handled, respond_ok
      |by apply HandleVCont_ok|by apply answered_handled, respond_ok].
  - by apply answered_handled, respond_ok.
Qed.
End invariant.

Section results.
Context {W : Type} `{HD : ITwibDebugger W} `{HI : ITwibDeviceInterface W}.
Implicit Types s : stub W.

(** *** Thread lists *)

(** *** Hexadecimal text *)

Lemma Decode_hex_digits k n acc :
  0 ≤ n < 16 ^ Z.of_nat k → (0 < k)%nat →
  ∃ l, hex_digits k n acc = l ++ acc ∧ l ≠ [] ∧
    (∀ a, foldl GdbConnection.push_nybble (u64 a) l = u64 (16 ^ zlen l * a + n)) ∧
    Forall (fun c => GdbConnection.EncodeHexNybble (GdbConnection.DecodeHexNybble c) = c) l.
Proof.
  revert n acc. induction k as [|k IH]; intros n acc Hn Hk; [lia|]. cbn [hex_digits].
  set (c := GdbConnection.EncodeHexNybble (n mod 16)).
  pose proof (Z.mod_pos_bound n 16 ltac:(lia)) as Hm.
  assert (GdbConnection.DecodeHexNybble c = n mod 16) as Hc
    by (by apply GdbConnection.Decode_Encode_nybble).
  assert (GdbConnection.EncodeHexNybble (GdbConnection.DecodeHexNybble c) = c) as Hcc
    by (by rewrite Hc).
  pose proof (Z.div_mod n 16 ltac:(lia)) as Hdm.
  destruct (Z.eqb_spec (n / 16) 0) as [Hz|Hz].
  - exists [c]. split_and!; [done|done| |by repeat constructor]. intros a. cbn [foldl].
    rewrite GdbConnection.push_nybble_arith, Hc, u64_affine. change (zlen [c]) with 1.
    f_equal. lia.
  - destruct (IH (n / 16) (c :: acc)) as (l & E & Hl & Hf & Hh).
    { rewrite Nat2Z.inj_succ, Z.pow_succ_r in Hn by lia.
      split; [apply Z.div_pos; lia|apply Z.div_lt_upper_bound; lia]. }
    { destruct k; [|lia]. change (16 ^ Z.of_nat 1) with 16 in Hn.
      rewrite Z.div_small in Hz; lia. }
    exists (l ++ [c]). rewrite E, <- app_assoc. split_and!; [done|by destruct l| |].
    + intros a. rewrite foldl_app, Hf. cbn [foldl].
      rewrite GdbConnection.push_nybble_arith, Hc, u64_affine, zlen_app.
      change (zlen [c]) with 1. rewrite Z.pow_add_r by (pose proof (zlen_nonneg l); lia).
      change (16 ^ 1) with 16. f_equal. lia.
    + apply Forall_app. by repeat constructor.
Qed.

Lemma Decode_hex n : 0 ≤ n < 2 ^ 64 → GdbConnection.Decode (hex n) = n.
Proof.
  intros Hn. destruct (Decode_hex_digits 16 n [] Hn ltac:(lia)) as (l & E & _ & Hf & _).
  unfold hex, GdbConnection.Decode. rewrite E, app_nil_r.
  change 0 with (u64 0). rewrite Hf, Z.mul_0_r. by apply u64_small.
Qed.

Lemma DecodeWithSeparator_app sep l rest :
  Forall (fun c => c ≠ sep) l →
  GdbConnection.DecodeWithSeparator sep (l ++ sep :: rest) = (GdbConnection.Decode l, rest).
Proof.
  unfold GdbConnection.DecodeWithSeparator, GdbConnection.Decode. generalize 0 as acc.
  induction l as [|c l IH]; intros acc Hl; cbn.
  - by rewrite decide_True.
  - apply Forall_cons in Hl as [? ?]. rewrite decide_False by done. by apply IH.
Qed.

Lemma hex_no_separator n sep :
  0 ≤ n < 2 ^ 64 →
  GdbConnection.EncodeHexNybble (GdbConnection.DecodeHexNybble sep) ≠ sep →
  Forall (fun c => c ≠ sep) (hex n).
Proof.
  intros Hn Hs. destruct (Decode_hex_digits 16 n [] Hn ltac:(lia)) as (l & E & _ & _ & Hl).
  unfold hex. rewrite E, app_nil_r. eapply Forall_impl; [done|]. cbn. by intros c Hc ->.
Qed.

(** *** Transfers *)

Lemma read_xfer_packet offset length :
  0 ≤ offset < 2 ^ 64 → 0 ≤ length < 2 ^ 64 →
  ∃ rest, match_query (gettable_queries GdbStub_registry) [] None (xfer_packet offset length) =
    (Some (mk_Query (str "Xfer") QXfer false (ch ":")), rest) ∧
    read_until (ch ":") rest = (str "libraries", str "read::" ++ hex offset ++ str "," ++ hex length) ∧
    GdbConnection.DecodeWithSeparator (ch ",") (hex offset ++ str "," ++ hex length) =
      (offset, hex length).
Proof.
  intros Ho Hl. exists (str "libraries:read::" ++ hex offset ++ str "," ++ hex length).
  split_and!; [reflexivity|reflexivity|].
  change (str "," ++ hex length) with (ch "," :: hex length).
  rewrite DecodeWithSeparator_app by (by apply hex_no_separator).
  by rewrite Decode_hex.
Qed.

Lemma HandlePacket_xfer obj n s offset length s1 string :
  reg s = GdbStub_registry → 0 ≤ offset < 2 ^ 64 → 0 ≤ length < 2 ^ 64 →
  XferReadLibraries s = Done (s1, string) →
  HandlePacket obj n s (ch "q") (xfer_packet offset length) =
    response ← xfer_slice string offset length; Done (Respond s1 response).
Proof.
  intros Hreg Ho Hl Hg. destruct (read_xfer_packet offset length Ho Hl) as (rest & E1 & E2 & E3).
  change (HandlePacket obj n s (ch "q") (xfer_packet offset length)) with
    (HandleGeneralGetQuery n s (xfer_packet offset length)).
  unfold HandleGeneralGetQuery. rewrite Hreg, E1. cbn [visitor invoke_get]. unfold QueryXfer.
  rewrite E2, Hreg. 
  change (assoc (str "libraries") (xfer_objects GdbStub_registry)) with (Some xfer_libraries).
  cbv iota.
  change (read_until (ch ":") (str "read::" ++ hex offset ++ str "," ++ hex length)) with
    (str "read", str ":" ++ hex offset ++ str "," ++ hex length).
  cbv iota. rewrite decide_True by done.
  change (read_until (ch ":") (str ":" ++ hex offset ++ str "," ++ hex length)) with
    (@nil byte, hex offset ++ str "," ++ hex length).
  cbv iota. rewrite E3. cbn [Read generator]. rewrite Hg, Decode_hex by done. done.
Qed.

Lemma XferReadLibraries_add_reply s r s1 string :
  XferReadLibraries s = Done (s1, string) →
  XferReadLibraries (add_reply s r) = Done (add_reply s1 r, string).
Proof.
  unfold XferReadLibraries, deref_current, deref_process. cbn [current_thread add_reply].
  destruct (current_thread s) as [[p t]|]; [|by intros [= <- <-]]. cbn [attached_processes].
  destruct (om_find p _) as [q|]; [|done]. cbn.
  destruct (om_find t _) as [th|]; [|done]. cbn. unfold BuildLibraryList, request. cbn.
  destruct (GetNsoInfos _ _) as [w1 [|]]; cbn;
    destruct (GetNroInfos _ _) as [w2 [|]]; cbn; by intros [= <- <-].
Qed.

Lemma xfer_slice_in string offset length :
  0 ≤ offset ≤ zlen string → 0 < length → zlen string < 2 ^ 63 → length < 2 ^ 63 →
  xfer_slice string offset length =
    Done ((if zlen string <=? offset + length then str "l" else str "m") ++
          ztake length (zdrop offset string)).
Proof.
  intros Ho Hl Hs Hl'. unfold xfer_slice. rewrite !u64_small by lia.
  destruct (Z.leb_spec (offset + Z.min (zlen string - offset) length) (zlen string)); [|lia].
  rewrite orb_true_r. destruct (Z.le_gt_cases length (zlen string - offset)).
  - by rewrite Z.min_r by lia.
  - rewrite Z.min_l by lia. rewrite !(ztake_all _ (zdrop offset string)); [done| |]; zlia.
Qed.

(** *** Debug events *)

Lemma ingest_event_passes p q (g : @ingest W) e :
  om_find p (attached_processes (ig_stub g)) = Some q → passes e →
  thread_events_enabled (ig_stub g) = false → ig_stopped g = false →
  ∃ (g' : @ingest W) q', ingest_event p g e = Done g' ∧ ig_style g' = ig_style g ∧
    ig_signal g' = ig_signal g ∧ ig_stopped g' = false ∧
    thread_events_enabled (ig_stub g') = false ∧
    world (ig_stub g') = world (ig_stub g) ∧
    om_find p (attached_processes (ig_stub g')) = Some q' ∧
    debugger q' = debugger q ∧ pid q' = pid q ∧ threads q' = track (threads q) e.
Proof.
  intros Eq Hp Hev Hst. unfold ingest_event, deref_process, passes, track in *. rewrite Eq.
  cbn [mbind outcome_bind].
  set (s0 := update_process (ig_stub g) p (fun q => set_running q false)).
  assert (om_find p (attached_processes s0) = Some (set_running q false)) as E0
    by (subst s0; by rewrite find_update, Z.eqb_refl, Eq).
  assert (thread_events_enabled s0 = false ∧ world s0 = world (ig_stub g)) as [Ev0 Ew0].
  { destruct (update_rest (ig_stub g) p (fun q => set_running q false)) as (_ & _ & _ & ? & Ev).
    subst s0. by rewrite Ev. }
  destruct (event_type e); try done.
  - by exists (mk_ingest s0 (ig_style g) (ig_signal g) (event_thread_id e) (ig_stopped g)),
      (set_running q false).
  - set (s1 := update_process s0 p _).
    assert (thread_events_enabled s1 = false ∧ world s1 = world (ig_stub g)) as [Ev1 Ew1].
    { subst s1. by destruct (update_rest s0 p (fun q => set_threads q
        (om_emplace thread_id0 (mk_Thread thread_id0 tls_pointer) (threads q))
        (running_thread_ids q ++ [thread_id0]))) as (_ & _ & _ & -> & ->). }
    change (thread_events_enabled (invalidate s1)) with (thread_events_enabled s1). rewrite Ev1.
    exists (mk_ingest (invalidate s1) (ig_style g) (ig_signal g) thread_id0 (ig_stopped g)),
      (set_threads (set_running q false)
         (om_emplace thread_id0 (mk_Thread thread_id0 tls_pointer) (threads q))
         (running_thread_ids q ++ [thread_id0])).
    split_and!; try done; cbn. subst s1. by rewrite find_update, Z.eqb_refl, E0.
  - set (s1 := match om_find _ (threads (set_running q false)) with Some _ => _ | None => s0 end).
    assert (thread_events_enabled s1 = false ∧ world s1 = world (ig_stub g) ∧
      ∃ q', om_find p (attached_processes s1) = Some q' ∧ debugger q' = debugger q ∧
        pid q' = pid q ∧ threads q' = om_erase (event_thread_id e) (threads q))
      as (Ev1 & Ew1 & q' & E1 & ? & ? & ?).
    { subst s1. destruct (om_find (event_thread_id e) _) eqn:Et.
      - set (s2 := if decide _ then _ else s0).
        assert (thread_events_enabled s2 = false ∧ world s2 = world (ig_stub g) ∧
          attached_processes s2 = attached_processes s0) as (? & ? & Ea)
          by (subst s2; by case_decide).
        change (attached_processes (invalidate ?x)) with (attached_processes x).
        change (thread_events_enabled (invalidate ?x)) with (thread_events_enabled x).
        change (world (invalidate ?x)) with (world x).
        match goal with |- context [update_process s2 p ?f] =>
          destruct (update_rest s2 p f) as (_ & _ & _ & -> & ->) end.
        rewrite find_update, Z.eqb_refl, Ea, E0. split_and!; try done.
        eexists. by split_and!.
      - split_and!; try done. exists (set_running q false). split_and!; try done.
        cbn in *. clear -Et. induction (threads q) as [|[k a] ts IH]; [done|]. cbn in *.
        destruct (k =? _); [done|]. by rewrite <- IH. }
    rewrite Ev1. by exists (mk_ingest s1 (ig_style g) (ig_signal g) (event_thread_id e) (ig_stopped g)), q'.
  - by exists (mk_ingest s0 (ig_style g) (ig_signal g) (event_thread_id e) (ig_stopped g)),
      (set_running q false).
Qed.

Lemma ingest_loop_tracks es n p q (g : @ingest W) e w1 w2 :
  om_find p (attached_processes (ig_stub g)) = Some q →
  thread_events_enabled (ig_stub g) = false → ig_stopped g = false →
  Forall passes es → delivers (debugger q) (world (ig_stub g)) es w1 →
  GetDebugEvent (debugger q) w1 = (w2, inl (Some e)) →
  (∃ ty, event_type e = Exception ty) → (S (S (length es)) ≤ n)%nat →
  ∃ g' q', ingest_loop n p g = Done g' ∧ ig_stopped g' = true ∧ ig_style g' = ig_style g ∧
    (∀ ty, event_type e = Exception ty → ig_signal g' = signal_of ty (ig_signal g)) ∧
    ig_thread g' = event_thread_id e ∧
    om_find p (attached_processes (ig_stub g')) = Some q' ∧ running q' = false ∧
    pid q' = pid q ∧ threads q' = foldl track (threads q) es.
Proof.
  revert n q g. induction es as [|e1 es IH]; intros n q g Eq Hev Hst Hes Hd He [ty Ety] Hn;
    (destruct n as [|n]; [cbn in Hn; lia|]); cbn [ingest_loop]; rewrite Hst;
    unfold deref_process; rewrite Eq; cbn [mbind outcome_bind]; unfold request.
  - inversion Hd; subst. rewrite He. cbn [uncaught mbind outcome_bind].
    unfold ingest_event, deref_process. cbn [ig_stub attached_processes set_world].
    rewrite Eq, Ety. cbn [mbind outcome_bind ig_style ig_signal ig_stopped].
    destruct n as [|n]; [cbn in Hn; lia|]. cbn [ingest_loop ig_stopped].
    eexists _, (set_running q false). split_and!; try reflexivity.
    + cbn. intros ty' [= <-]. done.
    + cbn. rewrite find_update, Z.eqb_refl. cbn. by rewrite Eq.
  - inversion Hd as [|? w3 ? ? ? E1 Hd']; subst. rewrite E1. cbn [uncaught mbind outcome_bind].
    apply Forall_cons in Hes as [Hp Hes].
    set (g1 := mk_ingest (set_world (ig_stub g) w3) (ig_style g) (ig_signal g) (ig_thread g) _).
    destruct (ingest_event_passes p q g1 e1) as
      (g2 & q2 & -> & Esty & Esig & Hst2 & Hev2 & Ew2 & Eq2 & Edb & Epid & Eth); try done.
    cbn [mbind outcome_bind].
    destruct (IH n q2 g2) as (g3 & q3 & -> & ? & Es3 & Eg3 & ? & ? & ? & Ep3 & Et3); try done.
    { by rewrite Edb, Ew2. }
    { by rewrite Edb. }
    { by exists ty. }
    { cbn in Hn. lia. }
    exists g3, q3. split_and!; try done.
    + by rewrite Es3, Esty.
    + intros ty' Ety'. rewrite (Eg3 ty' Ety'), Esig. done.
    + by rewrite Ep3.
    + by rewrite Et3, Eth.
Qed.

Lemma ingest_event_debugger p (g : @ingest W) e g' q :
  om_find p (attached_processes (ig_stub g)) = Some q → ingest_event p g e = Done g' →
  world (ig_stub g') = world (ig_stub g) ∧
  ∃ q', om_find p (attached_processes (ig_stub g')) = Some q' ∧ debugger q' = debugger q.
Proof.
  intros Eq. unfold ingest_event, deref_process. rewrite Eq. cbn [mbind outcome_bind].
  set (s0 := update_process (ig_stub g) p (fun q => set_running q false)).
  assert (∃ q', om_find p (attached_processes s0) = Some q' ∧ debugger q' = debugger q) as [q0 [E0 D0]]
    by (subst s0; rewrite find_update, Z.eqb_refl, Eq; by eexists).
  assert (world s0 = world (ig_stub g)) as Ew0 by apply update_rest.
  assert (∀ s f, world s = world s0 → attached_processes s = attached_processes s0 →
    (∀ q, debugger (f q) = debugger q) →
    world (invalidate (update_process s p f)) = world (ig_stub g) ∧
    ∃ q', om_find p (attached_processes (invalidate (update_process s p f))) = Some q' ∧
      debugger q' = debugger q) as Hup.
  { intros s f Ew Ea Hf. change (world (invalidate ?x)) with (world x).
    change (attached_processes (invalidate ?x)) with (attached_processes x).
    split; [etrans; [apply update_rest|congruence]|].
    rewrite find_update, Z.eqb_refl, Ea, E0. exists (f q0). by rewrite Hf. }
  destruct (event_type e); [|case_match| | | |]; try (intros [= <-]; cbn; by eauto).
  - intros [= <-]. by apply Hup.
  - intros [= <-]. by apply Hup.
  - destruct (om_find (event_thread_id e) _).
    + set (s2 := if decide _ then _ else s0).
      assert (world s2 = world s0 ∧ attached_processes s2 = attached_processes s0) as [? ?]
        by (subst s2; by case_decide).
      case_match; intros [= <-]; by apply Hup.
    + case_match; intros [= <-]; cbn; by eauto.
Qed.

Lemma ingest_loop_terminates `{!FiniteEvents W} n p q (g : @ingest W) :
  om_find p (attached_processes (ig_stub g)) = Some q →
  (pending (debugger q) (world (ig_stub g)) + 1 < n)%nat → ingest_loop n p g ≠ OutOfFuel.
Proof.
  revert g q. induction n as [|n IH]; intros g q Eq Hn; [lia|]. cbn [ingest_loop].
  destruct (ig_stopped g); [done|]. unfold deref_process. rewrite Eq. cbn [mbind outcome_bind].
  unfold request. destruct (GetDebugEvent (debugger q) (world (ig_stub g))) as [w [[e|]|]] eqn:Ed;
    cbn [uncaught mbind outcome_bind]; [|done|done].
  set (g1 := mk_ingest (set_world (ig_stub g) w) _ _ _ _).
  apply GetDebugEvent_pending in Ed.
  destruct (ingest_event p g1 e) as [g2| | | |] eqn:Ee; try done.
  - destruct (ingest_event_debugger p g1 e g2 q) as (Ew & q2 & Eq2 & Edb); [done|done|].
    apply (IH g2 q2 Eq2). rewrite Edb, Ew. cbn. lia.
  - revert Ee. unfold ingest_event, deref_process. cbn [ig_stub g1 attached_processes set_world].
    subst g1. cbn [ig_stub attached_processes set_world]. rewrite Eq. cbn [mbind outcome_bind].
    repeat case_match; done.
Qed.
End results.

(** ** Theorems *)

Lemma attached_stub_wf : wf Device.attached_stub.
Proof.
  split; try done.
  - repeat constructor.
  - intros k q. unfold Device.attached_stub. cbn [attached_processes om_find].
    destruct (Z.eqb_spec 81 k) as [<-|]; [|done]. intros [= <-].
    split_and!; [done|repeat constructor; lia|]. intros t th. cbn [threads om_find].
    destruct (Z.eqb_spec 1 t); [by intros [= <-]|].
    destruct (Z.eqb_spec 2 t); [by intros [= <-]|done].
  - intros p t [= <- <-]. by eexists _, _.
Defined.

(** C16: memory safety and exactly-once answers of the packet handlers.  In a
    well-formed state (no dangling current-thread pointer, valid iterators, ordered
    maps), and with a device that returns as much memory as was asked for, every
    packet except those of [undefined_packet] is handled without undefined
    behaviour; if the handler returns, the state is well formed again and the packet
    has been answered exactly once, or has resumed the processes ([vCont]) without an
    answer, the stub then waiting for a stop. *)
Theorem gdb_packet_safety {W} `{ITwibDebugger W} `{ITwibDeviceInterface W} `{!SizedMemory W}
    string_object fuel (s : stub W) ident packet :
  wf s → ¬ undefined_packet s ident packet →
  ok (HandlePacket string_object fuel s ident packet) (handled s).
Proof. intros. by apply HandlePacket_ok. Qed.

Lemma gdb_packet_safety_witness :
  ok (HandlePacket id 10 Device.attached_stub (ch "D") (str ";51"))
    (handled Device.attached_stub).
Proof.
  apply gdb_packet_safety.
  - apply attached_stub_wf.
  - inversion 1; discriminate.
Defined.

(** the undefined packets are really undefined: detaching from one process or
    writing registers with no current thread, writing too few registers (both guards
    of [HandleWriteGeneralRegisters] answer with an error and go on), selecting the
    first thread of a process without threads, writing fewer than four bytes, and listing
    the threads: the loop of [QueryGetSThreadInfo] asks the end iterator of the processes for
    its threads, and with no process [QueryGetFThreadInfo] does. *)
Theorem gdb_undefined_packets {W} `{ITwibDebugger W} `{ITwibDeviceInterface W}
    string_object fuel (s : stub W) ident packet :
  undefined_packet s ident packet → ident ≠ ch "q" ∨
    (∃ q rest, match_query (gettable_queries (reg s)) [] None packet = (Some q, rest) ∧ visitor q = QFThreadInfo) →
  HandlePacket string_object fuel s ident packet = Undefined.
Proof.
  intros Hu Hq. destruct Hu as [packet Hc|packet Hc|packet Hlen Hsel|packet Hc Hw|packet q rest Em Ev|packet q rest Em Ev Hx];
    unfold HandlePacket; repeat (rewrite decide_False by done); rewrite ?decide_True by done.
  - unfold HandleDetach. rewrite decide_False by (intros Hne; by apply Hne).
    unfold deref_current. by rewrite Hc.
  - unfold HandleWriteGeneralRegisters.
    destruct (Z.ltb_spec (zlen (GdbConnection.Decode_bytes packet)) (268 + 520)); [done|].
    destruct Hc as [Hc|]; [|lia]. rewrite Hc. cbv zeta.
    unfold deref_current. destruct (_ <? 788); cbn; by rewrite Hc.
  - unfold HandleSetCurrentThread. rewrite (proj2 (Z.ltb_ge _ _) Hlen).
    destruct packet as [|op packet]; [done|]. destruct Hsel as (p & r & q & E & Et & Hp).
    cbn [tail] in E. rewrite E. cbn [mbind outcome_bind].
    destruct Hp as [[-> (k & l & Ea)]|[Hp Ea]]; cbn.
    + by rewrite Ea; cbn; rewrite Et.
    + rewrite (proj2 (Z.eqb_neq p 0) Hp), Ea. by rewrite Et.
  - unfold HandleWriteMemory, writes_short in *.
    destruct (GdbConnection.DecodeWithSeparator (ch ",") packet) as [address r1]. cbn [snd] in Hw.
    destruct (GdbConnection.DecodeWithSeparator (ch ":") r1) as [size r2].
    destruct Hw as [Hw Hlt]. destruct (current_thread s); [|done].
    rewrite Hw, Z.eqb_refl. cbn [negb]. by rewrite (proj2 (Z.ltb_lt _ _) Hlt).
  - unfold HandleGeneralGetQuery. rewrite Em, Ev. apply QueryGetFThreadInfo_undefined.
  - destruct Hx as (s' & string & E & _), Hq as [Hq|(q' & rest' & Em' & Ev')]; [done|].
    rewrite Em in Em'. injection Em' as <- <-. congruence.
Qed.

Lemma gdb_undefined_packets_witness :
  HandlePacket id 10 (init (@nil DebugEvent)) (ch "G") (str "00") = Undefined.
Proof. apply gdb_undefined_packets; [apply undefined_registers; by left|left; discriminate]. Defined.

(** the threads cannot be listed.  Whatever the state, GDB's [qfThreadInfo] query has undefined
    behaviour: with processes the loop runs up to the end of the process map and follows its end
    iterator, and with none the query starts by following it. *)
Theorem gdb_thread_list {W} `{ITwibDebugger W} `{ITwibDeviceInterface W} string_object fuel (s : stub W) args :
  reg s = GdbStub_registry →
  HandlePacket string_object fuel s (ch "q") (str "fThreadInfo") = Undefined ∧
  HandlePacket string_object fuel s (ch "q") (str "fThreadInfo" ++ ch ":" :: args) = Undefined.
Proof.
  intros Hr. unfold HandlePacket. repeat (rewrite decide_False by done). rewrite decide_True by done.
  unfold HandleGeneralGetQuery. rewrite Hr. split; cbn; apply QueryGetFThreadInfo_undefined.
Qed.

Lemma gdb_thread_list_witness :
  HandlePacket id 10 Device.attached_stub (ch "q") (str "fThreadInfo") = Undefined.
Proof. apply (gdb_thread_list id 10 Device.attached_stub []). reflexivity. Defined.

(** reading the library list in pieces.  A client that asks for successive
    [qXfer] reads of any length, with hexadecimal offsets, gets pieces whose
    concatenation is exactly the generated document, and it terminates. *)
Theorem gdb_xfer_reassembles {W} `{ITwibDebugger W} `{ITwibDeviceInterface W}
    string_object fuel n (s : stub W) string length :
  reg s = GdbStub_registry → XferReadLibraries s = Done (s, string) →
  zlen string < 2 ^ 62 → 0 < length < 2 ^ 62 → zlen string < Z.of_nat n →
  ∃ s', xfer_client (fun s => HandlePacket string_object fuel s (ch "q")) n s 0 length =
    Done (s', string).
Proof.
  intros Hreg Hg Hs Hl Hn.
  assert (∀ n s offset, reg s = GdbStub_registry → XferReadLibraries s = Done (s, string) →
    0 ≤ offset ≤ zlen string → zlen string - offset < Z.of_nat n →
    ∃ s', xfer_client (fun s => HandlePacket string_object fuel s (ch "q")) n s
            offset length = Done (s', zdrop offset string)) as Hgen.
  2: { apply (Hgen n s 0); [done|done|pose proof (zlen_nonneg string); lia|lia]. }
  clear Hreg Hg Hn n s. induction n as [|n IH]; intros s offset Hreg Hg Ho Hn; [lia|].
  cbn [xfer_client]. rewrite (HandlePacket_xfer _ _ _ _ _ _ _ Hreg) by (done || lia).
  rewrite xfer_slice_in by lia. cbn [mbind outcome_bind].
  unfold Respond at 1. cbn [replies add_reply]. rewrite last_snoc.
  destruct (Z.leb_spec (zlen string) (offset + length)) as [Hend|Hmore]; cbn [app].
  - change (str "l" ++ ?l) with (ch "l" :: l). cbv iota. rewrite decide_True by done.
    eexists. rewrite ztake_all by zlia. done.
  - change (str "m" ++ ?l) with (ch "m" :: l). cbv iota. rewrite decide_False by done.
    set (chunk := ztake length (zdrop offset string)).
    assert (zlen chunk = length) as -> by (subst chunk; zlia).
    destruct (IH (Respond s (ch "m" :: chunk)) (offset + length)) as [s' E].
    + done.
    + by apply XferReadLibraries_add_reply.
    + lia.
    + lia.
    + rewrite E. cbn [mbind outcome_bind]. exists s'. subst chunk.
      rewrite <- zdrop_zdrop by lia. by rewrite ztake_zdrop.
Qed.

Lemma gdb_xfer_reassembles_witness :
  ∃ s', xfer_client (fun s => HandlePacket id 10 s (ch "q")) 30
    (init (@nil DebugEvent)) 0 7 = Done (s', str "<library-list></library-list>").
Proof. apply gdb_xfer_reassembles; reflexivity || (split; reflexivity). Defined.

Lemma IngestEvents_stop {W} `{ITwibDebugger W} fuel (s : stub W) p q es e ty w1 w2 :
  om_find p (attached_processes s) = Some q → pid q = p →
  thread_events_enabled s = false → Forall passes es →
  delivers (debugger q) (world s) es w1 → GetDebugEvent (debugger q) w1 = (w2, inl (Some e)) →
  event_type e = Exception ty → event_thread_id e ≠ 0 → (length es + 2 ≤ fuel)%nat →
  ∃ s' q', IngestEvents fuel s p = Done (s', true) ∧
    stop_reason s' = str "T" ++ GdbConnection.Encode (signal_of ty 0) 1 ++ str "thread:p" ++
      GdbConnection.Encode p 0 ++ str "." ++ GdbConnection.Encode (event_thread_id e) 0 ++
      str ";" ∧
    om_find p (attached_processes s') = Some q' ∧ running q' = false ∧
    threads q' = foldl track (threads q) es.
Proof.
  intros Eq Epid Hev Hes Hd He Ety Htid Hn.
  destruct (ingest_loop_tracks es fuel p q (mk_ingest s (ch "T") 0 0 false) e w1 w2)
    as (g & q' & Eg & Est & Esty & Esig & Etid & Eq' & Erun & Ep' & Eth);
    try done; [by exists ty|lia|].
  unfold IngestEvents, deref_process. rewrite Eq. cbn [mbind outcome_bind]. rewrite Eg.
  cbn [mbind outcome_bind]. rewrite Eq', Est. cbn [mbind outcome_bind negb].
  rewrite andb_false_r.
  set (s2 := set_stop_reason (ig_stub g) _). set (s3 := if has_async_wait s2 then s2 else _).
  exists s3, q'. split; [done|].
  assert (stop_reason s3 = stop_text (pid q') g ∧ attached_processes s3 = attached_processes (ig_stub g))
    as [-> ->] by (subst s3; by destruct (has_async_wait s2)).
  split_and!; try done. unfold stop_text. rewrite Esty. cbn [ig_style].
  rewrite decide_True by done. rewrite (Esig ty Ety), Etid, Ep', Epid. cbn [ig_signal].
  by rewrite (proj2 (Z.eqb_neq _ 0) Htid).
Qed.

(** a stop is reported with the event that caused it, and the threads follow the
    events before it.  If the pending events of an attached process are thread
    attachments and exits (thread events being off) followed by an exception, then
    [IngestEvents] reports a stop, the stop reason is the [T] packet with the
    exception's signal and thread, and the thread map is the result of the events. *)
Theorem gdb_stop_report {W} `{ITwibDebugger W} fuel (s : stub W) p q es e ty w1 w2 :
  om_find p (attached_processes s) = Some q → pid q = p →
  thread_events_enabled s = false → Forall passes es →
  delivers (debugger q) (world s) es w1 → GetDebugEvent (debugger q) w1 = (w2, inl (Some e)) →
  event_type e = Exception ty → event_thread_id e ≠ 0 → (length es + 2 ≤ fuel)%nat →
  ∃ s' q', IngestEvents fuel s p = Done (s', true) ∧
    stop_reason s' = str "T" ++ GdbConnection.Encode (signal_of ty 0) 1 ++ str "thread:p" ++
      GdbConnection.Encode p 0 ++ str "." ++ GdbConnection.Encode (event_thread_id e) 0 ++
      str ";" ∧
    om_find p (attached_processes s') = Some q' ∧ running q' = false ∧
    threads q' = foldl track (threads q) es.
Proof. apply IngestEvents_stop. Qed.

Lemma gdb_stop_report_witness :
  ∃ s' q', IngestEvents 5 Device.attached_stub 81 = Done (s', true) ∧
    stop_reason s' = str "T05thread:p51.02;" ∧
    om_find 81 (attached_processes s') = Some q' ∧ running q' = false ∧
    threads q' = [(1, mk_Thread 1 8192); (2, mk_Thread 2 8704)].
Proof.
  apply (gdb_stop_report 5 Device.attached_stub 81
    (mk_Process 81 81 [(1, mk_Thread 1 8192); (2, mk_Thread 2 8704)] [1; 2] true true) []
    (mk_DebugEvent (Exception BreakPoint) 2) BreakPoint
    [mk_DebugEvent (Exception BreakPoint) 2] []); try reflexivity; try discriminate.
  - constructor.
  - constructor.
  - cbn. lia.
Defined.

Lemma IngestEvents_terminates {W} `{ITwibDebugger W} `{!FiniteEvents W}
    fuel (s : stub W) p q :
  om_find p (attached_processes s) = Some q → (pending (debugger q) (world s) + 2 ≤ fuel)%nat →
  IngestEvents fuel s p ≠ OutOfFuel.
Proof.
  intros Eq Hn. unfold IngestEvents, deref_process. rewrite Eq. cbn [mbind outcome_bind].
  pose proof (ingest_loop_terminates fuel p q (mk_ingest s (ch "T") 0 0 false) Eq) as Hl.
  cbn in Hl. specialize (Hl ltac:(lia)).
  destruct (ingest_loop fuel p _) as [g| | | |]; try done. cbn [mbind outcome_bind].
  destruct (om_find p (attached_processes (ig_stub g))) as [q'|]; [|done].
  cbn [mbind outcome_bind]. destruct (_ && _); [|done].
  destruct (request _ _) as [s' [[]|]]; done.
Qed.

(** the event loop terminates.  If a process has finitely many pending events
    and the fuel exceeds their number by two, [IngestEvents] on an attached process
    returns (or a request to the device fails): it does not run out of fuel. *)
Theorem gdb_ingest_terminates {W} `{ITwibDebugger W} `{!FiniteEvents W}
    fuel (s : stub W) p q :
  om_find p (attached_processes s) = Some q → (pending (debugger q) (world s) + 2 ≤ fuel)%nat →
  IngestEvents fuel s p ≠ OutOfFuel.
Proof. apply IngestEvents_terminates. Qed.

Lemma gdb_ingest_terminates_witness : IngestEvents 3 Device.attached_stub 81 ≠ OutOfFuel.
Proof.
  apply (gdb_ingest_terminates 3 Device.attached_stub 81
    (mk_Process 81 81 [(1, mk_Thread 1 8192); (2, mk_Thread 2 8704)] [1; 2] true true));
    [reflexivity|cbn; lia].
Defined.

(** query dispatch.  A query packet made of a registered field, alone or
    followed by the field's separator and arguments, reaches that field's handler
    with exactly the arguments, for each of the eight [q] and two [Q] queries, and
    each of the three [v] packets likewise; the constructor advertises the two
    settings and the library transfer. *)
Theorem gdb_dispatch (args : bytes) :
  Forall (fun '(name, q) =>
      match_query (gettable_queries GdbStub_registry) [] None (name ++ separator q :: args)
        = (Some q, args) ∧
      match_query (gettable_queries GdbStub_registry) [] None name = (Some q, []) ∧ field q = name)
    (gettable_queries GdbStub_registry) ∧
  Forall (fun '(name, q) =>
      match_query (settable_queries GdbStub_registry) [] None (name ++ separator q :: args)
        = (Some q, args) ∧
      match_query (settable_queries GdbStub_registry) [] None name = (Some q, []) ∧ field q = name)
    (settable_queries GdbStub_registry) ∧
  Forall (fun '(name, v) =>
      read_until (ch ";") (name ++ ch ";" :: args) = (name, args) ∧
      assoc name (multiletter_handlers GdbStub_registry) = Some v)
    (multiletter_handlers GdbStub_registry) ∧
  map (fun '(_, q) => visitor q) (gettable_queries GdbStub_registry) =
    [QSupported; QCurrentThread; QFThreadInfo; QSThreadInfo; QThreadExtraInfo; QOffsets;
     QRemoteCommand; QXfer] ∧
  features GdbStub_registry =
    [str "QStartNoAckMode+"; str "QThreadEvents+"; str "qXfer:libraries:read+"].
Proof. split_and!; [..|reflexivity|reflexivity]; repeat constructor. Qed.

End GdbStub.
