(* ===== verification/Pipe.v ===== *)
(** * twili/TwibPipe.{hpp,cpp} and the pipe's clients

    A [TwibPipe] joins one reader and one writer through a limited buffer.  Its
    state machine is idle, a write is pending, or a read is pending.  Callbacks are
    values of the clients' own types; what invoking one does is an argument of the
    operations: the clients' new state, for a read callback the number of bytes it
    took, and the calls it makes on the pipe before it returns.  Operations and
    callbacks therefore call each other; the operations take the recursive call as
    the argument [again] and [exec] ties the knot with fuel, the depth of nesting.

    The memory a pending write points to stays as it is until its callback runs
    (the writer's duty), so the model keeps its bytes.  The second half of the file
    is the clients: the bridge's reader and writer objects and the IPC pipe. *)
From S2P Require Import Prelude Err Buffer.

Module Pipe.
Import Err.

Section pipe.
(** Read callbacks, write callbacks, the state of the clients. *)
Context {RC WC W : Type}.

Inductive call : Type :=
| CallRead (cb : RC)
| CallWrite (data : bytes) (cb : WC)
| CallCloseReader
| CallCloseWriter.

(** A read callback that has been moved out of its state is [None]. *)
Inductive state_variant : Type :=
| IdleState
| WritePendingState (data : bytes) (cb : WC)
| ReadPendingState (cb : option RC).

Record t : Type := mk { state : state_variant; hit_eof : bool; buffer : Buffer.t }.

Definition TwibPipe (buffer_limit : Z) : t := mk IdleState false (Buffer.Buffer_limited buffer_limit).

Definition set_state (p : t) (s : state_variant) : t := mk s (hit_eof p) (buffer p).
Definition set_buffer (p : t) (b : Buffer.t) : t := mk (state p) (hit_eof p) b.
Definition set_eof (p : t) : t := mk (state p) true (buffer p).
Definition IsWriterClosed (p : t) : bool := hit_eof p.

Context (on_read : RC → bytes → W → outcome (W * Z * list call)).
Context (on_write : WC → bool → W → outcome (W * list call)).

Section operations.
Context (again : call → t * W → outcome (t * W)).

Fixpoint calls (l : list call) (pw : t * W) : outcome (t * W) :=
  match l with
  | [] => Done pw
  | c :: l => pw ← again c pw; calls l pw
  end.

Definition invoke_read (cb : RC) (data : bytes) (pw : t * W) : outcome (Z * (t * W)) :=
  '(w, n, l) ← on_read cb data (snd pw);
  pw ← calls l (fst pw, w);
  Done (n, pw).
Definition invoke_write (cb : WC) (eof : bool) (pw : t * W) : outcome (t * W) :=
  '(w, l) ← on_write cb eof (snd pw);
  calls l (fst pw, w).

Definition ExitWritePendingState (cb : WC) (pw : t * W) : outcome (t * W) :=
  invoke_write cb false (set_state (fst pw) IdleState, snd pw).

(** The bytes are copied behind the write head of the buffer, which stays. *)
Definition FlushWritePendingState (data : bytes) (cb : WC) (pw : t * W) :
    outcome (bool * (t * W)) :=
  let '(p, w) := pw in
  '(b, avail) ← Buffer.Reserve (buffer p) (zlen data);
  let allowed_transfer_size := Z.min avail (zlen data) in
  b ← Buffer.store b 0 (ztake allowed_transfer_size data);
  let p := set_buffer p b in
  if allowed_transfer_size <? zlen data then
    Done (false, (set_state p (WritePendingState (zdrop avail data) cb), w))
  else
    pw ← ExitWritePendingState cb (p, w);
    Done (true, pw).

(** What follows a read callback in the write-pending state: [k] goes on with the
    state's data and callback. *)
Definition still_pending (pw : t * W) (k : bytes → WC → outcome (t * W)) : outcome (t * W) :=
  match state (fst pw) with
  | WritePendingState data cb => k data cb
  | _ => if negb (hit_eof (fst pw)) then Aborts TWILI_ERR_INVALID_PIPE_STATE else Done pw
  end.

Definition Read (cb : RC) (pw : t * W) : outcome (t * W) :=
  let '(p, w) := pw in
  match state p with
  | IdleState =>
      if 0 <? Buffer.ReadAvailable (buffer p) then
        '(read_size, (p, w)) ← invoke_read cb (Buffer.contents (buffer p)) (p, w);
        Done (set_buffer p (Buffer.MarkRead (buffer p) read_size), w)
      else if hit_eof p then
        '(_, pw) ← invoke_read cb [] (p, w);
        Done pw
      else Done (set_state p (ReadPendingState (Some cb)), w)
  | WritePendingState data wcb =>
      '(flushed, (p, w)) ← FlushWritePendingState data wcb (p, w);
      if flushed : bool then again (CallRead cb) (p, w)
      else if 0 <? Buffer.ReadAvailable (buffer p) then
        '(read_size, (p, w)) ← invoke_read cb (Buffer.contents (buffer p)) (p, w);
        still_pending (p, w) (fun data wcb =>
          '(_, pw) ← FlushWritePendingState data wcb
             (set_buffer p (Buffer.MarkRead (buffer p) read_size), w);
          Done pw)
      else
        match state p with
        | WritePendingState data _ =>
            '(read_size, (p, w)) ← invoke_read cb data (p, w);
            still_pending (p, w) (fun data wcb =>
              if zlen data <? read_size then Aborts TWILI_ERR_INVALID_PIPE_STATE
              else
                '(_, pw) ← FlushWritePendingState (zdrop read_size data) wcb (p, w);
                Done pw)
        | _ => Undefined
        end
  | ReadPendingState _ => Aborts TWILI_ERR_INVALID_PIPE_STATE
  end.

Definition Write (data : bytes) (cb : WC) (pw : t * W) : outcome (t * W) :=
  let '(p, w) := pw in
  if (zlen data =? 0) || hit_eof p then invoke_write cb (hit_eof p) (p, w)
  else
    match state p with
    | IdleState =>
        '(b, ok) ← Buffer.Write (buffer p) data;
        if ok : bool then invoke_write cb false (set_buffer p b, w)
        else Done (set_state (set_buffer p b) (WritePendingState data cb), w)
    | WritePendingState _ _ => Aborts TWILI_ERR_INVALID_PIPE_STATE
    | ReadPendingState None => Undefined
    | ReadPendingState (Some read_cb) =>
        '(read_size, (p, w)) ← invoke_read read_cb data (set_state p (ReadPendingState None), w);
        if read_size <? zlen data then
          Done (set_state p (WritePendingState (zdrop read_size data) cb), w)
        else if read_size =? zlen data then
          invoke_write cb false (set_state p IdleState, w)
        else Aborts TWILI_ERR_INVALID_PIPE_STATE
    end.

Definition CloseReader (pw : t * W) : outcome (t * W) :=
  let '(p, w) := pw in
  let p := set_eof p in
  '(p, w) ← match state p with
            | IdleState => Done (p, w)
            | WritePendingState _ cb => invoke_write cb true (p, w)
            | ReadPendingState None => Undefined
            | ReadPendingState (Some cb) => '(_, pw) ← invoke_read cb [] (p, w); Done pw
            end;
  Done (set_state p IdleState, w).

Definition CloseWriter (pw : t * W) : outcome (t * W) :=
  let '(p, w) := pw in
  let p := set_eof p in
  match state p with
  | IdleState | WritePendingState _ _ => Done (p, w)
  | ReadPendingState None => Undefined
  | ReadPendingState (Some cb) =>
      '(_, (p, w)) ← invoke_read cb [] (p, w);
      Done (set_state p IdleState, w)
  end.

Definition dispatch (c : call) (pw : t * W) : outcome (t * W) :=
  match c with
  | CallRead cb => Read cb pw
  | CallWrite data cb => Write data cb pw
  | CallCloseReader => CloseReader pw
  | CallCloseWriter => CloseWriter pw
  end.
End operations.

Fixpoint exec (depth : nat) (c : call) (pw : t * W) : outcome (t * W) :=
  match depth with
  | O => OutOfFuel
  | S depth => dispatch (exec depth) c pw
  end.
(** The calls that come from outside, one after another. *)
Definition run (depth : nat) (l : list call) (pw : t * W) : outcome (t * W) :=
  calls (exec depth) l pw.
End pipe.
Arguments call : clear implicits.
Arguments state_variant : clear implicits.
Arguments t : clear implicits.

(** ** Specification: a bounded queue with at most one waiting reader or writer

    Observers are clients that only record what happens to them: a reader that
    takes at most so many bytes (as [IPipeTwib] and [ITwibPipeReader] do), a writer
    known by a name. *)
Inductive ev : Type :=
| Got (data : bytes)
| Eof
| Completed (name : Z) (eof : bool).

Definition observer : Type := list ev.
Definition observe_read (most : Z) (data : bytes) (w : observer) :
    outcome (observer * Z * list (call Z Z)) :=
  match data with
  | [] => Done (w ++ [Eof], 0, [])
  | _ => let n := Z.min most (zlen data) in Done (w ++ [Got (ztake n data)], n, [])
  end.
Definition observe_write (name : Z) (eof : bool) (w : observer) :
    outcome (observer * list (call Z Z)) := Done (w ++ [Completed name eof], []).

Record spec : Type := mk_spec {
  queue : bytes;
  writer : option Z;
  reader : option Z;
  ended : bool }.
Definition spec_new : spec := mk_spec [] None None false.

(** [None] is outside of what the pipe promises: a second read or write while one
    is pending, and a write that would have to wait in a pipe that has a buffer. *)
Definition spec_step (lim : Z) (s : spec) (c : call Z Z) : option (spec * list ev) :=
  match c with
  | CallRead most =>
      match reader s with
      | Some _ => None
      | None =>
          let n := Z.min most (zlen (queue s)) in
          let rest := zdrop n (queue s) in
          match queue s with
          | [] => if ended s then Some (s, [Eof]) else Some (mk_spec [] None (Some most) false, [])
          | _ =>
              match writer s, rest with
              | Some name, [] => Some (mk_spec [] None None (ended s),
                                       [Got (ztake n (queue s)); Completed name false])
              | _, _ => Some (mk_spec rest (writer s) None (ended s), [Got (ztake n (queue s))])
              end
          end
      end
  | CallWrite data name =>
      if (zlen data =? 0) || ended s then Some (s, [Completed name (ended s)])
      else
        match writer s, reader s with
        | Some _, _ => None
        | None, Some most =>
            let n := Z.min most (zlen data) in
            let rest := zdrop n data in
            match rest with
            | [] => Some (mk_spec [] None None false, [Got (ztake n data); Completed name false])
            | _ => if lim =? 0 then Some (mk_spec rest (Some name) None false, [Got (ztake n data)])
                   else None
            end
        | None, None =>
            if zlen (queue s) + zlen data <=? lim
            then Some (mk_spec (queue s ++ data) None None false, [Completed name false])
            else if lim =? 0 then Some (mk_spec data (Some name) None false, []) else None
        end
  | CallCloseReader =>
      match writer s, reader s with
      | Some name, _ => Some (mk_spec [] None None true, [Completed name true])
      | None, Some _ => Some (mk_spec (queue s) None None true, [Eof])
      | None, None => Some (mk_spec (queue s) None None true, [])
      end
  | CallCloseWriter =>
      match reader s with
      | Some _ => Some (mk_spec (queue s) None None true, [Eof])
      | None => Some (mk_spec (queue s) (writer s) None true, [])
      end
  end.

Fixpoint spec_run (lim : Z) (s : spec) (l : list (call Z Z)) : option (spec * list ev) :=
  match l with
  | [] => Some (s, [])
  | c :: l =>
      '(s, e) ← spec_step lim s c;
      '(s, e') ← spec_run lim s l;
      Some (s, e ++ e')
  end.

Definition call_ok (c : call Z Z) : Prop :=
  match c with
  | CallRead most => 0 < most
  | CallWrite data _ => zlen data ≤ 2 ^ 61
  | _ => True
  end.

(** The pipe [p] is in the abstract state [s]. *)
Record represents (lim : Z) (p : t Z Z) (s : spec) : Prop := {
  rep_wf : Buffer.wf (buffer p);
  rep_limit : Buffer.limit (buffer p) = Some lim;
  rep_eof : hit_eof p = ended s;
  rep_state :
    match state p with
    | IdleState => Buffer.contents (buffer p) = queue s ∧ writer s = None ∧ reader s = None
    | WritePendingState data name =>
        lim = 0 ∧ data = queue s ∧ data ≠ [] ∧ zlen data ≤ 2 ^ 61 ∧
        Buffer.contents (buffer p) = [] ∧ writer s = Some name ∧ reader s = None
    | ReadPendingState (Some most) =>
        0 < most ∧ queue s = [] ∧ Buffer.contents (buffer p) = [] ∧ writer s = None ∧
        reader s = Some most ∧ ended s = false
    | ReadPendingState None => False
    end }.

(** The bytes the reader got, and the bytes the pipe still holds for it. *)
Definition got (l : list ev) : bytes :=
  l ≫= (fun e => match e with Got d => d | _ => [] end).
Definition held {RC WC} (p : t RC WC) : bytes :=
  Buffer.contents (buffer p) ++
  match state p with WritePendingState data _ => data | _ => [] end.
Definition written {RC WC} (l : list (call RC WC)) : bytes :=
  l ≫= (fun c => match c with CallWrite data _ => data | _ => [] end).
(** The writes that were made, and the writers that have been told. *)
Definition writers {RC WC} (l : list (call RC WC)) : list WC :=
  l ≫= (fun c => match c with CallWrite _ cb => [cb] | _ => [] end).
Definition told (l : list ev) : list Z :=
  l ≫= (fun e => match e with Completed name _ => [name] | _ => [] end).
Definition waiting {RC WC} (p : t RC WC) : list WC :=
  match state p with WritePendingState _ cb => [cb] | _ => [] end.
(** Reads and non-empty writes. *)
Definition transfer {RC WC} (c : call RC WC) : Prop :=
  match c with CallRead _ => True | CallWrite data _ => data ≠ [] | _ => False end.

(** ** Lemmas *)

Lemma Flush_spec {RC WC W} (on_write : WC → bool → W → outcome (W * list (call RC WC)))
    again lim data cb (p : t RC WC) w :
  Buffer.wf (buffer p) → Buffer.limit (buffer p) = Some lim → lim ≤ 2 ^ 61 →
  zlen data ≤ 2 ^ 61 →
  ∃ b avail, Buffer.wf b ∧ Buffer.limit b = Some lim ∧
    Buffer.contents b = Buffer.contents (buffer p) ∧
    Z.min (zlen data) (lim - zlen (Buffer.contents b)) ≤ avail
      ≤ lim - zlen (Buffer.contents b) ∧
    FlushWritePendingState on_write again data cb (p, w) =
      if avail <? zlen data
      then Done (false, (mk (WritePendingState (zdrop avail data) cb) (hit_eof p) b, w))
      else pw ← invoke_write on_write again cb false (mk IdleState (hit_eof p) b, w);
           Done (true, pw).
Proof.
  intros Hwf Hlim Hl Hd. pose proof (zlen_nonneg data).
  pose proof (zlen_nonneg (Buffer.contents (buffer p))).
  assert (zlen (Buffer.contents (buffer p)) ≤ lim) as Hc.
  { rewrite Buffer.zlen_contents by done. destruct Hwf as [? ? ? ? Hw]. specialize (Hw _ Hlim). lia. }
  destruct (Buffer.Reserve_spec (buffer p) (zlen data)) as (b & avail & E & Hb & Hcb & Hlb & Ha & Hr);
    [done|lia|unfold Buffer.vector_max_size; lia|].
  rewrite Hlim in Hr. unfold FlushWritePendingState. rewrite E. cbn [mbind outcome_bind].
  destruct (Buffer.store_spec b (ztake (Z.min avail (zlen data)) data)) as
    (b' & E' & _ & _ & Hlb' & Hcb' & Hwf'); [done|rewrite zlen_ztake; lia|].
  rewrite E'. cbn [mbind outcome_bind]. exists b', avail.
  split_and!; [done|congruence|congruence|rewrite Hcb', Hcb; lia|rewrite Hcb', Hcb; lia|].
  destruct (Z.ltb_spec avail (zlen data)).
  - rewrite (proj2 (Z.ltb_lt _ _)) by lia. done.
  - rewrite (proj2 (Z.ltb_ge _ _)) by lia. done.
Qed.

Notation exec_observed := (exec observe_read observe_write).

Lemma rep_contents_le lim p s : represents lim p s → zlen (Buffer.contents (buffer p)) ≤ lim.
Proof.
  intros [Hwf Hl _ _]. rewrite Buffer.zlen_contents by done.
  destruct Hwf as [? ? ? ? Hw]. specialize (Hw _ Hl). lia.
Qed.

Lemma observe_read_nonempty most data w :
  data ≠ [] → observe_read most data w =
    Done (w ++ [Got (ztake (Z.min most (zlen data)) data)], Z.min most (zlen data), []).
Proof. by destruct data. Qed.

Lemma read_idle n lim most p s s' e w :
  represents lim p s → state p = IdleState → 0 < most →
  spec_step lim s (CallRead most) = Some (s', e) →
  ∃ p', exec_observed (S n) (CallRead most) (p, w) = Done (p', w ++ e) ∧ represents lim p' s'.
Proof.
  intros [Hwf Hlim He Hst] Hp Hm Hs. rewrite Hp in Hst. destruct Hst as (Hc & Hw & Hr).
  cbn [spec_step] in Hs. rewrite Hr, Hw in Hs.
  cbn [exec dispatch]. unfold Read. rewrite Hp.
  rewrite Buffer.ReadAvailable_contents, Hc by done.
  destruct (queue s) as [|x q] eqn:Eq.
  - change (0 <? zlen []) with false. cbn iota. rewrite He.
    destruct (ended s) eqn:Ee; injection Hs as <- <-; cbn.
    + eexists. split; [done|]. split; [done|done|congruence|]. cbn. rewrite Hp, Eq. done.
    + rewrite app_nil_r. by eexists; split; [done|]; split.
  - set (q' := x :: q) in *. pose proof (zlen_nonneg q').
    assert (0 < zlen q') as Hq by (subst q'; rewrite zlen_cons; pose proof (zlen_nonneg q); lia).
    rewrite (proj2 (Z.ltb_lt _ _)) by done. unfold invoke_read.
    rewrite observe_read_nonempty by done. cbn [mbind outcome_bind calls fst snd].
    injection Hs as <- <-. eexists. split; [done|].
    destruct (Buffer.MarkRead_spec (buffer p) (Z.min most (zlen q'))) as (? & ?);
      [done|rewrite Hc; lia|].
    split; [done|cbn in *; congruence|done|]. cbn. rewrite Hp. split_and!; [congruence|done|done].
Qed.

Lemma zlen_pos_nonempty {A} (l : list A) : l ≠ [] → 0 < zlen l.
Proof. destruct l; [done|]. rewrite zlen_cons. pose proof (zlen_nonneg l). lia. Qed.

Lemma read_pending n data name most p s s' e w :
  represents 0 p s → state p = WritePendingState data name → 0 < most →
  spec_step 0 s (CallRead most) = Some (s', e) →
  ∃ p', exec_observed (S n) (CallRead most) (p, w) = Done (p', w ++ e) ∧ represents 0 p' s'.
Proof.
  intros [Hwf Hlim He Hst] Hp Hm Hs. rewrite Hp in Hst.
  destruct Hst as (_ & -> & Hne & Hd & Hc & Hw & Hr).
  cbn [spec_step] in Hs. rewrite Hr, Hw in Hs.
  cbn [exec dispatch]. unfold Read. rewrite Hp.
  destruct (Flush_spec observe_write (exec observe_read observe_write n) 0 (queue s) name p w)
    as (b & avail & Hb & Hlb & Hcb & Hav & ->); [done|done|lia|done|].
  pose proof (zlen_pos_nonempty _ Hne) as Hq. rewrite Hcb, Hc in Hav; change (zlen []) with 0 in Hav.
  assert (avail = 0) as -> by lia. rewrite (proj2 (Z.ltb_lt _ _)) by lia.
  cbn [mbind outcome_bind buffer]. rewrite zdrop_0 by lia.
  rewrite Buffer.ReadAvailable_contents, Hcb, Hc by done.
  change (0 <? zlen []) with false. cbn iota. cbn [state]. unfold invoke_read at 1.
  rewrite observe_read_nonempty by done. cbn [mbind outcome_bind calls fst snd].
  unfold still_pending. cbn [fst snd state].
  rewrite (proj2 (Z.ltb_ge _ _)) by lia.
  set (k := Z.min most (zlen (queue s))) in *.
  destruct (Flush_spec observe_write (exec observe_read observe_write n) 0 (zdrop k (queue s)) name
    (mk (WritePendingState (queue s) name) (hit_eof p) b) (w ++ [Got (ztake k (queue s))]))
    as (b2 & avail & Hb2 & Hlb2 & Hcb2 & Hav2 & ->); [done|done|lia|rewrite zlen_zdrop; lia|].
  cbn [buffer] in Hcb2. rewrite Hcb2, Hcb, Hc in Hav2; change (zlen []) with 0 in Hav2.
  pose proof (zlen_nonneg (zdrop k (queue s))).
  assert (avail = 0) as -> by lia. cbn [hit_eof].
  destruct (zdrop k (queue s)) as [|y rest] eqn:Erest.
  - change (0 <? zlen []) with false. cbn. eexists.
    assert (s' = mk_spec [] None None (ended s) ∧
            e = [Got (ztake k (queue s)); Completed name false]) as [-> ->]
      by (destruct (queue s); [done|]; by injection Hs as <- <-).
    rewrite <- app_assoc. split; [done|]. split; cbn; try done. split_and!; congruence.
  - rewrite <- Erest in *. assert (zdrop k (queue s) ≠ []) as Hrest by congruence.
    pose proof (zlen_pos_nonempty _ Hrest).
    rewrite (proj2 (Z.ltb_lt _ _)) by lia. cbn. rewrite zdrop_0 by lia. eexists.
    assert (s' = mk_spec (zdrop k (queue s)) (Some name) None (ended s) ∧
            e = [Got (ztake k (queue s))]) as [-> ->].
    { destruct (queue s); [done|]. destruct (zdrop k _); [done|]. by injection Hs as <- <-. }
    split; [done|]. split; cbn; try done.
    split_and!; try done; [rewrite zlen_zdrop; lia|congruence].
Qed.

Lemma write_spec n lim data name p s s' e w :
  represents lim p s → 0 ≤ lim ≤ 2 ^ 61 → zlen data ≤ 2 ^ 61 →
  spec_step lim s (CallWrite data name) = Some (s', e) →
  ∃ p', exec_observed (S n) (CallWrite data name) (p, w) = Done (p', w ++ e) ∧
    represents lim p' s'.
Proof.
  intros Hrep Hl Hd Hs. pose proof (rep_contents_le _ _ _ Hrep) as Hle.
  destruct Hrep as [Hwf Hlim He Hst]. pose proof (zlen_nonneg data).
  cbn [spec_step] in Hs. cbn [exec dispatch]. unfold Write. rewrite He.
  destruct ((zlen data =? 0) || ended s) eqn:E0.
  { injection Hs as <- <-. by exists p. }
  apply orb_false_iff in E0 as [Hnz Ee]. apply Z.eqb_neq in Hnz. rewrite Ee in He.
  destruct (state p) as [|d nm|[most|]] eqn:Hp; [| |idtac|done].
  - destruct Hst as (Hc & Hw & Hr). rewrite Hw, Hr in Hs.
    destruct (Buffer.Write_spec (buffer p) data) as (b & -> & Hb & Hlb & Hcb);
      [done|unfold Buffer.vector_max_size; lia|].
    cbn [mbind outcome_bind]. rewrite <- Hc in Hs.
    pose proof (Buffer.fits_limit (buffer p) (zlen data) lim Hlim) as Hf.
    destruct (decide (Buffer.fits (buffer p) (zlen data))) as [Hfit|Hfit].
    + rewrite bool_decide_eq_true_2 by done. rewrite (proj2 (Z.leb_le _ _)) in Hs by tauto.
      injection Hs as <- <-. eexists. split; [done|].
      split; cbn; try done; [congruence|rewrite Hp; split_and!; congruence].
    + rewrite bool_decide_eq_false_2 by done.
      assert (¬ zlen (Buffer.contents (buffer p)) + zlen data ≤ lim) as Hnf by tauto.
      rewrite (proj2 (Z.leb_gt _ _)) in Hs by lia.
      destruct (Z.eqb_spec lim 0) as [->|]; [|done]. injection Hs as <- <-.
      rewrite app_nil_r. eexists. split; [done|].
      split; cbn; try done; [congruence|].
      assert (Buffer.contents (buffer p) = [])
        by (apply zlen_0_inv; pose proof (zlen_nonneg (Buffer.contents (buffer p))); lia).
      split_and!; try done; [by intros ->|congruence].
  - destruct Hst as (_ & _ & _ & _ & _ & Hw & _). by rewrite Hw in Hs.
  - destruct Hst as (Hm & Hq & Hc & Hw & Hr & _). rewrite Hw, Hr in Hs.
    unfold invoke_read. rewrite observe_read_nonempty by (by intros ->).
    cbn [mbind outcome_bind calls fst snd]. set (k := Z.min most (zlen data)) in *.
    destruct (zdrop k data) as [|y rest] eqn:Erest.
    + injection Hs as <- <-.
      assert (k = zlen data) as Hk
        by (pose proof (zlen_zdrop k data) as Hz; rewrite Erest in Hz; change (zlen []) with 0 in Hz; lia).
      rewrite (proj2 (Z.ltb_ge _ _)), (proj2 (Z.eqb_eq _ _)) by lia.
      cbn. rewrite <- app_assoc. eexists. split; [done|]. split; done.
    + destruct (Z.eqb_spec lim 0) as [->|]; [|done]. injection Hs as <- <-.
      pose proof (zlen_zdrop k data) as Hz. rewrite Erest in Hz.
      rewrite zlen_cons in Hz. pose proof (zlen_nonneg rest).
      rewrite (proj2 (Z.ltb_lt _ _)) by lia. eexists. split; [done|].
      split; cbn; try done. split_and!; try done. rewrite zlen_cons. lia.
Qed.

Lemma close_reader_spec n lim p s s' e w :
  represents lim p s → spec_step lim s CallCloseReader = Some (s', e) →
  ∃ p', exec_observed (S n) CallCloseReader (p, w) = Done (p', w ++ e) ∧ represents lim p' s'.
Proof.
  intros [Hwf Hlim He Hst] Hs. cbn [spec_step] in Hs. cbn [exec dispatch]. unfold CloseReader.
  change (state (set_eof p)) with (state p).
  destruct (state p) as [|d nm|[most|]] eqn:Hp; [| |idtac|done].
  - destruct Hst as (Hc & Hw & Hr). rewrite Hw, Hr in Hs. injection Hs as <- <-.
    rewrite app_nil_r. eexists. split; [done|]. by split.
  - destruct Hst as (-> & Hd & _ & _ & Hc & Hw & Hr). rewrite Hw in Hs. injection Hs as <- <-.
    eexists. split; [done|]. by split.
  - destruct Hst as (_ & Hq & Hc & Hw & Hr & _). rewrite Hw, Hr in Hs. injection Hs as <- <-.
    eexists. split; [done|]. split; try done. cbn. split_and!; congruence.
Qed.

Lemma close_writer_spec n lim p s s' e w :
  represents lim p s → spec_step lim s CallCloseWriter = Some (s', e) →
  ∃ p', exec_observed (S n) CallCloseWriter (p, w) = Done (p', w ++ e) ∧ represents lim p' s'.
Proof.
  intros [Hwf Hlim He Hst] Hs. cbn [spec_step] in Hs. cbn [exec dispatch]. unfold CloseWriter.
  change (state (set_eof p)) with (state p).
  destruct (state p) as [|d nm|[most|]] eqn:Hp; [| |idtac|done].
  - destruct Hst as (Hc & Hw & Hr). rewrite Hw, Hr in Hs. injection Hs as <- <-.
    rewrite app_nil_r. eexists. split; [done|]. split; try done. cbn. by rewrite Hp.
  - destruct Hst as (-> & Hd & Hne & Hsz & Hc & Hw & Hr). rewrite Hw, Hr in Hs.
    injection Hs as <- <-. rewrite app_nil_r. eexists. split; [done|]. split; try done.
    cbn. rewrite Hp. split_and!; congruence.
  - destruct Hst as (_ & Hq & Hc & Hw & Hr & _). rewrite Hr in Hs. injection Hs as <- <-.
    eexists. split; [done|]. split; try done. cbn. split_and!; congruence.
Qed.

Lemma step_refines n lim c p s s' e w :
  represents lim p s → 0 ≤ lim ≤ 2 ^ 61 → call_ok c → spec_step lim s c = Some (s', e) →
  ∃ p', exec_observed (S n) c (p, w) = Done (p', w ++ e) ∧ represents lim p' s'.
Proof.
  intros Hrep Hl Hok Hs. destruct c as [most|data name| |].
  - pose proof (rep_state _ _ _ Hrep) as Hst.
    destruct (state p) as [|d nm|[k|]] eqn:Hp; [| |idtac|done].
    + by eapply read_idle.
    + destruct Hst as [-> _]. by eapply read_pending.
    + cbn in Hs. destruct Hst as (_ & _ & _ & _ & Hr & _). by rewrite Hr in Hs.
  - by eapply write_spec.
  - by eapply close_reader_spec.
  - by eapply close_writer_spec.
Qed.

Lemma run_refines n lim l p s s' e w :
  represents lim p s → 0 ≤ lim ≤ 2 ^ 61 → Forall call_ok l → spec_run lim s l = Some (s', e) →
  ∃ p', run observe_read observe_write (S n) l (p, w) = Done (p', w ++ e) ∧ represents lim p' s'.
Proof.
  intros Hrep Hl Hok. revert p s e w Hrep. induction Hok as [|c l Hc Hok IH]; intros p s e w Hrep Hs.
  - injection Hs as <- <-. rewrite app_nil_r. by exists p.
  - cbn [spec_run] in Hs. apply bind_Some in Hs as ([s1 e1] & Es & Hs).
    apply bind_Some in Hs as ([s2 e2] & Es2 & [= <- <-]).
    destruct (step_refines n lim c p s s1 e1 w) as (p1 & E1 & Hrep1); [done..|].
    unfold run. cbn [calls]. rewrite E1. cbn [mbind outcome_bind]. rewrite app_assoc.
    by apply (IH p1 s1).
Qed.

Lemma TwibPipe_represents lim : 0 ≤ lim < 2 ^ 63 → represents lim (TwibPipe lim) spec_new.
Proof.
  intros Hl. destruct (Buffer.Buffer_limited_wf lim Hl) as [Hwf Hc]. by split.
Qed.

Lemma represents_held lim p s :
  represents lim p s → held p = queue s ∧ waiting p = option_list (writer s).
Proof.
  intros [_ _ _ Hst]. unfold held, waiting.
  destruct (state p) as [|d nm|[k|]]; [| |idtac|done].
  - destruct Hst as (-> & -> & _). by rewrite app_nil_r.
  - by destruct Hst as (_ & -> & _ & _ & -> & -> & _).
  - by destruct Hst as (_ & -> & -> & -> & _).
Qed.

Lemma spec_step_conserves lim p s c s' e :
  represents lim p s → call_ok c → transfer c → ended s = false →
  spec_step lim s c = Some (s', e) →
  got e ++ queue s' = queue s ++ written [c] ∧
  told e ++ option_list (writer s') = option_list (writer s) ++ writers [c] ∧ ended s' = false.
Proof.
  intros Hrep Hok Hc He Hs. pose proof (rep_contents_le _ _ _ Hrep) as Hle.
  destruct Hrep as [_ _ _ Hst].
  assert ((reader s ≠ None → queue s = [] ∧ writer s = None) ∧
          (writer s = None → zlen (queue s) ≤ lim) ∧
          (writer s ≠ None → queue s ≠ [])) as (Hr & Hq & Hw).
  { destruct (state p) as [|d nm|[k|]]; [| |idtac|done].
    - destruct Hst as (<- & -> & ->). done.
    - destruct Hst as (_ & -> & ? & _ & _ & -> & ->). done.
    - destruct Hst as (_ & -> & Hc0 & -> & _). by rewrite Hc0 in Hle. }
  destruct c as [most|data name| |]; try done; cbn [spec_step] in Hs;
    unfold written, writers; cbn [mbind list_bind app] in *; rewrite ?app_nil_r.
  - destruct (reader s) eqn:Er; [done|].
    set (k := Z.min most _) in Hs. pose proof (ztake_zdrop k (queue s)) as Htd.
    destruct (queue s) as [|x q] eqn:Eq.
    { rewrite He in Hs. injection Hs as <- <-. cbn.
      destruct (writer s); [by destruct Hw|done]. }
    destruct (writer s) as [nm|] eqn:Ew; [destruct (zdrop k (x :: q)) as [|y r] eqn:Ed|];
      injection Hs as <- <-; cbn -[ztake zdrop]; rewrite ?app_nil_r in *; done.
  - pose proof (zlen_pos_nonempty _ Hc).
    rewrite (proj2 (Z.eqb_neq _ _)), He in Hs by lia. cbn [orb] in Hs.
    destruct (writer s) as [nm|] eqn:Ew; [done|]. specialize (Hq eq_refl).
    destruct (reader s) as [most|] eqn:Er.
    + destruct (Hr ltac:(done)) as [-> _]. set (k := Z.min most _) in Hs.
      pose proof (ztake_zdrop k data) as Htd.
      destruct (zdrop k data) as [|y r] eqn:Ed; [|destruct (lim =? 0); [|done]];
        injection Hs as <- <-; cbn -[ztake zdrop]; rewrite ?app_nil_r in *; done.
    + destruct (zlen (queue s) + zlen data <=? lim) eqn:El.
      { by injection Hs as <- <-. }
      destruct (Z.eqb_spec lim 0) as [->|]; [|done]. injection Hs as <- <-.
      assert (queue s = []) as -> by (apply zlen_0_inv; lia). done.
Qed.

Lemma spec_run_conserves lim p s l s' e :
  represents lim p s → 0 ≤ lim ≤ 2 ^ 61 → Forall call_ok l → Forall transfer l →
  ended s = false → spec_run lim s l = Some (s', e) →
  got e ++ queue s' = queue s ++ written l ∧
  told e ++ option_list (writer s') = option_list (writer s) ++ writers l.
Proof.
  intros Hrep Hl Hok Hc. revert p s e Hrep.
  induction Hok as [|c l Hc1 Hok IH]; intros p s e Hrep He Hs.
  - injection Hs as <- <-. unfold written, writers. cbn. by rewrite !app_nil_r.
  - apply Forall_cons in Hc as [Ht Hc]. cbn [spec_run] in Hs.
    apply bind_Some in Hs as ([s1 e1] & Es & Hs).
    apply bind_Some in Hs as ([s2 e2] & Es2 & [= <- <-]).
    destruct (spec_step_conserves lim p s c s1 e1) as (Hg & Hto & He1); [done..|].
    destruct (step_refines 0 lim c p s s1 e1 []) as (p1 & _ & Hrep1); [done..|].
    destruct (IH Hc p1 s1 e2 Hrep1 He1 Es2) as [Hg2 Ht2].
    unfold got, told, written, writers in *. rewrite !bind_app, !bind_cons.
    cbn [mbind list_bind] in Hg, Hto. rewrite !app_nil_r in Hg, Hto.
    rewrite <- !app_assoc, Hg2, Ht2, !app_assoc. by rewrite Hg, Hto.
Qed.

(** What a read does to a pending write that the free part of the buffer, or the
    part of it that is left, can take. *)
Lemma write_idle_waits n lim d name p w :
  Buffer.wf (buffer p) → Buffer.limit (buffer p) = Some lim → lim ≤ 2 ^ 61 →
  state p = IdleState → hit_eof p = false → 0 < zlen d ≤ 2 ^ 61 →
  lim < zlen (Buffer.contents (buffer p)) + zlen d →
  ∃ b, exec_observed (S n) (CallWrite d name) (p, w) =
         Done (mk (WritePendingState d name) false b, w) ∧
    Buffer.wf b ∧ Buffer.limit b = Some lim ∧
    Buffer.contents b = Buffer.contents (buffer p).
Proof.
  intros Hwf Hlim Hl Hst He Hd Hfull. cbn [exec dispatch]. unfold Write. rewrite He, Hst.
  assert (zlen (Buffer.contents (buffer p)) ≤ lim) as Hc.
  { rewrite Buffer.zlen_contents by done. destruct Hwf as [? ? ? ? Hw]. specialize (Hw _ Hlim). lia. }
  rewrite (proj2 (Z.eqb_neq _ _)) by lia. cbn [orb].
  destruct (Buffer.Write_spec (buffer p) d) as (b & -> & Hb & Hlb & Hcb);
    [done|unfold Buffer.vector_max_size; lia|].
  pose proof (Buffer.fits_limit (buffer p) (zlen d) lim Hlim) as Hf.
  assert (¬ zlen (Buffer.contents (buffer p)) + zlen d ≤ lim) by lia.
  rewrite bool_decide_eq_false_2 by tauto. rewrite decide_False in Hcb by tauto.
  exists b. cbn. unfold set_state, set_buffer. cbn. rewrite He. split_and!; congruence.
Qed.

Lemma exit_observed again name p w :
  @ExitWritePendingState Z Z observer observe_write again name (p, w) =
    Done (set_state p IdleState, w ++ [Completed name false]).
Proof. done. Qed.

Lemma read_drops_rest n lim d name most b w :
  Buffer.wf b → Buffer.limit b = Some lim → lim ≤ 2 ^ 61 → 0 < zlen d ≤ 2 ^ 61 →
  zlen d ≤ lim → Buffer.contents b ≠ [] → zlen (Buffer.contents b) ≤ most →
  lim < zlen (Buffer.contents b) + zlen d →
  ∃ p', exec_observed (S n) (CallRead most) (mk (WritePendingState d name) false b, w) =
          Done (p', w ++ [Got (Buffer.contents b); Completed name false]) ∧
    state p' = IdleState ∧ held p' = [].
Proof.
  intros Hwf Hlim Hl Hd Hfit Hne Hm Hfull. pose proof (zlen_pos_nonempty _ Hne) as Hc.
  cbn [exec dispatch]. unfold Read at 1. cbn [state].
  set (p := mk _ _ _).
  destruct (Flush_spec observe_write (exec observe_read observe_write n) lim d name p w)
    as (b1 & avail & Hb1 & Hlb1 & Hcb1 & Hav & ->); [done|done|done|lia|].
  cbn [buffer p] in Hcb1. rewrite Hcb1 in Hav.
  rewrite (proj2 (Z.ltb_lt _ _)) by lia. cbn [mbind outcome_bind buffer].
  rewrite Buffer.ReadAvailable_contents, Hcb1 by done. rewrite (proj2 (Z.ltb_lt _ _)) by done.
  unfold invoke_read at 1. rewrite observe_read_nonempty by done.
  cbn [mbind outcome_bind calls fst snd]. unfold still_pending. cbn [fst snd state].
  rewrite Z.min_r, ztake_all by lia.
  destruct (Buffer.MarkRead_spec b1 (zlen (Buffer.contents b))) as (Hb2 & Hc2);
    [done|rewrite Hcb1; lia|]. rewrite Hcb1, zdrop_all in Hc2 by lia.
  cbn [hit_eof set_buffer buffer].
  destruct (Flush_spec observe_write (exec observe_read observe_write n) lim (zdrop avail d) name
    (mk (WritePendingState (zdrop avail d) name) false (Buffer.MarkRead b1 (zlen (Buffer.contents b))))
    (w ++ [Got (Buffer.contents b)]))
    as (b3 & avail3 & Hb3 & Hlb3 & Hcb3 & Hav3 & E3); [done|done|done|rewrite zlen_zdrop; lia|].
  subst p. unfold set_buffer. cbn [state hit_eof buffer]. rewrite E3. cbn [buffer] in Hcb3.
  rewrite Hcb3, Hc2 in Hav3. change (zlen []) with 0 in Hav3.
  rewrite (proj2 (Z.ltb_ge _ _)) by (rewrite zlen_zdrop in *; lia).
  unfold invoke_write. cbn. eexists. split; [by rewrite <- app_assoc|]. split; [done|].
  unfold held. cbn. by rewrite Hcb3, Hc2.
Qed.

Lemma read_drops_all n lim d name most b w :
  Buffer.wf b → Buffer.limit b = Some lim → lim ≤ 2 ^ 61 → 0 < zlen d ≤ lim →
  Buffer.contents b = [] →
  ∃ p', exec_observed (S (S n)) (CallRead most) (mk (WritePendingState d name) false b, w) =
          Done (p', w ++ [Completed name false]) ∧
    state p' = ReadPendingState (Some most) ∧ held p' = [].
Proof.
  intros Hwf Hlim Hl Hd Hc. remember (S n) as m. cbn [exec dispatch]. unfold Read at 1. cbn [state].
  set (p := mk _ _ _).
  destruct (Flush_spec observe_write (exec observe_read observe_write m) lim d name p w)
    as (b1 & avail & Hb1 & Hlb1 & Hcb1 & Hav & ->); [done|done|done|lia|].
  cbn [buffer p] in Hcb1. rewrite Hcb1, Hc in Hav. change (zlen []) with 0 in Hav.
  rewrite (proj2 (Z.ltb_ge _ _)) by lia. unfold invoke_write. subst p m. cbn [hit_eof mbind
    outcome_bind observe_write fst snd calls].
  cbn [exec dispatch]. unfold Read. cbn [state buffer].
  rewrite Buffer.ReadAvailable_contents, Hcb1, Hc by done. cbn. eexists. split; [done|].
  split; [done|]. unfold held. cbn. by rewrite Hcb1, Hc.
Qed.

(** ** Theorems *)

(** C40: the pipe is a queue with one reader and one writer.  For every sequence of
    reads, writes and closes that the specification allows, the calls return (without
    nesting) and the clients see exactly what the specification says: the bytes each
    reader gets, who is told of the end, which writes complete and when; the pipe ends
    in a state that represents the specification's. *)
Theorem pipe_refines_queue n lim l s e :
  0 ≤ lim ≤ 2 ^ 61 → Forall call_ok l → spec_run lim spec_new l = Some (s, e) →
  ∃ p, run observe_read observe_write (S n) l (TwibPipe lim, []) = Done (p, e) ∧
    represents lim p s.
Proof.
  intros Hl Hok Hs.
  destruct (run_refines n lim l (TwibPipe lim) spec_new s e []) as (p & E & Hrep);
    [apply TwibPipe_represents; lia|done..|].
  by exists p.
Qed.

Lemma pipe_refines_queue_witness :
  ∃ p, run observe_read observe_write 1
      [CallWrite (str "abcde") 1; CallRead 2; CallRead 9; CallRead 4; CallWrite (str "fg") 2;
       CallCloseWriter; CallRead 1] (TwibPipe 0, []) =
    Done (p, [Got (str "ab"); Got (str "cde"); Completed 1 false; Got (str "fg");
              Completed 2 false; Eof]) ∧
    represents 0 p (mk_spec [] None None true).
Proof.
  apply (pipe_refines_queue 0 0
    [CallWrite (str "abcde") 1; CallRead 2; CallRead 9; CallRead 4; CallWrite (str "fg") 2;
     CallCloseWriter; CallRead 1]).
  - lia.
  - by repeat first [apply Forall_nil_2 | apply Forall_cons_2].
  - reflexivity.
Defined.

(** nothing is lost, duplicated or reordered.  As long as nobody closes and the
    calls are such that no write has to wait in a pipe with a buffer, the bytes that
    were read, followed by the bytes the pipe holds, are the bytes that were written,
    and the writes complete in order, each once, but for the one that waits. *)
Theorem pipe_conserves n lim l :
  0 ≤ lim ≤ 2 ^ 61 → Forall call_ok l → Forall transfer l → is_Some (spec_run lim spec_new l) →
  ∃ p e, run observe_read observe_write (S n) l (TwibPipe lim, []) = Done (p, e) ∧
    got e ++ held p = written l ∧ told e ++ waiting p = writers l.
Proof.
  intros Hl Hok Ht [[s e] Hs].
  assert (represents lim (TwibPipe lim) spec_new) as Hr by (apply TwibPipe_represents; lia).
  destruct (run_refines n lim l (TwibPipe lim) spec_new s e []) as (p & E & Hrep); [done..|].
  destruct (spec_run_conserves lim (TwibPipe lim) spec_new l s e) as [Hg Htold]; [done..|].
  destruct (represents_held _ _ _ Hrep) as [Hh Hw].
  exists p, e. by rewrite Hh, Hw.
Qed.

Lemma pipe_conserves_witness :
  ∃ p e, run observe_read observe_write 1
      [CallRead 3; CallWrite (str "abcde") 1; CallRead 1] (TwibPipe 0, []) = Done (p, e) ∧
    got e ++ held p = written (RC:=Z) [CallRead 3; CallWrite (str "abcde") 1; CallRead 1] ∧
    told e ++ waiting p = writers (RC:=Z) [CallRead 3; CallWrite (str "abcde") 1; CallRead 1].
Proof.
  apply (pipe_conserves 0 0 [CallRead 3; CallWrite (str "abcde") 1; CallRead 1]).
  - lia.
  - by repeat first [apply Forall_nil_2 | apply Forall_cons_2].
  - repeat constructor; discriminate.
  - eexists. reflexivity.
Defined.

(** a pipe with a buffer loses the writes that wait.  When the buffer is in use
    and a write does not fit beside it, a reader that takes the whole buffer completes
    that write with success although none of its bytes is, or ever will be, delivered:
    [FlushWritePendingState] copies them behind the write head and does not move it.
    The same happens to the rest of a write that a waiting reader took in part. *)
Theorem pipe_loses_waiting_write n lim d1 d2 most :
  lim ≤ 2 ^ 61 → 0 < zlen d1 ≤ lim → 0 < zlen d2 ≤ lim → lim < zlen d1 + zlen d2 →
  zlen d1 ≤ most →
  (∃ p, run observe_read observe_write (S n)
          [CallWrite d1 1; CallWrite d2 2; CallRead most] (TwibPipe lim, []) =
        Done (p, [Completed 1 false; Got d1; Completed 2 false]) ∧
        state p = IdleState ∧ held p = []) ∧
  (∀ k, 0 < k < zlen d1 →
   ∃ p, run observe_read observe_write (S (S n))
          [CallRead k; CallWrite d1 1; CallRead most] (TwibPipe lim, []) =
        Done (p, [Got (ztake k d1); Completed 1 false]) ∧
        state p = ReadPendingState (Some most) ∧ held p = []).
Proof.
  intros Hl H1 H2 H12 Hm.
  assert (represents lim (TwibPipe lim) spec_new) as Hr by (apply TwibPipe_represents; lia).
  assert (d1 ≠ []) as Hne by (intros ->; change (0 < 0 ≤ lim) in H1; lia).
  split.
  - destruct (step_refines n lim (CallWrite d1 1) (TwibPipe lim) spec_new
      (mk_spec d1 None None false) [Completed 1 false] []) as (p1 & E1 & [Hb Hlim He Hst]);
      [done|lia|cbn; lia| |].
    { cbn. change (zlen []) with 0.
      rewrite (proj2 (Z.eqb_neq _ _)), (proj2 (Z.leb_le _ _)) by lia. done. }
    destruct (state p1) as [|?|[?|]] eqn:Hp1; [|naive_solver|naive_solver|done].
    destruct Hst as (Hc & _ & _). cbn in Hc.
    destruct (write_idle_waits n lim d2 2 p1 [Completed 1 false]) as (b & E2 & Hb2 & Hl2 & Hc2);
      [done..|lia|rewrite Hc; lia|]. rewrite Hc in Hc2.
    destruct (read_drops_rest n lim d2 2 most b [Completed 1 false]) as (p' & E3 & Hst' & Hh);
      rewrite ?Hc2; [done|done|done|lia|lia|done|lia|lia|].
    exists p'. unfold run, observer in *. cbn [calls]. rewrite E1.
    cbn [mbind outcome_bind app]. rewrite E2.
    cbn [mbind outcome_bind]. rewrite E3, Hc2. done.
  - intros k Hk. destruct (step_refines (S n) lim (CallRead k) (TwibPipe lim) spec_new
      (mk_spec [] None (Some k) false) [] []) as (p1 & E1 & [Hb Hlim He Hst]);
      [done|lia|cbn; lia|done|].
    destruct (state p1) as [|?|[k'|]] eqn:Hp1; [naive_solver|naive_solver| |done].
    destruct Hst as (_ & _ & Hc & _ & [= <-] & _). cbn in Hc, He.
    assert (exec_observed (S (S n)) (CallWrite d1 1) (p1, []) =
      Done (mk (WritePendingState (zdrop k d1) 1) false (buffer p1), [Got (ztake k d1)])) as E2.
    { cbn [exec dispatch]. unfold Write. rewrite He, Hp1, (proj2 (Z.eqb_neq _ _)) by lia.
      cbn [orb]. unfold invoke_read. rewrite observe_read_nonempty by done.
      cbn [mbind outcome_bind calls fst snd]. rewrite Z.min_l by lia.
      rewrite (proj2 (Z.ltb_lt _ _)) by lia. unfold set_state. cbn. by rewrite He. }
    destruct (read_drops_all n lim (zdrop k d1) 1 most (buffer p1) [Got (ztake k d1)])
      as (p' & E3 & Hst' & Hh); [done|done|done|rewrite zlen_zdrop; lia|done|].
    exists p'. unfold run, observer in *. cbn [calls]. rewrite E1.
    cbn [mbind outcome_bind app]. rewrite E2.
    cbn [mbind outcome_bind]. by rewrite E3.
Qed.

Lemma pipe_loses_waiting_write_witness :
  (∃ p, run observe_read observe_write 1
          [CallWrite (str "abc") 1; CallWrite (str "def") 2; CallRead 4] (TwibPipe 4, []) =
        Done (p, [Completed 1 false; Got (str "abc"); Completed 2 false]) ∧
        state p = IdleState ∧ held p = []) ∧
  (∀ k, 0 < k < zlen (str "abc") →
   ∃ p, run observe_read observe_write 2
          [CallRead k; CallWrite (str "abc") 1; CallRead 4] (TwibPipe 4, []) =
        Done (p, [Got (ztake k (str "abc")); Completed 1 false]) ∧
        state p = ReadPendingState (Some 4) ∧ held p = []).
Proof.
  apply (pipe_loses_waiting_write 0 4 (str "abc") (str "def") 4);
    change (zlen (str "abc")) with 3; change (zlen (str "def")) with 3; lia.
Defined.

(** a second reader or writer ends the process.  Whatever the clients do, a read
    while a read is pending, and a write of data while one is pending on an open pipe,
    abort with the pipe state error; and a pipe aborts, too, whose waiting reader takes
    more than it was given. *)
Theorem pipe_second_call_aborts {RC WC W}
    (on_read : RC → bytes → W → outcome (W * Z * list (call RC WC)))
    (on_write : WC → bool → W → outcome (W * list (call RC WC))) n (p : t RC WC) (w : W) :
  (∀ cb cb', state p = ReadPendingState cb' →
     exec on_read on_write (S n) (CallRead cb) (p, w) = Aborts TWILI_ERR_INVALID_PIPE_STATE) ∧
  (∀ d d' cb cb', state p = WritePendingState d' cb' → hit_eof p = false → d ≠ [] →
     exec on_read on_write (S n) (CallWrite d cb) (p, w) = Aborts TWILI_ERR_INVALID_PIPE_STATE) ∧
  (∀ d cb rcb w' k, state p = ReadPendingState (Some rcb) → hit_eof p = false → d ≠ [] →
     on_read rcb d w = Done (w', k, []) → zlen d < k →
     exec on_read on_write (S n) (CallWrite d cb) (p, w) = Aborts TWILI_ERR_INVALID_PIPE_STATE).
Proof.
  split_and!.
  - intros cb cb' Hp. cbn [exec dispatch]. unfold Read. by rewrite Hp.
  - intros d d' cb cb' Hp He Hd. cbn [exec dispatch]. unfold Write.
    pose proof (zlen_pos_nonempty _ Hd). rewrite He, Hp, (proj2 (Z.eqb_neq _ _)) by lia. done.
  - intros d cb rcb w' k Hp He Hd Hon Hk. cbn [exec dispatch]. unfold Write.
    pose proof (zlen_pos_nonempty _ Hd). rewrite He, Hp, (proj2 (Z.eqb_neq _ _)) by lia.
    cbn [orb]. unfold invoke_read. cbn [snd]. rewrite Hon. cbn.
    by rewrite (proj2 (Z.ltb_ge _ _)), (proj2 (Z.eqb_neq _ _)) by lia.
Qed.

Lemma pipe_second_call_aborts_witness :
  let p := mk (ReadPendingState (Some 4)) false (Buffer.Buffer_limited 0) : t Z Z in
  let q := mk (WritePendingState (str "a") 1) false (Buffer.Buffer_limited 0) : t Z Z in
  exec_observed 1 (CallRead 2) (p, []) = Aborts TWILI_ERR_INVALID_PIPE_STATE ∧
  exec_observed 1 (CallWrite (str "b") 2) (q, []) = Aborts TWILI_ERR_INVALID_PIPE_STATE.
Proof.
  intros p q. split.
  - apply (proj1 (pipe_second_call_aborts observe_read observe_write 0 p []) 2 (Some 4)).
    reflexivity.
  - apply (proj1 (proj2 (pipe_second_call_aborts observe_read observe_write 0 q []))
      (str "b") (str "a") 2 1); [reflexivity|reflexivity|discriminate].
Defined.

End Pipe.
