(* ===== verification/PipeClients.v ===== *)
(** * The clients of a pipe

    The bridge's reader and writer objects (twili/bridge/interfaces/ITwibPipeReader,
    ITwibPipeWriter) and the IPC pipe of a monitored process (twili/service/IPipe):
    their callbacks instantiate [Pipe]'s.  A response opener is a number; beginning a
    response on one that has begun ends the process ([Response.BeginError]).  The state
    object of a write request is a number, too, and its fields are in [writers]; its
    callbacks call the pipe again.  [Write_request] drives a write request as a TCP
    connection does: the stream's [receive] whenever payload has arrived, and once
    more before [finish] at the end. *)
From S2P Require Import Prelude Err Buffer Pipe.

Module PipeClients.
Import Err.

(** [ITwibPipeWriter::Write]'s local [State]. *)
Record State : Type := mk_State {
  opener : Z;
  buffer : Buffer.t;
  is_writing : bool;
  is_done : bool }.

Inductive read_callback : Type :=
| ReaderObject (opener : Z)
| IpcRead (request size : Z).
Inductive write_callback : Type :=
| StateWritten (state size : Z)
| IpcWrite (request : Z).

(** What goes out: responses of the bridge and results of the IPC server. *)
Inductive reply : Type :=
| RespondError (opener code : Z)
| RespondOk (opener : Z) (data : option bytes)
| IpcResult (request code : Z)
| IpcData (request : Z) (data : bytes).

Record world : Type := mk_world {
  writers : omap State;
  begun : list Z;
  replies : list reply }.

Definition add_reply (w : world) (r : reply) : world :=
  mk_world (writers w) (begun w) (replies w ++ [r]).
Definition set_writer (w : world) (i : Z) (s : State) : world :=
  mk_world (om_set i s (writers w)) (begun w) (replies w).
Definition respond (w : world) (o : Z) (r : reply) : outcome world :=
  if decide (o ∈ begun w) then Aborts TWILI_ERR_FATAL_BRIDGE_STATE
  else Done (mk_world (writers w) (begun w ++ [o]) (replies w ++ [r])).
Definition get_writer (w : world) (i : Z) : outcome State :=
  match om_find i (writers w) with Some s => Done s | None => Undefined end.

Abbreviation pcall := (Pipe.call read_callback write_callback).
Abbreviation pipe := (Pipe.t read_callback write_callback).

Definition set_flags (s : State) (writing finished : bool) : State :=
  mk_State (opener s) (buffer s) writing finished.
Definition set_buffer (s : State) (b : Buffer.t) : State :=
  mk_State (opener s) b (is_writing s) (is_done s).

(** [State::Write]; the call on the pipe is its last action. *)
Definition State_Write (i : Z) (w : world) : outcome (world * list pcall) :=
  s ← get_writer w i;
  if Buffer.ReadAvailable (buffer s) =? 0 then
    w ← (if is_done s then respond w (opener s) (RespondOk (opener s) None) else Done w);
    Done (w, [])
  else
    b ← Buffer.Compact (buffer s);
    let size := Buffer.ReadAvailable b in
    Done (set_writer w i (mk_State (opener s) b true (is_done s)),
          [Pipe.CallWrite (Buffer.contents b) (StateWritten i size)]).

Definition on_write (cb : write_callback) (eof : bool) (w : world) :
    outcome (world * list pcall) :=
  match cb with
  | IpcWrite request =>
      Done (add_reply w (IpcResult request (if eof then TWILI_ERR_EOF else 0)), [])
  | StateWritten i size =>
      s ← get_writer w i;
      let s := mk_State (opener s) (Buffer.MarkRead (buffer s) size) false (is_done s) in
      let w := set_writer w i s in
      if eof then
        if is_done s then Done (w, [])
        else
          w ← respond (set_writer w i (set_flags s false true)) (opener s)
                (RespondError (opener s) TWILI_ERR_EOF);
          Done (w, [])
      else if is_done s && (Buffer.ReadAvailable (buffer s) =? 0) then
        w ← respond w (opener s) (RespondOk (opener s) None);
        Done (w, [])
      else State_Write i w
  end.

(** [ITwibPipeReader::Read]'s and [IPipeTwib::Read]'s callbacks; the latter goes on
    after the end of the file. *)
Definition on_read (cb : read_callback) (data : bytes) (w : world) :
    outcome (world * Z * list pcall) :=
  match cb with
  | ReaderObject o =>
      w ← respond w o (if zlen data =? 0 then RespondError o TWILI_ERR_EOF
                       else RespondOk o (Some data));
      Done (w, zlen data, [])
  | IpcRead request size =>
      let w := if zlen data =? 0 then add_reply w (IpcResult request TWILI_ERR_EOF) else w in
      let data_size := if size <? zlen data then size else zlen data in
      let w := add_reply w (IpcData request (ztake data_size data)) in
      Done (add_reply w (IpcResult request 0), data_size, [])
  end.

Abbreviation exec := (Pipe.exec on_read on_write).

(** The operations of the objects. *)
Definition Reader_Read (depth : nat) (o : Z) (pw : pipe * world) : outcome (pipe * world) :=
  exec depth (Pipe.CallRead (ReaderObject o)) pw.
Definition IPipeTwib_Read (depth : nat) (request size : Z) (pw : pipe * world) :=
  exec depth (Pipe.CallRead (IpcRead request size)) pw.
Definition IPipeTwib_Write (depth : nat) (request : Z) (data : bytes) (pw : pipe * world) :=
  exec depth (Pipe.CallWrite data (IpcWrite request)) pw.
Definition Writer_Close (depth : nat) (o : Z) (pw : pipe * world) : outcome (pipe * world) :=
  '(p, w) ← exec depth Pipe.CallCloseWriter pw;
  w ← respond w o (RespondOk o None);
  Done (p, w).

(** There is no [return] after the error. *)
Definition Writer_Write (i o : Z) (pw : pipe * world) : outcome (pipe * world) :=
  let '(p, w) := pw in
  w ← (if Pipe.IsWriterClosed p then respond w o (RespondError o TWILI_ERR_EOF) else Done w);
  Done (p, mk_world (om_insert i (mk_State o Buffer.Buffer_default false false) (writers w))
             (begun w) (replies w)).

Definition State_Write_now (depth : nat) (i : Z) (pw : pipe * world) : outcome (pipe * world) :=
  '(w, l) ← State_Write i (snd pw);
  Pipe.calls (exec depth) l (fst pw, w).

Definition receive (depth : nat) (i : Z) (input : Buffer.t) (pw : pipe * world) :
    outcome (Buffer.t * (pipe * world)) :=
  let '(p, w) := pw in
  s ← get_writer w i;
  let available := Buffer.ReadAvailable input in
  let size := if is_writing s then Z.min available (Buffer.WriteAvailableHint (buffer s))
              else available in
  '(input, b, _) ← Buffer.Read_buffer input (buffer s) (Z.min available size);
  let w := set_writer w i (set_buffer s b) in
  if is_writing s then Done (input, (p, w))
  else
    pw ← State_Write_now depth i (p, w);
    Done (input, pw).

Definition finish (depth : nat) (i : Z) (pw : pipe * world) : outcome (pipe * world) :=
  let '(p, w) := pw in
  s ← get_writer w i;
  let w := set_writer w i (set_flags s (is_writing s) true) in
  if is_writing s then Done (p, w) else State_Write_now depth i (p, w).

(** Payload arrives in pieces; [FlushReceiveBuffer] after each and in [Finalize]. *)
Fixpoint feed (depth : nat) (i : Z) (input : Buffer.t) (pieces : list bytes)
    (pw : pipe * world) : outcome (pipe * world) :=
  match pieces with
  | [] => '(_, pw) ← receive depth i input pw; finish depth i pw
  | piece :: pieces =>
      '(input, _) ← Buffer.Write input piece;
      '(input, pw) ← receive depth i input pw;
      feed depth i input pieces pw
  end.
Definition Write_request (depth : nat) (i o : Z) (pieces : list bytes) (pw : pipe * world) :
    outcome (pipe * world) :=
  pw ← Writer_Write i o pw;
  feed depth i Buffer.Buffer_default pieces pw.

(** ** Specification *)

(** The state object [i] of [w] belongs to the response [o] and is idle: everything it
    was given is with the pipe. *)
Definition idle_writer (w : world) (i o : Z) : Prop :=
  ∃ b, om_find i (writers w) = Some (mk_State o b false false) ∧
    Buffer.plain b ∧ Buffer.contents b = [].

(** An open pipe with a limit in which nobody waits. *)
Record open_pipe (lim : Z) (p : pipe) : Prop := mk_open {
  open_state : Pipe.state p = Pipe.IdleState;
  open_eof : Pipe.hit_eof p = false;
  open_wf : Buffer.wf (Pipe.buffer p);
  open_limit : Buffer.limit (Pipe.buffer p) = Some lim }.

(** What the requests have answered. *)
Definition same_replies (w w' : world) : Prop := begun w' = begun w ∧ replies w' = replies w.

(** ** Lemmas *)

Lemma get_writer_found w i s : om_find i (writers w) = Some s → get_writer w i = Done s.
Proof. unfold get_writer. by intros ->. Qed.

Lemma find_set_writer w i s s0 :
  om_find i (writers w) = Some s0 → om_find i (writers (set_writer w i s)) = Some s.
Proof. intros H. cbn. rewrite om_find_set. by rewrite Z.eqb_refl, H. Qed.

Lemma respond_fresh w o r :
  o ∉ begun w → respond w o r = Done (mk_world (writers w) (begun w ++ [o]) (replies w ++ [r])).
Proof. intros. unfold respond. by rewrite decide_False. Qed.
Lemma respond_twice w o r : o ∈ begun w → respond w o r = Aborts TWILI_ERR_FATAL_BRIDGE_STATE.
Proof. intros. unfold respond. by rewrite decide_True. Qed.

Lemma plain_empty b :
  Buffer.plain b → (Buffer.ReadAvailable b =? 0) = true ↔ Buffer.contents b = [].
Proof.
  intros [H _]. rewrite Buffer.ReadAvailable_contents, Z.eqb_eq by done.
  split; [intros ?; apply zlen_0_inv; lia|by intros ->].
Qed.

Lemma Compact_plain b :
  Buffer.plain b → ∃ b', Buffer.Compact b = Done b' ∧ Buffer.plain b' ∧
    Buffer.contents b' = Buffer.contents b ∧ Buffer.read_head b' = 0 ∧
    zlen (Buffer.data b') = zlen (Buffer.data b).
Proof.
  intros [Hb Hl]. destruct (Buffer.Compact_spec b Hb) as (b' & E & Hw & Hc & Hr & Hl' & Hd).
  exists b'. split_and!; try done. split; congruence.
Qed.

Lemma MarkRead_plain b n :
  Buffer.plain b → 0 ≤ n ≤ zlen (Buffer.contents b) →
  Buffer.plain (Buffer.MarkRead b n) ∧
  Buffer.contents (Buffer.MarkRead b n) = zdrop n (Buffer.contents b).
Proof.
  intros [Hb Hl] Hn. destruct (Buffer.MarkRead_spec b n Hb Hn). by split.
Qed.

(** Moving bytes from the input to the state's buffer. *)
Lemma Read_buffer_append b o n :
  Buffer.plain b → Buffer.plain o → 0 ≤ n ≤ zlen (Buffer.contents b) →
  zlen (Buffer.contents o) + n ≤ Buffer.vector_max_size →
  ∃ b' o', Buffer.Read_buffer b o n = Done (b', o', true) ∧ Buffer.plain b' ∧ Buffer.plain o' ∧
    Buffer.contents b' = zdrop n (Buffer.contents b) ∧
    Buffer.contents o' = Buffer.contents o ++ ztake n (Buffer.contents b) ∧
    (Buffer.write_head o + n ≤ zlen (Buffer.data o) →
     zlen (Buffer.data o') = zlen (Buffer.data o) ∧
     Buffer.write_head o' = Buffer.write_head o + n).
Proof.
  intros Hb Ho Hn Hmax. pose proof (zlen_nonneg (Buffer.contents o)).
  destruct (Buffer.Reserve_plain o n Ho ltac:(lia) Hmax) as (o1 & a & E1 & [Ho1 Hl1] & Hc1 & Ha & Ha').
  assert (Buffer.write_head o + n ≤ zlen (Buffer.data o) → o1 = o) as Hsame.
  { intros Hroom. unfold Buffer.Reserve, Buffer.TryEnsureSpace in E1.
    destruct Ho as [[] _]. unfold Buffer.vector_max_size in *.
    assert (Buffer.needs_space o n = false) as Hns
      by (unfold Buffer.needs_space; rewrite u64_small by lia; apply Z.ltb_ge; lia).
    rewrite Hns in E1. cbn in E1. rewrite Hns in E1. by injection E1 as -> _. }
  unfold Buffer.Read_buffer. rewrite E1. cbn [mbind outcome_bind].
  unfold Buffer.vector_max_size in *.
  pose proof (Buffer.Read_spec b n (proj1 Hb) ltac:(lia)) as HR.
  rewrite decide_True in HR by lia. rewrite HR. cbn [mbind outcome_bind].
  assert (zlen (ztake n (Buffer.contents b)) = n) as Hz by zlia.
  destruct (Buffer.store_spec o1 (ztake n (Buffer.contents b)) Ho1 ltac:(lia))
    as (o2 & E2 & Hw & Hc & Hl & _). rewrite E2.
  rewrite Hz in *. cbn [mbind outcome_bind]. eexists _, _. split; [done|].
  destruct (MarkRead_plain b n Hb Hn) as [Hbw Hbc].
  split_and!; [done|split; [done|cbn; congruence]|done|congruence|].
  intros Hroom. rewrite (Hsame Hroom) in *.
  unfold Buffer.store in E2. destruct (_ || _) eqn:Eor; [done|]. injection E2 as <-. cbn.
  apply orb_false_iff in Eor as [E2 E3]. apply Z.ltb_ge in E2, E3.
  destruct Ho as [[] _]. unfold Buffer.vector_max_size in *.
  rewrite zlen_overwrite, u64_small by (rewrite ?Hz; lia). lia.
Qed.

Lemma State_Write_empty w i o b wr :
  om_find i (writers w) = Some (mk_State o b wr false) → Buffer.plain b → Buffer.contents b = [] →
  State_Write i w = Done (w, []).
Proof.
  intros Hf Hb Hc. unfold State_Write. rewrite (get_writer_found _ _ _ Hf). cbn.
  by rewrite (proj2 (plain_empty b Hb) Hc).
Qed.

Lemma State_Write_some w i s :
  om_find i (writers w) = Some s → Buffer.plain (buffer s) → Buffer.contents (buffer s) ≠ [] →
  ∃ b, State_Write i w =
      Done (set_writer w i (mk_State (opener s) b true (is_done s)),
            [Pipe.CallWrite (Buffer.contents b) (StateWritten i (zlen (Buffer.contents b)))]) ∧
    Buffer.plain b ∧ Buffer.contents b = Buffer.contents (buffer s) ∧
    Buffer.read_head b = 0 ∧ zlen (Buffer.data b) = zlen (Buffer.data (buffer s)).
Proof.
  intros Hf Hb Hc. unfold State_Write. rewrite (get_writer_found _ _ _ Hf). cbn.
  destruct (Buffer.ReadAvailable (buffer s) =? 0) eqn:E.
  { destruct Hc. by apply plain_empty. }
  destruct (Compact_plain _ Hb) as (b & -> & Hp & Hcb & Hr & Hd). cbn.
  exists b. rewrite Buffer.ReadAvailable_contents by apply Hp. done.
Qed.

(** After its write has completed, the state is idle if it was given nothing more. *)
Lemma on_write_completed w i o b wr :
  om_find i (writers w) = Some (mk_State o b wr false) → Buffer.plain b →
  ∃ w', on_write (StateWritten i (zlen (Buffer.contents b))) false w = Done (w', []) ∧
    idle_writer w' i o ∧ same_replies w w'.
Proof.
  intros Hf Hb. pose proof (zlen_nonneg (Buffer.contents b)).
  destruct (MarkRead_plain b (zlen (Buffer.contents b)) Hb ltac:(lia)) as [Hb' Hc'].
  rewrite zdrop_all in Hc' by lia.
  cbn [on_write]. rewrite (get_writer_found _ _ _ Hf). cbn [mbind outcome_bind is_done buffer opener].
  set (w' := set_writer w i _).
  assert (om_find i (writers w') =
    Some (mk_State o (Buffer.MarkRead b (zlen (Buffer.contents b))) false false)) as Hf'
    by (by eapply find_set_writer).
  rewrite (State_Write_empty _ _ _ _ _ Hf' Hb' Hc'). cbn [andb].
  exists w'. split_and!; [done|by eexists|done].
Qed.

(** Data goes straight through an open pipe with room. *)
Lemma write_through n lim i o b (p : pipe) w :
  open_pipe lim p → om_find i (writers w) = Some (mk_State o b false false) → Buffer.plain b →
  Buffer.contents b ≠ [] →
  zlen (Buffer.contents (Pipe.buffer p)) + zlen (Buffer.contents b) ≤ lim < 2 ^ 63 →
  ∃ p' w', State_Write_now (S n) i (p, w) = Done (p', w') ∧ open_pipe lim p' ∧
    Buffer.contents (Pipe.buffer p') = Buffer.contents (Pipe.buffer p) ++ Buffer.contents b ∧
    idle_writer w' i o ∧ same_replies w w'.
Proof.
  intros [Hst He Hwf Hl] Hf Hb Hc Hroom. unfold State_Write_now. cbn [fst snd].
  destruct (State_Write_some w i _ Hf Hb Hc) as (b1 & -> & Hb1 & Hc1 & _).
  cbn [buffer opener is_done] in *. cbn [mbind outcome_bind Pipe.calls Pipe.exec Pipe.dispatch].
  pose proof (Pipe.zlen_pos_nonempty _ Hc) as Hpos. unfold Pipe.Write at 1.
  rewrite Hc1, (proj2 (Z.eqb_neq _ _)), He, Hst by lia. cbn [orb].
  destruct (Buffer.Write_spec (Pipe.buffer p) (Buffer.contents b)) as (pb & -> & Hpb & Hlb & Hcb);
    [done|unfold Buffer.vector_max_size; lia|].
  assert (Buffer.fits (Pipe.buffer p) (zlen (Buffer.contents b))) as Hfit
    by (rewrite (Buffer.fits_limit _ _ lim Hl); lia).
  rewrite bool_decide_eq_true_2 by done. rewrite decide_True in Hcb by done.
  cbn [mbind outcome_bind]. unfold Pipe.invoke_write. cbn [fst snd].
  set (w1 := set_writer w i _).
  assert (om_find i (writers w1) = Some (mk_State o b1 true false)) as Hf1
    by (by eapply find_set_writer).
  destruct (on_write_completed w1 i o b1 true Hf1 Hb1) as (w2 & E & Hi & Hs).
  rewrite Hc1 in E. rewrite E. cbn. eexists _, _. split; [done|]. split_and!; try done. split; try done. cbn. congruence.
Qed.

(** One piece of payload, and the two calls at the end of a request. *)
Lemma receive_through n lim i o input (p : pipe) w :
  open_pipe lim p → idle_writer w i o → Buffer.plain input →
  zlen (Buffer.contents (Pipe.buffer p)) + zlen (Buffer.contents input) ≤ lim < 2 ^ 63 →
  ∃ input' p' w', receive (S n) i input (p, w) = Done (input', (p', w')) ∧ open_pipe lim p' ∧
    Buffer.plain input' ∧ Buffer.contents input' = [] ∧
    Buffer.contents (Pipe.buffer p') =
      Buffer.contents (Pipe.buffer p) ++ Buffer.contents input ∧
    idle_writer w' i o ∧ same_replies w w'.
Proof.
  intros Hp (b & Hf & Hb & Hc) Hin Hroom. pose proof (zlen_nonneg (Buffer.contents input)).
  pose proof (zlen_nonneg (Buffer.contents (Pipe.buffer p))).
  unfold receive. rewrite (get_writer_found _ _ _ Hf). cbn [mbind outcome_bind is_writing buffer].
  rewrite Buffer.ReadAvailable_contents, Z.min_id by apply Hin.
  destruct (Read_buffer_append input b (zlen (Buffer.contents input)) Hin Hb)
    as (input' & b1 & -> & Hin' & Hb1 & Hci & Hcb & _); [lia| |].
  { rewrite Hc. change (zlen []) with 0. unfold Buffer.vector_max_size. lia. }
  rewrite zdrop_all in Hci by lia. rewrite Hc, ztake_all in Hcb by lia. cbn [app] in Hcb.
  cbn [mbind outcome_bind]. set (w1 := set_writer w i _).
  assert (om_find i (writers w1) = Some (mk_State o b1 false false)) as Hf1
    by (by eapply find_set_writer).
  destruct (decide (Buffer.contents b1 = [])) as [Hn|Hn].
  - unfold State_Write_now. cbn [snd fst].
    rewrite (State_Write_empty _ _ _ _ _ Hf1 Hb1 Hn). cbn. eexists _, _, _. split; [done|].
    rewrite <- Hcb, Hn, app_nil_r. split_and!; try done. by exists b1.
  - destruct (write_through n lim i o b1 p w1 Hp Hf1 Hb1 Hn) as (p' & w' & -> & Hp' & Hcp & Hi & Hs);
      [rewrite Hcb; lia|].
    cbn. eexists _, _, _. split; [done|]. rewrite Hcp, Hcb. split_and!; done.
Qed.

Lemma finish_answers n i o (p : pipe) w :
  idle_writer w i o → o ∉ begun w →
  ∃ w', finish n i (p, w) = Done (p, w') ∧
    begun w' = begun w ++ [o] ∧ replies w' = replies w ++ [RespondOk o None].
Proof.
  intros (b & Hf & Hb & Hc) Ho. unfold finish. rewrite (get_writer_found _ _ _ Hf).
  cbn [mbind outcome_bind is_writing]. unfold State_Write_now. cbn [snd fst].
  set (w1 := set_writer w i _).
  assert (om_find i (writers w1) = Some (mk_State o b false true)) as Hf1
    by (by eapply find_set_writer).
  unfold State_Write. rewrite (get_writer_found _ _ _ Hf1). cbn [mbind outcome_bind buffer is_done].
  rewrite (proj2 (plain_empty b Hb) Hc). rewrite respond_fresh by done. cbn. by eexists.
Qed.

Lemma feed_through n lim i o pieces input (p : pipe) w :
  open_pipe lim p → idle_writer w i o → o ∉ begun w → Buffer.plain input →
  Buffer.contents input = [] →
  zlen (Buffer.contents (Pipe.buffer p)) + zlen (concat pieces) ≤ lim < 2 ^ 63 →
  ∃ p' w', feed (S n) i input pieces (p, w) = Done (p', w') ∧ open_pipe lim p' ∧
    Buffer.contents (Pipe.buffer p') = Buffer.contents (Pipe.buffer p) ++ concat pieces ∧
    begun w' = begun w ++ [o] ∧ replies w' = replies w ++ [RespondOk o None].
Proof.
  revert input p w. induction pieces as [|d pieces IH]; intros input p w Hp Hi Ho Hin Hc Hroom;
    cbn [feed concat] in *.
  - change (zlen []) with 0 in Hroom.
    destruct (receive_through n lim i o input p w) as (input' & p' & w' & -> & Hp' & _ & _ & Hcp & Hi' & Hb & Hr);
      [done..|rewrite Hc; change (zlen []) with 0; lia|].
    cbn [mbind outcome_bind].
    destruct (finish_answers (S n) i o p' w' Hi') as (w2 & -> & Hb2 & Hr2); [congruence|].
    rewrite Hc, app_nil_r in Hcp. rewrite app_nil_r.
    exists p', w2. split_and!; congruence.
  - rewrite zlen_app in Hroom. pose proof (zlen_nonneg (concat pieces)). pose proof (zlen_nonneg d).
    pose proof (zlen_nonneg (Buffer.contents (Pipe.buffer p))).
    destruct (Buffer.Write_unlimited input d) as (input1 & -> & Hw1 & Hl1 & Hc1);
      [apply Hin|apply Hin|rewrite Hc; change (zlen []) with 0; unfold Buffer.vector_max_size; lia|].
    rewrite Hc in Hc1. cbn [app mbind outcome_bind] in *.
    destruct (receive_through n lim i o input1 p w) as
      (input2 & p' & w' & -> & Hp' & Hin2 & Hc2 & Hcp & Hi' & Hb & Hr);
      [done|done|by split|rewrite Hc1; lia|].
    cbn [mbind outcome_bind]. rewrite Hc1 in Hcp.
    destruct (IH input2 p' w') as (p2 & w2 & E & Hp2 & Hcp2 & Hb2 & Hr2);
      [done|done|congruence|done|done|rewrite Hcp, zlen_app; lia|].
    exists p2, w2. split_and!; try done; [|congruence..].
    rewrite Hcp2, Hcp. by rewrite <- app_assoc.
Qed.

Lemma fresh_writer w i o :
  om_find i (writers w) = None →
  idle_writer (mk_world (om_insert i (mk_State o Buffer.Buffer_default false false) (writers w))
    (begun w) (replies w)) i o.
Proof.
  intros Hf. exists Buffer.Buffer_default. cbn. rewrite om_find_insert, Z.eqb_refl by done.
  destruct Buffer.Buffer_default_wf. split_and!; try done.
Qed.

(** On a pipe whose end has been signalled and a response that has been given. *)
Lemma closed_write_aborts n i o b (p : pipe) w :
  Pipe.hit_eof p = true → o ∈ begun w → om_find i (writers w) = Some (mk_State o b false false) →
  Buffer.plain b → Buffer.contents b ≠ [] →
  State_Write_now (S n) i (p, w) = Aborts TWILI_ERR_FATAL_BRIDGE_STATE.
Proof.
  intros He Ho Hf Hb Hc. unfold State_Write_now. cbn [fst snd].
  destruct (State_Write_some w i _ Hf Hb Hc) as (b1 & -> & Hb1 & Hc1 & _).
  cbn [buffer opener is_done mbind outcome_bind Pipe.calls Pipe.exec Pipe.dispatch] in *.
  unfold Pipe.Write at 1. rewrite He, orb_true_r. unfold Pipe.invoke_write. cbn [fst snd on_write].
  set (w1 := set_writer w i _).
  assert (om_find i (writers w1) = Some (mk_State o b1 true false)) as Hf1
    by (by eapply find_set_writer).
  rewrite (get_writer_found _ _ _ Hf1). cbn [mbind outcome_bind is_done opener buffer].
  by rewrite respond_twice.
Qed.

Lemma feed_closed n i o pieces input (p : pipe) w :
  Pipe.hit_eof p = true → o ∈ begun w → idle_writer w i o → Buffer.plain input →
  Buffer.contents input = [] → zlen (concat pieces) ≤ 2 ^ 62 →
  feed (S n) i input pieces (p, w) = Aborts TWILI_ERR_FATAL_BRIDGE_STATE.
Proof.
  assert (∀ input w, idle_writer w i o → Buffer.plain input → Buffer.contents input = [] →
    ∃ input' w', receive (S n) i input (p, w) = Done (input', (p, w')) ∧ idle_writer w' i o ∧
      begun w' = begun w ∧ Buffer.plain input' ∧ Buffer.contents input' = []) as Hnothing.
  { clear. intros input w (b & Hf & Hb & Hc) Hin Hi. unfold receive.
    rewrite (get_writer_found _ _ _ Hf). cbn [mbind outcome_bind is_writing buffer].
    rewrite Buffer.ReadAvailable_contents, Z.min_id by apply Hin.
    destruct (Read_buffer_append input b (zlen (Buffer.contents input)) Hin Hb)
      as (input' & b1 & -> & Hin' & Hb1 & Hci & Hcb & _);
      [rewrite Hi; by vm_compute|rewrite Hi, Hc; by vm_compute|].
    rewrite Hi, Hc in *. cbn [mbind outcome_bind]. set (w1 := set_writer w i _).
    assert (om_find i (writers w1) = Some (mk_State o b1 false false)) as Hf1
      by (by eapply find_set_writer).
    unfold State_Write_now. cbn [snd fst].
    rewrite (State_Write_empty _ _ _ _ _ Hf1 Hb1 Hcb). cbn.
    eexists _, _. split_and!; try done. by exists b1. }
  intros He. revert input w. induction pieces as [|d pieces IH]; intros input w Ho Hi Hin Hc Hsz;
    cbn [feed concat] in *.
  - destruct (Hnothing input w Hi Hin Hc) as (input' & w' & -> & (b & Hf & Hb & Hcb) & Hbeg & _).
    cbn [mbind outcome_bind]. unfold finish. rewrite (get_writer_found _ _ _ Hf).
    cbn [mbind outcome_bind is_writing]. unfold State_Write_now. cbn [snd fst].
    set (w1 := set_writer w' i _).
    assert (om_find i (writers w1) = Some (mk_State o b false true)) as Hf1
      by (by eapply find_set_writer).
    unfold State_Write. rewrite (get_writer_found _ _ _ Hf1). cbn [mbind outcome_bind buffer is_done].
    rewrite (proj2 (plain_empty b Hb) Hcb). rewrite respond_twice; [done|cbn; congruence].
  - rewrite zlen_app in Hsz. pose proof (zlen_nonneg (concat pieces)). pose proof (zlen_nonneg d).
    destruct (Buffer.Write_unlimited input d) as (input1 & -> & Hw1 & Hl1 & Hc1);
      [apply Hin|apply Hin|rewrite Hc; change (zlen []) with 0; unfold Buffer.vector_max_size; lia|].
    rewrite Hc in Hc1. cbn [app mbind outcome_bind] in *.
    destruct (decide (d = [])) as [->|Hd].
    + destruct (Hnothing input1 w Hi) as (input' & w' & -> & Hi' & Hbeg & Hin' & Hc');
        [by split|done|]. cbn [mbind outcome_bind]. apply IH; (done || congruence || lia).
    + destruct Hi as (b & Hf & Hb & Hcb). unfold receive at 1.
      rewrite (get_writer_found _ _ _ Hf). cbn [mbind outcome_bind is_writing buffer].
      rewrite Buffer.ReadAvailable_contents, Z.min_id, Hc1 by done.
      destruct (Read_buffer_append input1 b (zlen d) ltac:(by split) Hb)
        as (input' & b1 & -> & Hin' & Hb1 & Hci & Hcb1 & _);
        [rewrite Hc1; lia|rewrite Hcb; change (zlen []) with 0; unfold Buffer.vector_max_size; lia|].
      rewrite Hcb, Hc1, ztake_all in Hcb1 by lia. cbn [mbind outcome_bind app] in *.
      set (w1 := set_writer w i _).
      assert (om_find i (writers w1) = Some (mk_State o b1 false false)) as Hf1
        by (by eapply find_set_writer).
      rewrite (closed_write_aborts n i o b1 p w1 He Ho Hf1 Hb1) by congruence. done.
Qed.

(** A reader object on a pipe without a buffer in which a write waits. *)
Lemma sync_read n d cb o (p : pipe) w :
  Pipe.state p = Pipe.WritePendingState d cb → Buffer.wf (Pipe.buffer p) →
  Buffer.limit (Pipe.buffer p) = Some 0 → 0 < zlen d ≤ 2 ^ 61 → o ∉ begun w →
  ∃ b, Buffer.wf b ∧ Buffer.limit b = Some 0 ∧
    exec (S n) (Pipe.CallRead (ReaderObject o)) (p, w) =
      Pipe.invoke_write on_write (exec n) cb false
        (Pipe.mk Pipe.IdleState (Pipe.hit_eof p) b,
         mk_world (writers w) (begun w ++ [o]) (replies w ++ [RespondOk o (Some d)])).
Proof.
  intros Hst Hwf Hl Hd Ho.
  assert (∀ b, Buffer.wf b → Buffer.limit b = Some 0 → Buffer.contents b = []) as Hempty.
  { intros b Hb Hlb. apply zlen_0_inv. rewrite Buffer.zlen_contents by done.
    destruct Hb as [? ? ? ? Hw]. specialize (Hw _ Hlb). lia. }
  cbn [Pipe.exec Pipe.dispatch]. unfold Pipe.Read. rewrite Hst.
  destruct (Pipe.Flush_spec on_write (exec n) 0 d cb p w)
    as (b & avail & Hb & Hlb & Hcb & Hav & ->); [done|done|lia|lia|].
  rewrite (Hempty b Hb Hlb) in Hav. change (zlen []) with 0 in Hav.
  assert (avail = 0) as -> by lia. rewrite (proj2 (Z.ltb_lt _ _)) by lia.
  cbn [mbind outcome_bind Pipe.buffer]. rewrite zdrop_0 by lia.
  rewrite Buffer.ReadAvailable_contents, (Hempty b Hb Hlb) by done. cbn [Pipe.state].
  change (0 <? zlen []) with false. cbn iota. unfold Pipe.invoke_read. cbn [on_read snd].
  rewrite (proj2 (Z.eqb_neq _ _)), respond_fresh by (done || lia).
  cbn [mbind outcome_bind Pipe.calls fst]. unfold Pipe.still_pending. cbn [fst Pipe.state].
  rewrite Z.ltb_irrefl, zdrop_all by lia.
  set (w1 := mk_world _ _ _).
  destruct (Pipe.Flush_spec on_write (exec n) 0 [] cb
    (Pipe.mk (Pipe.WritePendingState d cb) (Pipe.hit_eof p) b) w1)
    as (b2 & avail & Hb2 & Hlb2 & _ & Hav2 & ->); [done|done|lia|by vm_compute|].
  rewrite (Hempty b2 Hb2 Hlb2) in Hav2. change (zlen []) with 0 in *.
  rewrite (proj2 (Z.ltb_ge _ _)) by lia. cbn [Pipe.hit_eof].
  exists b2. split_and!; [done|done|].
  by destruct (Pipe.invoke_write on_write (exec n) cb false _).
Qed.

(** A state's write on a pipe without a buffer and without a reader waits. *)
Lemma sync_write_waits n i s (p : pipe) w :
  open_pipe 0 p → om_find i (writers w) = Some s → Buffer.plain (buffer s) →
  0 < zlen (Buffer.contents (buffer s)) ≤ 2 ^ 61 →
  ∃ b pb l, State_Write i w = Done (set_writer w i (mk_State (opener s) b true (is_done s)), l) ∧
    Pipe.calls (exec (S n)) l (p, set_writer w i (mk_State (opener s) b true (is_done s))) =
      Done (Pipe.mk (Pipe.WritePendingState (Buffer.contents (buffer s))
                       (StateWritten i (zlen (Buffer.contents (buffer s))))) false pb,
            set_writer w i (mk_State (opener s) b true (is_done s))) ∧
    Buffer.wf pb ∧ Buffer.limit pb = Some 0 ∧ Buffer.plain b ∧
    Buffer.contents b = Buffer.contents (buffer s) ∧ Buffer.read_head b = 0 ∧
    zlen (Buffer.data b) = zlen (Buffer.data (buffer s)).
Proof.
  intros [Hst He Hwf Hl] Hf Hb Hd.
  assert (Buffer.contents (buffer s) ≠ []) as Hne by (intros E; rewrite E in Hd; change (zlen []) with 0 in Hd; lia).
  destruct (State_Write_some w i s Hf Hb Hne) as (b & -> & Hb1 & Hc1 & Hr & Hdata).
  rewrite Hc1.
  assert (zlen (Buffer.contents (Pipe.buffer p)) = 0) as Hempty.
  { rewrite Buffer.zlen_contents by done. destruct Hwf as [? ? ? ? Hw]. specialize (Hw _ Hl). lia. }
  destruct (Buffer.Write_spec (Pipe.buffer p) (Buffer.contents (buffer s)))
    as (pb & E & Hpb & Hlb & _); [done|unfold Buffer.vector_max_size; lia|].
  assert (¬ Buffer.fits (Pipe.buffer p) (zlen (Buffer.contents (buffer s)))) as Hfit
    by (rewrite (Buffer.fits_limit _ _ 0 Hl); lia).
  rewrite bool_decide_eq_false_2 in E by done.
  exists b, pb. eexists. split; [done|]. split_and!; try done; [|congruence].
  cbn [Pipe.calls Pipe.exec Pipe.dispatch]. unfold Pipe.Write.
  rewrite He, Hst, E, (proj2 (Z.eqb_neq _ _)) by lia. cbn.
  unfold Pipe.set_state, Pipe.set_buffer. cbn. by rewrite He.
Qed.

(** The first piece of a request on such a pipe, and a piece that comes while the
    write waits: it is taken only as far as the room of the state's buffer goes, since
    the data that the pipe refers to must not move. *)
Lemma receive_waits n i o b input (p : pipe) w :
  open_pipe 0 p → om_find i (writers w) = Some (mk_State o b false false) → Buffer.plain b →
  Buffer.contents b = [] → Buffer.plain input →
  0 < zlen (Buffer.contents input) ≤ 2 ^ 61 →
  Buffer.write_head b + zlen (Buffer.contents input) ≤ zlen (Buffer.data b) →
  ∃ input' pb b' w', receive (S n) i input (p, w) =
      Done (input', (Pipe.mk (Pipe.WritePendingState (Buffer.contents input)
        (StateWritten i (zlen (Buffer.contents input)))) false pb, w')) ∧
    Buffer.plain input' ∧ Buffer.contents input' = [] ∧
    Buffer.wf pb ∧ Buffer.limit pb = Some 0 ∧
    om_find i (writers w') = Some (mk_State o b' true false) ∧ Buffer.plain b' ∧
    Buffer.contents b' = Buffer.contents input ∧
    Buffer.write_head b' = zlen (Buffer.contents input) ∧
    zlen (Buffer.data b') = zlen (Buffer.data b) ∧ same_replies w w'.
Proof.
  intros Hp Hf Hb Hc Hin Hsz Hroom. unfold receive. rewrite (get_writer_found _ _ _ Hf).
  cbn [mbind outcome_bind is_writing buffer].
  rewrite Buffer.ReadAvailable_contents, Z.min_id by apply Hin.
  destruct (Read_buffer_append input b (zlen (Buffer.contents input)) Hin Hb)
    as (i2 & b1 & -> & Hi2 & Hb1 & Hci2 & Hcb1 & Hd1);
    [lia|rewrite Hc; change (zlen []) with 0; unfold Buffer.vector_max_size; lia|].
  destruct (Hd1 Hroom) as [Hdata _].
  rewrite Hc, ztake_all in Hcb1 by lia. rewrite zdrop_all in Hci2 by lia.
  cbn [app mbind outcome_bind] in *. set (w1 := set_writer w i _).
  assert (om_find i (writers w1) = Some (mk_State o b1 false false)) as Hf1
    by (by eapply find_set_writer).
  destruct (sync_write_waits n i _ p w1 Hp Hf1 Hb1) as
    (b2 & pb & l & E & Ec & Hpb & Hlpb & Hb2 & Hcb2 & Hr2 & Hd2); [cbn [buffer]; by rewrite Hcb1|].
  cbn [buffer opener is_done] in *. unfold State_Write_now. cbn [fst snd]. rewrite E.
  cbn [mbind outcome_bind]. rewrite Ec, Hcb1. cbn [mbind outcome_bind].
  pose proof (Buffer.zlen_contents b2 (proj1 Hb2)) as Hz. rewrite Hcb2, Hcb1, Hr2 in Hz.
  eexists i2, pb, b2, _. split; [done|].
  split_and!; try done; [by eapply find_set_writer|congruence|lia|congruence].
Qed.

Lemma receive_while_writing n i o b fin input (p : pipe) w :
  om_find i (writers w) = Some (mk_State o b true fin) → Buffer.plain b → Buffer.plain input →
  Buffer.write_head b ≤ zlen (Buffer.data b) ≤ 2 ^ 62 →
  let h := Z.min (zlen (Buffer.contents input)) (zlen (Buffer.data b) - Buffer.write_head b) in
  ∃ input' b' w', receive n i input (p, w) = Done (input', (p, w')) ∧ Buffer.plain input' ∧
    om_find i (writers w') = Some (mk_State o b' true fin) ∧ Buffer.plain b' ∧
    Buffer.contents b' = Buffer.contents b ++ ztake h (Buffer.contents input) ∧
    Buffer.write_head b' = Buffer.write_head b + h ∧
    zlen (Buffer.data b') = zlen (Buffer.data b) ∧ same_replies w w'.
Proof.
  intros Hf Hb Hin Hwh h. pose proof (zlen_nonneg (Buffer.contents input)).
  pose proof (Buffer.zlen_contents b (proj1 Hb)) as Hz. pose proof (zlen_nonneg (Buffer.data b)).
  destruct Hb as [Hbw Hbl]. pose proof Hbw as [].
  unfold receive. rewrite (get_writer_found _ _ _ Hf). cbn [mbind outcome_bind is_writing buffer].
  rewrite Buffer.ReadAvailable_contents by apply Hin.
  unfold Buffer.WriteAvailableHint. rewrite u64_small by lia. fold h.
  rewrite (Z.min_r _ h) by lia.
  destruct (Read_buffer_append input b h Hin) as (i2 & b1 & -> & Hi2 & Hb1 & _ & Hcb1 & Hd1);
    [done|lia|unfold Buffer.vector_max_size; lia|].
  destruct (Hd1 ltac:(lia)) as [Hdata Hhead]. cbn [mbind outcome_bind].
  eexists i2, b1, _. split; [done|]. split_and!; try done. by eapply find_set_writer.
Qed.

Lemma request_waits n i o p1 p2 (p : pipe) w :
  open_pipe 0 p → om_find i (writers w) = None →
  0 < zlen p1 < 2048 → 2048 - zlen p1 < zlen p2 ≤ 2 ^ 61 →
  ∃ pb b w', Write_request (S n) i o [p1; p2] (p, w) =
      Done (Pipe.mk (Pipe.WritePendingState p1 (StateWritten i (zlen p1))) false pb, w') ∧
    Buffer.wf pb ∧ Buffer.limit pb = Some 0 ∧
    om_find i (writers w') = Some (mk_State o b true true) ∧ Buffer.plain b ∧
    Buffer.contents b = p1 ++ ztake (2048 - zlen p1) p2 ∧ same_replies w w'.
Proof.
  intros Hp Hf H1 H2. destruct Buffer.Buffer_default_wf as [Hdw Hdc].
  assert (Buffer.plain Buffer.Buffer_default) as Hd by (by split).
  unfold Write_request, Writer_Write, Pipe.IsWriterClosed. rewrite (open_eof _ _ Hp).
  cbn [mbind outcome_bind feed].
  destruct (Buffer.Write_unlimited Buffer.Buffer_default p1) as (i1 & -> & Hwi1 & Hli1 & Hci1);
    [done|done|rewrite Hdc; change (zlen []) with 0; unfold Buffer.vector_max_size; lia|].
  rewrite Hdc in Hci1. cbn [app mbind outcome_bind] in *.
  set (w0 := mk_world _ _ _).
  destruct (receive_waits n i o Buffer.Buffer_default i1 p w0) as (i2 & pb & b1 & w1 & -> & Hi2
      & Hci2 & Hpb & Hlpb & Hf1 & Hb1 & Hcb1 & Hwh1 & Hd1 & Hs1); rewrite ?Hci1; try done;
    [cbn; by rewrite om_find_insert, Z.eqb_refl by done|lia|
     change (zlen (Buffer.data Buffer.Buffer_default)) with 2048; cbn; lia|].
  change (zlen (Buffer.data Buffer.Buffer_default)) with 2048 in Hd1. rewrite Hci1 in *.
  cbn [mbind outcome_bind].
  destruct (Buffer.Write_unlimited i2 p2) as (i3 & -> & Hwi3 & Hli3 & Hci3);
    [apply Hi2|apply Hi2|rewrite Hci2; change (zlen []) with 0; unfold Buffer.vector_max_size; lia|].
  rewrite Hci2 in Hci3. cbn [app mbind outcome_bind] in *.
  destruct (receive_while_writing (S n) i o b1 false i3
    (Pipe.mk (Pipe.WritePendingState p1 (StateWritten i (zlen p1))) false pb) w1 Hf1 Hb1)
    as (i4 & b2 & w2 & -> & Hi4 & Hf2 & Hb2 & Hcb2 & Hwh2 & Hd2 & Hs2); [by split|lia|].
  rewrite Hci3, Hcb1, Hwh1, Hd1, Z.min_r in * by lia. cbn [mbind outcome_bind].
  destruct (receive_while_writing (S n) i o b2 false i4
    (Pipe.mk (Pipe.WritePendingState p1 (StateWritten i (zlen p1))) false pb) w2 Hf2 Hb2 Hi4)
    as (i5 & b3 & w3 & -> & _ & Hf3 & Hb3 & Hcb3 & _ & _ & Hs3); [lia|].
  pose proof (zlen_nonneg (Buffer.contents i4)).
  rewrite Z.min_r, ztake_0, app_nil_r in Hcb3 by lia. cbn [mbind outcome_bind].
  unfold finish. rewrite (get_writer_found _ _ _ Hf3). cbn [mbind outcome_bind is_writing].
  eexists pb, b3, _. split; [done|]. split_and!; try done; [by eapply find_set_writer|congruence|].
  unfold same_replies in *. cbn in *. intuition congruence.
Qed.

Lemma reader_takes_all n lim o (p : pipe) w :
  open_pipe lim p → Buffer.contents (Pipe.buffer p) ≠ [] → o ∉ begun w →
  ∃ p' w', Reader_Read (S n) o (p, w) = Done (p', w') ∧ open_pipe lim p' ∧
    Buffer.contents (Pipe.buffer p') = [] ∧
    replies w' = replies w ++ [RespondOk o (Some (Buffer.contents (Pipe.buffer p)))].
Proof.
  intros [Hst He Hwf Hl] Hne Ho. pose proof (Pipe.zlen_pos_nonempty _ Hne).
  unfold Reader_Read. cbn [Pipe.exec Pipe.dispatch]. unfold Pipe.Read. rewrite Hst.
  rewrite Buffer.ReadAvailable_contents, (proj2 (Z.ltb_lt _ _)) by done.
  unfold Pipe.invoke_read. cbn [on_read snd].
  rewrite (proj2 (Z.eqb_neq _ _)), respond_fresh by (done || lia). cbn.
  destruct (Buffer.MarkRead_spec (Pipe.buffer p) (zlen (Buffer.contents (Pipe.buffer p)))) as [Hw Hc];
    [done|lia|].
  eexists _, _. split; [done|]. rewrite zdrop_all in Hc by lia. split_and!; [by split|done|done].
Qed.

(** ** Theorems *)

(** a write request is delivered and answered.  On an open pipe with room for it, a
    write request whose payload comes in any pieces puts exactly the payload behind what
    the pipe holds and is answered once, with success; and the next read request is
    answered with everything. *)
Theorem pipe_writer_delivers n lim i o o2 pieces (p : pipe) (w : world) :
  open_pipe lim p → om_find i (writers w) = None → o ∉ begun w → o2 ∉ begun w → o2 ≠ o →
  concat pieces ≠ [] →
  zlen (Buffer.contents (Pipe.buffer p)) + zlen (concat pieces) ≤ lim < 2 ^ 63 →
  ∃ p1 w1 p2 w2, Write_request (S n) i o pieces (p, w) = Done (p1, w1) ∧
    open_pipe lim p1 ∧ replies w1 = replies w ++ [RespondOk o None] ∧
    Reader_Read (S n) o2 (p1, w1) = Done (p2, w2) ∧ open_pipe lim p2 ∧
    replies w2 = replies w1 ++
      [RespondOk o2 (Some (Buffer.contents (Pipe.buffer p) ++ concat pieces))] ∧
    Buffer.contents (Pipe.buffer p2) = [].
Proof.
  intros Hp Hf Ho Ho2 Hne Hd Hroom. unfold Write_request, Writer_Write, Pipe.IsWriterClosed.
  rewrite (open_eof _ _ Hp). cbn [mbind outcome_bind]. set (w0 := mk_world _ _ _).
  destruct Buffer.Buffer_default_wf as [Hdw Hdc].
  destruct (feed_through n lim i o pieces Buffer.Buffer_default p w0) as
    (p1 & w1 & -> & Hp1 & Hc1 & Hb1 & Hr1); [done|by apply fresh_writer|done|by split|done|done|].
  destruct (reader_takes_all n lim o2 p1 w1) as (p2 & w2 & E2 & Hp2 & Hc2 & Hr2); [done| | |].
  - rewrite Hc1. intros E. by apply app_eq_nil in E as [_ ?].
  - rewrite Hb1. change (begun w0) with (begun w). set_solver.
  - exists p1, w1, p2, w2. rewrite Hc1 in Hr2. done.
Qed.

Lemma pipe_writer_delivers_witness :
  ∃ p1 w1 p2 w2, Write_request 1 5 1 [str "ab"; str "c"] (Pipe.TwibPipe 16, mk_world [] [] []) =
      Done (p1, w1) ∧
    open_pipe 16 p1 ∧ replies w1 = [] ++ [RespondOk 1 None] ∧
    Reader_Read 1 2 (p1, w1) = Done (p2, w2) ∧ open_pipe 16 p2 ∧
    replies w2 = replies w1 ++
      [RespondOk 2 (Some (Buffer.contents (Buffer.Buffer_limited 16) ++ str "abc"))] ∧
    Buffer.contents (Pipe.buffer p2) = [].
Proof.
  apply (pipe_writer_delivers 0 16 5 1 2 [str "ab"; str "c"] (Pipe.TwibPipe 16) (mk_world [] [] [])).
  - split; [done|done|apply (Buffer.Buffer_limited_wf 16); lia|done].
  - reflexivity.
  - apply not_elem_of_nil.
  - apply not_elem_of_nil.
  - lia.
  - discriminate.
  - split; [by vm_compute|lia].
Defined.

(** writing to a closed pipe ends the process.  [ITwibPipeWriter::Write] answers the
    end of the file and goes on: whatever the payload, some later step of the same
    request answers again, which is fatal. *)
Theorem pipe_writer_closed_aborts n i o pieces (p : pipe) (w : world) :
  Pipe.hit_eof p = true → om_find i (writers w) = None → o ∉ begun w →
  zlen (concat pieces) ≤ 2 ^ 62 →
  Write_request (S n) i o pieces (p, w) = Aborts TWILI_ERR_FATAL_BRIDGE_STATE.
Proof.
  intros He Hf Ho Hsz. unfold Write_request, Writer_Write, Pipe.IsWriterClosed. rewrite He.
  rewrite respond_fresh by done. cbn [mbind outcome_bind].
  destruct Buffer.Buffer_default_wf as [Hdw Hdc].
  apply (feed_closed n i o); [done|cbn; set_solver| |by split|done|done].
  by apply (fresh_writer (mk_world (writers w) _ _)).
Qed.

Lemma pipe_writer_closed_aborts_witness :
  Write_request 1 5 1 [str "ab"; str "c"]
    (Pipe.set_eof (Pipe.TwibPipe 16), mk_world [] [] []) = Aborts TWILI_ERR_FATAL_BRIDGE_STATE.
Proof.
  apply (pipe_writer_closed_aborts 0); [reflexivity|reflexivity|apply not_elem_of_nil|by vm_compute].
Defined.

(** a reader that goes away in the middle of a write request.  If the request's
    payload had all arrived, the request is never answered.  If not, it is answered with
    the end of the file, and the end of its payload answers again, which is fatal. *)
Theorem pipe_writer_interrupted n i o b d (p : pipe) (w : world) :
  Pipe.state p = Pipe.WritePendingState d (StateWritten i (zlen (Buffer.contents b))) →
  Buffer.plain b → o ∉ begun w →
  (om_find i (writers w) = Some (mk_State o b true true) →
   ∃ p' w', exec (S n) Pipe.CallCloseReader (p, w) = Done (p', w') ∧
     Pipe.state p' = Pipe.IdleState ∧ same_replies w w') ∧
  (om_find i (writers w) = Some (mk_State o b true false) →
   ∃ p' w', exec (S n) Pipe.CallCloseReader (p, w) = Done (p', w') ∧
     replies w' = replies w ++ [RespondError o TWILI_ERR_EOF] ∧
     finish (S n) i (p', w') = Aborts TWILI_ERR_FATAL_BRIDGE_STATE).
Proof.
  intros Hst Hb Ho. pose proof (zlen_nonneg (Buffer.contents b)).
  destruct (MarkRead_plain b (zlen (Buffer.contents b)) Hb ltac:(lia)) as [Hb' Hc'].
  rewrite zdrop_all in Hc' by lia.
  cbn [Pipe.exec Pipe.dispatch]. unfold Pipe.CloseReader.
  change (Pipe.state (Pipe.set_eof p)) with (Pipe.state p). rewrite Hst.
  unfold Pipe.invoke_write. cbn [on_write fst snd].
  split; intros Hf; rewrite (get_writer_found _ _ _ Hf);
    cbn [mbind outcome_bind is_done opener buffer].
  - cbn. eexists _, _. by repeat split.
  - rewrite respond_fresh by done. cbn [mbind outcome_bind Pipe.calls set_flags opener buffer].
    set (w2 := mk_world _ _ _). eexists _, w2. split; [done|]. split; [done|].
    assert (om_find i (writers w2) = Some (mk_State o
      (Buffer.MarkRead b (zlen (Buffer.contents b))) false true)) as Hf2
      by (cbn; by rewrite !om_find_set, Z.eqb_refl, Hf).
    unfold finish. rewrite (get_writer_found _ _ _ Hf2). cbn [mbind outcome_bind is_writing].
    unfold State_Write_now, State_Write. cbn [fst snd]. set (w3 := set_writer w2 i _).
    assert (om_find i (writers w3) = Some (mk_State o
      (Buffer.MarkRead b (zlen (Buffer.contents b))) false true)) as Hf3
      by (by eapply find_set_writer).
    rewrite (get_writer_found _ _ _ Hf3). cbn [mbind outcome_bind buffer is_done opener].
    rewrite (proj2 (plain_empty _ Hb') Hc'). rewrite respond_twice by (cbn; set_solver). done.
Qed.

Lemma pipe_writer_interrupted_witness :
  let p := Pipe.mk (Pipe.WritePendingState (str "ab") (StateWritten 5 2)) false
             (Buffer.Buffer_limited 0) : pipe in
  let w f := mk_world [(5, mk_State 1 (Buffer.Buffer_of (str "ab")) true f)] [] [] in
  (∃ p' w', exec 1 Pipe.CallCloseReader (p, w true) = Done (p', w') ∧
     Pipe.state p' = Pipe.IdleState ∧ same_replies (w true) w') ∧
  (∃ p' w', exec 1 Pipe.CallCloseReader (p, w false) = Done (p', w') ∧
     replies w' = [] ++ [RespondError 1 TWILI_ERR_EOF] ∧
     finish 1 5 (p', w') = Aborts TWILI_ERR_FATAL_BRIDGE_STATE).
Proof.
  assert (Buffer.plain (Buffer.Buffer_of (str "ab"))) as Hb
    by (split; [apply Buffer.Buffer_of_wf; by vm_compute|done]).
  intros p w. split.
  - apply (pipe_writer_interrupted 0 5 1 (Buffer.Buffer_of (str "ab")) (str "ab") p (w true));
      [reflexivity|exact Hb|apply not_elem_of_nil|reflexivity].
  - apply (pipe_writer_interrupted 0 5 1 (Buffer.Buffer_of (str "ab")) (str "ab") p (w false));
      [reflexivity|exact Hb|apply not_elem_of_nil|reflexivity].
Defined.

(** a pending write loses the end of its request.  On a pipe without a buffer, a
    request whose first piece waits for a reader takes of the rest of its payload only
    what fits the state object's buffer, 2048 bytes in all; what is left in the
    connection's payload buffer when the request ends is forgotten: two reads later the
    request is answered with success, and nothing more ever comes. *)
Theorem pipe_writer_drops_tail n i o o1 o2 p1 p2 (p : pipe) (w : world) :
  open_pipe 0 p → om_find i (writers w) = None →
  o ∉ begun w → o1 ∉ begun w → o2 ∉ begun w → o1 ≠ o2 → o ≠ o1 → o ≠ o2 →
  0 < zlen p1 < 2048 → 2048 - zlen p1 < zlen p2 ≤ 2 ^ 61 →
  ∃ q1 w1 q2 w2 q3 w3, Write_request (S n) i o [p1; p2] (p, w) = Done (q1, w1) ∧
    Reader_Read (S (S n)) o1 (q1, w1) = Done (q2, w2) ∧
    Reader_Read (S (S n)) o2 (q2, w2) = Done (q3, w3) ∧
    replies w3 = replies w ++ [RespondOk o1 (Some p1);
      RespondOk o2 (Some (ztake (2048 - zlen p1) p2)); RespondOk o None] ∧
    Pipe.state q3 = Pipe.IdleState ∧ Pipe.held q3 = [].
Proof.
  intros Hp Hf Ho Ho1 Ho2 Hne12 Hne1 Hne2 H1 H2.
  destruct (request_waits n i o p1 p2 p w Hp Hf H1 H2) as
    (pb & b & w1 & E1 & Hpb & Hlpb & Hf1 & Hb & Hcb & Hbeg1 & Hrep1).
  set (q1 := Pipe.mk _ _ _) in E1. set (tail := ztake (2048 - zlen p1) p2) in *.
  assert (zlen tail = 2048 - zlen p1) as Htail by (unfold tail; rewrite zlen_ztake; lia).
  destruct (sync_read (S n) p1 (StateWritten i (zlen p1)) o1 q1 w1) as (b1 & Hb1 & Hlb1 & E2);
    [done|done|done|lia|congruence|].
  unfold Pipe.invoke_write in E2. cbn [on_write fst snd] in E2.
  set (w1' := mk_world _ _ _) in E2.
  rewrite (get_writer_found w1' i _ Hf1) in E2.
  cbn [mbind outcome_bind is_done opener buffer] in E2.
  destruct (MarkRead_plain b (zlen p1) Hb) as [Hb' Hcb'];
    [rewrite Hcb, zlen_app; pose proof (zlen_nonneg tail); lia|].
  rewrite Hcb, zdrop_app in Hcb' by done. set (bm := Buffer.MarkRead b (zlen p1)) in *.
  rewrite (Buffer.ReadAvailable_contents bm (proj1 Hb')), Hcb', (proj2 (Z.eqb_neq (zlen tail) 0)) in E2
    by lia. cbn [andb] in E2.
  set (w1m := set_writer w1' i _) in E2.
  assert (om_find i (writers w1m) = Some (mk_State o bm false true)) as Hf1m
    by (eapply find_set_writer; exact Hf1).
  destruct (sync_write_waits n i _ (Pipe.mk Pipe.IdleState false b1) w1m ltac:(by split) Hf1m Hb')
    as (b2 & pb2 & l & E3 & E4 & Hpb2 & Hlpb2 & Hb2 & Hcb2 & _); [cbn [buffer]; rewrite Hcb'; lia|].
  rewrite E3 in E2. cbn [mbind outcome_bind Pipe.hit_eof q1 buffer opener is_done] in E2, E4.
  rewrite E4 in E2. cbn [buffer] in Hcb2. rewrite Hcb' in *. clear E3 E4.
  set (q2 := Pipe.mk _ _ _) in E2. set (w2 := set_writer w1m i _) in E2.
  assert (om_find i (writers w2) = Some (mk_State o b2 true true)) as Hf2
    by (eapply find_set_writer; exact Hf1m).
  assert (begun w2 = begun w1 ++ [o1]) as Hbeg2 by done.
  destruct (sync_read (S n) tail (StateWritten i (zlen tail)) o2 q2 w2) as (b3 & Hb3 & Hlb3 & E5);
    [done|done|done|lia|rewrite Hbeg2, Hbeg1; set_solver|].
  unfold Pipe.invoke_write in E5. cbn [on_write fst snd] in E5.
  set (w2' := mk_world _ _ _) in E5. rewrite (get_writer_found w2' i _ Hf2) in E5.
  cbn [mbind outcome_bind is_done opener buffer] in E5.
  destruct (MarkRead_plain b2 (zlen tail) Hb2) as [Hb2' Hcb2']; [rewrite Hcb2; lia|].
  rewrite Hcb2, zdrop_all in Hcb2' by lia.
  rewrite (proj2 (plain_empty _ Hb2') Hcb2') in E5. cbn [andb] in E5.
  rewrite respond_fresh in E5 by (cbn; rewrite Hbeg1; set_solver). cbn in E5.
  eexists q1, w1, q2, w2, _, _. split; [done|]. split; [done|]. split; [exact E5|].
  cbn [replies]. split_and!; [|done|].
  - cbn. rewrite Hrep1. by rewrite <- !app_assoc.
  - unfold Pipe.held. cbn [Pipe.buffer Pipe.state]. rewrite app_nil_r. apply zlen_0_inv.
    rewrite Buffer.zlen_contents by done. destruct Hb3 as [? ? ? ? Hw]. specialize (Hw _ Hlb3). lia.
Qed.

Lemma pipe_writer_drops_tail_witness :
  ∃ q1 w1 q2 w2 q3 w3,
    Write_request 1 5 1 [str "first"; zreplicate 3000 (ch "x")] (Pipe.TwibPipe 0, mk_world [] [] []) =
      Done (q1, w1) ∧
    Reader_Read 2 2 (q1, w1) = Done (q2, w2) ∧ Reader_Read 2 3 (q2, w2) = Done (q3, w3) ∧
    replies w3 = [] ++ [RespondOk 2 (Some (str "first"));
      RespondOk 3 (Some (ztake (2048 - zlen (str "first")) (zreplicate 3000 (ch "x"))));
      RespondOk 1 None] ∧
    Pipe.state q3 = Pipe.IdleState ∧ Pipe.held q3 = [].
Proof.
  apply (pipe_writer_drops_tail 0 5 1 2 3 (str "first") (zreplicate 3000 (ch "x"))
    (Pipe.TwibPipe 0) (mk_world [] [] [])); try apply not_elem_of_nil; try lia.
  - split; [done|done|apply (Buffer.Buffer_limited_wf 0); lia|done].
  - reflexivity.
  - by vm_compute.
  - rewrite zlen_zreplicate. change (zlen (str "first")) with 5. lia.
Defined.

(** the end of the file is answered twice over IPC.  When a pipe's writer has
    closed it, a read of the IPC pipe gives its request the end-of-file error and then,
    in the same callback, success with no data. *)
Theorem ipc_read_eof_answers_twice n request size (p : pipe) (w : world) :
  Pipe.state p = Pipe.IdleState → Pipe.hit_eof p = true → Buffer.wf (Pipe.buffer p) →
  Buffer.contents (Pipe.buffer p) = [] → 0 ≤ size →
  IPipeTwib_Read (S n) request size (p, w) =
    Done (p, mk_world (writers w) (begun w) (replies w ++
      [IpcResult request TWILI_ERR_EOF; IpcData request []; IpcResult request 0])).
Proof.
  intros Hst He Hwf Hc Hsz. unfold IPipeTwib_Read. cbn [Pipe.exec Pipe.dispatch].
  unfold Pipe.Read. rewrite Hst, Buffer.ReadAvailable_contents, Hc, He by done.
  change (0 <? zlen []) with false. cbn iota. unfold Pipe.invoke_read. cbn [on_read snd].
  change (zlen []) with 0. rewrite (proj2 (Z.ltb_ge size 0)) by lia. cbn.
  unfold add_reply. cbn. by rewrite <- !app_assoc.
Qed.

Lemma ipc_read_eof_answers_twice_witness :
  IPipeTwib_Read 1 9 64 (Pipe.set_eof (Pipe.TwibPipe 16), mk_world [] [] []) =
    Done (Pipe.set_eof (Pipe.TwibPipe 16), mk_world [] [] ([] ++
      [IpcResult 9 TWILI_ERR_EOF; IpcData 9 []; IpcResult 9 0])).
Proof.
  apply (ipc_read_eof_answers_twice 0);
    [reflexivity|reflexivity|apply (Buffer.Buffer_limited_wf 16); lia|reflexivity|lia].
Defined.

End PipeClients.
