(* ===== verification/Daemon.v ===== *)
(** * twib/daemon: the daemon's routing and the lifetime of bridge objects

    [Daemon] dispatches requests and responses between clients and devices
    (Daemon.cpp), [BridgeObject]s close the remote object they stand for when the last
    reference to them goes (BridgeObject.cpp), [LocalClient] sends the daemon's own
    requests; the TCP and USB backends' devices (TCPBackend.cpp, USBBackend.cpp) and the
    socket frontend's clients (SocketFrontend.cpp) are at the two ends.

    Shared pointers are handles into heaps of clients, devices and objects; a weak
    pointer is a handle that may have left its heap.  References are counted by looking
    who holds a handle, and dropping one destroys what nobody holds ([drop_object],
    [drop_client], [drop_device], with the destructors' actions).

    The queue is a lock-free queue for several threads, which keeps the order of the jobs
    of each thread but not between threads: [wait_dequeue] may take any job, which is
    more than what it does.  The two maps are under their locks, and the USB devices'
    state under its own.  A TCP device's [pending_requests] has none: the daemon's thread
    adds to it while the backend's takes from it (TCPBackend.cpp:138, 180), a data race
    that is not modelled.  One operation is one step here; a device that its backend
    forgets is destroyed at once (USB transfers in flight hold it a little longer).  The
    random device is a stream [rng]; MessagePack and the network are arguments. *)
From S2P Require Import Prelude Err Buffer Protocol.
Import Protocol.

Module Daemon.
Import Err.

Record BridgeObject : Type := mk_BridgeObject {
  bo_device : Z;
  bo_object : Z;
  valid : bool }.

Record Response : Type := mk_Response {
  rs_client : Z;
  rs_device : Z;
  rs_object : Z;
  rs_result : Z;
  rs_tag : Z;
  rs_payload : bytes;
  rs_objects : list Z }.

Record WeakRequest : Type := mk_WeakRequest {
  wr_client : Z;
  wr_device : Z;
  wr_object : Z;
  wr_command : Z;
  wr_tag : Z;
  wr_payload : bytes }.

Record Request : Type := mk_Request {
  rq_client : option Z;
  rq_device : Z;
  rq_object : Z;
  rq_command : Z;
  rq_tag : Z;
  rq_payload : bytes }.

Record Client : Type := mk_Client {
  client_id : Z;
  deletion_flag : bool;
  owned_objects : list Z;
  held : bool;
  received : list Response }.

Inductive backend : Type := TCP | USB.
Record Device : Type := mk_Device {
  device_id : Z;
  bridge_type : backend;
  dv_deletion_flag : bool;
  ready_flag : bool;
  added_flag : bool;
  identification : bytes;
  sent : list WeakRequest;
  pending_requests : list WeakRequest;
  response_in_objects : list Z }.

Inductive job : Type :=
| Wake
| JobRequest (rq : Request)
| JobResponse (rs : Response).

Record t : Type := mk {
  dispatch_queue : list job;
  clients : omap Z;
  devices : omap Z;
  response_map : list Z;
  heap_clients : gmap Z Client;
  heap_devices : gmap Z Device;
  heap_objects : gmap Z BridgeObject;
  next_handle : Z;
  draws : Z }.

(** The local client's handle; the daemon holds it. *)
Definition local_client : Z := 0.

(** ** Field updates *)

Definition set_queue (d : t) (q : list job) : t :=
  mk q (clients d) (devices d) (response_map d) (heap_clients d) (heap_devices d)
    (heap_objects d) (next_handle d) (draws d).
Definition set_clients (d : t) (m : omap Z) : t :=
  mk (dispatch_queue d) m (devices d) (response_map d) (heap_clients d) (heap_devices d)
    (heap_objects d) (next_handle d) (draws d).
Definition set_devices (d : t) (m : omap Z) : t :=
  mk (dispatch_queue d) (clients d) m (response_map d) (heap_clients d) (heap_devices d)
    (heap_objects d) (next_handle d) (draws d).
Definition set_response_map (d : t) (l : list Z) (n : Z) : t :=
  mk (dispatch_queue d) (clients d) (devices d) l (heap_clients d) (heap_devices d)
    (heap_objects d) (next_handle d) n.
Definition set_heap_clients (d : t) (m : gmap Z Client) : t :=
  mk (dispatch_queue d) (clients d) (devices d) (response_map d) m (heap_devices d)
    (heap_objects d) (next_handle d) (draws d).
Definition set_heap_devices (d : t) (m : gmap Z Device) : t :=
  mk (dispatch_queue d) (clients d) (devices d) (response_map d) (heap_clients d) m
    (heap_objects d) (next_handle d) (draws d).
Definition set_heap_objects (d : t) (m : gmap Z BridgeObject) : t :=
  mk (dispatch_queue d) (clients d) (devices d) (response_map d) (heap_clients d) (heap_devices d)
    m (next_handle d) (draws d).
Definition take_handle (d : t) : t :=
  mk (dispatch_queue d) (clients d) (devices d) (response_map d) (heap_clients d) (heap_devices d)
    (heap_objects d) (next_handle d + 1) (draws d).
Definition take_draw (d : t) : t := set_response_map d (response_map d) (draws d + 1).
Definition set_owned (c : Client) (l : list Z) : Client :=
  mk_Client (client_id c) (deletion_flag c) l (held c) (received c).
Definition invalidate (b : BridgeObject) : BridgeObject :=
  mk_BridgeObject (bo_device b) (bo_object b) false.

(** ** Messages.cpp *)

Definition RespondError (rq : WeakRequest) (code : Z) : Response :=
  mk_Response (wr_client rq) (wr_device rq) (wr_object rq) code (wr_tag rq) [] [].
Definition Weak (d : t) (rq : Request) : WeakRequest :=
  mk_WeakRequest
    (match rq_client rq with
     | Some h => match (heap_clients d !! h) with Some c => client_id c | None => 0 end
     | None => META_CLIENT
     end)
    (rq_device rq) (rq_object rq) (rq_command rq) (rq_tag rq) (rq_payload rq).

(** ** Posting *)

Definition PostRequest (rq : Request) (d : t) : t := set_queue d (dispatch_queue d ++ [JobRequest rq]).
Definition PostResponse (rs : Response) (d : t) : t :=
  set_queue d (dispatch_queue d ++ [JobResponse rs]).
Definition Awaken (d : t) : t := set_queue d (dispatch_queue d ++ [Wake]).

Section daemon.
Context (rng : Z → Z).

(** [LocalClient::SendRequest]: the local client gives the request its tag. *)
Definition local_SendRequest (device object command : Z) (d : t) : t :=
  let tag := rng (draws d) in
  let d := set_response_map d (response_map d ++ [tag]) (draws d + 1) in
  PostRequest (mk_Request (Some local_client) device object command tag []) d.

(** ** References *)

Definition holds_object (o : Z) (d : t) : bool :=
  existsb (fun j => match j with JobResponse rs => bool_decide (o ∈ rs_objects rs) | _ => false end)
    (dispatch_queue d) ||
  existsb (fun '(_, c) => bool_decide (o ∈ owned_objects c)) (map_to_list (heap_clients d)) ||
  existsb (fun '(_, v) => bool_decide (o ∈ response_in_objects v)) (map_to_list (heap_devices d)).
Definition holds_client (h : Z) (d : t) : bool :=
  (h =? local_client) ||
  match (heap_clients d !! h) with Some c => held c | None => false end ||
  existsb (fun j => match j with
                    | JobRequest rq => bool_decide (rq_client rq = Some h)
                    | _ => false end) (dispatch_queue d).

(** [~BridgeObject] *)
Definition drop_object (d : t) (o : Z) : t :=
  if holds_object o d then d
  else
    match (heap_objects d !! o) with
    | None => d
    | Some b =>
        let d := set_heap_objects d (delete o (heap_objects d)) in
        if valid b then local_SendRequest (bo_device b) (bo_object b) CLOSE_OBJECT d else d
    end.
Definition drop_objects (l : list Z) (d : t) : t := foldl drop_object d l.

Definition drop_client (h : Z) (d : t) : t :=
  if holds_client h d then d
  else
    match (heap_clients d !! h) with
    | None => d
    | Some c => drop_objects (owned_objects c) (set_heap_clients d (delete h (heap_clients d)))
    end.

(** The devices' destructors: only USB answers the requests that are pending. *)
Definition fail_pending (d : t) (rq : WeakRequest) : t :=
  if wr_client rq =? META_CLIENT then d
  else PostResponse (RespondError rq TWILI_ERR_PROTOCOL_TRANSFER_ERROR) d.
Definition drop_device (h : Z) (d : t) : t :=
  match (heap_devices d !! h) with
  | None => d
  | Some v =>
      let d := match bridge_type v with
               | USB => foldl fail_pending d (pending_requests v)
               | TCP => d
               end in
      drop_objects (response_in_objects v) (set_heap_devices d (delete h (heap_devices d)))
  end.

(** ** Clients and devices come and go *)

Fixpoint fresh_client_id (fuel : nat) (d : t) : outcome (t * Z) :=
  match fuel with
  | O => OutOfFuel
  | S fuel =>
      let id := rng (draws d) in
      let d := take_draw d in
      match om_find id (clients d) with
      | Some _ => fresh_client_id fuel d
      | None => Done (d, id)
      end
  end.
(** [SocketFrontend::ServerMember::SignalRead] with [Daemon::AddClient]. *)
Definition AddClient (fuel : nat) (d : t) : outcome (t * Z) :=
  let h := next_handle d in
  '(d, id) ← fresh_client_id fuel (take_handle d);
  let d := set_heap_clients d (<[h := (mk_Client id false [] true [])]> (heap_clients d)) in
  Done (set_clients d (om_insert id h (clients d)), h).

(** [clients.erase(clients.find(client->client_id))] *)
Definition RemoveClient (h : Z) (d : t) : outcome t :=
  match (heap_clients d !! h) with
  | None => Undefined
  | Some c =>
      match om_find (client_id c) (clients d) with
      | None => Undefined
      | Some _ => Done (set_clients d (om_erase (client_id c) (clients d)))
      end
  end.

(** [SocketFrontend::ServerLogic::Prepare] for a client whose connection has failed. *)
Definition client_lost (h : Z) (d : t) : outcome t :=
  match (heap_clients d !! h) with
  | None => Undefined
  | Some c =>
      let d := set_heap_clients d (<[h := (mk_Client (client_id c) true (owned_objects c) (held c) (received c))]> (heap_clients d)) in
      d ← RemoveClient h d;
      let d := set_heap_clients d (<[h := (mk_Client (client_id c) true (owned_objects c) false (received c))]> (heap_clients d)) in
      Done (drop_client h d)
  end.

Definition GetPriority (b : backend) : Z := match b with TCP => 1 | USB => 2 end.

Definition lock_device (d : t) (id : Z) : option (Z * Device) :=
  h ← om_find id (devices d);
  v ← (heap_devices d !! h);
  Some (h, v).

Definition om_assign {A} (k : Z) (a : A) (m : omap A) : omap A :=
  match om_find k m with Some _ => om_set k a m | None => om_insert k a m end.

Definition AddDevice (h : Z) (d : t) : outcome t :=
  match (heap_devices d !! h) with
  | None => Undefined
  | Some v =>
      if match lock_device d (device_id v) with
         | None => true
         | Some (_, old) => GetPriority (bridge_type old) <=? GetPriority (bridge_type v)
         end
      then
        let d := set_devices d (om_assign (device_id v) h (devices d)) in
        Done (local_SendRequest (device_id v) 0 CLOSE_OBJECT d)
      else Done d
  end.

Definition RemoveDevice (h : Z) (d : t) : outcome t :=
  match (heap_devices d !! h) with
  | None => Undefined
  | Some v => Done (set_devices d (om_erase (device_id v) (devices d)))
  end.

Definition set_added (v : Device) : Device :=
  mk_Device (device_id v) (bridge_type v) (dv_deletion_flag v) (ready_flag v) true
    (identification v) (sent v) (pending_requests v) (response_in_objects v).

Definition set_deletion (v : Device) : Device :=
  mk_Device (device_id v) (bridge_type v) true (ready_flag v) (added_flag v)
    (identification v) (sent v) (pending_requests v) (response_in_objects v).

(** [USBBackend::Device::Kill]: a transfer has failed, or could not be submitted. *)
Definition Kill (h : Z) (d : t) : outcome t :=
  match (heap_devices d !! h) with
  | Some v =>
      match bridge_type v with
      | USB => Done (set_heap_devices d (<[h := set_deletion v]> (heap_devices d)))
      | TCP => Undefined
      end
  | None => Undefined
  end.

(** One device's turn in the backends' loops (after its messages): TCP looks at the
    connection's error flag ([failed]) and the deletion flag first, USB adds first. *)
Definition poll_device (h : Z) (failed : bool) (d : t) : outcome t :=
  match (heap_devices d !! h) with
  | None => Undefined
  | Some v =>
      let add d := d ← AddDevice h d;
                   Done (set_heap_devices d (<[h := (set_added v)]> (heap_devices d))) in
      let remove (added : bool) d := d ← (if added then RemoveDevice h d else Done d);
                                     Done (drop_device h d) in
      match bridge_type v with
      | TCP =>
          let d := if failed
                   then set_heap_devices d (<[h := set_deletion v]> (heap_devices d)) else d in
          if failed || dv_deletion_flag v then remove (added_flag v) d
          else if ready_flag v && negb (added_flag v) then add d else Done d
      | USB =>
          d ← (if ready_flag v && negb (added_flag v) then add d else Done d);
          if dv_deletion_flag v then remove (ready_flag v || added_flag v) d else Done d
      end
  end.

(** ** Devices *)

(** [Device::SendRequest] of both backends; the message's fields are the request's,
    and the client's number. *)
Definition device_SendRequest (h : Z) (rq : Request) (d : t) : outcome t :=
  match (heap_devices d !! h) with
  | None => Undefined
  | Some v =>
      if match bridge_type v with USB => dv_deletion_flag v | TCP => false end then Done d
      else
        let w := Weak d rq in
        Done (set_heap_devices d (<[h := (mk_Device (device_id v) (bridge_type v) (dv_deletion_flag v) (ready_flag v)
             (added_flag v) (identification v) (sent v ++ [w]) (pending_requests v ++ [w])
             (response_in_objects v))]> (heap_devices d)))
  end.

(** [make_shared<BridgeObject>] for every id. *)
Fixpoint make_objects (device : Z) (ids : list Z) (d : t) : t * list Z :=
  match ids with
  | [] => (d, [])
  | id :: ids =>
      let h := next_handle d in
      let d := take_handle d in
      let d := set_heap_objects d (<[h := (mk_BridgeObject device id true)]> (heap_objects d)) in
      let '(d, l) := make_objects device ids d in (d, h :: l)
  end.

(** What MessagePack makes of an identification: the identification and the device's
    number (the hash of the serial number). *)
Context (parse_identification : bytes → Z).

Definition Identified (v : Device) (rs : Response) : outcome Device :=
  if negb (rs_result rs =? 0) then
    Done (mk_Device (device_id v) (bridge_type v) true (ready_flag v) (added_flag v)
            (identification v) (sent v) (pending_requests v) (response_in_objects v))
  else if zlen (rs_payload rs) <? 8 then Undefined
  else
    let p := zdrop 8 (rs_payload rs) in
    Done (mk_Device (parse_identification p) (bridge_type v) (dv_deletion_flag v) true
            (added_flag v) p (sent v) (pending_requests v) (response_in_objects v)).

(** [objects.resize(n)] drops what is past [n]; assigning the new objects drops the rest. *)
Definition replaced {A} (n : nat) (old : list A) : list A := drop n old ++ take n old.

(** [TCPBackend::Device::IncomingMessage] and [USBBackend::Device::DispatchResponse].
    [mh.device_id] and [mh.client_id] are one field of the header, the client's number
    in a response: TCP makes the objects with it, USB with the device's. *)
Definition incoming (h : Z) (mh : MessageHeader) (payload : bytes) (ids : list Z) (d : t) :
    outcome t :=
  match (heap_devices d !! h) with
  | None => Undefined
  | Some v =>
      let old := response_in_objects v in
      let '(d, objs) := make_objects
        (match bridge_type v with TCP => Protocol.client_id mh | USB => device_id v end) ids d in
      let rs := mk_Response (Protocol.client_id mh) (device_id v) (object_id mh) (Protocol.result_code mh) (tag mh)
                  payload objs in
      let v := mk_Device (device_id v) (bridge_type v) (dv_deletion_flag v) (ready_flag v)
                 (added_flag v) (identification v) (sent v)
                 (List.filter (fun r => negb (wr_tag r =? tag mh)) (pending_requests v)) objs in
      let d := drop_objects (replaced (length ids) old)
                 (set_heap_devices d (<[h := v]> (heap_devices d))) in
      if Protocol.client_id mh =? META_CLIENT then
        v ← Identified v rs;
        Done (set_heap_devices d (<[h := v]> (heap_devices d)))
      else Done (PostResponse rs d)
  end.

(** A device has been connected; its backend holds it and asks it who it is
    ([Device::Begin]). *)
Definition new_device (b : backend) (d : t) : outcome (t * Z) :=
  let h := next_handle d in
  let d := take_handle d in
  let d := set_heap_devices d (<[h := mk_Device 0 b false false false [] [] [] []]> (heap_devices d)) in
  d ← device_SendRequest h
        (mk_Request None 0 0 (ITwibDeviceInterface_Command IDENTIFY) META_CLIENT []) d;
  Done (d, h).

(** ** Dispatch *)

Context (dump : list (Z * backend * bytes) → bytes).
Context (connect : bytes → bytes → bytes).

Definition length_prefixed (s : bytes) : bytes := le_split 8 (zlen s) ++ s.

(** LIST_DEVICES dereferences what each weak pointer locks. *)
Fixpoint list_devices (l : omap Z) (d : t) : outcome (list (Z * backend * bytes)) :=
  match l with
  | [] => Done []
  | (_, h) :: l =>
      match (heap_devices d !! h) with
      | None => Undefined
      | Some v => r ← list_devices l d; Done ((device_id v, bridge_type v, identification v) :: r)
      end
  end.

(** A 64-bit length and that many bytes from the request's payload. *)
Definition read_string (b : Buffer.t) : outcome (Buffer.t * option bytes) :=
  '(b, l) ← Buffer.Read b 8;
  match l with
  | None => Done (b, None)
  | Some l => Buffer.Read_string b (le_combine l)
  end.

Definition set_payload (rs : Response) (p : bytes) : Response :=
  mk_Response (rs_client rs) (rs_device rs) (rs_object rs) (rs_result rs) (rs_tag rs) p (rs_objects rs).

Definition HandleRequest (rq : WeakRequest) (d : t) : outcome Response :=
  if wr_object rq =? 0 then
    if wr_command rq =? ITwibMetaInterface_Command LIST_DEVICES then
      l ← list_devices (devices d) d;
      Done (set_payload (RespondError rq 0) (length_prefixed (dump l)))
    else if wr_command rq =? ITwibMetaInterface_Command CONNECT_TCP then
      '(b, hostname) ← read_string (Buffer.Buffer_of (wr_payload rq));
      match hostname with
      | None => Done (RespondError rq TWILI_ERR_PROTOCOL_BAD_REQUEST)
      | Some hostname =>
          '(_, port) ← read_string b;
          match port with
          | None => Done (RespondError rq TWILI_ERR_PROTOCOL_BAD_REQUEST)
          | Some port =>
              Done (set_payload (RespondError rq 0) (length_prefixed (connect hostname port)))
          end
      end
    else Done (RespondError rq TWILI_ERR_PROTOCOL_UNRECOGNIZED_FUNCTION)
  else Done (RespondError rq TWILI_ERR_PROTOCOL_UNRECOGNIZED_OBJECT).

(** The object a close request names is disowned: by its number only. *)
Definition names (d : t) (object o : Z) : bool :=
  match (heap_objects d !! o) with Some b => bo_object b =? object | None => false end.
Definition invalidate_objects (l : list Z) (m : gmap Z BridgeObject) : gmap Z BridgeObject :=
  foldr (alter invalidate) m l.
Definition disown (h object : Z) (d : t) : t :=
  match (heap_clients d !! h) with
  | None => d
  | Some c =>
      let gone := List.filter (names d object) (owned_objects c) in
      let kept := List.filter (fun o => negb (names d object o)) (owned_objects c) in
      let d := set_heap_objects d (invalidate_objects gone (heap_objects d)) in
      drop_objects gone (set_heap_clients d (<[h := (set_owned c kept)]> (heap_clients d)))
  end.

Definition dispatch_request (rq : Request) (d : t) : outcome t :=
  match rq_client rq with
  | None => Undefined
  | Some c =>
      if rq_device rq =? 0 then
        r ← HandleRequest (Weak d rq) d;
        Done (PostResponse r d)
      else
        match lock_device d (rq_device rq) with
        | None =>
            Done (PostResponse (RespondError (Weak d rq) TWILI_ERR_PROTOCOL_UNRECOGNIZED_DEVICE) d)
        | Some (h, v) =>
            if dv_deletion_flag v then
              Done (PostResponse (RespondError (Weak d rq) TWILI_ERR_PROTOCOL_UNRECOGNIZED_DEVICE) d)
            else
              let d := if rq_command rq =? CLOSE_OBJECT then disown c (rq_object rq) d else d in
              device_SendRequest h rq d
        end
  end.

Definition GetClient (d : t) (id : Z) : option (Z * Client) :=
  h ← om_find id (clients d);
  c ← (heap_clients d !! h);
  if deletion_flag c then None else Some (h, c).

(** The objects become the client's, and [Client::PostResponse]: the local client takes
    the response's tag off its map, or drops the response. *)
Definition client_PostResponse (h : Z) (c : Client) (rs : Response) (d : t) : t :=
  let known := negb (h =? local_client) || bool_decide (rs_tag rs ∈ response_map d) in
  let d := set_heap_clients d (<[h := (mk_Client (client_id c) (deletion_flag c) (owned_objects c ++ rs_objects rs) (held c)
       (if known then received c ++ [rs] else received c))]> (heap_clients d)) in
  if h =? local_client
  then set_response_map d (List.filter (fun tg => negb (tg =? rs_tag rs)) (response_map d)) (draws d)
  else d.

Definition dispatch_response (rs : Response) (d : t) : t :=
  match GetClient d (rs_client rs) with
  | None => d
  | Some (h, c) => client_PostResponse h c rs d
  end.

(** A job of the queue and the jobs that are left. *)
Definition wait_dequeue (k : nat) (d : t) : option (job * list job) :=
  j ← dispatch_queue d !! k; Some (j, delete k (dispatch_queue d)).

(** [Process] takes one job (it waits while there is none); the references of the job
    go at its end. *)
Definition Process (k : nat) (d : t) : outcome t :=
  match wait_dequeue k d with
  | None => Done d
  | Some (Wake, q) => Done (set_queue d q)
  | Some (JobRequest rq, q) =>
      d ← dispatch_request rq (set_queue d q);
      Done (match rq_client rq with Some c => drop_client c d | None => d end)
  | Some (JobResponse rs, q) =>
      Done (drop_objects (rs_objects rs) (dispatch_response rs (set_queue d q)))
  end.
End daemon.

(** ** Specification *)

(** The daemon with its local client only. *)
Definition init : t :=
  mk [] [(1, local_client)] [] [] {[ local_client := mk_Client 1 false [] true [] ]} ∅ ∅ 1 0.

(** What the clients' connections, the devices and the daemon's thread do. *)
Inductive step (rng : Z → Z) (parse_identification : bytes → Z)
    (dump : list (Z * backend * bytes) → bytes) (connect : bytes → bytes → bytes) (d : t) :
    t → Prop :=
| step_add_client fuel d' h : AddClient rng fuel d = Done (d', h) → step _ _ _ _ d d'
| step_client_lost h d' : client_lost rng h d = Done d' → step _ _ _ _ d d'
| step_request rq : step _ _ _ _ d (PostRequest rq d)
| step_awaken : step _ _ _ _ d (Awaken d)
| step_new_device b d' h : new_device b d = Done (d', h) → step _ _ _ _ d d'
| step_kill h d' : Kill h d = Done d' → step _ _ _ _ d d'
| step_poll h failed d' : poll_device rng h failed d = Done d' → step _ _ _ _ d d'
| step_incoming h mh payload ids d' :
    incoming rng parse_identification h mh payload ids d = Done d' → step _ _ _ _ d d'
| step_process k d' : Process rng dump connect k d = Done d' → step _ _ _ _ d d'.

(** Every object that exists is held by somebody. *)
Definition all_held (d : t) : Prop :=
  ∀ o b, heap_objects d !! o = Some b → holds_object o d = true.

(** The queue has a request of the daemon to close the remote object of [b]. *)
Definition closing (d : t) (b : BridgeObject) : Prop :=
  ∃ tg, JobRequest (mk_Request (Some local_client) (bo_device b) (bo_object b) CLOSE_OBJECT tg [])
    ∈ dispatch_queue d.

(** [d'] has the clients, devices and maps of [d], its queue and perhaps more. *)
Definition same_world (d d' : t) : Prop :=
  next_handle d' = next_handle d ∧
  clients d' = clients d ∧ devices d' = devices d ∧ heap_clients d' = heap_clients d ∧
  heap_devices d' = heap_devices d ∧ ∃ l, dispatch_queue d' = dispatch_queue d ++ l ∧
    Forall (fun j => ∃ rq, j = JobRequest rq ∧ rq_client rq = Some local_client ∧
                           rq_command rq = CLOSE_OBJECT) l.

(** New handles are new. *)
Definition fresh (d : t) : Prop :=
  (∀ o b, heap_objects d !! o = Some b → o < next_handle d) ∧
  (∀ h c, heap_clients d !! h = Some c → h < next_handle d) ∧
  (∀ h v, heap_devices d !! h = Some v → h < next_handle d).

(** What happens to a valid object: it stays, or the daemon asks to close it. *)
Definition kept_or_closing (d d' : t) : Prop :=
  ∀ o b, heap_objects d !! o = Some b → valid b = true →
    heap_objects d' !! o = Some b ∨ closing d' b.

(** [all_held] and [fresh] are kept, and no valid object disappears silently. *)
Definition sound (d d' : t) : Prop :=
  (all_held d → fresh d → all_held d' ∧ fresh d') ∧ kept_or_closing d d'.

(** The step from [d] to [d'] takes a job that asks to close a remote object like [b]. *)
Definition asks_to_close (rng : Z → Z) (dump : list (Z * backend * bytes) → bytes)
    (connect : bytes → bytes → bytes) (d d' : t) (b : BridgeObject) : Prop :=
  ∃ k rq q, wait_dequeue k d = Some (JobRequest rq, q) ∧
    Process rng dump connect k d = Done d' ∧ rq_command rq = CLOSE_OBJECT ∧
    rq_object rq = bo_object b.

(** Clients own the objects of [l]. *)
Definition owned_by_clients (d : t) (l : list Z) : Prop :=
  ∀ o, o ∈ l → ∃ h c, heap_clients d !! h = Some c ∧ o ∈ owned_objects c.

(** Nothing but the client [c] holds [o]. *)
Definition only_owner (c o : Z) (d : t) : Prop :=
  (∀ rs, JobResponse rs ∈ dispatch_queue d → o ∉ rs_objects rs) ∧
  (∀ h cl, heap_clients d !! h = Some cl → o ∈ owned_objects cl → h = c) ∧
  (∀ h v, heap_devices d !! h = Some v → o ∉ response_in_objects v).

(** [objs] are objects of the device for the numbers [ids]. *)
Definition announced (d : t) (device : Z) (ids objs : list Z) : Prop :=
  Forall2 (fun id o => heap_objects d !! o = Some (mk_BridgeObject device id true)) ids objs.

(** *** An example: a client asks a USB device for an object and goes away. *)

Definition ex_rng (n : Z) : Z := 100 + n.
Definition ex_parse (p : bytes) : Z := zlen p.
Definition ex_dump (l : list (Z * backend * bytes)) : bytes := [].
Definition ex_connect (hostname port : bytes) : bytes := str "Ok".
Definition ex_identified : MessageHeader := mkHeader META_CLIENT 0 0 META_CLIENT 11 0 0.
Definition ex_request : Request := mk_Request (Some 1) 3 0 5 55 [].
Definition ex_answer : MessageHeader := mkHeader 100 0 0 55 0 1 0.
Definition from (d : outcome t) : t := match d with Done d => d | _ => init end.
Definition ex_asked : t :=
  from ('(d, _) ← AddClient ex_rng 5 init;
        '(d, h) ← new_device USB d;
        d ← incoming ex_rng ex_parse h ex_identified (str "12345678abc") [] d;
        d ← poll_device ex_rng h false d;
        d ← Process ex_rng ex_dump ex_connect 0 d;
        Done (PostRequest ex_request d)).
Definition ex_owned : t :=
  from (d ← Process ex_rng ex_dump ex_connect 0 ex_asked;
        d ← incoming ex_rng ex_parse 2 ex_answer [] [42] d;
        d ← Process ex_rng ex_dump ex_connect 0 d;
        d ← incoming ex_rng ex_parse 2 ex_answer [] [] d;
        Process ex_rng ex_dump ex_connect 0 d).
Definition ex_v : Device := mk_Device 3 USB false true true [] [] [] [].
Definition ex_w : WeakRequest := mk_WeakRequest 100 3 0 5 55 [].
Definition ex_cl : Client := mk_Client 100 false [] true [].
Definition ex_tcp : Device := mk_Device 3 TCP false true false [] [ex_w] [ex_w] [].
Definition ex_gone : Device := mk_Device 8 USB true true true [] [ex_w] [ex_w] [].
(** A client with requests pending at a USB device and a TCP device of the same number. *)
Definition ex_two : t :=
  mk [] [(100, 1)] [(3, 2)] []
    {[ 0 := mk_Client 1 false [] true []; 1 := ex_cl ]}
    {[ 2 := ex_v; 3 := ex_tcp; 4 := ex_gone ]} ∅ 5 0.
(** A client that owns an object 42 at device 3 and another at device 8, closing the first. *)
Definition ex_closing : t :=
  mk [JobRequest (mk_Request (Some 1) 3 42 CLOSE_OBJECT 56 [])] [(100, 1)] [(3, 2); (8, 3)] []
    {[ 0 := mk_Client 1 false [] true []; 1 := mk_Client 100 false [4; 5] true [] ]}
    {[ 2 := ex_v; 3 := mk_Device 8 USB false true true [] [] [] [] ]}
    {[ 4 := mk_BridgeObject 3 42 true; 5 := mk_BridgeObject 8 42 true ]} 6 0.
Definition ex_objects : gmap Z BridgeObject := heap_objects ex_owned.
Definition ex_lost : t := from (client_lost ex_rng 1 ex_owned).

(** ** Lemmas *)

Lemma holds_object_spec o d :
  holds_object o d = true ↔
  (∃ rs, JobResponse rs ∈ dispatch_queue d ∧ o ∈ rs_objects rs) ∨
  (∃ h c, heap_clients d !! h = Some c ∧ o ∈ owned_objects c) ∨
  (∃ h v, heap_devices d !! h = Some v ∧ o ∈ response_in_objects v).
Proof.
  unfold holds_object. rewrite !orb_true_iff, !existsb_exists. split.
  - intros [[(j & Hj & Ho)|([h c] & Hc & Ho)]|([h v] & Hv & Ho)].
    + left. destruct j as [| |rs]; try done. exists rs.
      rewrite bool_decide_eq_true in Ho. split; [by apply list_elem_of_In|done].
    + right. left. rewrite bool_decide_eq_true in Ho. apply list_elem_of_In, elem_of_map_to_list in Hc.
      eauto.
    + right. right. rewrite bool_decide_eq_true in Ho. apply list_elem_of_In, elem_of_map_to_list in Hv.
      eauto.
  - intros [(rs & Hj & Ho)|[(h & c & Hc & Ho)|(h & v & Hv & Ho)]].
    + left. left. exists (JobResponse rs). rewrite bool_decide_eq_true.
      split; [by apply list_elem_of_In|done].
    + left. right. exists (h, c). rewrite bool_decide_eq_true.
      split; [by apply list_elem_of_In, elem_of_map_to_list|done].
    + right. exists (h, v). rewrite bool_decide_eq_true.
      split; [by apply list_elem_of_In, elem_of_map_to_list|done].
Qed.

Lemma same_world_refl d : same_world d d.
Proof. split_and!; try done. exists []. by rewrite app_nil_r. Qed.
Lemma same_world_trans d1 d2 d3 : same_world d1 d2 → same_world d2 d3 → same_world d1 d3.
Proof.
  intros (E0 & E1 & E2 & E3 & E4 & l & Eq & Hl) (F0 & F1 & F2 & F3 & F4 & k & Fq & Hk).
  split_and!; try congruence. exists (l ++ k). rewrite Fq, Eq, <- app_assoc.
  split; [done|]. by apply Forall_app.
Qed.

(** Requests hold no objects, so what is held does not change. *)
Lemma same_world_holds d d' o : same_world d d' → holds_object o d' = holds_object o d.
Proof.
  intros (_ & _ & _ & Hc & Hv & l & Hq & Hl). apply eq_true_iff_eq.
  rewrite !holds_object_spec, Hc, Hv, Hq. setoid_rewrite elem_of_app.
  assert (∀ rs, JobResponse rs ∉ l) as Hn.
  { intros rs Hin. rewrite Forall_forall in Hl. destruct (Hl _ Hin) as (? & ? & _). done. }
  naive_solver.
Qed.

Lemma closing_mono d d' b : closing d b → same_world d d' → closing d' b.
Proof.
  intros [tg H] (_ & _ & _ & _ & _ & l & Hq & _). exists tg. rewrite Hq. apply elem_of_app. by left.
Qed.

Section drops.
Context (rng : Z → Z).

Lemma drop_object_spec d o :
  let d' := drop_object rng d o in
  same_world d d' ∧ kept_or_closing d d' ∧
  (∀ o' b, heap_objects d' !! o' = Some b → heap_objects d !! o' = Some b) ∧
  (holds_object o d = false → heap_objects d' !! o = None) ∧
  (∀ o' b, heap_objects d !! o' = Some b → o' ≠ o ∨ holds_object o d = true →
     heap_objects d' !! o' = Some b).
Proof.
  unfold drop_object. destruct (holds_object o d) eqn:Eh.
  { split_and!; try done; [apply same_world_refl|intros o' b ? ?; by left]. }
  destruct (heap_objects d !! o) as [b|] eqn:Eb; cbn zeta.
  2: { split_and!; try done; [apply same_world_refl|intros o' b' ? ?; by left]. }
  assert (∀ o' b', delete o (heap_objects d) !! o' = Some b' → heap_objects d !! o' = Some b') as H1
    by (intros o' b'; rewrite lookup_delete_Some; tauto).
  assert (∀ o' b', heap_objects d !! o' = Some b' → o' ≠ o ∨ false = true →
    delete o (heap_objects d) !! o' = Some b') as H2
    by (intros o' b' Hb [Ho|Ho]; [rewrite lookup_delete_Some; auto|done]).
  destruct (valid b) eqn:Ev; cbn.
  - split_and!; try done.
    + split_and!; try done. eexists. split; [done|]. apply Forall_singleton. by eexists.
    + intros o' b' Hb' Hv'. destruct (decide (o' = o)) as [->|Hne].
      * right. assert (b' = b) as -> by congruence. eexists. cbn. apply elem_of_app. right.
        by apply list_elem_of_singleton.
      * left. cbn. by rewrite lookup_delete_ne.
    + intros _. by rewrite lookup_delete_eq.
  - split_and!; try done.
    + split_and!; try done. exists []. by rewrite app_nil_r.
    + intros o' b' Hb' Hv'. left. cbn. rewrite lookup_delete_ne by (intros ->; congruence). done.
    + intros _. by rewrite lookup_delete_eq.
Qed.

Lemma kept_or_closing_refl d : kept_or_closing d d.
Proof. intros o b ? ?. by left. Qed.
Lemma kept_or_closing_trans d1 d2 d3 :
  kept_or_closing d1 d2 → kept_or_closing d2 d3 → same_world d2 d3 → kept_or_closing d1 d3.
Proof.
  intros H12 H23 Hw o b Hb Hv. destruct (H12 o b Hb Hv) as [H|H]; [by apply H23|].
  right. by eapply closing_mono.
Qed.

Lemma drop_objects_spec l d :
  let d' := drop_objects rng l d in
  same_world d d' ∧ kept_or_closing d d' ∧
  (∀ o b, heap_objects d' !! o = Some b → heap_objects d !! o = Some b) ∧
  (∀ o, o ∈ l → holds_object o d = false → heap_objects d' !! o = None) ∧
  (∀ o b, heap_objects d !! o = Some b → o ∉ l ∨ holds_object o d = true →
     heap_objects d' !! o = Some b).
Proof.
  revert d. induction l as [|o l IH]; intros d.
  { split_and!; try done; [apply same_world_refl|apply kept_or_closing_refl|].
    intros o Ho. by apply elem_of_nil in Ho. }
  cbn. destruct (drop_object_spec d o) as (Hw & Hk & Hsub & Hgone & Hstay).
  set (d1 := drop_object rng d o) in *.
  destruct (IH d1) as (Hw' & Hk' & Hsub' & Hgone' & Hstay').
  pose proof (same_world_holds d d1) as Hh.
  split_and!.
  - by eapply same_world_trans.
  - by eapply kept_or_closing_trans.
  - intros o' b Hb. auto.
  - intros o' Ho' Hf. apply elem_of_cons in Ho' as [->|Ho'].
    + destruct (heap_objects (drop_objects rng l d1) !! o) eqn:E; [|done].
      apply Hsub' in E. rewrite Hgone in E by done. done.
    + apply Hgone'; [done|]. by rewrite Hh.
  - intros o' b Hb Ho'. rewrite elem_of_cons in Ho'.
    apply Hstay'; [apply Hstay; [done|]|rewrite Hh by done]; [|destruct Ho'; tauto].
    destruct Ho'; [left; tauto|]. destruct (decide (o' = o)) as [->|]; tauto.
Qed.

(** Dropping the references that have gone from a state restores [all_held]. *)
Lemma drop_objects_held l d :
  (∀ o b, heap_objects d !! o = Some b → holds_object o d = true ∨ o ∈ l) →
  all_held (drop_objects rng l d).
Proof.
  intros H o b Hb. destruct (drop_objects_spec l d) as (Hw & _ & Hsub & Hgone & _).
  rewrite (same_world_holds _ _ _ Hw). destruct (holds_object o d) eqn:E; [done|].
  destruct (H o b (Hsub _ _ Hb)) as [?|Ho]; [congruence|]. rewrite Hgone in Hb by done. done.
Qed.

Lemma drop_client_spec h d :
  let d' := drop_client rng h d in
  (all_held d → all_held d') ∧ kept_or_closing d d' ∧
  next_handle d' = next_handle d ∧ (∀ o b, heap_objects d' !! o = Some b → heap_objects d !! o = Some b) ∧
  (∀ h c, heap_clients d' !! h = Some c → heap_clients d !! h = Some c) ∧
  clients d' = clients d ∧ devices d' = devices d ∧ heap_devices d' = heap_devices d ∧
  (∀ h', h' ≠ h → heap_clients d' !! h' = heap_clients d !! h') ∧
  (holds_client h d = true → d' = d).
Proof.
  unfold drop_client. destruct (holds_client h d); [split_and!; auto using kept_or_closing_refl|].
  destruct (heap_clients d !! h) as [c|] eqn:Ec; [|split_and!; auto using kept_or_closing_refl].
  set (d1 := set_heap_clients d (delete h (heap_clients d))).
  destruct (drop_objects_spec (owned_objects c) d1) as (Hw & Hk & Hsub & _).
  split_and!; try (by destruct Hw as (? & ? & ? & ? & ? & _)); try done.
  - intros H. apply drop_objects_held. intros o b Hb. specialize (H o b Hb).
    rewrite holds_object_spec in *. cbn.
    destruct H as [H|[(h' & c' & Hc' & Ho)|H]]; [by auto| |by auto].
    destruct (decide (h' = h)) as [->|Hne]; [right; congruence|].
    left. right. left. exists h', c'. by rewrite lookup_delete_ne.
  - intros h' c'. destruct Hw as (_ & _ & _ & -> & _). cbn. rewrite lookup_delete_Some. tauto.
  - intros h' Hne. destruct Hw as (_ & _ & _ & -> & _). cbn. by rewrite lookup_delete_ne.
Qed.
End drops.

(** More is held, and the same objects exist. *)
Lemma holds_mono d d' o :
  (∀ rs, JobResponse rs ∈ dispatch_queue d → JobResponse rs ∈ dispatch_queue d') →
  (∀ h c, heap_clients d !! h = Some c →
     ∃ c', heap_clients d' !! h = Some c' ∧ owned_objects c ⊆ owned_objects c') →
  (∀ h v, heap_devices d !! h = Some v →
     ∃ v', heap_devices d' !! h = Some v' ∧ response_in_objects v ⊆ response_in_objects v') →
  holds_object o d = true → holds_object o d' = true.
Proof.
  intros Hq Hc Hv. rewrite !holds_object_spec.
  intros [(rs & Hrs & Ho)|[(h & c & Ec & Ho)|(h & v & Ev & Ho)]].
  - left. eauto.
  - right. left. destruct (Hc _ _ Ec) as (c' & ? & Hsub). eauto.
  - right. right. destruct (Hv _ _ Ev) as (v' & ? & Hsub). eauto.
Qed.

(** Changing a device's or a client's other fields. *)
Lemma holds_set_device d h v v' o :
  heap_devices d !! h = Some v → response_in_objects v' = response_in_objects v →
  holds_object o (set_heap_devices d (<[h := v']> (heap_devices d))) = holds_object o d.
Proof.
  intros Hv Hr. apply eq_true_iff_eq. rewrite !holds_object_spec. cbn.
  assert ((∃ h0 v0, <[h := v']> (heap_devices d) !! h0 = Some v0 ∧ o ∈ response_in_objects v0) ↔
          (∃ h0 v0, heap_devices d !! h0 = Some v0 ∧ o ∈ response_in_objects v0)) as ->; [|done].
  split; intros (h0 & v0 & Hl & Ho).
  - apply lookup_insert_Some in Hl as [[-> ->]|[_ Hl]]; [exists h0, v; by rewrite <- Hr|eauto].
  - destruct (decide (h = h0)) as [->|Hne].
    + exists h0, v'. rewrite lookup_insert_eq. split; [done|]. congruence.
    + exists h0, v0. by rewrite lookup_insert_ne.
Qed.
Lemma holds_set_client d h c c' o :
  heap_clients d !! h = Some c → owned_objects c' = owned_objects c →
  holds_object o (set_heap_clients d (<[h := c']> (heap_clients d))) = holds_object o d.
Proof.
  intros Hv Hr. apply eq_true_iff_eq. rewrite !holds_object_spec. cbn.
  assert ((∃ h0 v0, <[h := c']> (heap_clients d) !! h0 = Some v0 ∧ o ∈ owned_objects v0) ↔
          (∃ h0 v0, heap_clients d !! h0 = Some v0 ∧ o ∈ owned_objects v0)) as ->; [|done].
  split; intros (h0 & v0 & Hl & Ho).
  - apply lookup_insert_Some in Hl as [[-> ->]|[_ Hl]]; [exists h0, c; by rewrite <- Hr|eauto].
  - destruct (decide (h = h0)) as [->|Hne].
    + exists h0, c'. rewrite lookup_insert_eq. split; [done|]. congruence.
    + exists h0, v0. by rewrite lookup_insert_ne.
Qed.

Lemma make_objects_spec device ids d :
  let '(d', l) := make_objects device ids d in
  dispatch_queue d' = dispatch_queue d ∧ clients d' = clients d ∧ devices d' = devices d ∧
  response_map d' = response_map d ∧ draws d' = draws d ∧
  heap_clients d' = heap_clients d ∧ heap_devices d' = heap_devices d ∧
  next_handle d' = next_handle d + zlen ids ∧ zlen l = zlen ids ∧
  (∀ o, o ∈ l → next_handle d ≤ o < next_handle d + zlen ids) ∧
  (∀ o, o < next_handle d → heap_objects d' !! o = heap_objects d !! o) ∧
  (∀ o b, heap_objects d' !! o = Some b → heap_objects d !! o = Some b ∨
     (o ∈ l ∧ bo_device b = device ∧ bo_object b ∈ ids ∧ valid b = true)) ∧
  (∀ i id, ids !! i = Some id → ∃ o, l !! i = Some o ∧
     heap_objects d' !! o = Some (mk_BridgeObject device id true)).
Proof.
  revert d. induction ids as [|id ids IH]; intros d; cbn [make_objects].
  { cbn. rewrite Z.add_0_r. split_and!; try done; [intros o Ho; by apply elem_of_nil in Ho|auto]. }
  set (d1 := set_heap_objects (take_handle d) _).
  specialize (IH d1). destruct (make_objects device ids d1) as [d2 l].
  destruct IH as (E1 & E2 & E3 & E4 & E5 & E6 & E7 & E8 & E9 & E10 & E11 & E12 & E13).
  rewrite !zlen_cons. pose proof (zlen_nonneg ids).
  change (next_handle d1) with (next_handle d + 1) in *.
  change (heap_objects d1) with
    (<[next_handle d := mk_BridgeObject device id true]> (heap_objects d)) in *.
  split_and!; try done; try lia.
  - intros o Ho. apply elem_of_cons in Ho as [->|Ho]; [lia|]. specialize (E10 o Ho). lia.
  - intros o Ho. rewrite E11 by lia. rewrite lookup_insert_ne by lia. done.
  - intros o b Hb. destruct (E12 o b Hb) as [Hb'|(? & ? & ? & ?)].
    + apply lookup_insert_Some in Hb' as [[<- <-]|[_ ?]]; [right|by left].
      cbn. split_and!; try done; by left.
    + right. split_and!; try done; by right.
  - intros [|i] id' Hi; cbn in Hi.
    + injection Hi as ->. exists (next_handle d). split; [done|].
      rewrite E11 by lia. by rewrite lookup_insert_eq.
    + destruct (E13 i id' Hi) as (o & ? & ?). by exists o.
Qed.

(** A step that makes and destroys no objects. *)
Lemma sound_intro d d' :
  heap_objects d' = heap_objects d →
  (∀ o, holds_object o d = true → holds_object o d' = true) →
  next_handle d ≤ next_handle d' →
  (∀ h c, heap_clients d' !! h = Some c → is_Some (heap_clients d !! h) ∨ h < next_handle d') →
  (∀ h v, heap_devices d' !! h = Some v → is_Some (heap_devices d !! h) ∨ h < next_handle d') →
  sound d d'.
Proof.
  intros Ho Hh Hn Hc Hv. split.
  - intros Ha (F1 & F2 & F3). split.
    + intros o b Hb. rewrite Ho in Hb. eauto.
    + split_and!.
      * intros o b Hb. rewrite Ho in Hb. specialize (F1 o b Hb). lia.
      * intros h c Hcl. destruct (Hc h c Hcl) as [[c' E]|]; [specialize (F2 h c' E)|]; lia.
      * intros h v Hvl. destruct (Hv h v Hvl) as [[v' E]|]; [specialize (F3 h v' E)|]; lia.
  - intros o b Hb _. left. by rewrite Ho.
Qed.

Lemma sound_trans d1 d2 d3 :
  sound d1 d2 → sound d2 d3 → (∀ b, closing d2 b → closing d3 b) → sound d1 d3.
Proof.
  intros [A1 B1] [A2 B2] Hc. split.
  - intros Ha Hf. destruct (A1 Ha Hf). auto.
  - intros o b Hb Hv. destruct (B1 o b Hb Hv) as [H|H]; [by apply B2|auto].
Qed.

Lemma sound_refl d : sound d d.
Proof. split; [done|]. apply kept_or_closing_refl. Qed.

Lemma fresh_sub d d' :
  fresh d → next_handle d ≤ next_handle d' →
  (∀ o b, heap_objects d' !! o = Some b → is_Some (heap_objects d !! o)) →
  (∀ h c, heap_clients d' !! h = Some c → is_Some (heap_clients d !! h)) →
  (∀ h v, heap_devices d' !! h = Some v → is_Some (heap_devices d !! h)) → fresh d'.
Proof.
  intros (F1 & F2 & F3) Hn Ho Hc Hv. split_and!.
  - intros o b Hb. destruct (Ho o b Hb) as [b' E]. specialize (F1 o b' E). lia.
  - intros h c Hcl. destruct (Hc h c Hcl) as [c' E]. specialize (F2 h c' E). lia.
  - intros h v Hvl. destruct (Hv h v Hvl) as [v' E]. specialize (F3 h v' E). lia.
Qed.

Section preservation.
Context (rng : Z → Z) (parse_identification : bytes → Z)
  (dump : list (Z * backend * bytes) → bytes) (connect : bytes → bytes → bytes).

Lemma drop_client_sound h d : sound d (drop_client rng h d).
Proof.
  destruct (drop_client_spec rng h d) as (Ha & Hk & Hn & Hso & Hsc & _ & _ & Hv & _).
  split; [|done]. intros Hh Hf. split; [by apply Ha|].
  apply (fresh_sub d); [done|lia|eauto..]. intros h' v. rewrite Hv. eauto.
Qed.

Lemma drop_client_closing h d b : closing d b → closing (drop_client rng h d) b.
Proof.
  intros Hb. unfold drop_client. destruct (holds_client h d); [done|].
  destruct (heap_clients d !! h) as [c|]; [|done].
  set (d1 := set_heap_clients d _).
  destruct (drop_objects_spec rng (owned_objects c) d1) as (Hw & _).
  by apply (closing_mono d1).
Qed.

(** Dropping references to objects from a state in which they have just gone. *)
Lemma drop_objects_sound l d0 d1 :
  (∀ o, holds_object o d0 = true → holds_object o d1 = true ∨ o ∈ l) →
  heap_objects d1 = heap_objects d0 → next_handle d1 = next_handle d0 →
  (∀ h c, heap_clients d1 !! h = Some c → is_Some (heap_clients d0 !! h)) →
  (∀ h v, heap_devices d1 !! h = Some v → is_Some (heap_devices d0 !! h)) →
  sound d0 (drop_objects rng l d1).
Proof.
  intros Hh Ho Hn Hc Hv. destruct (drop_objects_spec rng l d1) as (Hw & Hk & Hsub & _).
  split.
  - intros Ha Hf. split.
    + apply drop_objects_held. intros o b Hb. rewrite Ho in Hb. eauto.
    + destruct Hw as (En & _ & _ & Ec & Ev & _). apply (fresh_sub d0); [done|lia| | |].
      * intros o b Hb. apply Hsub in Hb. rewrite Ho in Hb. eauto.
      * intros h c. rewrite Ec. apply Hc.
      * intros h v. rewrite Ev. apply Hv.
  - intros o b Hb Hval. apply Hk; [by rewrite Ho|done].
Qed.

Lemma local_SendRequest_same device object d :
  same_world d (local_SendRequest rng device object CLOSE_OBJECT d).
Proof.
  split_and!; try done. eexists. split; [done|]. apply Forall_singleton. by eexists.
Qed.

Lemma AddDevice_sound h d d' : AddDevice rng h d = Done d' → sound d d' ∧
  (∀ b, closing d b → closing d' b) ∧ heap_devices d' = heap_devices d.
Proof.
  unfold AddDevice. destruct (heap_devices d !! h) as [v|]; [|done].
  destruct (match lock_device _ _ with None => _ | Some _ => _ end); intros [= <-].
  2: { split_and!; [apply sound_refl|done|done]. }
  set (d1 := set_devices d _). pose proof (local_SendRequest_same (device_id v) 0 d1) as Hw.
  split_and!; [|intros b Hb; by apply (closing_mono d1)|done].
  apply sound_intro; [done| |cbn; lia|eauto..].
  intros o Ho. rewrite (same_world_holds d1) by done. exact Ho.
Qed.

Lemma fail_pending_spec l d :
  let d' := foldl fail_pending d l in
  heap_objects d' = heap_objects d ∧ heap_clients d' = heap_clients d ∧
  heap_devices d' = heap_devices d ∧ next_handle d' = next_handle d ∧
  clients d' = clients d ∧ devices d' = devices d ∧
  dispatch_queue d' = dispatch_queue d ++
    map (fun rq => JobResponse (RespondError rq TWILI_ERR_PROTOCOL_TRANSFER_ERROR))
      (List.filter (fun rq => negb (wr_client rq =? META_CLIENT)) l).
Proof.
  revert d. induction l as [|rq l IH]; intros d; cbn; [by rewrite app_nil_r|].
  destruct (IH (fail_pending d rq)) as (-> & -> & -> & -> & -> & -> & ->).
  unfold fail_pending. destruct (wr_client rq =? META_CLIENT); cbn; [done|].
  by rewrite <- app_assoc.
Qed.

Lemma drop_device_sound h d : sound d (drop_device rng h d).
Proof.
  unfold drop_device. destruct (heap_devices d !! h) as [v|] eqn:Ev; [|apply sound_refl].
  set (d1 := match bridge_type v with TCP => d | USB => _ end).
  assert (heap_objects d1 = heap_objects d ∧ heap_clients d1 = heap_clients d ∧
    heap_devices d1 = heap_devices d ∧ next_handle d1 = next_handle d ∧
    ∀ j, j ∈ dispatch_queue d → j ∈ dispatch_queue d1) as (E1 & E2 & E3 & E4 & E5).
  { subst d1. destruct (bridge_type v); [done|].
    destruct (fail_pending_spec (pending_requests v) d) as (-> & -> & -> & -> & _ & _ & ->).
    split_and!; try done. intros j Hj. apply elem_of_app. by left. }
  apply drop_objects_sound; cbn; try done.
  - intros o. rewrite !holds_object_spec. cbn. rewrite E2, E3.
    intros [(rs & Hrs & Ho)|[H|(h' & v' & Hv' & Ho)]]; [by eauto 10|by eauto 10|].
    destruct (decide (h' = h)) as [->|Hne]; [right; congruence|].
    left. right. right. exists h', v'. by rewrite lookup_delete_ne.
  - rewrite E2. eauto.
  - rewrite E3. intros h' v'. rewrite lookup_delete_Some. intros [_ ?]. eauto.
Qed.

Lemma set_device_sound d h v v' :
  heap_devices d !! h = Some v → response_in_objects v' = response_in_objects v →
  sound d (set_heap_devices d (<[h := v']> (heap_devices d))).
Proof.
  intros Hv Hr. apply sound_intro; [done| |cbn; lia|eauto|].
  - intros o. by rewrite (holds_set_device d h v v').
  - intros h' v0. cbn. rewrite lookup_insert_Some. intros [[<- _]|[_ ?]]; eauto.
Qed.
Lemma set_client_sound d h c c' :
  heap_clients d !! h = Some c → owned_objects c' = owned_objects c →
  sound d (set_heap_clients d (<[h := c']> (heap_clients d))).
Proof.
  intros Hv Hr. apply sound_intro; [done| |cbn; lia| |eauto].
  - intros o. by rewrite (holds_set_client d h c c').
  - intros h' v0. cbn. rewrite lookup_insert_Some. intros [[<- _]|[_ ?]]; eauto.
Qed.

Lemma PostResponse_sound rs d : rs_objects rs = [] → sound d (PostResponse rs d).
Proof.
  intros _. apply sound_intro; [done| |cbn; lia|eauto..].
  intros o. apply holds_mono; [|eauto..]. intros rs' H. cbn. apply elem_of_app. by left.
Qed.
Lemma PostResponse_closing rs d b : closing d b → closing (PostResponse rs d) b.
Proof. intros [tg H]. exists tg. cbn. apply elem_of_app. by left. Qed.

Lemma drop_device_closing h d b : closing d b → closing (drop_device rng h d) b.
Proof.
  unfold drop_device. destruct (heap_devices d !! h) as [v|]; [|done].
  set (d1 := match bridge_type v with TCP => d | USB => _ end). intros [tg Hb].
  destruct (drop_objects_spec rng (response_in_objects v)
    (set_heap_devices d1 (delete h (heap_devices d1)))) as (Hw & _).
  eapply closing_mono; [|exact Hw]. exists tg. cbn. subst d1.
  destruct (bridge_type v); [done|].
  destruct (fail_pending_spec (pending_requests v) d) as (_ & _ & _ & _ & _ & _ & ->).
  apply elem_of_app. by left.
Qed.

(** The two things a device's turn can do. *)
Lemma poll_add_sound h v d d' :
  heap_devices d !! h = Some v →
  (d ← AddDevice rng h d; Done (set_heap_devices d (<[h := set_added v]> (heap_devices d)))) =
    Done d' → sound d d' ∧ is_Some (heap_devices d' !! h).
Proof.
  intros Ev E. apply bind_Done_inv in E as (d2 & E & [= <-]).
  destruct (AddDevice_sound h d d2 E) as (Hs & _ & Hd). split.
  - eapply sound_trans; [exact Hs| |done]. apply (set_device_sound _ _ v); [|done].
    by rewrite Hd.
  - cbn. rewrite lookup_insert_eq. eauto.
Qed.
Lemma poll_remove_sound h (added : bool) d d' :
  (d ← (if added then RemoveDevice h d else Done d); Done (drop_device rng h d)) = Done d' →
  sound d d' ∧ ∀ b, closing d b → closing d' b.
Proof.
  intros E. apply bind_Done_inv in E as (d2 & E & [= <-]).
  assert (sound d d2 ∧ ∀ b, closing d b → closing d2 b) as [Hs Hc].
  { destruct added; [|injection E as <-; split; [apply sound_refl|done]]. unfold RemoveDevice in E.
    destruct (heap_devices d !! h); [|done]. injection E as <-. split; [|done].
    apply sound_intro; [done|done|cbn; lia|eauto..]. }
  split; [|intros b Hb; by apply drop_device_closing, Hc].
  eapply sound_trans; [exact Hs|apply drop_device_sound|intros b; apply drop_device_closing].
Qed.

Lemma Kill_sound h d d' : Kill h d = Done d' → sound d d'.
Proof.
  unfold Kill. destruct (heap_devices d !! h) as [v|] eqn:Ev; [|done].
  destruct (bridge_type v); [done|]. intros [= <-]. by apply (set_device_sound d h v).
Qed.

Lemma poll_device_sound h failed d d' : poll_device rng h failed d = Done d' → sound d d'.
Proof.
  unfold poll_device. destruct (heap_devices d !! h) as [v|] eqn:Ev; [|done].
  destruct (bridge_type v).
  - destruct failed; cbn [orb].
    { intros E. apply poll_remove_sound in E as [Hs Hc].
      eapply sound_trans; [by apply (set_device_sound d h v (set_deletion v))|exact Hs|exact Hc]. }
    destruct (dv_deletion_flag v); [apply poll_remove_sound|].
    destruct (_ && _); [intros E; by apply poll_add_sound in E as [? _]|
                        intros [= <-]; apply sound_refl].
  - intros E. apply bind_Done_inv in E as (d1 & E1 & E2).
    assert (sound d d1) as Hs1.
    { destruct (_ && _); [by apply (poll_add_sound h v)|injection E1 as <-; apply sound_refl]. }
    destruct (dv_deletion_flag v); [|by injection E2 as <-].
    apply poll_remove_sound in E2 as [Hs2 Hc]. by eapply sound_trans.
Qed.

Lemma fresh_client_id_spec fuel d d' id :
  fresh_client_id rng fuel d = Done (d', id) →
  ∃ n, d' = set_response_map d (response_map d) n.
Proof.
  revert d. induction fuel as [|fuel IH]; intros d; cbn; [done|].
  destruct (om_find _ _); [|intros [= <- _]; by eexists].
  intros E. apply IH in E as [n ->]. by exists n.
Qed.

Lemma AddClient_sound fuel d d' h : AddClient rng fuel d = Done (d', h) → sound d d'.
Proof.
  unfold AddClient. intros E. apply bind_Done_inv in E as ([d1 id] & E1 & E2).
  apply fresh_client_id_spec in E1 as [n ->]. injection E2 as <- <-.
  split; [|intros o b Hb _; by left]. intros Ha Hf. pose proof Hf as (F1 & F2 & F3).
  split.
  - intros o b Hb. cbn in Hb. specialize (Ha o b Hb). revert Ha. apply holds_mono; cbn; eauto.
    intros h' c Hc. exists c. rewrite lookup_insert_ne by (specialize (F2 h' c Hc); lia). done.
  - split_and!; cbn.
    + intros o b Hb. specialize (F1 o b Hb). lia.
    + intros h' c. rewrite lookup_insert_Some. intros [[<- _]|[_ Hc]]; [lia|].
      specialize (F2 h' c Hc). lia.
    + intros h' v Hv. specialize (F3 h' v Hv). lia.
Qed.

Lemma client_lost_sound h d d' : client_lost rng h d = Done d' → sound d d'.
Proof.
  unfold client_lost. destruct (heap_clients d !! h) as [c|] eqn:Ec; [|done].
  set (d1 := set_heap_clients d _). intros E. apply bind_Done_inv in E as (d2 & E & [= <-]).
  unfold RemoveClient in E. cbn in E. rewrite lookup_insert_eq in E. cbn in E.
  destruct (om_find (client_id c) (clients d)); [|done]. injection E as <-.
  assert (sound d d1) as H1 by (by apply (set_client_sound d h c)).
  set (d2 := set_clients d1 _).
  assert (sound d1 d2) as H2 by (apply sound_intro; [done|done|cbn; lia|eauto..]).
  set (c1 := mk_Client (client_id c) true (owned_objects c) false (received c)).
  assert (sound d2 (set_heap_clients d2 (<[h := c1]> (heap_clients d2)))) as H3.
  { apply (set_client_sound d2 h
      (mk_Client (client_id c) true (owned_objects c) (held c) (received c))); [|done].
    cbn. by rewrite lookup_insert_eq. }
  apply (sound_trans d d2); [by apply (sound_trans d d1)| |
    intros b Hb; apply drop_client_closing; exact Hb].
  apply (sound_trans d2 _ _ H3); [apply drop_client_sound|intros b; apply drop_client_closing].
Qed.

Lemma new_device_sound b d d' h : new_device b d = Done (d', h) → sound d d'.
Proof.
  unfold new_device, device_SendRequest. cbn. rewrite lookup_insert_eq. cbn.
  set (v := mk_Device _ _ _ _ _ _ _ _ _). intros E.
  assert (∃ v, response_in_objects v = [] ∧
    d' = set_heap_devices (take_handle d) (<[next_handle d := v]> (heap_devices d)))
    as (v' & Hv' & ->).
  { destruct b; injection E as <- <-; eexists (mk_Device _ _ _ _ _ _ _ _ []); (split; [done|]);
      unfold set_heap_devices; cbn; by rewrite insert_insert_eq. }
  split; [|intros o b' Hb _; by left]. intros Ha Hf. pose proof Hf as (F1 & F2 & F3).
  split.
  - intros o b' Hb. cbn in Hb. specialize (Ha o b' Hb). revert Ha. apply holds_mono; cbn; eauto.
    intros h' v0 Hv. exists v0. rewrite lookup_insert_ne by (specialize (F3 h' v0 Hv); lia). done.
  - split_and!; cbn.
    + intros o b' Hb. specialize (F1 o b' Hb). lia.
    + intros h' c Hc. specialize (F2 h' c Hc). lia.
    + intros h' v0. rewrite lookup_insert_Some. intros [[<- _]|[_ Hv]]; [lia|].
      specialize (F3 h' v0 Hv). lia.
Qed.

Lemma device_SendRequest_sound h rq d d' : device_SendRequest h rq d = Done d' → sound d d' ∧
  ∀ b, closing d b → closing d' b.
Proof.
  unfold device_SendRequest. destruct (heap_devices d !! h) as [v|] eqn:Ev; [|done].
  destruct (match bridge_type v with TCP => _ | USB => _ end); intros [= <-].
  - split; [apply sound_refl|done].
  - split; [|done]. by apply (set_device_sound d h v).
Qed.

Lemma Identified_objects v rs v' :
  Identified parse_identification v rs = Done v' → response_in_objects v' = response_in_objects v.
Proof.
  unfold Identified. destruct (negb _); [by intros [= <-]|].
  destruct (_ <? _); [done|]. by intros [= <-].
Qed.

Lemma elem_of_replaced {A} n (l : list A) x : x ∈ replaced n l ↔ x ∈ l.
Proof.
  unfold replaced. rewrite <- (take_drop n l) at 3. rewrite !elem_of_app. tauto.
Qed.

Lemma incoming_sound h mh payload ids d d' :
  incoming rng parse_identification h mh payload ids d = Done d' →
  fresh d → sound d d'.
Proof.
  unfold incoming. destruct (heap_devices d !! h) as [v|] eqn:Ev; [|done].
  set (dev := match bridge_type v with TCP => _ | USB => _ end).
  pose proof (make_objects_spec dev ids d) as Hm. destruct (make_objects dev ids d) as [d1 objs].
  destruct Hm as (Eq & Ec & Ed & Er & Edr & Ehc & Ehd & En & El & Hobj & Hold & Hnew & _).
  set (rs := mk_Response _ _ _ _ _ _ _). set (v1 := mk_Device _ _ _ _ _ _ _ _ _).
  set (d2 := set_heap_devices d1 _). set (d3 := drop_objects rng _ d2).
  intros E Hf. pose proof Hf as (F1 & F2 & F3).
  pose proof (zlen_nonneg ids) as Hids.
  destruct (drop_objects_spec rng (replaced (length ids) (response_in_objects v)) d2)
    as (Hw & Hk & Hsub & _).
  assert (sound d d3) as H3.
  { split.
    - intros Ha _. split.
      + apply drop_objects_held. intros o b Hb. cbn in Hb.
        rewrite holds_object_spec. cbn. rewrite Eq, Ehc, Ehd.
        destruct (Hnew o b Hb) as [Hb0|(Ho & _)].
        2: { left. right. right. exists h, v1. by rewrite lookup_insert_eq. }
        specialize (Ha o b Hb0). rewrite holds_object_spec in Ha.
        destruct Ha as [H|[H|(h' & v' & Hv' & Ho)]]; [by auto|by auto|].
        destruct (decide (h' = h)) as [->|Hne]; [right; apply elem_of_replaced; congruence|].
        left. right. right. exists h', v'. by rewrite lookup_insert_ne.
      + destruct Hw as (Hn & _ & _ & Hc & Hd & _). split_and!.
        * intros o b Hb. apply Hsub in Hb. cbn in Hb. unfold d3. rewrite Hn. cbn. rewrite En.
          destruct (Hnew o b Hb) as [Hb0|(Ho & _)]; [specialize (F1 o b Hb0); lia|].
          specialize (Hobj o Ho). lia.
        * intros h' c. unfold d3. rewrite Hc, Hn. cbn. rewrite Ehc, En. intros Hl.
          specialize (F2 h' c Hl). lia.
        * intros h' v'. unfold d3. rewrite Hd, Hn. cbn. rewrite Ehd, En, lookup_insert_Some.
          intros [[<- _]|[_ Hl]]; [specialize (F3 h v Ev); lia|specialize (F3 h' v' Hl); lia].
    - intros o b Hb Hval. apply Hk; [|done]. cbn. rewrite Hold; [done|]. by apply (F1 o b). }
  assert (heap_devices d3 !! h = Some v1) as Hv1.
  { unfold d3. destruct Hw as (_ & _ & _ & _ & -> & _). cbn. by rewrite lookup_insert_eq. }
  destruct (Protocol.client_id mh =? META_CLIENT).
  - apply bind_Done_inv in E as (v2 & E & [= <-]). apply Identified_objects in E.
    eapply sound_trans; [exact H3|by apply (set_device_sound d3 h v1)|done].
  - injection E as <-. eapply sound_trans; [exact H3| |intros b; apply PostResponse_closing].
    apply sound_intro; [done| |cbn; lia|eauto..].
    intros o. apply holds_mono; [|eauto..]. intros rs' Hin. cbn. apply elem_of_app. by left.
Qed.

Lemma lookup_invalidate l m o :
  invalidate_objects l m !! o = if decide (o ∈ l) then invalidate <$> m !! o else m !! o.
Proof.
  induction l as [|k l IH]; cbn [invalidate_objects foldr].
  { destruct (decide _) as [H|]; [by apply elem_of_nil in H|done]. }
  change (foldr (alter invalidate) m l) with (invalidate_objects l m).
  destruct (decide (o = k)) as [->|Hne].
  - destruct (decide (k ∈ k :: l)) as [_|Hn]; [|destruct Hn; by left].
    rewrite lookup_alter_eq, IH. destruct (decide (k ∈ l)); by destruct (m !! k).
  - rewrite lookup_alter_ne, IH by done.
    destruct (decide (o ∈ l)) as [H|H], (decide (o ∈ k :: l)) as [H'|H']; try done.
    + destruct H'. by right.
    + by apply elem_of_cons in H' as [|].
Qed.

Lemma elem_of_filter_bool {A} (f : A → bool) (l : list A) x :
  x ∈ List.filter f l ↔ x ∈ l ∧ f x = true.
Proof. rewrite !list_elem_of_In. apply filter_In. Qed.

Lemma disown_spec h object d :
  let d' := disown rng h object d in
  (all_held d → fresh d → all_held d' ∧ fresh d') ∧
  (∀ o b, heap_objects d !! o = Some b → valid b = true →
     heap_objects d' !! o = Some b ∨ closing d' b ∨ bo_object b = object) ∧
  (∀ b, closing d b → closing d' b) ∧ heap_devices d' = heap_devices d ∧
  devices d' = devices d ∧ (∀ h', heap_clients d !! h' = None → heap_clients d' !! h' = None).
Proof.
  unfold disown. destruct (heap_clients d !! h) as [c|] eqn:Ec.
  2: { split_and!; auto. }
  set (gone := List.filter (names d object) (owned_objects c)).
  set (kept := List.filter _ (owned_objects c)).
  set (d1 := set_heap_clients _ _).
  destruct (drop_objects_spec rng gone d1) as (Hw & Hk & Hsub & _).
  assert (∀ o, holds_object o d = true → holds_object o d1 = true ∨ o ∈ gone) as Hh.
  { intros o. rewrite !holds_object_spec. cbn.
    intros [H|[(h' & c' & Hc' & Ho)|H]]; [by auto| |by auto].
    destruct (decide (h' = h)) as [->|Hne].
    - assert (c' = c) as -> by congruence. destruct (names d object o) eqn:En.
      + right. by apply elem_of_filter_bool.
      + left. right. left. exists h, (set_owned c kept). rewrite lookup_insert_eq.
        split; [done|]. cbn. apply elem_of_filter_bool. by rewrite En.
    - left. right. left. exists h', c'. by rewrite lookup_insert_ne. }
  assert (∀ o b, heap_objects d1 !! o = Some b → is_Some (heap_objects d !! o)) as Hex.
  { intros o b. cbn. rewrite lookup_invalidate. destruct (decide _); [|eauto].
    intros H. destruct (heap_objects d !! o); [eauto|done]. }
  destruct Hw as (Hn & Hcl & Hdv & Hhc & Hhd & l & Hq & _).
  split_and!; try done.
  - intros Ha Hf. split.
    + apply drop_objects_held. intros o b Hb. destruct (Hex o b Hb) as [b' Hb']. eauto.
    + apply (fresh_sub d); [done|rewrite Hn; cbn; lia| | |].
      * intros o b Hb. apply Hsub in Hb. eauto.
      * intros h' c'. rewrite Hhc. cbn. rewrite lookup_insert_Some. intros [[<- _]|[_ ?]]; eauto.
      * intros h' v'. rewrite Hhd. eauto.
  - intros o b Hb Hv. destruct (decide (o ∈ gone)) as [Hg|Hg].
    + right. right. apply elem_of_filter_bool in Hg as [_ Hnm]. unfold names in Hnm.
      rewrite Hb in Hnm. by apply Z.eqb_eq.
    + destruct (Hk o b) as [?|?]; [|done|by auto|by auto].
      cbn. rewrite lookup_invalidate. by rewrite decide_False.
  - intros b [tg H]. exists tg. rewrite Hq. apply elem_of_app. by left.
  - intros h' Hh'. rewrite Hhc. cbn. rewrite lookup_insert_ne by congruence. done.
Qed.

Lemma HandleRequest_objects w d r : HandleRequest dump connect w d = Done r → rs_objects r = [].
Proof.
  unfold HandleRequest. destruct (wr_object w =? 0); [|by intros [= <-]].
  destruct (wr_command w =? _).
  { intros E. apply bind_Done_inv in E as (l & _ & E). by injection E as <-. }
  destruct (wr_command w =? _); [|by intros [= <-]].
  intros E. apply bind_Done_inv in E as ([b [hn|]] & _ & E); [|by injection E as <-].
  apply bind_Done_inv in E as ([b' [pt|]] & _ & E); by injection E as <-.
Qed.

(** One job: objects stay sound, but for those that the job asks to close. *)
Lemma dispatch_request_sound rq d d' :
  dispatch_request rng dump connect rq d = Done d' →
  (all_held d → fresh d → all_held d' ∧ fresh d') ∧
  (∀ o b, heap_objects d !! o = Some b → valid b = true →
     heap_objects d' !! o = Some b ∨ closing d' b ∨
     (rq_command rq = CLOSE_OBJECT ∧ bo_object b = rq_object rq)).
Proof.
  assert (∀ d d', sound d d' → (all_held d → fresh d → all_held d' ∧ fresh d') ∧
    (∀ o b, heap_objects d !! o = Some b → valid b = true →
     heap_objects d' !! o = Some b ∨ closing d' b ∨
     (rq_command rq = CLOSE_OBJECT ∧ bo_object b = rq_object rq))) as Hsound.
  { intros d0 d1 [H1 H2]. split; [done|]. intros o b Hb Hv. destruct (H2 o b Hb Hv); auto. }
  unfold dispatch_request. destruct (rq_client rq) as [c|]; [|done].
  destruct (rq_device rq =? 0).
  { intros E. apply bind_Done_inv in E as (r & E & [= <-]). apply HandleRequest_objects in E.
    by apply Hsound, PostResponse_sound. }
  destruct (lock_device d (rq_device rq)) as [[h v]|];
    [|intros [= <-]; by apply Hsound, PostResponse_sound].
  destruct (dv_deletion_flag v); [intros [= <-]; by apply Hsound, PostResponse_sound|].
  intros E. apply device_SendRequest_sound in E as [[Hs1 Hs2] Hcl].
  destruct (Z.eqb_spec (rq_command rq) CLOSE_OBJECT) as [Hc|]; [|by apply Hsound].
  destruct (disown_spec c (rq_object rq) d) as (H1 & H2 & _).
  set (d1 := disown rng c (rq_object rq) d) in *. split.
  - intros Ha Hf. destruct (H1 Ha Hf). auto.
  - intros o b Hb Hv. destruct (H2 o b Hb Hv) as [H|[H|H]]; [|by auto|by auto].
    destruct (Hs2 o b H Hv); auto.
Qed.

Lemma wait_dequeue_0 d j q : dispatch_queue d = j :: q → wait_dequeue 0 d = Some (j, q).
Proof. unfold wait_dequeue. by intros ->. Qed.

Lemma wait_dequeue_elem k d j q :
  wait_dequeue k d = Some (j, q) → ∀ i, i ∈ dispatch_queue d ↔ i = j ∨ i ∈ q.
Proof.
  unfold wait_dequeue. destruct (dispatch_queue d !! k) as [j'|] eqn:E; [|done].
  cbn. intros [= <- <-] i. rewrite (delete_Permutation _ _ _ E) at 1. apply elem_of_cons.
Qed.

Lemma dispatch_response_sound k rs q d :
  wait_dequeue k d = Some (JobResponse rs, q) →
  sound d (drop_objects rng (rs_objects rs) (dispatch_response rs (set_queue d q))).
Proof.
  intros Eq. set (d1 := dispatch_response rs (set_queue d q)).
  assert (heap_objects d1 = heap_objects d ∧ next_handle d1 = next_handle d ∧
    heap_devices d1 = heap_devices d ∧ dispatch_queue d1 = q ∧
    (∀ h c, heap_clients d1 !! h = Some c → is_Some (heap_clients d !! h)) ∧
    (∀ h c, heap_clients d !! h = Some c →
       ∃ c', heap_clients d1 !! h = Some c' ∧ owned_objects c ⊆ owned_objects c'))
    as (E1 & E2 & E3 & E4 & E5 & E6).
  { subst d1. unfold dispatch_response, GetClient. cbn.
    destruct (om_find _ (clients d)) as [h|]; [|split_and!; eauto]. cbn.
    destruct (heap_clients d !! h) as [c|] eqn:Ec; [|split_and!; eauto]. cbn.
    destruct (deletion_flag c); [split_and!; eauto|].
    unfold client_PostResponse. destruct (h =? local_client); cbn; split_and!; try done;
      try (intros h' c' Hl; apply lookup_insert_Some in Hl as [[<- _]|[_ ?]]; eauto);
      intros h' c' Hl; (destruct (decide (h = h')) as [->|Hne];
        [rewrite lookup_insert_eq; eexists; split; [done|]; cbn;
         assert (c' = c) as -> by congruence; apply list_subseteq_app_l; done
        |rewrite lookup_insert_ne by done; eauto]). }
  apply drop_objects_sound; [|done|done|done|rewrite E3; eauto].
  intros o. rewrite !holds_object_spec, E3, E4.
  intros [(rs' & Hrs & Ho)|[(h & c & Hc & Ho)|H]]; [| |by auto].
  - apply (wait_dequeue_elem _ _ _ _ Eq) in Hrs as [[= ->]|Hrs]; [by right|]. left. left. eauto.
  - destruct (E6 h c Hc) as (c' & Hc' & Hsub). left. right. left. exists h, c'. auto.
Qed.
End preservation.

(** What [Process] does with a request for a device that is there. *)
Lemma device_SendRequest_found h v rq d :
  heap_devices d !! h = Some v → dv_deletion_flag v = false →
  device_SendRequest h rq d = Done (set_heap_devices d (<[h :=
    mk_Device (device_id v) (bridge_type v) (dv_deletion_flag v) (ready_flag v) (added_flag v)
      (identification v) (sent v ++ [Weak d rq]) (pending_requests v ++ [Weak d rq])
      (response_in_objects v)]> (heap_devices d))).
Proof.
  intros Hv Hd. unfold device_SendRequest. rewrite Hv, Hd. by destruct (bridge_type v).
Qed.

Lemma holds_client_held h c d : heap_clients d !! h = Some c → held c = true → holds_client h d = true.
Proof. intros Hc Hh. unfold holds_client. rewrite Hc, Hh. by rewrite orb_true_r. Qed.

Lemma drop_client_held rng h c d :
  heap_clients d !! h = Some c → held c = true → drop_client rng h d = d.
Proof. intros Hc Hh. unfold drop_client. by rewrite (holds_client_held h c). Qed.

Lemma Weak_client d rq c cl :
  rq_client rq = Some c → heap_clients d !! c = Some cl →
  Weak d rq = mk_WeakRequest (client_id cl) (rq_device rq) (rq_object rq) (rq_command rq)
                (rq_tag rq) (rq_payload rq).
Proof. intros Hc Hcl. unfold Weak. by rewrite Hc, Hcl. Qed.

Lemma Process_request rng dump connect d rq q c cl h v :
  dispatch_queue d = JobRequest rq :: q → rq_client rq = Some c →
  heap_clients d !! c = Some cl → held cl = true → rq_device rq ≠ 0 →
  rq_command rq ≠ CLOSE_OBJECT → lock_device d (rq_device rq) = Some (h, v) →
  dv_deletion_flag v = false →
  let w := mk_WeakRequest (client_id cl) (rq_device rq) (rq_object rq) (rq_command rq)
             (rq_tag rq) (rq_payload rq) in
  Process rng dump connect 0 d = Done (set_heap_devices (set_queue d q) (<[h :=
    mk_Device (device_id v) (bridge_type v) (dv_deletion_flag v) (ready_flag v) (added_flag v)
      (identification v) (sent v ++ [w]) (pending_requests v ++ [w])
      (response_in_objects v)]> (heap_devices d))).
Proof.
  intros Eq Hc Hcl Hh Hd Hcmd Hl Hdel w. unfold Process. rewrite (wait_dequeue_0 _ _ _ Eq). unfold dispatch_request.
  rewrite Hc, (proj2 (Z.eqb_neq _ _)) by done.
  change (lock_device (set_queue d q) (rq_device rq)) with (lock_device d (rq_device rq)).
  rewrite Hl, Hdel, (proj2 (Z.eqb_neq _ _)) by done.
  assert (heap_devices d !! h = Some v) as Hv.
  { unfold lock_device in Hl. destruct (om_find _ _) as [h'|]; [|done]. cbn in Hl.
    destruct (heap_devices d !! h') eqn:E; [|done]. by injection Hl as -> ->. }
  rewrite (device_SendRequest_found h v rq (set_queue d q) Hv Hdel).
  rewrite (Weak_client (set_queue d q) rq c cl Hc Hcl). cbn [mbind outcome_bind].
  rewrite (drop_client_held rng c cl); [by rewrite Hdel|exact Hcl|exact Hh].
Qed.

Lemma drop_objects_nothing rng l d :
  (∀ o, o ∈ l → holds_object o d = true) → drop_objects rng l d = d.
Proof.
  induction l as [|o l IH]; intros H; [done|]. cbn. unfold drop_object.
  rewrite (H o) by (by left). apply IH. intros o' Ho. apply H. by right.
Qed.

(** What [incoming] does with a response for a client. *)
Lemma incoming_response rng parse h v mh payload ids d :
  heap_devices d !! h = Some v → owned_by_clients d (response_in_objects v) →
  Protocol.client_id mh ≠ META_CLIENT →
  ∃ d' objs v',
    incoming rng parse h mh payload ids d = Done d' ∧
    dispatch_queue d' = dispatch_queue d ++ [JobResponse (mk_Response (Protocol.client_id mh)
      (device_id v) (object_id mh) (Protocol.result_code mh) (tag mh) payload objs)] ∧
    heap_clients d' = heap_clients d ∧ clients d' = clients d ∧ heap_devices d' !! h = Some v' ∧
    Forall (fun r => wr_tag r ≠ tag mh) (pending_requests v') ∧
    announced d' (match bridge_type v with TCP => Protocol.client_id mh | USB => device_id v end)
      ids objs.
Proof.
  intros Hv Hown Hmeta. unfold incoming. rewrite Hv.
  set (dev := match bridge_type v with TCP => _ | USB => _ end).
  pose proof (make_objects_spec dev ids d) as Hm. destruct (make_objects dev ids d) as [d1 objs].
  destruct Hm as (Eq & Ec & _ & _ & _ & Ehc & Ehd & _ & El & _ & _ & _ & Hann).
  cbn zeta. rewrite drop_objects_nothing.
  2: { intros o Ho. apply elem_of_replaced in Ho. destruct (Hown o Ho) as (h' & c & Hc & Hin). apply holds_object_spec.
       right. left. exists h', c. cbn. by rewrite Ehc. }
  rewrite (proj2 (Z.eqb_neq _ _)) by done. eexists _, objs, _. split; [reflexivity|].
  cbn. rewrite Eq, Ec, Ehc, lookup_insert_eq. split_and!; try done.
  - apply Forall_forall. intros r Hr. apply elem_of_filter_bool in Hr as [_ Hr].
    by apply negb_true_iff, Z.eqb_neq in Hr.
  - apply Forall2_same_length_lookup_2; [unfold zlen in El; lia|].
    intros i id o Hid Ho. destruct (Hann i id Hid) as (o' & Ho' & Hb). cbn. congruence.
Qed.

(** What [Process] does with a response for a client that is there. *)
Lemma Process_response rng dump connect d rs q c cl :
  dispatch_queue d = JobResponse rs :: q →
  om_find (rs_client rs) (clients d) = Some c → heap_clients d !! c = Some cl →
  deletion_flag cl = false → c ≠ local_client →
  Process rng dump connect 0 d = Done (set_heap_clients (set_queue d q) (<[c :=
    mk_Client (client_id cl) false (owned_objects cl ++ rs_objects rs) (held cl)
      (received cl ++ [rs])]> (heap_clients d))).
Proof.
  intros Eq Hf Hc Hdel Hloc. unfold Process. rewrite (wait_dequeue_0 _ _ _ Eq). unfold dispatch_response, GetClient.
  cbn [clients set_queue heap_clients]. rewrite Hf. cbn [mbind option_bind].
  rewrite Hc. cbn [mbind option_bind]. rewrite Hdel. unfold client_PostResponse.
  rewrite (proj2 (Z.eqb_neq _ _)) by done. cbn [negb orb]. rewrite Hdel.
  rewrite drop_objects_nothing; [done|]. intros o Ho. apply holds_object_spec. right. left.
  eexists c, _. cbn. rewrite lookup_insert_eq. split; [done|]. cbn. apply elem_of_app. by right.
Qed.

Lemma lock_device_Some d id h v :
  lock_device d id = Some (h, v) → om_find id (devices d) = Some h ∧ heap_devices d !! h = Some v.
Proof.
  unfold lock_device. destruct (om_find id (devices d)) as [h'|]; [|done]. cbn.
  destruct (heap_devices d !! h') eqn:E; [|done]. by intros [= <- <-].
Qed.
Lemma lock_device_intro d id h v :
  om_find id (devices d) = Some h → heap_devices d !! h = Some v → lock_device d id = Some (h, v).
Proof. intros Hf Hv. unfold lock_device. rewrite Hf. cbn. by rewrite Hv. Qed.

Lemma RemoveDevice_cases (b : bool) h v d :
  heap_devices d !! h = Some v →
  ∃ d', (if b then RemoveDevice h d else Done d) = Done d' ∧
    dispatch_queue d' = dispatch_queue d ∧ heap_devices d' = heap_devices d ∧
    devices d' = (if b then om_erase (device_id v) (devices d) else devices d).
Proof.
  intros Hv. destruct b; [|by exists d]. unfold RemoveDevice. rewrite Hv. by eexists.
Qed.

Lemma drop_device_queue rng h v d :
  heap_devices d !! h = Some v →
  heap_devices (drop_device rng h d) !! h = None ∧
  ∃ closes, dispatch_queue (drop_device rng h d) = dispatch_queue d ++
      (match bridge_type v with
       | USB => map (fun rq => JobResponse (RespondError rq TWILI_ERR_PROTOCOL_TRANSFER_ERROR))
                  (List.filter (fun rq => negb (wr_client rq =? META_CLIENT)) (pending_requests v))
       | TCP => []
       end) ++ closes ∧
    Forall (fun j => ∃ rq, j = JobRequest rq ∧ rq_client rq = Some local_client ∧
                           rq_command rq = CLOSE_OBJECT) closes.
Proof.
  intros Hv. unfold drop_device. rewrite Hv.
  set (d1 := match bridge_type v with TCP => d | USB => _ end).
  destruct (drop_objects_spec rng (response_in_objects v)
    (set_heap_devices d1 (delete h (heap_devices d1)))) as ((_ & _ & _ & _ & Hd & l & Hq & Hl) & _).
  rewrite Hd, Hq. split; [cbn; by rewrite lookup_delete_eq|]. exists l. split; [|done].
  cbn. subst d1. destruct (bridge_type v); [done|].
  destruct (fail_pending_spec (pending_requests v) d) as (_ & _ & _ & _ & _ & _ & ->).
  by rewrite <- app_assoc.
Qed.

(** A backend forgets a device. *)
Lemma forget_device rng (b : bool) h v d :
  heap_devices d !! h = Some v →
  ∃ d' closes, (d ← (if b then RemoveDevice h d else Done d); Done (drop_device rng h d)) = Done d' ∧
    heap_devices d' !! h = None ∧
    dispatch_queue d' = dispatch_queue d ++
      (match bridge_type v with
       | USB => map (fun rq => JobResponse (RespondError rq TWILI_ERR_PROTOCOL_TRANSFER_ERROR))
                  (List.filter (fun rq => negb (wr_client rq =? META_CLIENT)) (pending_requests v))
       | TCP => []
       end) ++ closes ∧
    Forall (fun j => ∃ rq, j = JobRequest rq ∧ rq_client rq = Some local_client ∧
                           rq_command rq = CLOSE_OBJECT) closes.
Proof.
  intros Hv. destruct (RemoveDevice_cases b h v d Hv) as (d1 & E & Hq & Hd1 & _).
  destruct (drop_device_queue rng h v d1) as (Hn & closes & Hq' & Hc); [by rewrite Hd1|].
  rewrite Hq in Hq'. exists (drop_device rng h d1), closes. by rewrite E.
Qed.

Lemma drop_device_maps rng h d :
  devices (drop_device rng h d) = devices d ∧
  ∀ h', h' ≠ h → heap_devices (drop_device rng h d) !! h' = heap_devices d !! h'.
Proof.
  unfold drop_device. destruct (heap_devices d !! h) as [v|]; [|done].
  set (d1 := match bridge_type v with TCP => d | USB => _ end).
  assert (devices d1 = devices d ∧ heap_devices d1 = heap_devices d) as [E1 E2].
  { subst d1. destruct (bridge_type v); [done|].
    by destruct (fail_pending_spec (pending_requests v) d) as (_ & _ & -> & _ & _ & -> & _). }
  destruct (drop_objects_spec rng (response_in_objects v)
    (set_heap_devices d1 (delete h (heap_devices d1)))) as ((_ & _ & Hd & _ & Hh & _) & _).
  rewrite Hd, Hh. split; [done|]. intros h' Hne. cbn. by rewrite E2, lookup_delete_ne.
Qed.

Lemma drop_client_local rng d : drop_client rng local_client d = d.
Proof. reflexivity. Qed.

Lemma announced_object d device ids objs o :
  announced d device ids objs → o ∈ objs →
  ∃ id, heap_objects d !! o = Some (mk_BridgeObject device id true).
Proof.
  intros Ha Ho. apply list_elem_of_lookup in Ho as [i Hi].
  destruct (Forall2_lookup_r _ _ _ _ _ Ha Hi) as (id & _ & H). eauto.
Qed.

(** Dropping objects that are not valid queues nothing. *)
Lemma drop_objects_invalid rng l d :
  (∀ o b, o ∈ l → heap_objects d !! o = Some b → valid b = false) →
  dispatch_queue (drop_objects rng l d) = dispatch_queue d.
Proof.
  revert d. induction l as [|o l IH]; intros d H; [done|]. cbn.
  assert (dispatch_queue (drop_object rng d o) = dispatch_queue d) as Hq.
  { unfold drop_object. destruct (holds_object o d); [done|].
    destruct (heap_objects d !! o) as [b|] eqn:Eb; [|done].
    by rewrite (H o b) by (done || by left). }
  destruct (drop_object_spec rng d o) as (_ & _ & Hsub & _).
  etransitivity; [apply IH|exact Hq]. intros o' b Hin Hb. apply (H o' b); [by right|auto].
Qed.

(** What a close request does to an object that it names and only its client owns. *)
Lemma disown_gone rng c cl object o d :
  heap_clients d !! c = Some cl → o ∈ List.filter (names d object) (owned_objects cl) →
  only_owner c o d →
  let d' := disown rng c object d in
  heap_objects d' !! o = None ∧ dispatch_queue d' = dispatch_queue d ∧
  heap_clients d' !! c = Some (set_owned cl
    (List.filter (fun o => negb (names d object o)) (owned_objects cl))) ∧
  heap_devices d' = heap_devices d.
Proof.
  intros Hcl Hgone (H1 & H2 & H3). cbn zeta. unfold disown. rewrite Hcl.
  set (gone := List.filter (names d object) _) in *. set (kept := List.filter _ _).
  set (d1 := set_heap_clients _ _).
  destruct (drop_objects_spec rng gone d1) as ((_ & _ & _ & Hc & Hd & _) & _ & _ & Hnone & _).
  split_and!.
  - apply Hnone; [done|]. apply not_true_iff_false. rewrite holds_object_spec. cbn.
    intros [(rs & Hin & Ho)|[(h & cl' & Hl & Ho)|(h & v & Hv & Ho)]];
      [by apply (H1 rs)| |by apply (H3 h v)].
    apply lookup_insert_Some in Hl as [[<- <-]|[Hne Hl]]; [|by apply Hne; rewrite (H2 h cl')].
    apply elem_of_filter_bool in Ho as [_ Ho]. apply elem_of_filter_bool in Hgone as [_ Hg].
    by rewrite Hg in Ho.
  - rewrite drop_objects_invalid; [done|]. intros o' b Hin. cbn.
    rewrite lookup_invalidate, decide_True by done.
    destruct (heap_objects d !! o'); [|done]. by intros [= <-].
  - rewrite Hc. cbn. by rewrite lookup_insert_eq.
  - by rewrite Hd.
Qed.

Section reachability.
Context (rng : Z → Z) (parse_identification : bytes → Z)
  (dump : list (Z * backend * bytes) → bytes) (connect : bytes → bytes → bytes).

Definition lifetime (d d' : t) : Prop :=
  ∀ o b, heap_objects d !! o = Some b → valid b = true →
    heap_objects d' !! o = Some b ∨ closing d' b ∨ asks_to_close rng dump connect d d' b.

Lemma sound_lifetime d d' :
  all_held d → fresh d → sound d d' → all_held d' ∧ fresh d' ∧ lifetime d d'.
Proof.
  intros Ha Hf [H1 H2]. destruct (H1 Ha Hf). split_and!; [done..|].
  intros o b Hb Hv. destruct (H2 o b Hb Hv); auto.
Qed.

Lemma queue_sound d d' :
  heap_objects d' = heap_objects d → heap_clients d' = heap_clients d →
  heap_devices d' = heap_devices d → next_handle d' = next_handle d →
  (∀ rs, JobResponse rs ∈ dispatch_queue d → JobResponse rs ∈ dispatch_queue d') → sound d d'.
Proof.
  intros Ho Hc Hd Hn Hq. apply sound_intro; [done| |lia|rewrite Hc; eauto|rewrite Hd; eauto].
  intros o. apply holds_mono; [done|rewrite Hc; eauto|rewrite Hd; eauto].
Qed.

Lemma Process_lifetime k d d' :
  all_held d → fresh d → Process rng dump connect k d = Done d' →
  all_held d' ∧ fresh d' ∧ lifetime d d'.
Proof.
  intros Ha Hf E. pose proof E as E0. unfold Process in E.
  destruct (wait_dequeue k d) as [[[|rq|rs] q]|] eqn:Eq.
  - injection E as <-. apply sound_lifetime, queue_sound; try done. intros rs Hin.
    by apply (wait_dequeue_elem _ _ _ _ Eq) in Hin as [|].
  - apply bind_Done_inv in E as (d1 & E & [= <-]).
    assert (sound d (set_queue d q)) as [Hq1 _].
    { apply queue_sound; try done. intros rs Hin.
      by apply (wait_dequeue_elem _ _ _ _ Eq) in Hin as [|]. }
    destruct (Hq1 Ha Hf) as [Ha1 Hf1].
    apply dispatch_request_sound in E as [H1 H2]. destruct (H1 Ha1 Hf1) as [Ha2 Hf2].
    set (d2 := match rq_client rq with Some c => _ | None => _ end) in *.
    assert (sound d1 d2 ∧ ∀ b, closing d1 b → closing d2 b) as [[H3 H4] Hcl].
    { subst d2. destruct (rq_client rq) as [c|]; [|split; [apply sound_refl|done]].
      split; [apply drop_client_sound|intros b; apply drop_client_closing]. }
    destruct (H3 Ha2 Hf2) as [Ha3 Hf3]. split_and!; [done..|].
    intros o b Hb Hv. destruct (H2 o b Hb Hv) as [H|[H|[Hc Ho]]]; [|by auto|].
    + destruct (H4 o b H Hv); auto.
    + right. right. by exists k, rq, q.
  - injection E as <-. by eapply sound_lifetime, dispatch_response_sound.
  - injection E as <-. apply sound_lifetime; [done..|apply sound_refl].
Qed.

Lemma step_lifetime d d' :
  all_held d → fresh d → step rng parse_identification dump connect d d' →
  all_held d' ∧ fresh d' ∧ lifetime d d'.
Proof.
  intros Ha Hf [fuel d1 h E|h d1 E|rq| |b d1 h E|h d1 E|h failed d1 E|h mh payload ids d1 E|k d1 E].
  - apply sound_lifetime; [done..|by eapply AddClient_sound].
  - apply sound_lifetime; [done..|by eapply client_lost_sound].
  - apply sound_lifetime, queue_sound; try done. intros rs Hin. cbn. apply elem_of_app. by left.
  - apply sound_lifetime, queue_sound; try done. intros rs Hin. cbn. apply elem_of_app. by left.
  - apply sound_lifetime; [done..|by eapply new_device_sound].
  - apply sound_lifetime; [done..|by eapply Kill_sound].
  - apply sound_lifetime; [done..|by eapply poll_device_sound].
  - apply sound_lifetime; [done..|by eapply incoming_sound].
  - by eapply Process_lifetime.
Qed.

Lemma reachable_held d :
  rtc (step rng parse_identification dump connect) init d → all_held d ∧ fresh d.
Proof.
  apply (rtc_ind_r (fun d => all_held d ∧ fresh d)).
  - split; [intros o b Hb; cbn in Hb; by rewrite lookup_empty in Hb|]. split_and!; cbn.
    + intros o b Hb. cbn in Hb. by rewrite lookup_empty in Hb.
    + intros h c Hc. apply lookup_singleton_Some in Hc as [<- _]. by unfold local_client.
    + intros h v Hv. cbn in Hv. by rewrite lookup_empty in Hv.
  - intros d1 d2 _ Hs [Ha Hf]. destruct (step_lifetime d1 d2 Ha Hf Hs) as (? & ? & _). done.
Qed.
End reachability.

(** ** Theorems *)

(** C24: bridge objects do not leak.  In every state the daemon can reach, clients and
    devices coming and going (a USB device that is killed, a TCP connection that fails)
    and the queue's jobs being taken in any order, every bridge object that exists is
    held by a client, a queued response or a device; and in every step a valid object
    stays as it is, or the daemon queues a request to close it, or the step takes a
    request to close an object of its number. *)
Theorem daemon_object_lifetime rng parse_identification dump connect d d' :
  rtc (step rng parse_identification dump connect) init d →
  step rng parse_identification dump connect d d' →
  all_held d ∧ all_held d' ∧
  ∀ o b, heap_objects d !! o = Some b → valid b = true →
    heap_objects d' !! o = Some b ∨ closing d' b ∨ asks_to_close rng dump connect d d' b.
Proof.
  intros Hr Hs. destruct (reachable_held _ _ _ _ d Hr) as [Ha Hf].
  destruct (step_lifetime _ _ _ _ d d' Ha Hf Hs) as (? & _ & ?). done.
Qed.

Lemma daemon_object_lifetime_witness :
  ex_objects = {[ 3 := mk_BridgeObject 3 42 true ]} ∧ closing ex_lost (mk_BridgeObject 3 42 true) ∧
  (all_held ex_owned ∧ all_held ex_lost ∧
   ∀ o b, heap_objects ex_owned !! o = Some b → valid b = true →
     heap_objects ex_lost !! o = Some b ∨ closing ex_lost b ∨
     asks_to_close ex_rng ex_dump ex_connect ex_owned ex_lost b).
Proof.
  split; [vm_compute; reflexivity|].
  split; [exists 102; vm_compute; left|].
  apply (daemon_object_lifetime ex_rng ex_parse ex_dump ex_connect ex_owned ex_lost).
  - eapply rtc_l; [eapply (step_add_client _ _ _ _ _ 5); vm_compute; reflexivity|].
    eapply rtc_l; [eapply (step_new_device _ _ _ _ _ USB); vm_compute; reflexivity|].
    eapply rtc_l; [eapply (step_incoming _ _ _ _ _ 2 ex_identified (str "12345678abc") []); vm_compute; reflexivity|].
    eapply rtc_l; [eapply (step_poll _ _ _ _ _ 2 false); vm_compute; reflexivity|].
    eapply rtc_l; [eapply (step_process _ _ _ _ _ 0); vm_compute; reflexivity|].
    eapply rtc_l; [eapply (step_request _ _ _ _ _ ex_request)|].
    eapply rtc_l; [eapply (step_process _ _ _ _ _ 0); vm_compute; reflexivity|].
    eapply rtc_l; [eapply (step_incoming _ _ _ _ _ 2 ex_answer [] [42]); vm_compute; reflexivity|].
    eapply rtc_l; [eapply (step_process _ _ _ _ _ 0); vm_compute; reflexivity|].
    eapply rtc_l; [eapply (step_incoming _ _ _ _ _ 2 ex_answer [] []); vm_compute; reflexivity|].
    eapply rtc_l; [eapply (step_process _ _ _ _ _ 0); vm_compute; reflexivity|].
    apply rtc_refl.
  - apply (step_client_lost _ _ _ _ _ 1). vm_compute. reflexivity.
Defined.

(** C21: a request comes back.  Process sends a client's request to the device the map
    has for it, with the client's number and tag; the device's response to that number
    and tag, whatever its result, payload and objects, is the next thing this client
    receives, and no other client receives anything; the objects the response announces
    exist and are the client's, the request is no longer pending, the queue is empty. *)
Theorem daemon_round_trip rng parse_identification dump connect d rq c cl h v mh payload ids :
  dispatch_queue d = [JobRequest rq] → rq_client rq = Some c → c ≠ local_client →
  heap_clients d !! c = Some cl → held cl = true → deletion_flag cl = false →
  client_id cl ≠ META_CLIENT → om_find (client_id cl) (clients d) = Some c →
  rq_device rq ≠ 0 → rq_command rq ≠ CLOSE_OBJECT →
  lock_device d (rq_device rq) = Some (h, v) → dv_deletion_flag v = false →
  owned_by_clients d (response_in_objects v) →
  Protocol.client_id mh = client_id cl → tag mh = rq_tag rq →
  ∃ d1 d2 d3 v1 v3 objs,
    Process rng dump connect 0 d = Done d1 ∧ heap_devices d1 !! h = Some v1 ∧
    sent v1 = sent v ++ [mk_WeakRequest (client_id cl) (rq_device rq) (rq_object rq)
                           (rq_command rq) (rq_tag rq) (rq_payload rq)] ∧
    incoming rng parse_identification h mh payload ids d1 = Done d2 ∧
    Process rng dump connect 0 d2 = Done d3 ∧ dispatch_queue d3 = [] ∧
    heap_clients d3 = <[c := mk_Client (client_id cl) false (owned_objects cl ++ objs) true
      (received cl ++ [mk_Response (client_id cl) (device_id v) (object_id mh)
        (Protocol.result_code mh) (rq_tag rq) payload objs])]> (heap_clients d) ∧
    heap_devices d3 !! h = Some v3 ∧ Forall (fun r => wr_tag r ≠ rq_tag rq) (pending_requests v3) ∧
    announced d3 (match bridge_type v with TCP => client_id cl | USB => device_id v end) ids objs.
Proof.
  intros Eq Hc Hloc Hcl Hheld Hdel Hmeta Hfind Hdev Hcmd Hl Hvd Hown Ecid Etag.
  pose proof (Process_request rng dump connect d rq [] c cl h v Eq Hc Hcl Hheld Hdev Hcmd Hl Hvd) as E1.
  cbn zeta in E1. set (v1 := mk_Device _ _ _ _ _ _ _ _ _) in E1.
  set (d1 := set_heap_devices _ _) in E1.
  destruct (incoming_response rng parse_identification h v1 mh payload ids d1)
    as (d2 & objs & v3 & E2 & Q2 & C2 & M2 & V2 & P2 & O2).
  { cbn. by rewrite lookup_insert_eq. }
  { done. } { congruence. }
  cbn in V2, P2, O2. rewrite Ecid, Etag in *.
  set (rs := mk_Response _ _ _ _ _ _ _) in Q2.
  pose proof (Process_response rng dump connect d2 rs [] c cl Q2) as E3.
  cbn [rs_client rs] in E3. rewrite M2, C2 in E3. specialize (E3 Hfind Hcl Hdel Hloc).
  eexists d1, d2, _, v1, v3, objs. split; [exact E1|]. split; [cbn; by rewrite lookup_insert_eq|].
  split; [done|]. split; [exact E2|]. split; [exact E3|]. split; [done|].
  split; [cbn; by rewrite Hheld|]. split; [exact V2|]. split; [|exact O2].
  exact P2.
Qed.

Lemma daemon_round_trip_witness :
  ∃ d1 d2 d3 objs, Process ex_rng ex_dump ex_connect 0 ex_asked = Done d1 ∧
    incoming ex_rng ex_parse 2 ex_answer (str "x") [42] d1 = Done d2 ∧
    Process ex_rng ex_dump ex_connect 0 d2 = Done d3 ∧ dispatch_queue d3 = [] ∧
    announced d3 3 [42] objs.
Proof.
  edestruct (daemon_round_trip ex_rng ex_parse ex_dump ex_connect ex_asked ex_request 1 ex_cl 2
    (default ex_v (heap_devices ex_asked !! 2))
    ex_answer (str "x") [42]) as (d1 & d2 & d3 & v1 & v3 & objs & H1 & _ & _ & H2 & H3 & H4 & _ & _ & _ & H5);
    [vm_compute; reflexivity|reflexivity|done|vm_compute; reflexivity|reflexivity|reflexivity|done|
     vm_compute; reflexivity|done|done|vm_compute; reflexivity|vm_compute; reflexivity| |
     reflexivity|reflexivity|].
  - intros o Ho. vm_compute in Ho. by apply elem_of_nil in Ho.
  - exists d1, d2, d3, objs. by split_and!.
Defined.

(** when a device is lost its backend forgets it.  USB answers each request that is
    pending with a transfer error (the daemon's own identification requests apart), in
    order; TCP answers none of them, so these clients wait for ever.  The rest of what is
    queued asks devices to close objects. *)
Theorem daemon_device_loss rng h failed v d :
  heap_devices d !! h = Some v →
  match bridge_type v with TCP => failed || dv_deletion_flag v | USB => dv_deletion_flag v end = true →
  ready_flag v = false ∨ added_flag v = true →
  ∃ d' closes, poll_device rng h failed d = Done d' ∧ heap_devices d' !! h = None ∧
    dispatch_queue d' = dispatch_queue d ++
      (match bridge_type v with
       | USB => map (fun rq => JobResponse (RespondError rq TWILI_ERR_PROTOCOL_TRANSFER_ERROR))
                  (List.filter (fun rq => negb (wr_client rq =? META_CLIENT)) (pending_requests v))
       | TCP => []
       end) ++ closes ∧
    Forall (fun j => ∃ rq, j = JobRequest rq ∧ rq_client rq = Some local_client ∧
                           rq_command rq = CLOSE_OBJECT) closes.
Proof.
  intros Hv Hdel Hadd. unfold poll_device. rewrite Hv.
  assert (∀ b, ready_flag v && negb (added_flag v) = b → b = false) as Hra.
  { intros b <-. destruct Hadd as [-> | ->]; [done|]. by rewrite andb_false_r. }
  rewrite (Hra _ eq_refl). destruct (bridge_type v) eqn:Eb; rewrite Hdel.
  - set (v1 := if failed then set_deletion v else v).
    assert (heap_devices (if failed
      then set_heap_devices d (<[h := set_deletion v]> (heap_devices d)) else d) !! h = Some v1 ∧
      bridge_type v1 = TCP) as [Hv1 Eb1].
    { subst v1. destruct failed; [|done]. cbn. by rewrite lookup_insert_eq. }
    destruct (forget_device rng (added_flag v) h v1 _ Hv1) as (d' & closes & E & Hn & Hq & Hc).
    exists d', closes. rewrite Eb1 in Hq. rewrite Hq. by destruct failed.
  - cbn [mbind outcome_bind]. destruct (forget_device rng (ready_flag v || added_flag v) h v d Hv)
      as (d' & closes & E & Hn & Hq & Hc).
    exists d', closes. by rewrite Eb in Hq.
Qed.

Lemma daemon_device_loss_witness :
  ∃ d' closes, poll_device ex_rng 4 false ex_two = Done d' ∧ heap_devices d' !! 4 = None ∧
    dispatch_queue d' =
      JobResponse (RespondError ex_w TWILI_ERR_PROTOCOL_TRANSFER_ERROR) :: closes.
Proof.
  edestruct (daemon_device_loss ex_rng 4 false ex_gone ex_two) as (d' & closes & H1 & H2 & H3 & _);
    [vm_compute; reflexivity|reflexivity|right; reflexivity|].
  exists d', closes. split_and!; [exact H1|exact H2|exact H3].
Defined.

(** a lost device takes the map's entry for its number with it, whichever device the
    entry is.  A TCP connection to a device that is also there over USB is not added to
    the map (USB has priority), but when it is lost its number is erased: the USB device
    is still there, and no request reaches it. *)
Theorem daemon_remove_device_hides_other rng h v hu vu d :
  heap_devices d !! h = Some v → bridge_type v = TCP → dv_deletion_flag v = false →
  ready_flag v = true → added_flag v = false →
  lock_device d (device_id v) = Some (hu, vu) → bridge_type vu = USB → hu ≠ h →
  ∃ d1 d2, poll_device rng h false d = Done d1 ∧ lock_device d1 (device_id v) = Some (hu, vu) ∧
    poll_device rng h true d1 = Done d2 ∧
    heap_devices d2 !! hu = Some vu ∧ lock_device d2 (device_id v) = None.
Proof.
  intros Hv Hb Hdel Hr Ha Hl Hbu Hne. pose proof (lock_device_Some d _ _ _ Hl) as [Hf Hu].
  assert (poll_device rng h false d =
    Done (set_heap_devices d (<[h := set_added v]> (heap_devices d)))) as E1.
  { unfold poll_device. rewrite Hv, Hb, Hdel, Hr, Ha. cbn [orb andb negb].
    unfold AddDevice. by rewrite Hv, Hl, Hb, Hbu. }
  set (d1 := set_heap_devices _ _) in E1. set (v1 := set_deletion (set_added v)).
  set (d1' := set_heap_devices d1 (<[h := v1]> (heap_devices d1))).
  assert (heap_devices d1' !! h = Some v1) as Hv1 by (cbn; by rewrite lookup_insert_eq).
  destruct (RemoveDevice_cases true h v1 d1' Hv1) as (d2 & E2 & _ & Hd2 & Hm2).
  destruct (drop_device_maps rng h d2) as [Hdm Hdh].
  exists d1, (drop_device rng h d2). split; [exact E1|].
  assert (heap_devices (drop_device rng h d2) !! hu = Some vu) as Hu2.
  { rewrite Hdh, Hd2 by done. cbn. by rewrite !lookup_insert_ne by done. }
  split; [apply lock_device_intro; [done|]; cbn; by rewrite lookup_insert_ne|].
  split; [|split; [exact Hu2|]].
  - unfold poll_device. cbn [heap_devices d1 set_heap_devices]. rewrite lookup_insert_eq.
    cbn [set_added bridge_type]. rewrite Hb. cbn [orb added_flag].
    change ((RemoveDevice h d1' ≫= λ d, Done (drop_device rng h d)) = Done (drop_device rng h d2)).
    by rewrite E2.
  - unfold lock_device. rewrite Hdm, Hm2. cbn. by rewrite om_find_erase, Z.eqb_refl.
Qed.

Lemma daemon_remove_device_hides_other_witness :
  ∃ d1 d2, poll_device ex_rng 3 false ex_two = Done d1 ∧ lock_device d1 3 = Some (2, ex_v) ∧
    poll_device ex_rng 3 true d1 = Done d2 ∧ heap_devices d2 !! 2 = Some ex_v ∧
    lock_device d2 3 = None.
Proof.
  edestruct (daemon_remove_device_hides_other ex_rng 3 ex_tcp 2 ex_v ex_two)
    as (d1 & d2 & H1 & H2 & H3 & H4 & H5); [vm_compute; reflexivity|reflexivity..|done|].
  exists d1, d2. split_and!; [exact H1|exact H2|exact H3|exact H4|exact H5].
Defined.

(** closing an object disowns by its number alone.  When a client closes an object
    number at one device, every object of that number that it owns goes, whatever device
    [bo_device b] the object is at: it is marked invalid, so no request to close it is
    queued, and only the device of the request is told; another device's object leaks. *)
Theorem daemon_close_disowns_other_device rng dump connect rq q c cl h v o b d d' :
  dispatch_queue d = JobRequest rq :: q → rq_client rq = Some c →
  heap_clients d !! c = Some cl → held cl = true → rq_device rq ≠ 0 →
  rq_command rq = CLOSE_OBJECT → lock_device d (rq_device rq) = Some (h, v) →
  dv_deletion_flag v = false → heap_objects d !! o = Some b → o ∈ owned_objects cl →
  bo_object b = rq_object rq → only_owner c o d → Process rng dump connect 0 d = Done d' →
  heap_objects d' !! o = None ∧ dispatch_queue d' = q ∧
  ∀ h', h' ≠ h → heap_devices d' !! h' = heap_devices d !! h'.
Proof.
  intros Eq Hc Hcl Hheld Hdev Hcmd Hl Hdel Hb Ho Hn Honly E.
  pose proof (lock_device_Some d _ _ _ Hl) as [Hf Hv].
  unfold Process in E. rewrite (wait_dequeue_0 _ _ _ Eq) in E. unfold dispatch_request in E.
  rewrite Hc, (proj2 (Z.eqb_neq _ _)) in E by done.
  change (lock_device (set_queue d q) (rq_device rq)) with (lock_device d (rq_device rq)) in E.
  rewrite Hl, Hdel, Hcmd, Z.eqb_refl in E.
  destruct (disown_gone rng c cl (rq_object rq) o (set_queue d q)) as (Hgone & Hq & Hcl' & Hd); try done.
  { apply elem_of_filter_bool. split; [done|]. unfold names. cbn. rewrite Hb. by apply Z.eqb_eq. }
  { destruct Honly as (H1 & H2 & H3). split_and!; [|exact H2|exact H3].
    intros rs Hin. apply H1. rewrite Eq. by right. }
  rewrite (device_SendRequest_found h v rq) in E; [|by rewrite Hd|done].
  cbn [mbind outcome_bind] in E. injection E as <-.
  rewrite (drop_client_held rng c (set_owned cl
    (List.filter (fun o => negb (names (set_queue d q) (rq_object rq) o)) (owned_objects cl))));
    [|exact Hcl'|done].
  split_and!; [done|done|]. intros h' Hne. cbn. rewrite Hd. by rewrite lookup_insert_ne.
Qed.

Lemma daemon_close_disowns_other_device_witness :
  ∃ d', Process ex_rng ex_dump ex_connect 0 ex_closing = Done d' ∧
    heap_objects ex_closing !! 5 = Some (mk_BridgeObject 8 42 true) ∧
    heap_objects d' !! 5 = None ∧ dispatch_queue d' = [].
Proof.
  eexists. split; [vm_compute; reflexivity|]. split; [reflexivity|].
  edestruct (daemon_close_disowns_other_device ex_rng ex_dump ex_connect
    (mk_Request (Some 1) 3 42 CLOSE_OBJECT 56 []) [] 1 (mk_Client 100 false [4; 5] true []) 2 ex_v 5
    (mk_BridgeObject 8 42 true) ex_closing) as (H1 & H2 & _);
    [reflexivity|reflexivity|vm_compute; reflexivity|reflexivity|done|reflexivity|reflexivity|
     reflexivity|reflexivity| |reflexivity| |vm_compute; reflexivity|].
  - right. left.
  - split_and!.
    + intros rs Hin. apply list_elem_of_singleton in Hin. done.
    + intros h cl Hl Ho. unfold ex_closing in Hl. cbn in Hl.
      apply lookup_insert_Some in Hl as [[<- <-]|[_ Hl]]; [by apply elem_of_nil in Ho|].
      by apply lookup_singleton_Some in Hl as [<- _].
    + intros h v Hl Ho. unfold ex_closing in Hl. cbn in Hl.
      apply lookup_insert_Some in Hl as [[_ <-]|[_ Hl]]; [by apply elem_of_nil in Ho|].
      apply lookup_singleton_Some in Hl as [_ <-]. by apply elem_of_nil in Ho.
  - split; [exact H1|exact H2].
Defined.

(** a device connected by TCP never sees its objects closed.  The daemon makes the
    objects of a TCP device's response with the device number it reads from the
    response's header, where the client's number is; so when such an object is dropped,
    the request to close it is for a device of the client's number, and, as there is no
    such device, it is answered with an error and no device is sent anything. *)
Theorem daemon_tcp_objects_unclosable rng parse_identification dump connect h v mh payload ids d :
  heap_devices d !! h = Some v → bridge_type v = TCP →
  owned_by_clients d (response_in_objects v) → Protocol.client_id mh ≠ META_CLIENT →
  ∃ d1 objs, incoming rng parse_identification h mh payload ids d = Done d1 ∧
    announced d1 (Protocol.client_id mh) ids objs ∧
    ∀ o b, o ∈ objs → heap_objects d1 !! o = Some b →
    ∀ d2, heap_objects d2 !! o = Some b → holds_object o d2 = false → dispatch_queue d2 = [] →
      Protocol.client_id mh ≠ 0 → om_find (Protocol.client_id mh) (devices d2) = None →
      ∃ d3 cl tg, Process rng dump connect 0 (drop_object rng d2 o) = Done d3 ∧
        heap_devices d3 = heap_devices d2 ∧
        dispatch_queue d3 = [JobResponse (mk_Response cl (Protocol.client_id mh) (bo_object b)
          TWILI_ERR_PROTOCOL_UNRECOGNIZED_DEVICE tg [] [])].
Proof.
  intros Hv Hb Hown Hmeta.
  destruct (incoming_response rng parse_identification h v mh payload ids d Hv Hown Hmeta)
    as (d1 & objs & v1 & E & _ & _ & _ & _ & _ & Hann). rewrite Hb in Hann.
  exists d1, objs. split; [done|]. split; [done|].
  intros o b Ho Hob d2 Hb2 Hh Hq Hz Hf. destruct (announced_object _ _ _ _ o Hann Ho) as [id Hid].
  assert (b = mk_BridgeObject (Protocol.client_id mh) id true) as -> by congruence.
  unfold drop_object. rewrite Hh, Hb2. cbn [valid].
  unfold Process, local_SendRequest. erewrite wait_dequeue_0; [|cbn; rewrite Hq; reflexivity].
  cbn [bo_device bo_object].
  unfold dispatch_request. cbn [rq_client rq_device]. rewrite (proj2 (Z.eqb_neq _ _)) by done.
  unfold lock_device at 1. cbn [devices PostRequest set_queue set_response_map set_heap_objects].
  rewrite Hf. cbn [mbind option_bind outcome_bind].
  rewrite drop_client_local. by eexists _, _, _.
Qed.

Lemma daemon_tcp_objects_unclosable_witness :
  ∃ d1 objs, incoming ex_rng ex_parse 3 ex_answer [] [42] ex_two = Done d1 ∧
    announced d1 100 [42] objs.
Proof.
  edestruct (daemon_tcp_objects_unclosable ex_rng ex_parse ex_dump ex_connect 3 ex_tcp ex_answer []
    [42] ex_two) as (d1 & objs & H1 & H2 & _);
    [vm_compute; reflexivity|reflexivity| |done|].
  - intros o Ho. by apply elem_of_nil in Ho.
  - exists d1, objs. split; [exact H1|exact H2].
Defined.
End Daemon.
