(* ===== verification/Frontend.v ===== *)
(** * twib/daemon/SocketFrontend.cpp, platform/unix/EventLoop.cpp: the daemon's clients

    The thread that serves the tool's connections: an event loop that prepares (takes every
    complete message off each connection, posts it to the daemon, and drops the connections that
    have failed), waits in [select], and signals the connections that are ready.  The connections
    are those of [MessageConnection], the daemon is that of [Daemon], and a client is named by its
    handle there.  What [select], [recv], [send] and [accept] return is an argument of a turn. *)
From S2P Require Import Prelude Buffer Protocol MessageConnection Daemon.

Module Frontend.
Import Protocol.
Import MessageConnection(MC, error_flag).

(** ** State *)

Record client : Type := mk_client { handle : Z; connection : MC }.
Record frontend : Type := mk_frontend { clients : list client; daemon : Daemon.t }.

(** What [select] and the calls after it return for one connection: whether it is readable, and
    what [recv] gives; whether it is writable, and what [send] gives; an error. *)
Record ready : Type := mk_ready { readable : option (option bytes); writable : option Z; failed : bool }.
Definition idle : ready := mk_ready None None false.
(** For the server's socket: whether it is readable, and whether [accept] succeeds. *)
Record server_ready : Type := mk_server_ready { incoming : option bool; server_failed : bool }.

Section frontend.
Context (rng : Z → Z).

(** ** Prepare *)

(** The daemon's request; the object ids of the message are not looked at. *)
Definition request_of (h : Z) (m : message) : Daemon.Request :=
  Daemon.mk_Request (Some h) (device_id (m_header m)) (object_id (m_header m)) (command_id (m_header m))
    (tag (m_header m)) (m_payload m).
Definition post (h : Z) (ms : list message) (d : Daemon.t) : Daemon.t :=
  foldl (fun d m => Daemon.PostRequest (request_of h m) d) d ms.

(** What the loop does with one client; it is kept or erased. *)
Definition prepare_client (fuel : nat) (x : client) (d : Daemon.t) : outcome (option client * Daemon.t) :=
  '(c, ms) ← MessageConnection.drain fuel (connection x);
  let d := post (handle x) ms d in
  if error_flag c then d ← Daemon.client_lost rng (handle x) d; Done (None, d)
  else Done (Some (mk_client (handle x) c), d).
Fixpoint prepare_all (fuel : nat) (l : list client) (d : Daemon.t) : outcome (list client * Daemon.t) :=
  match l with
  | [] => Done ([], d)
  | x :: l =>
      '(x, d) ← prepare_client fuel x d;
      '(l, d) ← prepare_all fuel l d;
      Done (option_list x ++ l, d)
  end.
Definition Prepare (fuel : nat) (f : frontend) : outcome frontend :=
  '(l, d) ← prepare_all fuel (clients f) (daemon f); Done (mk_frontend l d).

(** ** Signals *)

(** A connection wants to write when it did so before any signal. *)
Definition signal_client (r : ready) (x : client) : outcome client :=
  let wants := MessageConnection.WantsWrite (connection x) in
  c ← match readable r with
      | Some io => MessageConnection.SignalRead (connection x) io
      | None => Done (connection x)
      end;
  let c := match writable r with
           | Some n => if wants then MessageConnection.SignalWrite c n else c
           | None => c
           end in
  Done (mk_client (handle x) (if failed r then MessageConnection.SignalError c else c)).
Fixpoint signal_all (rs : list ready) (l : list client) : outcome (list client) :=
  match rs, l with
  | r :: rs, x :: l => x ← signal_client r x; l ← signal_all rs l; Done (x :: l)
  | _, l => Done l
  end.
(** An exception leaves the thread's function, which ends the daemon. *)
Definition signal_server (fuel : nat) (r : server_ready) (f : frontend) : outcome frontend :=
  f ← match incoming r with
      | None => Done f
      | Some false => Aborts 0
      | Some true =>
          '(d, h) ← Daemon.AddClient rng fuel (daemon f);
          Done (mk_frontend (clients f ++ [mk_client h MessageConnection.init]) d)
      end;
  if server_failed r then Aborts 1 else Done f.

(** One turn of the loop.  A client that is taken in is polled from the next turn on. *)
Definition turn (fuel : nat) (s : server_ready) (rs : list ready) (f : frontend) : outcome frontend :=
  f ← Prepare fuel f;
  let polled := length (clients f) in
  f ← signal_server fuel s f;
  l ← signal_all (take polled rs) (clients f);
  Done (mk_frontend l (daemon f)).
Fixpoint event_thread (fuel : nat) (l : list (server_ready * list ready)) (f : frontend) : outcome frontend :=
  match l with
  | [] => Done f
  | (s, rs) :: l => f ← turn fuel s rs f; event_thread fuel l f
  end.

(** ** Specification *)

(** No server event; bytes for some of the clients. *)
Definition quiet : server_ready := mk_server_ready None false.
Definition delivery (chunk : bytes) : ready :=
  match chunk with [] => idle | _ => mk_ready (Some (Some chunk)) None false end.
Definition deliveries (l : list (list bytes)) : list (server_ready * list ready) :=
  map (fun chunks => (quiet, map delivery chunks)) l.

(** The requests of a client in the daemon's queue, in order. *)
Definition requests_for (h : Z) (q : list Daemon.job) : list Daemon.Request :=
  q ≫= fun j => match j with
                | Daemon.JobRequest rq => if decide (Daemon.rq_client rq = Some h) then [rq] else []
                | _ => []
                end.

(** The client is to get the messages [ms]: what it has and what is to come make them up. *)
Record awaits (x : client) (ms : list message) (to_come : bytes) : Prop := mk_awaits {
  aw_inv : MessageConnection.inv (connection x);
  aw_ok : Forall message_ok ms;
  aw_stream : MessageConnection.residue (connection x) ++ to_come = MessageConnection.stream ms;
  aw_size : zlen (MessageConnection.stream ms) ≤ 2 ^ 62;
  aw_error : error_flag (connection x) = false }.

(** ** Lemmas *)

Lemma post_queue h ms d :
  post h ms d = Daemon.set_queue d (Daemon.dispatch_queue d ++ map (fun m => Daemon.JobRequest (request_of h m)) ms).
Proof.
  unfold post. revert d. induction ms as [|m ms IH]; intros d; [cbn; rewrite app_nil_r; by destruct d|].
  cbn [foldl map]. rewrite IH. unfold Daemon.PostRequest. cbn. by rewrite <- app_assoc.
Qed.
Lemma requests_for_app h q1 q2 : requests_for h (q1 ++ q2) = requests_for h q1 ++ requests_for h q2.
Proof. apply bind_app. Qed.
Lemma requests_for_posted h h' ms :
  requests_for h (map (fun m => Daemon.JobRequest (request_of h' m)) ms) =
  if decide (h = h') then map (request_of h) ms else [].
Proof.
  induction ms as [|m ms IH]; [by destruct (decide _)|]. cbn [map]. unfold requests_for in *. cbn [mbind list_bind].
  rewrite IH. cbn [Daemon.rq_client request_of]. destruct (decide (h = h')) as [->|Hne].
  - by rewrite decide_True.
  - rewrite decide_False; [done|]. congruence.
Qed.

(** [Process] does not look at the error flag. *)

(** What leaves the error flag as it was. *)
Definition keeps_flag (c : MC) (m : outcome (nat * MC * MessageConnection.control)) : Prop :=
  ∀ e c' k, m = Done (e, c', k) → error_flag c' = error_flag c.
Lemma starve_flag c c1 e n :
  error_flag c1 = error_flag c → keeps_flag c (MessageConnection.starve MessageConnection.Socket_RequestInput e c1 n).
Proof.
  intros H e' c' k E. unfold MessageConnection.starve in E. apply bind_Done_inv in E as ([b a] & _ & E).
  cbn in E. by simplify_eq.
Qed.
Lemma header_flag e c : keeps_flag c (MessageConnection.Process_header MessageConnection.Socket_RequestInput e c).
Proof.
  unfold MessageConnection.Process_header. destruct (MessageConnection.has_current_mh c); [by intros ? ? ? [= <- <- <-]|].
  intros e' c' k E. apply bind_Done_inv in E as ([b [l|]] & _ & E); [by simplify_eq|].
  by apply (starve_flag c) in E.
Qed.
Lemma payload_flag e c : keeps_flag c (MessageConnection.Process_payload MessageConnection.Socket_RequestInput e c).
Proof.
  unfold MessageConnection.Process_payload. destruct (MessageConnection.has_current_payload c); [by intros ? ? ? [= <- <- <-]|].
  intros e' c' k E. apply bind_Done_inv in E as ([[b p] ok] & _ & E). destruct ok; [by simplify_eq|].
  by apply (starve_flag c) in E.
Qed.
Lemma objects_flag e c : keeps_flag c (MessageConnection.Process_objects MessageConnection.Socket_RequestInput e c).
Proof.
  unfold MessageConnection.Process_objects.
  intros e' c' k E. apply bind_Done_inv in E as ([[b p] ok] & _ & E). destruct ok; [by simplify_eq|].
  by apply (starve_flag c) in E.
Qed.
Lemma process_flag e c e' c' r :
  MessageConnection.Socket_Process e c = Done (e', c', r) → error_flag c' = error_flag c.
Proof.
  unfold MessageConnection.Socket_Process. cbn [MessageConnection.Process]. destruct (0 <? _); [|by intros [= <- <- <-]].
  cbn [mbind outcome_bind]. intros E. apply bind_Done_inv in E as ([[e1 c1] k] & E1 & E).
  assert (error_flag c1 = error_flag c) as H1.
  { unfold MessageConnection.Process_body in E1. apply bind_Done_inv in E1 as ([[e2 c2] k2] & E2 & E1).
    apply header_flag in E2. rewrite <- E2. destruct k2; [|by simplify_eq..].
    apply bind_Done_inv in E1 as ([[e3 c3] k3] & E3 & E1). apply payload_flag in E3. rewrite <- E3.
    destruct k3; [|by simplify_eq..]. by apply objects_flag in E1. }
  rewrite <- H1. destruct k; by simplify_eq.
Qed.
Lemma drain_flag fuel c c' ms : MessageConnection.drain fuel c = Done (c', ms) → error_flag c' = error_flag c.
Proof.
  revert c c' ms. induction fuel as [|fuel IH]; intros c c' ms E; [done|]. cbn [MessageConnection.drain] in E.
  apply bind_Done_inv in E as ([[e1 c1] [rq|]] & E1 & E); apply process_flag in E1.
  - apply bind_Done_inv in E as ([c2 ms2] & E2 & E). apply IH in E2. simplify_eq. congruence.
  - by simplify_eq.
Qed.
Lemma read_flag c io c' : io ≠ [] → MessageConnection.SignalRead c (Some io) = Done c' → error_flag c' = error_flag c.
Proof.
  intros Hne E. unfold MessageConnection.SignalRead in E. apply bind_Done_inv in E as ([b a] & _ & E).
  destruct io; [done|]. destruct (_ <? _); [done|]. apply bind_Done_inv in E as (b' & _ & E). by simplify_eq.
Qed.

(** *** One turn *)

Lemma prepare_client_spec fuel x ms to_come d :
  awaits x ms to_come → (length ms < fuel)%nat →
  ∃ x' ms1 ms2, prepare_client fuel x d = Done (Some x', post (handle x) ms1 d) ∧ ms = ms1 ++ ms2 ∧
    handle x' = handle x ∧ awaits x' ms2 to_come ∧ MessageConnection.parse (MessageConnection.residue (connection x')) = None.
Proof.
  intros [Hi Hok Hs Hz He] Hf.
  destruct (MessageConnection.drain_spec fuel (connection x) ms to_come) as (c & ms1 & ms2 & E & -> & Hc & Hs2 & Hp); [done..|].
  pose proof (drain_flag _ _ _ _ E) as Hc2. rewrite He in Hc2.
  exists (mk_client (handle x) c), ms1, ms2. unfold prepare_client. rewrite E. cbn [mbind outcome_bind]. rewrite Hc2.
  split_and!; try done. apply Forall_app in Hok as [_ Hok]. split; try done.
  unfold MessageConnection.stream in *. rewrite bind_app, zlen_app in Hz. pose proof (zlen_nonneg (ms1 ≫= encode_message)). lia.
Qed.

(** The queue [q] has exactly the messages [mss] as requests of the clients [hs]. *)
Definition posted (q : list Daemon.job) (hs : list Z) (mss : list (list message)) : Prop :=
  Forall2 (fun h ms => requests_for h q = map (request_of h) ms) hs mss.
Lemma posted_app q1 q2 hs m1 m2 : posted q1 hs m1 → posted q2 hs m2 → posted (q1 ++ q2) hs (zip_with (++) m1 m2).
Proof.
  unfold posted. intros H. revert m2. induction H as [|h ms hs m1 E _ IH]; intros m2 H2; inversion H2; subst; cbn; [constructor|].
  constructor; [|by apply IH]. rewrite requests_for_app, map_app. by f_equal.
Qed.
Lemma posted_before q h ms hs mss :
  h ∉ hs → posted q hs mss → posted (map (fun m => Daemon.JobRequest (request_of h m)) ms ++ q) hs mss.
Proof.
  intros Hn H. induction H as [|h' ms' hs mss E _ IH]; [constructor|]. rewrite not_elem_of_cons in Hn.
  constructor; [|apply IH, Hn]. rewrite requests_for_app, requests_for_posted, decide_False by (intros ->; by destruct Hn). done.
Qed.

Lemma prepare_all_spec fuel l mss tos d :
  Forall3 awaits l mss tos → NoDup (handle <$> l) → Forall (fun ms => (length ms < fuel)%nat) mss →
  ∃ l' q mss1 mss2, prepare_all fuel l d = Done (l', Daemon.set_queue d (Daemon.dispatch_queue d ++ q)) ∧
    mss = zip_with (++) mss1 mss2 ∧ handle <$> l' = handle <$> l ∧ Forall3 awaits l' mss2 tos ∧
    Forall (fun x => MessageConnection.parse (MessageConnection.residue (connection x)) = None) l' ∧
    posted q (handle <$> l) mss1 ∧ (∀ h, h ∉ handle <$> l → requests_for h q = []) ∧
    Forall (fun ms => (length ms < fuel)%nat) mss2.
Proof.
  intros H. revert d. induction H as [|x ms to l mss tos Hx _ IH]; intros d Hnd Hf.
  - exists [], [], [], []. cbn. rewrite app_nil_r. split_and!; try done; try constructor. by destruct d.
  - cbn in Hnd. apply NoDup_cons in Hnd as [Hn Hnd]. apply Forall_cons in Hf as [Hf1 Hf].
    destruct (prepare_client_spec fuel x ms to d Hx Hf1) as (x' & ms1 & ms2 & E & -> & Eh & Hx' & Hp).
    destruct (IH (post (handle x) ms1 d) Hnd Hf) as (l' & q & mss1 & mss2 & E' & -> & Eh' & H' & Hp' & Hq & Ho & Hf2).
    exists (x' :: l'), (map (fun m => Daemon.JobRequest (request_of (handle x) m)) ms1 ++ q), (ms1 :: mss1), (ms2 :: mss2).
    cbn [prepare_all]. rewrite E. cbn [mbind outcome_bind]. rewrite E'. cbn [mbind outcome_bind option_list app].
    rewrite post_queue. cbn [Daemon.set_queue Daemon.dispatch_queue]. rewrite <- app_assoc.
    split_and!; try done.
    + cbn. by rewrite Eh, Eh'.
    + by constructor.
    + by constructor.
    + cbn. constructor; [|by apply posted_before]. rewrite requests_for_app, requests_for_posted, decide_True, Ho by done.
      apply app_nil_r.
    + intros h. cbn. rewrite not_elem_of_cons. intros [H1 H2]. rewrite requests_for_app, requests_for_posted, decide_False by done.
      by apply Ho.
    + constructor; [|done]. rewrite length_app in Hf1. lia.
Qed.

Lemma signal_client_spec x ms chunk to_come :
  awaits x ms (chunk ++ to_come) → zlen chunk ≤ 8192 →
  ∃ x', signal_client (delivery chunk) x = Done x' ∧ handle x' = handle x ∧ awaits x' ms to_come.
Proof.
  intros Haw Hc. destruct chunk as [|b chunk]; [by exists x; destruct x|]. destruct Haw as [Hi Hok Hs Hz He].
  pose proof (MessageConnection.residue_length _ Hi) as Hr. set (io := b :: chunk) in *.
  assert (Hz2 : zlen (MessageConnection.residue (connection x)) ≤ 2 ^ 62).
  { rewrite <- Hs, zlen_app in Hz. pose proof (zlen_nonneg (io ++ to_come)). lia. }
  assert (Hio : 0 < zlen io) by (unfold io; rewrite zlen_cons; pose proof (zlen_nonneg chunk); lia).
  destruct (MessageConnection.SignalRead_spec (connection x) io) as (c & E & Hi' & Hr'); [done|lia|lia|].
  exists (mk_client (handle x) c). 
  change (signal_client (delivery io) x) with (c ← MessageConnection.SignalRead (connection x) (Some io); Done (mk_client (handle x) c) : outcome client).
  rewrite E.
  cbn [mbind outcome_bind]. split_and!; [done..|]. split; try done; cbn [connection].
  - by rewrite Hr', <- app_assoc.
  - apply read_flag in E; [congruence|done].
Qed.
Lemma signal_all_spec row l mss tos :
  Forall3 awaits l mss (zip_with (++) row tos) → length row = length l → length tos = length l →
  Forall (fun chunk => zlen chunk ≤ 8192) row →
  ∃ l', signal_all (map delivery row) l = Done l' ∧ handle <$> l' = handle <$> l ∧ Forall3 awaits l' mss tos.
Proof.
  revert l mss tos. induction row as [|chunk row IH]; intros [|x l] mss [|to tos] H; try done.
  - intros _ _ _. exists []. cbn in H |- *. split_and!; [done|done|]. inversion H; subst. constructor.
  - cbn in H. intros [= H1] [= H2] [Hc Hrow]%Forall_cons. inversion H as [|? ms ? ? mss' ? Hx0 Hl]; subst.
    destruct (signal_client_spec x ms chunk to) as (x' & E & Eh & Hx); [done|done|].
    destruct (IH l mss' tos Hl H1 H2 Hrow) as (l' & E' & Eh' & H').
    exists (x' :: l'). cbn [map signal_all]. rewrite E. cbn [mbind outcome_bind]. rewrite E'. cbn [mbind outcome_bind].
    split_and!; [done|by cbn; rewrite Eh, Eh'|by constructor].
Qed.

(** What each of [n] clients is to get from the rows of deliveries. *)
Definition remaining (n : nat) (rows : list (list bytes)) : list bytes := foldr (zip_with (++)) (replicate n []) rows.
Lemma remaining_length n rows : Forall (fun row => length row = n) rows → length (remaining n rows) = n.
Proof.
  induction 1 as [|row rows Hr _ IH]; cbn; [apply length_replicate|]. rewrite length_zip_with. unfold remaining in IH. lia.
Qed.

Lemma set_queue_twice d q q' : Daemon.set_queue (Daemon.set_queue d q) q' = Daemon.set_queue d q'.
Proof. done. Qed.
Lemma Forall3_len l mss tos : Forall3 awaits l mss tos → length mss = length l ∧ length tos = length l.
Proof. induction 1 as [|x ms to l mss tos _ _ [IH1 IH2]]; cbn; lia. Qed.

(** A client that has nothing to come and no whole message has nothing. *)
Lemma nothing_left l mss n :
  Forall3 awaits l mss (replicate n []) →
  Forall (fun x => MessageConnection.parse (MessageConnection.residue (connection x)) = None) l →
  mss = replicate n [].
Proof.
  intros H. remember (replicate n []) as tos eqn:E. revert n E.
  induction H as [|x ms to l mss tos Hx _ IH]; intros [|n] E Hp; try done. injection E as -> E.
  apply Forall_cons in Hp as [Hp Hps]. cbn. f_equal; [|by apply IH].
  destruct Hx as [_ Hok Hs _ _]. rewrite app_nil_r in Hs. destruct Hok as [|m ms Hm _]; [done|].
  rewrite Hs in Hp. unfold MessageConnection.stream in Hp. cbn in Hp. by rewrite MessageConnection.parse_encode in Hp.
Qed.
Lemma zip_app_nil (mss : list (list message)) n : length mss = n → zip_with (++) mss (replicate n []) = mss.
Proof. revert n. induction mss as [|ms mss IH]; intros [|n]; try done. cbn. intros [= H]. by rewrite app_nil_r, IH. Qed.
Lemma zip_app_assoc (a b c : list (list message)) :
  zip_with (++) a (zip_with (++) b c) = zip_with (++) (zip_with (++) a b) c.
Proof. revert b c. induction a as [|x a IH]; intros [|y b] [|z c]; try done. cbn. by rewrite app_assoc, IH. Qed.

Lemma thread_spec fuel rows f mss :
  NoDup (handle <$> clients f) → Forall (fun row => length row = length (clients f)) rows →
  Forall (Forall (fun chunk => zlen chunk ≤ 8192)) rows → Forall (fun ms => (length ms < fuel)%nat) mss →
  Forall3 awaits (clients f) mss (remaining (length (clients f)) rows) →
  ∃ f' q, (f1 ← event_thread fuel (deliveries rows) f; Prepare fuel f1) = Done f' ∧
    handle <$> clients f' = handle <$> clients f ∧
    daemon f' = Daemon.set_queue (daemon f) (Daemon.dispatch_queue (daemon f) ++ q) ∧
    posted q (handle <$> clients f) mss ∧ (∀ h, h ∉ handle <$> clients f → requests_for h q = []).
Proof.
  intros Hnd Hlen Hsz. revert f mss Hnd Hlen.
  induction Hsz as [|row rows Hrow _ IH]; intros f mss Hnd Hlen Hf H.
  - cbn [event_thread deliveries map mbind outcome_bind]. unfold Prepare.
    destruct (prepare_all_spec fuel _ _ _ (daemon f) H Hnd Hf) as (l' & q & m1 & m2 & E & -> & Eh & H' & Hp & Hq & Ho & _).
    rewrite E. cbn [mbind outcome_bind]. eexists _, q. split; [reflexivity|]. cbn [clients daemon].
    split_and!; try done. rewrite (nothing_left l' m2 _ H' Hp), zip_app_nil; [done|].
    apply Forall2_length in Hq. by rewrite length_fmap in Hq.
  - apply Forall_cons in Hlen as [Hl Hlen].
    destruct (prepare_all_spec fuel _ _ _ (daemon f) H Hnd Hf) as (l' & q & m1 & m2 & E & -> & Eh & H' & Hp & Hq & Ho & Hf2).
    assert (Hll : length l' = length (clients f)) by (rewrite <- (length_fmap handle l'), Eh; apply length_fmap).
    cbn [remaining foldr] in H'. change (foldr (zip_with (++)) (replicate ?n []) rows) with (remaining n rows) in H'.
    destruct (signal_all_spec row l' m2 (remaining (length (clients f)) rows)) as (l2 & E2 & Eh2 & H2);
      [done|congruence|rewrite remaining_length; congruence|done|].
    set (f2 := mk_frontend l2 (Daemon.set_queue (daemon f) (Daemon.dispatch_queue (daemon f) ++ q))).
    assert (Hl2 : length l2 = length (clients f)) by (rewrite <- (length_fmap handle l2), Eh2, length_fmap; done).
    destruct (IH f2 m2) as (f' & q' & E' & Eh' & Ed & Hq' & Ho').
    + cbn. by rewrite Eh2, Eh.
    + cbn. by rewrite Hl2.
    + done.
    + cbn. by rewrite Hl2.
    + assert (Ht : turn fuel quiet (map delivery row) f = Done f2).
      { unfold turn, Prepare. rewrite E. cbn [mbind outcome_bind signal_server quiet incoming server_failed clients daemon].
        rewrite take_ge by (rewrite length_map; lia). by rewrite E2. }
      exists f', (q ++ q'). cbn [event_thread deliveries map]. rewrite Ht. cbn [mbind outcome_bind].
      cbn [clients daemon f2] in Eh', Ed, Hq', Ho'. rewrite Eh2, Eh in *.
      split_and!; [exact E'|done| | |].
      * rewrite Ed, set_queue_twice. cbn. by rewrite <- app_assoc.
      * by apply posted_app.
      * intros h Hh. by rewrite requests_for_app, Ho, Ho'.
Qed.

(** ** Theorems *)

Lemma fresh_awaits l mss :
  length mss = length l → Forall (fun x => connection x = MessageConnection.init) l → Forall (Forall message_ok) mss →
  Forall (fun ms => zlen (MessageConnection.stream ms) ≤ 2 ^ 62) mss →
  Forall3 awaits l mss (MessageConnection.stream <$> mss).
Proof.
  intros Hl Hc Hm. revert l Hl Hc. induction Hm as [|ms mss Hok _ IH]; intros [|x l] Hl Hc Hz; try done; [constructor|].
  apply Forall_cons in Hc as [Hx Hc]. apply Forall_cons in Hz as [Hz1 Hz]. injection Hl as Hl. cbn. constructor; [|by apply IH].
  destruct MessageConnection.init_inv as [Hi Hr]. split; rewrite ?Hx; done.
Qed.

(** C20: Clients are served side by side.  However the bytes of several clients' messages are cut and
    interleaved over the turns of the event loop, the daemon's queue gets exactly the requests that
    each client's messages make, in that client's order and under its name, none for anybody else;
    and no client is lost. *)
Theorem frontend_posts_requests fuel rows f mss :
  NoDup (handle <$> clients f) → Forall (fun x => connection x = MessageConnection.init) (clients f) →
  Forall (fun row => length row = length (clients f)) rows →
  Forall (Forall (fun chunk => zlen chunk ≤ 8192)) rows →
  length mss = length (clients f) → Forall (Forall message_ok) mss →
  Forall (fun ms => zlen (MessageConnection.stream ms) ≤ 2 ^ 62) mss →
  Forall (fun ms => (length ms < fuel)%nat) mss →
  remaining (length (clients f)) rows = MessageConnection.stream <$> mss →
  ∃ f' q, (f1 ← event_thread fuel (deliveries rows) f; Prepare fuel f1) = Done f' ∧
    handle <$> clients f' = handle <$> clients f ∧
    daemon f' = Daemon.set_queue (daemon f) (Daemon.dispatch_queue (daemon f) ++ q) ∧
    Forall2 (fun h ms => requests_for h q = map (request_of h) ms) (handle <$> clients f) mss ∧
    ∀ h, h ∉ handle <$> clients f → requests_for h q = [].
Proof.
  intros Hnd Hc Hrow Hsz Hl Hok Hz Hf E. apply thread_spec; try done. rewrite E. by apply fresh_awaits.
Qed.

(** A client that goes away is still asked for: what it has sent in full is posted before the client
    is removed, and the requests keep its object, which is marked, until they are done. *)
Theorem requests_before_loss fuel x ms to_come d cl :
  MessageConnection.inv (connection x) → Forall message_ok ms →
  MessageConnection.residue (connection x) ++ to_come = MessageConnection.stream ms →
  zlen (MessageConnection.stream ms) ≤ 2 ^ 62 → (length ms < fuel)%nat →
  error_flag (connection x) = true → MessageConnection.parse (MessageConnection.residue (connection x)) ≠ None →
  Daemon.heap_clients d !! handle x = Some cl → is_Some (om_find (Daemon.client_id cl) (Daemon.clients d)) →
  ∃ d' ms1 ms2, prepare_client fuel x d = Done (None, d') ∧ ms = ms1 ++ ms2 ∧ ms1 ≠ [] ∧
    Daemon.dispatch_queue d' = Daemon.dispatch_queue d ++ map (fun m => Daemon.JobRequest (request_of (handle x) m)) ms1 ∧
    Daemon.clients d' = om_erase (Daemon.client_id cl) (Daemon.clients d) ∧
    Daemon.heap_clients d' !! handle x =
      Some (Daemon.mk_Client (Daemon.client_id cl) true (Daemon.owned_objects cl) false (Daemon.received cl)).
Proof.
  intros Hi Hok Hs Hz Hf He Hp Hcl [h' Hfind].
  destruct (MessageConnection.drain_spec fuel (connection x) ms to_come) as (c & ms1 & ms2 & E & -> & Hc & Hs2 & Hnone); [done..|].
  pose proof (drain_flag _ _ _ _ E) as Hc2. rewrite He in Hc2.
  assert (Hne : ms1 ≠ []).
  { intros ->. change ([] ++ ms2) with ms2 in Hs. rewrite <- Hs2 in Hs. apply app_inv_tail in Hs. congruence. }
  unfold prepare_client. rewrite E. cbn [mbind outcome_bind]. rewrite Hc2, post_queue.
  set (q := Daemon.dispatch_queue d ++ _). unfold Daemon.client_lost. cbn [Daemon.set_queue Daemon.heap_clients].
  rewrite Hcl. unfold Daemon.RemoveClient. cbn [Daemon.set_heap_clients Daemon.heap_clients Daemon.clients].
  rewrite lookup_insert_eq. cbn [Daemon.client_id Daemon.set_queue Daemon.clients]. rewrite Hfind. cbn [mbind outcome_bind].
  assert (Hheld : ∀ w, Daemon.dispatch_queue w = q → Daemon.holds_client (handle x) w = true).
  { intros w Hq. unfold Daemon.holds_client. rewrite Hq. apply orb_true_iff. right. apply existsb_exists.
    destruct ms1 as [|m ms1]; [done|]. exists (Daemon.JobRequest (request_of (handle x) m)). split.
    - unfold q. apply in_or_app. right. by left.
    - by apply bool_decide_eq_true. }
  unfold Daemon.drop_client. rewrite Hheld by done. eexists _, ms1, ms2. split; [reflexivity|]. split_and!; try done.
  cbn. apply lookup_insert_eq.
Qed.

End frontend.

(** *** Examples *)

Definition ex_message (object tag : Z) (p : string) : message :=
  mkMessage (mkHeader 3 object 10 tag (zlen (str p)) 0 0) (str p) [].
Definition ex_first : list message := [ex_message 0 7 "abc"; ex_message 4 8 ""].
Definition ex_second : list message := [ex_message 0 9 "xyz!"].
Definition ex_frontend : frontend :=
  mk_frontend [mk_client 1 MessageConnection.init; mk_client 2 MessageConnection.init] Daemon.init.
Definition ex_rows : list (list bytes) :=
  [[ztake 20 (MessageConnection.stream ex_first); MessageConnection.stream ex_second];
   [[]; []];
   [zdrop 20 (MessageConnection.stream ex_first); []]].

Lemma frontend_posts_requests_witness :
  ∃ f' q, (f1 ← event_thread Daemon.ex_rng 5 (deliveries ex_rows) ex_frontend; Prepare Daemon.ex_rng 5 f1) = Done f' ∧
    handle <$> clients f' = [1; 2] ∧
    requests_for 1 q = map (request_of 1) ex_first ∧ requests_for 2 q = map (request_of 2) ex_second.
Proof.
  destruct (frontend_posts_requests Daemon.ex_rng 5 ex_rows ex_frontend [ex_first; ex_second]) as (f' & q & E & Eh & _ & P & _).
  - cbn. apply NoDup_cons. split; [by rewrite list_elem_of_singleton|]. apply NoDup_singleton.
  - by repeat constructor.
  - by repeat constructor.
  - by repeat (constructor; [vm_compute; discriminate|] || constructor).
  - reflexivity.
  - repeat constructor; vm_compute; discriminate.
  - repeat (constructor; [vm_compute; discriminate|]). constructor.
  - repeat (constructor; [cbn; lia|]). constructor.
  - vm_compute. reflexivity.
  - exists f', q. split; [exact E|]. split; [exact Eh|]. cbn in P. inversion P as [|? ? ? ? P1 P']; subst.
    inversion P' as [|? ? ? ? P2 _]; subst. split; [exact P1|exact P2].
Defined.

End Frontend.
