(* ===== verification/UsbBackend.v ===== *)
(** * twib/daemon/USBBackend.cpp: a device's four libusb transfers

    A USB device has a header and a data endpoint in each direction.  [SendRequest]
    waits until the device is available, sends the header and then, from the completion
    callbacks, the payload in pieces; the other two endpoints assemble responses, which
    [DispatchResponse] gives to the daemon ([Daemon.incoming]).

    libusb is outside: a submission succeeds or not ([ok]), a transfer that is in flight
    completes with a status and a part of what it was submitted for ([enabled]).  A
    transfer remembers its offset into the vector it was submitted with, as the code
    computes it back from the buffer pointer.  What the out transfers have sent is
    [wire_meta] and [wire_data]; what went to the daemon is [dispatched].

    Only data transfers are limited to 65536 bytes: the object ids of a response are one
    transfer of four bytes for each, whose length libusb is given as an [int]
    ([transfer_length]); it wants lengths that are not negative. *)
From S2P Require Import Prelude Err Buffer Protocol Daemon.
Import Protocol.

Module UsbBackend.
Import Daemon(WeakRequest, mk_WeakRequest, wr_client, wr_device, wr_object, wr_command, wr_tag,
  wr_payload).

Inductive State : Type := AVAILABLE | BUSY.

(** The out half: the header and the request as they are sent. *)
Record sender : Type := mk_sender {
  state : State;
  transferring_meta : bool;
  transferring_data : bool;
  mhdr : MessageHeader;
  request_out : WeakRequest;
  tfer_meta_out : bool;
  tfer_data_out : option (Z * Z);
  wire_meta : bytes;
  wire_data : bytes }.

Inductive in_transfer : Type :=
| Payload (off len : Z)
| Objects (len : Z).

(** The in half: the memory of the header, of the response's payload and of the ids. *)
Record receiver : Type := mk_receiver {
  mhdr_in : bytes;
  payload_in : bytes;
  object_ids_in : bytes;
  tfer_meta_in : bool;
  tfer_data_in : option in_transfer;
  dispatched : list (MessageHeader * bytes * list Z) }.

Record t : Type := mk {
  out : sender;
  inp : receiver;
  pending_requests : list WeakRequest;
  deletion_flag : bool;
  ready_flag : bool }.

Definition set_out (d : t) (o : sender) : t :=
  mk o (inp d) (pending_requests d) (deletion_flag d) (ready_flag d).
Definition set_inp (d : t) (i : receiver) : t :=
  mk (out d) i (pending_requests d) (deletion_flag d) (ready_flag d).
Definition set_pending (d : t) (l : list WeakRequest) : t :=
  mk (out d) (inp d) l (deletion_flag d) (ready_flag d).
Definition set_ready (d : t) : t :=
  mk (out d) (inp d) (pending_requests d) (deletion_flag d) true.

(** ** Device *)

Definition Kill (d : t) : t := mk (out d) (inp d) (pending_requests d) true (ready_flag d).
(** [if(r != 0) { Kill(); }] *)
Definition kill_unless (ok : bool) (d : t) : t := if ok then d else Kill d.

Definition LimitTransferSize (sz : Z) : Z := let max_size := 65536 in
  if max_size <? sz then max_size else sz.

Definition SendRequest (w : WeakRequest) (ok : bool) (d : t) : t :=
  if deletion_flag d then d
  else
    let h := mkHeader (wr_client w) (wr_object w) (wr_command w) (wr_tag w)
               (zlen (wr_payload w)) 0 (pad (mhdr (out d))) in
    let o := out d in
    let o := mk_sender BUSY true (transferring_data o) h w (ok || tfer_meta_out o)
               (tfer_data_out o) (wire_meta o) (wire_data o) in
    kill_unless ok (set_pending (set_out d o) (pending_requests d ++ [w])).

(** Both completions of an out transfer end with this. *)
Definition enter_available (o : sender) : sender :=
  if negb (transferring_meta o) && negb (transferring_data o) then
    mk_sender AVAILABLE false false (mhdr o) (request_out o) (tfer_meta_out o) (tfer_data_out o)
      (wire_meta o) (wire_data o)
  else o.

Definition submit_data_out (o : sender) (off len : Z) (ok : bool) : sender :=
  mk_sender (state o) (transferring_meta o) true (mhdr o) (request_out o) (tfer_meta_out o)
    (if ok then Some (off, len) else tfer_data_out o) (wire_meta o) (wire_data o).
Definition end_meta (o : sender) : sender :=
  mk_sender (state o) false (transferring_data o) (mhdr o) (request_out o) (tfer_meta_out o)
    (tfer_data_out o) (wire_meta o) (wire_data o).
Definition end_data (o : sender) : sender :=
  mk_sender (state o) (transferring_meta o) false (mhdr o) (request_out o) (tfer_meta_out o)
    (tfer_data_out o) (wire_meta o) (wire_data o).

Definition MetaOutTransferCompleted (ok : bool) (d : t) : t :=
  let payload := wr_payload (request_out (out d)) in
  if 0 <? zlen payload then
    let o := submit_data_out (out d) 0 (LimitTransferSize (zlen payload)) ok in
    if ok then set_out d (enter_available (end_meta o)) else Kill (set_out d o)
  else set_out d (enter_available (end_meta (out d))).

Definition DataOutTransferCompleted (beg_off actual_length : Z) (ok : bool) (d : t) : t :=
  let read := u64 (beg_off + actual_length) in
  let remaining := u64 (payload_size (mhdr (out d)) - read) in
  if 0 <? remaining then
    kill_unless ok (set_out d (submit_data_out (out d) read (LimitTransferSize remaining) ok))
  else set_out d (enter_available (end_data (out d))).

Definition ResubmitMetaInTransfer (ok : bool) (d : t) : t :=
  let i := inp d in
  let i := mk_receiver (mhdr_in i) (payload_in i) (object_ids_in i) (ok || tfer_meta_in i)
             (tfer_data_in i) (dispatched i) in
  kill_unless ok (set_inp d i).

Definition Identified (result : Z) (payload : bytes) (d : t) : outcome t :=
  if negb (result =? 0) then Done (Kill d)
  else if zlen payload <? 8 then Undefined
  else Done (set_ready d).

(** [PostResponse(std::move(response_in))] copies the response: [Daemon::PostResponse]
    enqueues its parameter, which has a name; so the response stays in memory. *)
Definition DispatchResponse (ok : bool) (d : t) : outcome t :=
  let i := inp d in
  let h := decode_header (mhdr_in i) in
  let i := mk_receiver (mhdr_in i) (payload_in i) (object_ids_in i) (tfer_meta_in i)
             (tfer_data_in i) (dispatched i ++ [(h, payload_in i, decode_u32s (object_count h) (object_ids_in i))]) in
  let d := set_pending (set_inp d i)
             (List.filter (fun r => negb (wr_tag r =? tag h)) (pending_requests d)) in
  d ← (if client_id h =? META_CLIENT then Identified (result_code h) (payload_in i) d
       else Done d);
  Done (ResubmitMetaInTransfer ok d).

Definition submit_data_in (x : in_transfer) (ok : bool) (d : t) : t :=
  let i := inp d in
  let i := mk_receiver (mhdr_in i) (payload_in i) (object_ids_in i) (tfer_meta_in i)
             (if ok then Some x else tfer_data_in i) (dispatched i) in
  kill_unless ok (set_inp d i).

Definition MetaInTransferCompleted (ok : bool) (d : t) : outcome t :=
  let i := inp d in
  let h := decode_header (mhdr_in i) in
  p ← Buffer.vector_resize (payload_in i) (payload_size h);
  ids ← Buffer.vector_resize (object_ids_in i) (4 * object_count h);
  let d := set_inp d (mk_receiver (mhdr_in i) p ids (tfer_meta_in i) (tfer_data_in i)
                        (dispatched i)) in
  if 0 <? payload_size h then
    Done (submit_data_in (Payload 0 (LimitTransferSize (zlen p))) ok d)
  else if 0 <? object_count h then Done (submit_data_in (Objects (zlen ids)) ok d)
  else DispatchResponse ok d.

Definition DataInTransferCompleted (beg_off actual_length : Z) (ok : bool) (d : t) : outcome t :=
  let i := inp d in
  let h := decode_header (mhdr_in i) in
  let read := u64 (beg_off + actual_length) in
  let remaining := u64 (payload_size h - read) in
  if 0 <? remaining then
    Done (submit_data_in (Payload read (LimitTransferSize remaining)) ok d)
  else if 0 <? object_count h then
    Done (submit_data_in (Objects (zlen (object_ids_in i))) ok d)
  else DispatchResponse ok d.

Definition ObjectInTransferCompleted (actual_length : Z) (ok : bool) (d : t) : outcome t :=
  if negb (actual_length =? u64 (object_count (decode_header (mhdr_in (inp d))) * 4))
  then Done (Kill d)
  else DispatchResponse ok d.

(** ** Completions: the transfer is no longer in flight, its bytes have moved, and the
    shim for its endpoint is called. *)

Inductive status : Type := COMPLETED | TIMED_OUT | FAILED.

Inductive event : Type :=
| EvSend (w : WeakRequest) (ok : bool)
| EvMetaOut (s : status) (actual_length : Z) (ok : bool)
| EvDataOut (s : status) (actual_length : Z) (ok : bool)
| EvMetaIn (s : status) (data : bytes) (ok : bool)
| EvDataIn (s : status) (data : bytes) (ok : bool).

Definition CheckTransfer (s : status) : bool :=
  match s with COMPLETED => false | TIMED_OUT | FAILED => true end.

Definition meta_out_done (actual : Z) (o : sender) : sender :=
  mk_sender (state o) (transferring_meta o) (transferring_data o) (mhdr o) (request_out o) false
    (tfer_data_out o) (wire_meta o ++ ztake actual (encode_header (mhdr o))) (wire_data o).
Definition data_out_done (off actual : Z) (o : sender) : sender :=
  mk_sender (state o) (transferring_meta o) (transferring_data o) (mhdr o) (request_out o)
    (tfer_meta_out o) None (wire_meta o)
    (wire_data o ++ ztake actual (zdrop off (wr_payload (request_out o)))).
Definition meta_in_done (data : bytes) (i : receiver) : receiver :=
  mk_receiver (overwrite (mhdr_in i) 0 data) (payload_in i) (object_ids_in i) false
    (tfer_data_in i) (dispatched i).
Definition data_in_done (x : in_transfer) (data : bytes) (i : receiver) : receiver :=
  match x with
  | Payload off _ =>
      mk_receiver (mhdr_in i) (overwrite (payload_in i) off data) (object_ids_in i)
        (tfer_meta_in i) None (dispatched i)
  | Objects _ =>
      mk_receiver (mhdr_in i) (payload_in i) (overwrite (object_ids_in i) 0 data)
        (tfer_meta_in i) None (dispatched i)
  end.

Definition handle (e : event) (d : t) : outcome t :=
  match e with
  | EvSend w ok => Done (SendRequest w ok d)
  | EvMetaOut s n ok =>
      let d := set_out d (meta_out_done n (out d)) in
      Done (if CheckTransfer s then Kill d else MetaOutTransferCompleted ok d)
  | EvDataOut s n ok =>
      match tfer_data_out (out d) with
      | None => Done d
      | Some (off, _) =>
          let d := set_out d (data_out_done off n (out d)) in
          Done (if CheckTransfer s then Kill d else DataOutTransferCompleted off n ok d)
      end
  | EvMetaIn s data ok =>
      let d := set_inp d (meta_in_done data (inp d)) in
      match s with
      | TIMED_OUT => Done (ResubmitMetaInTransfer ok d)
      | _ => if CheckTransfer s then Done (Kill d) else MetaInTransferCompleted ok d
      end
  | EvDataIn s data ok =>
      match tfer_data_in (inp d) with
      | None => Done d
      | Some x =>
          let d := set_inp d (data_in_done x data (inp d)) in
          if CheckTransfer s then Done (Kill d)
          else match x with
               | Payload off _ => DataInTransferCompleted off (zlen data) ok d
               | Objects _ => ObjectInTransferCompleted (zlen data) ok d
               end
      end
  end.

Fixpoint run (es : list event) (d : t) : outcome t :=
  match es with
  | [] => Done d
  | e :: es => d ← handle e d; run es d
  end.

(** A new device: the headers are not initialised, whatever they are. *)
Definition init (h : MessageHeader) (memory : bytes) : t :=
  mk (mk_sender AVAILABLE false false h (mk_WeakRequest 0 0 0 0 0 []) false None [] [])
     (mk_receiver memory [] [] false None []) [] false false.

(** [Device::Begin] *)
Definition Begin (ok_in ok_out : bool) (d : t) : t :=
  SendRequest (mk_WeakRequest META_CLIENT 0 0 (ITwibDeviceInterface_Command IDENTIFY) META_CLIENT [])
    ok_out (ResubmitMetaInTransfer ok_in d).

(** ** Specification *)

(** A [size_t] that is passed as an [int]. *)
Definition int_of (n : Z) : Z := (n + 2 ^ 31) mod 2 ^ 32 - 2 ^ 31.
(** The length that the code asks for, and what [libusb_fill_bulk_transfer] is given. *)
Definition asked (x : in_transfer) : Z :=
  match x with Payload _ len => len | Objects len => len end.
Definition transfer_length (x : in_transfer) : Z := int_of (asked x).
(** The most that can come in. *)
Definition len_of (x : in_transfer) : Z := Z.max 0 (transfer_length x).

(** What libusb and the waiting of [SendRequest] allow to happen. *)
Definition enabled (e : event) (d : t) : Prop :=
  match e with
  | EvSend w _ => (state (out d) = AVAILABLE ∨ deletion_flag d = true) ∧ zlen (wr_payload w) < 2 ^ 62
  | EvMetaOut _ n _ => tfer_meta_out (out d) = true ∧ 0 ≤ n ≤ 32
  | EvDataOut _ n _ => ∃ off len, tfer_data_out (out d) = Some (off, len) ∧ 0 ≤ n ≤ len
  | EvMetaIn _ data _ => tfer_meta_in (inp d) = true ∧ zlen data ≤ 32
  | EvDataIn _ data _ => ∃ x, tfer_data_in (inp d) = Some x ∧ zlen data ≤ len_of x
  end.
Definition step (d d' : t) : Prop := ∃ e, enabled e d ∧ handle e d = Done d'.

(** [off, off + len) is a part of a buffer of [size] bytes that one transfer may carry. *)
Definition piece (off len size : Z) : Prop := 0 ≤ off ∧ 0 < len ≤ 65536 ∧ off + len ≤ size.

Record safe_out (o : sender) : Prop := {
  so_busy : state o = BUSY →
    payload_size (mhdr o) = zlen (wr_payload (request_out o)) ∧
    zlen (wr_payload (request_out o)) < 2 ^ 62;
  so_available : state o = AVAILABLE → transferring_meta o = false ∧ transferring_data o = false;
  so_meta : tfer_meta_out o = true → transferring_meta o = true ∧ transferring_data o = false;
  so_data : ∀ off len, tfer_data_out o = Some (off, len) →
    transferring_meta o = false ∧ transferring_data o = true ∧
    piece off len (zlen (wr_payload (request_out o))) }.

(** The vectors that the transfers of a response write into have the header's sizes. *)
Definition sized (i : receiver) : Prop :=
  let h := decode_header (mhdr_in i) in
  zlen (payload_in i) = payload_size h ∧ zlen (object_ids_in i) = 4 * object_count h ∧
  payload_size h < 2 ^ 63.

Record safe_in (i : receiver) : Prop := {
  si_header : zlen (mhdr_in i) = 32;
  si_meta : tfer_meta_in i = true → tfer_data_in i = None;
  si_data : ∀ x, tfer_data_in i = Some x → tfer_meta_in i = false ∧ sized i ∧
    match x with
    | Payload off len => piece off len (zlen (payload_in i))
    | Objects len => 0 < len ∧ len = zlen (object_ids_in i)
    end }.

Definition safe (d : t) : Prop := safe_out (out d) ∧ safe_in (inp d).

(** The object ids' transfer is for all of them: four bytes for each of the header's
    count.  libusb's length is that many below 2^31 bytes, and never more; in the upper
    half of every 2^32 it is negative. *)
Definition ids_transfer (len : Z) (i : receiver) : Prop :=
  len = 4 * object_count (decode_header (mhdr_in i)) ∧ len = zlen (object_ids_in i) ∧
  transfer_length (Objects len) ≤ len ∧ (len < 2 ^ 31 → transfer_length (Objects len) = len) ∧
  (transfer_length (Objects len) < 0 ↔ 2 ^ 31 ≤ len mod 2 ^ 32).

(** An identification that succeeds with less than 8 bytes. *)
Definition short_identification (e : event) (d : t) : Prop :=
  let h := decode_header (match e with
    | EvMetaIn _ data _ => overwrite (mhdr_in (inp d)) 0 data
    | _ => mhdr_in (inp d)
    end) in
  client_id h = META_CLIENT ∧ result_code h = 0 ∧ payload_size h < 8.

Definition total (ls : list Z) : Z := foldr Z.add 0 ls.
Definition data_outs (ls : list Z) : list event := map (fun n => EvDataOut COMPLETED n true) ls.
Definition data_ins (cs : list bytes) : list event := map (fun c => EvDataIn COMPLETED c true) cs.

(** A request as it goes through: the header, then the payload in pieces. *)
Definition request_events (w : WeakRequest) (ls : list Z) : list event :=
  EvSend w true :: EvMetaOut COMPLETED 32 true :: data_outs ls.
(** A response as it comes in. *)
Definition response_events (m : message) (cs : list bytes) : list event :=
  EvMetaIn COMPLETED (encode_header (m_header m)) true :: data_ins cs ++
  (if 0 <? object_count (m_header m) then [EvDataIn COMPLETED (m_objects m) true] else []).

(** Between two pieces of a request's payload, [off] bytes of it sent. *)
Record sending (off : Z) (d : t) : Prop := {
  sd_busy : state (out d) = BUSY;
  sd_meta : transferring_meta (out d) = false;
  sd_data : transferring_data (out d) = true;
  sd_size : payload_size (mhdr (out d)) = zlen (wr_payload (request_out (out d)));
  sd_small : zlen (wr_payload (request_out (out d))) < 2 ^ 62;
  sd_off : 0 ≤ off < zlen (wr_payload (request_out (out d)));
  sd_tfer : tfer_data_out (out d) =
    Some (off, LimitTransferSize (zlen (wr_payload (request_out (out d))) - off)) }.

(** [d'] differs from [d] in its out half only. *)
Definition same_but_out (d d' : t) : Prop :=
  inp d' = inp d ∧ deletion_flag d' = deletion_flag d ∧ ready_flag d' = ready_flag d.

(** The bytes of a response's payload that are in, and the transfer that waits. *)
Record receiving (m : message) (off : Z) (d : t) : Prop := {
  rc_header : mhdr_in (inp d) = encode_header (m_header m);
  rc_meta : tfer_meta_in (inp d) = false;
  rc_payload : zlen (payload_in (inp d)) = zlen (m_payload m);
  rc_ids : zlen (object_ids_in (inp d)) = zlen (m_objects m);
  rc_off : 0 ≤ off ≤ zlen (m_payload m);
  rc_in : ztake off (payload_in (inp d)) = ztake off (m_payload m) }.

(** The end of a response: it is dispatched and the next header is asked for. *)
Definition delivered (m : message) (d d' : t) : Prop :=
  let h := m_header m in
  dispatched (inp d') = dispatched (inp d) ++
    [(h, m_payload m, decode_u32s (object_count h) (m_objects m))] ∧
  pending_requests d' = List.filter (fun r => negb (wr_tag r =? tag h)) (pending_requests d) ∧
  tfer_meta_in (inp d') = true ∧ tfer_data_in (inp d') = None ∧ zlen (mhdr_in (inp d')) = 32 ∧
  out d' = out d ∧ deletion_flag d' = deletion_flag d ∧ ready_flag d' = ready_flag d.

(** What only changes the memory of the response in [d]. *)
Definition same_but_memory (d d' : t) : Prop :=
  dispatched (inp d') = dispatched (inp d) ∧ pending_requests d' = pending_requests d ∧
  out d' = out d ∧ deletion_flag d' = deletion_flag d ∧ ready_flag d' = ready_flag d.

(** *** An example device, between requests; a request and a response. *)

Definition from (d : outcome t) (d0 : t) : t := match d with Done d => d | _ => d0 end.
Definition ex_header : MessageHeader := mkHeader 0 0 0 0 0 0 0.
Definition ex_begin : t := Begin true true (init ex_header (zreplicate 32 Byte.x00)).
Definition ex_ready : t := from (run [EvMetaOut COMPLETED 32 true] ex_begin) ex_begin.
Definition ex_w : WeakRequest := mk_WeakRequest 7 3 0 10 55 (str "hello").
Definition ex_sending : t :=
  from (run [EvSend ex_w true; EvMetaOut COMPLETED 32 true] ex_ready) ex_ready.
Definition ex_m : message :=
  mkMessage (mkHeader 7 0 0 55 3 1 0) (str "abc") (encode_u32s [9]).
Definition ex_receiving : t :=
  from (run [EvMetaIn COMPLETED (encode_header (m_header ex_m)) true;
             EvDataIn COMPLETED (str "abc") true] ex_begin) ex_begin.
Definition ex_empty : message := mkMessage (mkHeader 7 0 0 55 0 0 0) [] [].

(** ** Lemmas *)

Lemma LimitTransferSize_spec sz :
  0 < sz → 0 < LimitTransferSize sz ≤ 65536 ∧ LimitTransferSize sz ≤ sz.
Proof. unfold LimitTransferSize. destruct (Z.ltb_spec 65536 sz); lia. Qed.

Lemma int_of_small n : - 2 ^ 31 ≤ n < 2 ^ 31 → int_of n = n.
Proof. intros H. unfold int_of. rewrite Z.mod_small; lia. Qed.
Lemma int_of_cases n :
  0 ≤ n → int_of n ≤ n ∧ (int_of n < 0 ↔ 2 ^ 31 ≤ n mod 2 ^ 32).
Proof.
  intros Hn. unfold int_of. pose proof (Z.div_mod n (2 ^ 32) ltac:(lia)) as E.
  pose proof (Z.mod_pos_bound n (2 ^ 32) ltac:(lia)).
  pose proof (Z.div_pos n (2 ^ 32) Hn ltac:(lia)).
  destruct (Z_lt_le_dec (n mod 2 ^ 32) (2 ^ 31)).
  - replace ((n + 2 ^ 31) mod 2 ^ 32) with (n mod 2 ^ 32 + 2 ^ 31); [lia|].
    apply (Z.mod_unique_pos _ _ (n / 2 ^ 32)); lia.
  - replace ((n + 2 ^ 31) mod 2 ^ 32) with (n mod 2 ^ 32 - 2 ^ 31); [lia|].
    apply (Z.mod_unique_pos _ _ (n / 2 ^ 32 + 1)); lia.
Qed.
Lemma len_of_asked x : 0 ≤ asked x → len_of x ≤ asked x.
Proof.
  intros Hx. unfold len_of, transfer_length. destruct (int_of_cases (asked x) Hx). lia.
Qed.

Lemma out_kill_unless ok d : out (kill_unless ok d) = out d.
Proof. by destruct ok. Qed.
Lemma inp_kill_unless ok d : inp (kill_unless ok d) = inp d.
Proof. by destruct ok. Qed.

Lemma enter_available_safe o :
  safe_out (mk_sender BUSY (transferring_meta o) (transferring_data o) (mhdr o) (request_out o)
    (tfer_meta_out o) (tfer_data_out o) (wire_meta o) (wire_data o)) → state o = BUSY →
  safe_out (enter_available o).
Proof.
  intros [Hb Ha Hm Hd] Ho. cbn in *. unfold enter_available.
  destruct (transferring_meta o) eqn:Em, (transferring_data o) eqn:Ed; cbn;
    constructor; cbn; rewrite ?Em, ?Ed, ?Ho; auto; done.
Qed.

Lemma SendRequest_safe w ok d :
  safe_out (out d) → enabled (EvSend w ok) d → safe_out (out (SendRequest w ok d)).
Proof.
  intros [Hb Ha Hm Hd] [Hen Hw]. unfold SendRequest.
  destruct (deletion_flag d) eqn:Edel; [by constructor|]. rewrite out_kill_unless.
  destruct Hen as [Hen|]; [|congruence]. destruct (Ha Hen) as [Hm0 Hd0].
  constructor; cbn; [done|done| |].
  - intros _. by rewrite Hd0.
  - intros off len E. destruct (Hd off len E) as (_ & ? & _). congruence.
Qed.

Lemma busy_of_flags o :
  safe_out o → transferring_meta o = true ∨ transferring_data o = true → state o = BUSY.
Proof.
  intros Hs Hf. destruct (state o) eqn:E; [|done]. destruct (so_available _ Hs E). 
  destruct Hf; congruence.
Qed.

Lemma MetaOut_safe s n ok d d' :
  safe_out (out d) → enabled (EvMetaOut s n ok) d → handle (EvMetaOut s n ok) d = Done d' →
  safe_out (out d').
Proof.
  intros Hs [Hen _] [= <-]. pose proof Hs as [Hb Ha Hm Hd]. destruct (Hm Hen) as [Htm Htd].
  assert (state (out d) = BUSY) as Hst by (apply busy_of_flags; auto).
  destruct (Hb Hst) as [Hps Hlt].
  assert (tfer_data_out (out d) = None) as Hnone.
  { destruct (tfer_data_out (out d)) as [[off len]|] eqn:E; [|done].
    destruct (Hd off len eq_refl) as (? & _). congruence. }
  destruct (CheckTransfer s).
  { cbn. constructor; cbn; rewrite ?Hst, ?Htm, ?Htd, ?Hnone; done. }
  unfold MetaOutTransferCompleted. cbn. set (p := wr_payload (request_out (out d))) in *.
  destruct (Z.ltb_spec 0 (zlen p)) as [Hp|Hp].
  - destruct (LimitTransferSize_spec (zlen p) Hp) as [? ?].
    destruct ok; cbn.
    + unfold enter_available; cbn. constructor; cbn; rewrite ?Hst; try done.
      intros off len [= <- <-]. split_and!; try done; unfold piece; fold p; lia.
    + constructor; cbn; rewrite ?Hst, ?Htm, ?Hnone; done.
  - cbn. apply enter_available_safe; [|done]. constructor; cbn; rewrite ?Hnone; done.
Qed.

Lemma DataOut_safe s n ok d d' :
  safe_out (out d) → enabled (EvDataOut s n ok) d → handle (EvDataOut s n ok) d = Done d' →
  safe_out (out d').
Proof.
  intros Hs (off & len & E & Hn). cbn. rewrite E. intros [= <-].
  pose proof Hs as [Hb Ha Hm Hd]. destruct (Hd off len E) as (Htm & Htd & Hpiece).
  assert (state (out d) = BUSY) as Hst by (apply busy_of_flags; auto).
  destruct (Hb Hst) as [Hps Hlt]. unfold piece in Hpiece.
  assert (tfer_meta_out (out d) = false) as Hnm.
  { destruct (tfer_meta_out (out d)) eqn:E'; [|done]. destruct (Hm eq_refl). congruence. }
  destruct (CheckTransfer s).
  { cbn. constructor; cbn; rewrite ?Hst, ?Hnm; done. }
  unfold DataOutTransferCompleted. cbn. rewrite Hps, (u64_small (off + n)) by lia.
  rewrite u64_small by lia. destruct (Z.ltb_spec 0 (zlen (wr_payload (request_out (out d))) - (off + n)))
    as [Hr|Hr].
  - rewrite out_kill_unless. destruct (LimitTransferSize_spec _ Hr) as [? ?].
    constructor; cbn; rewrite ?Hst, ?Htm, ?Hnm; try done.
    destruct ok; [|done]. intros off' len' [= <- <-]. split_and!; try done; unfold piece; lia.
  - apply enter_available_safe; [|done]. constructor; cbn; rewrite ?Hnm; done.
Qed.

Lemma vector_resize_Done l n l' :
  0 ≤ n → Buffer.vector_resize l n = Done l' → zlen l' = n ∧ n < 2 ^ 63.
Proof.
  intros Hn. unfold Buffer.vector_resize, Buffer.vector_max_size. destruct (Z.ltb_spec (2^63 - 1) n); [done|].
  intros [= <-]. rewrite zlen_app, zlen_ztake, zlen_zreplicate. pose proof (zlen_nonneg l). lia.
Qed.

Lemma Resubmit_safe ok d :
  safe_in (inp d) → tfer_data_in (inp d) = None → safe_in (inp (ResubmitMetaInTransfer ok d)).
Proof.
  intros [Hh Hm Hd] Hn. unfold ResubmitMetaInTransfer. rewrite inp_kill_unless.
  constructor; cbn; [done|done|]. intros x E. congruence.
Qed.

Lemma Identified_inp r p d d' :
  Identified r p d = Done d' → inp d' = inp d ∧ out d' = out d ∧ pending_requests d' = pending_requests d.
Proof.
  unfold Identified. destruct (negb _); [by intros [= <-]|]. destruct (_ <? _); [done|by intros [= <-]].
Qed.

Lemma Dispatch_safe ok d d' :
  safe_in (inp d) → tfer_data_in (inp d) = None → DispatchResponse ok d = Done d' →
  safe_in (inp d') ∧ out d' = out d.
Proof.
  intros [Hh Hm Hd] Hn. unfold DispatchResponse. intros E. apply bind_Done_inv in E as (d1 & E & [= <-]).
  set (d0 := set_pending _ _) in *.
  assert (inp d1 = inp d0 ∧ out d1 = out d0) as [Hi Ho].
  { destruct (_ =? _); [apply Identified_inp in E as (? & ? & _); auto|injection E as <-; auto]. }
  split.
  - by apply Resubmit_safe; rewrite Hi.
  - unfold ResubmitMetaInTransfer. by rewrite out_kill_unless.
Qed.

(** Submitting a transfer of a piece of the payload, or of the object ids. *)
Lemma submit_data_in_safe x ok d :
  zlen (mhdr_in (inp d)) = 32 → sized (inp d) → tfer_meta_in (inp d) = false →
  tfer_data_in (inp d) = None →
  match x with
  | Payload off len => piece off len (zlen (payload_in (inp d)))
  | Objects len => 0 < len ∧ len = zlen (object_ids_in (inp d))
  end →
  safe_in (inp (submit_data_in x ok d)) ∧ out (submit_data_in x ok d) = out d.
Proof.
  intros Hh Hs Hm Hn Hx. unfold submit_data_in. rewrite inp_kill_unless, out_kill_unless.
  split; [|done]. constructor; cbn; [done|by rewrite Hm|].
  intros x' E. destruct ok; [injection E as <-|congruence]. by split_and!.
Qed.

Lemma MetaIn_safe s data ok d d' :
  safe_in (inp d) → enabled (EvMetaIn s data ok) d → handle (EvMetaIn s data ok) d = Done d' →
  safe_in (inp d') ∧ out d' = out d.
Proof.
  intros [Hh Hm Hd] [Hen Hlen] E. cbn in E. specialize (Hm Hen).
  set (d1 := set_inp d (meta_in_done data (inp d))) in E.
  pose proof (zlen_nonneg data) as Hdata.
  assert (zlen (mhdr_in (inp d1)) = 32) as Hh1 by (cbn; rewrite zlen_overwrite; lia).
  assert (safe_in (inp d1)) as Hs1.
  { constructor; [done|done|]. cbn. intros x Ex. congruence. }
  destruct s; cbn in E.
  2: { injection E as <-. split; [by apply Resubmit_safe|].
       unfold ResubmitMetaInTransfer. by rewrite out_kill_unless. }
  2: { injection E as <-. by split. }
  unfold MetaInTransferCompleted in E. pose proof (decode_header_ok (mhdr_in (inp d1))) as [_ _ _ _ Hp Hc _].
  apply bind_Done_inv in E as (p & Ep & E). apply bind_Done_inv in E as (ids & Ei & E).
  apply vector_resize_Done in Ep as [Ep1 Ep2]; [|lia]. apply vector_resize_Done in Ei as [Ei1 Ei2]; [|lia].
  set (h := decode_header (mhdr_in (inp d1))) in *.
  set (d2 := set_inp d1 _) in E.
  assert (sized (inp d2)) as Hsz by (split_and!; done).
  destruct (Z.ltb_spec 0 (payload_size h)).
  { apply (inj Done) in E as <-. destruct (submit_data_in_safe (Payload 0 (LimitTransferSize (zlen p))) ok d2)
      as [? ?]; try done.
    destruct (LimitTransferSize_spec (zlen p)) as [? ?]; [lia|]. split_and!; cbn; lia. }
  destruct (Z.ltb_spec 0 (object_count h)).
  { apply (inj Done) in E as <-. destruct (submit_data_in_safe (Objects (zlen ids)) ok d2) as [? ?]; try done.
    split; [lia|done]. }
  apply Dispatch_safe in E; [done| |done].
  constructor; cbn; [done|done|]. intros x Ex. congruence.
Qed.

Lemma DataIn_safe s data ok d d' :
  safe_in (inp d) → enabled (EvDataIn s data ok) d → handle (EvDataIn s data ok) d = Done d' →
  safe_in (inp d') ∧ out d' = out d.
Proof.
  intros [Hh Hm Hd] (x & Ex & Hlen) E. cbn in E. rewrite Ex in E.
  destruct (Hd x Ex) as (Hmi & Hsz & Hx).
  assert (zlen data ≤ asked x) as Hlen'.
  { etransitivity; [exact Hlen|]. apply len_of_asked. destruct x; cbn; unfold piece in *; lia. }
  clear Hlen. rename Hlen' into Hlen. set (d1 := set_inp d (data_in_done x data (inp d))) in E.
  change (out d) with (out d1).
  pose proof (zlen_nonneg data) as Hdata.
  assert (zlen (mhdr_in (inp d1)) = 32 ∧ tfer_meta_in (inp d1) = false ∧ tfer_data_in (inp d1) = None ∧
    mhdr_in (inp d1) = mhdr_in (inp d) ∧ sized (inp d1)) as (Hh1 & Hm1 & Hd1 & He1 & Hs1).
  { destruct Hsz as (S1 & S2 & S3). destruct x as [off len|len]; cbn in Hlen |- *;
      split_and!; try done; unfold sized; cbn; unfold piece in *;
      (split_and!; [|rewrite ?zlen_overwrite by lia|done]; rewrite ?zlen_overwrite by lia; done). }
  assert (safe_in (inp d1)) as Hsafe1.
  { constructor; [done|done|]. intros y Ey. congruence. }
  destruct (CheckTransfer s); [injection E as <-; by split|].
  pose proof Hs1 as (S1 & S2 & S3). set (h := decode_header (mhdr_in (inp d1))) in *.
  destruct x as [off len|len].
  - unfold DataInTransferCompleted in E. fold h in E. cbn in Hlen. destruct Hx as (? & ? & ?).
    assert (zlen (payload_in (inp d1)) = zlen (payload_in (inp d))) as Hpl.
    { cbn. rewrite zlen_overwrite; lia. }
    rewrite (u64_small (off + zlen data)) in E by lia. rewrite u64_small in E by lia.
    destruct (Z.ltb_spec 0 (payload_size h - (off + zlen data))) as [Hr|Hr].
    { apply (inj Done) in E as <-. destruct (LimitTransferSize_spec _ Hr) as [? ?].
      apply submit_data_in_safe; try done. split_and!; lia. }
    destruct (Z.ltb_spec 0 (object_count h)); [|by apply Dispatch_safe in E].
    apply (inj Done) in E as <-. apply submit_data_in_safe; try done. split; [lia|done].
  - unfold ObjectInTransferCompleted in E. destruct (negb _); [injection E as <-; by split|].
    by apply Dispatch_safe in E.
Qed.

Lemma handle_safe e d d' :
  safe d → enabled e d → handle e d = Done d' → safe d'.
Proof.
  intros [Ho Hi] He E. destruct e as [w ok|s n ok|s n ok|s data ok|s data ok].
  - injection E as <-. split; [by apply SendRequest_safe|].
    unfold SendRequest. destruct (deletion_flag d); [done|]. by rewrite inp_kill_unless.
  - split; [by eapply MetaOut_safe|]. injection E as <-.
    destruct (CheckTransfer s); [done|]. unfold MetaOutTransferCompleted.
    destruct (_ <? _); [by destruct ok|done].
  - split; [by eapply DataOut_safe|]. cbn in E. destruct (tfer_data_out (out d)) as [[off len]|];
      injection E as <-; [|done]. destruct (CheckTransfer s); [done|].
    unfold DataOutTransferCompleted. destruct (_ <? _); [by rewrite inp_kill_unless|done].
  - destruct (MetaIn_safe s data ok d d' Hi He E) as [? Heq]. split; [by rewrite Heq|done].
  - destruct (DataIn_safe s data ok d d' Hi He E) as [? Heq]. split; [by rewrite Heq|done].
Qed.

Lemma Dispatch_undefined ok d :
  DispatchResponse ok d = Undefined →
  let h := decode_header (mhdr_in (inp d)) in
  client_id h = META_CLIENT ∧ result_code h = 0 ∧ zlen (payload_in (inp d)) < 8.
Proof.
  unfold DispatchResponse. cbn zeta. destruct (Z.eqb_spec (client_id (decode_header (mhdr_in (inp d)))) META_CLIENT);
    [|done]. unfold Identified.
  destruct (Z.eqb_spec (result_code (decode_header (mhdr_in (inp d)))) 0); [|done]. cbn [negb].
  cbn [payload_in]. destruct (Z.ltb_spec (zlen (payload_in (inp d))) 8); done.
Qed.

Lemma MetaIn_undefined ok d :
  MetaInTransferCompleted ok d = Undefined →
  let h := decode_header (mhdr_in (inp d)) in
  client_id h = META_CLIENT ∧ result_code h = 0 ∧ payload_size h < 8.
Proof.
  unfold MetaInTransferCompleted. set (h := decode_header _). cbn zeta. intros E.
  pose proof (decode_header_ok (mhdr_in (inp d))) as [_ _ _ _ Hp Hc _]. fold h in Hp, Hc.
  destruct (Buffer.vector_resize (payload_in (inp d)) (payload_size h)) as [p| | | |] eqn:Ep;
    try (unfold Buffer.vector_resize in Ep; destruct (_ <? _) in Ep; congruence); [|done].
  apply vector_resize_Done in Ep as [Ep _]; [|lia].
  destruct (Buffer.vector_resize (object_ids_in (inp d)) _) as [ids| | | |] eqn:Ei;
    try (unfold Buffer.vector_resize in Ei; destruct (_ <? _) in Ei; congruence); [|done].
  cbn [mbind outcome_bind] in E. destruct (0 <? payload_size h); [done|].
  destruct (0 <? object_count h); [done|]. by apply Dispatch_undefined in E as (? & ? & H);
    cbn in H; rewrite Ep in H.
Qed.

Lemma handle_undefined e d :
  safe d → enabled e d → handle e d = Undefined → short_identification e d.
Proof.
  intros [_ Hi] He E. destruct e as [w ok|s n ok|s n ok|s data ok|s data ok]; try done.
  - cbn in E. by destruct (tfer_data_out (out d)) as [[off len]|].
  - destruct s; [|done|done]. by apply MetaIn_undefined in E.
  - destruct He as (x & Ex & Hlen). destruct (si_data _ Hi x Ex) as (_ & (S1 & S2 & _) & Hx).
    assert (zlen data ≤ asked x) as Hlen'.
    { etransitivity; [exact Hlen|]. apply len_of_asked. destruct x; cbn; unfold piece in *; lia. }
    clear Hlen. rename Hlen' into Hlen.
    cbn in E. rewrite Ex in E. destruct (CheckTransfer s); [done|].
    assert (∀ d', inp d' = data_in_done x data (inp d) → DispatchResponse ok d' = Undefined →
      short_identification (EvDataIn s data ok) d) as Hd.
    { intros d' Hd' E'. apply Dispatch_undefined in E' as (H1 & H2 & H3). rewrite Hd' in *.
      pose proof (zlen_nonneg data). destruct x as [off len|len]; cbn [data_in_done payload_in mhdr_in asked] in *.
      - unfold piece in Hx. rewrite zlen_overwrite in H3 by lia. by split_and!; [..|lia].
      - by split_and!; [..|lia]. }
    destruct x as [off len|len].
    + unfold DataInTransferCompleted in E. destruct (_ <? _) in E; [done|].
      destruct (_ <? _) in E; [done|]. refine (Hd _ _ E); reflexivity.
    + unfold ObjectInTransferCompleted in E. destruct (negb _) in E; [done|]. refine (Hd _ _ E); reflexivity.
Qed.

Lemma run_app es es' d : run (es ++ es') d = d ← run es d; run es' d.
Proof.
  revert d. induction es as [|e es IH]; intros d; [done|]. cbn.
  destruct (handle e d); [|done..]. apply IH.
Qed.

Lemma total_nonneg ls : Forall (fun a => 0 < a ≤ 65536) ls → 0 ≤ total ls.
Proof. unfold total; induction 1; cbn; lia. Qed.

(** One completed piece of the payload, not the last or the last. *)
Lemma data_out_step off d a (p := wr_payload (request_out (out d))) :
  sending off d → 0 < a → off + a ≤ zlen p →
  ∃ d', handle (EvDataOut COMPLETED a true) d = Done d' ∧ same_but_out d d' ∧
    pending_requests d' = pending_requests d ∧ wire_meta (out d') = wire_meta (out d) ∧
    request_out (out d') = request_out (out d) ∧
    wire_data (out d') = wire_data (out d) ++ ztake a (zdrop off p) ∧
    (if off + a <? zlen p then sending (off + a) d' else state (out d') = AVAILABLE).
Proof.
  intros [S1 S2 S3 S4 S5 S6 S7] Ha Hle. fold p in S4, S5, S6, S7. pose proof (zlen_nonneg p).
  eexists. split; [cbn [handle]; rewrite S7; reflexivity|]. cbn [CheckTransfer].
  unfold DataOutTransferCompleted. cbn [set_out out data_out_done mhdr]. rewrite S4.
  rewrite (u64_small (off + a)) by lia. rewrite u64_small by lia.
  destruct (Z.ltb_spec 0 (zlen p - (off + a))), (Z.ltb_spec (off + a) (zlen p)); try lia.
  - split_and!; try done. constructor; try done; cbn; fold p; try lia.
  - unfold enter_available. cbn. rewrite S2. cbn. by split_and!.
Qed.

Lemma data_out_loop ls off d (p := wr_payload (request_out (out d))) :
  sending off d → Forall (fun a => 0 < a ≤ 65536) ls → total ls = zlen p - off →
  (∃ d', run (data_outs ls) d = Done d' ∧ same_but_out d d' ∧ state (out d') = AVAILABLE ∧
     pending_requests d' = pending_requests d ∧ wire_meta (out d') = wire_meta (out d) ∧
     wire_data (out d') = wire_data (out d) ++ zdrop off p) ∧
  ∀ k, (k < length ls)%nat →
    ∃ d', run (take k (data_outs ls)) d = Done d' ∧ state (out d') = BUSY.
Proof.
  intros Hs Hls. revert off d p Hs. induction Hls as [|a ls Ha Hls IH]; intros off d p Hs Ht.
  { pose proof (sd_off _ _ Hs). cbn in Ht. subst p. lia. }
  cbn [total foldr] in Ht. change (foldr Z.add 0 ls) with (total ls) in Ht.
  pose proof (total_nonneg ls Hls) as Hnn. pose proof (sd_off _ _ Hs) as Hoff.
  destruct (data_out_step off d a Hs) as (d1 & E1 & (I1 & I2 & I3) & P1 & M1 & R1 & W1 & C1);
    [lia|subst p; lia|]. fold p in W1, C1.
  destruct (Z.ltb_spec (off + a) (zlen p)) as [Hlt|Hge].
  - destruct (IH (off + a) d1) as [(d2 & E2 & (J1 & J2 & J3) & S2 & P2 & M2 & W2) Hk];
      [done|rewrite R1; fold p; lia|]. rewrite R1 in W2. fold p in W2. split.
    + exists d2. cbn [data_outs map run]. rewrite E1. cbn [mbind outcome_bind].
      split; [exact E2|]. split; [split_and!; congruence|]. split_and!; try congruence.
      rewrite W2, W1, <- app_assoc. f_equal. rewrite <- (ztake_zdrop a (zdrop off p)) at 2.
      f_equal. rewrite zdrop_zdrop by lia. by rewrite Z.add_comm.
    + intros [|k] Hlt'; [exists d; split; [done|apply (sd_busy _ _ Hs)]|].
      cbn [data_outs map take run]. rewrite E1. apply Hk. cbn in Hlt'. lia.
  - assert (ls = []) as ->.
    { destruct Hls as [|b ls Hb Hls]; [done|]. cbn in Ht. apply total_nonneg in Hls.
      unfold total in Hls. subst p. lia. }
    split.
    + exists d1. cbn [data_outs map run]. rewrite E1. split_and!; try done.
      rewrite W1, ztake_all; [done|]. zlia.
    + intros [|k] Hlt'; [exists d; split; [done|apply (sd_busy _ _ Hs)]|]. cbn in Hlt'. lia.
Qed.

Lemma overwrite_all {A} (l k : list A) : zlen l ≤ zlen k → overwrite l 0 k = k.
Proof.
  intros H. unfold overwrite. rewrite ztake_0, zdrop_all by lia. by rewrite app_nil_r.
Qed.

Lemma vector_resize_ok l n : 0 ≤ n < 2 ^ 63 → ∃ l', Buffer.vector_resize l n = Done l' ∧ zlen l' = n.
Proof.
  intros Hn. unfold Buffer.vector_resize, Buffer.vector_max_size.
  destruct (Z.ltb_spec (2 ^ 63 - 1) n); [lia|]. eexists. split; [done|].
  rewrite zlen_app, zlen_ztake, zlen_zreplicate. pose proof (zlen_nonneg l). lia.
Qed.

Lemma Dispatch_delivers m d :
  message_ok m → client_id (m_header m) ≠ META_CLIENT →
  mhdr_in (inp d) = encode_header (m_header m) → payload_in (inp d) = m_payload m →
  object_ids_in (inp d) = m_objects m → tfer_data_in (inp d) = None →
  ∃ d', DispatchResponse true d = Done d' ∧ delivered m d d'.
Proof.
  intros [Hh _ _ _] Hc E1 E2 E3 E4. unfold DispatchResponse. rewrite E1, E2, E3.
  rewrite decode_encode_header by done. rewrite (proj2 (Z.eqb_neq _ _)) by done.
  eexists. split; [reflexivity|].
  split_and!; try done; cbn; rewrite E1; apply zlen_encode_header.
Qed.

Lemma delivered_after m d d1 d' : same_but_memory d d1 → delivered m d1 d' → delivered m d d'.
Proof.
  intros (E1 & E2 & E3 & E4 & E5) (D1 & D2 & D3 & D4 & D5 & D6 & D7 & D8).
  rewrite E1 in D1. rewrite E2 in D2. split_and!; congruence.
Qed.

(** The object ids come in and end the response. *)
Lemma objects_in m d :
  message_ok m → client_id (m_header m) ≠ META_CLIENT →
  mhdr_in (inp d) = encode_header (m_header m) → payload_in (inp d) = m_payload m →
  zlen (object_ids_in (inp d)) = zlen (m_objects m) →
  tfer_data_in (inp d) = Some (Objects (zlen (object_ids_in (inp d)))) →
  ∃ d', handle (EvDataIn COMPLETED (m_objects m) true) d = Done d' ∧ delivered m d d'.
Proof.
  intros Hm Hc E1 E2 E3 E4. cbn [handle]. rewrite E4. cbn [CheckTransfer].
  unfold ObjectInTransferCompleted. cbn [set_inp inp data_in_done mhdr_in]. rewrite E1.
  pose proof Hm as [Hh _ Ho _]. rewrite decode_encode_header by done.
  pose proof (ok_count _ Hh). rewrite Ho, u64_small by lia.
  rewrite (Z.mul_comm 4), Z.eqb_refl. cbn [negb].
  set (d1 := set_inp d _). destruct (Dispatch_delivers m d1) as (d' & E & Hd); try done.
  { cbn. by rewrite overwrite_all by lia. }
  exists d'. split; [done|]. by apply (delivered_after m d d1).
Qed.

(** After the payload: the object ids, or the end. *)
Lemma payload_in_done m d d0 :
  message_ok m → client_id (m_header m) ≠ META_CLIENT → same_but_memory d0 d →
  mhdr_in (inp d) = encode_header (m_header m) → payload_in (inp d) = m_payload m →
  zlen (object_ids_in (inp d)) = zlen (m_objects m) → tfer_data_in (inp d) = None →
  let cont d := if 0 <? object_count (m_header m)
    then Done (submit_data_in (Objects (zlen (object_ids_in (inp d)))) true d)
    else DispatchResponse true d in
  ∃ d', (d ← cont d; run (if 0 <? object_count (m_header m)
                          then [EvDataIn COMPLETED (m_objects m) true] else []) d) = Done d' ∧
    delivered m d0 d'.
Proof.
  intros Hm Hc Hs E1 E2 E3 E4. cbn zeta. pose proof Hm as [Hh _ Ho _].
  pose proof (ok_count _ Hh). destruct (Z.ltb_spec 0 (object_count (m_header m))).
  - cbn [mbind outcome_bind run]. destruct (objects_in m
      (submit_data_in (Objects (zlen (object_ids_in (inp d)))) true d)) as (d' & E & Hd); try done.
    rewrite E. exists d'. split; [done|]. eapply delivered_after; [|exact Hd].
    by destruct Hs as (? & ? & ? & ? & ?); split_and!.
  - destruct (Dispatch_delivers m d) as (d' & E & Hd); try done.
    { rewrite (zlen_0_inv (object_ids_in (inp d))), (zlen_0_inv (m_objects m)) by lia. done. }
    rewrite E. exists d'. split; [done|]. by eapply delivered_after.
Qed.

(** One piece of a response's payload in memory. *)
Lemma receiving_step m off len c d :
  receiving m off d → 0 < zlen c → off + zlen c ≤ zlen (m_payload m) →
  ztake (zlen c) (zdrop off (m_payload m)) = c →
  receiving m (off + zlen c) (set_inp d (data_in_done (Payload off len) c (inp d))).
Proof.
  intros [R1 R2 R3 R4 R5 R6] Hc Hle Htk. constructor; cbn; try done; [|lia|].
  - rewrite zlen_overwrite; lia.
  - unfold overwrite. rewrite R6, ztake_app_ge, zlen_ztake by (rewrite zlen_ztake; lia).
    replace (off + zlen c - Z.max 0 (Z.min off (zlen (m_payload m)))) with (zlen c) by lia.
    rewrite ztake_app by done. rewrite <- Htk at 1.
    rewrite <- (ztake_zdrop off (m_payload m)) at 3.
    rewrite ztake_app_ge by (rewrite zlen_ztake; lia). f_equal. f_equal.
    rewrite zlen_ztake. lia.
Qed.

Lemma data_in_loop m cs off d d0 :
  message_ok m → client_id (m_header m) ≠ META_CLIENT → receiving m off d → same_but_memory d0 d →
  off < zlen (m_payload m) →
  tfer_data_in (inp d) = Some (Payload off (LimitTransferSize (zlen (m_payload m) - off))) →
  Forall (fun c => 0 < zlen c ≤ 65536) cs → concat cs = zdrop off (m_payload m) →
  ∃ d', run (data_ins cs ++ (if 0 <? object_count (m_header m)
          then [EvDataIn COMPLETED (m_objects m) true] else [])) d = Done d' ∧ delivered m d0 d'.
Proof.
  intros Hm Hc Hr Hs Hlt Ht Hcs. revert off d Hr Hs Hlt Ht.
  induction Hcs as [|c cs Hc0 Hcs IH]; intros off d Hr Hs Hlt Ht Hcat.
  { cbn in Hcat. pose proof (zlen_zdrop off (m_payload m)) as E. rewrite <- Hcat in E.
    pose proof (rc_off _ _ _ Hr). change (zlen []) with 0 in E. lia. }
  pose proof Hm as [Hh Hp Ho Hsm]. pose proof (rc_off _ _ _ Hr) as Hoff. pose proof (ok_payload _ Hh).
  cbn [concat] in Hcat. assert (ztake (zlen c) (zdrop off (m_payload m)) = c) as Htk
    by (rewrite <- Hcat; by apply ztake_app).
  assert (off + zlen c ≤ zlen (m_payload m)) as Hle.
  { pose proof (zlen_zdrop off (m_payload m)) as E. rewrite <- Hcat, zlen_app in E.
    pose proof (zlen_nonneg (concat cs)). lia. }
  assert (concat cs = zdrop (off + zlen c) (m_payload m)) as Hcat'.
  { rewrite <- (zdrop_zdrop (zlen c) off) by lia.
    rewrite <- Hcat. by rewrite zdrop_app. }
  pose proof (receiving_step m off (LimitTransferSize (zlen (m_payload m) - off)) c d Hr
    ltac:(lia) Hle Htk) as Hr1.
  cbn [data_ins map app run handle]. rewrite Ht. cbn [CheckTransfer].
  set (d1 := set_inp d _) in *.
  assert (same_but_memory d0 d1) as Hs1 by (destruct Hs as (? & ? & ? & ? & ?); by split_and!).
  unfold DataInTransferCompleted. rewrite (rc_header _ _ _ Hr1), decode_encode_header by done.
  rewrite <- Hp, (u64_small (off + zlen c)) by lia. rewrite u64_small by lia.
  destruct (Z.ltb_spec 0 (zlen (m_payload m) - (off + zlen c))) as [Hmore|Hend].
  - cbn [mbind outcome_bind]. apply (IH (off + zlen c)); try done; [|lia].
    destruct Hr1 as [R1 R2 R3 R4 R5 R6]. by constructor.
  - assert (off + zlen c = zlen (m_payload m)) as Heq by lia.
    assert (cs = []) as ->.
    { destruct Hcs as [|b cs [Hb _] _]; [done|]. rewrite zdrop_all in Hcat' by lia. cbn in Hcat'.
      apply app_eq_nil in Hcat' as [-> _]. done. }
    apply (payload_in_done m d1 d0); try done; [apply Hr1| |by apply Hr1].
    pose proof (rc_in _ _ _ Hr1) as E. rewrite Heq in E.
    rewrite !ztake_all in E by (try rewrite (rc_payload _ _ _ Hr1); lia). exact E.
Qed.

Lemma Begin_safe h memory ok_in ok_out :
  zlen memory = 32 → safe (Begin ok_in ok_out (init h memory)).
Proof.
  intros Hm. unfold Begin. set (d := ResubmitMetaInTransfer ok_in _).
  assert (safe_in (inp d)) as Hi by (by apply Resubmit_safe; [constructor|]).
  assert (out d = out (init h memory)) as Ho
    by (subst d; unfold ResubmitMetaInTransfer; by rewrite out_kill_unless).
  split.
  - apply SendRequest_safe; [rewrite Ho; by constructor|]. split; [rewrite Ho; by left|done].
  - unfold SendRequest. destruct (deletion_flag d); [done|]. by rewrite inp_kill_unless.
Qed.

(** A request's first two steps. *)
Lemma request_begins d w (h := mkHeader (wr_client w) (wr_object w) (wr_command w) (wr_tag w)
    (zlen (wr_payload w)) 0 (pad (mhdr (out d)))) :
  safe_out (out d) → state (out d) = AVAILABLE → deletion_flag d = false →
  zlen (wr_payload w) < 2 ^ 62 →
  ∃ d1 d2, handle (EvSend w true) d = Done d1 ∧ handle (EvMetaOut COMPLETED 32 true) d1 = Done d2 ∧
    state (out d1) = BUSY ∧ pending_requests d2 = pending_requests d ++ [w] ∧
    wire_meta (out d2) = wire_meta (out d) ++ encode_header h ∧
    wire_data (out d2) = wire_data (out d) ∧ same_but_out d d2 ∧
    if 0 <? zlen (wr_payload w) then sending 0 d2 ∧ request_out (out d2) = w
    else state (out d2) = AVAILABLE.
Proof.
  intros Hs Ha Hdel Hw. destruct (so_available _ Hs Ha) as [Hm Hd].
  eexists _, _. split; [reflexivity|]. split; [reflexivity|].
  unfold SendRequest. rewrite Hdel. cbn [kill_unless set_pending set_out out CheckTransfer
    handle meta_out_done]. unfold MetaOutTransferCompleted.
  cbn [set_out out request_out meta_out_done]. pose proof (zlen_nonneg (wr_payload w)).
  destruct (Z.ltb_spec 0 (zlen (wr_payload w))) as [Hp|Hp]; cbn.
  - unfold enter_available. cbn. split_and!; try done.
    constructor; cbn; try done; try lia; by rewrite Z.sub_0_r.
  - unfold enter_available. cbn. rewrite Hd. by split_and!.
Qed.

(** A header comes in: the vectors get its sizes and the first transfer is submitted. *)
Lemma header_in d m :
  safe_in (inp d) → tfer_meta_in (inp d) = true → message_ok m →
  ∃ d1, handle (EvMetaIn COMPLETED (encode_header (m_header m)) true) d =
      (if 0 <? payload_size (m_header m)
       then Done (submit_data_in (Payload 0 (LimitTransferSize (zlen (payload_in (inp d1))))) true d1)
       else if 0 <? object_count (m_header m)
       then Done (submit_data_in (Objects (zlen (object_ids_in (inp d1)))) true d1)
       else DispatchResponse true d1) ∧
    same_but_memory d d1 ∧ tfer_data_in (inp d1) = None ∧ receiving m 0 d1.
Proof.
  intros Hi Hmi [Hh Hp Ho Hsm]. pose proof (ok_payload _ Hh). pose proof (ok_count _ Hh).
  cbn [handle CheckTransfer]. unfold MetaInTransferCompleted.
  cbn [set_inp inp meta_in_done mhdr_in payload_in object_ids_in].
  rewrite overwrite_all by (rewrite (si_header _ Hi); zlia). rewrite decode_encode_header by done.
  destruct (vector_resize_ok (payload_in (inp d)) (payload_size (m_header m))) as (p & -> & Ep); [lia|].
  destruct (vector_resize_ok (object_ids_in (inp d)) (4 * object_count (m_header m)))
    as (ids & -> & Ei); [lia|]. cbn [mbind outcome_bind].
  exists (set_inp d (mk_receiver (encode_header (m_header m)) p ids false (tfer_data_in (inp d))
    (dispatched (inp d)))).
  split; [reflexivity|]. cbn. rewrite (si_meta _ Hi Hmi). split; [done|].
  split; [done|]. constructor; cbn; try done; try lia.
Qed.

(** A response without payload and objects, from what the header's memory becomes. *)
Lemma response_without_data d m data :
  safe_in (inp d) → tfer_meta_in (inp d) = true → message_ok m →
  client_id (m_header m) ≠ META_CLIENT → m_payload m = [] → m_objects m = [] →
  overwrite (mhdr_in (inp d)) 0 data = encode_header (m_header m) →
  ∃ d', handle (EvMetaIn COMPLETED data true) d = Done d' ∧
    dispatched (inp d') = dispatched (inp d) ++ [(m_header m, [], [])] ∧
    mhdr_in (inp d') = encode_header (m_header m) ∧ safe_in (inp d') ∧ tfer_meta_in (inp d') = true.
Proof.
  intros Hi Hmi [Hh Hp Ho Hsm] Hc Ep Eo Hmem. rewrite Ep in Hp. rewrite Eo in Ho.
  change (zlen []) with 0 in *. cbn [handle CheckTransfer]. unfold MetaInTransferCompleted.
  cbn [set_inp inp meta_in_done mhdr_in payload_in object_ids_in].
  rewrite Hmem, decode_encode_header by done. rewrite <- Hp, <- Ho.
  assert (∀ l, Buffer.vector_resize l 0 = Done []) as Hv.
  { intros l. destruct (vector_resize_ok l 0) as (l' & -> & E); [lia|].
    by rewrite (zlen_0_inv l') by lia. }
  rewrite !Hv. cbn [mbind outcome_bind]. replace (object_count (m_header m)) with 0 by lia.
  change (0 <? 0) with false. cbn iota. unfold DispatchResponse.
  cbn [set_inp inp mhdr_in payload_in object_ids_in dispatched tfer_meta_in tfer_data_in].
  rewrite decode_encode_header by done. rewrite (proj2 (Z.eqb_neq _ _)) by done.
  replace (object_count (m_header m)) with 0 by lia.
  eexists. split; [reflexivity|]. cbn. split_and!; try done. constructor; cbn; [|intros _|].
  - zlia.
  - by apply (si_meta _ Hi).
  - intros x Ex. rewrite (si_meta _ Hi Hmi) in Ex. done.
Qed.

(** ** Theorems *)

(** C27: every transfer of a USB device stays inside the memory it was given.  In every
    state a device can reach, whatever libusb reports, a data transfer in flight carries
    between one and 65536 bytes of the request's payload or of the response's vector.
    The one transfer of a response's object ids is not limited: it asks for four bytes
    for each id of the header's count, as many as their vector has, and what libusb is
    given is that length as an [int] - the same below 2^31 bytes, never more, and
    negative where its bit 31 is set.  A header is awaited only when no data is; and no
    callback has undefined behaviour, but for an identification that succeeds with less
    than eight bytes. *)
Theorem usb_transfers_bounded h memory ok_in ok_out d :
  zlen memory = 32 → rtc step (Begin ok_in ok_out (init h memory)) d →
  safe d ∧ (∀ len, tfer_data_in (inp d) = Some (Objects len) → ids_transfer len (inp d)) ∧
  ∀ e, enabled e d → handle e d = Undefined → short_identification e d.
Proof.
  intros Hmem Hr. assert (safe d) as Hs.
  { revert d Hr. apply rtc_ind_r; [by apply Begin_safe|].
    intros d1 d2 _ (e & He & E) Hs. by eapply handle_safe. }
  split; [done|]. split; [|intros e; by apply handle_undefined].
  intros len E. destruct (si_data _ (proj2 Hs) _ E) as (_ & (_ & Hids & _) & Hlen & ->).
  destruct (int_of_cases (zlen (object_ids_in (inp d)))) as [H1 H2]; [lia|].
  split_and!; [done|done|exact H1| |exact H2]. intros Hlt. apply int_of_small. cbn. lia.
Qed.

Lemma usb_transfers_bounded_witness :
  tfer_data_out (out ex_sending) = Some (0, 5) ∧ safe ex_sending ∧
  tfer_data_in (inp ex_receiving) = Some (Objects 4) ∧ ids_transfer 4 (inp ex_receiving).
Proof.
  split; [vm_compute; reflexivity|]. split; [|split; [vm_compute; reflexivity|]].
  - refine (proj1 (usb_transfers_bounded ex_header (zreplicate 32 Byte.x00) true true ex_sending
      eq_refl _)).
    eapply rtc_l; [exists (EvMetaOut COMPLETED 32 true); split; [by split|vm_compute; reflexivity]|].
    eapply rtc_l; [exists (EvSend ex_w true); split; [by split; [left|]|vm_compute; reflexivity]|].
    eapply rtc_l; [exists (EvMetaOut COMPLETED 32 true); split; [by split|vm_compute; reflexivity]|].
    apply rtc_refl.
  - refine (proj1 (proj2 (usb_transfers_bounded ex_header (zreplicate 32 Byte.x00) true true
      ex_receiving eq_refl _)) 4 _); [|vm_compute; reflexivity].
    eapply rtc_l; [exists (EvMetaIn COMPLETED (encode_header (m_header ex_m)) true);
      split; [by split|vm_compute; reflexivity]|].
    eapply rtc_l; [exists (EvDataIn COMPLETED (str "abc") true);
      split; [exists (Payload 0 3); by split|vm_compute; reflexivity]|].
    apply rtc_refl.
Defined.

(** a response's header alone can make libusb be given a negative length: a response
    without payload that announces between 2^29 and 2^30 objects. *)
Theorem usb_negative_transfer d m :
  safe_in (inp d) → tfer_meta_in (inp d) = true → header_ok (m_header m) →
  payload_size (m_header m) = 0 → 2 ^ 29 ≤ object_count (m_header m) < 2 ^ 30 →
  ∃ d' len, handle (EvMetaIn COMPLETED (encode_header (m_header m)) true) d = Done d' ∧
    tfer_data_in (inp d') = Some (Objects len) ∧ transfer_length (Objects len) < 0.
Proof.
  intros Hi Hmi Hh Hp Hc. cbn [handle CheckTransfer]. unfold MetaInTransferCompleted.
  cbn [set_inp inp meta_in_done mhdr_in payload_in object_ids_in].
  rewrite overwrite_all by (rewrite (si_header _ Hi); zlia). rewrite decode_encode_header by done.
  rewrite Hp. destruct (vector_resize_ok (payload_in (inp d)) 0) as (p & -> & Ep); [lia|].
  destruct (vector_resize_ok (object_ids_in (inp d)) (4 * object_count (m_header m)))
    as (ids & -> & Ei); [lia|]. cbn [mbind outcome_bind].
  change (0 <? 0) with false. cbv iota. rewrite (proj2 (Z.ltb_lt 0 (object_count (m_header m)))) by lia.
  eexists _, _. split; [reflexivity|]. split; [reflexivity|].
  unfold transfer_length. cbn [asked]. rewrite Ei.
  apply int_of_cases; [lia|]. rewrite Z.mod_small; lia.
Qed.

Lemma usb_negative_transfer_witness :
  ∃ d' len, handle (EvMetaIn COMPLETED (encode_header (mkHeader 7 0 0 55 0 (2 ^ 29) 0)) true) ex_begin
      = Done d' ∧
    tfer_data_in (inp d') = Some (Objects len) ∧ transfer_length (Objects len) < 0.
Proof.
  apply (usb_negative_transfer ex_begin (mkMessage (mkHeader 7 0 0 55 0 (2 ^ 29) 0) [] []));
    [| reflexivity | | reflexivity | by split].
  - constructor; [reflexivity|reflexivity|done].
  - constructor; cbn; lia.
Defined.

(** a request is sent completely, and nothing else is sent in between.  The header's
    endpoint gets the encoding of its fields, the data endpoint the payload, in whatever
    pieces libusb completes; the device is busy at every point before the end, so no
    other request can start, and available at the end. *)
Theorem usb_request_sent d w ls :
  safe d → state (out d) = AVAILABLE → deletion_flag d = false → zlen (wr_payload w) < 2 ^ 62 →
  Forall (fun a => 0 < a ≤ 65536) ls → total ls = zlen (wr_payload w) →
  let h := mkHeader (wr_client w) (wr_object w) (wr_command w) (wr_tag w) (zlen (wr_payload w)) 0
             (pad (mhdr (out d))) in
  (∃ d', run (request_events w ls) d = Done d' ∧ state (out d') = AVAILABLE ∧
     wire_meta (out d') = wire_meta (out d) ++ encode_header h ∧
     wire_data (out d') = wire_data (out d) ++ wr_payload w ∧
     pending_requests d' = pending_requests d ++ [w] ∧ same_but_out d d') ∧
  ∀ k, (0 < k < length (request_events w ls))%nat →
    ∃ d', run (take k (request_events w ls)) d = Done d' ∧ state (out d') = BUSY.
Proof.
  intros [Hs _] Ha Hdel Hw Hls Ht h. destruct (so_available _ Hs Ha) as [Hm Hd].
  destruct (request_begins d w Hs Ha Hdel Hw) as (d1 & d2 & E1 & E2 & B1 & P2 & M2 & W2 & S2 & C2).
  fold h in M2. cbn [request_events run]. rewrite E1. cbn [mbind outcome_bind]. rewrite E2.
  assert (∀ k, (0 < k < length (request_events w ls))%nat → k = 1%nat ∨
    ∃ j, k = S (S j) ∧ (j < length ls)%nat) as Hk.
  { intros [|[|j]] Hj; [lia|by left|right]. exists j. split; [done|].
    unfold request_events, data_outs in Hj. cbn in Hj. rewrite length_map in Hj. lia. }
  destruct (Z.ltb_spec 0 (zlen (wr_payload w))) as [Hp|Hp].
  - destruct C2 as [Hsd Hro]. destruct (data_out_loop ls 0 d2) as [(d3 & E3 & J3 & A3 & P3 & M3 & W3) Hb];
      [done|done|rewrite Hro; lia|]. rewrite Hro in W3. split.
    + exists d3. split; [exact E3|]. destruct S2 as (? & ? & ?), J3 as (? & ? & ?).
      rewrite zdrop_0 in W3 by lia. unfold same_but_out. split_and!; congruence.
    + intros k Hkk. destruct (Hk k Hkk) as [->|(j & -> & Hj)].
      * exists d1. unfold request_events. cbn [take run]. by rewrite E1.
      * unfold request_events. cbn [take run]. rewrite E1. cbn [mbind outcome_bind]. rewrite E2. by apply Hb.
  - rewrite (zlen_0_inv (wr_payload w)) in Ht |- * by lia. change (zlen []) with 0 in Ht.
    assert (ls = []) as ->.
    { destruct Hls as [|a ls Ha' Hls]; [done|]. apply total_nonneg in Hls.
      unfold total in *. cbn in Ht. lia. }
    split; [exists d2; rewrite app_nil_r; by split_and!|].
    intros k Hkk. destruct (Hk k Hkk) as [->|(j & -> & Hj)]; [|cbn in Hj; lia].
    exists d1. unfold request_events. cbn [take run]. by rewrite E1.
Qed.

Lemma usb_request_sent_witness :
  ∃ d', run (request_events ex_w [2; 3]) ex_ready = Done d' ∧ state (out d') = AVAILABLE ∧
    wire_data (out d') = str "hello".
Proof.
  destruct (usb_request_sent ex_ready ex_w [2; 3]) as [(d' & H1 & H2 & _ & H3 & _) _].
  - split; constructor; vm_compute; try done; discriminate.
  - reflexivity.
  - reflexivity.
  - done.
  - repeat constructor; lia.
  - reflexivity.
  - exists d'. split; [exact H1|]. split; [exact H2|exact H3].
Defined.

(** a response is assembled exactly.  Whatever the vectors hold from responses before,
    the header, the payload in whatever pieces and the object ids become one dispatched
    response, its request is no longer pending, and the next header is asked for. *)
Theorem usb_response_assembled d m cs :
  safe_in (inp d) → tfer_meta_in (inp d) = true → message_ok m →
  client_id (m_header m) ≠ META_CLIENT → Forall (fun c => 0 < zlen c ≤ 65536) cs →
  concat cs = m_payload m →
  ∃ d', run (response_events m cs) d = Done d' ∧ delivered m d d'.
Proof.
  intros Hi Hmi Hm Hc Hcs Hcat. destruct (header_in d m Hi Hmi Hm) as (d1 & E1 & Hs1 & Hd1 & Hr1).
  unfold response_events. cbn [run]. rewrite E1.
  destruct (Z.ltb_spec 0 (payload_size (m_header m))) as [Hp|Hp]; rewrite <- (mok_payload _ Hm) in Hp.
  - cbn [mbind outcome_bind]. rewrite <- Hcat in *.
    apply (data_in_loop m cs 0); rewrite ?Z.sub_0_r, ?zdrop_0 by lia; try done.
    + destruct Hr1 as [R1 R2 R3 R4 R5 R6]. by constructor.
    + by rewrite <- Hcat.
    + unfold submit_data_in. cbn. rewrite (rc_payload _ _ _ Hr1). done.
  - assert (m_payload m = []) as Hnil by (apply zlen_0_inv; lia).
    assert (cs = []) as ->.
    { rewrite Hnil in Hcat. destruct Hcs as [|c cs [Hc0 _] _]; [done|]. cbn in Hcat.
      by apply app_eq_nil in Hcat as [-> _]. }
    apply (payload_in_done m d1 d); try done; try apply Hr1.
    pose proof (rc_payload _ _ _ Hr1) as E. rewrite Hnil in E |- *. apply zlen_0_inv. by rewrite E.
Qed.

Lemma usb_response_assembled_witness :
  ∃ d', run (response_events ex_m [str "a"; str "bc"]) ex_ready = Done d' ∧
    delivered ex_m ex_ready d'.
Proof.
  apply (usb_response_assembled ex_ready ex_m [str "a"; str "bc"]).
  - constructor; vm_compute; try done; discriminate.
  - reflexivity.
  - constructor; [constructor; cbn; lia|reflexivity|reflexivity|cbn; lia].
  - done.
  - repeat constructor; vm_compute; congruence.
  - reflexivity.
Defined.

(** the length of a header is not looked at.  When the transfer for the next header
    completes empty after a response without payload and objects, the response is
    dispatched a second time, to the same client and tag. *)
Theorem usb_empty_header_repeats d m :
  safe_in (inp d) → tfer_meta_in (inp d) = true → message_ok m →
  client_id (m_header m) ≠ META_CLIENT → m_payload m = [] → m_objects m = [] →
  ∃ d', run [EvMetaIn COMPLETED (encode_header (m_header m)) true; EvMetaIn COMPLETED [] true] d =
      Done d' ∧
    dispatched (inp d') = dispatched (inp d) ++ [(m_header m, [], []); (m_header m, [], [])].
Proof.
  intros Hi Hmi Hm Hc Hp Ho.
  destruct (response_without_data d m (encode_header (m_header m)) Hi Hmi Hm Hc Hp Ho)
    as (d1 & E1 & D1 & M1 & S1 & T1); [by rewrite overwrite_all by (rewrite (si_header _ Hi); zlia)|].
  destruct (response_without_data d1 m [] S1 T1 Hm Hc Hp Ho) as (d2 & E2 & D2 & _).
  { rewrite M1. unfold overwrite. by rewrite ztake_0, zdrop_0 by done. }
  exists d2. cbn [run]. rewrite E1. cbn [mbind outcome_bind]. rewrite E2. split; [done|].
  by rewrite D2, D1, <- app_assoc.
Qed.

Lemma usb_empty_header_repeats_witness :
  ∃ d', run [EvMetaIn COMPLETED (encode_header (m_header ex_empty)) true;
             EvMetaIn COMPLETED [] true] ex_ready = Done d' ∧
    dispatched (inp d') = [(m_header ex_empty, [], []); (m_header ex_empty, [], [])].
Proof.
  apply (usb_empty_header_repeats ex_ready ex_empty).
  - constructor; vm_compute; try done; discriminate.
  - reflexivity.
  - constructor; [constructor; cbn; lia|reflexivity|reflexivity|cbn; lia].
  - done.
  - reflexivity.
  - reflexivity.
Defined.
End UsbBackend.
