(* ===== verification/UsbkBackend.v ===== *)
(** * twib/daemon/USBKBackend.cpp: the same device with libusbK, and that it is the same

    The Windows backend keeps counters where the libusb one computes offsets back from
    buffer pointers, has one callback for both kinds of incoming data, and a [TransferMember]
    per endpoint that refuses to submit while a transfer is pending.  [related] relates the
    states of the two devices, and [usbk_equivalent_to_libusb] is that they do the same.  A
    transfer is compared by what the code asks for; the transfer of a response's object
    ids, which neither limits, is cut to an [int] there and to a [UINT] here. *)
From S2P Require Import Prelude Err Buffer Protocol Daemon UsbBackend.
Import Protocol.

Module UsbkBackend.
Import Daemon(WeakRequest, mk_WeakRequest, wr_client, wr_device, wr_object, wr_command, wr_tag,
  wr_payload).
Import UsbBackend(State, AVAILABLE, BUSY, in_transfer, Payload, Objects).

(** What [ReadPipe] and [WritePipe] say: done at once, pending, or failed. *)
Inductive submission : Type := Instantly | IoPending | SubmitFails.

(** A [TransferMember]: [in_flight] is what was submitted and has not been signalled. *)
Record member (A : Type) : Type := mk_member {
  is_active : bool;
  in_flight : option A }.
Arguments mk_member {A}.
Arguments is_active {A}.
Arguments in_flight {A}.

Record t : Type := mk {
  state : State;
  transferring_meta : bool;
  transferring_data : bool;
  mhdr : MessageHeader;
  request_out : WeakRequest;
  data_out_transferred : Z;
  member_meta_out : member unit;
  member_data_out : member (Z * Z);
  wire_meta : bytes;
  wire_data : bytes;
  mhdr_in : bytes;
  payload_in : bytes;
  object_ids_in : bytes;
  data_in_transferred : Z;
  member_meta_in : member unit;
  member_data_in : member in_transfer;
  dispatched : list (MessageHeader * bytes * list Z);
  pending_requests : list WeakRequest;
  deletion_flag : bool;
  ready_flag : bool }.

(** ** Updates of the members one operation changes *)

Definition set_request (k : t) (h : MessageHeader) (w : WeakRequest) : t :=
  mk BUSY (transferring_meta k) (transferring_data k) h w (data_out_transferred k)
    (member_meta_out k) (member_data_out k) (wire_meta k) (wire_data k) (mhdr_in k) (payload_in k)
    (object_ids_in k) (data_in_transferred k) (member_meta_in k) (member_data_in k)
    (dispatched k) (pending_requests k ++ [w]) (deletion_flag k) (ready_flag k).
Definition set_flags (k : t) (s : State) (tm td : bool) (n : Z) : t :=
  mk s tm td (mhdr k) (request_out k) n
    (member_meta_out k) (member_data_out k) (wire_meta k) (wire_data k) (mhdr_in k) (payload_in k)
    (object_ids_in k) (data_in_transferred k) (member_meta_in k) (member_data_in k)
    (dispatched k) (pending_requests k) (deletion_flag k) (ready_flag k).
Definition set_meta_out (k : t) (m : member unit) (wire : bytes) : t :=
  mk (state k) (transferring_meta k) (transferring_data k) (mhdr k) (request_out k)
    (data_out_transferred k) m (member_data_out k) wire (wire_data k) (mhdr_in k) (payload_in k)
    (object_ids_in k) (data_in_transferred k) (member_meta_in k) (member_data_in k)
    (dispatched k) (pending_requests k) (deletion_flag k) (ready_flag k).
Definition set_data_out (k : t) (m : member (Z * Z)) (wire : bytes) : t :=
  mk (state k) (transferring_meta k) (transferring_data k) (mhdr k) (request_out k)
    (data_out_transferred k) (member_meta_out k) m (wire_meta k) wire (mhdr_in k) (payload_in k)
    (object_ids_in k) (data_in_transferred k) (member_meta_in k) (member_data_in k)
    (dispatched k) (pending_requests k) (deletion_flag k) (ready_flag k).
Definition set_meta_in (k : t) (m : member unit) (h : bytes) : t :=
  mk (state k) (transferring_meta k) (transferring_data k) (mhdr k) (request_out k)
    (data_out_transferred k) (member_meta_out k) (member_data_out k) (wire_meta k) (wire_data k) h
    (payload_in k) (object_ids_in k) (data_in_transferred k) m (member_data_in k)
    (dispatched k) (pending_requests k) (deletion_flag k) (ready_flag k).
Definition set_data_in (k : t) (m : member in_transfer) (p ids : bytes) (n : Z) : t :=
  mk (state k) (transferring_meta k) (transferring_data k) (mhdr k) (request_out k)
    (data_out_transferred k) (member_meta_out k) (member_data_out k) (wire_meta k) (wire_data k)
    (mhdr_in k) p ids n (member_meta_in k) m
    (dispatched k) (pending_requests k) (deletion_flag k) (ready_flag k).
Definition set_dispatched (k : t) (l : list (MessageHeader * bytes * list Z)) (p : list WeakRequest) : t :=
  mk (state k) (transferring_meta k) (transferring_data k) (mhdr k) (request_out k)
    (data_out_transferred k) (member_meta_out k) (member_data_out k) (wire_meta k) (wire_data k)
    (mhdr_in k) (payload_in k) (object_ids_in k) (data_in_transferred k) (member_meta_in k)
    (member_data_in k) l p (deletion_flag k) (ready_flag k).
Definition set_end (k : t) (del ready : bool) : t :=
  mk (state k) (transferring_meta k) (transferring_data k) (mhdr k) (request_out k)
    (data_out_transferred k) (member_meta_out k) (member_data_out k) (wire_meta k) (wire_data k)
    (mhdr_in k) (payload_in k) (object_ids_in k) (data_in_transferred k) (member_meta_in k)
    (member_data_in k) (dispatched k) (pending_requests k) del ready.

(** ** Device *)

Definition Kill (k : t) : t := set_end k true (ready_flag k).

(** [TransferMember::Submit]: the member, and whether the device is to be killed. *)
Definition Submit {A} (x : A) (r : submission) (m : member A) : member A * bool :=
  if is_active m then (m, false)
  else match r with
       | Instantly => (mk_member (is_active m) (Some x), false)
       | IoPending => (mk_member true (Some x), false)
       | SubmitFails => (m, true)
       end.
Definition kill_if (b : bool) (k : t) : t := if b then Kill k else k.

Definition submit_meta_out (r : submission) (k : t) : t :=
  let '(m, b) := Submit tt r (member_meta_out k) in kill_if b (set_meta_out k m (wire_meta k)).
Definition submit_data_out (off len : Z) (r : submission) (k : t) : t :=
  let '(m, b) := Submit (off, len) r (member_data_out k) in kill_if b (set_data_out k m (wire_data k)).
Definition submit_meta_in (r : submission) (k : t) : t :=
  let '(m, b) := Submit tt r (member_meta_in k) in kill_if b (set_meta_in k m (mhdr_in k)).
Definition submit_data_in (x : in_transfer) (r : submission) (k : t) : t :=
  let '(m, b) := Submit x r (member_data_in k) in
  kill_if b (set_data_in k m (payload_in k) (object_ids_in k) (data_in_transferred k)).

Definition LimitTransferSize (sz : Z) : Z := let max_size := 65536 in
  if max_size <? sz then max_size else sz.

Definition SendRequest (w : WeakRequest) (r : submission) (k : t) : t :=
  if deletion_flag k then k
  else
    let h := mkHeader (wr_client w) (wr_object w) (wr_command w) (wr_tag w)
               (zlen (wr_payload w)) 0 (pad (mhdr k)) in
    let k := submit_meta_out r (set_request k h w) in
    set_flags k (state k) true false (data_out_transferred k).

Definition enter_available (k : t) : t :=
  if negb (transferring_meta k) && negb (transferring_data k)
  then set_flags k AVAILABLE false false (data_out_transferred k) else k.

Definition MetaOutTransferCompleted (r : submission) (k : t) : t :=
  let p := wr_payload (request_out k) in
  let k := if 0 <? zlen p then
      let k := set_flags k (state k) (transferring_meta k) (transferring_data k) 0 in
      let k := submit_data_out 0 (LimitTransferSize (zlen p)) r k in
      set_flags k (state k) (transferring_meta k) true (data_out_transferred k)
    else k in
  enter_available (set_flags k (state k) false (transferring_data k) (data_out_transferred k)).

Definition DataOutTransferCompleted (size : Z) (r : submission) (k : t) : t :=
  let n := u64 (data_out_transferred k + size) in
  let k := set_flags k (state k) (transferring_meta k) (transferring_data k) n in
  let remaining := u64 (payload_size (mhdr k) - n) in
  if 0 <? remaining then submit_data_out n (LimitTransferSize remaining) r k
  else enter_available (set_flags k (state k) (transferring_meta k) false n).

Definition Identified (result : Z) (payload : bytes) (k : t) : outcome t :=
  if negb (result =? 0) then Done (Kill k)
  else if zlen payload <? 8 then Undefined
  else Done (set_end k (deletion_flag k) true).

Definition DispatchResponse (r : submission) (k : t) : outcome t :=
  let h := decode_header (mhdr_in k) in
  let k := set_dispatched k
    (dispatched k ++ [(h, payload_in k, decode_u32s (object_count h) (object_ids_in k))])
    (List.filter (fun w => negb (wr_tag w =? tag h)) (pending_requests k)) in
  k ← (if client_id h =? META_CLIENT then Identified (result_code h) (payload_in k) k
       else Done k);
  Done (submit_meta_in r k).

Definition MetaInTransferCompleted (r : submission) (k : t) : outcome t :=
  let h := decode_header (mhdr_in k) in
  p ← Buffer.vector_resize (payload_in k) (payload_size h);
  ids ← Buffer.vector_resize (object_ids_in k) (4 * object_count h);
  let k := set_data_in k (member_data_in k) p ids 0 in
  if 0 <? payload_size h then
    Done (submit_data_in (Payload 0 (LimitTransferSize (zlen p))) r k)
  else if 0 <? object_count h then Done (submit_data_in (Objects (zlen ids)) r k)
  else DispatchResponse r k.

Definition DataInTransferCompleted (size : Z) (r : submission) (k : t) : outcome t :=
  let h := decode_header (mhdr_in k) in
  if data_in_transferred k <? payload_size h then
    let n := u64 (data_in_transferred k + size) in
    let k := set_data_in k (member_data_in k) (payload_in k) (object_ids_in k) n in
    let remaining := u64 (payload_size h - n) in
    if 0 <? remaining then Done (submit_data_in (Payload n (LimitTransferSize remaining)) r k)
    else if 0 <? object_count h then Done (submit_data_in (Objects (zlen (object_ids_in k))) r k)
    else DispatchResponse r k
  else if negb (size =? zlen (object_ids_in k)) then Done (Kill k)
  else DispatchResponse r k.

(** ** [TransferMember::Signal]: a transfer that has succeeded, or the device's end *)

Inductive endpoint : Type := MetaOut | DataOut | MetaIn | DataIn.

Inductive event : Type :=
| EvSend (w : WeakRequest) (r : submission)
| EvMetaOut (size : Z) (r : submission)
| EvDataOut (size : Z) (r : submission)
| EvMetaIn (data : bytes) (r : submission)
| EvDataIn (data : bytes) (r : submission)
| EvFailure (ep : endpoint).

Definition landed (x : in_transfer) (data : bytes) (k : t) : t :=
  match x with
  | Payload off _ => set_data_in k (mk_member false None) (overwrite (payload_in k) off data)
                       (object_ids_in k) (data_in_transferred k)
  | Objects _ => set_data_in k (mk_member false None) (payload_in k)
                   (overwrite (object_ids_in k) 0 data) (data_in_transferred k)
  end.

Definition handle (e : event) (k : t) : outcome t :=
  match e with
  | EvSend w r => Done (SendRequest w r k)
  | EvMetaOut n r =>
      Done (MetaOutTransferCompleted r (set_meta_out k (mk_member false None)
        (wire_meta k ++ ztake n (encode_header (mhdr k)))))
  | EvDataOut n r =>
      match in_flight (member_data_out k) with
      | None => Done k
      | Some (off, _) =>
          Done (DataOutTransferCompleted n r (set_data_out k (mk_member false None)
            (wire_data k ++ ztake n (zdrop off (wr_payload (request_out k))))))
      end
  | EvMetaIn data r =>
      MetaInTransferCompleted r (set_meta_in k (mk_member false None) (overwrite (mhdr_in k) 0 data))
  | EvDataIn data r =>
      match in_flight (member_data_in k) with
      | None => Done k
      | Some x => DataInTransferCompleted (zlen data) r (landed x data k)
      end
  | EvFailure _ => Done (Kill k)
  end.

Fixpoint run (es : list event) (k : t) : outcome t :=
  match es with
  | [] => Done k
  | e :: es => k ← handle e k; run es k
  end.

Definition init (h : MessageHeader) (memory : bytes) (tm td : bool) (n1 n2 : Z) : t :=
  mk AVAILABLE tm td h (mk_WeakRequest 0 0 0 0 0 []) n1 (mk_member false None) (mk_member false None)
    [] [] memory [] [] n2 (mk_member false None) (mk_member false None) [] [] false false.
Definition Begin (r_in r_out : submission) (k : t) : t :=
  SendRequest (mk_WeakRequest META_CLIENT 0 0 (ITwibDeviceInterface_Command IDENTIFY) META_CLIENT [])
    r_out (submit_meta_in r_in k).

(** [USBKBackend::DetectDevice]'s test of a device's vendor and product. *)
Definition DetectDevice (vendor product debugger_vendor debugger_product : Z) (accept : bool)
    (vid pid : Z) : bool :=
  ((vid =? vendor) && (pid =? product)) ||
  (accept && (vid =? debugger_product) && (pid =? debugger_vendor)).
(** [USBBackend::Probe]'s. *)
Definition Probe_accepts (vendor product debugger_vendor debugger_product : Z) (accept : bool)
    (vid pid : Z) : bool :=
  ((vid =? vendor) && (pid =? product)) ||
  (accept && (vid =? debugger_vendor) && (pid =? debugger_product)).

(** ** Specification *)

(** The same thing happening to a libusb device. *)
Definition ok_of (r : submission) : bool := match r with SubmitFails => false | _ => true end.
Definition to_libusb (e : event) : UsbBackend.event :=
  match e with
  | EvSend w r => UsbBackend.EvSend w (ok_of r)
  | EvMetaOut n r => UsbBackend.EvMetaOut UsbBackend.COMPLETED n (ok_of r)
  | EvDataOut n r => UsbBackend.EvDataOut UsbBackend.COMPLETED n (ok_of r)
  | EvMetaIn data r => UsbBackend.EvMetaIn UsbBackend.COMPLETED data (ok_of r)
  | EvDataIn data r => UsbBackend.EvDataIn UsbBackend.COMPLETED data (ok_of r)
  | EvFailure MetaOut => UsbBackend.EvMetaOut UsbBackend.FAILED 0 true
  | EvFailure DataOut => UsbBackend.EvDataOut UsbBackend.FAILED 0 true
  | EvFailure MetaIn => UsbBackend.EvMetaIn UsbBackend.FAILED [] true
  | EvFailure DataIn => UsbBackend.EvDataIn UsbBackend.FAILED [] true
  end.

(** What the daemon and the device on the other side of the cable see. *)
Record same_observables (d : UsbBackend.t) (k : t) : Prop := {
  ob_meta : wire_meta k = UsbBackend.wire_meta (UsbBackend.out d);
  ob_data : wire_data k = UsbBackend.wire_data (UsbBackend.out d);
  ob_dispatched : dispatched k = UsbBackend.dispatched (UsbBackend.inp d);
  ob_pending : pending_requests k = UsbBackend.pending_requests d;
  ob_deletion : deletion_flag k = UsbBackend.deletion_flag d;
  ob_ready : ready_flag k = UsbBackend.ready_flag d }.

Definition busy_member {A} (m : member A) : Prop := is_active m = true → in_flight m ≠ None.

Record same_out (o : UsbBackend.sender) (k : t) : Prop := {
  so_state : state k = UsbBackend.state o;
  so_flags : state k = BUSY → transferring_meta k = UsbBackend.transferring_meta o ∧
    transferring_data k = UsbBackend.transferring_data o;
  so_mhdr : mhdr k = UsbBackend.mhdr o;
  so_request : request_out k = UsbBackend.request_out o;
  so_meta : in_flight (member_meta_out k) = if UsbBackend.tfer_meta_out o then Some tt else None;
  so_data : in_flight (member_data_out k) = UsbBackend.tfer_data_out o;
  so_count : ∀ off len, UsbBackend.tfer_data_out o = Some (off, len) → data_out_transferred k = off;
  so_active : busy_member (member_meta_out k) ∧ busy_member (member_data_out k) }.

Record same_in (i : UsbBackend.receiver) (k : t) : Prop := {
  si_header : mhdr_in k = UsbBackend.mhdr_in i;
  si_payload : payload_in k = UsbBackend.payload_in i;
  si_ids : object_ids_in k = UsbBackend.object_ids_in i;
  si_meta : in_flight (member_meta_in k) = if UsbBackend.tfer_meta_in i then Some tt else None;
  si_data : in_flight (member_data_in k) = UsbBackend.tfer_data_in i;
  si_count : ∀ x, UsbBackend.tfer_data_in i = Some x → data_in_transferred k =
    match x with
    | Payload off _ => off
    | Objects _ => payload_size (decode_header (UsbBackend.mhdr_in i))
    end;
  si_active : busy_member (member_meta_in k) ∧ busy_member (member_data_in k) }.

Record related (d : UsbBackend.t) (k : t) : Prop := {
  re_observables : same_observables d k;
  re_out : same_out (UsbBackend.out d) k;
  re_in : same_in (UsbBackend.inp d) k }.

(** Two outcomes agree: both return, with devices that look the same and, while they
    are not to be deleted, are in related states; or both fail in the same way. *)
Definition agree (o : outcome UsbBackend.t) (o' : outcome t) : Prop :=
  match o, o' with
  | Done d, Done k => same_observables d k ∧ (deletion_flag k = false → related d k)
  | Throws e, Throws e' => e = e'
  | Undefined, Undefined => True
  | _, _ => False
  end.

(** The events can happen one after the other, to a device that is not to be deleted. *)
Fixpoint lives (es : list event) (d : UsbBackend.t) : Prop :=
  match es with
  | [] => True
  | e :: es => UsbBackend.deletion_flag d = false ∧ UsbBackend.enabled (to_libusb e) d ∧
      ∀ d', UsbBackend.handle (to_libusb e) d = Done d' → lives es d'
  end.

(** ** Lemmas *)

Lemma Submit_free {A} (x : A) r (m : member A) :
  busy_member m → in_flight m = None →
  Submit x r m = match r with
    | Instantly => (mk_member false (Some x), false)
    | IoPending => (mk_member true (Some x), false)
    | SubmitFails => (m, true)
    end.
Proof.
  intros Hb Hn. unfold Submit, busy_member in *. destruct (is_active m) eqn:E; [by destruct Hb|].
  by destruct r.
Qed.

Lemma related_agree d k : related d k → agree (Done d) (Done k).
Proof. intros H. split; [apply H|done]. Qed.

Lemma resubmit_related r d k :
  related d k → UsbBackend.tfer_meta_in (UsbBackend.inp d) = false →
  UsbBackend.tfer_data_in (UsbBackend.inp d) = None →
  related (UsbBackend.ResubmitMetaInTransfer (ok_of r) d) (submit_meta_in r k).
Proof.
  intros [[O1 O2 O3 O4 O5 O6] [S1 S2 S3 S4 S5 S6 S7 S8] [I1 I2 I3 I4 I5 I6 [I7 I8]]] Hm Hd.
  unfold submit_meta_in. rewrite Hm in I4. rewrite (Submit_free tt r (member_meta_in k)) by done.
  destruct r; constructor; constructor; cbn; rewrite ?Hm; try done; split; done.
Qed.

Lemma submit_data_in_related x r d k :
  related d k → UsbBackend.tfer_data_in (UsbBackend.inp d) = None →
  data_in_transferred k = match x with
    | Payload off _ => off
    | Objects _ => payload_size (decode_header (UsbBackend.mhdr_in (UsbBackend.inp d)))
    end →
  related (UsbBackend.submit_data_in x (ok_of r) d) (submit_data_in x r k).
Proof.
  intros [[O1 O2 O3 O4 O5 O6] [S1 S2 S3 S4 S5 S6 S7 S8] [I1 I2 I3 I4 I5 I6 [I7 I8]]] Hd Hx.
  unfold submit_data_in. rewrite Hd in I5. rewrite (Submit_free x r (member_data_in k)) by done.
  destruct r; constructor; constructor; cbn; rewrite ?Hd; try done; try (by split);
    intros y [= <-]; done.
Qed.

Lemma submit_data_out_related off len r d k :
  related d k → UsbBackend.tfer_data_out (UsbBackend.out d) = None →
  data_out_transferred k = off → transferring_data k = true →
  related (UsbBackend.kill_unless (ok_of r) (UsbBackend.set_out d
             (UsbBackend.submit_data_out (UsbBackend.out d) off len (ok_of r))))
    (submit_data_out off len r k).
Proof.
  intros [[O1 O2 O3 O4 O5 O6] [S1 S2 S3 S4 S5 S6 S7 [S8 S9]] [I1 I2 I3 I4 I5 I6 [I7 I8]]] Hd Hn Ht.
  unfold submit_data_out. rewrite Hd in S6. rewrite (Submit_free (off, len) r (member_data_out k)) by done.
  destruct r; constructor; constructor; cbn; rewrite ?Hd; try done; try (by split);
    try (intros off' len' [= <- <-]; done); intros Hb; destruct (S2 Hb); split; done.
Qed.

Lemma enter_available_related d k :
  related d k → state k = BUSY →
  related (UsbBackend.set_out d (UsbBackend.enter_available (UsbBackend.out d))) (enter_available k).
Proof.
  intros [[O1 O2 O3 O4 O5 O6] [S1 S2 S3 S4 S5 S6 S7 [S8 S9]] [I1 I2 I3 I4 I5 I6 [I7 I8]]] Hb.
  destruct (S2 Hb) as [F1 F2]. unfold enter_available, UsbBackend.enter_available. rewrite F1, F2.
  destruct (_ && _); constructor; constructor; cbn; done.
Qed.

(** Dispatching, and asking for the next header. *)
Lemma dispatch_agree r d k :
  related d k → UsbBackend.tfer_meta_in (UsbBackend.inp d) = false →
  UsbBackend.tfer_data_in (UsbBackend.inp d) = None →
  agree (UsbBackend.DispatchResponse (ok_of r) d) (DispatchResponse r k).
Proof.
  intros [[O1 O2 O3 O4 O5 O6] [S1 S2 S3 S4 S5 S6 S7 S8] [I1 I2 I3 I4 I5 I6 I7]] Hm Hd.
  unfold DispatchResponse, UsbBackend.DispatchResponse. rewrite I1, I2, I3, O3, O4.
  set (h := decode_header _). set (k1 := set_dispatched k _ _). set (d1 := UsbBackend.set_pending _ _).
  assert (related d1 k1) as Hr by (constructor; constructor; cbn; done).
  destruct (client_id h =? META_CLIENT);
    [|apply related_agree, resubmit_related; [|done..]; constructor; constructor; cbn; done].
  unfold Identified, UsbBackend.Identified. destruct Hr as [Ro Rs Ri].
  destruct (negb (result_code h =? 0)); [|cbn [UsbBackend.payload_in]; replace (payload_in k1) with (UsbBackend.payload_in (UsbBackend.inp d)) by done; destruct (_ <? 8); [done|]];
    apply related_agree, resubmit_related; try done; constructor; try done;
    destruct Ro as [P1 P2 P3 P4 P5 P6]; by constructor.
Qed.

Lemma send_agree w r d k :
  UsbBackend.safe d → related d k → UsbBackend.deletion_flag d = false →
  UsbBackend.state (UsbBackend.out d) = AVAILABLE →
  related (UsbBackend.SendRequest w (ok_of r) d) (SendRequest w r k).
Proof.
  intros [Hs _] [[O1 O2 O3 O4 O5 O6] [S1 S2 S3 S4 S5 S6 S7 [S8 S9]] [I1 I2 I3 I4 I5 I6 [I7 I8]]] Hdel Ha.
  unfold SendRequest, UsbBackend.SendRequest. rewrite O5, Hdel.
  destruct (UsbBackend.so_available _ Hs Ha) as [Hm Hd].
  assert (UsbBackend.tfer_meta_out (UsbBackend.out d) = false) as Ht.
  { destruct (UsbBackend.tfer_meta_out _) eqn:E; [|done].
    destruct (UsbBackend.so_meta _ Hs E). congruence. }
  rewrite Ht in S5. unfold submit_meta_out. cbn [member_meta_out set_request].
  rewrite (Submit_free tt r (member_meta_out k)) by done. rewrite S3.
  destruct r; constructor; constructor; cbn; rewrite ?O4, ?Ht; try done; by split.
Qed.

Lemma meta_out_agree n r d k :
  UsbBackend.safe d → related d k → UsbBackend.deletion_flag d = false →
  UsbBackend.enabled (to_libusb (EvMetaOut n r)) d →
  agree (UsbBackend.handle (to_libusb (EvMetaOut n r)) d) (handle (EvMetaOut n r) k).
Proof.
  intros [Hs _] [[O1 O2 O3 O4 O5 O6] [S1 S2 S3 S4 S5 S6 S7 [S8 S9]] [I1 I2 I3 I4 I5 I6 [I7 I8]]] Hdel [He _].
  destruct (UsbBackend.so_meta _ Hs He) as [Hm Hd].
  assert (UsbBackend.state (UsbBackend.out d) = BUSY) as Hb by (apply UsbBackend.busy_of_flags; auto).
  destruct (S2 ltac:(congruence)) as [F1 F2].
  assert (UsbBackend.tfer_data_out (UsbBackend.out d) = None) as Hn.
  { destruct (UsbBackend.tfer_data_out (UsbBackend.out d)) as [[off len]|] eqn:E; [|done].
    destruct (UsbBackend.so_data _ Hs off len E). congruence. }
  cbn [to_libusb UsbBackend.handle handle UsbBackend.CheckTransfer].
  unfold MetaOutTransferCompleted, UsbBackend.MetaOutTransferCompleted.
  cbn [set_meta_out request_out UsbBackend.set_out UsbBackend.out UsbBackend.meta_out_done
    UsbBackend.request_out]. rewrite S4. set (p := wr_payload _).
  destruct (0 <? zlen p).
  - unfold submit_data_out. cbn [member_data_out set_flags]. rewrite Hn in S6.
    cbn [set_meta_out member_data_out]. rewrite (Submit_free (0, _) r (member_data_out k)) by done.
    unfold enter_available, UsbBackend.enter_available. destruct r; cbn -[agree]; rewrite ?F1, ?F2; cbn -[agree].
    3: { split; [constructor; cbn; by rewrite ?O1, ?S3|done]. }
    all: apply related_agree; constructor; constructor; cbn; rewrite ?O1, ?S3; try done; try (by split);
      by intros off len [= <- <-].
  - unfold enter_available, UsbBackend.enter_available. cbn -[agree]. rewrite F2, Hd. cbn -[agree].
    apply related_agree. constructor; constructor; cbn; rewrite ?O1, ?S3; done.
Qed.

Lemma data_out_agree n r d k :
  UsbBackend.safe d → related d k →
  UsbBackend.enabled (to_libusb (EvDataOut n r)) d →
  agree (UsbBackend.handle (to_libusb (EvDataOut n r)) d) (handle (EvDataOut n r) k).
Proof.
  intros [Hs _] [[O1 O2 O3 O4 O5 O6] [S1 S2 S3 S4 S5 S6 S7 [S8 S9]] [I1 I2 I3 I4 I5 I6 [I7 I8]]]
    (off & len & E & Hn).
  destruct (UsbBackend.so_data _ Hs off len E) as (Hm & Hd & _).
  assert (UsbBackend.state (UsbBackend.out d) = BUSY) as Hb by (apply UsbBackend.busy_of_flags; auto).
  destruct (S2 ltac:(congruence)) as [F1 F2].
  cbn [to_libusb UsbBackend.handle handle UsbBackend.CheckTransfer]. rewrite S6, E.
  unfold DataOutTransferCompleted, UsbBackend.DataOutTransferCompleted.
  cbn [set_data_out data_out_transferred set_flags mhdr UsbBackend.set_out UsbBackend.out
    UsbBackend.data_out_done UsbBackend.mhdr]. rewrite (S7 off len E), S3, S4, O2.
  set (m := u64 (off + n)). set (k1 := set_flags _ _ _ _ _). set (d1 := UsbBackend.set_out d _).
  assert (related d1 k1) as Hr by (constructor; constructor; cbn; rewrite ?F1, ?F2; done).
  destruct (0 <? _); apply related_agree.
  - apply submit_data_out_related; try done. cbn. by rewrite F2.
  - apply (enter_available_related (UsbBackend.set_out d (UsbBackend.end_data (UsbBackend.out d1))));
      [|cbn; congruence].
    destruct Hr as [[P1 P2 P3 P4 P5 P6] [Q1 Q2 Q3 Q4 Q5 Q6 Q7 Q8] [R1 R2 R3 R4 R5 R6 R7]].
    constructor; constructor; cbn; done.
Qed.

Lemma vector_resize_cases l n :
  (∃ l', Buffer.vector_resize l n = Done l') ∨ Buffer.vector_resize l n = Throws length_error.
Proof. unfold Buffer.vector_resize. destruct (_ <? _); [by right|left; by eexists]. Qed.

Lemma meta_in_agree data r d k :
  UsbBackend.safe d → related d k →
  UsbBackend.enabled (to_libusb (EvMetaIn data r)) d →
  agree (UsbBackend.handle (to_libusb (EvMetaIn data r)) d) (handle (EvMetaIn data r) k).
Proof.
  intros [_ Hs] [[O1 O2 O3 O4 O5 O6] [S1 S2 S3 S4 S5 S6 S7 S8] [I1 I2 I3 I4 I5 I6 [I7 I8]]] [He _].
  pose proof (UsbBackend.si_meta _ Hs He) as Hd.
  cbn [to_libusb UsbBackend.handle handle UsbBackend.CheckTransfer].
  unfold MetaInTransferCompleted, UsbBackend.MetaInTransferCompleted.
  cbn [set_meta_in mhdr_in payload_in object_ids_in UsbBackend.set_inp UsbBackend.inp
    UsbBackend.meta_in_done UsbBackend.mhdr_in UsbBackend.payload_in UsbBackend.object_ids_in].
  rewrite I1, I2, I3. set (hb := overwrite _ 0 data).
  pose proof (decode_header_ok hb) as [_ _ _ _ Hp _ _].
  set (h := decode_header hb) in *.
  destruct (vector_resize_cases (UsbBackend.payload_in (UsbBackend.inp d)) (payload_size h))
    as [[p ->]| ->]; [|done].
  destruct (vector_resize_cases (UsbBackend.object_ids_in (UsbBackend.inp d)) (4 * object_count h))
    as [[ids ->]| ->]; [|done].
  cbn [mbind outcome_bind]. set (k1 := set_data_in _ _ _ _ _). set (d1 := UsbBackend.set_inp _ _).
  assert (related d1 k1) as Hr.
  { constructor; constructor; cbn; rewrite ?Hd; try done. congruence. }
  destruct (0 <? payload_size h) eqn:E1; [by apply related_agree, submit_data_in_related|].
  destruct (0 <? object_count h) eqn:E2; [|by apply dispatch_agree].
  apply related_agree, submit_data_in_related; try done. cbn. fold h.
  apply Z.ltb_ge in E1. change (0 = payload_size h). lia.
Qed.

Lemma data_in_agree data r d k :
  UsbBackend.safe d → related d k →
  UsbBackend.enabled (to_libusb (EvDataIn data r)) d →
  agree (UsbBackend.handle (to_libusb (EvDataIn data r)) d) (handle (EvDataIn data r) k).
Proof.
  intros [_ Hs] [[O1 O2 O3 O4 O5 O6] [S1 S2 S3 S4 S5 S6 S7 S8] [I1 I2 I3 I4 I5 I6 [I7 I8]]] (x & E & Hlen).
  destruct (UsbBackend.si_data _ Hs x E) as (Hm & (Z1 & Z2 & Z3) & Hx). pose proof (I6 x E) as Hc.
  pose proof (zlen_nonneg data).
  assert (zlen data ≤ UsbBackend.asked x) as Hlen'.
  { etransitivity; [exact Hlen|]. apply UsbBackend.len_of_asked.
    destruct x; cbn; unfold UsbBackend.piece in *; lia. }
  clear Hlen. rename Hlen' into Hlen.
  cbn [to_libusb UsbBackend.handle handle UsbBackend.CheckTransfer]. rewrite I5, E.
  set (k1 := landed x data k). set (d1 := UsbBackend.set_inp d _).
  assert (related d1 k1) as Hr by (destruct x; constructor; constructor; cbn; rewrite ?I1, ?I2, ?I3; done).
  assert (mhdr_in k1 = UsbBackend.mhdr_in (UsbBackend.inp d) ∧ data_in_transferred k1 = data_in_transferred k
    ∧ UsbBackend.mhdr_in (UsbBackend.inp d1) = UsbBackend.mhdr_in (UsbBackend.inp d)
    ∧ UsbBackend.tfer_meta_in (UsbBackend.inp d1) = false ∧ UsbBackend.tfer_data_in (UsbBackend.inp d1) = None)
    as (K1 & K2 & K3 & K4 & K5) by (destruct x; cbn; by split_and!).
  unfold DataInTransferCompleted. rewrite K1, K2, Hc. set (h := decode_header _) in *.
  destruct x as [off len|len].
  - destruct Hx as (? & ? & ?). rewrite (proj2 (Z.ltb_lt off _)) by lia.
    unfold UsbBackend.DataInTransferCompleted. rewrite K3. fold h.
    set (m := u64 (off + zlen data)). set (k2 := set_data_in k1 _ _ _ m).
    assert (related d1 k2) as Hr2.
    { destruct Hr as [[P1 P2 P3 P4 P5 P6] [Q1 Q2 Q3 Q4 Q5 Q6 Q7 Q8] [R1 R2 R3 R4 R5 R6 R7]].
      constructor; constructor; cbn; done. }
    destruct (Z.ltb_spec 0 (u64 (payload_size h - m))) as [Hpos|Hend];
      [by apply related_agree, submit_data_in_related|].
    destruct (0 <? object_count h); [|by apply dispatch_agree].
    assert (zlen (object_ids_in k2) = zlen (UsbBackend.object_ids_in (UsbBackend.inp d1))) as ->
      by (by rewrite (si_ids _ _ (re_in _ _ Hr2))).
    apply related_agree, submit_data_in_related; try done. rewrite K3. fold h. cbn.
    change (m = payload_size h). subst m. cbn [UsbBackend.asked] in Hlen.
    rewrite (u64_small (off + zlen data)) in * by lia. rewrite u64_small in Hend by lia. lia.
  - rewrite (proj2 (Z.ltb_ge _ _)) by lia. unfold UsbBackend.ObjectInTransferCompleted.
    rewrite K3. fold h. assert (zlen (object_ids_in k1) = 4 * object_count h) as ->.
    { subst k1. cbn [landed set_data_in object_ids_in]. rewrite I3. cbn [UsbBackend.asked] in Hlen. destruct Hx as [? ->].
      rewrite zlen_overwrite; lia. }
    pose proof (decode_header_ok (UsbBackend.mhdr_in (UsbBackend.inp d))) as [_ _ _ _ _ Hcount _].
    fold h in Hcount. rewrite (Z.mul_comm 4), u64_small by lia.
    destruct (negb _); [|by apply dispatch_agree].
    destruct Hr as [[P1 P2 P3 P4 P5 P6] _ _]. split; [by constructor|done].
Qed.

Lemma failure_agree ep d k :
  related d k → UsbBackend.enabled (to_libusb (EvFailure ep)) d →
  agree (UsbBackend.handle (to_libusb (EvFailure ep)) d) (handle (EvFailure ep) k).
Proof.
  intros [[O1 O2 O3 O4 O5 O6] _ _] He.
  destruct ep; cbn [to_libusb UsbBackend.handle handle UsbBackend.CheckTransfer];
    [|destruct He as (off & len & -> & _)| |destruct He as (x & -> & _)];
    (split; [|done]); constructor; try done; cbn.
  - by rewrite ztake_0, app_nil_r.
  - by rewrite ztake_0, app_nil_r.
  - by destruct x.
Qed.

Lemma step_agree e d k :
  UsbBackend.safe d → related d k → UsbBackend.deletion_flag d = false →
  UsbBackend.enabled (to_libusb e) d →
  agree (UsbBackend.handle (to_libusb e) d) (handle e k).
Proof.
  intros Hs Hr Hdel He. destruct e as [w r|n r|n r|data r|data r|ep].
  - destruct He as [[Ha|] _]; [|congruence]. by apply related_agree, send_agree.
  - by apply meta_out_agree.
  - by apply data_out_agree.
  - by apply meta_in_agree.
  - by apply data_in_agree.
  - by apply failure_agree.
Qed.

Lemma begin_related h memory tm td n1 n2 r_in r_out :
  related (UsbBackend.Begin (ok_of r_in) (ok_of r_out) (UsbBackend.init h memory))
    (Begin r_in r_out (init h memory tm td n1 n2)).
Proof.
  assert (related (UsbBackend.init h memory) (init h memory tm td n1 n2)) as Hr
    by (constructor; constructor; cbn; try done; by split).
  destruct r_in; constructor; constructor; destruct r_out; cbn; try done; by split.
Qed.

Lemma run_agree es d k :
  UsbBackend.safe d → related d k → lives es d →
  agree (UsbBackend.run (map to_libusb es) d) (run es k).
Proof.
  revert d k. induction es as [|e es IH]; intros d k Hs Hr Hl; [by apply related_agree|].
  destruct Hl as (Hdel & He & Hl). pose proof (step_agree e d k Hs Hr Hdel He) as Ha.
  cbn [map UsbBackend.run run].
  destruct (UsbBackend.handle (to_libusb e) d) as [d1| | | |] eqn:Ed, (handle e k) as [k1| | | |]; try done.
  cbn [mbind outcome_bind]. destruct Ha as [Ho Hrel]. specialize (Hl d1 eq_refl).
  pose proof (UsbBackend.handle_safe _ _ _ Hs He Ed) as Hs1.
  destruct es as [|e' es]; [by split|].
  apply IH; [done| |done]. apply Hrel. rewrite (ob_deletion _ _ Ho). by destruct Hl.
Qed.

(** The test of the Windows backend has the debugger's vendor where its product belongs. *)
Lemma usbk_misses_debugger vendor product dv dp :
  dv ≠ dp → dv ≠ vendor →
  DetectDevice vendor product dv dp true dv dp = false ∧
  Probe_accepts vendor product dv dp true dv dp = true.
Proof.
  intros Hne Hv. unfold DetectDevice, Probe_accepts.
  rewrite (proj2 (Z.eqb_neq dv vendor)), (proj2 (Z.eqb_neq dv dp)), !Z.eqb_refl by done.
  done.
Qed.

(** ** Theorems *)

(** C17: the libusbK backend is equivalent to the libusb one.  Two new devices with the
    same things happening to them (requests, transfers that complete in whatever pieces,
    submissions and transfers that fail) send the same bytes, give the daemon the same
    responses in the same order, have the same requests pending and are ready or to be
    deleted at the same time; they throw or are undefined on the same events.  What the
    Windows device leaves uninitialised ([tm], [td], the counters) makes no difference. *)
Theorem usbk_equivalent_to_libusb es h memory tm td n1 n2 r_in r_out :
  zlen memory = 32 →
  let d := UsbBackend.Begin (ok_of r_in) (ok_of r_out) (UsbBackend.init h memory) in
  let k := Begin r_in r_out (init h memory tm td n1 n2) in
  lives es d → agree (UsbBackend.run (map to_libusb es) d) (run es k).
Proof.
  intros Hm d k Hl. apply run_agree; [by apply UsbBackend.Begin_safe|by apply begin_related|done].
Qed.

Lemma usbk_equivalent_to_libusb_witness :
  let es := [EvMetaOut 32 IoPending; EvSend UsbBackend.ex_w Instantly; EvMetaOut 32 IoPending;
    EvDataOut 2 IoPending; EvMetaIn (encode_header (m_header UsbBackend.ex_m)) IoPending;
    EvDataIn (str "abc") IoPending; EvDataIn (encode_u32s [9]) SubmitFails] in
  let d := UsbBackend.Begin true true (UsbBackend.init UsbBackend.ex_header (zreplicate 32 Byte.x00)) in
  let k := Begin IoPending IoPending
    (init UsbBackend.ex_header (zreplicate 32 Byte.x00) true false 7 8) in
  (∃ k', run es k = Done k' ∧ zlen (dispatched k') = 1) ∧
  agree (UsbBackend.run (map to_libusb es) d) (run es k).
Proof.
  intros es d k. split; [eexists; split; [vm_compute; reflexivity|reflexivity]|].
  apply (usbk_equivalent_to_libusb es UsbBackend.ex_header (zreplicate 32 Byte.x00) true false 7 8
    IoPending IoPending eq_refl).
  repeat (split; [reflexivity|]; split;
    [|intros ? E; vm_compute in E; apply (inj Done) in E as <-]); [..|exact I].
  - split; [reflexivity|lia].
  - split; [by left|done].
  - split; [reflexivity|lia].
  - exists 0, 5. split; [reflexivity|lia].
  - split; [reflexivity|done].
  - exists (Payload 0 3). split; [reflexivity|done].
  - exists (Objects 4). split; [reflexivity|done].
Defined.

End UsbkBackend.
