(* ===== verification/UsbReader.v ===== *)
(** * twili/bridge/usb/RequestReader.cpp: requests over USB

    The device reads requests from two endpoints.  A header's completion opens the
    request ([BeginProcessingCommand]) and posts a buffer for the payload's first piece; a
    piece's completion hands it to the request's handler ([Request], as the TCP
    connection does) and posts the next one, or the object ids, or ends the request.
    The header's buffer is posted again at once.

    A completion has the status and the bytes the hardware reports ([report]) for the
    buffer that was posted last on the endpoint; a report for another buffer ends the
    process ([FindReport]).  When a response begins, [usb::ResponseState::SendHeader] resets the
    reader's handler, whichever request it is a response to: the rest of the payload at hand is
    discarded.  Whether posting a buffer works is an argument ([ok]).  The
    waits are dropped when their callback returns false, after an exception. *)
From S2P Require Import Prelude Err Protocol Request TcpBridge.
Import Protocol.

Module UsbReader.
Import Err.

Inductive urb : Type := DataUrb (size : Z) | ObjectUrb (size : Z).

Record reader : Type := mk {
  current_header : option MessageHeader;
  payload_received : Z;
  payload_buffer : bytes;
  object_ids : bytes;
  has_begun : option bool;          (* current_state *)
  current_object : option Z;
  current_handler : Request.request_handler;
  objects : omap (list Request.command);
  meta_posted : bool;
  data_posted : option urb;
  meta_wait : bool;
  data_wait : bool;
  resets : Z;
  log : list (Z * Request.event) }.

(** [urb_status] is 3 for a transfer that has succeeded. *)
Record report : Type := mk_report {
  urb_status : Z;
  transferred : bytes }.

(** ** Field updates *)

Definition set_header (r : reader) (h : MessageHeader) : reader :=
  mk (Some h) 0 [] [] (has_begun r) (current_object r) (current_handler r) (objects r)
    (meta_posted r) (data_posted r) (meta_wait r) (data_wait r) (resets r) (log r).
Definition set_payload (r : reader) (n : Z) (l : bytes) : reader :=
  mk (current_header r) n l (object_ids r) (has_begun r) (current_object r) (current_handler r)
    (objects r) (meta_posted r) (data_posted r) (meta_wait r) (data_wait r) (resets r) (log r).
Definition set_ids (r : reader) (l : bytes) : reader :=
  mk (current_header r) (payload_received r) (payload_buffer r) l (has_begun r) (current_object r)
    (current_handler r) (objects r) (meta_posted r) (data_posted r) (meta_wait r) (data_wait r)
    (resets r) (log r).
Definition set_handler (r : reader) (st : option bool) (o : option Z) (h : Request.request_handler) :
    reader :=
  mk (current_header r) (payload_received r) (payload_buffer r) (object_ids r) st o h
    (objects r) (meta_posted r) (data_posted r) (meta_wait r) (data_wait r) (resets r) (log r).
Definition set_objects (r : reader) (m : omap (list Request.command)) : reader :=
  mk (current_header r) (payload_received r) (payload_buffer r) (object_ids r) (has_begun r)
    (current_object r) (current_handler r) m (meta_posted r) (data_posted r) (meta_wait r)
    (data_wait r) (resets r) (log r).
Definition set_posted (r : reader) (m : bool) (d : option urb) : reader :=
  mk (current_header r) (payload_received r) (payload_buffer r) (object_ids r) (has_begun r)
    (current_object r) (current_handler r) (objects r) m d (meta_wait r) (data_wait r)
    (resets r) (log r).
Definition set_waits (r : reader) (m d : bool) : reader :=
  mk (current_header r) (payload_received r) (payload_buffer r) (object_ids r) (has_begun r)
    (current_object r) (current_handler r) (objects r) (meta_posted r) (data_posted r) m d
    (resets r) (log r).
Definition add_log (r : reader) (t : Z) (e : Request.event) : reader :=
  mk (current_header r) (payload_received r) (payload_buffer r) (object_ids r) (has_begun r)
    (current_object r) (current_handler r) (objects r) (meta_posted r) (data_posted r)
    (meta_wait r) (data_wait r) (resets r) (log r ++ [(t, e)]).
(** [interface->Disable(); interface->Enable();] *)
Definition ResetInterface (r : reader) : reader :=
  mk (current_header r) (payload_received r) (payload_buffer r) (object_ids r) (has_begun r)
    (current_object r) (current_handler r) (objects r) (meta_posted r) (data_posted r)
    (meta_wait r) (data_wait r) (resets r + 1) (log r).

Section reader.
Context (heap : Z) (receive : bytes → Z).
(** What invoking a command does to the bridge's objects; whether a response begins while the
    command, or its stream's callback, that is the last event of the log runs. *)
Context (func : Z → Z → list Request.arg → omap (list Request.command) →
                omap (list Request.command)).
Context (begins : list (Z * Request.event) → bool).

(** The libtransistor result code. *)
Context (LIBTRANSISTOR_ERR_OUT_OF_MEMORY : Z).

(** [TRANSFER_BUFFER_SIZE] *)
Definition buffer_size : Z := 65536.

Definition ResetHandler (r : reader) : reader :=
  set_handler r None (current_object r) Request.Discarding.

(** The effects of a handler's events; [SendHeader] of a response resets the handler. *)
Definition begun (l : list (Z * Request.event)) (e : Request.event) : bool :=
  match e with
  | Request.RespondError _ => true
  | _ => begins l
  end.
Definition happen1 (h : MessageHeader) (r : reader) (e : Request.event) : reader :=
  let r := add_log r (tag h) e in
  let r := match e with
           | Request.Invoke args => set_objects r (func (object_id h) (command_id h) args (objects r))
           | _ => r
           end in
  if begun (log r) e then ResetHandler r else r.
Definition happen (h : MessageHeader) (r : reader) (l : list Request.event) : reader :=
  foldl (happen1 h) r l.

Definition CleanupCommand (r : reader) : reader := ResetHandler (set_handler r (has_begun r) None (current_handler r)).

Definition PostMetaBuffer (ok : bool) (r : reader) : reader :=
  if ok then set_posted r true (data_posted r) else ResetInterface r.
Definition PostDataBuffer (h : MessageHeader) (ok : bool) (r : reader) : reader :=
  let left := u64 (payload_size h - payload_received r) in
  let size := if left <? buffer_size then left else buffer_size in
  if ok then set_posted r (meta_posted r) (Some (DataUrb size)) else ResetInterface r.
Definition PostObjectBuffer (h : MessageHeader) (ok : bool) (r : reader) : reader :=
  let size := object_count h * 4 in
  if buffer_size <? size then ResetInterface r
  else if ok then set_posted r (meta_posted r) (Some (ObjectUrb size)) else ResetInterface r.

Definition BeginProcessingCommand (h : MessageHeader) (r : reader) : reader :=
  let r := set_handler r (Some false) (current_object r) (current_handler r) in
  match om_find (object_id h) (objects r) with
  | None => happen h r [Request.RespondError TWILI_ERR_PROTOCOL_UNRECOGNIZED_OBJECT]
  | Some commands =>
      if command_id h =? CLOSE_OBJECT then
        let r := set_objects r
          (if object_id h =? 0 then List.filter (fun '(id, _) => id =? 0) (objects r)
           else om_erase (object_id h) (objects r)) in
        happen h r [Request.RespondError 0]
      else
        let '(handler, e) := Request.OpenRequest commands (command_id h) (payload_size h) in
        happen h (set_handler r (has_begun r) (Some (object_id h)) handler) e
  end.

Definition FinalizeCommand (h : MessageHeader) (r : reader) : outcome reader :=
  match Request.handler_finalize heap receive (current_handler r) (payload_buffer r) with
  | Done (handler, l, e) =>
      Done (CleanupCommand (happen h (set_handler (set_payload r (payload_received r) l) (has_begun r)
        (current_object r) handler) e))
  | Throws (ResultError code) => Aborts code
  | Throws e => Throws e
  | Aborts code => Aborts code
  | Undefined => Undefined
  | OutOfFuel => OutOfFuel
  end.

(** After the header and after every piece of the payload. *)
Definition next (h : MessageHeader) (more : bool) (ok : bool) (r : reader) : outcome reader :=
  if more then Done (PostDataBuffer h ok r)
  else if 0 <? object_count h then Done (PostObjectBuffer h ok r)
  else FinalizeCommand h r.

Definition MetadataTransactionCompleted (rep : report) (ok : bool) (r : reader) : outcome reader :=
  if negb (urb_status rep =? 3) then Done (ResetInterface r)
  else if zlen (transferred rep) =? 0 then Done r
  else if negb (zlen (transferred rep) =? 32) then Done (ResetInterface r)
  else
    let h := decode_header (transferred rep) in
    let r := BeginProcessingCommand h (ResetHandler (set_header r h)) in
    next h (0 <? payload_size h) ok r.

(** [FlushReceiveBuffer] with its handlers for exceptions; [None] is the early return
    after a reset. *)
Definition flush (h : MessageHeader) (r : reader) : outcome (reader * bool) :=
  match Request.handler_flush heap receive (current_handler r) (payload_buffer r) with
  | Done (handler, l, e) =>
      Done (happen h (set_handler (set_payload r (payload_received r) l) (has_begun r)
        (current_object r) handler) e, true)
  | Throws bad_alloc =>
      match has_begun r with
      | Some false =>
          Done (CleanupCommand (happen h r [Request.RespondError LIBTRANSISTOR_ERR_OUT_OF_MEMORY]), true)
      | Some true => Done (ResetInterface r, false)
      | None => Undefined
      end
  | Throws (ResultError code) => Aborts code
  | Throws e => Throws e
  | Aborts code => Aborts code
  | Undefined => Undefined
  | OutOfFuel => OutOfFuel
  end.

Definition DataTransactionCompleted (rep : report) (ok : bool) (r : reader) : outcome reader :=
  match current_header r with
  | None => Undefined
  | Some h =>
      if payload_received r =? payload_size h then
        match data_posted r with
        | Some (ObjectUrb _) =>
            if negb (urb_status rep =? 3) then Done (ResetInterface r)
            else if negb (zlen (transferred rep) =? object_count h * 4) then Done (ResetInterface r)
            else FinalizeCommand h (set_ids r (object_ids r ++ transferred rep))
        | _ => Aborts TWILI_ERR_FATAL_USB_TRANSFER
        end
      else
        match data_posted r with
        | Some (DataUrb _) =>
            if negb (urb_status rep =? 3) then Done (ResetInterface r)
            else if payload_size h <? u64 (payload_received r + zlen (transferred rep))
            then Done (ResetInterface r)
            else
              let r := set_payload r (u64 (payload_received r + zlen (transferred rep)))
                         (payload_buffer r ++ transferred rep) in
              '(r, go) ← flush h r;
              if go : bool then next h (payload_received r <? payload_size h) ok r else Done r
        | _ => Aborts TWILI_ERR_FATAL_USB_TRANSFER
        end
  end.

(** ** The callbacks of [Begin] *)

(** Also a response to an earlier request that begins at any time. *)
Inductive event : Type :=
| Meta (rep : report) (ok_data ok_meta : bool)
| Data (rep : report) (ok : bool)
| Answer.

Definition handle (e : event) (r : reader) : outcome reader :=
  match e with
  | Meta rep ok_data ok_meta =>
      match MetadataTransactionCompleted rep ok_data r with
      | Done r => Done (PostMetaBuffer ok_meta r)
      | Throws _ => Done (set_waits (ResetInterface r) false (data_wait r))
      | o => o
      end
  | Data rep ok =>
      match DataTransactionCompleted rep ok r with
      | Throws _ => Done (set_waits (ResetInterface r) (meta_wait r) false)
      | o => o
      end
  | Answer => Done (ResetHandler r)
  end.

(** A completion that nobody waits for is not handled. *)
Definition step (e : event) (r : reader) : outcome reader :=
  match e with
  | Meta _ _ _ => if meta_wait r then handle e r else Done r
  | Data _ _ => if data_wait r then handle e r else Done r
  | Answer => handle e r
  end.

Fixpoint run (es : list event) (r : reader) : outcome reader :=
  match es with
  | [] => Done r
  | e :: es => r ← step e r; run es r
  end.

(** [RequestReader] of a new bridge, after [Begin]. *)
Definition Begin (object_zero : list Request.command) (ok : bool) : reader :=
  PostMetaBuffer ok (mk None 0 [] [] None None Request.Discarding [(0, object_zero)] false None
    true true 0 []).
End reader.

(** ** Specification *)

(** Whether a response begins in these events, after this log. *)
Fixpoint answered (begins : list (Z * Request.event) → bool) (h : MessageHeader)
    (l : list (Z * Request.event)) (es : list Request.event) : bool :=
  match es with
  | [] => false
  | e :: es => begun begins (l ++ [(tag h, e)]) e || answered begins h (l ++ [(tag h, e)]) es
  end.
(** The handler over the pieces of the payload, which are discarded once a response has begun. *)
Fixpoint heard (heap : Z) (receive : bytes → Z) (begins : list (Z * Request.event) → bool)
    (h : MessageHeader) (l : list (Z * Request.event)) (rh : Request.request_handler) (b : bytes)
    (ps : list bytes) : outcome (list Request.event) :=
  match ps with
  | [] => '(_, _, e) ← Request.handler_finalize heap receive rh b; Done e
  | p :: ps =>
      '(rh, b, e) ← Request.handler_flush heap receive rh (b ++ p);
      let rh := if answered begins h l e then Request.Discarding else rh in
      e' ← heard heap receive begins h (l ++ TcpBridge.tagged h e) rh b ps;
      Done (e ++ e')
  end.

(** Between two requests. *)
Record idle (r : reader) : Prop := mk_idle {
  idle_object : current_object r = None;
  idle_handler : current_handler r = Request.Discarding;
  idle_meta : meta_posted r = true;
  idle_waits : meta_wait r = true ∧ data_wait r = true }.

(** A request whose transfers complete one after the other. *)
Definition succeeded (l : bytes) : report := mk_report 3 l.
Definition request_events (h : MessageHeader) (ps : list bytes) (ids : bytes) : list event :=
  Meta (succeeded (encode_header h)) true true ::
  map (fun p => Data (succeeded p) true) ps ++
  (if 0 <? object_count h then [Data (succeeded ids) true] else []).

(** In the middle of a request, [got] bytes of its payload handed over. *)
Record mid (r : reader) (h : MessageHeader) (got : Z) (rh : Request.request_handler) (b : bytes) :
    Prop := mk_mid {
  mid_header : current_header r = Some h;
  mid_got : payload_received r = got;
  mid_buffer : payload_buffer r = b;
  mid_handler : current_handler r = rh;
  mid_meta : meta_posted r = true;
  mid_waits : meta_wait r = true ∧ data_wait r = true }.

(** ** Lemmas *)

Section serving.
Context (heap : Z) (receive : bytes → Z)
  (func : Z → Z → list Request.arg → omap (list Request.command) → omap (list Request.command))
  (begins : list (Z * Request.event) → bool)
  (oom : Z).

Lemma reader_happen_spec h r l :
  let r' := happen func begins h r l in
  current_header r' = current_header r ∧ payload_received r' = payload_received r ∧
  payload_buffer r' = payload_buffer r ∧ current_object r' = current_object r ∧
  current_handler r' = (if answered begins h (log r) l then Request.Discarding else current_handler r) ∧
  meta_posted r' = meta_posted r ∧
  data_posted r' = data_posted r ∧ meta_wait r' = meta_wait r ∧ data_wait r' = data_wait r ∧
  resets r' = resets r ∧ log r' = log r ++ TcpBridge.tagged h l.
Proof.
  revert r. induction l as [|e l IH]; intros r; [by rewrite app_nil_r|].
  unfold happen in *. cbn [foldl answered].
  destruct (IH (happen1 func begins h r e)) as (-> & -> & -> & -> & -> & -> & -> & -> & -> & -> & ->).
  unfold happen1. set (r1 := match e with Request.Invoke _ => _ | _ => _ end).
  assert (log r1 = log r ++ [(tag h, e)] ∧ current_handler r1 = current_handler r) as [El Eh] by by destruct e.
  rewrite El. assert (∀ x, log (if x : bool then ResetHandler r1 else r1) = log r ++ [(tag h, e)]) as -> by by intros [].
  split_and!; try (by destruct (begun _ _ e), e).
  - destruct (begun begins _ e); cbn [orb]; [by case_match|by rewrite Eh].
  - cbn. by rewrite <- app_assoc.
Qed.

#[local] Notation heard := (heard heap receive begins).

Lemma heard_finalize h l rh b evs :
  heard h l rh b [] = Done evs → ∃ rh1 b1, Request.handler_finalize heap receive rh b = Done (rh1, b1, evs).
Proof. cbn [UsbReader.heard]. intros ([[rh1 b1] e] & E & [= <-])%bind_Done_inv. by eauto. Qed.
Lemma heard_flush h l rh b p ps evs :
  heard h l rh b (p :: ps) = Done evs →
  ∃ rh1 b1 e e', Request.handler_flush heap receive rh (b ++ p) = Done (rh1, b1, e) ∧
    heard h (l ++ TcpBridge.tagged h e) (if answered begins h l e then Request.Discarding else rh1) b1 ps = Done e' ∧
    evs = e ++ e'.
Proof.
  cbn [UsbReader.heard]. intros ([[rh1 b1] e] & E & (e' & E' & [= <-])%bind_Done_inv)%bind_Done_inv.
  by exists rh1, b1, e, e'.
Qed.
Lemma heard_discarding h l b ps : heard h l Request.Discarding b ps = Done [].
Proof.
  revert l b. induction ps as [|p ps IH]; intros l b; [done|]. cbn [UsbReader.heard Request.handler_flush mbind outcome_bind answered].
  by rewrite IH.
Qed.
Lemma answered_app h l e1 e2 :
  answered begins h l (e1 ++ e2) = answered begins h l e1 || answered begins h (l ++ TcpBridge.tagged h e1) e2.
Proof.
  revert l. induction e1 as [|e e1 IH]; intros l; cbn [app answered]; [by rewrite app_nil_r|].
  rewrite IH, orb_assoc. cbn [TcpBridge.tagged map]. by rewrite <- app_assoc.
Qed.

(** Up to where a response begins, what is heard is what the handler does with all pieces. *)
Lemma heard_handle h l rh b ps evs :
  TcpBridge.handle heap receive rh b ps = Done evs →
  ∃ evs', heard h l rh b ps = Done evs' ∧ evs' `prefix_of` evs ∧ (evs' = evs ∨ answered begins h l evs' = true).
Proof.
  revert l rh b evs. induction ps as [|p ps IH]; intros l rh b evs Hh.
  - destruct (TcpBridge.finalize_handle _ _ _ _ _ Hh) as (rh1 & b1 & E). exists evs. cbn [UsbReader.heard].
    rewrite E. split_and!; [done|done|by left].
  - destruct (TcpBridge.flush_handle _ _ _ _ _ _ _ Hh) as (rh1 & b1 & e & e' & Ef & Eh & ->).
    cbn [UsbReader.heard]. rewrite Ef. cbn [mbind outcome_bind]. destruct (answered begins h l e) eqn:Ea.
    + rewrite heard_discarding. exists e. cbn [mbind outcome_bind]. rewrite app_nil_r. split_and!; [done|by exists e'|by right].
    + destruct (IH (l ++ TcpBridge.tagged h e) rh1 b1 e' Eh) as (e1 & -> & Hp & Ho). exists (e ++ e1). cbn [mbind outcome_bind].
      split_and!; [done|by apply prefix_app|]. destruct Ho as [->|Ho]; [by left|right]. by rewrite answered_app, Ho, orb_true_r.
Qed.

(** What the end of a request leaves. *)
Lemma finalize_idle h r got rh b evs :
  mid r h got rh b → heard h (log r) rh b [] = Done evs →
  ∃ r', FinalizeCommand heap receive func begins h r = Done r' ∧ idle r' ∧
    log r' = log r ++ TcpBridge.tagged h evs.
Proof.
  intros [H1 H2 H3 H4 H5 [H6 H7]] Hh. destruct (heard_finalize _ _ _ _ _ Hh) as (rh1 & b1 & E).
  unfold FinalizeCommand. rewrite H4, H3, E. eexists. split; [reflexivity|].
  set (r1 := set_handler _ _ _ _). destruct (reader_happen_spec h r1 evs)
    as (E1 & E2 & E3 & E4 & E5 & E6 & E7 & E8 & E9 & E10 & E11).
  split; [|exact E11]. by constructor; cbn; [..|rewrite E6|rewrite E8, E9].
Qed.

(** After the payload: the object ids, or the end. *)
Lemma after_payload h r rh b evs ids :
  mid r h (payload_size h) rh b → heard h (log r) rh b [] = Done evs → header_ok h →
  object_count h * 4 ≤ buffer_size → zlen ids = object_count h * 4 →
  ∃ r', (r ← next heap receive func begins h false true r;
         run heap receive func begins oom (if 0 <? object_count h then [Data (succeeded ids) true] else []) r)
      = Done r' ∧ idle r' ∧ log r' = log r ++ TcpBridge.tagged h evs.
Proof.
  intros Hm Hh Hok Hc Hids. unfold next. destruct (Z.ltb_spec 0 (object_count h)) as [Hpos|].
  - unfold PostObjectBuffer. rewrite (proj2 (Z.ltb_ge _ _)) by lia.
    cbn [mbind outcome_bind run step]. destruct Hm as [H1 H2 H3 H4 H5 [H6 H7]].
    cbn [data_wait set_posted]. rewrite H7. cbn [handle]. unfold DataTransactionCompleted.
    cbn [current_header set_posted payload_received data_posted]. rewrite H1, H2, Z.eqb_refl.
    cbn [urb_status transferred succeeded]. change (3 =? 3) with true. cbn [negb]. rewrite Hids, Z.eqb_refl. cbn [negb].
    set (r1 := set_ids _ _). destruct (finalize_idle h r1 (payload_size h) rh b evs) as (r2 & E & Hi & Hl);
      [destruct r; cbn in *; subst; by constructor|done|]. rewrite E. exists r2. split_and!; [reflexivity|exact Hi|exact Hl].
  - destruct (finalize_idle h r (payload_size h) rh b evs Hm Hh) as (r2 & E & Hi & Hl).
    rewrite E. by exists r2.
Qed.

Lemma Request_opened cmds c n rh es :
  Request.OpenRequest cmds c n = (rh, es) → rh = Request.Discarding ∨ es = [].
Proof. unfold Request.OpenRequest. destruct (foldl _ _ _); intros [= <- <-]; auto. Qed.

(** A header opens its request, whatever the reader was doing. *)
Lemma opens h r rh es :
  meta_posted r = true → meta_wait r = true ∧ data_wait r = true → header_ok h →
  TcpBridge.opened (objects r) h = (rh, es) →
  ∃ r1, (∀ ok, MetadataTransactionCompleted heap receive func begins (succeeded (encode_header h)) ok r =
      next heap receive func begins h (0 <? payload_size h) ok r1) ∧
    mid r1 h 0 rh [] ∧ log r1 = log r ++ TcpBridge.tagged h es ∧ data_posted r1 = data_posted r.
Proof.
  intros H3 [H4 H5] Hok Hop. unfold MetadataTransactionCompleted.
  cbn [urb_status transferred succeeded]. rewrite zlen_encode_header, decode_encode_header by done.
  eexists. split; [reflexivity|]. set (r0 := ResetHandler (set_header r h)).
  unfold BeginProcessingCommand, TcpBridge.opened in *. cbn [objects set_handler r0 ResetHandler set_header].
  assert (∀ r2 l, current_header r2 = Some h → payload_received r2 = 0 → payload_buffer r2 = [] →
    current_handler r2 = rh → (rh = Request.Discarding ∨ l = []) → meta_posted r2 = true → meta_wait r2 = true ∧ data_wait r2 = true →
    log r2 = log r → data_posted r2 = data_posted r → es = l →
    mid (happen func begins h r2 l) h 0 rh [] ∧ log (happen func begins h r2 l) = log r ++ TcpBridge.tagged h es ∧
    data_posted (happen func begins h r2 l) = data_posted r) as Hm.
  { intros r2 l K1 K2 K3 K4 Kd K5 [K6 K7] K8 K9 ->.
    destruct (reader_happen_spec h r2 l) as (E1 & E2 & E3 & E4 & E5 & E6 & E7 & E8 & E9 & E10 & E11).
    rewrite E11, K8, E7. split; [|done].
    assert (current_handler (happen func begins h r2 l) = rh) as Eh by (rewrite E5, K4; destruct Kd as [->| ->]; [by case_match|done]).
    constructor; try congruence. split; congruence. }
  destruct (om_find (object_id h) (objects r)) as [cmds|]; [|injection Hop as <- <-; apply Hm; by auto].
  destruct (command_id h =? CLOSE_OBJECT); [injection Hop as <- <-; apply Hm; by auto|].
  rewrite Hop. apply Hm; try done. apply Request_opened in Hop. naive_solver.
Qed.
Lemma header_opens h r rh es :
  idle r → header_ok h → TcpBridge.opened (objects r) h = (rh, es) →
  ∃ r1, (∀ ok, MetadataTransactionCompleted heap receive func begins (succeeded (encode_header h)) ok r =
      next heap receive func begins h (0 <? payload_size h) ok r1) ∧
    mid r1 h 0 rh [] ∧ log r1 = log r ++ TcpBridge.tagged h es.
Proof.
  intros [_ _ H3 H4] Hok Hop. destruct (opens h r rh es H3 H4 Hok Hop) as (r1 & ? & ? & ? & _). by exists r1.
Qed.

(** One piece of the payload. *)
Lemma piece_handled h r got rh b p ps evs size :
  mid r h got rh b → data_posted r = Some (DataUrb size) → 0 ≤ got → 0 < zlen p →
  got + zlen p ≤ payload_size h → payload_size h < 2 ^ 64 →
  heard h (log r) rh b (p :: ps) = Done evs →
  ∃ r1 rh1 b1 e e', (∀ ok, DataTransactionCompleted heap receive func begins oom (succeeded p) ok r =
      next heap receive func begins h (got + zlen p <? payload_size h) ok r1) ∧
    mid r1 h (got + zlen p) rh1 b1 ∧ log r1 = log r ++ TcpBridge.tagged h e ∧
    heard h (log r1) rh1 b1 ps = Done e' ∧ evs = e ++ e'.
Proof.
  intros [H1 H2 H3 H4 H5 [H6 H7]] Hp Hg Hpos Hle Hlt Hh.
  destruct (heard_flush _ _ _ _ _ _ _ Hh) as (rh1 & b1 & e & e' & Ef & Eh & ->).
  set (r0 := set_payload r (got + zlen p) (b ++ p)).
  set (r2 := set_handler (set_payload r0 (got + zlen p) b1) (has_begun r0) (current_object r0) rh1).
  destruct (reader_happen_spec h r2 e) as (E1 & E2 & E3 & E4 & E5 & E6 & E7 & E8 & E9 & E10 & E11).
  exists (happen func begins h r2 e), (if answered begins h (log r) e then Request.Discarding else rh1), b1, e, e'. split.
  - intros ok. unfold DataTransactionCompleted. rewrite H1, H2, Hp.
    rewrite (proj2 (Z.eqb_neq got (payload_size h))) by lia.
    cbn [urb_status transferred succeeded]. change (3 =? 3) with true. cbn [negb].
    rewrite u64_small by lia. rewrite (proj2 (Z.ltb_ge _ _)) by lia. rewrite H3. fold r0.
    unfold flush. change (current_handler r0) with (current_handler r).
    change (payload_buffer r0) with (b ++ p). rewrite H4, Ef. cbn [mbind outcome_bind].
    change (payload_received r0) with (got + zlen p). fold r2. rewrite E2. done.
  - rewrite E11. split_and!; [|done|exact Eh|done]. constructor; [by rewrite E1|by rewrite E2|by rewrite E3|by rewrite E5|
      by rewrite E6|by rewrite E8, E9].
Qed.

Lemma mid_posted r h got rh b d : mid r h got rh b → mid (set_posted r (meta_posted r) d) h got rh b.
Proof. intros []. by constructor. Qed.

(** The pieces of the payload, and the end of the request. *)
Lemma pieces_handled h ps r got rh b evs ids size :
  mid r h got rh b → data_posted r = Some (DataUrb size) → 0 ≤ got → ps ≠ [] →
  Forall (fun p => 0 < zlen p) ps → got + zlen (concat ps) = payload_size h → header_ok h →
  object_count h * 4 ≤ buffer_size → zlen ids = object_count h * 4 →
  heard h (log r) rh b ps = Done evs →
  ∃ r', run heap receive func begins oom (map (fun p => Data (succeeded p) true) ps ++
      (if 0 <? object_count h then [Data (succeeded ids) true] else [])) r = Done r' ∧
    idle r' ∧ log r' = log r ++ TcpBridge.tagged h evs.
Proof.
  intros Hm Hp Hg Hne Hps Hsz Hok Hc Hids. revert r got rh b evs size Hm Hp Hg Hsz Hne.
  induction Hps as [|p ps Hpos Hps IH]; intros r got rh b evs size Hm Hp Hg Hsz Hne Hh; [done|].
  cbn [concat] in Hsz. rewrite zlen_app in Hsz. pose proof (zlen_nonneg (concat ps)).
  pose proof (ok_payload _ Hok).
  destruct (piece_handled h r got rh b p ps evs size Hm Hp Hg Hpos ltac:(lia) ltac:(lia) Hh)
    as (r1 & rh1 & b1 & e & e' & E & Hm1 & Hl1 & Hh1 & ->).
  assert (∀ r2, (∃ r', run heap receive func begins oom (map (fun p => Data (succeeded p) true) ps ++
      (if 0 <? object_count h then [Data (succeeded ids) true] else [])) r2 = Done r' ∧
    idle r' ∧ log r' = log r1 ++ TcpBridge.tagged h e') → next heap receive func begins h
      (got + zlen p <? payload_size h) true r1 = Done r2 →
    ∃ r', run heap receive func begins oom (map (fun p => Data (succeeded p) true) (p :: ps) ++
      (if 0 <? object_count h then [Data (succeeded ids) true] else [])) r = Done r' ∧
    idle r' ∧ log r' = log r ++ TcpBridge.tagged h (e ++ e')) as Hgo.
  { intros r2 (r' & Er & Hi & Hl) En. exists r'. cbn [map app run step].
    destruct (mid_waits _ _ _ _ _ Hm) as [_ ->]. cbn [handle]. rewrite E, En. cbn [mbind outcome_bind].
    split; [exact Er|]. split; [done|]. rewrite Hl, Hl1. unfold TcpBridge.tagged.
    by rewrite map_app, app_assoc. }
  destruct ps as [|p2 ps].
  - cbn [concat] in Hsz. rewrite zlen_nil in Hsz. replace (got + zlen p) with (payload_size h) in * by lia.
    destruct (after_payload h r1 rh1 b1 e' ids Hm1 Hh1 Hok Hc Hids) as (r' & Er & Hi & Hl).
    rewrite Z.ltb_irrefl in Hgo.
    destruct (next heap receive func begins h false true r1) as [r2| | | |]; try done.
    apply (Hgo r2); [|done]. exists r'. by split_and!.
  - apply Forall_cons in Hps as Hps'. destruct Hps' as [Hp2 _]. cbn [concat] in Hsz.
    rewrite zlen_app in Hsz. pose proof (zlen_nonneg (concat ps)).
    rewrite (proj2 (Z.ltb_lt (got + zlen p) (payload_size h))) in Hgo by lia.
    set (r2 := PostDataBuffer h true r1).
    edestruct (IH r2 (got + zlen p) rh1 b1 e') as (r' & Er & Hi & Hl);
      [by apply mid_posted|reflexivity|lia|cbn [concat]; rewrite zlen_app; lia|done|done|].
    apply (Hgo r2); [|reflexivity]. exists r'. split_and!; [exact Er|done|exact Hl].
Qed.

Lemma next_meta_posted h r r2 :
  next heap receive func begins h false true r = Done r2 → meta_posted r2 = meta_posted r.
Proof.
  unfold next, PostObjectBuffer, FinalizeCommand. destruct (0 <? object_count h).
  - intros [= <-]. by destruct (_ <? _).
  - destruct (Request.handler_finalize _ _ _ _) as [[[rh b] e]|[]| | |]; try done.
    intros [= <-]. set (r1 := set_handler _ _ _ _).
    change (meta_posted (happen func begins h r1 e) = meta_posted r).
    by destruct (reader_happen_spec h r1 e) as (_ & _ & _ & _ & _ & -> & _).
Qed.

(** What is cut short contains a response before its last event. *)
Lemma cut_short h l evs evs' :
  evs' `prefix_of` evs → evs' = evs ∨ answered begins h l evs' = true →
  answered begins h l (removelast evs) = false → evs' = evs.
Proof.
  intros [k ->] Heq Hn. destruct Heq as [?|Ha]; [done|]. destruct k as [|x k]; [by rewrite app_nil_r|].
  rewrite removelast_app, answered_app, Ha in Hn by done. done.
Qed.

Lemma usb_serves h ps r rh es evs ids :
  idle r → header_ok h → TcpBridge.opened (objects r) h = (rh, es) →
  Forall (fun p => 0 < zlen p) ps → zlen (concat ps) = payload_size h →
  object_count h * 4 ≤ buffer_size → zlen ids = object_count h * 4 →
  heard h (log r ++ TcpBridge.tagged h es) rh [] ps = Done evs →
  ∃ r', run heap receive func begins oom (request_events h ps ids) r = Done r' ∧ idle r' ∧
    log r' = log r ++ TcpBridge.tagged h (es ++ evs).
Proof.
  intros Hi Hok Hop Hps Hsz Hc Hids Hh. destruct (header_opens h r rh es Hi Hok Hop) as (r1 & E & Hm & Hl).
  pose proof (zlen_nonneg (concat ps)). destruct (idle_waits _ Hi) as [Hmw Hdw].
  cbn [request_events run step]. rewrite Hmw. cbn [handle]. rewrite E.
  assert (∀ r2 X, (∃ r', run heap receive func begins oom X (set_posted r2 true (data_posted r2)) = Done r' ∧
      idle r' ∧ log r' = log r1 ++ TcpBridge.tagged h evs) →
    ∃ r', (r0 ← Done (PostMetaBuffer true r2); run heap receive func begins oom X r0) = Done r' ∧ idle r' ∧
      log r' = log r ++ TcpBridge.tagged h (es ++ evs)) as Hgo.
  { intros r2 X (r' & Er & Hi' & Hl'). exists r'. split; [exact Er|]. split; [done|].
    rewrite Hl', Hl. unfold TcpBridge.tagged. by rewrite map_app, app_assoc. }
  destruct ps as [|p ps].
  - cbn [concat] in Hsz. rewrite zlen_nil in Hsz. rewrite <- Hsz. cbn [Z.ltb Z.compare].
    destruct (after_payload h r1 rh [] evs ids) as (r' & Er & Hi' & Hl'); try done; [by rewrite <- Hsz|].
    destruct (next heap receive func begins h false true r1) as [r2| | | |] eqn:En; try done.
    apply Hgo. exists r'. cbn [map app].
    assert (set_posted r2 true (data_posted r2) = r2) as ->; [|by split_and!].
    apply next_meta_posted in En. rewrite (mid_meta _ _ _ _ _ Hm) in En. destruct r2. cbn in *.
    by rewrite En.
  - assert (0 < payload_size h) as Hpos.
    { rewrite <- Hsz. cbn [concat]. rewrite zlen_app. apply Forall_cons in Hps as [? _].
      pose proof (zlen_nonneg (concat ps)). lia. }
    rewrite (proj2 (Z.ltb_lt 0 (payload_size h))) by lia. cbn [next]. apply Hgo.
    set (r2 := PostDataBuffer h true r1). set (r3 := set_posted r2 true (data_posted r2)).
    edestruct (pieces_handled h (p :: ps) r3 0 rh [] evs ids) as (r' & Er & Hi' & Hl'); try done.
    + destruct Hm. by constructor.
    + change (log r3) with (log r1). rewrite Hl. exact Hh.
    + exists r'. split_and!; [exact Er|done|exact Hl'].
Qed.

(** A header without payload and objects, while a piece of another request is awaited. *)
Lemma overtaking h1 h2 rh1 rh2 es evs r :
  mid r h1 0 rh1 [] → header_ok h2 → TcpBridge.opened (objects r) h2 = (rh2, es) →
  payload_size h2 = 0 → object_count h2 = 0 → TcpBridge.handle heap receive rh2 [] [] = Done evs →
  ∃ r2, MetadataTransactionCompleted heap receive func begins (succeeded (encode_header h2)) true r = Done r2 ∧
    log r2 = log r ++ TcpBridge.tagged h2 (es ++ evs) ∧ meta_wait r2 = true ∧
    current_header r2 = Some h2 ∧ payload_received r2 = 0 ∧ data_posted r2 = data_posted r ∧
    data_wait r2 = true.
Proof.
  intros Hm Hok Hop Hp Hc Hh. destruct (opens h2 r rh2 es (mid_meta _ _ _ _ _ Hm) (mid_waits _ _ _ _ _ Hm) Hok Hop)
    as (r1 & E1 & Hm1 & Hl1 & Hd1).
  rewrite E1, Hp. cbn [Z.ltb Z.compare]. unfold next. rewrite Hc. cbn [Z.ltb Z.compare].
  unfold FinalizeCommand. destruct (TcpBridge.finalize_handle _ _ _ _ _ Hh) as (rh3 & b3 & E3).
  rewrite (mid_handler _ _ _ _ _ Hm1), (mid_buffer _ _ _ _ _ Hm1), E3.
  set (r2 := set_handler _ _ _ _). eexists. split; [reflexivity|].
  destruct (reader_happen_spec h2 r2 evs) as (F1 & F2 & F3 & F4 & F5 & F6 & F7 & F8 & F9 & F10 & F11).
  destruct Hm1 as [K1 K2 K3 K4 K5 [K6 K7]].
  split_and!; cbn [log CleanupCommand ResetHandler set_handler meta_wait current_header
    payload_received data_posted data_wait]; rewrite ?F1, ?F2, ?F7, ?F8, ?F9, ?F11; try done.
  change (log r2) with (log r1). rewrite Hl1. unfold TcpBridge.tagged. by rewrite map_app, app_assoc.
Qed.
End serving.

(** ** Theorems *)

(** C18: the USB reader serves a request as the TCP connection does, up to its answer.  For a
    request with a payload, cut into any pieces, and no object ids: between requests, both open
    the same handler, give it the same bytes and finalize it once, each event under the request's
    tag, and both end between requests.  Over TCP the handler gets the whole payload; over USB the
    reader forgets it when a response begins: what happens is the same up to there, and all the
    same if no response begins before the last event. *)
Theorem usb_serves_like_tcp heap receive func_tcp fails func_usb begins oom z c r h p ps rh es evs :
  (∀ l, fails l = false) →
  TcpBridge.idle c → idle r → TcpBridge.objects c = objects r → header_ok h →
  object_count h = 0 → TcpBridge.opened (objects r) h = (rh, es) →
  zlen (concat (p :: ps)) = payload_size h → Forall (fun l => 0 < zlen l) (p :: ps) →
  TcpBridge.handle heap receive rh [] (p :: ps) = Done evs →
  let l := log r ++ TcpBridge.tagged h es in
  ∃ z' c' r' evs',
    TcpBridge.serve heap receive func_tcp fails 2 z c ((encode_header h ++ p) :: ps) = Done (z', c') ∧
    run heap receive func_usb begins oom (request_events h (p :: ps) []) r = Done r' ∧
    TcpBridge.settled c' ∧ idle r' ∧
    TcpBridge.log c' = TcpBridge.log c ++ TcpBridge.tagged h (es ++ evs) ∧
    log r' = log r ++ TcpBridge.tagged h (es ++ evs') ∧
    evs' `prefix_of` evs ∧ (evs' = evs ∨ answered begins h l evs' = true) ∧
    (answered begins h l (removelast evs) = false → evs' = evs).
Proof.
  intros Hf Hc Hr Ho Hok Hcount Hop Hsz Hps Hh l.
  destruct (TcpBridge.serve_request heap receive func_tcp fails z c h p ps rh es evs Hf) as (z' & c' & Ec & Hsc & Hlc);
    [done|done|by rewrite Ho|done| |done|].
  { apply Forall_cons in Hps as [_ Hps]. eapply Forall_impl; [exact Hps|]. intros q Hl ->. change (0 < 0) in Hl. lia. }
  destruct (heard_handle heap receive begins h l rh [] (p :: ps) evs Hh) as (evs' & Hv & Hpre & Heq).
  destruct (usb_serves heap receive func_usb begins oom h (p :: ps) r rh es evs' []) as (r' & Er & Hir & Hlr);
    try done; [by rewrite Hcount|by rewrite Hcount|].
  exists z', c', r', evs'. split_and!; try done. by apply (cut_short begins h l).
Qed.

(** A command that takes its argument whole, and one that answers before its stream has arrived. *)
Definition ex_commands : list Request.command :=
  [Request.mk_command 7 [Request.APod 4]; Request.mk_command 8 [Request.AStream]].
Lemma usb_serves_like_tcp_witness :
  let h := mkHeader 1 0 7 9 4 0 0 in
  let h2 := mkHeader 1 0 8 9 12 0 0 in
  let start := Begin ex_commands true in
  let c0 := TcpBridge.Connection_new 1 ex_commands in
  (∃ z' c' r',
    TcpBridge.serve 4096 zlen (fun _ _ _ m => m) (fun _ => false) 2 None c0
      [encode_header h ++ str "ab"; str "cd"] = Done (z', c') ∧
    run 4096 zlen (fun _ _ _ m => m) (fun _ => true) 4 (request_events h [str "ab"; str "cd"] []) start = Done r' ∧
    TcpBridge.log c' = TcpBridge.tagged h [Request.Invoke [Request.Pod (str "abcd")]] ∧
    log r' = TcpBridge.tagged h [Request.Invoke [Request.Pod (str "abcd")]]) ∧
  (∃ z' c' r' evs',
    TcpBridge.serve 4096 zlen (fun _ _ _ m => m) (fun _ => false) 2 None c0
      [encode_header h2 ++ le_split 8 4; str "abcd"] = Done (z', c') ∧
    run 4096 zlen (fun _ _ _ m => m) (fun _ => true) 4 (request_events h2 [le_split 8 4; str "abcd"] []) start = Done r' ∧
    TcpBridge.log c' = TcpBridge.tagged h2 [Request.Invoke [Request.Stream 4]; Request.Received (str "abcd");
      Request.Received []; Request.Finished []] ∧
    log r' = TcpBridge.tagged h2 evs' ∧ evs' = [Request.Invoke [Request.Stream 4]]).
Proof.
  intros h h2 start c0. split.
  - destruct (usb_serves_like_tcp 4096 zlen (fun _ _ _ m => m) (fun _ => false) (fun _ _ _ m => m) (fun _ => true) 4
      None c0 start h (str "ab") [str "cd"] (Request.Smart 7 (Request.new_handler [Request.APod 4] 4))
      [] [Request.Invoke [Request.Pod (str "abcd")]]) as (z' & c' & r' & evs' & E1 & E2 & _ & _ & L1 & L2 & _ & _ & Heq);
      [done|by split|by split|done|split; cbn; lia|done|reflexivity|reflexivity|by repeat constructor|reflexivity|].
    exists z', c', r'. split_and!; [exact E1|exact E2|exact L1|]. rewrite L2. by rewrite (Heq eq_refl).
  - destruct (usb_serves_like_tcp 4096 zlen (fun _ _ _ m => m) (fun _ => false) (fun _ _ _ m => m) (fun _ => true) 4
      None c0 start h2 (le_split 8 4) [str "abcd"] (Request.Smart 8 (Request.new_handler [Request.AStream] 12))
      [] [Request.Invoke [Request.Stream 4]; Request.Received (str "abcd"); Request.Received []; Request.Finished []])
      as (z' & c' & r' & evs' & E1 & E2 & _ & _ & L1 & L2 & _);
      [done|by split|by split|done|split; cbn; lia|done|reflexivity|reflexivity|by repeat constructor|reflexivity|].
    exists z', c', r', evs'. split_and!; [exact E1|exact E2|exact L1|exact L2|].
    vm_compute in E2. injection E2 as <-. vm_compute in L2. destruct evs' as [|e [|? ?]]; try discriminate L2.
    injection L2 as <-. reflexivity.
Defined.

(** a response to another request discards the one at hand.  When a response begins while a
    payload is being received, the reader forgets the handler: the rest of the payload is taken
    and the reader is ready for the next request, but nothing more happens for this one, which is
    neither invoked nor answered. *)
Theorem usb_late_answer_discards heap receive func begins oom h got rh b r ps ids size :
  mid r h got rh b → data_posted r = Some (DataUrb size) → 0 ≤ got → ps ≠ [] →
  Forall (fun p => 0 < zlen p) ps → got + zlen (concat ps) = payload_size h → header_ok h →
  object_count h * 4 ≤ buffer_size → zlen ids = object_count h * 4 →
  ∃ r', run heap receive func begins oom (Answer :: map (fun p => Data (succeeded p) true) ps ++
      (if 0 <? object_count h then [Data (succeeded ids) true] else [])) r = Done r' ∧
    idle r' ∧ log r' = log r.
Proof.
  intros Hm Hp Hg Hne Hps Hsz Hok Hc Hids. cbn [run step handle mbind outcome_bind].
  destruct (pieces_handled heap receive func begins oom h ps (ResetHandler r) got Request.Discarding b [] ids size)
    as (r' & E & Hi & Hl); try done; [by destruct Hm|apply heard_discarding|].
  exists r'. split_and!; [exact E|done|]. by rewrite Hl, app_nil_r.
Qed.

(** a request over USB is served.  Between requests, a header that completes, its
    payload in any pieces (none if it is empty) and its object ids open the request,
    give its handler exactly the payload, finalize it once, answer under its tag, and
    leave the reader between requests. *)
Theorem usb_request_served heap receive func begins oom h ps r rh es evs ids :
  idle r → header_ok h → TcpBridge.opened (objects r) h = (rh, es) →
  Forall (fun p => 0 < zlen p) ps → zlen (concat ps) = payload_size h →
  object_count h * 4 ≤ buffer_size → zlen ids = object_count h * 4 →
  heard heap receive begins h (log r ++ TcpBridge.tagged h es) rh [] ps = Done evs →
  ∃ r', run heap receive func begins oom (request_events h ps ids) r = Done r' ∧ idle r' ∧
    log r' = log r ++ TcpBridge.tagged h (es ++ evs).
Proof. apply usb_serves. Qed.

Lemma usb_request_served_witness :
  ∃ r', run 4096 zlen (fun _ _ _ m => m) (fun _ => true) 4
      (request_events (mkHeader 1 0 7 9 4 1 0) [str "ab"; str "cd"] (str "wxyz"))
      (Begin [Request.mk_command 7 [Request.APod 4]] true) = Done r' ∧
    idle r' ∧
    log r' = [] ++ TcpBridge.tagged (mkHeader 1 0 7 9 4 1 0)
      ([] ++ [Request.Invoke [Request.Pod (str "abcd")]]).
Proof.
  apply (usb_request_served 4096 zlen (fun _ _ _ m => m) (fun _ => true) 4 (mkHeader 1 0 7 9 4 1 0)
    [str "ab"; str "cd"] (Begin [Request.mk_command 7 [Request.APod 4]] true)
    (Request.Smart 7 (Request.new_handler [Request.APod 4] 4))
    [] [Request.Invoke [Request.Pod (str "abcd")]] (str "wxyz")).
  - by split.
  - split; cbn; lia.
  - reflexivity.
  - repeat constructor.
  - reflexivity.
  - done.
  - reflexivity.
  - reflexivity.
Defined.

(** a request that overtakes the end of another ends the process.  The header's
    buffer is posted again at once; when the next request's header completes before the
    last piece of a payload is handled (the host may send it as soon as the piece is
    across), it replaces the request at hand, which is never answered, and the piece's
    completion is then looked for among the object ids' and ends the process. *)
Theorem usb_reader_overtaken heap receive func begins oom r h1 h2 p rh1 es1 rh2 es2 evs2 :
  idle r → header_ok h1 → header_ok h2 → TcpBridge.opened (objects r) h1 = (rh1, es1) →
  0 < payload_size h1 → payload_size h2 = 0 → object_count h2 = 0 →
  (∀ r1, handle heap receive func begins oom (Meta (succeeded (encode_header h1)) true true) r = Done r1 →
    TcpBridge.opened (objects r1) h2 = (rh2, es2)) →
  TcpBridge.handle heap receive rh2 [] [] = Done evs2 →
  ∃ r2, run heap receive func begins oom [Meta (succeeded (encode_header h1)) true true;
        Meta (succeeded (encode_header h2)) true true] r = Done r2 ∧
    log r2 = log r ++ TcpBridge.tagged h1 es1 ++ TcpBridge.tagged h2 (es2 ++ evs2) ∧
    ∀ ok, step heap receive func begins oom (Data (succeeded p) ok) r2 = Aborts TWILI_ERR_FATAL_USB_TRANSFER.
Proof.
  intros Hi Hok1 Hok2 Hop1 Hp1 Hp2 Hc2 Hop2 Hh2.
  destruct (header_opens heap receive func begins h1 r rh1 es1 Hi Hok1 Hop1) as (r1 & E1 & Hm1 & Hl1).
  cbn [run step]. destruct (idle_waits _ Hi) as [Hw Hdw]. rewrite Hw. cbn [handle] in Hop2 |- *.
  rewrite E1 in Hop2 |- *. rewrite (proj2 (Z.ltb_lt 0 (payload_size h1))) in Hop2 |- * by lia.
  cbn [next mbind outcome_bind] in Hop2 |- *.
  set (r1' := PostMetaBuffer true (PostDataBuffer h1 true r1)) in *.
  destruct (overtaking heap receive func begins h1 h2 rh1 rh2 es2 evs2 r1') as (r2 & E2 & Hl2 & Hmw & Hh & Hg & Hd & Hdw2);
    [by destruct Hm1|done|by apply Hop2|done|done|done|].
  assert (meta_wait r1' = true) as -> by (by destruct (mid_waits _ _ _ _ _ Hm1)).
  rewrite E2. exists (PostMetaBuffer true r2). split; [done|]. split.
  - change (log r2 = log r ++ TcpBridge.tagged h1 es1 ++ TcpBridge.tagged h2 (es2 ++ evs2)).
    rewrite Hl2. change (log r1') with (log r1). by rewrite Hl1, <- app_assoc.
  - intros ok. cbn [step data_wait PostMetaBuffer set_posted]. rewrite Hdw2. cbn [handle].
    unfold DataTransactionCompleted. cbn [current_header PostMetaBuffer set_posted payload_received data_posted].
    rewrite Hh, Hg, Hd, Hp2. reflexivity.
Qed.

Lemma usb_reader_overtaken_witness :
  ∃ r2, run 4096 zlen (fun _ _ _ m => m) (fun _ => true) 4
      [Meta (succeeded (encode_header (mkHeader 1 0 7 9 4 0 0))) true true;
       Meta (succeeded (encode_header (mkHeader 1 5 7 10 0 0 0))) true true]
      (Begin [Request.mk_command 7 [Request.APod 4]] true) = Done r2 ∧
    log r2 = [] ++ TcpBridge.tagged (mkHeader 1 0 7 9 4 0 0) [] ++
      TcpBridge.tagged (mkHeader 1 5 7 10 0 0 0)
        ([Request.RespondError TWILI_ERR_PROTOCOL_UNRECOGNIZED_OBJECT] ++ []) ∧
    ∀ ok, step 4096 zlen (fun _ _ _ m => m) (fun _ => true) 4 (Data (succeeded (str "abcd")) ok) r2
      = Aborts TWILI_ERR_FATAL_USB_TRANSFER.
Proof.
  apply (usb_reader_overtaken 4096 zlen (fun _ _ _ m => m) (fun _ => true) 4
    (Begin [Request.mk_command 7 [Request.APod 4]] true)
    (mkHeader 1 0 7 9 4 0 0) (mkHeader 1 5 7 10 0 0 0) (str "abcd")
    (Request.Smart 7 (Request.new_handler [Request.APod 4] 4)) [] Request.Discarding).
  - by split.
  - split; cbn; lia.
  - split; cbn; lia.
  - reflexivity.
  - done.
  - done.
  - done.
  - intros r1 E. assert (objects r1 = [(0, [Request.mk_command 7 [Request.APod 4]])]) as ->.
    { vm_compute in E. by injection E as <-. }
    reflexivity.
  - reflexivity.
Defined.

(** an exception that is not handled stops the reader.  When a piece makes the
    handler throw [std::length_error] (a vector's length of 2^63 does), the interface is
    reset and the callback for the payload is dropped: no piece of any later request is
    handled again. *)
Theorem usb_exception_stops_data heap receive func begins oom r h got rh b p size ok :
  mid r h got rh b → data_posted r = Some (DataUrb size) → 0 ≤ got → 0 < zlen p →
  got + zlen p ≤ payload_size h → payload_size h < 2 ^ 64 →
  Request.handler_flush heap receive rh (b ++ p) = Throws length_error →
  ∃ r', step heap receive func begins oom (Data (succeeded p) ok) r = Done r' ∧
    resets r' = resets r + 1 ∧ log r' = log r ∧
    ∀ rep ok', step heap receive func begins oom (Data rep ok') r' = Done r'.
Proof.
  intros [H1 H2 H3 H4 H5 [H6 H7]] Hp Hg Hpos Hle Hlt E. cbn [step]. rewrite H7. cbn [handle].
  unfold DataTransactionCompleted. rewrite H1, H2, Hp.
  rewrite (proj2 (Z.eqb_neq got (payload_size h))) by lia.
  cbn [urb_status transferred succeeded]. change (3 =? 3) with true. cbn [negb].
  rewrite u64_small by lia. rewrite (proj2 (Z.ltb_ge _ _)) by lia.
  unfold flush. cbn [current_handler set_payload payload_buffer]. rewrite H4, H3, E.
  cbn [mbind outcome_bind]. eexists. split; [reflexivity|]. done.
Qed.

Lemma usb_exception_stops_data_witness :
  ∃ r r', step 4096 zlen (fun _ _ _ m => m) (fun _ => true) 4
      (Meta (succeeded (encode_header (mkHeader 1 0 7 9 16 0 0))) true true)
      (Begin [Request.mk_command 7 [Request.AVector 1]] true) = Done r ∧
    step 4096 zlen (fun _ _ _ m => m) (fun _ => true) 4
      (Data (succeeded (le_split 8 (2 ^ 63))) true) r = Done r' ∧
    resets r' = resets r + 1 ∧ log r' = log r ∧
    ∀ rep ok', step 4096 zlen (fun _ _ _ m => m) (fun _ => true) 4 (Data rep ok') r' = Done r'.
Proof.
  eexists. unshelve epose proof (usb_exception_stops_data 4096 zlen (fun _ _ _ m => m) (fun _ => true) 4
    (PostMetaBuffer true (PostDataBuffer (mkHeader 1 0 7 9 16 0 0) true
      (BeginProcessingCommand (fun _ _ _ m => m) (fun _ => true) (mkHeader 1 0 7 9 16 0 0)
        (ResetHandler (set_header (Begin [Request.mk_command 7 [Request.AVector 1]] true)
          (mkHeader 1 0 7 9 16 0 0))))))
    (mkHeader 1 0 7 9 16 0 0) 0 (Request.Smart 7 (Request.new_handler [Request.AVector 1] 16))
    [] (le_split 8 (2 ^ 63)) 16 true _ _ _ _ _ _ _) as (r' & H); [..|exists r'; split; [reflexivity|exact H]].
  - by split.
  - reflexivity.
  - lia.
  - reflexivity.
  - discriminate.
  - reflexivity.
  - reflexivity.
Defined.

End UsbReader.
