(* ===== verification/Files.v ===== *)
(** * twili/process/fs: the files of a process, and NRO files as NSO files

    A homebrew program is an NRO file; the system's loader takes NSO files.  A process
    shows the loader a virtual file system ([ProcessFileSystem]) whose [/main] is an NSO
    header made up in memory followed by the segments of the NRO, each read from the NRO
    when it is asked for ([TransmutationFile]).

    The class [ProcessFile] is the interface of the files, [FileLaws] what the
    transmutation relies on: inside its contents a file reads the contents.  The three
    kinds of file are instances, the transmuted one over any other. *)
From S2P Require Import Prelude Err Protocol.
Import Protocol.

Module Files.
Import Err.

Definition EOK : Z := 0.
(** A result code, and the bytes read. *)
Class ProcessFile (F : Type) := Read : F → Z → Z → outcome (Z * bytes).

(** ** VectorFile *)

Record VectorFile : Type := mk_VectorFile { vector : bytes }.

(** An iterator beyond the end is undefined. *)
Definition VectorFile_Read (f : VectorFile) (offset size : Z) : outcome (Z * bytes) :=
  let actual_size := Z.min (u64 (zlen (vector f) - offset)) size in
  if zlen (vector f) <? offset then Undefined
  else Done (EOK, ztake actual_size (zdrop offset (vector f))).
Definition VectorFile_GetSize (f : VectorFile) : Z * Z := (EOK, zlen (vector f)).
#[export] Instance VectorFile_file : ProcessFile VectorFile := VectorFile_Read.

(** ** ActualFile *)

(** A file of the C library: what it holds, and whether its device still answers. *)
Record FILE : Type := mk_FILE { holds : bytes; answers : bool }.
(** The offset is a [long]: half of [size_t]'s values are negative. *)
Definition fseek (f : FILE) (offset : Z) : bool := answers f && (offset <? 2 ^ 63).

Record ActualFile : Type := mk_ActualFile { file : FILE; cached_size : option Z }.

Definition ActualFile_new (f : option FILE) : outcome ActualFile :=
  match f with None => Aborts TWILI_ERR_IO_ERROR | Some f => Done (mk_ActualFile f None) end.
Definition ActualFile_Open (fopen : string → option FILE) (path : string) :
    outcome (Z * option ActualFile) :=
  match fopen path with
  | None => Done (TWILI_ERR_IO_ERROR, None)
  | f => a ← ActualFile_new f; Done (EOK, Some a)
  end.
Definition ActualFile_Read (f : ActualFile) (offset size : Z) : outcome (Z * bytes) :=
  if negb (fseek (file f) offset) then Done (TWILI_ERR_IO_ERROR, [])
  else Done (EOK, ztake size (zdrop offset (holds (file f)))).
Definition ActualFile_GetSize (f : ActualFile) : Z * option Z * ActualFile :=
  match cached_size f with
  | Some n => (EOK, Some n, f)
  | None =>
      if negb (answers (file f)) then (TWILI_ERR_IO_ERROR, None, f)
      else let n := zlen (holds (file f)) in (EOK, Some n, mk_ActualFile (file f) (Some n))
  end.
#[export] Instance ActualFile_file : ProcessFile ActualFile := ActualFile_Read.

(** ** TransmutationFile *)

Inductive Segment (F : Type) : Type :=
| BackedSegment (backing : F) (file_offset size : Z)
| MemorySegment (buffer : bytes) (size : Z).
Arguments BackedSegment {F}.
Arguments MemorySegment {F}.

Record TransmutationFile (F : Type) : Type := mk_TransmutationFile { segments : list (Segment F) }.
Arguments mk_TransmutationFile {F}.
Arguments segments {F}.

Section transmutation.
Context {F : Type} `{ProcessFile F}.

Definition Size (s : Segment F) : Z :=
  match s with BackedSegment _ _ size | MemorySegment _ size => size end.

Definition Segment_Read (s : Segment F) (offset size : Z) : outcome (Z * bytes) :=
  match s with
  | BackedSegment f file_offset _ => Read f (u64 (file_offset + offset)) size
  | MemorySegment buffer _ =>
      if zlen buffer <? offset + size then Undefined
      else Done (EOK, ztake size (zdrop offset buffer))
  end.

(** The loop over the segments; [out] is what has been read. *)
Fixpoint Read_segments (l : list (Segment F)) (segment_begin offset size : Z) (out : bytes) :
    outcome (Z * bytes) :=
  match l with
  | [] => Done (EOK, out)
  | s :: l =>
      if negb (0 <? size) then Done (EOK, out)
      else
        let segment_end := u64 (segment_begin + Size s) in
        if offset <? segment_end then
          let seg_off := u64 (offset - segment_begin) in
          let seg_size := Z.min (u64 (segment_end - offset)) size in
          '(r, data) ← Segment_Read s seg_off seg_size;
          if negb (r =? EOK) then Done (r, [])
          else if zlen data <? seg_size then Done (TWILI_ERR_IO_ERROR, out ++ data)
          else Read_segments l segment_end (u64 (offset + seg_size)) (size - seg_size) (out ++ data)
        else Read_segments l segment_end offset size out
  end.
Definition TransmutationFile_Read (f : TransmutationFile F) (offset size : Z) : outcome (Z * bytes) :=
  Read_segments (segments f) 0 offset size [].
Definition TransmutationFile_GetSize (f : TransmutationFile F) : Z * Z :=
  (EOK, foldl (fun total s => u64 (total + Size s)) 0 (segments f)).
#[export] Instance TransmutationFile_file : ProcessFile (TransmutationFile F) :=
  TransmutationFile_Read.

(** ** NSOTransmutationFile *)

Record SegmentHeader : Type := mk_SegmentHeader {
  file_offset : Z;
  memory_offset : Z;
  decompressed_size : Z }.

Record Header : Type := mk_Header {
  magic : Z;
  text_header : SegmentHeader;
  rodata_header : SegmentHeader;
  data_header : SegmentHeader;
  bss_size : Z;
  build_id : bytes }.

Definition encode_SegmentHeader (h : SegmentHeader) : bytes :=
  le_split 4 (file_offset h) ++ le_split 4 (memory_offset h) ++ le_split 4 (decompressed_size h).
(** The struct's representation: the members that are never set are zero. *)
Definition encode_Header (h : Header) : bytes :=
  le_split 4 (magic h) ++ zreplicate 12 Byte.x00 ++
  encode_SegmentHeader (text_header h) ++ zreplicate 4 Byte.x00 ++
  encode_SegmentHeader (rodata_header h) ++ zreplicate 4 Byte.x00 ++
  encode_SegmentHeader (data_header h) ++ le_split 4 (bss_size h) ++
  build_id h ++ zreplicate 160 Byte.x00.

Definition sizeof_Header : Z := 256.

(** The constructor; [build_id] is null or points to 32 bytes. *)
Definition NSOTransmutationFile_header (text rodata data : Segment F) (bss : Z) (id : option bytes) :
    Header :=
  let o1 := sizeof_Header in
  let t := mk_SegmentHeader (u32 o1) (u32 0) (u32 (Size text)) in
  let o2 := u64 (o1 + decompressed_size t) in
  let m2 := u64 (0 + decompressed_size t) in
  let r := mk_SegmentHeader (u32 o2) (u32 m2) (u32 (Size rodata)) in
  let o3 := u64 (o2 + decompressed_size r) in
  let m3 := u64 (m2 + decompressed_size r) in
  let d := mk_SegmentHeader (u32 o3) (u32 m3) (u32 (Size data)) in
  mk_Header 810505038 t r d (u32 bss) (default (zreplicate 32 Byte.x00) id).
Definition NSOTransmutationFile (text rodata data : Segment F) (bss : Z) (id : option bytes) :
    TransmutationFile F :=
  mk_TransmutationFile
    [MemorySegment (encode_Header (NSOTransmutationFile_header text rodata data bss id)) sizeof_Header;
     text; rodata; data].

(** ** NRONSOTransmutationFile *)

Record NROSegmentHeader : Type := mk_NROSegmentHeader { nro_offset : Z; nro_size : Z }.
Record NROHeader : Type := mk_NROHeader {
  nro_magic : Z;
  nro_segments : NROSegmentHeader * NROSegmentHeader * NROSegmentHeader;
  nro_bss_size : Z;
  nro_build_id : bytes }.

Definition decode_NROHeader (l : bytes) : NROHeader :=
  mk_NROHeader (field l 0 4)
    (mk_NROSegmentHeader (field l 16 4) (field l 20 4),
     mk_NROSegmentHeader (field l 24 4) (field l 28 4),
     mk_NROSegmentHeader (field l 32 4) (field l 36 4))
    (field l 40 4) (ztake 32 (zdrop 48 l)).

Definition NROHeader_Read (nro : F) : outcome (Z * option NROHeader) :=
  '(r, data) ← Read nro 16 112;
  if negb (r =? EOK) || (zlen data <? 112) || negb (field data 0 4 =? 810504782)
  then Done (TWILI_ERR_INVALID_NRO, None)
  else Done (EOK, Some (decode_NROHeader data)).

Definition Create (nro : F) : outcome (Z * option (TransmutationFile F)) :=
  '(r, h) ← NROHeader_Read nro;
  match h with
  | None => Done (r, None)
  | Some h =>
      let '(t, ro, d) := nro_segments h in
      let segment s := BackedSegment nro (nro_offset s) (nro_size s) in
      Done (EOK, Some (NSOTransmutationFile (segment t) (segment ro) (segment d)
                         (nro_bss_size h) (Some (nro_build_id h))))
  end.
End transmutation.

(** ** ProcessFileSystem *)

Section filesystem.
Context {F : Type} `{ProcessFile F}.

Record ProcessFileSystem : Type := mk_ProcessFileSystem {
  rtld : option F;
  main : option F;
  npdm : option F }.
Definition SetRtld (p : ProcessFileSystem) (f : F) := mk_ProcessFileSystem (Some f) (main p) (npdm p).
Definition SetMain (p : ProcessFileSystem) (f : F) := mk_ProcessFileSystem (rtld p) (Some f) (npdm p).
Definition SetNpdm (p : ProcessFileSystem) (f : F) := mk_ProcessFileSystem (rtld p) (main p) (Some f).

(** [!strncmp(a, b, n)]; a comparison that leaves the buffer finds a difference. *)
Fixpoint same_prefix (n : nat) (a b : bytes) : bool :=
  match n with
  | O => true
  | S n =>
      match a, b with
      | x :: a, y :: b => bool_decide (x = y) && (bool_decide (x = Byte.x00) || same_prefix n a b)
      | _, _ => false
      end
  end.

(** [path] is the buffer.  The code is the one of a file that does not exist. *)
Definition OpenFile (p : ProcessFileSystem) (path : bytes) : Z * option F :=
  let named s := same_prefix (length path) path (str s ++ [Byte.x00]) in
  let file :=
    if named "/main" then main p
    else if named "/rtld" then rtld p
    else if named "/main.npdm" then npdm p
    else None in
  match file with None => (514, None) | Some f => (EOK, Some f) end.

(** [IFile::Read] of an opened file, with the size of the caller's buffer. *)
Definition IFile_Read (f : F) (offset in_size buffer_size : Z) : outcome (Z * bytes) :=
  Read f offset (Z.min in_size buffer_size).
End filesystem.
Arguments ProcessFileSystem : clear implicits.

(** ** Specification *)

(** What the transmutation relies on: a readable file has contents, and a read that starts
    inside them reads them, up to their end. *)
Class FileLaws (F : Type) `{ProcessFile F} := {
  contents : F → bytes;
  readable : F → Prop;
  readable_small f : readable f → zlen (contents f) < 2 ^ 63;
  reads_contents f offset size :
    readable f → 0 ≤ offset ≤ zlen (contents f) → 0 ≤ size →
    Read f offset size = Done (EOK, ztake size (zdrop offset (contents f))) }.

Section specification.
Context {F : Type} `{FileLaws F}.

Definition seg_contents (s : Segment F) : bytes :=
  match s with
  | BackedSegment f offset size => ztake size (zdrop offset (contents f))
  | MemorySegment buffer size => ztake size buffer
  end.
(** The segment lies inside what backs it. *)
Definition seg_ok (s : Segment F) : Prop :=
  match s with
  | BackedSegment f offset size =>
      readable f ∧ 0 ≤ offset ∧ 0 ≤ size ∧ offset + size ≤ zlen (contents f)
  | MemorySegment buffer size => 0 ≤ size ≤ zlen buffer
  end.
Definition all_contents (l : list (Segment F)) : bytes := concat (map seg_contents l).
End specification.

Definition decode_SegmentHeader (l : bytes) (off : Z) : SegmentHeader :=
  mk_SegmentHeader (field l off 4) (field l (off + 4) 4) (field l (off + 8) 4).
Definition decode_Header (l : bytes) : Header :=
  mk_Header (field l 0 4) (decode_SegmentHeader l 16) (decode_SegmentHeader l 32)
    (decode_SegmentHeader l 48) (field l 60 4) (ztake 32 (zdrop 64 l)).

(** What a loader of NSO files does: it reads the header, and puts every segment where the
    header says. *)
Record module_image : Type := mk_module {
  placed : list (Z * bytes);
  bss : Z;
  id : bytes }.
Definition load {F} `{ProcessFile F} (nso : F) : outcome (option module_image) :=
  let segment h :=
    '(r, l) ← Read nso (file_offset h) (decompressed_size h);
    Done (if r =? EOK then Some (memory_offset h, l) else None) in
  '(r, l) ← Read nso 0 sizeof_Header;
  let h := decode_Header l in
  if negb (r =? EOK) || negb (zlen l =? sizeof_Header) || negb (magic h =? 810505038) then Done None
  else
    t ← segment (text_header h);
    ro ← segment (rodata_header h);
    d ← segment (data_header h);
    Done (match t, ro, d with
          | Some t, Some ro, Some d => Some (mk_module [t; ro; d] (bss_size h) (build_id h))
          | _, _, _ => None
          end).

(** What an NRO file says of itself. *)
Definition nro_header {F} `{FileLaws F} (nro : F) : NROHeader :=
  decode_NROHeader (ztake 112 (zdrop 16 (contents nro))).
Definition nro_segment {F} `{FileLaws F} (nro : F) (s : NROSegmentHeader) : bytes :=
  ztake (nro_size s) (zdrop (nro_offset s) (contents nro)).
Record nro_ok {F} `{FileLaws F} (nro : F) : Prop := {
  nro_readable : readable nro;
  nro_long : 128 ≤ zlen (contents nro);
  nro_magic_ok : nro_magic (nro_header nro) = 810504782;
  nro_inside : let '(t, ro, d) := nro_segments (nro_header nro) in
    Forall (fun s => nro_offset s + nro_size s ≤ zlen (contents nro)) [t; ro; d] ∧
    sizeof_Header + nro_size t + nro_size ro + nro_size d < 2 ^ 32 }.

(** An example: 128 bytes of header and code, constants, data. *)
Definition ex_nro : bytes :=
  zreplicate 16 Byte.x00 ++ le_split 4 810504782 ++ zreplicate 12 Byte.x00 ++
  encode_u32s [0; 128; 128; 6; 134; 4; 4096; 0] ++ zreplicate 32 Byte.x01 ++
  zreplicate 32 Byte.x00 ++ str "consts" ++ str "data".

(** ** Lemmas *)

#[export] Instance VectorFile_laws : FileLaws VectorFile.
Proof.
  refine {| contents := vector; readable f := zlen (vector f) < 2 ^ 63 |}; [done|].
  intros f off sz Hr Ho Hs. unfold Read, VectorFile_file, VectorFile_Read.
  rewrite (proj2 (Z.ltb_ge (zlen (vector f)) off)) by lia. rewrite u64_small by lia.
  do 2 f_equal. destruct (Z.min_spec (zlen (vector f) - off) sz) as [[? ->]|[? ->]]; [|done].
  assert (zlen (zdrop off (vector f)) = zlen (vector f) - off) by zlia.
  by rewrite (ztake_all (zlen (vector f) - off)), (ztake_all sz) by lia.
Defined.

#[export] Instance ActualFile_laws : FileLaws ActualFile.
Proof.
  refine {| contents f := holds (file f);
            readable f := answers (file f) = true ∧ zlen (holds (file f)) < 2 ^ 63 |}; [by intros f []|].
  intros f off sz [Ha Hr] Ho Hs. unfold Read, ActualFile_file, ActualFile_Read, fseek.
  rewrite Ha, (proj2 (Z.ltb_lt off (2 ^ 63))) by lia. done.
Defined.

Section reading.
Context {F : Type} `{FileLaws F}.

Lemma zlen_seg_contents s : seg_ok s → zlen (seg_contents s) = Size s.
Proof.
  destruct s as [f o n|b n]; cbn [seg_ok seg_contents Size].
  - intros (_ & Ho & Hn & Hin). zlia.
  - intros Hb. zlia.
Qed.

Lemma Segment_Read_slice s off sz :
  seg_ok s → 0 ≤ off → 0 ≤ sz → off + sz ≤ Size s →
  Segment_Read s off sz = Done (EOK, ztake sz (zdrop off (seg_contents s))).
Proof.
  destruct s as [f o n|b n]; cbn.
  - intros (Hr & Ho & Hn & Hin) Hoff Hsz Hle. pose proof (readable_small _ Hr).
    rewrite u64_small by lia. rewrite reads_contents by (done || lia).
    rewrite zdrop_ztake, ztake_ztake, zdrop_zdrop by lia. by rewrite Z.min_l by lia.
  - intros Hb Hoff Hsz Hle. rewrite (proj2 (Z.ltb_ge _ _)) by lia.
    rewrite zdrop_ztake, ztake_ztake by lia. by rewrite Z.min_l by lia.
Qed.

Lemma Read_segments_slice l b off sz out :
  Forall seg_ok l → 0 ≤ b ≤ off → 0 ≤ sz → off < 2 ^ 64 → b + zlen (all_contents l) < 2 ^ 64 →
  Read_segments l b off sz out = Done (EOK, out ++ ztake sz (zdrop (off - b) (all_contents l))).
Proof.
  intros Hl. revert b off sz out. induction Hl as [|s l Hs Hl IH]; intros b off sz out Hb Hsz Hoff Ht.
  { cbn. unfold zdrop, ztake. by rewrite drop_nil, take_nil, app_nil_r. }
  change (all_contents (s :: l)) with (seg_contents s ++ all_contents l) in *.
  pose proof (zlen_seg_contents s Hs) as Hz. rewrite zlen_app in Ht.
  pose proof (zlen_nonneg (seg_contents s)). pose proof (zlen_nonneg (all_contents l)).
  cbn [Read_segments]. destruct (Z.ltb_spec 0 sz); cbn [negb];
    [|by rewrite ztake_0, app_nil_r by lia].
  rewrite u64_small by lia. destruct (Z.ltb_spec off (b + Size s)) as [Hin|Hout].
  - rewrite !u64_small by lia. set (n := Z.min (b + Size s - off) sz).
    rewrite Segment_Read_slice by (done || lia). cbn [mbind outcome_bind]. change (EOK =? EOK) with true.
    cbn [negb]. rewrite (proj2 (Z.ltb_ge _ _)) by zlia.
    rewrite zdrop_app_le by lia.
    destruct (Z.min_spec (b + Size s - off) sz) as [[Hc E]|[Hc E]]; fold n in E; rewrite E.
    + rewrite IH by lia. rewrite <- app_assoc. do 3 f_equal.
      rewrite (ztake_all (b + Size s - off)) by zlia. rewrite ztake_app_ge by zlia.
      rewrite (zdrop_0 (off + _ - _)) by lia. f_equal. f_equal. zlia.
    + rewrite Z.sub_diag. rewrite ztake_app_le by zlia.
      destruct l; cbn [Read_segments Z.ltb Z.compare negb]; done.
  - rewrite IH by lia. rewrite zdrop_app_ge by lia. rewrite Hz.
    by replace (off - (b + Size s)) with (off - b - Size s) by lia.
Qed.
End reading.

#[export] Instance TransmutationFile_laws {F} `{FileLaws F} : FileLaws (TransmutationFile F).
Proof.
  refine {| contents f := all_contents (segments f);
            readable f := Forall seg_ok (segments f) ∧ zlen (all_contents (segments f)) < 2 ^ 63 |};
    [by intros f []|].
  intros f off sz [Hl Hr] Ho Hs. unfold Read, TransmutationFile_file, TransmutationFile_Read.
  rewrite Read_segments_slice by (done || lia). by rewrite Z.sub_0_r.
Defined.

Lemma field_skip a l off n : zlen a ≤ off → field (a ++ l) off n = field l (off - zlen a) n.
Proof. intros. unfold field. by rewrite zdrop_app_ge. Qed.
Lemma header_field_here n z l off k :
  off = 0 → k = Z.of_nat n → 0 ≤ z < 2 ^ (8 * k) → field (le_split n z ++ l) off k = z.
Proof. intros -> -> Hz. by apply (Protocol.field_at [] n z l). Qed.
Ltac solve_fields := repeat (rewrite field_skip by zlia); apply header_field_here; [zlia|done|lia].

Record segment_header_ok (h : SegmentHeader) : Prop := {
  sho_file : 0 ≤ file_offset h < 2 ^ 32;
  sho_memory : 0 ≤ memory_offset h < 2 ^ 32;
  sho_size : 0 ≤ decompressed_size h < 2 ^ 32 }.
Lemma decode_encode_Header h :
  segment_header_ok (text_header h) → segment_header_ok (rodata_header h) →
  segment_header_ok (data_header h) → 0 ≤ magic h < 2 ^ 32 → 0 ≤ bss_size h < 2 ^ 32 →
  zlen (build_id h) = 32 → decode_Header (encode_Header h) = h.
Proof.
  destruct h as [m [t1 t2 t3] [r1 r2 r3] [d1 d2 d3] b i]. intros [] [] [] Hm Hb Hi. cbn in *.
  unfold decode_Header, encode_Header, decode_SegmentHeader, encode_SegmentHeader. cbn [magic
    text_header rodata_header data_header bss_size build_id file_offset memory_offset decompressed_size].
  rewrite <- !app_assoc. f_equal; [solve_fields|f_equal; solve_fields..|solve_fields|].
  repeat (rewrite zdrop_app_ge by zlia). rewrite zdrop_0 by zlia. by apply ztake_app.
Qed.
Lemma zlen_encode_Header h : zlen (build_id h) = 32 → zlen (encode_Header h) = 256.
Proof. intros. unfold encode_Header, encode_SegmentHeader. zlia. Qed.

Lemma slice_middle (a b c : bytes) off n :
  off = zlen a → n = zlen b → ztake n (zdrop off (a ++ b ++ c)) = b.
Proof. intros -> ->. rewrite zdrop_app by done. by rewrite ztake_app. Qed.

Lemma same_prefix_spec path rest s :
  Byte.x00 ∉ path → Byte.x00 ∉ s →
  same_prefix (length (path ++ Byte.x00 :: rest)) (path ++ Byte.x00 :: rest) (s ++ [Byte.x00]) =
    bool_decide (path = s).
Proof.
  revert s. induction path as [|x path IH]; intros [|y s] Hp Hs; cbn [length app same_prefix].
  - done.
  - apply not_elem_of_cons in Hs as [Hy Hs]. by rewrite (bool_decide_eq_false_2 (Byte.x00 = y)).
  - apply not_elem_of_cons in Hp as [Hx Hp]. by rewrite (bool_decide_eq_false_2 (x = Byte.x00)).
  - apply not_elem_of_cons in Hs as [Hy Hs]. apply not_elem_of_cons in Hp as [Hx Hp].
    destruct (decide (x = y)) as [<-|].
    + rewrite (bool_decide_eq_true_2 (x = x)), (bool_decide_eq_false_2 (x = Byte.x00)) by congruence.
      rewrite IH by done. cbn [andb orb]. apply bool_decide_ext. naive_solver.
    + by rewrite (bool_decide_eq_false_2 (x = y)), (bool_decide_eq_false_2 (x :: path = y :: s))
        by congruence.
Qed.

Section transmuting.
Context {F : Type} `{FileLaws F}.

Lemma NROHeader_Read_ok nro :
  nro_ok nro → NROHeader_Read nro = Done (EOK, Some (nro_header nro)).
Proof.
  intros [Hr Hl Hm _]. unfold NROHeader_Read. rewrite reads_contents by (done || lia).
  cbn [mbind outcome_bind]. change (EOK =? EOK) with true. cbn [negb orb].
  rewrite (proj2 (Z.ltb_ge _ _)) by zlia.
  change (field (ztake 112 (zdrop 16 (contents nro))) 0 4) with (nro_magic (nro_header nro)).
  by rewrite Hm.
Qed.

Lemma nro_header_ranges (nro : F) :
  let '(t, ro, d) := nro_segments (nro_header nro) in
  Forall (fun s => 0 ≤ nro_offset s < 2 ^ 32 ∧ 0 ≤ nro_size s < 2 ^ 32) [t; ro; d] ∧
  0 ≤ nro_bss_size (nro_header nro) < 2 ^ 32.
Proof.
  cbn -[field]. split; [|apply (field_range _ _ 4); lia].
  repeat constructor; cbn -[field]; apply (field_range _ _ 4); lia.
Qed.

(** The contents of a made-up file, and its header when nothing wraps around. *)
Lemma nso_contents t ro d b i :
  zlen i = 32 →
  all_contents (segments (NSOTransmutationFile t ro d b (Some i))) =
  encode_Header (NSOTransmutationFile_header t ro d b (Some i)) ++
    seg_contents t ++ seg_contents ro ++ seg_contents d.
Proof.
  intros Hi. unfold all_contents, NSOTransmutationFile. cbn [segments map concat seg_contents].
  rewrite ztake_all, app_nil_r; [done|]. rewrite zlen_encode_Header; [unfold sizeof_Header; lia|done].
Qed.

Lemma nso_header_small (t ro d : Segment F) b i :
  0 ≤ Size t → 0 ≤ Size ro → 0 ≤ Size d → 256 + Size t + Size ro + Size d < 2 ^ 32 → 0 ≤ b < 2 ^ 32 →
  NSOTransmutationFile_header t ro d b (Some i) =
  mk_Header 810505038 (mk_SegmentHeader 256 0 (Size t))
    (mk_SegmentHeader (256 + Size t) (Size t) (Size ro))
    (mk_SegmentHeader (256 + Size t + Size ro) (Size t + Size ro) (Size d)) b i.
Proof.
  intros. unfold NSOTransmutationFile_header, sizeof_Header. cbn [decompressed_size default].
  rewrite (u32_small (Size t)), (u32_small (Size ro)), (u32_small (Size d)), (u32_small b) by lia.
  rewrite !u64_small by lia. by rewrite !u32_small by lia.
Qed.

Lemma load_nso t ro d b i :
  seg_ok t → seg_ok ro → seg_ok d → 256 + Size t + Size ro + Size d < 2 ^ 32 → 0 ≤ b < 2 ^ 32 →
  zlen i = 32 →
  load (NSOTransmutationFile t ro d b (Some i)) =
  Done (Some (mk_module [(0, seg_contents t); (Size t, seg_contents ro);
    (Size t + Size ro, seg_contents d)] b i)).
Proof.
  intros Ht Hro Hd Hsz Hb Hi. set (nso := NSOTransmutationFile _ _ _ _ _).
  pose proof (zlen_seg_contents t Ht) as Zt. pose proof (zlen_seg_contents ro Hro) as Zr.
  pose proof (zlen_seg_contents d Hd) as Zd. pose proof (nso_contents t ro d b i Hi) as Ec.
  fold nso in Ec. rewrite (nso_header_small t ro d b i) in Ec by zlia.
  set (h := mk_Header _ _ _ _ _ _) in Ec.
  pose proof (zlen_encode_Header h Hi) as Zh.
  assert (∀ off sz, 0 ≤ off ≤ 2 ^ 32 → 0 ≤ sz →
    Read nso off sz = Done (EOK, ztake sz (zdrop off (all_contents (segments nso))))) as HR.
  { intros off sz Ho Hz. unfold Read, TransmutationFile_file, TransmutationFile_Read.
    rewrite Read_segments_slice; [by rewrite Z.sub_0_r| |lia|lia|lia|].
    - repeat constructor; try done. unfold sizeof_Header. rewrite zlen_encode_Header; [lia|done].
    - rewrite Ec, !zlen_app. lia. }
  unfold load. rewrite HR by (unfold sizeof_Header; lia). rewrite Ec.
  rewrite zdrop_0, ztake_app by (done || by rewrite Zh).
  cbn [mbind outcome_bind]. change (EOK =? EOK) with true. rewrite Zh. cbn [negb orb Z.eqb].
  rewrite decode_encode_Header; [|by constructor; cbn; zlia..|done|cbn; lia|done].
  cbn [h magic text_header rodata_header data_header file_offset memory_offset decompressed_size].
  change (sizeof_Header =? sizeof_Header) with true.
  change (810505038 =? 810505038) with true. change (256 =? sizeof_Header) with true. cbn [negb orb].
  rewrite !HR by zlia. rewrite Ec. cbn [mbind outcome_bind]. change (EOK =? EOK) with true. cbn iota.
  rewrite (slice_middle (encode_Header h) (seg_contents t)) by lia.
  rewrite (app_assoc (encode_Header h) (seg_contents t)).
  rewrite (slice_middle (encode_Header h ++ seg_contents t) (seg_contents ro)) by zlia.
  rewrite (app_assoc (encode_Header h ++ seg_contents t)).
  rewrite zdrop_app by zlia. by rewrite ztake_all by zlia.
Qed.
End transmuting.

(** ** Theorems *)

(** C26: a transmuted file reads as its segments one after the other.  Whatever the
    segments, if each lies inside what backs it, a read at any offset gives exactly the
    bytes of their concatenation from there, and stops at its end. *)
Theorem transmutation_reads_segments {F} `{FileLaws F} (f : TransmutationFile F) offset size :
  Forall seg_ok (segments f) → zlen (all_contents (segments f)) < 2 ^ 63 →
  0 ≤ offset < 2 ^ 64 → 0 ≤ size →
  TransmutationFile_Read f offset size =
    Done (EOK, ztake size (zdrop offset (all_contents (segments f)))).
Proof.
  intros Hl Ht Ho Hs. unfold TransmutationFile_Read.
  rewrite Read_segments_slice by (done || lia). by rewrite Z.sub_0_r.
Qed.

Lemma transmutation_reads_segments_witness :
  TransmutationFile_Read (mk_TransmutationFile [MemorySegment (str "abcd") 3;
      BackedSegment (mk_VectorFile (str "0123456789")) 2 5]) 1 4 = Done (EOK, str "bc23").
Proof.
  rewrite (transmutation_reads_segments (mk_TransmutationFile [MemorySegment (str "abcd") 3;
    BackedSegment (mk_VectorFile (str "0123456789")) 2 5]) 1 4).
  - reflexivity.
  - repeat constructor; vm_compute; congruence.
  - reflexivity.
  - lia.
  - lia.
Defined.

(** C25: the loader gets the program of the NRO file.  If the file has an NRO header whose
    segments lie inside it, [Create] makes an NSO file; a loader that reads its header and
    its segments finds the NRO's three segments, back to back from address zero, its BSS
    and its build id; and if the NRO's segments follow each other, what it has in memory
    is the NRO file from its beginning. *)
Theorem nso_loads_the_nro {F} `{FileLaws F} (nro : F) :
  nro_ok nro →
  let h := nro_header nro in
  let '(t, ro, d) := nro_segments h in
  ∃ nso, Create nro = Done (EOK, Some nso) ∧
    load nso = Done (Some (mk_module [(0, nro_segment nro t); (nro_size t, nro_segment nro ro);
      (nro_size t + nro_size ro, nro_segment nro d)] (nro_bss_size h) (nro_build_id h))) ∧
    (nro_offset t = 0 → nro_offset ro = nro_size t → nro_offset d = nro_size t + nro_size ro →
     nro_segment nro t ++ nro_segment nro ro ++ nro_segment nro d =
       ztake (nro_size t + nro_size ro + nro_size d) (contents nro)).
Proof.
  intros Hok. pose proof (NROHeader_Read_ok nro Hok) as E. pose proof (nro_header_ranges nro) as Hr.
  pose proof (nro_inside nro Hok) as Hin. cbn zeta.
  destruct (nro_segments (nro_header nro)) as [[t ro] d] eqn:Es.
  destruct Hin as [Hin Hsz]. destruct Hr as [Hr Hb].
  rewrite !Forall_cons in Hin, Hr. unfold sizeof_Header in Hsz. eexists. split.
  { unfold Create. rewrite E. cbn [mbind outcome_bind]. rewrite Es. reflexivity. }
  split.
  - apply (load_nso (BackedSegment nro (nro_offset t) (nro_size t))
      (BackedSegment nro (nro_offset ro) (nro_size ro))
      (BackedSegment nro (nro_offset d) (nro_size d))); try done.
    1-3: split_and!; [apply (nro_readable nro Hok)|lia..].
    pose proof (nro_long nro Hok). cbn [nro_header decode_NROHeader nro_build_id]. zlia.
  - intros Et Er Ed. unfold nro_segment. rewrite Et, Er, Ed, zdrop_0 by lia.
    rewrite <- (ztake_zdrop (nro_size t) (contents nro)) at 4.
    rewrite ztake_app_ge by zlia. f_equal.
    rewrite <- (ztake_zdrop (nro_size ro) (zdrop (nro_size t) (contents nro))) at 2.
    rewrite ztake_app_ge by zlia. f_equal. rewrite zdrop_zdrop by lia. f_equal. zlia.
Qed.

Lemma nso_loads_the_nro_witness :
  ∃ nso, Create (mk_VectorFile ex_nro) = Done (EOK, Some nso) ∧
    load nso = Done (Some (mk_module [(0, ztake 128 ex_nro); (128, str "consts"); (134, str "data")]
      4096 (zreplicate 32 Byte.x01))).
Proof.
  destruct (nso_loads_the_nro (mk_VectorFile ex_nro)) as (nso & Hc & Hl & _).
  - constructor; [reflexivity|vm_compute; congruence|reflexivity|].
    split; [repeat constructor; vm_compute; congruence|reflexivity].
  - exists nso. split; [exact Hc|exact Hl].
Defined.

(** a file that is not an NRO file is refused, and nothing is made of it: one that is
    too short for the header, one whose device does not answer, one without the magic
    number. *)
Theorem nro_refused {F} `{FileLaws F} (nro : F) :
  readable nro → 16 ≤ zlen (contents nro) →
  zlen (contents nro) < 128 ∨ nro_magic (nro_header nro) ≠ 810504782 →
  Create nro = Done (TWILI_ERR_INVALID_NRO, None).
Proof.
  intros Hr Hl Hbad. unfold Create, NROHeader_Read. rewrite reads_contents by (done || lia).
  cbn [mbind outcome_bind]. change (EOK =? EOK) with true. cbn [negb orb].
  destruct (Z.ltb_spec (zlen (ztake 112 (zdrop 16 (contents nro)))) 112) as [|Hlen]; [done|].
  destruct Hbad as [Hs|Hm]; [zlia|]. cbn [orb].
  change (field (ztake 112 (zdrop 16 (contents nro))) 0 4) with (nro_magic (nro_header nro)).
  by rewrite (proj2 (Z.eqb_neq _ _)).
Qed.

Lemma nro_refused_witness :
  Create (mk_VectorFile (zreplicate 64 Byte.x00)) = Done (TWILI_ERR_INVALID_NRO, None).
Proof. apply nro_refused; [reflexivity|vm_compute; congruence|left; reflexivity]. Defined.

(** the virtual file system has three files.  A path in a buffer, ended by a zero
    byte, opens [/main], [/rtld] or [/main.npdm] and no other file, whatever the buffer
    holds after it. *)
Theorem exefs_files {F} (p : ProcessFileSystem F) path rest :
  Byte.x00 ∉ path →
  OpenFile p (path ++ Byte.x00 :: rest) =
    match (if bool_decide (path = str "/main") then main p
           else if bool_decide (path = str "/rtld") then rtld p
           else if bool_decide (path = str "/main.npdm") then npdm p else None) with
    | Some f => (EOK, Some f)
    | None => (514, None)
    end.
Proof.
  intros Hp. unfold OpenFile.
  rewrite !same_prefix_spec; [done|try done; apply (bool_decide_unpack _); by vm_compute..].
Qed.

Lemma exefs_files_witness :
  OpenFile (mk_ProcessFileSystem (Some 1) (Some 2) (Some 3)) (str "/main.npdm" ++ Byte.x00 :: zreplicate 19 Byte.x00)
    = (EOK, Some 3).
Proof.
  rewrite (exefs_files (mk_ProcessFileSystem (Some 1) (Some 2) (Some 3)) (str "/main.npdm")
    (zreplicate 19 Byte.x00)); [reflexivity|].
  apply (bool_decide_unpack _). vm_compute. exact I.
Defined.

End Files.
