(* ===== verification/Process.v ===== *)
(** * twili/process: monitored processes and the trackers that launch them

    A client asks for a process, gives it code and launches it; the tracker of its kind
    queues it, and the system's launcher (the control applet, or the shell) takes it from
    the queue, starts a shim, and the shim attaches as the process.  [world] holds the
    processes, the clients' monitors (ITwibProcessMonitor) and both trackers; a process is
    named by its number, as the code shares pointers to it.  What becomes visible outside
    is the [log]: answers under the request's opener, replies to the shim, calls of the
    system.

    [ChangeState] calls the monitors, and the applet tracker's monitor may queue another
    process and end the menu, which changes states again: [depth] bounds how deep.

    The system is outside: which files open ([fopen]; whether the file for received code could be
    made and written is an argument of the steps, kept in [faults]), the memory of a new process
    ([memory]), the results of its services.  Threads are not modelled: the shell tracker's
    thread is a step ([TryToLaunch]). *)
From stdpp Require Import pretty.
From S2P Require Import Prelude Err Files.

Module Process.
Import Err.
Import Files.

Inductive State : Type :=
| Created | Started | Attached | ShimSuspended | Running | Crashed | Exited.
#[export] Instance State_eq_dec : EqDecision State.
Proof. solve_decision. Defined.

Inductive kind : Type := Applet | Shell.

(** Who watches a process: the applet tracker, or a client's monitor. *)
Inductive observer : Type := TrackerMonitor | ClientMonitor (k : nat).
#[export] Instance observer_eq_dec : EqDecision observer.
Proof. solve_decision. Defined.

(** What a process is to load, and what it asked to be loaded next. *)
Record code : Type := mk_code {
  files : list ActualFile;
  argv : string;
  next_load_path : string;
  next_load_argv : string }.

(** A launch: [run_opener] is answered when the process attaches or exits, the callback
    is the shim's that waits to start. *)
Record launch : Type := mk_launch {
  run_opener : option Z;
  suspended_launch_enabled : bool;
  suspended_launch_cb : bool;
  exit_pending : bool;
  ecs_pending : bool }.

Record process : Type := mk_process {
  what : kind;
  state : State;
  result : Z;
  proc : option Z;
  target_entry : Z;
  codes : code;
  launching : launch;
  monitors : list observer;
  kill_timeout : bool;
  commands : list Z }.

Record client : Type := mk_client {
  watches : nat;
  state_changes : list State;
  state_observer : option Z;
  alive : bool }.

Record applet_tracker : Type := mk_applets {
  queued : list nat;
  created : list nat;
  has_control_process : bool;
  process_queued_event : bool;
  hbmenu_nro : option ActualFile;
  hbmenu : option nat;
  monitored : option nat }.          (* monitor.process *)

Record shell_tracker : Type := mk_shells {
  s_queued : list nat;
  s_created : list nat;
  tracking : omap nat;
  tracker_signal : bool }.

Inductive event : Type :=
| RespondOk (opener : Z)
| RespondObject (opener : Z) (k : nat)
| RespondPid (opener pid : Z)
| RespondState (k : nat) (opener : Z) (s : State)
| RespondError (opener code : Z)
| StateIs (p : nat) (s : State)
| StartReply (p : nat) (code : Z)
| ClosePipes (p : nat)
| CallTerminateProcess (pid : Z)
| CallTerminateProgram (pid : Z)
| CallSetECS (p : nat)
| CallClearECS (p : nat).

(** What is wrong with a file that code is received into: it could not be made (there is no
    stream, [NULL]), or a piece could not be written and the request has its error. *)
Inductive fault : Type := NoFile | ShortWrite.
#[local] Instance fault_eq_dec : EqDecision fault.
Proof. solve_decision. Defined.

Record world : Type := mk_world {
  procs : list process;
  clients : list client;
  monitored_processes : list nat;
  applets : applet_tracker;
  shells : shell_tracker;
  log : list event;
  next_index : N;                    (* of the file manager *)
  faults : list (string * fault) }.  (* of its files *)

(** ** Updates *)

Definition set_state (s : State) (x : process) : process :=
  mk_process (what x) s (result x) (proc x) (target_entry x) (codes x) (launching x) (monitors x)
    (kill_timeout x) (commands x).
Definition SetResult (r : Z) (x : process) : process :=
  mk_process (what x) (state x) r (proc x) (target_entry x) (codes x) (launching x) (monitors x)
    (kill_timeout x) (commands x).
Definition set_proc (pid : Z) (x : process) : process :=
  mk_process (what x) (state x) (result x) (Some pid) (target_entry x) (codes x) (launching x)
    (monitors x) (kill_timeout x) (commands x).
Definition set_entry (a : Z) (x : process) : process :=
  mk_process (what x) (state x) (result x) (proc x) a (codes x) (launching x) (monitors x)
    (kill_timeout x) (commands x).
Definition set_code (c : code) (x : process) : process :=
  mk_process (what x) (state x) (result x) (proc x) (target_entry x) c (launching x) (monitors x)
    (kill_timeout x) (commands x).
Definition set_launch (f : launch → launch) (x : process) : process :=
  mk_process (what x) (state x) (result x) (proc x) (target_entry x) (codes x) (f (launching x))
    (monitors x) (kill_timeout x) (commands x).
Definition set_monitors (l : list observer) (x : process) : process :=
  mk_process (what x) (state x) (result x) (proc x) (target_entry x) (codes x) (launching x) l
    (kill_timeout x) (commands x).
Definition set_kill (b : bool) (l : list Z) (x : process) : process :=
  mk_process (what x) (state x) (result x) (proc x) (target_entry x) (codes x) (launching x)
    (monitors x) b l.

Definition set_opener (o : option Z) (l : launch) : launch :=
  mk_launch o (suspended_launch_enabled l) (suspended_launch_cb l) (exit_pending l) (ecs_pending l).
Definition set_enabled (b : bool) (l : launch) : launch :=
  mk_launch (run_opener l) b (suspended_launch_cb l) (exit_pending l) (ecs_pending l).
Definition set_cb (b : bool) (l : launch) : launch :=
  mk_launch (run_opener l) (suspended_launch_enabled l) b (exit_pending l) (ecs_pending l).
Definition set_exit (l : launch) : launch :=
  mk_launch (run_opener l) (suspended_launch_enabled l) (suspended_launch_cb l) true (ecs_pending l).
Definition set_ecs (b : bool) (l : launch) : launch :=
  mk_launch (run_opener l) (suspended_launch_enabled l) (suspended_launch_cb l) (exit_pending l) b.

Definition set_procs (l : list process) (w : world) : world :=
  mk_world l (clients w) (monitored_processes w) (applets w) (shells w) (log w) (next_index w) (faults w).
Definition set_clients (l : list client) (w : world) : world :=
  mk_world (procs w) l (monitored_processes w) (applets w) (shells w) (log w) (next_index w) (faults w).
Definition set_monitored (l : list nat) (w : world) : world :=
  mk_world (procs w) (clients w) l (applets w) (shells w) (log w) (next_index w) (faults w).
Definition set_applets (t : applet_tracker) (w : world) : world :=
  mk_world (procs w) (clients w) (monitored_processes w) t (shells w) (log w) (next_index w) (faults w).
Definition set_shells (t : shell_tracker) (w : world) : world :=
  mk_world (procs w) (clients w) (monitored_processes w) (applets w) t (log w) (next_index w) (faults w).
Definition emit (e : event) (w : world) : world :=
  mk_world (procs w) (clients w) (monitored_processes w) (applets w) (shells w) (log w ++ [e]) (next_index w) (faults w).

Definition set_index (i : N) (w : world) : world :=
  mk_world (procs w) (clients w) (monitored_processes w) (applets w) (shells w) (log w) i (faults w).

Definition add_fault (path : string) (x : fault) (w : world) : world :=
  mk_world (procs w) (clients w) (monitored_processes w) (applets w) (shells w) (log w) (next_index w)
    ((path, x) :: faults w).
Definition has_fault (path : string) (x : fault) (w : world) : bool :=
  bool_decide ((path, x) ∈ faults w).

Definition set_queued (l : list nat) (t : applet_tracker) : applet_tracker :=
  mk_applets l (created t) (has_control_process t) (process_queued_event t) (hbmenu_nro t) (hbmenu t)
    (monitored t).
Definition set_created (l : list nat) (t : applet_tracker) : applet_tracker :=
  mk_applets (queued t) l (has_control_process t) (process_queued_event t) (hbmenu_nro t) (hbmenu t)
    (monitored t).
Definition set_control (b e : bool) (t : applet_tracker) : applet_tracker :=
  mk_applets (queued t) (created t) b e (hbmenu_nro t) (hbmenu t) (monitored t).
Definition set_hbmenu (f : option ActualFile) (p : option nat) (t : applet_tracker) : applet_tracker :=
  mk_applets (queued t) (created t) (has_control_process t) (process_queued_event t) f p (monitored t).
Definition set_watched (p : option nat) (t : applet_tracker) : applet_tracker :=
  mk_applets (queued t) (created t) (has_control_process t) (process_queued_event t) (hbmenu_nro t)
    (hbmenu t) p.

Definition no_launch : launch := mk_launch None false false false false.
Definition new_process (k : kind) : process :=
  mk_process k Created 0 None 0 (mk_code [] "" "" "") no_launch [] false [].
Definition the (p : nat) (w : world) : process := default (new_process Applet) (procs w !! p).
Definition upd (p : nat) (f : process → process) (w : world) : world :=
  set_procs (alter f p (procs w)) w.
Definition the_client (k : nat) (w : world) : client :=
  default (mk_client 0 [] None false) (clients w !! k).
Definition upd_client (k : nat) (f : client → client) (w : world) : world :=
  set_clients (alter f k (clients w)) w.

Definition on_applets (f : applet_tracker → applet_tracker) (w : world) : world :=
  set_applets (f (applets w)) w.

Definition GetPid (x : process) : Z := default 0 (proc x).
Definition GetResult (x : process) : Z :=
  if negb (result x =? 0) then result x else TWILI_ERR_UNSPECIFIED.

(** ** ITwibProcessMonitor::StateChanged *)

Definition client_StateChanged (k : nat) (new_state : State) (w : world) : world :=
  match state_observer (the_client k w) with
  | Some o =>
      upd_client k (fun c => mk_client (watches c) (state_changes c) None (alive c))
        (emit (RespondState k o new_state) w)
  | None =>
      upd_client k (fun c => mk_client (watches c) (state_changes c ++ [new_state])
                               (state_observer c) (alive c)) w
  end.

(** ** AppletTracker::ReadyToLaunch *)

Definition ReadyToLaunch (w : world) : bool :=
  (length (created (applets w)) =? 0)%nat &&
  match monitored (applets w) with
  | None => true
  | Some p => bool_decide (state (the p w) = Exited)
  end.
Definition Signal (w : world) : world :=
  on_applets (fun t => set_control (has_control_process t) true t) w.
Definition signal_if_ready (w : world) : world := if ReadyToLaunch w then Signal w else w.

(** [MonitoredProcess::RemoveMonitor] *)
Definition unwatch (o : observer) (l : list observer) : list observer :=
  List.filter (fun o' => negb (bool_decide (o' = o))) l.

Section process.
Context (fopen : string → option FILE).
(** The directory of received files. *)
Context (temp_directory : string).
(** The regions of a process's memory: base, size, type, permission. *)
Context (memory : Z → list (Z * Z * Z * Z)).
(** The result of a query beyond them, and of the services. *)
Context (svc_error : Z).
Context (TerminateProcess : Z → Z).
Context (SetExternalContentSource ClearExternalContentSource AttachSession : nat → Z).
Context (TerminateProgram DebugActiveProcess TerminateDebugProcess : Z → Z).

Definition Assert (r : Z) (w : world) : outcome world := if r =? EOK then Done w else Aborts r.

(** [FileManager::CreateFile]: where file [i] of code is, and what the program is told. *)
Definition code_path (i : N) : string := "/sd" +:+ temp_directory +:+ "/file_" +:+ pretty i +:+ ".nro".
Definition code_argv (i : N) : string := "sdmc:" +:+ temp_directory +:+ "/file_" +:+ pretty i +:+ ".nro".

(** The constructors of AppletProcess and ShellProcess. *)
Definition CreateProcess (k : kind) (w : world) : outcome (world * nat) :=
  _ ← Files.ActualFile_new (fopen (match k with
        | Applet => "/squash/applet_host.nso" | Shell => "/squash/shell_shim.nso" end));
  _ ← Files.ActualFile_new (fopen (match k with
        | Applet => "/squash/applet_host.npdm" | Shell => "/squash/shell_shim.npdm" end));
  Done (set_procs (procs w ++ [new_process k]) w, length (procs w)).

(** [slcb(code)] after the callback was taken out; an empty function throws. *)
Definition start_reply (p : nat) (code : Z) (w : world) : outcome world :=
  if suspended_launch_cb (launching (the p w)) then
    Done (emit (StartReply p code) (upd p (set_launch (set_cb false)) w))
  else Throws bad_function_call.

(** The search for the second code region. *)
Fixpoint find_entry (l : list (Z * Z * Z * Z)) (found entry : Z) : outcome (Z * Z) :=
  match l with
  | [] => Aborts svc_error
  | (base, size, type, permission) :: l =>
      if 0 <? u64 (base + size) then
        if (type =? 3) && (permission =? 5) then
          find_entry l (found + 1) (if found + 1 =? 2 then base else entry)
        else find_entry l found entry
      else Done (found, entry)
  end.

(** *** What [ChangeState] runs into; [change] is [ChangeState] *)

Section recursion.
Context (change : nat → State → world → outcome world).

Definition Terminate_with (p : nat) (w : world) : outcome world :=
  let s := state (the p w) in
  if bool_decide (s = Created) then change p Exited w
  else
    w ← (if bool_decide (s = ShimSuspended) then start_reply p TWILI_ERR_NO_LONGER_REQUESTED_TO_LAUNCH w
         else Done w);
    if bool_decide (s = Exited) then Done w
    else match proc (the p w) with
         | None => Done w
         | Some pid => Assert (TerminateProcess pid) (emit (CallTerminateProcess pid) w)
         end.

Definition MonitoredProcess_Kill (p : nat) (w : world) : outcome world :=
  let s := state (the p w) in
  if bool_decide (s = Created) then change p Exited w
  else if bool_decide (s = ShimSuspended)
  then start_reply p TWILI_ERR_NO_LONGER_REQUESTED_TO_LAUNCH w
  else if bool_decide (s = Exited) then Done w
  else Terminate_with p w.

Definition KillImpl (p : nat) (w : world) : world :=
  match what (the p w) with
  | Applet => upd p (fun x => set_kill true (commands x ++ [0]) x) w
  | Shell => emit (CallTerminateProgram (GetPid (the p w))) w
  end.

(** [TrackedProcessBase::Kill] *)
Definition Kill_with (p : nat) (w : world) : outcome world :=
  match state (the p w) with
  | Created => change p Exited w
  | Started => Done (upd p (set_launch set_exit) w)
  | ShimSuspended => MonitoredProcess_Kill p w
  | Exited => Done w
  | _ => Done (KillImpl p w)
  end.

Definition QueueLaunch_with (p : nat) (w : world) : outcome world :=
  match what (the p w) with
  | Applet =>
      w ← (match hbmenu (applets w) with Some h => Kill_with h w | None => Done w end);
      Done (signal_if_ready (on_applets (fun t => set_queued (queued t ++ [p]) t) w))
  | Shell =>
      let t := shells w in
      Done (set_shells (mk_shells (s_queued t ++ [p]) (s_created t) (tracking t) true) w)
  end.

(** [snprintf] into 0x301 bytes. *)
Definition transmute_path (path : string) : string :=
  let rest := if String.prefix "sdmc:/" path then String.substring 6 (String.length path) path
              else path in
  String.substring 0 768 ("/sd/" +:+ rest).

Definition HBLLoad_with (path args : string) (w : world) : outcome world :=
  match fopen (transmute_path path) with
  | None => Done w
  | Some file =>
      '(w, p) ← CreateProcess Applet w;
      a ← Files.ActualFile_new (Some file);
      QueueLaunch_with p (upd p (set_code (mk_code [a] args "" "")) w)
  end.

(** [Reattach] of the tracker's monitor. *)
Definition Reattach (new_process : option nat) (w : world) : world :=
  let w := match monitored (applets w) with
           | None => w
           | Some p => upd p (fun x => set_monitors
                         (unwatch TrackerMonitor (monitors x)) x) w
           end in
  let w := on_applets (set_watched new_process) w in
  match new_process with
  | None => w
  | Some p => upd p (fun x => set_monitors (monitors x ++ [TrackerMonitor]) x) w
  end.

(** [AppletTracker::Monitor::StateChanged] *)
Definition tracker_StateChanged (new_state : State) (w : world) : outcome world :=
  let w := signal_if_ready w in
  if bool_decide (new_state = Exited) then
    match monitored (applets w) with
    | None => Undefined
    | Some p =>
        let w := if bool_decide (hbmenu (applets w) = Some p)
                 then on_applets (fun t => set_hbmenu (hbmenu_nro t) None t) w else w in
        let c := codes (the p w) in
        w ← (if bool_decide (next_load_path c = "") then Done w
             else HBLLoad_with (next_load_path c) (next_load_argv c) w);
        Done (Reattach None w)
    end
  else Done w.

Definition notify_with (new_state : State) (o : observer) (w : world) : outcome world :=
  match o with
  | TrackerMonitor => tracker_StateChanged new_state w
  | ClientMonitor k => Done (client_StateChanged k new_state w)
  end.
Fixpoint notify_all (new_state : State) (l : list observer) (w : world) : outcome world :=
  match l with
  | [] => Done w
  | o :: l => w ← notify_with new_state o w; notify_all new_state l w
  end.

(** [MonitoredProcess::ChangeState] *)
Definition MonitoredProcess_ChangeState (p : nat) (s : State) (w : world) : outcome world :=
  w ← (if bool_decide (s = Exited) then
         let w := emit (ClosePipes p) w in
         if suspended_launch_cb (launching (the p w))
         then start_reply p TWILI_ERR_NO_LONGER_REQUESTED_TO_LAUNCH w else Done w
       else Done w);
  let w := emit (StateIs p s) (upd p (set_state s) w) in
  notify_all s (monitors (the p w)) w.

(** [ECSProcess::ChangeState] *)
Definition ECS_ChangeState (p : nat) (s : State) (w : world) : outcome world :=
  w ← MonitoredProcess_ChangeState p s w;
  match s with
  | Attached => Done (upd p (set_launch (set_ecs false)) w)
  | Exited =>
      if ecs_pending (launching (the p w))
      then Assert (ClearExternalContentSource p) (emit (CallClearECS p) w)
      else Done w
  | _ => Done w
  end.

(** [TrackedProcessBase::ChangeState] *)
Definition answer_opener (p : nat) (f : Z → event) (w : world) : world :=
  match run_opener (launching (the p w)) with
  | None => w
  | Some o => upd p (set_launch (set_opener None)) (emit (f o) w)
  end.
Definition Tracked_ChangeState (p : nat) (s : State) (w : world) : outcome world :=
  w ← ECS_ChangeState p s w;
  match s with
  | Attached =>
      let pid := GetPid (the p w) in
      let w := answer_opener p (fun o => RespondPid o pid) w in
      '(found, entry) ← find_entry (memory pid) 0 (target_entry (the p w));
      if found =? 2 then Done (upd p (set_entry entry) w) else Aborts TWILI_ERR_ECS_CONFUSED
  | Exited =>
      Done (answer_opener p (fun o => RespondError o (GetResult (the p w))) w)
  | _ => Done w
  end.

(** [AppletProcess::ChangeState]; a ShellProcess has no deadline to reset. *)
Definition ChangeState_with (p : nat) (s : State) (w : world) : outcome world :=
  w ← Tracked_ChangeState p s w;
  Done (if bool_decide (s = Exited) then upd p (fun x => set_kill false (commands x) x) w else w).
End recursion.

Fixpoint ChangeState_fuel (fuel : nat) (p : nat) (s : State) (w : world) : outcome world :=
  match fuel with
  | O => OutOfFuel
  | S fuel => ChangeState_with (ChangeState_fuel fuel) p s w
  end.
Definition depth : nat := 2.
Definition ChangeState : nat → State → world → outcome world := ChangeState_fuel depth.
Definition Terminate : nat → world → outcome world := Terminate_with ChangeState.
Definition Kill : nat → world → outcome world := Kill_with ChangeState.
Definition QueueLaunch : nat → world → outcome world := QueueLaunch_with ChangeState.

(** *** Launching *)

(** [ECSProcess::PrepareForLaunch], after [TrackedProcessBase]'s test. *)
Definition PrepareForLaunch (p : nat) (w : world) : outcome (Z * world) :=
  if exit_pending (launching (the p w)) then
    w ← ChangeState p Exited w; Done (TWILI_ERR_NO_LONGER_REQUESTED_TO_LAUNCH, w)
  else
    match files (codes (the p w)) with
    | [] => Done (TWILI_ERR_NO_MODULES, w)
    | [nro] =>
        '(r, _) ← Files.Create nro;
        if negb (r =? EOK) then Done (r, w)
        else
          let r := SetExternalContentSource p in
          if negb (r =? EOK) then Done (r, w)
          else
            let w := upd p (set_launch (set_ecs true)) (emit (CallSetECS p) w) in
            w ← Assert (AttachSession p) w; Done (EOK, w)
    | _ => Done (TWILI_ERR_TOO_MANY_MODULES, w)
    end.

(** [TrackedProcess<T>::Launch], which sets the launch in motion. *)
Definition Launch (p : nat) (opener : Z) (w : world) : outcome world :=
  w ← ChangeState p Started (upd p (set_launch (set_opener (Some opener))) w);
  QueueLaunch p w.
Definition LaunchSuspended (p : nat) (opener : Z) (w : world) : outcome world :=
  Launch p opener (upd p (set_launch (set_enabled true)) w).

Definition Continue (p : nat) (w : world) : outcome world :=
  if bool_decide (state (the p w) = ShimSuspended) then
    w ← ChangeState p Running w; start_reply p EOK w
  else Done (upd p (set_launch (set_enabled false)) w).

Definition Attach (p : nat) (pid : Z) (w : world) : outcome world :=
  match proc (the p w) with
  | Some _ => Aborts TWILI_ERR_MONITORED_PROCESS_ALREADY_ATTACHED
  | None => ChangeState p Attached (upd p (set_proc pid) w)
  end.

Definition WaitToStart (p : nat) (w : world) : outcome world :=
  if suspended_launch_enabled (launching (the p w)) then
    w ← ChangeState p ShimSuspended w; Done (upd p (set_launch (set_cb true)) w)
  else
    w ← ChangeState p Running w; Done (emit (StartReply p EOK) w).

Definition AppendCode (file : ActualFile) (x : process) : process :=
  let c := codes x in
  set_code (mk_code (files c ++ [file]) (argv c) (next_load_path c) (next_load_argv c)) x.
Definition SetNextLoadPath (path args : string) (x : process) : process :=
  let c := codes x in set_code (mk_code (files c) (argv c) path args) x.
Definition PopCommand (x : process) : option Z * process :=
  match commands x with
  | [] => (None, x)
  | c :: l => (Some c, set_kill (kill_timeout x) l x)
  end.

(** *** AppletTracker *)

Definition AttachControlProcess (w : world) : outcome world :=
  if has_control_process (applets w) then Aborts TWILI_ERR_APPLET_TRACKER_INVALID_STATE
  else Done (on_applets (set_control true true) w).

Fixpoint exit_all (l : list nat) (w : world) : outcome world :=
  match l with
  | [] => Done w
  | p :: l => w ← ChangeState p Exited w; exit_all l w
  end.
Definition ReleaseControlProcess (w : world) : outcome world :=
  if negb (has_control_process (applets w)) then Aborts TWILI_ERR_APPLET_TRACKER_INVALID_STATE
  else
    let w := on_applets (fun t => set_control false (process_queued_event t) t) w in
    w ← exit_all (created (applets w)) w;
    w ← (match hbmenu (applets w) with
         | None => Done w
         | Some h => w ← Terminate h w; ChangeState h Exited w
         end);
    Done (on_applets (set_created []) w).

Definition CreateHbmenu (w : world) : outcome (world * nat) :=
  '(w, p) ← CreateProcess Applet w;
  '(w, nro) ← (match hbmenu_nro (applets w) with
               | Some f => Done (w, f)
               | None =>
                   '(r, f) ← Files.ActualFile_Open fopen "/sd/hbmenu.nro";
                   match f with
                   | None => Aborts r
                   | Some f => Done (on_applets (fun t => set_hbmenu (Some f) (hbmenu t) t) w, f)
                   end
               end);
  Done (upd p (fun x => let x := AppendCode nro x in
                 set_code (mk_code (files (codes x)) "sdmc:/hbmenu.nro" "" "") x) w, p).

(** The result code, the process, if one is to be created, and the world.  The member
    [hbmenu] is moved from at the end. *)
Definition pop_hbmenu (w : world) : outcome (Z * option nat * world) :=
  '(w, h) ← CreateHbmenu w;
  let w := on_applets (fun t => set_hbmenu (hbmenu_nro t) (Some h) t) w in
  '(r, w) ← PrepareForLaunch h w;
  w ← Assert r w;
  let w := on_applets (fun t => set_created (created t ++ [h]) t) w in
  Done (EOK, Some h, on_applets (fun t => set_hbmenu (hbmenu_nro t) None t) w).
Fixpoint pop_queued (fuel : nat) (w : world) : outcome (Z * option nat * world) :=
  match fuel with
  | O => OutOfFuel
  | S fuel =>
      match queued (applets w) with
      | [] => pop_hbmenu w
      | p :: l =>
          '(r, w) ← PrepareForLaunch p (on_applets (set_queued l) w);
          if r =? TWILI_ERR_NO_LONGER_REQUESTED_TO_LAUNCH then pop_queued fuel w
          else if negb (r =? EOK) then Done (r, None, w)
          else Done (EOK, Some p, on_applets (fun t => set_created (created t ++ [p]) t) w)
      end
  end.
Definition PopQueuedProcess (w : world) : outcome (Z * option nat * world) :=
  pop_queued (S (S (length (queued (applets w))))) w.

Definition AttachHostProcess (pid : Z) (w : world) : outcome (world * nat) :=
  match created (applets w) with
  | [] => Aborts TWILI_ERR_TRACKER_NO_PROCESSES_CREATED
  | p :: _ =>
      w ← Attach p pid w;
      let w := on_applets (fun t => set_created (tail (created t)) t) w in
      Done (signal_if_ready (Reattach (Some p) w), p)
  end.

(** *** ShellTracker *)

Definition on_shells (f : shell_tracker → shell_tracker) (w : world) : world :=
  set_shells (f (shells w)) w.
Fixpoint shell_pop_queued (fuel : nat) (w : world) : outcome (Z * option nat * world) :=
  match fuel with
  | O => OutOfFuel
  | S fuel =>
      match s_queued (shells w) with
      | [] => Done (TWILI_ERR_NO_LONGER_REQUESTED_TO_LAUNCH, None, w)
      | p :: l =>
          '(r, w) ← PrepareForLaunch p
            (on_shells (fun t => mk_shells l (s_created t) (tracking t) (tracker_signal t)) w);
          if r =? TWILI_ERR_NO_LONGER_REQUESTED_TO_LAUNCH then shell_pop_queued fuel w
          else if negb (r =? EOK) then Done (r, None, w)
          else Done (EOK, Some p, on_shells (fun t =>
            mk_shells (s_queued t) (s_created t ++ [p]) (tracking t) (tracker_signal t)) w)
      end
  end.
(** [launched] is what the launch of the program returns: the code, and its pid. *)
Definition TryToLaunch (launched : Z * Z) (w : world) : outcome world :=
  let w := on_shells (fun t => mk_shells (s_queued t) (s_created t) (tracking t) false) w in
  match s_created (shells w) with
  | _ :: _ => Done w
  | [] =>
      '(r, out, w) ← shell_pop_queued (S (length (s_queued (shells w)))) w;
      match out with
      | None => Done w
      | Some p =>
          if launched.1 =? EOK then
            Done (on_shells (fun t => mk_shells (s_queued t) (s_created t)
                    (om_emplace launched.2 p (tracking t)) (tracker_signal t)) w)
          else
            w ← ChangeState p Exited (upd p (SetResult launched.1) w);
            Done (on_shells (fun t => mk_shells (s_queued t) [] (tracking t) (tracker_signal t)) w)
      end
  end.
Definition ShellAttachHostProcess (pid : Z) (w : world) : outcome (world * nat) :=
  match s_created (shells w) with
  | [] => Aborts TWILI_ERR_TRACKER_NO_PROCESSES_CREATED
  | p :: _ =>
      w ← Attach p pid w;
      Done (on_shells (fun t => mk_shells (s_queued t) (tail (s_created t)) (tracking t) true) w, p)
  end.
(** An exit notification of the shell. *)
Definition ShellExit (pid : Z) (w : world) : outcome world :=
  match om_find pid (tracking (shells w)) with
  | None => Done w
  | Some p =>
      w ← ChangeState p Exited w;
      Done (on_shells (fun t => mk_shells (s_queued t) (s_created t) (om_erase pid (tracking t))
                         (tracker_signal t)) w)
  end.

(** *** Twili, and the client's requests *)

Definition FindMonitoredProcess (pid : Z) (w : world) : option nat :=
  head (List.filter (fun p => GetPid (the p w) =? pid) (monitored_processes w)).
(** [UnmonitoredProcess::Terminate]: by the shell, or as its debugger. *)
Definition UnmonitoredProcess_Terminate (pid : Z) (w : world) : outcome world :=
  let w := emit (CallTerminateProgram pid) w in
  if TerminateProgram pid =? EOK then Done w
  else w ← Assert (DebugActiveProcess pid) w; Assert (TerminateDebugProcess pid) w.
(** The device interface's Terminate. *)
Definition DeviceTerminate (pid opener : Z) (w : world) : outcome world :=
  w ← (match FindMonitoredProcess pid w with
       | Some p => Terminate p w
       | None => UnmonitoredProcess_Terminate pid w
       end);
  Done (emit (RespondOk opener) w).
Definition prune (w : world) : world :=
  set_monitored (List.filter (fun p => negb (bool_decide (state (the p w) = Exited)))
                   (monitored_processes w)) w.

Definition CreateMonitoredProcess (type : string) (opener : Z) (w : world) : outcome world :=
  let make k :=
    '(w, p) ← CreateProcess k w;
    let c := length (clients w) in
    let w := upd p (fun x => set_monitors (monitors x ++ [ClientMonitor c]) x) w in
    Done (emit (RespondObject opener c) (set_clients (clients w ++ [mk_client p [] None true]) w)) in
  if bool_decide (type = "applet") then make Applet
  else if bool_decide (type = "shell") then make Shell
  else Done (emit (RespondError opener TWILI_ERR_UNRECOGNIZED_MONITORED_PROCESS_TYPE) w).

Definition client_Launch (suspended : bool) (k : nat) (opener : Z) (w : world) : outcome world :=
  let p := watches (the_client k w) in
  if bool_decide (state (the p w) = Created) then
    let w := set_monitored (monitored_processes w ++ [p]) w in
    if suspended then LaunchSuspended p opener w else Launch p opener w
  else Done (emit (RespondError opener TWILI_ERR_INVALID_PROCESS_STATE) w).
Definition client_Terminate (k : nat) (opener : Z) (w : world) : outcome world :=
  w ← Terminate (watches (the_client k w)) w; Done (emit (RespondOk opener) w).
(** The code is received into a fresh file, whose name the process is given; nobody looks
    whether it could be [opened]. *)
Definition client_AppendCode (k : nat) (opened : bool) (w : world) : world :=
  let p := watches (the_client k w) in
  let w' := set_index (N.succ (next_index w)) w in
  let w' := if opened then w' else add_fault (code_path (next_index w)) NoFile w' in
  upd p (fun x => let c := codes x in
    set_code (mk_code (files c) (code_argv (next_index w)) (next_load_path c) (next_load_argv c)) x) w'.
(** A piece of the stream, which is written as a [whole] or not; the second response to a
    request ends the program. *)
Definition client_code_receive (opener : Z) (path : string) (whole : bool) (w : world) : outcome world :=
  if has_fault path NoFile w then Undefined
  else if whole then Done w
  else if has_fault path ShortWrite w then Aborts TWILI_ERR_FATAL_BRIDGE_STATE
  else Done (emit (RespondError opener TWILI_ERR_IO_ERROR) (add_fault path ShortWrite w)).
(** The end of the stream. *)
Definition client_code_finish (k : nat) (opener : Z) (path : string) (w : world) : outcome world :=
  if has_fault path NoFile w then Undefined
  else
    '(r, f) ← Files.ActualFile_Open fopen path;
    match f with
    | None => Aborts r
    | Some f =>
        if has_fault path ShortWrite w then Aborts TWILI_ERR_FATAL_BRIDGE_STATE
        else Done (emit (RespondOk opener) (upd (watches (the_client k w)) (AppendCode f) w))
    end.
Definition client_WaitStateChange (k : nat) (opener : Z) (w : world) : world :=
  let c := the_client k w in
  match state_changes c with
  | s :: l =>
      upd_client k (fun c => mk_client (watches c) l (state_observer c) (alive c))
        (emit (RespondState k opener s) w)
  | [] =>
      let w := match state_observer c with
               | Some o => emit (RespondError o TWILI_ERR_INTERRUPTED) w
               | None => w
               end in
      upd_client k (fun c => mk_client (watches c) (state_changes c) (Some opener) (alive c)) w
  end.
(** [~ITwibProcessMonitor]; an exception that leaves a destructor ends the program. *)
Definition client_destroy (k : nat) (w : world) : outcome world :=
  let p := watches (the_client k w) in
  match Kill p w with
  | Done w =>
      let w := upd p (fun x => set_monitors
                 (unwatch (ClientMonitor k) (monitors x)) x) w in
      Done (upd_client k (fun c => mk_client (watches c) [] None false) w)
  | Throws _ => Aborts 0
  | o => o
  end.

(** [PopApplet]: the result code goes to the control applet. *)
Definition PopApplet (w : world) : outcome (Z * option nat * world) := PopQueuedProcess w.
Definition GetCommand (w : world) : Z :=
  if ReadyToLaunch w then EOK else TWILI_ERR_APPLET_SHIM_NO_COMMANDS_LEFT.
Definition OpenAppletShim (pid : Z) (w : world) : outcome world :=
  if negb (has_control_process (applets w)) then AttachControlProcess w
  else '(w, _) ← AttachHostProcess pid w; Done w.

(** ** Steps: what can happen next, one at a time *)

Inductive op : Type :=
(* the client *)
| OpCreate (type : string) (opener : Z)
| OpLaunch (suspended : bool) (k : nat) (opener : Z)
| OpTerminate (k : nat) (opener : Z)
| OpAppendCode (k : nat) (opened : bool)
| OpCodeData (k : nat) (opener : Z) (path : string) (whole : bool)
| OpCodeReceived (k : nat) (opener : Z) (path : string)
| OpWait (k : nat) (opener : Z)
| OpDestroy (k : nat)
| OpDeviceTerminate (pid opener : Z)
| OpDebug (p : nat)                    (* a debugger lets the process go on *)
(* the control applet, and its controllers *)
| OpOpenAppletShim (pid : Z)
| OpReleaseControl
| OpPopApplet
| OpSetResult (p : nat) (r : Z)
| OpPopCommand (p : nat)
| OpControllerGone (p : nat)
(* the shim *)
| OpSetNextLoad (p : nat) (path args : string)
| OpSetExitCode (p : nat) (r : Z)
| OpWaitToStart (p : nat)
(* the shell *)
| OpTryToLaunch (launched : Z * Z)
| OpShellAttach (pid : Z)
| OpShellExit (pid : Z)
(* time *)
| OpKillTimeout (p : nat)
| OpPrune.

Definition handle (o : op) (w : world) : outcome world :=
  match o with
  | OpCreate type o => CreateMonitoredProcess type o w
  | OpLaunch b k o => client_Launch b k o w
  | OpTerminate k o => client_Terminate k o w
  | OpAppendCode k opened => Done (client_AppendCode k opened w)
  | OpCodeData _ o path whole => client_code_receive o path whole w
  | OpCodeReceived k o path => client_code_finish k o path w
  | OpWait k o => Done (client_WaitStateChange k o w)
  | OpDestroy k => client_destroy k w
  | OpDeviceTerminate pid o => DeviceTerminate pid o w
  | OpDebug p => Continue p w
  | OpOpenAppletShim pid => OpenAppletShim pid w
  | OpReleaseControl => ReleaseControlProcess w
  | OpPopApplet => '(_, _, w) ← PopApplet w; Done w
  | OpSetResult p r | OpSetExitCode p r => Done (upd p (SetResult r) w)
  | OpPopCommand p => Done (upd p (fun x => (PopCommand x).2) w)
  | OpControllerGone p => ChangeState p Exited w
  | OpSetNextLoad p path args => Done (upd p (SetNextLoadPath path args) w)
  | OpWaitToStart p => WaitToStart p w
  | OpTryToLaunch launched => TryToLaunch launched w
  | OpShellAttach pid => '(w, _) ← ShellAttachHostProcess pid w; Done w
  | OpShellExit pid => ShellExit pid w
  | OpKillTimeout p =>
      w ← Terminate p w; Done (upd p (fun x => set_kill false (commands x) x) w)
  | OpPrune => Done (prune w)
  end.

Fixpoint run (l : list op) (w : world) : outcome world :=
  match l with
  | [] => Done w
  | o :: l => w ← handle o w; run l w
  end.

(** Twili with nothing running. *)
Definition init : world :=
  mk_world [] [] [] (mk_applets [] [] false false None None None) (mk_shells [] [] [] false) [] 0 [].

(** ** Specification *)

(** When a step can happen: the control applet pops a process after [GetCommand] has said
    so; a shim waits to start once, after it has attached; a deadline is one that is set;
    a controller and a shell's notification are of the process they were made for. *)
Definition enabled (o : op) (w : world) : Prop :=
  match o with
  | OpPopApplet => has_control_process (applets w) = true ∧ GetCommand w = EOK
  | OpWaitToStart p => state (the p w) = Attached
  | OpKillTimeout p => kill_timeout (the p w) = true
  | OpTerminate k _ | OpAppendCode k _ | OpLaunch _ k _ | OpWait k _ | OpDestroy k =>
      alive (the_client k w) = true
  | OpCodeReceived k _ path | OpCodeData k _ path _ =>
      alive (the_client k w) = true ∧ ∃ i, (i < next_index w)%N ∧ path = code_path i
  | _ => True
  end.
(** Code is received into a file that could not be made: the stream is [NULL]. *)
Definition null_stream (o : op) (w : world) : Prop :=
  match o with
  | OpCodeReceived _ _ path | OpCodeData _ _ path _ => has_fault path NoFile w = true
  | _ => False
  end.
Definition step (w w' : world) : Prop := ∃ o, enabled o w ∧ handle o w = Done w'.
Definition reachable (w : world) : Prop := rtc step init w.

(** The steps that take from the queue, attach a process, or lose the control applet. *)
Definition moves_applets (o : op) : bool :=
  match o with OpPopApplet | OpOpenAppletShim _ | OpReleaseControl => true | _ => false end.
(** A step that is none of them. *)
Definition quiet_step (w w' : world) : Prop :=
  ∃ o, moves_applets o = false ∧ enabled o w ∧ handle o w = Done w'.

(** An applet that has attached and has not exited. *)
Definition live (p : nat) (w : world) : Prop :=
  what (the p w) = Applet ∧ proc (the p w) ≠ None ∧ state (the p w) ≠ Exited.

(** The call comes back, and what it returns satisfies [Q]; it may end the process. *)
Definition returns {A} (m : outcome A) (Q : A → Prop) : Prop :=
  match m with Done a => Q a | Undefined | OutOfFuel => False | _ => True end.

(** The menu is never remembered, only the watched process is told to the tracker, and
    nobody is told twice. *)
Record sane (w : world) : Prop := {
  sane_menu : hbmenu (applets w) = None;
  sane_watch : ∀ p, TrackerMonitor ∈ monitors (the p w) → monitored (applets w) = Some p;
  sane_once : ∀ p, NoDup (monitors (the p w)) }.

(** A process the shell tracker has queued or created. *)
Definition in_shell (p : nat) (w : world) : Prop :=
  p ∈ s_queued (shells w) ++ s_created (shells w).

(** One applet at a time: what is created has not attached, and nothing else runs. *)
Record one_applet (w : world) : Prop := {
  oa_sane : sane w;
  oa_created : (length (created (applets w)) ≤ 1)%nat;
  oa_live : ∀ p, live p w → monitored (applets w) = Some p;
  oa_attached : ∀ p, proc (the p w) ≠ None → state (the p w) ≠ Created;
  oa_shell : ∀ p, in_shell p w → what (the p w) = Shell;
  oa_alone : created (applets w) ≠ [] → ∀ p, ¬ live p w }.

(** What the calls inside a step leave alone. *)
Record keeps (w w' : world) : Prop := {
  k_state : ∀ q, state (the q w') = state (the q w);
  k_proc : ∀ q, proc (the q w') = proc (the q w);
  k_what : ∀ q, what (the q w') = what (the q w);
  k_length : (length (procs w) ≤ length (procs w'))%nat;
  k_created : created (applets w') = created (applets w);
  k_shells : shells w' = shells w;
  k_monitored : monitored (applets w') = monitored (applets w) ∨
    monitored (applets w') = None ∧ ∃ m, monitored (applets w) = Some m ∧ state (the m w) = Exited;
  k_sane : sane w' }.

(** A change of the state of [p] to [s]. *)
Record changed (p : nat) (s : State) (w w' : world) : Prop := {
  c_other : ∀ q, q ≠ p → state (the q w') = state (the q w);
  c_state : state (the p w') = if bool_decide (p < length (procs w))%nat then s else state (the p w);
  c_proc : ∀ q, proc (the q w') = proc (the q w);
  c_what : ∀ q, what (the q w') = what (the q w);
  c_length : (length (procs w) ≤ length (procs w'))%nat;
  c_created : created (applets w') = created (applets w);
  c_shells : shells w' = shells w;
  c_monitored : monitored (applets w') = monitored (applets w) ∨
    monitored (applets w') = None ∧
    ∃ m, monitored (applets w) = Some m ∧ (m = p ∧ s = Exited ∨ state (the m w) = Exited);
  c_sane : sane w' }.

(** What client [k] has been told since its monitor was made, and what states its process
    [p] has had since. *)
Definition told (k : nat) (l : list event) : list State :=
  foldl (fun acc e => match e with
    | RespondObject _ k' => if bool_decide (k' = k) then [] else acc
    | RespondState k' _ s => if bool_decide (k' = k) then acc ++ [s] else acc
    | _ => acc end) [] l.
Definition history (k p : nat) (l : list event) : list State :=
  foldl (fun acc e => match e with
    | RespondObject _ k' => if bool_decide (k' = k) then [] else acc
    | StateIs p' s => if bool_decide (p' = p) then acc ++ [s] else acc
    | _ => acc end) [] l.

(** The steps of an applet's life. *)
Definition life (pid r : Z) : list op :=
  [OpOpenAppletShim 0; OpCreate "applet" 1; OpAppendCode 0 true; OpCodeReceived 0 2 (code_path 0); OpLaunch true 0 3; OpPopApplet;
   OpOpenAppletShim pid; OpWaitToStart 0; OpDebug 0; OpSetExitCode 0 r; OpControllerGone 0; OpPrune].

(** ** Lemmas *)

Lemma returns_bind {A B} (m : outcome A) (f : A → outcome B) Q :
  returns m (fun a => returns (f a) Q) → returns (m ≫= f) Q.
Proof. by destruct m. Qed.
Lemma returns_mono {A} (m : outcome A) (P Q : A → Prop) :
  returns m P → (∀ a, P a → Q a) → returns m Q.
Proof. destruct m; cbn; auto. Qed.
Lemma returns_chain {A B} (m : outcome A) (f : A → outcome B) P Q :
  returns m P → (∀ a, P a → returns (f a) Q) → returns (m ≫= f) Q.
Proof. intros Hm Hf. apply returns_bind. by eapply returns_mono. Qed.

Lemma the_upd p f w q :
  the q (upd p f w) = if bool_decide (q = p ∧ (p < length (procs w))%nat) then f (the q w) else the q w.
Proof.
  unfold the, upd. cbn [set_procs procs]. case_bool_decide as H.
  - destruct H as [-> Hl]. rewrite list_lookup_alter_eq. apply lookup_lt_is_Some in Hl as [x ->]. done.
  - destruct (decide (q = p)) as [->|].
    + rewrite list_lookup_alter_eq. rewrite (proj2 (lookup_ge_None _ _)); [done|]. lia.
    + by rewrite list_lookup_alter_ne by done.
Qed.

Lemma the_upd_field {A} (g : process → A) p f w q :
  (∀ x, g (f x) = g x) → g (the q (upd p f w)) = g (the q w).
Proof. intros Hf. rewrite the_upd. by case_bool_decide. Qed.
Lemma upd_length p f w : length (procs (upd p f w)) = length (procs w).
Proof. apply length_alter. Qed.

Ltac frame := constructor; try done; try (by intros; left).

Lemma keeps_refl w : sane w → keeps w w.
Proof. by constructor; auto. Qed.
Lemma keeps_trans w1 w2 w3 : keeps w1 w2 → keeps w2 w3 → keeps w1 w3.
Proof.
  intros [A1 A2 A3 A4 A5 AS A6 A7] [B1 B2 B3 B4 B5 BS B6 B7].
  constructor; try (intros; by rewrite ?B1, ?B2, ?B3); [lia|congruence..|].
  destruct B6 as [->|(-> & m & Em & Es)]; [done|]. right. split; [done|].
  destruct A6 as [<-|(E & _)]; [|congruence]. exists m. by rewrite <- A1.
Qed.

(** An update that leaves the state, the process, the kind and who watches. *)
Definition same_core (f : process → process) : Prop :=
  ∀ x, state (f x) = state x ∧ proc (f x) = proc x ∧ what (f x) = what x ∧
       monitors (f x) = monitors x.
Lemma keeps_upd p f w : same_core f → sane w → keeps w (upd p f w).
Proof.
  intros Hf [Hh Hm Hn]. constructor; try (intros; apply the_upd_field; apply Hf); try done;
    try (by intros; left).
  - by rewrite upd_length.
  - split; [done|..]; intros q; rewrite (the_upd_field monitors) by (intros; apply Hf); auto.
Qed.
Lemma keeps_emit e w : sane w → keeps w (emit e w).
Proof. intros Hs. frame; by destruct Hs; constructor. Qed.
Lemma keeps_clients l w : sane w → keeps w (set_clients l w).
Proof. intros Hs. frame; by destruct Hs; constructor. Qed.
Lemma keeps_monitored l w : sane w → keeps w (set_monitored l w).
Proof. intros Hs. frame; by destruct Hs; constructor. Qed.
(** An update of the applet tracker that leaves the menu, the created and the watched. *)
Lemma keeps_applets f w :
  hbmenu (f (applets w)) = hbmenu (applets w) → created (f (applets w)) = created (applets w) →
  monitored (f (applets w)) = monitored (applets w) → sane w → keeps w (on_applets f w).
Proof.
  intros E1 E2 E3 [Hh Hm Hn]. frame. split; [by rewrite <- Hh| |done].
  intros p Hp. cbn. rewrite E3. by apply Hm.
Qed.

Lemma keeps_signal w : sane w → keeps w (signal_if_ready w).
Proof. intros Hs. unfold signal_if_ready. destruct (ReadyToLaunch w); [by apply keeps_applets|by apply keeps_refl]. Qed.

Lemma the_new_process k w q :
  let w' := set_procs (procs w ++ [new_process k]) w in
  the q w' = the q w ∨ q = length (procs w) ∧ the q w' = new_process k ∧ the q w = new_process Applet.
Proof.
  unfold the. cbn [set_procs procs]. destruct (decide (q < length (procs w))%nat).
  - left. by rewrite lookup_app_l.
  - destruct (decide (q = length (procs w))) as [->|].
    + right. split_and!; [done| |].
      * rewrite lookup_app_r, Nat.sub_diag by done. done.
      * by rewrite (proj2 (lookup_ge_None _ _)) by done.
    + left. rewrite !(proj2 (lookup_ge_None _ _)); [done|lia|rewrite length_app; cbn; lia].
Qed.

Lemma ActualFile_new_returns f : returns (Files.ActualFile_new f) (fun _ => True).
Proof. by destruct f. Qed.
Lemma CreateProcess_spec k w :
  returns (CreateProcess k w) (fun '(w', p) =>
    w' = set_procs (procs w ++ [new_process k]) w ∧ p = length (procs w)).
Proof.
  unfold CreateProcess.
  apply (returns_chain _ _ (fun _ => True)); [apply ActualFile_new_returns|intros _ _].
  by apply (returns_chain _ _ (fun _ => True)); [apply ActualFile_new_returns|intros _ _].
Qed.
Lemma the_created k w : the (length (procs w)) (set_procs (procs w ++ [new_process k]) w) = new_process k.
Proof.
  unfold the. cbn [set_procs procs]. by rewrite lookup_app_r, Nat.sub_diag.
Qed.
Lemma new_applet_keeps w : sane w → keeps w (set_procs (procs w ++ [new_process Applet]) w).
Proof.
  intros Hs. assert (∀ q, the q (set_procs (procs w ++ [new_process Applet]) w) = the q w) as E.
  { intros q. destruct (the_new_process Applet w q) as [->|(-> & -> & ->)]; done. }
  constructor; try (intros; by rewrite E); try (by intros; left); try done; [cbn; rewrite length_app; lia|].
  destruct Hs as [Hh Hm Hn]. split; [done|..]; intros p; rewrite E; auto.
Qed.

Lemma start_reply_keeps p c w : sane w → returns (start_reply p c w) (keeps w).
Proof.
  intros Hs. unfold start_reply. destruct (suspended_launch_cb _); [|done]. cbn.
  eapply keeps_trans; [by apply (keeps_upd p (set_launch (set_cb false)))|].
  by apply keeps_emit, (keeps_upd p (set_launch (set_cb false)) w).
Qed.

Lemma client_StateChanged_keeps k s w : sane w → keeps w (client_StateChanged k s w).
Proof.
  intros Hs. unfold client_StateChanged. destruct (state_observer _).
  - eapply keeps_trans; [by apply keeps_emit|]. apply keeps_clients. by apply keeps_emit.
  - by apply keeps_clients.
Qed.

(** Nothing is killed to queue a process, as there is no menu to kill. *)
Lemma QueueLaunch_keeps change p w :
  what (the p w) = Applet → sane w → returns (QueueLaunch_with change p w) (keeps w).
Proof.
  intros Ew Hs. unfold QueueLaunch_with. rewrite Ew.
  rewrite (sane_menu w Hs). cbn. set (w1 := on_applets _ w).
  assert (keeps w w1) as H1 by (by apply keeps_applets).
  eapply keeps_trans; [exact H1|]. apply keeps_signal, H1.
Qed.

Lemma elem_of_unwatch o o' l : o' ∈ unwatch o l ↔ o' ≠ o ∧ o' ∈ l.
Proof.
  unfold unwatch. rewrite !list_elem_of_In, filter_In, negb_true_iff, bool_decide_eq_false. tauto.
Qed.
Lemma NoDup_unwatch o l : NoDup l → NoDup (unwatch o l).
Proof. rewrite !NoDup_ListNoDup. apply List.NoDup_filter. Qed.

Lemma HBLLoad_keeps change path args w : sane w → returns (HBLLoad_with change path args w) (keeps w).
Proof.
  intros Hs. unfold HBLLoad_with. destruct (fopen _); [|by apply keeps_refl].
  eapply returns_chain; [apply CreateProcess_spec|]. intros [w1 p] [-> ->].
  set (w1 := set_procs _ w). assert (keeps w w1) as H1 by by apply new_applet_keeps.
  eapply returns_chain; [apply ActualFile_new_returns|]. intros a _.
  match goal with |- context [upd ?p ?f w1] => set (w2 := upd p f w1) end.
  assert (keeps w1 w2) as H2 by (by apply keeps_upd, H1).
  eapply returns_mono; [apply QueueLaunch_keeps; [|apply H2]|intros w3 H3].
  { unfold w2. rewrite (the_upd_field what) by done. unfold w1. by rewrite the_created. }
  eapply keeps_trans; [exact H1|]. by eapply keeps_trans.
Qed.

Lemma Reattach_None_keeps m w :
  sane w → monitored (applets w) = Some m → state (the m w) = Exited → keeps w (Reattach None w).
Proof.
  intros [Hh Hm Hn] Em Es. unfold Reattach. rewrite Em. set (f := fun x => set_monitors _ x).
  constructor; try (intros; by apply (the_upd_field _ m f)); try done; try (by intros; left).
  - by rewrite <- (upd_length m f w).
  - right. split; [done|]. by exists m.
  - split; [done|..]; intros p; change (the p (on_applets _ ?w)) with (the p w); rewrite the_upd; case_bool_decide as Hp.
    + cbn. rewrite elem_of_unwatch. by intros [].
    + intros Hin. assert (Some m = Some p) as [= ->] by (by rewrite <- (Hm p Hin)).
      destruct Hp. split; [done|]. destruct (decide (p < length (procs w))%nat); [done|].
      unfold the in Hin. rewrite (proj2 (lookup_ge_None _ _)) in Hin by lia. cbn in Hin.
      by apply not_elem_of_nil in Hin.
    + by apply NoDup_unwatch.
    + done.
Qed.

Lemma tracker_StateChanged_keeps change s w :
  sane w → (s = Exited → ∃ m, monitored (applets w) = Some m ∧ state (the m w) = Exited) →
  returns (tracker_StateChanged change s w) (keeps w).
Proof.
  intros Hs Hm. unfold tracker_StateChanged. set (w1 := signal_if_ready w).
  assert (keeps w w1) as H1 by by apply keeps_signal.
  case_bool_decide as He; [|exact H1]. destruct (Hm He) as (m & Em & Es).
  assert (monitored (applets w1) = Some m) as Em1.
  { destruct (k_monitored _ _ H1) as [->|[E _]]; [done|]. unfold w1, signal_if_ready in E.
    destruct (ReadyToLaunch w); cbn in E; congruence. }
  rewrite Em1, (sane_menu w1) by apply H1.
  rewrite (bool_decide_eq_false_2 (None = Some m)) by done.
  assert (∀ w2, keeps w1 w2 → monitored (applets w2) = Some m ∨ monitored (applets w2) = None →
    keeps w (Reattach None w2)) as Hgo.
  { intros w2 H2 [E2|E2].
    - eapply keeps_trans; [exact H1|]. eapply keeps_trans; [exact H2|].
      apply (Reattach_None_keeps m); [apply H2|done|]. by rewrite (k_state _ _ H2), (k_state _ _ H1).
    - unfold Reattach. rewrite E2. eapply keeps_trans; [exact H1|].
      eapply keeps_trans; [exact H2|]. apply keeps_applets; [done..|apply H2]. }
  apply (returns_chain _ _ (fun w2 => keeps w1 w2)).
  - case_bool_decide; [by apply keeps_refl, H1|]. by apply HBLLoad_keeps, H1.
  - intros w2 H2. apply Hgo; [done|]. destruct (k_monitored _ _ H2) as [->|[-> _]]; auto.
Qed.

Lemma notify_all_keeps change s l w :
  NoDup l → sane w →
  (TrackerMonitor ∈ l → s = Exited → ∃ m, monitored (applets w) = Some m ∧ state (the m w) = Exited) →
  returns (notify_all change s l w) (keeps w).
Proof.
  revert w. induction l as [|o l IH]; intros w Hn Hs Hm; [by apply keeps_refl|].
  apply NoDup_cons in Hn as [Ho Hn]. cbn [notify_all].
  apply (returns_chain _ _ (fun w1 => keeps w w1 ∧
    (o ≠ TrackerMonitor → monitored (applets w1) = monitored (applets w)))).
  - destruct o as [|k]; cbn [notify_with].
    + eapply returns_mono; [apply tracker_StateChanged_keeps; [done|]|by intros w1 H1].
      apply Hm. by left.
    + split; [by apply client_StateChanged_keeps|]. intros _. unfold client_StateChanged.
      by destruct (state_observer _).
  - intros w1 [H1 E1]. eapply returns_mono; [apply IH; [done|apply H1|]|].
    + intros Hin Es. destruct o as [|k]; [done|]. rewrite E1 by done.
      destruct Hm as (m & Em & Est); [by right|done|]. exists m. by rewrite (k_state _ _ H1).
    + intros w2 H2. by eapply keeps_trans.
Qed.

Lemma keeps_changed p s w1 w2 w3 :
  length (procs w2) = length (procs w1) → keeps w1 w2 → changed p s w2 w3 → changed p s w1 w3.
Proof.
  intros El [A1 A2 A3 A4 A5 AS A6 A7] [B1 B2 B3 B4 B5 B6 BS B7 B8].
  constructor; try (intros; by rewrite ?B1, ?B3, ?B4, ?A1, ?A2, ?A3); [|lia|congruence..|].
  - by rewrite B2, El, A1.
  - destruct B7 as [->|(-> & m & Em & Hm)].
    + destruct A6 as [->|(-> & m & Em & Hm)]; [by left|]. right. split; [done|]. exists m. auto.
    + right. split; [done|]. destruct A6 as [E|(E & _)]; [|congruence]. exists m.
      rewrite <- E. split; [done|]. by rewrite <- A1.
Qed.
Lemma changed_keeps p s w1 w2 w3 : changed p s w1 w2 → keeps w2 w3 → changed p s w1 w3.
Proof.
  intros [B1 B2 B3 B4 B5 B6 BS B7 B8] [A1 A2 A3 A4 A5 AS A6 A7].
  constructor; try (intros; by rewrite ?A1, ?A2, ?A3, ?B1, ?B3, ?B4); [by rewrite A1|lia|congruence..|].
  destruct A6 as [->|(-> & m & Em & Hm)]; [done|]. right. split; [done|].
  destruct B7 as [E|(E & _)]; [|congruence]. exists m. rewrite <- E. split; [done|].
  destruct (decide (m = p)) as [->|]; [|right; by rewrite <- B1].
  rewrite B2 in Hm. case_bool_decide; auto.
Qed.

Lemma start_reply_length p c w :
  returns (start_reply p c w) (fun w' => length (procs w') = length (procs w)).
Proof. unfold start_reply. destruct (suspended_launch_cb _); [|done]. apply upd_length. Qed.
Lemma returns_and {A} (m : outcome A) P Q : returns m P → returns m Q → returns m (fun a => P a ∧ Q a).
Proof. by destruct m. Qed.

Lemma set_state_changed p s w : sane w → changed p s w (emit (StateIs p s) (upd p (set_state s) w)).
Proof.
  intros [Hh Hm Hn]. constructor; try (intros; by apply (the_upd_field _ p (set_state s))); try done;
    try (by intros; left).
  - intros q Hq. change (the q (emit _ ?w)) with (the q w). rewrite the_upd.
    by rewrite bool_decide_eq_false_2 by (by intros []).
  - change (the p (emit _ ?w)) with (the p w). rewrite the_upd. repeat case_bool_decide; naive_solver.
  - change (length (procs w) ≤ length (procs (upd p (set_state s) w)))%nat. by rewrite upd_length.
  - split; [done|..]; intros q; change (the q (emit _ ?w)) with (the q w);
      rewrite (the_upd_field monitors) by done; auto.
Qed.

Lemma find_entry_returns l n e : returns (find_entry l n e) (fun _ => True).
Proof.
  revert n e. induction l as [|[[[b sz] ty] pm] l IH]; intros n e; [done|]. cbn [find_entry].
  destruct (0 <? _); [|done]. destruct (_ && _); apply IH.
Qed.

Lemma answer_opener_keeps p f w : sane w → keeps w (answer_opener p f w).
Proof.
  intros Hs. unfold answer_opener. destruct (run_opener _); [|by apply keeps_refl].
  eapply keeps_trans; [by apply keeps_emit|]. apply keeps_upd; [done|]. by apply keeps_emit.
Qed.

Lemma MonitoredProcess_ChangeState_spec change p s w :
  sane w → returns (MonitoredProcess_ChangeState change p s w) (changed p s w).
Proof.
  intros Hs. unfold MonitoredProcess_ChangeState.
  apply (returns_chain _ _ (fun w1 => keeps w w1 ∧ length (procs w1) = length (procs w))).
  - case_bool_decide; [|split; [by apply keeps_refl|done]].
    destruct (suspended_launch_cb _); [|split; [by apply keeps_emit|done]].
    apply returns_and; [|apply (start_reply_length p _ (emit (ClosePipes p) w))].
    eapply returns_mono; [by apply start_reply_keeps, (k_sane w), keeps_emit|]. intros w1 H1.
    eapply keeps_trans; [by apply keeps_emit|exact H1].
  - intros w1 [H1 El]. pose proof (set_state_changed p s w1 (k_sane _ _ H1)) as Hc.
    set (w2 := emit _ _) in *. eapply returns_mono; [apply notify_all_keeps|].
    + apply Hc.
    + apply Hc.
    + intros Hin ->. exists p. pose proof (sane_watch _ (c_sane _ _ _ _ Hc) p Hin) as E.
      split; [done|]. rewrite (c_state _ _ _ _ Hc). case_bool_decide as Hl; [done|].
      unfold the in Hin. rewrite (proj2 (lookup_ge_None _ _)) in Hin; [by apply not_elem_of_nil in Hin|].
      unfold w2. change (length (procs (upd p (set_state Exited) w1)) ≤ p)%nat. rewrite upd_length. lia.
    + intros w3 H3. eapply keeps_changed; [exact El|exact H1|]. by eapply changed_keeps.
Qed.

Lemma ECS_ChangeState_spec change p s w :
  sane w → returns (ECS_ChangeState change p s w) (changed p s w).
Proof.
  intros Hs. eapply returns_chain; [by apply MonitoredProcess_ChangeState_spec|]. intros w1 H1.
  destruct s; try done.
  - eapply changed_keeps; [exact H1|]. by apply keeps_upd, H1.
  - destruct (ecs_pending _); [|done]. unfold Assert. destruct (_ =? _); [|done].
    eapply changed_keeps; [exact H1|]. apply keeps_emit, H1.
Qed.

Lemma Tracked_ChangeState_spec change p s w :
  sane w → returns (Tracked_ChangeState change p s w) (changed p s w).
Proof.
  intros Hs. eapply returns_chain; [by apply ECS_ChangeState_spec|]. intros w1 H1.
  destruct s; try done.
  - cbn zeta. match goal with |- context [answer_opener p ?f w1] => set (w2 := answer_opener p f w1) end.
    assert (keeps w1 w2) as H2 by apply answer_opener_keeps, H1.
    eapply returns_chain; [apply find_entry_returns|]. intros [n e] _. destruct (n =? 2); [|done].
    eapply changed_keeps; [exact H1|]. eapply keeps_trans; [exact H2|]. by apply keeps_upd, H2.
  - eapply changed_keeps; [exact H1|]. apply answer_opener_keeps, H1.
Qed.

Lemma ChangeState_spec p s w : sane w → returns (ChangeState p s w) (changed p s w).
Proof.
  intros Hs. unfold ChangeState, depth. cbn [ChangeState_fuel]. unfold ChangeState_with.
  eapply returns_chain; [by apply Tracked_ChangeState_spec|]. intros w1 H1.
  case_bool_decide; [|done]. eapply changed_keeps; [exact H1|]. by apply keeps_upd, H1.
Qed.

(** *** Every step keeps one applet at a time *)

Lemma attached_in_range p w : proc (the p w) ≠ None → (p < length (procs w))%nat.
Proof.
  intros Hp. destruct (decide (p < length (procs w))%nat); [done|]. unfold the in Hp.
  rewrite (proj2 (lookup_ge_None _ _)) in Hp by lia. done.
Qed.

(** A step that adds no running applet, and no created one. *)
Record calm (w w' : world) : Prop := {
  calm_one : one_applet w';
  calm_created : created (applets w') = created (applets w);
  calm_live : ∀ q, live q w' → live q w }.
Lemma calm_refl w : one_applet w → calm w w.
Proof. by constructor. Qed.
Lemma calm_trans w1 w2 w3 : calm w1 w2 → calm w2 w3 → calm w1 w3.
Proof. intros [] []. constructor; [done|congruence|auto]. Qed.

Lemma keeps_calm w w' : one_applet w → keeps w w' → calm w w'.
Proof.
  intros [Hs Hc Hl Ht Hsh Ha] [K1 K2 K3 K4 K5 KS K6 K7].
  assert (∀ q, live q w' → live q w) as Hlive.
  { intros q. unfold live. by rewrite K1, K2, K3. }
  constructor; [|done|done]. constructor; try done.
  - by rewrite K5.
  - intros p Hp. apply Hlive in Hp. destruct K6 as [->|(_ & m & Em & Es)]; [auto|].
    rewrite (Hl p Hp) in Em. injection Em as ->. by destruct Hp as (_ & _ & ?).
  - intros p. rewrite K1, K2. apply Ht.
  - intros p. unfold in_shell. rewrite K3, KS. apply Hsh.
  - rewrite K5. intros Hne p Hp. by apply (Ha Hne p), Hlive.
Qed.

(** A change of state does not bring a process back. *)
Definition no_return (p : nat) (s : State) (w : world) : Prop :=
  s ≠ Created ∧ (s = Exited ∨ state (the p w) ≠ Exited ∨ proc (the p w) = None).
Lemma changed_calm p s w w' : no_return p s w → one_applet w → changed p s w w' → calm w w'.
Proof.
  intros [Hs0 Hr] [Hs Hc Hl Ht Hsh Ha] [K1 K2 K3 K4 K5 K6 KS K7 K8].
  assert (∀ q, live q w' → live q w ∧ (q = p → s ≠ Exited)) as Hlive.
  { intros q (Hw & Hp & He). rewrite K4 in Hw. rewrite K3 in Hp. destruct (decide (q = p)) as [->|Hne].
    - rewrite K2, bool_decide_eq_true_2 in He by by apply attached_in_range.
      split; [|done]. split_and!; try done. naive_solver.
    - rewrite K1 in He by done. by split. }
  constructor; [|done|intros q Hq; by apply Hlive]. constructor; try done.
  - by rewrite K6.
  - intros q Hq. apply Hlive in Hq as [Hq Hp]. destruct K7 as [->|(_ & m & Em & Es)]; [auto|].
    rewrite (Hl q Hq) in Em. injection Em as <-. destruct Hq as (_ & _ & ?). naive_solver.
  - intros q Hq. rewrite K3 in Hq. destruct (decide (q = p)) as [->|Hne].
    + by rewrite K2, bool_decide_eq_true_2 by by apply attached_in_range.
    + rewrite K1 by done. by apply Ht.
  - intros q. unfold in_shell. rewrite K4, KS. apply Hsh.
  - rewrite K6. intros Hne q Hq. by apply (Ha Hne q), Hlive.
Qed.

Lemma ChangeState_calm p s w : no_return p s w → one_applet w → returns (ChangeState p s w) (calm w).
Proof.
  intros Hr Hw. eapply returns_mono; [apply ChangeState_spec, Hw|]. intros w'. by apply changed_calm.
Qed.
Lemma Exit_calm p w : one_applet w → returns (ChangeState p Exited w) (calm w).
Proof. apply ChangeState_calm. split; [done|by left]. Qed.
(** Steps in a row. *)
Lemma calm_chain {A} (m : outcome A) (f : A → world) (g : A → outcome world) w :
  returns m (fun a => calm w (f a)) → (∀ a, one_applet (f a) → returns (g a) (calm (f a))) →
  returns (m ≫= g) (calm w).
Proof.
  intros Hm Hg. eapply returns_chain; [exact Hm|]. intros a Ha.
  eapply returns_mono; [apply Hg, Ha|]. intros w'. by apply calm_trans.
Qed.
Lemma calm_upd p f w : same_core f → one_applet w → calm w (upd p f w).
Proof. intros Hf Hw. apply keeps_calm; [done|]. by apply keeps_upd, Hw. Qed.
Lemma calm_emit e w : one_applet w → calm w (emit e w).
Proof. intros Hw. apply keeps_calm; [done|]. by apply keeps_emit, Hw. Qed.
(** The shell tracker may hold what it held, and processes of its kind. *)
Lemma calm_shells t w :
  (∀ q, q ∈ s_queued t ++ s_created t → in_shell q w ∨ what (the q w) = Shell) →
  one_applet w → calm w (set_shells t w).
Proof.
  intros Ht Hw. constructor; [|done|done].
  destruct Hw as [[Hh Hm Hn] Hc Hl Ht' Hsh Ha]. repeat (constructor; try done).
  intros q Hq. destruct (Ht q Hq); [by apply Hsh|done].
Qed.
Lemma calm_index i w : one_applet w → calm w (set_index i w).
Proof. intros Hw. apply keeps_calm; [done|]. destruct Hw as [Hs]. frame. by destruct Hs; constructor. Qed.
Lemma calm_fault path x w : one_applet w → calm w (add_fault path x w).
Proof. intros Hw. apply keeps_calm; [done|]. destruct Hw as [Hs]. frame. by destruct Hs; constructor. Qed.

Lemma Assert_calm r w : one_applet w → returns (Assert r w) (calm w).
Proof. intros. unfold Assert. destruct (_ =? _); [by apply calm_refl|done]. Qed.
Lemma start_reply_calm p c w : one_applet w → returns (start_reply p c w) (calm w).
Proof.
  intros Hw. eapply returns_mono; [apply start_reply_keeps, Hw|]. intros w'. by apply keeps_calm.
Qed.
Lemma QueueLaunch_calm p w : one_applet w → returns (QueueLaunch p w) (calm w).
Proof.
  intros Hw. destruct (what (the p w)) eqn:Ew.
  - eapply returns_mono; [by apply QueueLaunch_keeps, Hw|]. intros w'. by apply keeps_calm.
  - unfold QueueLaunch, QueueLaunch_with. rewrite Ew. apply calm_shells; [|done]. cbn. intros q.
    unfold in_shell. rewrite !elem_of_app, list_elem_of_singleton. intros [[?| ->]|?]; auto.
Qed.

Lemma Terminate_calm p w : one_applet w → returns (Terminate p w) (calm w).
Proof.
  intros Hw. unfold Terminate, Terminate_with. case_bool_decide; [by apply Exit_calm|].
  apply (calm_chain _ (fun w => w)).
  - case_bool_decide; [by apply start_reply_calm|by apply calm_refl].
  - intros w1 H1. case_bool_decide; [by apply calm_refl|].
    destruct (proc (the p w1)) as [pid|]; [|by apply calm_refl].
    eapply returns_mono; [apply Assert_calm; by apply calm_emit|]. intros w2 H2.
    eapply calm_trans; [by apply calm_emit|done].
Qed.

Lemma Kill_calm p w : one_applet w → returns (Kill p w) (calm w).
Proof.
  intros Hw. assert (calm w (KillImpl p w)) as Hk.
  { unfold KillImpl. destruct (what _); [by apply calm_upd|by apply calm_emit]. }
  unfold Kill, Kill_with. destruct (state (the p w)) eqn:Es; try exact Hk.
  - by apply Exit_calm.
  - by apply calm_upd.
  - unfold MonitoredProcess_Kill. rewrite Es. by apply start_reply_calm.
  - by apply calm_refl.
Qed.

Lemma calm_sane_upd p f w :
  (∀ x, state (f x) = state x ∧ proc (f x) = proc x ∧ what (f x) = what x) →
  sane (upd p f w) → one_applet w → calm w (upd p f w).
Proof.
  intros Hf Hs Hw. apply keeps_calm; [done|].
  constructor; try (intros; apply the_upd_field; apply Hf); try done; try (by intros; left).
  by rewrite upd_length.
Qed.

Lemma Create_returns (nro : ActualFile) : returns (Files.Create nro) (fun _ => True).
Proof.
  unfold Files.Create. apply (returns_chain _ _ (fun _ => True)).
  2:{ intros [r [h|]] _; [|done]. by destruct (nro_segments h) as [[? ?] ?]. }
  unfold NROHeader_Read, Read, ActualFile_file, ActualFile_Read.
  destruct (negb (fseek _ _)); [done|]. cbn [mbind outcome_bind]. by destruct (_ || _).
Qed.

(** What getting a process ready does when it is still wanted. *)
Definition ready_effect (p : nat) (w w' : world) : Prop :=
  w' = w ∨ w' = upd p (set_launch (set_ecs true)) (emit (CallSetECS p) w).
Lemma PrepareForLaunch_wanted p w :
  exit_pending (launching (the p w)) = false →
  returns (PrepareForLaunch p w) (fun '(_, w') => ready_effect p w w').
Proof.
  intros E. unfold PrepareForLaunch. rewrite E. destruct (files _) as [|nro [|]]; [by left| |by left].
  eapply returns_chain; [apply Create_returns|]. intros [r _] _. destruct (negb _); [by left|].
  cbn zeta. destruct (negb _); [by left|]. unfold Assert. destruct (_ =? _); [|done]. by right.
Qed.
Lemma PrepareForLaunch_calm p w :
  one_applet w → returns (PrepareForLaunch p w) (fun '(_, w') => calm w w').
Proof.
  intros Hw. destruct (exit_pending (launching (the p w))) eqn:E.
  - unfold PrepareForLaunch. rewrite E. eapply returns_chain; [by apply Exit_calm|]. by intros w1 H1.
  - eapply returns_mono; [by apply PrepareForLaunch_wanted|]. intros [r w1] [->| ->]; [by apply calm_refl|].
    eapply calm_trans; [by apply calm_emit|]. by apply calm_upd, calm_emit.
Qed.

(** *** AppletTracker *)

Definition no_applet (w : world) : Prop :=
  one_applet w ∧ created (applets w) = [] ∧ ∀ q, ¬ live q w.
Lemma ready_no_applet w : one_applet w → ReadyToLaunch w = true → no_applet w.
Proof.
  intros Hw Hr. unfold ReadyToLaunch in Hr. apply andb_true_iff in Hr as [Hc Hm].
  split; [done|]. split; [by destruct (created (applets w))|]. intros q Hq.
  rewrite (oa_live w Hw q Hq) in Hm. apply bool_decide_eq_true in Hm. by destruct Hq as (_ & _ & ?).
Qed.
Lemma calm_no_applet w w' : no_applet w → calm w w' → no_applet w'.
Proof.
  intros (Hw & Hc & Hl) H. split; [apply H|]. split; [by rewrite (calm_created _ _ H)|].
  intros q Hq. by apply (Hl q), (calm_live _ _ H).
Qed.
Lemma push_created p w :
  no_applet w → one_applet (on_applets (fun t => set_created (created t ++ [p]) t) w).
Proof.
  intros ([[Hh Hm Hn] Hc Hl Ht Hsh Ha] & Ec & Hno). constructor; try done.
  cbn. rewrite Ec. done.
Qed.

Lemma CreateHbmenu_keeps w :
  sane w → returns (CreateHbmenu w) (fun '(w', h) => keeps w w' ∧ launching (the h w') = no_launch).
Proof.
  intros Hs. unfold CreateHbmenu. eapply returns_chain; [apply CreateProcess_spec|].
  intros [w1 h] [-> ->]. pose proof (new_applet_keeps w Hs) as H1.
  pose proof (the_created Applet w) as El. set (h := length (procs w)) in *.
  set (w1 := set_procs _ w) in *.
  apply (returns_chain _ _ (fun '(w2, _) => keeps w1 w2 ∧ procs w2 = procs w1)).
  - destruct (hbmenu_nro _); [split; [by apply keeps_refl, H1|done]|].
    apply (returns_chain _ _ (fun _ => True)); [by unfold Files.ActualFile_Open; destruct (fopen _)|].
    intros [r [f|]] _; [|done]. split; [|done]. apply keeps_applets; [done..|apply H1].
  - intros [w2 nro] [H2 E2]. split.
    + eapply keeps_trans; [exact H1|]. eapply keeps_trans; [exact H2|]. by apply keeps_upd, H2.
    + rewrite (the_upd_field launching) by done. unfold the in El |- *. by rewrite E2, El.
Qed.

(** The menu is remembered only while it is made ready. *)
Lemma pop_hbmenu_one w : no_applet w → returns (pop_hbmenu w) (fun '(_, _, w') => one_applet w').
Proof.
  intros Hw. unfold pop_hbmenu. eapply returns_chain; [apply CreateHbmenu_keeps, Hw|].
  intros [w1 h] [H1 El].
  assert (no_applet w1) as Hw1 by (eapply calm_no_applet; [exact Hw|by apply keeps_calm; [apply Hw|]]).
  set (w2 := on_applets _ w1).
  eapply returns_chain; [apply (PrepareForLaunch_wanted h w2)|].
  { change (the h w2) with (the h w1). by rewrite El. }
  intros [r w3] He. unfold Assert. destruct (r =? EOK); [|done]. cbn [mbind outcome_bind returns].
  assert (∀ w4, keeps w1 w4 → one_applet (on_applets (fun t => set_created (created t ++ [h]) t)
    (on_applets (fun t => set_hbmenu (hbmenu_nro t) None t) w4))) as Hgo.
  { intros w4 H4. apply push_created. eapply calm_no_applet; [exact Hw1|].
    apply keeps_calm; [apply Hw1|]. eapply keeps_trans; [exact H4|].
    apply keeps_applets; [by rewrite (sane_menu w4) by apply H4|done..|apply H4]. }
  destruct He as [->| ->].
  - apply (Hgo w1). by apply keeps_refl, Hw1.
  - apply (Hgo (upd h (set_launch (set_ecs true)) (emit (CallSetECS h) w1))).
    eapply keeps_trans; [by apply keeps_emit, Hw1|]. by apply keeps_upd, keeps_emit, Hw1.
Qed.

(** How often the loop over the queue can still go round: an exit may queue one more. *)
Definition rounds (w : world) : nat :=
  length (queued (applets w)) + (if monitored (applets w) then 1 else 0).
Definition shrinks (w w' : world) : Prop := (rounds w' ≤ rounds w)%nat.

Lemma HBLLoad_rounds change path args w :
  sane w → returns (HBLLoad_with change path args w) (fun w' =>
    (length (queued (applets w')) ≤ S (length (queued (applets w))))%nat).
Proof.
  intros Hs. unfold HBLLoad_with. destruct (fopen _); [|cbn; lia].
  eapply returns_chain; [apply CreateProcess_spec|]. intros [w1 p] [-> ->].
  eapply returns_chain; [apply ActualFile_new_returns|]. intros a _.
  unfold QueueLaunch_with. destruct (what _); [|cbn; lia].
  cbn [upd set_procs applets set_code]. rewrite (sane_menu w Hs). cbn [mbind outcome_bind returns].
  unfold signal_if_ready. destruct (ReadyToLaunch _); cbn; rewrite length_app; cbn; lia.
Qed.

Lemma tracker_StateChanged_rounds change s w :
  sane w → returns (tracker_StateChanged change s w) (shrinks w) ∨
           (s = Exited ∧ monitored (applets w) = None).
Proof.
  intros Hs. unfold tracker_StateChanged. set (w1 := signal_if_ready w).
  assert (applets w1 = set_control (has_control_process (applets w1)) (process_queued_event (applets w1)) (applets w)) as E1
    by (unfold w1, signal_if_ready; destruct (ReadyToLaunch w); [done|by destruct w as [? ? ? []]]).
  assert (sane w1) as Hs1 by by apply keeps_signal.
  case_bool_decide as He.
  2:{ left. unfold shrinks, rounds. cbn [returns]. by rewrite E1. }
  rewrite (sane_menu w1 Hs1). rewrite E1 at 1. cbn [set_control monitored].
  destruct (monitored (applets w)) as [m|] eqn:Em; [|by right]. left.
  rewrite (bool_decide_eq_false_2 (None = Some m)) by done.
  apply (returns_chain _ _ (fun w2 => (length (queued (applets w2)) ≤ S (length (queued (applets w))))%nat)).
  - case_bool_decide; [cbn; rewrite E1; cbn; lia|].
    eapply returns_mono; [by apply HBLLoad_rounds|]. intros w2. by rewrite E1.
  - intros w2 H2. unfold shrinks, rounds. cbn [returns]. rewrite Em. unfold Reattach.
    destruct (monitored (applets w2)); cbn; lia.
Qed.



Lemma client_StateChanged_applets k s w : applets (client_StateChanged k s w) = applets w.
Proof. unfold client_StateChanged. by destruct (state_observer _). Qed.
Lemma shrinks_applets w w' : applets w' = applets w → shrinks w w'.
Proof. intros E. unfold shrinks, rounds. by rewrite E. Qed.

Lemma notify_all_rounds change s l w :
  NoDup l → sane w →
  (TrackerMonitor ∈ l → s = Exited → ∃ m, monitored (applets w) = Some m ∧ state (the m w) = Exited) →
  returns (notify_all change s l w) (shrinks w).
Proof.
  revert w. induction l as [|o l IH]; intros w Hn Hs Hm; [unfold shrinks; cbn; lia|].
  apply NoDup_cons in Hn as [Ho Hn]. cbn [notify_all].
  apply (returns_chain _ _ (fun w1 => keeps w w1 ∧ shrinks w w1 ∧
    (o ≠ TrackerMonitor → monitored (applets w1) = monitored (applets w)))).
  - destruct o as [|k]; cbn [notify_with].
    + assert (s = Exited → ∃ m, monitored (applets w) = Some m ∧ state (the m w) = Exited) as Hm'
        by (apply Hm; by left).
      apply (returns_mono _ (fun w1 => keeps w w1 ∧ shrinks w w1)); [|naive_solver].
      apply returns_and; [by apply tracker_StateChanged_keeps|].
      destruct (tracker_StateChanged_rounds change s w Hs) as [H|[Es E]]; [exact H|].
      destruct (Hm' Es) as (m & Em & _). congruence.
    + split_and!; [by apply client_StateChanged_keeps|apply shrinks_applets|intros _];
        by rewrite client_StateChanged_applets.
  - intros w1 (H1 & S1 & E1). eapply returns_mono; [apply IH; [done|apply H1|]|].
    + intros Hin Es. destruct o as [|k]; [done|]. rewrite E1 by done.
      destruct Hm as (m & Em & Est); [by right|done|]. exists m. by rewrite (k_state _ _ H1).
    + intros w2 S2. unfold shrinks in *. lia.
Qed.

Lemma MonitoredProcess_ChangeState_rounds change p s w :
  sane w → returns (MonitoredProcess_ChangeState change p s w) (shrinks w).
Proof.
  intros Hs. unfold MonitoredProcess_ChangeState.
  apply (returns_chain _ _ (fun w1 => sane w1 ∧ applets w1 = applets w)).
  - case_bool_decide; [|by split].
    destruct (suspended_launch_cb _) eqn:E; [|split; [by apply keeps_emit|done]].
    apply returns_and; [|unfold start_reply; by rewrite E].
    eapply returns_mono; [by apply start_reply_keeps, (k_sane w), keeps_emit|]. by intros w1 [].
  - intros w1 [H1 E1]. pose proof (set_state_changed p s w1 H1) as Hc.
    set (w2 := emit _ _) in *.
    assert (∀ w3, shrinks w2 w3 → shrinks w w3) as Hgo.
    { intros w3. unfold shrinks, rounds, w2. cbn. by rewrite E1. }
    eapply returns_mono; [apply notify_all_rounds|intros w3; apply Hgo]; [apply Hc..|].
    intros Hin ->. exists p. split; [by apply (sane_watch _ (c_sane _ _ _ _ Hc))|].
    rewrite (c_state _ _ _ _ Hc). case_bool_decide as Hl; [done|].
    unfold the in Hin. rewrite (proj2 (lookup_ge_None _ _)) in Hin; [by apply not_elem_of_nil in Hin|].
    unfold w2. change (length (procs (upd p (set_state Exited) w1)) ≤ p)%nat. rewrite upd_length. lia.
Qed.

Lemma Exit_rounds p w : sane w → returns (ChangeState p Exited w) (shrinks w).
Proof.
  intros Hs. unfold ChangeState, depth. cbn [ChangeState_fuel].
  unfold ChangeState_with, Tracked_ChangeState, ECS_ChangeState.
  apply (returns_chain _ _ (shrinks w)).
  - apply (returns_chain _ _ (shrinks w)).
    + eapply returns_chain; [by apply MonitoredProcess_ChangeState_rounds|]. intros w1 H1.
      destruct (ecs_pending _); [|done]. unfold Assert. by destruct (_ =? _).
    + intros w1 H1. unfold answer_opener. by destruct (run_opener _).
  - intros w1 H1. by case_bool_decide.
Qed.

Lemma PrepareForLaunch_rounds p w :
  sane w → returns (PrepareForLaunch p w) (fun '(_, w') => shrinks w w').
Proof.
  intros Hs. destruct (exit_pending (launching (the p w))) eqn:E.
  - unfold PrepareForLaunch. rewrite E. eapply returns_chain; [by apply Exit_rounds|]. by intros w1 H1.
  - eapply returns_mono; [by apply PrepareForLaunch_wanted|]. intros [r w1] [->| ->]; by unfold shrinks.
Qed.

Lemma pop_queued_one fuel w :
  no_applet w → (rounds w < fuel)%nat → returns (pop_queued fuel w) (fun '(_, _, w') => one_applet w').
Proof.
  revert w. induction fuel as [|fuel IH]; intros w Hw Hf; [lia|]. cbn [pop_queued].
  destruct (queued (applets w)) as [|p l] eqn:Eq; [by apply pop_hbmenu_one|].
  set (w1 := on_applets (set_queued l) w).
  assert (keeps w w1) as H1 by (by apply keeps_applets; [..|apply Hw]).
  assert (no_applet w1) as Hw1 by (eapply calm_no_applet; [exact Hw|apply keeps_calm; [apply Hw|done]]).
  assert (rounds w1 < fuel)%nat as Hr by (unfold rounds in *; cbn; rewrite Eq in Hf; cbn in Hf; lia).
  eapply returns_chain; [apply returns_and; [apply PrepareForLaunch_calm, Hw1|apply PrepareForLaunch_rounds, H1]|].
  intros [r w2] [H2 S2]. assert (no_applet w2) as Hw2 by by eapply calm_no_applet.
  destruct (r =? _); [apply IH; [done|unfold shrinks in S2; lia]|].
  destruct (negb _); [apply Hw2|]. by apply push_created.
Qed.

(** [Reattach] to a process: it is the one that is watched, and the only one. *)
Lemma Reattach_Some_sane p w : sane w → sane (Reattach (Some p) w).
Proof.
  intros [Hh Hm Hn]. unfold Reattach. match goal with |- context [on_applets _ ?x] => set (w1 := x) end.
  assert (sane (set_applets (applets w) w1) ∧ applets w1 = applets w ∧
    ∀ q, TrackerMonitor ∉ monitors (the q w1)) as (Hs1 & E1 & Hno).
  { unfold w1. destruct (monitored (applets w)) as [m|] eqn:Em.
    - split; [|split; [done|]].
      + split; [done|..]; intros q; change (the q (set_applets _ ?w)) with (the q w); rewrite the_upd;
          case_bool_decide.
        * cbn. rewrite elem_of_unwatch. naive_solver.
        * intros Hin. change (monitored (applets w) = Some q). rewrite Em. by apply Hm.
        * cbn. by apply NoDup_unwatch.
        * done.
      + intros q. rewrite the_upd. case_bool_decide as Hq; [cbn; rewrite elem_of_unwatch; naive_solver|].
        intros Hin. pose proof (Hm q Hin) as [= ->]. destruct Hq. split; [done|].
        destruct (decide (q < length (procs w))%nat); [done|]. unfold the in Hin.
        rewrite (proj2 (lookup_ge_None _ _)) in Hin by lia. by apply not_elem_of_nil in Hin.
    - split; [|split; [done|]]; [split; [done| |done]|]; intros q Hin; by pose proof (Hm q Hin). }
  split.
  - cbn. by rewrite E1.
  - intros q. rewrite the_upd. case_bool_decide as Hq; [by destruct Hq as [-> _]|]. by intros ?%Hno.
  - intros q. rewrite the_upd. pose proof (sane_once _ Hs1 q) as Hd.
    change (the q (set_applets _ ?w)) with (the q w) in Hd.
    change (the q (on_applets _ ?w)) with (the q w). case_bool_decide; [|done].
    cbn. apply NoDup_app. split_and!; [done| |apply NoDup_singleton].
    intros x Hx ->%list_elem_of_singleton. by apply (Hno q).
Qed.
Lemma Reattach_fields {A} (g : process → A) n w q :
  (∀ l x, g (set_monitors l x) = g x) → g (the q (Reattach n w)) = g (the q w).
Proof.
  intros Hg. unfold Reattach. destruct n as [p|], (monitored (applets w)) as [m|];
    rewrite ?(the_upd_field g) by (intros; apply Hg); change (the q (on_applets _ ?w)) with (the q w);
    rewrite ?(the_upd_field g) by (intros; apply Hg); done.
Qed.

(** A new host process is the one applet. *)
Lemma AttachHostProcess_one pid w :
  one_applet w → returns (AttachHostProcess pid w) (fun '(w', _) => one_applet w').
Proof.
  intros [Hs Hc Hl Ht Hsh Ha]. unfold AttachHostProcess.
  destruct (created (applets w)) as [|p l] eqn:Ec; [done|]. assert (l = []) as -> by (destruct l; cbn in Hc; [done|lia]).
  unfold Attach. destruct (proc (the p w)) eqn:Ep; [done|]. set (w1 := upd p (set_proc pid) w).
  assert (sane w1) as Hs1.
  { destruct Hs as [Hh Hm Hn]. split; [done|..]; intros q; unfold w1;
      rewrite (the_upd_field monitors) by done; auto. }
  eapply returns_chain; [by apply ChangeState_spec|]. intros w2 H2.
  set (w3 := on_applets _ w2). cbn [returns].
  enough (one_applet (Reattach (Some p) w3)) as H by (by apply (calm_one _ _ (keeps_calm _ _ H (keeps_signal _ (oa_sane _ H))))).
  assert (sane w3) as Hs3 by (destruct (c_sane _ _ _ _ H2); by constructor).
  assert (∀ q, q ≠ p → ¬ live q (Reattach (Some p) w3)) as Hno.
  { intros q Hq Hlq. apply (Ha ltac:(discriminate) q). unfold live in *.
    rewrite !(Reattach_fields what), !(Reattach_fields proc), !(Reattach_fields state) in Hlq by done.
    change (the q w3) with (the q w2) in Hlq.
    rewrite (c_what _ _ _ _ H2), (c_proc _ _ _ _ H2), (c_other _ _ _ _ H2) in Hlq by done.
    unfold w1 in Hlq. by rewrite the_upd, bool_decide_eq_false_2 in Hlq by (by intros []). }
  assert (created (applets (Reattach (Some p) w3)) = []) as Ec3.
  { unfold Reattach. destruct (monitored (applets w3)); cbn; by rewrite (c_created _ _ _ _ H2); cbn; rewrite Ec. }
  constructor; [by apply Reattach_Some_sane|by rewrite Ec3; cbn; lia| | | |by rewrite Ec3].
  - intros q Hq. destruct (decide (q = p)) as [->|Hne]; [|by destruct (Hno q Hne)].
    unfold Reattach. by destruct (monitored (applets w3)).
  - intros q. rewrite (Reattach_fields proc), (Reattach_fields state) by done.
    change (the q w3) with (the q w2). rewrite (c_proc _ _ _ _ H2). intros Hp.
    destruct (decide (q = p)) as [->|Hne].
    + by rewrite (c_state _ _ _ _ H2), bool_decide_eq_true_2 by by apply attached_in_range.
    + rewrite (c_other _ _ _ _ H2) by done. unfold w1 in Hp |- *.
      rewrite the_upd, bool_decide_eq_false_2 in Hp |- * by (by intros []). auto.
  - intros q. rewrite (Reattach_fields what) by done. change (the q w3) with (the q w2).
    rewrite (c_what _ _ _ _ H2). unfold w1. rewrite (the_upd_field what) by done. intros Hq.
    assert (in_shell q w2) as Hq2.
    { unfold Reattach in Hq. by destruct (monitored (applets w3)). }
    unfold in_shell in Hq2. rewrite (c_shells _ _ _ _ H2) in Hq2. by apply Hsh.
Qed.

Lemma keeps_calm_returns m w : one_applet w → returns m (keeps w) → returns m (calm w).
Proof. intros Hw Hm. eapply returns_mono; [exact Hm|]. intros w'. by apply keeps_calm. Qed.

Lemma Launch_calm p o w :
  state (the p w) = Created → one_applet w → returns (Launch p o w) (calm w).
Proof.
  intros Es Hw. unfold Launch. set (w1 := upd p _ w). assert (calm w w1) as H1 by by apply calm_upd.
  apply (calm_chain _ (fun w => w)); [|intros; by apply QueueLaunch_calm].
  eapply returns_mono; [apply ChangeState_calm; [|apply H1]|intros w2; by apply calm_trans].
  split; [done|right; left]. unfold w1. by rewrite (the_upd_field state), Es by done.
Qed.

Lemma client_Launch_calm b k o w : one_applet w → returns (client_Launch b k o w) (calm w).
Proof.
  intros Hw. unfold client_Launch. set (p := watches _). case_bool_decide as Es; [|by apply calm_emit].
  set (w1 := set_monitored _ w).
  assert (calm w w1) as H1 by by apply keeps_calm, keeps_monitored, Hw.
  destruct b.
  - unfold LaunchSuspended. set (w2 := upd p _ w1). assert (calm w1 w2) as H2 by by apply calm_upd, H1.
    eapply returns_mono; [apply Launch_calm; [|apply H2]|].
    + unfold w2. rewrite (the_upd_field state) by done. exact Es.
    + intros w3 H3. eapply calm_trans; [exact H1|]. by eapply calm_trans.
  - eapply returns_mono; [apply Launch_calm; [exact Es|apply H1]|]. intros w3. by apply calm_trans.
Qed.

Lemma Continue_calm p w : one_applet w → returns (Continue p w) (calm w).
Proof.
  intros Hw. unfold Continue. case_bool_decide as Es; [|by apply calm_upd].
  apply (calm_chain _ (fun w => w)); [|intros; by apply start_reply_calm].
  apply ChangeState_calm; [|done]. split; [done|right; left]. by rewrite Es.
Qed.

Lemma WaitToStart_calm p w : state (the p w) = Attached → one_applet w → returns (WaitToStart p w) (calm w).
Proof.
  intros Es Hw. unfold WaitToStart.
  destruct (suspended_launch_enabled _); apply (calm_chain _ (fun w => w));
    try (apply ChangeState_calm; [|done]; split; [done|right; left]; by rewrite Es); intros w1 H1.
  - by apply calm_upd.
  - by apply calm_emit.
Qed.

Lemma client_WaitStateChange_calm k o w : one_applet w → calm w (client_WaitStateChange k o w).
Proof.
  intros Hw. unfold client_WaitStateChange. destruct (state_changes _) as [|s l].
  - eapply calm_trans; [|apply keeps_calm; [|apply keeps_clients]];
      destruct (state_observer _); try (by apply calm_emit); try (by apply calm_refl); try done;
      by apply calm_emit.
  - eapply calm_trans; [by apply calm_emit|]. apply keeps_calm; [by apply calm_emit|].
    by apply keeps_clients, calm_emit.
Qed.

Lemma UnmonitoredProcess_Terminate_calm pid w :
  one_applet w → returns (UnmonitoredProcess_Terminate pid w) (calm w).
Proof.
  intros Hw. unfold UnmonitoredProcess_Terminate. set (w1 := emit _ w).
  assert (calm w w1) as H1 by by apply calm_emit. destruct (_ =? _); [done|].
  eapply returns_chain; [by apply Assert_calm, H1|]. intros w2 H2.
  eapply returns_mono; [by apply Assert_calm, H2|]. intros w3 H3.
  eapply calm_trans; [|exact H3]. by eapply calm_trans.
Qed.
Lemma exit_all_calm l w : one_applet w → returns (exit_all l w) (calm w).
Proof.
  revert w. induction l as [|p l IH]; intros w Hw; [by apply calm_refl|]. cbn [exit_all].
  apply (calm_chain _ (fun w => w)); [by apply Exit_calm|]. intros w1. apply IH.
Qed.
Lemma ReleaseControlProcess_one w :
  one_applet w → returns (ReleaseControlProcess w) one_applet.
Proof.
  intros Hw. unfold ReleaseControlProcess. destruct (negb _); [done|].
  set (w1 := on_applets _ w). assert (calm w w1) as H1 by (by apply keeps_calm, keeps_applets, Hw).
  eapply returns_chain; [apply exit_all_calm, H1|]. intros w2 H2.
  rewrite (sane_menu w2) by apply H2. cbn [mbind outcome_bind returns].
  destruct (calm_one _ _ H2) as [[Hh Hm Hn] Hc Hl Ht Hsh Ha]. by repeat constructor.
Qed.

(** Getting a process of the shell's to attach does not make it an applet. *)
Lemma Attach_shell p pid w :
  what (the p w) = Shell → one_applet w → returns (Attach p pid w) (calm w).
Proof.
  intros Ew Hw. unfold Attach. destruct (proc (the p w)) eqn:Ep; [done|]. set (w1 := upd p (set_proc pid) w).
  destruct Hw as [[Hh Hm Hn] Hc Hl Ht Hsh Ha].
  assert (sane w1) as Hs1.
  { split; [done|..]; intros q; unfold w1; rewrite (the_upd_field monitors) by done; auto. }
  assert (∀ q, q ≠ p → the q w1 = the q w) as E1.
  { intros q Hq. unfold w1. by rewrite the_upd, bool_decide_eq_false_2 by (by intros []). }
  assert (∀ q, what (the q w1) = what (the q w)) as E2 by (intros q; by apply (the_upd_field what)).
  eapply returns_mono; [by apply ChangeState_spec|]. intros w2 [K1 K2 K3 K4 K5 K6 KS K7 K8].
  assert (∀ q, live q w2 → live q w) as Hlive.
  { intros q (Hw & Hp & He). rewrite K4, E2 in Hw. assert (q ≠ p) as Hq by congruence.
    rewrite K3, E1 in Hp by done. rewrite K1, E1 in He by done. done. }
  constructor; [|done|done]. constructor; try done.
  - by rewrite K6.
  - intros q Hq. pose proof (Hlive q Hq) as Hq'. change (applets w1) with (applets w) in K7.
    destruct K7 as [->|(_ & m & Em & Es)]; [by apply Hl|]. exfalso.
    rewrite (Hl q Hq') in Em. injection Em as <-.
    assert (q ≠ p) as Hne by (intros ->; destruct Hq' as (? & _); congruence).
    destruct Es as [[-> _]|Es]; [done|]. rewrite E1 in Es by done. by destruct Hq' as (_ & _ & ?).
  - intros q. rewrite K3. intros Hp. destruct (decide (q = p)) as [->|Hq].
    + by rewrite K2, bool_decide_eq_true_2 by by apply attached_in_range.
    + rewrite K1 by done. rewrite E1 in Hp |- * by done. auto.
  - intros q. unfold in_shell. rewrite K4, E2, KS. apply Hsh.
  - rewrite K6. intros Hne q Hq. by apply (Ha Hne q), Hlive.
Qed.


Lemma ShellAttachHostProcess_calm pid w :
  one_applet w → returns (ShellAttachHostProcess pid w) (fun '(w', _) => calm w w').
Proof.
  intros Hw. unfold ShellAttachHostProcess. destruct (s_created (shells w)) as [|p l] eqn:E; [done|].
  eapply returns_chain; [apply Attach_shell; [|done]|].
  - apply (oa_shell w Hw). unfold in_shell. rewrite E. set_solver.
  - intros w1 H1. cbn [returns]. eapply calm_trans; [exact H1|]. apply calm_shells; [|apply H1].
    cbn. intros q. unfold in_shell. rewrite !elem_of_app. intros [?|Hq]; left; [by left|right].
    destruct (s_created (shells w1)); [done|]. by right.
Qed.

Lemma PrepareForLaunch_shells p w :
  sane w → returns (PrepareForLaunch p w) (fun '(_, w') =>
    shells w' = shells w ∧ ∀ q, what (the q w') = what (the q w)).
Proof.
  intros Hs. destruct (exit_pending (launching (the p w))) eqn:E.
  - unfold PrepareForLaunch. rewrite E. eapply returns_chain; [by apply ChangeState_spec|].
    intros w1 H1. split; apply H1.
  - eapply returns_mono; [by apply PrepareForLaunch_wanted|]. intros [r w1] [->| ->]; [done|].
    split; [done|]. intros q. by rewrite (the_upd_field what).
Qed.
Lemma shell_pop_queued_calm fuel w :
  one_applet w → (length (s_queued (shells w)) < fuel)%nat →
  returns (shell_pop_queued fuel w) (fun '(_, _, w') => calm w w').
Proof.
  revert w. induction fuel as [|fuel IH]; intros w Hw Hf; [lia|]. cbn [shell_pop_queued].
  destruct (s_queued (shells w)) as [|p l] eqn:Eq; [by apply calm_refl|].
  set (w1 := on_shells _ w).
  assert (calm w w1) as H1.
  { apply calm_shells; [|done]. cbn. intros q. unfold in_shell. rewrite Eq. set_solver. }
  assert (what (the p w1) = Shell) as Ew.
  { apply (oa_shell w Hw). unfold in_shell. rewrite Eq. set_solver. }
  eapply returns_chain; [apply returns_and; [by apply PrepareForLaunch_calm, H1|apply PrepareForLaunch_shells, H1]|].
  intros [r w2] [H2 [E2 W2]]. assert (calm w w2) as H2' by by eapply calm_trans.
  destruct (r =? _).
  { eapply returns_mono; [apply IH; [apply H2|rewrite E2; cbn in *; lia]|].
    intros [[r' o] w3] H3. by eapply calm_trans. }
  destruct (negb _); [done|]. cbn [returns]. eapply calm_trans; [exact H2'|].
  apply calm_shells; [|apply H2]. cbn. intros q. unfold in_shell.
  rewrite !elem_of_app, list_elem_of_singleton. intros [?|[?| ->]]; auto. right. by rewrite W2.
Qed.

Lemma TryToLaunch_calm l w : one_applet w → returns (TryToLaunch l w) (calm w).
Proof.
  intros Hw. unfold TryToLaunch. set (w1 := on_shells _ w).
  assert (calm w w1) as H1 by (apply calm_shells; [|done]; cbn; unfold in_shell; auto).
  destruct (s_created (shells w1)); [|done].
  eapply returns_chain; [apply shell_pop_queued_calm; [apply H1|lia]|].
  intros [[r out] w2] H2. assert (calm w w2) as H2' by by eapply calm_trans.
  destruct out as [p|]; [|done]. destruct (l.1 =? EOK).
  - cbn [returns]. eapply calm_trans; [exact H2'|]. apply calm_shells; [|apply H2]. unfold in_shell. auto.
  - set (w3 := upd p _ w2). assert (calm w w3) as H3.
    { eapply calm_trans; [exact H2'|]. by apply calm_upd, H2. }
    eapply returns_chain; [apply Exit_calm, H3|]. intros w4 H4. cbn [returns].
    eapply calm_trans; [by eapply calm_trans|]. apply calm_shells; [|apply H4]. cbn. unfold in_shell.
    intros q. rewrite app_nil_r, elem_of_app. auto.
Qed.

Lemma CreateMonitoredProcess_calm type o w :
  one_applet w → returns (CreateMonitoredProcess type o w) (calm w).
Proof.
  intros Hw. assert (∀ k, returns ('(w, p) ← CreateProcess k w;
    let c := length (clients w) in
    let w := upd p (fun x => set_monitors (monitors x ++ [ClientMonitor c]) x) w in
    Done (emit (RespondObject o c) (set_clients (clients w ++ [mk_client p [] None true]) w))) (calm w)) as Hk.
  { intros k. eapply returns_chain; [apply CreateProcess_spec|]. intros [w1 p] [-> ->].
    set (w1 := set_procs _ w). set (p := length (procs w)). cbn zeta. set (f := fun x => set_monitors _ x).
    cbn [returns]. set (w2 := upd p f w1).
    enough (calm w w2) as H.
    { set (w3 := set_clients _ w2). eapply calm_trans; [exact H|].
      assert (calm w2 w3) as H3 by (apply keeps_calm, keeps_clients; apply H).
      eapply calm_trans; [exact H3|]. by apply calm_emit, H3. }
    assert (∀ q, the q w2 = the q w ∨ the q w2 = f (new_process k) ∧ the q w = new_process Applet) as E.
    { intros q. unfold w2. rewrite the_upd. case_bool_decide as Hq.
      - destruct Hq as [-> _]. right. unfold w1, p. rewrite the_created. split; [done|].
        unfold the. by rewrite (proj2 (lookup_ge_None _ _)).
      - destruct (the_new_process k w q) as [?|(-> & _)]; [by left|]. destruct Hq.
        split; [done|]. unfold w1, p. cbn. rewrite length_app. cbn. lia. }
    destruct Hw as [[Hh Hm Hn] Hc Hl Ht Hsh Ha].
    assert (∀ q, live q w2 → live q w) as Hlive.
    { intros q. unfold live. destruct (E q) as [->|(-> & _)]; [done|]. by intros (_ & ? & _). }
    constructor; [|done|done]. constructor; [split; [done|..]|done|..].
    - intros q. destruct (E q) as [->|(-> & _)]; [apply Hm|]. cbn. by intros ?%list_elem_of_singleton.
    - intros q. destruct (E q) as [->|(-> & _)]; [done|]. apply NoDup_singleton.
    - intros q Hq. by apply Hl, Hlive.
    - intros q. destruct (E q) as [->|(-> & _)]; [apply Ht|done].
    - intros q Hq. specialize (Hsh q Hq). destruct (E q) as [->|(_ & Eq)]; [done|]. by rewrite Eq in Hsh.
    - intros Hne q Hq. by apply (Ha Hne q), Hlive. }
  unfold CreateMonitoredProcess. cbn zeta. case_bool_decide; [apply Hk|]. case_bool_decide; [apply Hk|].
  by apply calm_emit.
Qed.

Lemma client_destroy_calm k w : one_applet w → returns (client_destroy k w) (calm w).
Proof.
  intros Hw. unfold client_destroy. pose proof (Kill_calm (watches (the_client k w)) w Hw) as Hk.
  destruct (Kill _ w) as [w1| | | |]; try done. cbn [returns] in *. set (p := watches _).
  set (f := fun x => set_monitors _ x).
  assert (calm w1 (upd p f w1)) as H1.
  { apply calm_sane_upd; [done| |apply Hk]. destruct (oa_sane _ (calm_one _ _ Hk)) as [Hh Hm Hn].
    split; [done|..]; intros q; rewrite the_upd; case_bool_decide; auto; cbn.
    - rewrite elem_of_unwatch. intros [_ Hin]. by apply Hm.
    - by apply NoDup_unwatch. }
  eapply calm_trans; [exact Hk|]. eapply calm_trans; [exact H1|].
  apply keeps_calm; [apply H1|]. apply keeps_clients, H1.
Qed.

Lemma handle_calm o w :
  moves_applets o = false → enabled o w → ¬ null_stream o w → one_applet w → returns (handle o w) (calm w).
Proof.
  intros Ho He Hn Hw. destruct o; cbn [handle]; try discriminate Ho.
  - by apply CreateMonitoredProcess_calm.
  - by apply client_Launch_calm.
  - apply (calm_chain _ (fun w => w)); [by apply Terminate_calm|]. intros w1 H1. by apply calm_emit.
  - unfold client_AppendCode. set (w1 := set_index (N.succ (next_index w)) w).
    assert (calm w w1) as H1 by by apply calm_index.
    set (w2 := if opened then w1 else _).
    assert (calm w1 w2) as H2 by (subst w2; destruct opened; [by apply calm_refl, H1|by apply calm_fault, H1]).
    eapply calm_trans; [exact H1|]. eapply calm_trans; [exact H2|]. apply calm_upd; [done|]. apply H2.
  - unfold client_code_receive. cbn [null_stream] in Hn. rewrite (not_true_is_false _ Hn).
    destruct whole; [by apply calm_refl|]. destruct (has_fault path ShortWrite w); [done|]. cbn [returns].
    pose proof (calm_fault path ShortWrite w Hw) as H. eapply calm_trans; [exact H|]. by apply calm_emit, H.
  - unfold client_code_finish. cbn [null_stream] in Hn. rewrite (not_true_is_false _ Hn). apply (returns_chain _ _ (fun _ => True)); [by unfold Files.ActualFile_Open; destruct (fopen _)|].
    intros [r [f|]] _; [|done]. destruct (has_fault path ShortWrite w); [done|]. cbn [returns].
    match goal with |- calm w (emit _ ?x) => assert (calm w x) as H by by apply calm_upd end.
    eapply calm_trans; [exact H|]. by apply calm_emit, H.
  - by apply client_WaitStateChange_calm.
  - by apply client_destroy_calm.
  - apply (calm_chain _ (fun w => w)); [|intros w1 H1; by apply calm_emit].
    destruct (FindMonitoredProcess _ _); [by apply Terminate_calm|by apply UnmonitoredProcess_Terminate_calm].
  - by apply Continue_calm.
  - by apply calm_upd.
  - apply calm_upd; [|done]. intros x. unfold PopCommand. by destruct (commands x).
  - by apply Exit_calm.
  - by apply calm_upd.
  - by apply calm_upd.
  - by apply WaitToStart_calm.
  - by apply TryToLaunch_calm.
  - eapply returns_chain; [by apply ShellAttachHostProcess_calm|]. by intros [w1 p] H1.
  - unfold ShellExit. destruct (om_find _ _) as [p|]; [|by apply calm_refl].
    apply (calm_chain _ (fun w => w)); [by apply Exit_calm|]. intros w1 H1. cbn [returns].
    apply calm_shells; [|done]. unfold in_shell. auto.
  - apply (calm_chain _ (fun w => w)); [by apply Terminate_calm|]. intros w1 H1. by apply calm_upd.
  - by apply keeps_calm, keeps_monitored, Hw.
Qed.

Lemma null_stream_dec o w : Decision (null_stream o w).
Proof. destruct o; cbn [null_stream]; apply _. Defined.
Lemma handle_null o w : null_stream o w → handle o w = Undefined.
Proof.
  destruct o; try done; cbn [null_stream handle]; intros H;
    [unfold client_code_receive|unfold client_code_finish]; by rewrite H.
Qed.
Lemma Done_not_null o w w' : handle o w = Done w' → ¬ null_stream o w.
Proof. intros E H. by rewrite (handle_null o w H) in E. Qed.

Lemma handle_one o w :
  enabled o w → ¬ null_stream o w → one_applet w → returns (handle o w) one_applet.
Proof.
  intros He Hnull Hw. destruct (moves_applets o) eqn:Ho.
  2:{ eapply returns_mono; [by apply handle_calm|]. intros w' H. apply H. }
  destruct o; cbn [handle]; try discriminate Ho.
  - unfold OpenAppletShim. destruct (negb _).
    + unfold AttachControlProcess. destruct (has_control_process _); [done|]. cbn [returns].
      eapply calm_one. by apply keeps_calm, keeps_applets, Hw.
    + eapply returns_chain; [by apply AttachHostProcess_one|]. by intros [w1 p] H1.
  - by apply ReleaseControlProcess_one.
  - destruct He as [_ He]. unfold PopApplet, PopQueuedProcess. eapply returns_chain.
    + apply pop_queued_one; [apply ready_no_applet; [done|]|].
      * unfold GetCommand in He. by destruct (ReadyToLaunch w).
      * unfold rounds. destruct (monitored _); lia.
    + by intros [[r p] w1] H1.
Qed.

Lemma init_one : one_applet init.
Proof.
  assert (∀ p, the p init = new_process Applet) as E by (intros [|]; reflexivity).
  constructor; [split; [done|..]; intros p; rewrite E| |intros p; unfold live; rewrite E..| |]; cbn.
  - intros ?%not_elem_of_nil. done.
  - constructor.
  - lia.
  - intros (_ & ? & _). done.
  - done.
  - intros p. unfold in_shell. cbn. by intros ?%not_elem_of_nil.
  - done.
Qed.


(** *** The clients are told every state *)

Section telling.
(** What each client watches. *)
Context (watched : list nat).

(** Every client knows or will find every state, but for [s], which those in [l] have still
    to be told. *)
Record informed_but (l : list observer) (s : State) (w : world) : Prop := {
  ib_client : ∀ k c, clients w !! k = Some c → alive c = true →
    told k (log w) ++ state_changes c ++ (if bool_decide (ClientMonitor k ∈ l) then [s] else []) =
      history k (watches c) (log w) ∧
    (state_observer c ≠ None → state_changes c = []) ∧ ClientMonitor k ∈ monitors (the (watches c) w);
  ib_monitor : ∀ k p, ClientMonitor k ∈ monitors (the p w) →
    ∃ c, clients w !! k = Some c ∧ alive c = true ∧ watches c = p;
  ib_lag : ∀ k, ClientMonitor k ∈ l → ∃ c, clients w !! k = Some c ∧ alive c = true;
  ib_watches : watches <$> clients w = watched }.
Definition informed : world → Prop := informed_but [] Created.

(** What tells the clients nothing. *)
Record mute (w w' : world) : Prop := {
  m_clients : clients w' = clients w;
  m_monitors : ∀ q k, ClientMonitor k ∈ monitors (the q w') ↔ ClientMonitor k ∈ monitors (the q w);
  m_told : ∀ k, told k (log w') = told k (log w);
  m_history : ∀ k p, history k p (log w') = history k p (log w);
  m_menu : hbmenu (applets w) = None → hbmenu (applets w') = None }.
(** If the call returns, what it returns satisfies [Q]. *)
Definition ends {A} (m : outcome A) (Q : A → Prop) : Prop := ∀ a, m = Done a → Q a.

Lemma ends_bind {A B} (m : outcome A) (f : A → outcome B) P Q :
  ends m P → (∀ a, P a → ends (f a) Q) → ends (m ≫= f) Q.
Proof. intros Hm Hf b (a & Ea & Eb)%bind_Done_inv. by eapply Hf; [apply Hm|]. Qed.
Lemma ends_done {A} (a : A) (Q : A → Prop) : Q a → ends (Done a) Q.
Proof. by intros Ha ? [= <-]. Qed.
Lemma ends_mono {A} (m : outcome A) (P Q : A → Prop) : ends m P → (∀ a, P a → Q a) → ends m Q.
Proof. unfold ends. auto. Qed.
Lemma ends_and {A} (m : outcome A) (P Q : A → Prop) : ends m P → ends m Q → ends m (fun a => P a ∧ Q a).
Proof. unfold ends. auto. Qed.
Lemma returns_ends {A} (m : outcome A) (Q : A → Prop) : returns m Q → ends m Q.
Proof. by intros Hm a ->. Qed.

Lemma mute_refl w : mute w w.
Proof. done. Qed.
Lemma mute_trans w1 w2 w3 : mute w1 w2 → mute w2 w3 → mute w1 w3.
Proof.
  intros [A1 A2 A3 A4 A5] [B1 B2 B3 B4 B5]. constructor; [congruence| |congruence..| |auto].
  - intros q k. by rewrite B2, A2.
  - intros k p. by rewrite B4, A4.
Qed.
Lemma mute_informed l s w w' : mute w w' → informed_but l s w → informed_but l s w'.
Proof.
  intros [A1 A2 A3 A4 _] [B1 B2 B3 B4]. constructor; [| | |by rewrite A1].
  - intros k c. rewrite A1, A2, A3, A4. apply B1.
  - intros k p. rewrite A1, A2. apply B2.
  - intros k. rewrite A1. apply B3.
Qed.
Lemma mute_upd p f w :
  (∀ x k, ClientMonitor k ∈ monitors (f x) ↔ ClientMonitor k ∈ monitors x) → mute w (upd p f w).
Proof. intros Hf. constructor; try done. intros q k. rewrite the_upd. case_bool_decide; [apply Hf|done]. Qed.
Definition quiet_event (e : event) : Prop :=
  match e with RespondObject _ _ | RespondState _ _ _ | StateIs _ _ => False | _ => True end.
Lemma mute_emit e w : quiet_event e → mute w (emit e w).
Proof.
  intros He. constructor; try done; intros; unfold told, history; cbn [emit log];
    rewrite foldl_app; by destruct e.
Qed.
Lemma mute_applets f w : hbmenu (f (applets w)) = hbmenu (applets w) → mute w (on_applets f w).
Proof. intros E. constructor; try done. cbn. by rewrite E. Qed.
Lemma mute_Reattach n w : mute w (Reattach n w).
Proof.
  unfold Reattach. apply (mute_trans _ (match monitored (applets w) with
    | None => w | Some p => upd p (fun x => set_monitors (unwatch TrackerMonitor (monitors x)) x) w end)).
  - destruct (monitored (applets w)); [|done]. apply mute_upd. intros x k. cbn. rewrite elem_of_unwatch.
    naive_solver.
  - destruct n as [p|]; [|done]. eapply mute_trans; [by apply (mute_applets (set_watched (Some p)))|].
    apply mute_upd. intros x k. cbn. rewrite elem_of_app, list_elem_of_singleton. naive_solver.
Qed.
Lemma mute_signal w : mute w (signal_if_ready w).
Proof. unfold signal_if_ready. by destruct (ReadyToLaunch w). Qed.
Lemma mute_new_process k w : mute w (set_procs (procs w ++ [new_process k]) w).
Proof.
  constructor; try done. intros q k'. by destruct (the_new_process k w q) as [->|(-> & -> & ->)].
Qed.
Lemma mute_start_reply p c w : ends (start_reply p c w) (mute w).
Proof.
  unfold start_reply. destruct (suspended_launch_cb _); [|done]. apply ends_done.
  eapply mute_trans; [|by apply mute_emit]. by apply mute_upd.
Qed.
Lemma mute_CreateProcess k w : ends (CreateProcess k w) (fun '(w', _) => mute w w').
Proof.
  eapply ends_mono; [apply returns_ends, CreateProcess_spec|]. intros [w1 p] [-> _]. apply mute_new_process.
Qed.
Lemma mute_QueueLaunch change p w : hbmenu (applets w) = None → ends (QueueLaunch_with change p w) (mute w).
Proof.
  intros E. unfold QueueLaunch_with. destruct (what _); [|by apply ends_done]. rewrite E.
  apply ends_done. eapply mute_trans; [|apply mute_signal]. by apply mute_applets.
Qed.
Lemma mute_HBLLoad change path args w : hbmenu (applets w) = None → ends (HBLLoad_with change path args w) (mute w).
Proof.
  intros E. unfold HBLLoad_with. destruct (fopen _); [|by apply ends_done].
  eapply ends_bind; [apply returns_ends, CreateProcess_spec|]. intros [w1 p] [-> _].
  eapply (ends_bind _ _ (fun _ => True)); [done|]. intros a _. eapply ends_mono; [by apply mute_QueueLaunch|].
  intros w2 H2. eapply mute_trans; [apply (mute_new_process Applet)|]. eapply mute_trans; [|exact H2].
  by apply mute_upd.
Qed.
Lemma mute_tracker change s w : hbmenu (applets w) = None → ends (tracker_StateChanged change s w) (mute w).
Proof.
  intros E. unfold tracker_StateChanged. set (w1 := signal_if_ready w).
  assert (mute w w1) as H1 by apply mute_signal.
  assert (hbmenu (applets w1) = None) as E1 by (unfold w1, signal_if_ready; by destruct (ReadyToLaunch w)).
  case_bool_decide; [|by apply ends_done]. rewrite E1. destruct (monitored (applets w1)) as [m|]; [|done].
  rewrite (bool_decide_eq_false_2 (None = Some m)) by done.
  apply (ends_bind _ _ (mute w)).
  - case_bool_decide; [by apply ends_done|]. eapply ends_mono; [by apply mute_HBLLoad|].
    intros w2. by apply mute_trans.
  - intros w2 H2. apply ends_done. eapply mute_trans; [exact H2|apply mute_Reattach].
Qed.

Lemma told_snoc k l e : told k (l ++ [e]) = match e with
  | RespondObject _ k' => if bool_decide (k' = k) then [] else told k l
  | RespondState k' _ s => if bool_decide (k' = k) then told k l ++ [s] else told k l
  | _ => told k l end.
Proof. unfold told. rewrite foldl_app. by destruct e. Qed.
Lemma history_snoc k p l e : history k p (l ++ [e]) = match e with
  | RespondObject _ k' => if bool_decide (k' = k) then [] else history k p l
  | StateIs p' s => if bool_decide (p' = p) then history k p l ++ [s] else history k p l
  | _ => history k p l end.
Proof. unfold history. rewrite foldl_app. by destruct e. Qed.

Lemma lookup_upd_client k f w k' :
  clients (upd_client k f w) !! k' = if decide (k = k') then f <$> clients w !! k else clients w !! k'.
Proof. apply list_lookup_alter. Qed.

(** One client is told. *)
Lemma client_informed k l s w :
  informed_but (ClientMonitor k :: l) s w → ClientMonitor k ∉ l →
  informed_but l s (client_StateChanged k s w).
Proof.
  intros [B1 B2 B3 B4] Hk. destruct (B3 k) as (c & Ec & Ha); [by left|].
  destruct (B1 k c Ec Ha) as (Eh & Ho & Hm). rewrite bool_decide_eq_true_2 in Eh by by left.
  assert (the_client k w = c) as Et by (unfold the_client; by rewrite Ec).
  assert (∃ f, clients (client_StateChanged k s w) = alter f k (clients w) ∧
    watches (f c) = watches c ∧ alive (f c) = alive c ∧
    (state_observer (f c) ≠ None → state_changes (f c) = []) ∧
    told k (log (client_StateChanged k s w)) ++ state_changes (f c) = told k (log w) ++ state_changes c ++ [s])
    as (f & Ef & Ew & Eal & Eo & Et').
  { unfold client_StateChanged. rewrite Et. destruct (state_observer c) as [o|] eqn:Es.
    - eexists. split; [reflexivity|]. split_and!; try done. cbn [emit upd_client set_clients log state_changes].
      rewrite told_snoc, bool_decide_eq_true_2 by done. rewrite (Ho ltac:(discriminate)). by rewrite app_nil_r.
    - eexists. split; [reflexivity|]. split_and!; done. }
  assert (∀ q, the q (client_StateChanged k s w) = the q w) as Ep
    by (intros q; unfold client_StateChanged; destruct (state_observer (the_client k w)); reflexivity).
  assert (∀ k' p, history k' p (log (client_StateChanged k s w)) = history k' p (log w)) as Eh'.
  { intros k' p. unfold client_StateChanged. destruct (state_observer (the_client k w)); [|done].
    cbn [emit upd_client set_clients log]. by rewrite history_snoc. }
  assert (∀ k', k' ≠ k → told k' (log (client_StateChanged k s w)) = told k' (log w)) as Et2.
  { intros k' Hne. unfold client_StateChanged. destruct (state_observer (the_client k w)); [|done].
    cbn [emit upd_client set_clients log]. by rewrite told_snoc, bool_decide_eq_false_2. }
  constructor.
  - intros k' c'. rewrite Ef, list_lookup_alter. case_decide as Hd.
    + subst k'. rewrite Ec. intros [= <-] _. rewrite bool_decide_eq_false_2 by done.
      rewrite Eh', Ep, Ew, app_nil_r. split_and!; [|done|done]. by rewrite Et', Eh.
    + intros Ec' Ha'. rewrite Eh', Ep, Et2 by done. destruct (B1 k' c' Ec' Ha') as (E & ? & ?).
      split_and!; try done. rewrite <- E. do 2 f_equal.
      rewrite (bool_decide_ext (ClientMonitor k' ∈ l) (ClientMonitor k' ∈ ClientMonitor k :: l)); [done|].
      rewrite elem_of_cons. naive_solver.
  - intros k' p. rewrite Ep. intros Hin. destruct (B2 k' p Hin) as (c' & E' & Ha' & Hw').
    rewrite Ef, list_lookup_alter. case_decide as Hd; [|eauto]. subst k'. rewrite Ec in E' |- *.
    injection E' as <-. exists (f c). split_and!; [done|congruence..].
  - intros k' Hin. destruct (B3 k') as (c' & E' & Ha'); [by right|].
    rewrite Ef, list_lookup_alter. case_decide as Hd; [|eauto]. subst k'. rewrite Ec in E' |- *.
    injection E' as <-. exists (f c). split; [done|congruence].
  - rewrite Ef, <- B4. apply list_eq. intros i. rewrite !list_lookup_fmap, list_lookup_alter.
    case_decide as Hd; [|done]. subst i. rewrite Ec. cbn. by rewrite Ew.
Qed.

Lemma informed_skip l s w : informed_but (TrackerMonitor :: l) s w → informed_but l s w.
Proof.
  intros [B1 B2 B3 B4]. constructor; [|done|intros k Hk; apply B3; by right|done].
  intros k c Ec Ha. destruct (B1 k c Ec Ha) as (E & ? & ?). split_and!; try done. rewrite <- E.
  do 2 f_equal. rewrite (bool_decide_ext (ClientMonitor k ∈ l) (ClientMonitor k ∈ TrackerMonitor :: l)); [done|].
  rewrite elem_of_cons. naive_solver.
Qed.
Lemma informed_nil s s' w : informed_but [] s w → informed_but [] s' w.
Proof. intros []. by constructor. Qed.

Lemma notify_all_informed change s l w :
  NoDup l → hbmenu (applets w) = None → informed_but l s w →
  ends (notify_all change s l w) (informed_but [] s).
Proof.
  revert w. induction l as [|o l IH]; intros w Hn Hh Hi; [by apply ends_done|].
  apply NoDup_cons in Hn as [Ho Hn]. cbn [notify_all].
  apply (ends_bind _ _ (fun w1 => hbmenu (applets w1) = None ∧ informed_but l s w1)).
  - destruct o as [|k]; cbn [notify_with].
    + eapply ends_mono; [by apply mute_tracker|]. intros w1 H1. split; [by apply (m_menu _ _ H1)|].
      eapply mute_informed; [exact H1|]. by apply informed_skip.
    + apply ends_done. rewrite client_StateChanged_applets. split; [done|]. by apply client_informed.
  - intros w1 [H1 I1]. by apply IH.
Qed.

(** What every operation keeps. *)
Definition knowing (w : world) : Prop := sane w ∧ informed w.
Lemma knowing_mute w w' : knowing w → mute w w' → sane w' → knowing w'.
Proof. intros [_ Hi] Hm Hs. split; [done|]. by eapply mute_informed. Qed.

Lemma MonitoredProcess_ChangeState_informed change p s w :
  knowing w → ends (MonitoredProcess_ChangeState change p s w) informed.
Proof.
  intros [Hs Hi]. unfold MonitoredProcess_ChangeState.
  apply (ends_bind _ _ (fun w1 => sane w1 ∧ mute w w1)).
  - case_bool_decide; [|by apply ends_done].
    assert (mute w (emit (ClosePipes p) w)) as H1 by by apply mute_emit.
    assert (sane (emit (ClosePipes p) w)) as Hs1 by by apply keeps_emit.
    destruct (suspended_launch_cb _); [|by apply ends_done].
    apply ends_and; [eapply ends_mono; [by apply returns_ends, start_reply_keeps|intros w1 Hk; apply Hk]|].
    eapply ends_mono; [apply mute_start_reply|]. intros w1. by apply mute_trans.
  - intros w1 [Hs1 H1]. set (w2 := emit _ _).
    pose proof (set_state_changed p s w1 Hs1) as Hc. fold w2 in Hc.
    assert (∀ q k, ClientMonitor k ∈ monitors (the q w2) ↔ ClientMonitor k ∈ monitors (the q w)) as Em.
    { intros q k. rewrite <- (m_monitors _ _ H1). unfold w2. change (the q (emit _ ?w)) with (the q w).
      by rewrite (the_upd_field monitors). }
    eapply ends_mono; [apply notify_all_informed; [apply Hc|by apply Hc|]|intros w3; apply informed_nil].
    destruct Hi as [B1 B2 B3 B4]. constructor; [| | |unfold w2; cbn; by rewrite (m_clients _ _ H1)].
    + intros k c. change (clients w2) with (clients w1). rewrite (m_clients _ _ H1). intros Ec Ha.
      destruct (B1 k c Ec Ha) as (E & Ho & Hm). cbn in E. rewrite app_nil_r in E.
      split_and!; [|done|by apply Em]. unfold w2. cbn [emit log]. rewrite told_snoc, history_snoc.
      cbn [upd set_procs log]. rewrite (m_told _ _ H1), (m_history _ _ H1), app_assoc, E.
      case_bool_decide as Hin.
      * apply Em in Hin. destruct (B2 k p Hin) as (c' & Ec' & _ & Ew). assert (c' = c) as -> by congruence.
        by rewrite bool_decide_eq_true_2.
      * rewrite app_nil_r, bool_decide_eq_false_2; [done|]. intros ->. apply Hin. by apply Em.
    + intros k q Hin%Em. change (clients w2) with (clients w1). rewrite (m_clients _ _ H1). by apply B2.
    + intros k Hin%Em. change (clients w2) with (clients w1). rewrite (m_clients _ _ H1).
      destruct (B2 k p Hin) as (c & ? & ? & _). eauto.
Qed.

Lemma answer_opener_mute p f w : (∀ o, quiet_event (f o)) → mute w (answer_opener p f w).
Proof.
  intros Hf. unfold answer_opener. destruct (run_opener _); [|done].
  eapply mute_trans; [by apply mute_emit|]. by apply mute_upd.
Qed.

Lemma ChangeState_knowing p s w : knowing w → ends (ChangeState p s w) knowing.
Proof.
  intros Hk. apply ends_and.
  { eapply ends_mono; [apply returns_ends, ChangeState_spec, Hk|]. intros w1 H1. apply H1. }
  unfold ChangeState, depth. cbn [ChangeState_fuel]. unfold ChangeState_with, Tracked_ChangeState, ECS_ChangeState.
  apply (ends_bind _ _ informed); [apply (ends_bind _ _ informed);
    [eapply ends_bind; [by apply MonitoredProcess_ChangeState_informed|]|]|]; intros w1 H1.
  - destruct s; try by apply ends_done.
    + apply ends_done. eapply mute_informed; [|exact H1]. by apply mute_upd.
    + destruct (ecs_pending _); [|by apply ends_done]. unfold Assert. destruct (_ =? _); [|done].
      apply ends_done. eapply mute_informed; [|exact H1]. by apply mute_emit.
  - destruct s; try by apply ends_done.
    + cbn zeta. eapply (ends_bind _ _ (fun _ => True)); [done|]. intros [n e] _. destruct (n =? 2); [|done].
      apply ends_done. eapply mute_informed; [|exact H1].
      eapply mute_trans; [|by apply mute_upd]. by apply answer_opener_mute.
    + apply ends_done. eapply mute_informed; [|exact H1]. by apply answer_opener_mute.
  - apply ends_done. case_bool_decide; [|done]. eapply mute_informed; [|exact H1]. by apply mute_upd.
Qed.

(** What keeps what is known. *)
Lemma know_upd p f w : (∀ x, monitors (f x) = monitors x) → knowing w → knowing (upd p f w).
Proof.
  intros Hf [[Hh Hm Hn] Hi]. split.
  - split; [done|..]; intros q; rewrite (the_upd_field monitors) by done; auto.
  - eapply mute_informed; [|exact Hi]. apply mute_upd. intros x k. by rewrite Hf.
Qed.
Lemma know_emit e w : quiet_event e → knowing w → knowing (emit e w).
Proof. intros He [Hs Hi]. split; [by apply keeps_emit|]. eapply mute_informed; [by apply mute_emit|done]. Qed.
Lemma know_applets f w :
  hbmenu (f (applets w)) = hbmenu (applets w) → monitored (f (applets w)) = monitored (applets w) →
  knowing w → knowing (on_applets f w).
Proof.
  intros E1 E2 [[Hh Hm Hn] Hi]. split; [|eapply mute_informed; [by apply mute_applets|done]].
  split; [by rewrite <- Hh| |done]. intros p Hp. cbn. rewrite E2. by apply Hm.
Qed.
Lemma know_shells t w : knowing w → knowing (set_shells t w).
Proof. intros [[] []]. split; by constructor. Qed.
Lemma know_monitored l w : knowing w → knowing (set_monitored l w).
Proof. intros [[] []]. split; by constructor. Qed.
Lemma know_index i w : knowing w → knowing (set_index i w).
Proof. intros [[] []]. split; by constructor. Qed.
Lemma know_fault path x w : knowing w → knowing (add_fault path x w).
Proof. intros [[] []]. split; by constructor. Qed.
Lemma know_signal w : knowing w → knowing (signal_if_ready w).
Proof. intros Hk. unfold signal_if_ready. destruct (ReadyToLaunch w); [by apply know_applets|done]. Qed.
Lemma know_start_reply p c w : knowing w → ends (start_reply p c w) knowing.
Proof.
  intros Hk. unfold start_reply. destruct (suspended_launch_cb _); [|done].
  by apply ends_done, know_emit, know_upd.
Qed.
Lemma know_Assert r w : knowing w → ends (Assert r w) knowing.
Proof. intros Hk. unfold Assert. destruct (_ =? _); [by apply ends_done|done]. Qed.
Lemma know_bind {A} (m : outcome world) (f : world → outcome A) Q :
  ends m knowing → (∀ w, knowing w → ends (f w) Q) → ends (m ≫= f) Q.
Proof. apply ends_bind. Qed.

Ltac know := repeat (intros; first
  [ assumption
  | match goal with |- ends (Aborts _) _ => done end
  | match goal with |- ends (if ?b then _ else _) _ => destruct b end
  | match goal with |- ends (match ?x with _ => _ end) _ => destruct x end
  | apply ends_done | apply know_emit; [exact I|] | apply know_upd; [done|]
  | apply know_applets; [done..|] | apply know_shells | apply know_monitored | apply know_signal
  | apply ChangeState_knowing | apply know_start_reply | apply know_Assert
  | apply know_bind ]).

Lemma Terminate_knowing p w : knowing w → ends (Terminate p w) knowing.
Proof. intros Hk. unfold Terminate, Terminate_with. know. Qed.
Lemma Kill_knowing p w : knowing w → ends (Kill p w) knowing.
Proof.
  intros Hk. unfold Kill, Kill_with. destruct (state (the p w));
    try (apply ends_done; unfold KillImpl; destruct (what _)); try by know.
  unfold MonitoredProcess_Kill. know. by apply Terminate_knowing.
Qed.
Lemma QueueLaunch_knowing p w : knowing w → ends (QueueLaunch p w) knowing.
Proof.
  intros Hk. unfold QueueLaunch, QueueLaunch_with. rewrite (sane_menu w) by apply Hk. cbn [mbind outcome_bind].
  know.
Qed.
Lemma Launch_knowing p o w : knowing w → ends (Launch p o w) knowing.
Proof. intros Hk. unfold Launch. know. by apply QueueLaunch_knowing. Qed.
Lemma PrepareForLaunch_knowing p w :
  knowing w → ends (PrepareForLaunch p w) (fun '(_, w') => knowing w').
Proof.
  intros Hk. destruct (exit_pending (launching (the p w))) eqn:E.
  - unfold PrepareForLaunch. rewrite E. know.
  - eapply ends_mono; [by apply returns_ends, PrepareForLaunch_wanted|]. intros [r w1] [->| ->]; know.
Qed.
Lemma Attach_knowing p pid w : knowing w → ends (Attach p pid w) knowing.
Proof. intros Hk. unfold Attach. know. Qed.
Lemma exit_all_knowing l w : knowing w → ends (exit_all l w) knowing.
Proof. revert w. induction l as [|p l IH]; intros w Hk; cbn [exit_all]; know. by apply IH. Qed.

Lemma informed_applets f w : informed w → informed (on_applets f w).
Proof. intros []. by constructor. Qed.
Lemma informed_upd p f w : (∀ x, monitors (f x) = monitors x) → informed w → informed (upd p f w).
Proof. intros Hf. apply mute_informed, mute_upd. intros x k. by rewrite Hf. Qed.
Lemma CreateHbmenu_informed w :
  informed w → ends (CreateHbmenu w) (fun '(w', _) => informed w').
Proof.
  intros Hi. unfold CreateHbmenu. eapply ends_bind; [apply returns_ends, CreateProcess_spec|].
  intros [w1 h] [-> _]. set (w1 := set_procs _ w).
  assert (informed w1) as H1 by (eapply mute_informed; [apply mute_new_process|done]).
  apply (ends_bind _ _ (fun '(w2, _) => informed w2)).
  - destruct (hbmenu_nro _); [by apply ends_done|].
    apply (ends_bind _ _ (fun _ => True)); [done|]. intros [r [f|]] _; [|done].
    by apply ends_done, informed_applets.
  - intros [w2 nro] H2. by apply ends_done, informed_upd.
Qed.
Lemma pop_hbmenu_informed w :
  sane w → informed w → ends (pop_hbmenu w) (fun '(_, _, w') => informed w').
Proof.
  intros Hs Hi. unfold pop_hbmenu.
  eapply ends_bind; [apply ends_and; [by apply CreateHbmenu_informed|by apply returns_ends, CreateHbmenu_keeps]|].
  intros [w1 h] [I1 [_ El]]. set (w2 := on_applets _ w1).
  assert (informed w2) as I2 by by apply informed_applets.
  eapply ends_bind; [apply returns_ends, (PrepareForLaunch_wanted h w2)|].
  { change (the h w2) with (the h w1). by rewrite El. }
  intros [r w3] He. unfold Assert. destruct (r =? EOK); [|done]. cbn [mbind outcome_bind].
  apply ends_done. apply informed_applets, informed_applets.
  destruct He as [->| ->]; [done|]. apply informed_upd; [done|].
  eapply mute_informed; [by apply mute_emit|done].
Qed.
Lemma pop_queued_informed fuel w :
  knowing w → ends (pop_queued fuel w) (fun '(_, _, w') => informed w').
Proof.
  revert w. induction fuel as [|fuel IH]; intros w Hk; [done|]. cbn [pop_queued].
  destruct (queued (applets w)) as [|p l]; [by apply pop_hbmenu_informed; apply Hk|].
  eapply ends_bind; [by apply PrepareForLaunch_knowing, know_applets|]. intros [r w1] H1.
  destruct (r =? _); [by apply IH|]. destruct (negb _); apply ends_done; [apply H1|].
  apply informed_applets, H1.
Qed.
Lemma shell_pop_queued_knowing fuel w :
  knowing w → ends (shell_pop_queued fuel w) (fun '(_, _, w') => knowing w').
Proof.
  revert w. induction fuel as [|fuel IH]; intros w Hk; [done|]. cbn [shell_pop_queued].
  destruct (s_queued (shells w)) as [|p l]; [by apply ends_done|].
  eapply ends_bind; [by apply PrepareForLaunch_knowing, know_shells|]. intros [r w1] H1.
  destruct (r =? _); [by apply IH|]. destruct (negb _); apply ends_done; [done|].
  by apply know_shells.
Qed.
Lemma AttachHostProcess_informed pid w :
  knowing w → ends (AttachHostProcess pid w) (fun '(w', _) => informed w').
Proof.
  intros Hk. unfold AttachHostProcess. destruct (created _) as [|p l]; [done|].
  apply (ends_bind _ _ knowing); [by apply Attach_knowing|]. intros w1 H1. apply ends_done.
  eapply mute_informed; [apply mute_signal|]. eapply mute_informed; [apply mute_Reattach|].
  apply informed_applets, H1.
Qed.
Lemma ReleaseControlProcess_informed w : knowing w → ends (ReleaseControlProcess w) informed.
Proof.
  intros Hk. unfold ReleaseControlProcess. destruct (negb _); [done|].
  apply (ends_bind _ _ knowing); [by apply exit_all_knowing, know_applets|]. intros w1 H1.
  rewrite (sane_menu w1) by apply H1. cbn [mbind outcome_bind]. apply ends_done, informed_applets, H1.
Qed.
Lemma TryToLaunch_knowing l w : knowing w → ends (TryToLaunch l w) knowing.
Proof.
  intros Hk. unfold TryToLaunch. destruct (s_created _); [|by know].
  eapply ends_bind; [by apply shell_pop_queued_knowing, know_shells|].
  intros [[r out] w1] H1. know.
Qed.

Lemma the_client_alive k w : alive (the_client k w) = true → clients w !! k = Some (the_client k w).
Proof. unfold the_client. by destruct (clients w !! k). Qed.

(** A client's own record changes, and it has been told what it no longer has to find. *)
Lemma informed_client k f w w' :
  alive (the_client k w) = true → informed w → procs w' = procs w → clients w' = alter f k (clients w) →
  (let c := the_client k w in watches (f c) = watches c ∧ alive (f c) = true ∧
    (state_observer (f c) ≠ None → state_changes (f c) = []) ∧
    told k (log w') ++ state_changes (f c) = told k (log w) ++ state_changes c) →
  (∀ k', k' ≠ k → told k' (log w') = told k' (log w)) →
  (∀ k' p, history k' p (log w') = history k' p (log w)) → informed w'.
Proof.
  intros Ha [B1 B2 B3 B4] Ep Ec (Ew & Eal & Eo & Et) Et' Eh.
  pose proof (the_client_alive k w Ha) as Ek. set (c := the_client k w) in *.
  assert (∀ q, the q w' = the q w) as Ep' by (intros q; unfold the; by rewrite Ep).
  constructor; [| |by intros ? ?%not_elem_of_nil|].
  - intros k' c'. rewrite Ec, list_lookup_alter, Ep', Eh. case_decide as Hd.
    + subst k'. rewrite Ek. intros [= <-] _. destruct (B1 k c Ek Ha) as (E & _ & Hm). cbn in E |- *.
      rewrite app_nil_r in E |- *. rewrite Ew. by rewrite Et.
    + intros Ec' Ha'. rewrite Et' by done. by apply B1.
  - intros k' p. rewrite Ep'. intros Hin. destruct (B2 k' p Hin) as (c' & E' & Ha' & Ew').
    rewrite Ec, list_lookup_alter. case_decide as Hd; [|eauto]. subst k'. rewrite Ek in E' |- *.
    injection E' as <-. exists (f c). split_and!; [done..|congruence].
  - rewrite Ec, <- B4. apply list_eq. intros i. rewrite !list_lookup_fmap, list_lookup_alter.
    case_decide as Hd; [|done]. subst i. rewrite Ek. cbn. by rewrite Ew.
Qed.

Lemma client_WaitStateChange_informed k o w :
  alive (the_client k w) = true → informed w → informed (client_WaitStateChange k o w).
Proof.
  intros Ha Hi. destruct (ib_client _ _ _ Hi k _ (the_client_alive k w Ha) Ha) as (_ & Ho & _).
  unfold client_WaitStateChange. destruct (state_changes (the_client k w)) as [|s l] eqn:Es.
  - set (w1 := match state_observer _ with Some _ => _ | None => _ end).
    assert (mute w w1) as H1 by (unfold w1; destruct (state_observer _); [by apply mute_emit|done]).
    assert (procs w1 = procs w) as Ep by (unfold w1; by destruct (state_observer _)).
    eapply informed_client; [exact Ha|exact Hi|exact Ep|by cbn; rewrite (m_clients _ _ H1)| | |].
    + cbn [upd_client set_clients log]. rewrite (m_told _ _ H1). by rewrite Es.
    + intros k' _. apply H1.
    + apply H1.
  - eapply informed_client; [exact Ha|exact Hi|done|done| | |].
    + cbn [upd_client set_clients log emit watches alive state_observer state_changes]. rewrite Es.
      split_and!; [done..|by intros ?%Ho|].
      by rewrite told_snoc, bool_decide_eq_true_2, <- app_assoc.
    + intros k' Hk. cbn [upd_client set_clients log emit]. by rewrite told_snoc, bool_decide_eq_false_2.
    + intros k' p. cbn [upd_client set_clients log emit]. by rewrite history_snoc.
Qed.

(** A client that goes away is no longer told. *)
Lemma client_destroy_informed k w :
  alive (the_client k w) = true → knowing w → ends (client_destroy k w) informed.
Proof.
  intros Ha Hk. pose proof (Kill_knowing (watches (the_client k w)) w Hk) as Hw.
  pose proof (the_client_alive k w Ha) as Ek.
  unfold client_destroy. set (p := watches _) in *. destruct (Kill p w) as [w1| | | |]; try done.
  destruct (Hw w1 eq_refl) as [_ [B1 B2 B3 B4]]. apply ends_done. set (w2 := upd p _ w1).
  assert (watches <$> clients w1 !! k = Some p) as Ep.
  { rewrite <- list_lookup_fmap, B4, <- (ib_watches _ _ _ (proj2 Hk)), list_lookup_fmap, Ek. done. }
  assert (∀ q k', ClientMonitor k' ∈ monitors (the q w2) ↔
    ClientMonitor k' ∈ monitors (the q w1) ∧ k' ≠ k) as Em.
  { intros q k'. unfold w2. rewrite the_upd. case_bool_decide as Hq; [cbn; rewrite elem_of_unwatch; naive_solver|].
    split; [|by intros []]. intros Hin. split; [done|]. intros ->.
    destruct (B2 k q Hin) as (c & Ec & _ & Ew). rewrite Ec in Ep. cbn in Ep. destruct Hq. split; [congruence|].
    destruct (decide (p < length (procs w1))%nat); [done|]. unfold the in Hin.
    replace q with p in Hin by congruence.
    rewrite (proj2 (lookup_ge_None _ _)) in Hin by lia. by apply not_elem_of_nil in Hin. }
  constructor; [| |by intros ? ?%not_elem_of_nil|].
  - intros k' c'. cbn [upd_client set_clients clients]. rewrite list_lookup_alter. case_decide as Hd.
    + subst k'. change (clients w2) with (clients w1). destruct (clients w1 !! k); [|done]. by intros [= <-].
    + intros Ec Hc. destruct (B1 k' c' Ec Hc) as (? & ? & Hin). split_and!; [done..|]. apply Em. auto.
  - intros k' q Hin. apply (Em q k') in Hin as [Hin Hne]. destruct (B2 k' q Hin) as (c & Ec & ?).
    exists c. cbn [upd_client set_clients clients]. rewrite list_lookup_alter. by rewrite decide_False.
  - cbn [upd_client set_clients clients]. rewrite <- B4. apply list_eq. intros i.
    change (clients w2) with (clients w1). rewrite !list_lookup_fmap, list_lookup_alter.
    case_decide as Hd; [|done]. subst i. by destruct (clients w1 !! k).
Qed.

Lemma know_informed m : ends m knowing → ends m informed.
Proof. intros H. eapply ends_mono; [exact H|]. by intros w []. Qed.

(** Every step but the creation of a monitor. *)
Lemma handle_informed o w :
  (∀ type opener, o ≠ OpCreate type opener) → enabled o w → knowing w → ends (handle o w) informed.
Proof.
  intros Ho He Hk. pose proof (proj2 Hk) as Hi.
  destruct o as [? ?|b k o|k o|k opened|k o path whole|k o path|k o|k|pid o|p|pid| | |p r|p|p|p pa ar|p r|p|l|pid|pid|p|];
    cbn [handle]; [by destruct (Ho type opener)|..].
  - apply know_informed. unfold client_Launch. case_bool_decide; [|know].
    destruct b; unfold LaunchSuspended; apply Launch_knowing; know.
  - apply know_informed, know_bind; [by apply Terminate_knowing|]. know.
  - apply know_informed. unfold client_AppendCode. know. destruct opened; [|apply know_fault]; by apply know_index.
  - apply know_informed. unfold client_code_receive. destruct (has_fault _ NoFile _); [done|].
    destruct whole; [know|]. destruct (has_fault path ShortWrite w); [done|]. know. by apply know_fault.
  - apply know_informed. unfold client_code_finish. destruct (has_fault _ NoFile _); [done|].
    apply (ends_bind _ _ (fun _ => True)); [done|].
    intros [r [f|]] _; [destruct (has_fault path ShortWrite w); [done|]|]; know.
  - apply ends_done. by apply client_WaitStateChange_informed.
  - by apply client_destroy_informed.
  - apply know_informed, know_bind; [|know]. destruct (FindMonitoredProcess _ _); [by apply Terminate_knowing|].
    unfold UnmonitoredProcess_Terminate. know.
  - apply know_informed. unfold Continue. know.
  - unfold OpenAppletShim, AttachControlProcess. destruct (negb _); [by apply know_informed; know|].
    eapply ends_bind; [by apply AttachHostProcess_informed|]. intros [w1 p] H1. by apply ends_done.
  - by apply ReleaseControlProcess_informed.
  - eapply ends_bind; [by apply pop_queued_informed|]. intros [[r p] w1] H1. by apply ends_done.
  - apply know_informed. know.
  - apply ends_done, informed_upd; [|done]. intros x. unfold PopCommand. by destruct (commands x).
  - apply know_informed. know.
  - apply know_informed. know.
  - apply know_informed. know.
  - apply know_informed. unfold WaitToStart. know.
  - apply know_informed. by apply TryToLaunch_knowing.
  - apply (ends_bind _ _ (fun '(w1, _) => knowing w1)); [|by intros [w1 p] [_ H1]; apply ends_done].
    unfold ShellAttachHostProcess. destruct (s_created _); [done|]. know. by apply Attach_knowing.
  - apply know_informed. unfold ShellExit. know.
  - apply know_informed, know_bind; [by apply Terminate_knowing|]. know.
  - apply know_informed. know.
Qed.

End telling.

(** A new monitor has been told nothing, and its process has not had a state. *)
Lemma new_client_informed ws k o w :
  informed ws w →
  informed (ws ++ [length (procs w)]) (emit (RespondObject o (length (clients w)))
    (set_clients (clients w ++ [mk_client (length (procs w)) [] None true])
      (upd (length (procs w)) (fun x => set_monitors (monitors x ++ [ClientMonitor (length (clients w))]) x)
        (set_procs (procs w ++ [new_process k]) w)))).
Proof.
  set (p := length (procs w)). set (n := length (clients w)). set (w1 := set_procs _ w). set (f := fun x => set_monitors _ x).
  set (w2 := upd p f w1). intros [B1 B2 B3 B4].
  assert (∀ q, the q w2 = the q w ∧ q ≠ p ∨ q = p ∧ monitors (the q w2) = [ClientMonitor n] ∧ monitors (the q w) = []) as E.
  { intros q. unfold w2. rewrite the_upd. case_bool_decide as Hq.
    - destruct Hq as [-> _]. right. unfold w1, p. rewrite the_created. split_and!; [done..|].
      unfold the. by rewrite (proj2 (lookup_ge_None _ _)).
    - destruct (the_new_process k w q) as [?|(-> & _)].
      + left. split; [done|]. intros ->. destruct Hq. split; [done|]. unfold w1, p. cbn. rewrite length_app. cbn. lia.
      + destruct Hq. split; [done|]. unfold w1, p. cbn. rewrite length_app. cbn. lia. }
  constructor; [| |by intros ? ?%not_elem_of_nil|].
  - intros k' c. change (the ?q (emit _ _)) with (the q w2). cbn [emit set_clients clients log].
    rewrite told_snoc, history_snoc. intros [Ec|[Hk Ec]]%lookup_app_Some Ha.
    + assert (n ≠ k') as Hne by (apply lookup_lt_Some in Ec; unfold n; lia).
      rewrite !(bool_decide_eq_false_2 (n = k')) by done.
      destruct (B1 k' c Ec Ha) as (Eh & Ho & Hm). split_and!; [exact Eh|done|].
      by destruct (E (watches c)) as [[-> _]|(_ & -> & En)]; [|rewrite En in Hm; apply not_elem_of_nil in Hm].
    + apply list_lookup_singleton_Some in Ec as [Hn <-]. assert (k' = n) as -> by (unfold n in *; lia).
      rewrite !(bool_decide_eq_true_2 (n = n)) by done. split_and!; [done..|].
      cbn [watches]. destruct (E p) as [[_ ?]|(_ & -> & _)]; [done|]. set_solver.
  - intros k' q. change (the q (emit _ _)) with (the q w2). cbn [emit set_clients clients].
    destruct (E q) as [[-> _]|(-> & -> & _)].
    + intros (c & Ec & ?)%B2. exists c. split; [by apply lookup_app_l_Some|done].
    + intros [= ->]%list_elem_of_singleton. eexists. split; [by apply list_lookup_middle|done].
  - cbn [emit set_clients clients]. by rewrite fmap_app, B4.
Qed.
Lemma CreateMonitoredProcess_informed ws type o w :
  informed ws w → ends (CreateMonitoredProcess type o w) (fun w' => ∃ ws', informed ws' w').
Proof.
  intros Hi. unfold CreateMonitoredProcess. cbn beta zeta.
  case_bool_decide; [|case_bool_decide].
  1,2: eapply ends_bind; [apply returns_ends, CreateProcess_spec|]; intros [w1 p] [-> ->];
    apply ends_done; eexists; exact (new_client_informed ws _ o w Hi).
  apply ends_done. exists ws. eapply mute_informed; [by apply mute_emit|done].
Qed.

Lemma PrepareForLaunch_ok p w nro out :
  exit_pending (launching (the p w)) = false → files (codes (the p w)) = [nro] →
  Files.Create nro = Done (EOK, out) → SetExternalContentSource p = EOK → AttachSession p = EOK →
  PrepareForLaunch p w = Done (EOK, upd p (set_launch (set_ecs true)) (emit (CallSetECS p) w)).
Proof. intros E1 E2 E3 E4 E5. unfold PrepareForLaunch, Assert. by rewrite E1, E2, E3, E4, E5. Qed.
Lemma run_cons o l w w1 : handle o w = Done w1 → run (o :: l) w = run l w1.
Proof. intros E. cbn [run]. by rewrite E. Qed.

(** Evaluates the first step of a run, with the outside's results rewritten. *)
Ltac run_step E0 E1 E2 E6 :=
  erewrite run_cons; [|repeat (progress (lazy -[Files.Create find_entry ActualFile_file code_path code_argv];
    rewrite ?E0, ?E1, ?E2, ?E6)); reflexivity].

Lemma reachable_one w : reachable w → one_applet w.
Proof.
  unfold reachable. revert w. apply rtc_ind_r; [apply init_one|].
  intros w1 w2 _ (o & He & E) H1. pose proof (handle_one o w1 He (Done_not_null o w1 w2 E) H1) as H. by rewrite E in H.
Qed.
Lemma reachable_step o w w' : reachable w → enabled o w → handle o w = Done w' → reachable w'.
Proof. intros Hr He E. eapply rtc_r; [exact Hr|]. by exists o. Qed.

(** A run of steps that can happen. *)
Fixpoint runs (l : list op) (w : world) : Prop :=
  match l with
  | [] => True
  | o :: l => enabled o w ∧ match handle o w with Done w' => runs l w' | _ => False end
  end.
Lemma runs_from l w : reachable w → runs l w → ∃ w', run l w = Done w' ∧ reachable w'.
Proof.
  revert w. induction l as [|o l IH]; intros w Hr; [by exists w|]. intros [He Hl]. cbn [run].
  destruct (handle o w) as [w1| | | |] eqn:E; try done. apply IH; [|done]. by eapply reachable_step.
Qed.
Lemma runs_reachable l : runs l init → ∃ w', run l init = Done w' ∧ reachable w'.
Proof. apply runs_from. by apply rtc_refl. Qed.

Lemma reachable_informed w : reachable w → ∃ ws, informed ws w.
Proof.
  unfold reachable. revert w. apply (rtc_ind_r (fun w => ∃ ws, informed ws w)).
  - exists []. constructor; [done| |by intros ? ?%not_elem_of_nil|done].
    intros k p. destruct p; by intros ?%not_elem_of_nil.
  - intros w1 w2 Hr (o & He & E) [ws Hi]. pose proof (oa_sane w1 (reachable_one w1 Hr)) as Hs.
    assert ((∃ t k, o = OpCreate t k) ∨ ∀ t k, o ≠ OpCreate t k) as [(t & k & ->)|Ho]
      by (destruct o; eauto; by right).
    + by apply (CreateMonitoredProcess_informed ws t k w1).
    + exists ws. by apply (handle_informed ws o w1 Ho He).
Qed.

(** ** Theorems *)

(** C12: one applet at a time.  In every state that can be reached, at most one applet has
    attached and not exited; while an applet is created and has not attached, none has;
    no step that can happen goes round for ever, and one is undefined exactly when it uses the
    stream of a file for code that could not be made. *)
Theorem one_applet_at_a_time w :
  reachable w →
  (∀ p q, live p w → live q w → p = q) ∧
  (created (applets w) ≠ [] → ∀ p, ¬ live p w) ∧
  (∀ o, enabled o w → (handle o w = Undefined ↔ null_stream o w) ∧ handle o w ≠ OutOfFuel).
Proof.
  intros Hr. pose proof (reachable_one w Hr) as Hw. split_and!.
  - intros p q Hp%(oa_live w Hw) Hq%(oa_live w Hw). congruence.
  - apply (oa_alone w Hw).
  - intros o He. destruct (null_stream_dec o w) as [Hn|Hn].
    + by rewrite handle_null.
    + pose proof (handle_one o w He Hn Hw) as H. by destruct (handle o w).
Qed.

(** nobody asks the menu to exit.  The tracker's member [hbmenu] is moved from as soon
    as the menu is created, so in every state that can be reached it is null: launching an
    applet sends no command to any process and stops none, and while another applet (the
    menu, if it is what runs) has not exited, the control applet is not told either. *)
Theorem menu_not_asked_to_exit w p :
  reachable w → what (the p w) = Applet →
  hbmenu (applets w) = None ∧
  ∃ w', QueueLaunch p w = Done w' ∧ procs w' = procs w ∧ log w' = log w ∧
    queued (applets w') = queued (applets w) ++ [p] ∧
    ∀ m, monitored (applets w) = Some m → state (the m w) ≠ Exited →
      process_queued_event (applets w') = process_queued_event (applets w).
Proof.
  intros Hr Ew. pose proof (sane_menu w (oa_sane w (reachable_one w Hr))) as E. split; [done|].
  unfold QueueLaunch, QueueLaunch_with. rewrite Ew, E. cbn [mbind outcome_bind].
  eexists. split; [reflexivity|]. set (w1 := on_applets _ w).
  assert (signal_if_ready w1 = w1 ∨ signal_if_ready w1 = Signal w1) as Hs
    by (unfold signal_if_ready; destruct (ReadyToLaunch w1); auto).
  split_and!; try (by destruct Hs as [->| ->]).
  intros m Em Hne. unfold signal_if_ready, ReadyToLaunch. change (monitored (applets w1)) with (monitored (applets w)).
  rewrite Em. change (the m w1) with (the m w). by rewrite (bool_decide_eq_false_2 (state (the m w) = Exited)), andb_false_r.
Qed.

(** a shim that never starts stops the tracker.  When the controller of a created
    applet goes away before the shim has attached, the process exits but stays in the
    tracker's list; until a shim attaches after all or the control applet is lost, whatever
    else happens, the control applet is told that there is nothing to launch. *)
Theorem tracker_waits_for_shim w p w1 w2 :
  reachable w → created (applets w) = [p] → handle (OpControllerGone p) w = Done w1 →
  rtc quiet_step w1 w2 →
  state (the p w1) = (if bool_decide (p < length (procs w))%nat then Exited else state (the p w)) ∧
  created (applets w2) = [p] ∧ GetCommand w2 = TWILI_ERR_APPLET_SHIM_NO_COMMANDS_LEFT ∧
  ¬ enabled OpPopApplet w2.
Proof.
  intros Hr Ec E1 H2. pose proof (reachable_one w Hr) as Hw.
  pose proof (ChangeState_spec p Exited w (oa_sane w Hw)) as Hs. cbn [handle] in E1.
  rewrite E1 in Hs. split; [by rewrite (c_state _ _ _ _ Hs)|].
  assert (one_applet w1 ∧ created (applets w1) = [p]) as [Hw1 Ec1].
  { pose proof (Exit_calm p w Hw) as H. rewrite E1 in H. split; [apply H|]. by rewrite (calm_created _ _ H). }
  assert (created (applets w2) = [p]) as Ec2.
  { clear Hs E1 Ec Hr. induction H2 as [w1|w1 w3 w2 (o & Ho & He & E) _ IH]; [done|].
    pose proof (handle_calm o w1 Ho He (Done_not_null o w1 _ E) Hw1) as H. rewrite E in H.
    apply IH; [apply H|]. by rewrite (calm_created _ _ H). }
  assert (GetCommand w2 = TWILI_ERR_APPLET_SHIM_NO_COMMANDS_LEFT) as Eg.
  { unfold GetCommand, ReadyToLaunch. by rewrite Ec2. }
  split_and!; [done..|]. intros [_ He]. rewrite Eg in He. discriminate.
Qed.

(** a suspended process cannot be ended twice.  Ending it answers the shim and leaves
    it suspended until the system says it has exited; before that, ending it again throws
    [std::bad_function_call], and the client going away, which is all it takes, ends the
    program, as its destructor throws. *)
Theorem suspended_terminate_twice w k pid o o' :
  alive (the_client k w) = true → state (the (watches (the_client k w)) w) = ShimSuspended →
  (watches (the_client k w) < length (procs w))%nat →
  suspended_launch_cb (launching (the (watches (the_client k w)) w)) = true →
  proc (the (watches (the_client k w)) w) = Some pid → TerminateProcess pid = EOK →
  ∃ w1, handle (OpTerminate k o) w = Done w1 ∧
    log w1 = log w ++ [StartReply (watches (the_client k w)) TWILI_ERR_NO_LONGER_REQUESTED_TO_LAUNCH;
                       CallTerminateProcess pid; RespondOk o] ∧
    handle (OpTerminate k o') w1 = Throws bad_function_call ∧
    handle (OpDestroy k) w1 = Aborts 0.
Proof.
  intros _ Es Hl Ecb Ep Et. set (p := watches (the_client k w)) in *. set (x := the p w) in *.
  assert (∀ w', the p w' = set_launch (set_cb false) x → the_client k w' = the_client k w →
    handle (OpTerminate k o') w' = Throws bad_function_call ∧ handle (OpDestroy k) w' = Aborts 0) as Hgo.
  { intros w' E1 E2. cbn [handle]. unfold client_Terminate, client_destroy, Terminate, Terminate_with,
      Kill, Kill_with, MonitoredProcess_Kill, start_reply. rewrite E2. fold p. rewrite E1.
    cbn [set_launch state launching set_cb suspended_launch_cb]. rewrite Es. done. }
  cbn [handle]. unfold client_Terminate at 1, Terminate, Terminate_with, start_reply. fold p. fold x.
  rewrite Es, Ecb. change (bool_decide (ShimSuspended = Created)) with false.
  change (bool_decide (ShimSuspended = ShimSuspended)) with true.
  change (bool_decide (ShimSuspended = Exited)) with false. cbn [mbind outcome_bind]. set (w2 := emit _ _).
  assert (the p w2 = set_launch (set_cb false) x) as Ep2.
  { change (the p w2) with (the p (upd p (set_launch (set_cb false)) w)). by rewrite the_upd, bool_decide_eq_true_2. }
  rewrite Ep2. cbn [set_launch proc]. rewrite Ep. unfold Assert. rewrite Et. cbn [Z.eqb EOK mbind outcome_bind].
  eexists. split; [reflexivity|]. split; [by cbn; rewrite <- !app_assoc|].
  by apply Hgo.
Qed.

(** a launch that cannot be made ready is never answered.  When the process at the front
    of the queue has no code, or more than one file, the control applet gets the error, the
    process is taken off the queue and forgotten: the client's request stays unanswered, the
    process stays [Started], and terminating it does nothing, with success. *)
Theorem failed_launch_unanswered w p l o :
  queued (applets w) = p :: l → p ∉ l → p ∉ created (applets w) →
  state (the p w) = Started → proc (the p w) = None → exit_pending (launching (the p w)) = false →
  run_opener (launching (the p w)) = Some o → length (files (codes (the p w))) ≠ 1%nat →
  ∃ r w', PopApplet w = Done (r, None, w') ∧ (r = TWILI_ERR_NO_MODULES ∨ r = TWILI_ERR_TOO_MANY_MODULES) ∧
    procs w' = procs w ∧ log w' = log w ∧ p ∉ queued (applets w') ∧ p ∉ created (applets w') ∧
    run_opener (launching (the p w')) = Some o ∧
    ∀ k o', watches (the_client k w') = p → handle (OpTerminate k o') w' = Done (emit (RespondOk o') w').
Proof.
  intros Eq Hl Hc Es Ep Ee Eo Ef. set (w' := on_applets (set_queued l) w).
  assert (∃ r, PrepareForLaunch p w' = Done (r, w') ∧
    (r = TWILI_ERR_NO_MODULES ∨ r = TWILI_ERR_TOO_MANY_MODULES)) as (r & E & Hr).
  { unfold PrepareForLaunch. change (the p w') with (the p w). rewrite Ee.
    destruct (files _) as [|? [|]]; [eauto|done|eauto]. }
  exists r, w'. unfold PopApplet, PopQueuedProcess. cbn [pop_queued]. rewrite Eq. fold w'. rewrite E.
  cbn [mbind outcome_bind]. split.
  - by destruct Hr as [-> | ->].
  - split_and!; try done. intros k o' Ek. cbn [handle]. unfold client_Terminate, Terminate, Terminate_with.
    rewrite Ek. change (the p w') with (the p w). rewrite Es, !bool_decide_eq_false_2 by done.
    cbn [mbind outcome_bind]. change (the p w') with (the p w). by rewrite Ep.
Qed.

(** C13: a client misses no state and gets them in order.  In every state that can be reached,
    what a client has been told of its process, followed by what waits to be asked for, is
    the list of the states the process has had since the client got its monitor, each once;
    and a request that waits for a state waits because none is left. *)
Theorem state_changes_in_order w k :
  reachable w → alive (the_client k w) = true →
  told k (log w) ++ state_changes (the_client k w) = history k (watches (the_client k w)) (log w) ∧
  (state_observer (the_client k w) ≠ None → state_changes (the_client k w) = []).
Proof.
  intros Hr Ha. destruct (reachable_informed w Hr) as [ws Hi].
  destruct (ib_client _ _ _ _ Hi k _ (the_client_alive k w Ha) Ha) as (E & Ho & _).
  split; [|done]. rewrite <- E. cbn. by rewrite app_nil_r.
Qed.

(** the life of an applet.  Created, given code, launched suspended, taken by the control
    applet, attached by its shim, let go by a debugger, and ended: the launch is answered
    with the pid when the shim attaches, the shim is told to start when the debugger says so,
    the pipes are closed at the end, the client finds every state in order, and the tracker
    is ready for the next one. *)
Theorem applet_life pid r f nso npdm out e :
  fopen (code_path 0) = Some f →
  fopen "/squash/applet_host.nso" = Some nso → fopen "/squash/applet_host.npdm" = Some npdm →
  Files.Create (mk_ActualFile f None) = Done (EOK, out) →
  SetExternalContentSource 0 = EOK → AttachSession 0 = EOK → find_entry (memory pid) 0 0 = Done (2, e) →
  ∃ w, run (life pid r) init = Done w ∧
    log w = [RespondObject 1 0; RespondOk 2; StateIs 0 Started; CallSetECS 0; StateIs 0 Attached;
             RespondPid 3 pid; StateIs 0 ShimSuspended; StateIs 0 Running; StartReply 0 EOK;
             ClosePipes 0; StateIs 0 Exited] ∧
    state_changes (the_client 0 w) = [Started; Attached; ShimSuspended; Running; Exited] ∧
    target_entry (the 0 w) = e ∧ GetResult (the 0 w) = (if negb (r =? 0) then r else TWILI_ERR_UNSPECIFIED) ∧
    monitored_processes w = [] ∧ GetCommand w = EOK.
Proof.
  intros E0 E1 E2 E3 E4 E5 E6. unfold life.
  do 5 run_step E0 E1 E2 E6.
  erewrite run_cons.
  2:{ cbn [handle]. unfold PopApplet, PopQueuedProcess. cbn [applets queued length pop_queued].
      erewrite PrepareForLaunch_ok by first [reflexivity|eassumption].
      lazy. reflexivity. }
  do 6 run_step E0 E1 E2 E6.
  eexists. split; [reflexivity|]. by split_and!.
Qed.

End process.

(** *** Examples: everything the outside does succeeds *)

Definition ex_file : FILE := mk_FILE Files.ex_nro true.
Definition ex_fopen (path : string) : option FILE := Some ex_file.
Definition ex_memory (pid : Z) : list (Z * Z * Z * Z) :=
  [(0, 0x8000000, 0, 0); (0x8000000, 0x3000, 3, 5); (0x8003000, 0x2000, 3, 1);
   (0x8005000, 0x10000, 3, 5); (0x8015000, 2 ^ 64 - 0x8015000, 0, 0)].
Definition ok {A} (_ : A) : Z := EOK.
Definition ex_run (l : list op) : outcome world := run ex_fopen "/tmp" ex_memory 1 ok ok ok ok ok ok ok l init.
Definition ex_world (l : list op) : world := match ex_run l with Done w => w | _ => init end.
Definition ex_life : list op := life "/tmp" 81 0.

Lemma ex_reachable l :
  runs ex_fopen "/tmp" ex_memory 1 ok ok ok ok ok ok ok l init → reachable ex_fopen "/tmp" ex_memory 1 ok ok ok ok ok ok ok (ex_world l).
Proof. intros (w & E & Hr)%runs_reachable. unfold ex_world, ex_run. by rewrite E. Qed.

Ltac can_happen := apply ex_reachable; vm_compute; split_and!; try done; by exists 0%N.

Lemma one_applet_at_a_time_witness :
  let w := ex_world (firstn 8 ex_life) in live 0 w ∧ ∀ p, live p w → p = 0%nat.
Proof.
  assert (live 0 (ex_world (firstn 8 ex_life))) as H0 by (split_and!; vm_compute; discriminate || reflexivity).
  split; [exact H0|]. intros p Hp.
  apply (one_applet_at_a_time ex_fopen "/tmp" ex_memory 1 ok ok ok ok ok ok ok (ex_world (firstn 8 ex_life)));
    [|exact Hp|exact H0]. can_happen.
Defined.
Lemma menu_not_asked_to_exit_witness :
  let w := ex_world (OpOpenAppletShim 0 :: OpPopApplet :: OpOpenAppletShim 81 :: [OpCreate "applet" 1]) in
  what (the 0 w) = Applet ∧ monitored (applets w) = Some 0%nat ∧ hbmenu (applets w) = None ∧
  ∃ w', QueueLaunch ex_fopen ex_memory 1 ok ok 1 w = Done w' ∧ log w' = log w.
Proof.
  intros w. split; [reflexivity|]. split; [reflexivity|].
  destruct (menu_not_asked_to_exit ex_fopen "/tmp" ex_memory 1 ok ok ok ok ok ok ok w 1) as (E & w' & Ew & _ & El & _).
  - can_happen.
  - reflexivity.
  - split; [exact E|]. exists w'. split; [exact Ew|exact El].
Defined.
Lemma tracker_waits_for_shim_witness :
  let w := ex_world (firstn 6 ex_life) in
  created (applets w) = [0%nat] ∧
  ∃ w1, handle ex_fopen "/tmp" ex_memory 1 ok ok ok ok ok ok ok (OpControllerGone 0) w = Done w1 ∧
    state (the 0 w1) = Exited ∧ GetCommand (prune w1) = TWILI_ERR_APPLET_SHIM_NO_COMMANDS_LEFT.
Proof.
  intros w. split; [reflexivity|]. eexists. split; [vm_compute; reflexivity|]. split; [reflexivity|].
  eapply (tracker_waits_for_shim ex_fopen "/tmp" ex_memory 1 ok ok ok ok ok ok ok w 0).
  - can_happen.
  - reflexivity.
  - vm_compute. reflexivity.
  - eapply rtc_once. by exists OpPrune.
Defined.
Lemma suspended_terminate_twice_witness :
  let w := ex_world (firstn 8 ex_life) in
  state (the 0 w) = ShimSuspended ∧
  ∃ w1, handle ex_fopen "/tmp" ex_memory 1 ok ok ok ok ok ok ok (OpTerminate 0 4) w = Done w1 ∧
    handle ex_fopen "/tmp" ex_memory 1 ok ok ok ok ok ok ok (OpTerminate 0 5) w1 = Throws bad_function_call.
Proof.
  intros w. split; [reflexivity|].
  destruct (suspended_terminate_twice ex_fopen "/tmp" ex_memory 1 ok ok ok ok ok ok ok w 0 81 4 5) as (w1 & E1 & _ & E2 & _);
    try (vm_compute; reflexivity).
  exists w1. split; [exact E1|exact E2].
Defined.
Lemma failed_launch_unanswered_witness :
  let w := ex_world [OpOpenAppletShim 0; OpCreate "applet" 1; OpLaunch false 0 2] in
  state (the 0 w) = Started ∧
  ∃ r w', PopApplet ex_fopen ex_memory 1 ok ok ok ok w = Done (r, None, w') ∧ log w' = log w ∧
    run_opener (launching (the 0 w')) = Some 2.
Proof.
  intros w. split; [reflexivity|].
  destruct (failed_launch_unanswered ex_fopen "/tmp" ex_memory 1 ok ok ok ok ok ok ok w 0 [] 2)
    as (r & w' & E & _ & _ & El & _ & _ & Eo & _);
    try (vm_compute; reflexivity); try (vm_compute; discriminate); try by apply not_elem_of_nil.
  exists r, w'. split; [exact E|]. split; [exact El|exact Eo].
Defined.
Lemma state_changes_in_order_witness :
  let w := ex_world (firstn 7 ex_life ++ [OpWait 0 7]) in
  told 0 (log w) = [Started] ∧ told 0 (log w) ++ state_changes (the_client 0 w) = [Started; Attached].
Proof.
  intros w. split; [reflexivity|].
  destruct (state_changes_in_order ex_fopen "/tmp" ex_memory 1 ok ok ok ok ok ok ok w 0) as [E _].
  - can_happen.
  - reflexivity.
  - etrans; [exact E|]. reflexivity.
Defined.
Lemma applet_life_witness :
  ∃ w, run ex_fopen "/tmp" ex_memory 1 ok ok ok ok ok ok ok ex_life init = Done w ∧ target_entry (the 0 w) = 0x8005000.
Proof.
  destruct (Files.Create (mk_ActualFile ex_file None)) as [[r out]| | | |] eqn:E; [|vm_compute in E; discriminate..].
  assert (r = EOK) as -> by (transitivity (match Files.Create (mk_ActualFile ex_file None) with
    Done (r, _) => r | _ => 1 end); [by rewrite E|reflexivity]).
  destruct (applet_life ex_fopen "/tmp" ex_memory 1 ok ok ok ok ok ok ok 81 0 ex_file ex_file ex_file out 0x8005000)
    as (w & Ew & _ & _ & Ee & _); try reflexivity.
  - exact E.
  - exists w. split; [exact Ew|exact Ee].
Defined.
End Process.
