(* ===== verification/Shim.v ===== *)
(** * twili/service/IHBABIShim.cpp, hbabi_shim/hbabi_shim.cpp, twili_applet_shim/applet_host.cpp,
      shell_shim/shell_shim.cpp: the programs that host an application

    A shim is the program the system starts in the place of an application.  It asks Twili, over
    an [IHBABIShim], for the configuration of the application, adds what only it knows, waits until
    it may start, calls the application, and hands its result back.  The device's handlers are
    operations on the world of [Process]; a request that is answered later has no reply yet.  The
    entries of the loader configuration are the tagged union of the ABI: a key is a constructor,
    its words are the arguments.  Handles are named by the kernel's objects.  Starting the
    pipes and the service manager, and saving and restoring the registers and the thread's memory
    around the application, are left out. *)
From S2P Require Import Prelude Err Files Process.

Module Shim.
Import Err.
Import Files(EOK).
Import Process(world, procs, the, upd, emit, log, kind, Applet, Shell, what, state, proc, result,
  target_entry, codes, argv, next_load_path, next_load_argv, launching, suspended_launch_enabled,
  suspended_launch_cb, StartReply, State, Attached, ShimSuspended, Running).

(** ** The loader configuration *)

Inductive key : Type :=
| TWILI_PRESENT
| SYSCALL_AVAILABLE_HINT (low high : Z)
| APPLET_TYPE (type : Z)
| OVERRIDE_SERVICE (name handle : Z)
| PROCESS_HANDLE (handle : Z)
| MAIN_THREAD_HANDLE (handle : Z)
| NEXT_LOAD_PATH
| ARGV (argv : bytes)
| OVERRIDE_HEAP (base size : Z)
| END_OF_LIST
| APPLET_WORKAROUND | STDIO_SOCKETS | LAST_LOAD_RESULT | ALLOC_PAGES | LOCK_REGION
| OTHER_KEY (key : Z).
Record entry : Type := mk_entry { value : key; mandatory : bool }.

(** ** IHBABIShim *)

Record hbabi : Type := mk_hbabi { of_process : nat; entries : list entry; handles : list Z }.

Inductive request : Type := Empty | Word (x : Z) | Room (n : Z) | Buffers (path argv : bytes).
Inductive reply : Type :=
| Ok | OutHandle (h : Z) | OutWord (x : Z) | OutEntries (l : list entry) | OutBytes (b : bytes).

(** A C string in a buffer: reading goes on behind a buffer without a terminator. *)
Fixpoint c_str (b : bytes) : option bytes :=
  match b with
  | [] => None
  | x :: b => if bool_decide (x = Byte.x00) then Some [] else cons x <$> c_str b
  end.

Section shim.
Context (fopen : string → option Files.FILE) (memory : Z → list (Z * Z * Z * Z)) (svc_error : Z).
Context (TerminateProcess : Z → Z) (ClearExternalContentSource : nat → Z).
(** The kernel's handle of a process; the ABI's number of a library applet. *)
Context (process_handle : Z → Z) (library_applet : Z).
#[local] Notation WaitToStart := (Process.WaitToStart fopen memory svc_error TerminateProcess ClearExternalContentSource).

Definition MonitoredProcess_AddHBABIEntries : list entry :=
  [mk_entry TWILI_PRESENT false;
   mk_entry (SYSCALL_AVAILABLE_HINT 0xffffffffffffffff 0xffffffffffffffff) false].
Definition AddHBABIEntries (k : kind) : list entry :=
  MonitoredProcess_AddHBABIEntries ++
  match k with Applet => [mk_entry (APPLET_TYPE library_applet) false] | Shell => [] end.
Definition IHBABIShim (p : nat) (w : world) : hbabi :=
  mk_hbabi p (AddHBABIEntries (what (the p w))) [].

Definition GetProcessHandle (s : hbabi) (w : world) : outcome (Z + reply) :=
  match proc (the (of_process s) w) with
  | Some pid => Done (inr (OutHandle (process_handle pid)))
  | None => Undefined
  end.
Definition GetLoaderConfigEntryCount (s : hbabi) : Z + reply := inr (OutWord (Z.of_nat (length (entries s)))).
(** [room] counts entries. *)
Definition GetLoaderConfigEntries (room : Z) (s : hbabi) : Z + reply :=
  let count := if Z.of_nat (length (entries s)) <? room then length (entries s) else Z.to_nat room in
  inr (OutEntries (take count (entries s))).
Definition GetLoaderConfigHandle (placeholder : Z) (s : hbabi) : outcome (Z + reply) :=
  if Z.of_nat (length (handles s)) <? placeholder
  then Done (inl TWILI_ERR_UNRECOGNIZED_HANDLE_PLACEHOLDER)
  else match handles s !! Z.to_nat placeholder with
       | Some h => Done (inr (OutHandle h))
       | None => Undefined
       end.
Definition SetNextLoadPath (path args : bytes) (s : hbabi) (w : world) : outcome world :=
  match c_str path, c_str args with
  | Some path, Some args =>
      Done (upd (of_process s) (Process.SetNextLoadPath (String.string_of_list_byte path)
                                           (String.string_of_list_byte args)) w)
  | _, _ => Undefined
  end.
Definition GetTargetEntryPoint (s : hbabi) (w : world) : Z + reply :=
  inr (OutWord (target_entry (the (of_process s) w))).
Definition GetArgv (room : Z) (s : hbabi) (w : world) : Z + reply :=
  inr (OutBytes (ztake room (str (argv (codes (the (of_process s) w)))))).

(** A handler's result code or reply; none when it is answered later. *)
Definition Dispatch (request_id : Z) (rq : request) (s : hbabi) (w : world) :
    outcome (option (Z + reply) * world) :=
  let now r := Done (Some r, w) in
  match request_id, rq with
  | 0, Empty => r ← GetProcessHandle s w; now r
  | 1, Empty => now (GetLoaderConfigEntryCount s)
  | 2, Room n => now (GetLoaderConfigEntries n s)
  | 3, Word x => r ← GetLoaderConfigHandle x s; now r
  | 4, Buffers path args => w ← SetNextLoadPath path args s w; Done (Some (inr Ok), w)
  | 5, Empty => now (GetTargetEntryPoint s w)
  | 6, Word code => Done (Some (inr Ok), upd (of_process s) (Process.SetResult code) w)
  | 7, Empty => w ← WaitToStart (of_process s) w; Done (None, w)
  | 8, Room n => now (GetArgv n s w)
  | _, _ => now (inl 1)
  end.

(** ** The shims *)

(** What the application is called with, and where. *)
Record image : Type := mk_image { i_entries : list entry; i_entry_point : Z }.

(** The memory of the applet and the settings that are looked at. *)
Record memory_info : Type := mk_memory {
  total_mem_available : Z; total_mem_usage : Z;
  applet_heap_size : Z; applet_heap_reservation_size : Z }.

(** [hbabi_shim] and [shell_shim] have the same code from here on; the applet's host also
    overrides the heap. *)
Inductive program : Type := Hbabi | Host (m : memory_info).

Context (main_thread : Z) (unrecognized_key : key → Z) (empty_entry : entry).
(** [svcSetHeapSize]: an error, or the base of the heap. *)
Context (svcSetHeapSize : Z → Z + Z).

(** A request; an error code is thrown.  Only the request to start is answered later, and it is
    not made through this. *)
Definition ask (id : Z) (rq : request) (s : hbabi) (w : world) : outcome (reply * world) :=
  '(r, w) ← Dispatch id rq s w;
  match r with
  | Some (inr r) => Done (r, w)
  | Some (inl code) => Throws (ResultError code)
  | None => Undefined
  end.
Definition out_word (r : reply) : Z := match r with OutWord x | OutHandle x => x | _ => 0 end.
Definition out_entries (r : reply) : list entry := match r with OutEntries l => l | _ => [] end.
Definition out_bytes (r : reply) : bytes := match r with OutBytes b => b | _ => [] end.

Definition substitute_handle (h : Z) (s : hbabi) (w : world) : outcome Z :=
  '(r, _) ← ask 3 (Word (u32 h)) s w; Done (out_word r).

(** The keys that are let through without the flag being looked at. *)
Definition recognised (k : key) : bool :=
  match k with
  | TWILI_PRESENT | MAIN_THREAD_HANDLE _ | OTHER_KEY _ => false
  | _ => true
  end.
Fixpoint translate (l : list entry) (s : hbabi) (w : world) : outcome (list entry) :=
  match l with
  | [] => Done []
  | e :: l =>
      e ← match value e with
          | OVERRIDE_SERVICE name h => h ← substitute_handle h s w; Done (mk_entry (OVERRIDE_SERVICE name h) (mandatory e))
          | PROCESS_HANDLE h => h ← substitute_handle h s w; Done (mk_entry (PROCESS_HANDLE h) (mandatory e))
          | k => if negb (recognised k) && mandatory e then Throws (ResultError (unrecognized_key k)) else Done e
          end;
      l ← translate l s w; Done (e :: l)
  end.

(** *** The heap of an applet *)

Definition heap_incr_multiple : Z := 0x200000.
Definition heap_incr_multiple_mask : Z := heap_incr_multiple - 1.
Definition round_up (x : Z) : Z := Z.ldiff (u64 (x + heap_incr_multiple_mask)) heap_incr_multiple_mask.
Definition heap_size (m : memory_info) : Z :=
  let size :=
    if u64 (total_mem_usage m + heap_incr_multiple) <? total_mem_available m
    then Z.ldiff (u64 (total_mem_available m - total_mem_usage m - heap_incr_multiple)) heap_incr_multiple_mask
    else 0 in
  let size := if size =? 0 then 0x20000000 else size in
  if negb (applet_heap_size m =? 0) then
    let requested_size := round_up (applet_heap_size m) in
    if requested_size <? size then requested_size else size
  else if negb (applet_heap_reservation_size m =? 0) then
    let reserved_size := round_up (applet_heap_reservation_size m) in
    if reserved_size <? size then size - reserved_size else size
  else size.
(** The size has to fit the 32 bits it is cut to. *)
Definition heap_entries (pr : program) : outcome (list entry) :=
  match pr with
  | Hbabi => Done []
  | Host m =>
      if 2 ^ 32 <=? heap_size m then Aborts 0
      else match svcSetHeapSize (heap_size m) with
           | inl code => Throws (ResultError code)
           | inr base => Done [mk_entry (OVERRIDE_HEAP base (heap_size m)) true]
           end
  end.

(** *** The configuration *)

Definition ARGV_SIZE : Z := 2048.
Definition configure (pr : program) (s : hbabi) (w : world) : outcome image :=
  '(n, w) ← ask 1 Empty s w;
  '(r, w) ← ask 2 (Room (out_word n)) s w;
  let got := out_entries r in
  l ← translate (got ++ replicate (Z.to_nat (out_word n) - length got) empty_entry) s w;
  let l := l ++ [mk_entry (MAIN_THREAD_HANDLE main_thread) false] in
  '(h, w) ← ask 0 Empty s w;
  let l := l ++ [mk_entry (PROCESS_HANDLE (out_word h)) false] in
  let l := l ++ [mk_entry NEXT_LOAD_PATH false] in
  '(a, w) ← ask 8 (Room ARGV_SIZE) s w;
  let l := l ++ [mk_entry (ARGV (overwrite (zreplicate ARGV_SIZE Byte.x00) 0 (out_bytes a))) false] in
  heap ← heap_entries pr;
  let l := l ++ heap ++ [mk_entry END_OF_LIST true] in
  '(t, _) ← ask 5 Empty s w;
  Done (mk_image l (out_word t)).

(** *** The life of a shim *)

(** Before the first request; waiting to start; the application runs; it has returned, or was not
    wanted any more; an exception has been caught. *)
Inductive stage : Type :=
| Begin | Waiting (i : image) | Application (i : image) | Ended | Caught (code : Z).

(** Exceptions of the main function. *)
Definition catching (w : world) (m : outcome (stage * world)) : outcome (stage * world) :=
  match m with Throws (ResultError code) => Done (Caught code, w) | m => m end.

Definition begin (pr : program) (s : hbabi) (w : world) : outcome (stage * world) :=
  catching w (
    i ← configure pr s w;
    '(_, w) ← Dispatch 7 Empty s w;
    Done (Waiting i, w)).

(** The last answer to a request to start. *)
Definition last_start_reply (p : nat) (l : list Process.event) : option Z :=
  foldl (fun r e => match e with StartReply q code => if bool_decide (q = p) then Some code else r | _ => r end) None l.
(** The request waits for as long as the device keeps its callback. *)
Definition started (s : hbabi) (i : image) (w : world) : stage :=
  if suspended_launch_cb (launching (the (of_process s) w)) then Waiting i
  else match last_start_reply (of_process s) (log w) with
       | None => Waiting i
       | Some code =>
           if code =? EOK then Application i
           else if code =? TWILI_ERR_NO_LONGER_REQUESTED_TO_LAUNCH then Ended
           else Caught code
       end.

(** The application returns [ret], with what it has left in the two buffers. *)
Definition returned (ret : Z) (path args : bytes) (s : hbabi) (w : world) : outcome (stage * world) :=
  catching w (
    '(_, w) ← ask 4 (Buffers path args) s w;
    '(_, w) ← ask 6 (Word (u32 ret)) s w;
    Done (Ended, w)).

Inductive op : Type := OpBegin (pr : program) | OpStart | OpReturn (ret : Z) (path args : bytes).
Definition step (o : op) (s : hbabi) (x : stage * world) : outcome (stage * world) :=
  let '(st, w) := x in
  match o, st with
  | OpBegin pr, Begin => begin pr s w
  | OpStart, Waiting i => Done (started s i w, w)
  | OpReturn ret path args, Application _ => returned ret path args s w
  | _, _ => Done x
  end.
Fixpoint run (l : list op) (s : hbabi) (x : stage * world) : outcome (stage * world) :=
  match l with [] => Done x | o :: l => x ← step o s x; run l s x end.

(** ** The configuration an application gets *)

(** The entries for process [p], attached as [pid]. *)
Definition full_configuration (p : nat) (pid : Z) (heap : list entry) (w : world) : list entry :=
  AddHBABIEntries (what (the p w)) ++
  [mk_entry (MAIN_THREAD_HANDLE main_thread) false; mk_entry (PROCESS_HANDLE (process_handle pid)) false;
   mk_entry NEXT_LOAD_PATH false;
   mk_entry (ARGV (overwrite (zreplicate ARGV_SIZE Byte.x00) 0 (ztake ARGV_SIZE (str (argv (codes (the p w))))))) false] ++
  heap ++ [mk_entry END_OF_LIST true].

Lemma translate_device k s w : translate (AddHBABIEntries k) s w = Done (AddHBABIEntries k).
Proof. by destruct k. Qed.

Lemma configure_spec pr p pid heap w :
  proc (the p w) = Some pid → heap_entries pr = Done heap →
  configure pr (IHBABIShim p w) w =
  Done (mk_image (full_configuration p pid heap w) (target_entry (the p w))).
Proof.
  intros Hp Hh. unfold configure, ask, Dispatch. cbn [GetLoaderConfigEntryCount mbind outcome_bind out_word].
  unfold GetLoaderConfigEntries. rewrite Z.ltb_irrefl, Nat2Z.id. cbn [mbind outcome_bind out_entries].
  rewrite take_ge, Nat.sub_diag, app_nil_r by done. cbn [IHBABIShim entries]. rewrite translate_device.
  cbn [mbind outcome_bind]. unfold GetProcessHandle. cbn [of_process IHBABIShim]. rewrite Hp.
  cbn [mbind outcome_bind out_word out_bytes GetArgv of_process IHBABIShim]. rewrite Hh.
  cbn [mbind outcome_bind GetTargetEntryPoint of_process IHBABIShim out_word].
  unfold full_configuration. by rewrite <- !app_assoc.
Qed.

(** What an application reads that takes its arguments from the configuration. *)
Definition arguments (l : list entry) : option bytes :=
  match l ≫= (fun e => match value e with ARGV b => [b] | _ => [] end) with
  | b :: _ => c_str b
  | [] => None
  end.
Lemma arguments_configured p pid heap w :
  arguments (full_configuration p pid heap w) =
  c_str (overwrite (zreplicate ARGV_SIZE Byte.x00) 0 (ztake ARGV_SIZE (str (argv (codes (the p w)))))).
Proof. unfold full_configuration. by destruct (what (the p w)). Qed.

(** ** The device's side of the start *)

(** A change to a state in which nothing else happens than that the monitors are told. *)
Lemma notify_all_procs change st l w :
  st ≠ Process.Exited →
  ∃ w', Process.notify_all fopen TerminateProcess change st l w = Done w' ∧ procs w' = procs w.
Proof.
  intros Hst. revert w. induction l as [|o l IH]; intros w; [by exists w|]. cbn [Process.notify_all].
  destruct o as [|k]; cbn [Process.notify_with].
  - unfold Process.tracker_StateChanged. rewrite bool_decide_eq_false_2 by done. cbn [mbind outcome_bind].
    destruct (IH (Process.signal_if_ready w)) as (w' & -> & E). exists w'. split; [done|].
    rewrite E. unfold Process.signal_if_ready. by destruct (Process.ReadyToLaunch w).
  - cbn [mbind outcome_bind]. destruct (IH (Process.client_StateChanged k st w)) as (w' & -> & E).
    exists w'. split; [done|]. rewrite E. unfold Process.client_StateChanged.
    by destruct (Process.state_observer _).
Qed.
Lemma quiet_change p st w :
  st = ShimSuspended ∨ st = Running →
  ∃ w', Process.ChangeState fopen memory svc_error TerminateProcess ClearExternalContentSource p st w = Done w' ∧
    procs w' = alter (Process.set_state st) p (procs w).
Proof.
  intros Hst. unfold Process.ChangeState, Process.depth. cbn [Process.ChangeState_fuel].
  unfold Process.ChangeState_with, Process.Tracked_ChangeState, Process.ECS_ChangeState, Process.MonitoredProcess_ChangeState.
  rewrite !bool_decide_eq_false_2 by (by destruct Hst as [-> | ->]). cbn [mbind outcome_bind].
  set (w1 := emit (Process.StateIs p st) (upd p (Process.set_state st) w)).
  match goal with |- context [Process.notify_all _ _ ?c st ?l w1] =>
    destruct (notify_all_procs c st l w1) as (w2 & -> & E); [by destruct Hst as [-> | ->]|] end.
  exists w2. cbn [mbind outcome_bind]. split; [by destruct Hst as [-> | ->]|]. by rewrite E.
Qed.

Lemma the_alter f p w w' :
  (p < length (procs w))%nat → procs w' = alter f p (procs w) → the p w' = f (the p w).
Proof.
  intros Hp E. unfold the. rewrite E, list_lookup_alter_eq. destruct (lookup_lt_is_Some_2 _ _ Hp) as [x ->]. done.
Qed.
Lemma the_upd_eq p f w : (p < length (procs w))%nat → the p (upd p f w) = f (the p w).
Proof. intros Hp. by apply the_alter. Qed.

Lemma last_start_reply_app p l code : last_start_reply p (l ++ [StartReply p code]) = Some code.
Proof. unfold last_start_reply. rewrite foldl_app. cbn. by rewrite bool_decide_eq_true_2. Qed.

#[local] Notation Continue := (Process.Continue fopen memory svc_error TerminateProcess ClearExternalContentSource).
#[local] Notation Terminate := (Process.Terminate fopen memory svc_error TerminateProcess ClearExternalContentSource).

Lemma waited_running p w :
  (p < length (procs w))%nat → suspended_launch_enabled (launching (the p w)) = false →
  ∃ w', WaitToStart p w = Done w' ∧ procs w' = alter (Process.set_state Running) p (procs w) ∧
    last_start_reply p (log w') = Some EOK.
Proof.
  intros Hp He. unfold Process.WaitToStart. rewrite He.
  destruct (quiet_change p Running w) as (w1 & -> & E); [by right|]. eexists. split; [reflexivity|].
  split; [done|]. apply last_start_reply_app.
Qed.
Lemma waited_suspended p w :
  (p < length (procs w))%nat → suspended_launch_enabled (launching (the p w)) = true →
  ∃ w', WaitToStart p w = Done w' ∧ (p < length (procs w'))%nat ∧
    the p w' = Process.set_launch (Process.set_cb true) (Process.set_state ShimSuspended (the p w)).
Proof.
  intros Hp He. unfold Process.WaitToStart. rewrite He.
  destruct (quiet_change p ShimSuspended w) as (w1 & -> & E); [by left|].
  assert (Hp1 : (p < length (procs w1))%nat) by (by rewrite E, length_alter).
  eexists. split; [reflexivity|]. rewrite the_upd_eq, (the_alter _ _ _ _ Hp E) by done.
  split; [by rewrite Process.upd_length|done].
Qed.

(** The application's start, after the device has kept the request. *)
Lemma continued p w :
  (p < length (procs w))%nat → state (the p w) = ShimSuspended →
  suspended_launch_cb (launching (the p w)) = true →
  ∃ w', Continue p w = Done w' ∧
    the p w' = Process.set_launch (Process.set_cb false) (Process.set_state Running (the p w)) ∧
    last_start_reply p (log w') = Some EOK.
Proof.
  intros Hp Hs Hc. unfold Process.Continue. rewrite bool_decide_eq_true_2 by done.
  destruct (quiet_change p Running w) as (w1 & -> & E); [by right|].
  assert (Hp1 : (p < length (procs w1))%nat) by (by rewrite E, length_alter).
  cbn [mbind outcome_bind]. unfold Process.start_reply. rewrite (the_alter _ _ _ _ Hp E). cbn [launching Process.set_state].
  rewrite Hc. eexists. split; [reflexivity|]. split; [|apply last_start_reply_app].
  change (the p (emit ?e ?x)) with (the p x). by rewrite the_upd_eq, (the_alter _ _ _ _ Hp E).
Qed.
Lemma terminated p pid w :
  (p < length (procs w))%nat → state (the p w) = ShimSuspended →
  suspended_launch_cb (launching (the p w)) = true → proc (the p w) = Some pid → TerminateProcess pid = EOK →
  ∃ w', Terminate p w = Done w' ∧ the p w' = Process.set_launch (Process.set_cb false) (the p w) ∧
    last_start_reply p (log w') = Some TWILI_ERR_NO_LONGER_REQUESTED_TO_LAUNCH.
Proof.
  intros Hp Hs Hc Hpid Ht. unfold Process.Terminate, Process.Terminate_with. rewrite Hs.
  rewrite (bool_decide_eq_false_2 (ShimSuspended = Process.Created)), (bool_decide_eq_true_2 (ShimSuspended = ShimSuspended)) by done.
  unfold Process.start_reply. rewrite Hc. cbn [mbind outcome_bind].
  rewrite (bool_decide_eq_false_2 (ShimSuspended = Process.Exited)) by done.
  change (the p (emit ?e ?x)) with (the p x). rewrite the_upd_eq by done. cbn [proc Process.set_launch]. rewrite Hpid, Ht.
  eexists. split; [reflexivity|]. split; [by apply the_upd_eq|].
  cbn [log emit]. unfold last_start_reply. rewrite foldl_app. cbn [foldl]. rewrite foldl_app. cbn [foldl].
  by rewrite bool_decide_eq_true_2.
Qed.

Lemma begun pr p pid heap w w' :
  proc (the p w) = Some pid → heap_entries pr = Done heap → WaitToStart p w = Done w' →
  step (OpBegin pr) (IHBABIShim p w) (Begin, w) =
  Done (Waiting (mk_image (full_configuration p pid heap w) (target_entry (the p w))), w').
Proof.
  intros Hp Hh Hw. cbn [step]. unfold begin. erewrite configure_spec by done.
  cbn [mbind outcome_bind Dispatch of_process IHBABIShim]. by rewrite Hw.
Qed.
Lemma started_application s i w :
  suspended_launch_cb (launching (the (of_process s) w)) = false →
  last_start_reply (of_process s) (log w) = Some EOK → started s i w = Application i.
Proof. intros Hc Hl. unfold started. by rewrite Hc, Hl. Qed.

(** What the application leaves behind is what the device stores. *)
Lemma handed_back s i ret path args sp sa w :
  (of_process s < length (procs w))%nat → c_str path = Some sp → c_str args = Some sa →
  ∃ w', step (OpReturn ret path args) s (Application i, w) = Done (Ended, w') ∧
    the (of_process s) w' =
    Process.SetResult (u32 ret) (Process.SetNextLoadPath (String.string_of_list_byte sp) (String.string_of_list_byte sa)
      (the (of_process s) w)) ∧
    Process.applets w' = Process.applets w ∧ length (procs w') = length (procs w).
Proof.
  intros Hp Hs Ha. cbn [step]. unfold returned, ask, Dispatch, SetNextLoadPath. rewrite Hs, Ha.
  eexists. split; [reflexivity|]. split; [|by rewrite !Process.upd_length].
  rewrite the_upd_eq; [by rewrite the_upd_eq|]. by rewrite Process.upd_length.
Qed.

(** C15: A shim whose process is attached and not to be launched suspended calls the application
    with exactly the device's entries, the main thread, the process handle, the buffers for the
    next load, the argument string in a buffer filled with zeros, the applet's heap and the end of
    the list; the process is running then, and when the application returns the device has its
    result, cut to 32 bits, and the strings it left in the two buffers. *)
Theorem shim_runs_application pr p pid heap ret path args sp sa w :
  proc (the p w) = Some pid →
  suspended_launch_enabled (launching (the p w)) = false → suspended_launch_cb (launching (the p w)) = false →
  heap_entries pr = Done heap → c_str path = Some sp → c_str args = Some sa →
  ∃ w1 w2,
    run [OpBegin pr; OpStart] (IHBABIShim p w) (Begin, w) =
      Done (Application (mk_image (full_configuration p pid heap w) (target_entry (the p w))), w1) ∧
    state (the p w1) = Running ∧
    run [OpBegin pr; OpStart; OpReturn ret path args] (IHBABIShim p w) (Begin, w) = Done (Ended, w2) ∧
    state (the p w2) = Running ∧ result (the p w2) = u32 ret ∧
    next_load_path (codes (the p w2)) = String.string_of_list_byte sp ∧
    next_load_argv (codes (the p w2)) = String.string_of_list_byte sa.
Proof.
  intros Hp He Hc Hh Hs Ha.
  assert (Hlt : (p < length (procs w))%nat) by (apply Process.attached_in_range; congruence).
  destruct (waited_running p w Hlt He) as (w1 & Hw & E & Hl).
  pose proof (the_alter _ _ _ _ Hlt E) as E1.
  assert (Happ : ∀ i, started (IHBABIShim p w) i w1 = Application i)
    by (intros i; apply started_application; [by cbn [of_process IHBABIShim]; rewrite E1|done]).
  destruct (handed_back (IHBABIShim p w) (mk_image (full_configuration p pid heap w) (target_entry (the p w)))
    ret path args sp sa w1) as (w2 & H2 & E2 & _); [by cbn [of_process IHBABIShim]; rewrite E, length_alter|done..|].
  exists w1, w2. cbn [of_process IHBABIShim] in E2. cbn [run]. erewrite begun by done. cbn [mbind outcome_bind].
  rewrite E2, E1. change (step OpStart ?s (Waiting ?i, ?x)) with (Done (started s i x, x)). rewrite !Happ.
  cbn [mbind outcome_bind]. by rewrite H2.
Qed.


(** A shim whose process is to be launched suspended asks to start and waits; the application
    starts, with the configuration made before, when the device lets the process continue, and the
    shim ends without having called it when the device terminates the process. *)
Theorem suspended_shim_waits pr p pid heap w :
  proc (the p w) = Some pid → suspended_launch_enabled (launching (the p w)) = true →
  heap_entries pr = Done heap →
  let i := mk_image (full_configuration p pid heap w) (target_entry (the p w)) in
  ∃ w1,
    run [OpBegin pr; OpStart; OpStart] (IHBABIShim p w) (Begin, w) = Done (Waiting i, w1) ∧
    state (the p w1) = ShimSuspended ∧
    (∃ w2, Continue p w1 = Done w2 ∧ state (the p w2) = Running ∧
      step OpStart (IHBABIShim p w) (Waiting i, w2) = Done (Application i, w2)) ∧
    (TerminateProcess pid = EOK →
     ∃ w2, Terminate p w1 = Done w2 ∧ step OpStart (IHBABIShim p w) (Waiting i, w2) = Done (Ended, w2)).
Proof.
  intros Hp He Hh i.
  assert (Hlt : (p < length (procs w))%nat) by (apply Process.attached_in_range; congruence).
  destruct (waited_suspended p w Hlt He) as (w1 & Hw & Hlt1 & E1).
  assert (Hs1 : state (the p w1) = ShimSuspended) by (by rewrite E1).
  assert (Hc1 : suspended_launch_cb (launching (the p w1)) = true) by (by rewrite E1).
  assert (Hp1 : proc (the p w1) = Some pid) by (by rewrite E1).
  assert (Hstay : started (IHBABIShim p w) i w1 = Waiting i)
    by (unfold started; cbn [of_process IHBABIShim]; by rewrite Hc1).
  exists w1. split_and!; [|done| |].
  - cbn [run]. erewrite begun by done. cbn [mbind outcome_bind]. fold i.
    change (step OpStart ?s (Waiting i, ?x)) with (Done (started s i x, x)). rewrite Hstay. cbn [mbind outcome_bind].
    change (step OpStart ?s (Waiting i, ?x)) with (Done (started s i x, x)). by rewrite Hstay.
  - destruct (continued p w1 Hlt1 Hs1 Hc1) as (w2 & Hw2 & E2 & Hl2). exists w2. rewrite E2.
    split_and!; [done..|]. cbn [step]. rewrite started_application; [done| |done].
    cbn [of_process IHBABIShim]. by rewrite E2.
  - intros Ht. destruct (terminated p pid w1 Hlt1 Hs1 Hc1 Hp1 Ht) as (w2 & Hw2 & E2 & Hl2). exists w2.
    split; [done|]. cbn [step]. unfold started. cbn [of_process IHBABIShim]. by rewrite E2, Hl2.
Qed.

(** A configuration that cannot be made does not reach the request to start. *)
Lemma begin_error pr p pid code w :
  proc (the p w) = Some pid → heap_entries pr = Throws (ResultError code) →
  begin pr (IHBABIShim p w) w = Done (Caught code, w).
Proof.
  intros Hp Hh. unfold begin, configure, ask, Dispatch. cbn [GetLoaderConfigEntryCount mbind outcome_bind out_word].
  unfold GetLoaderConfigEntries. rewrite Z.ltb_irrefl, Nat2Z.id. cbn [mbind outcome_bind out_entries].
  rewrite take_ge, Nat.sub_diag, app_nil_r by done. cbn [IHBABIShim entries]. rewrite translate_device.
  cbn [mbind outcome_bind]. unfold GetProcessHandle. cbn [of_process IHBABIShim]. rewrite Hp.
  cbn [mbind outcome_bind out_word out_bytes GetArgv of_process IHBABIShim]. by rewrite Hh.
Qed.

(** An argument string that fills its buffer is not terminated in it. *)
Lemma c_str_no_nul b : Byte.x00 ∉ b → c_str b = None.
Proof.
  induction b as [|x b IH]; [done|]. intros H. cbn [c_str]. rewrite not_elem_of_cons in H.
  rewrite bool_decide_eq_false_2 by (by intros ->; destruct H). by rewrite IH by apply H.
Qed.
Lemma c_str_terminated b t : Byte.x00 ∉ b → c_str (b ++ Byte.x00 :: t) = Some b.
Proof.
  induction b as [|x b IH]; [done|]. intros H. cbn [c_str app]. rewrite not_elem_of_cons in H.
  rewrite bool_decide_eq_false_2 by (by intros ->; destruct H). by rewrite IH by apply H.
Qed.

(** *** The heap *)

Lemma down_multiple x : 0 ≤ x → Z.ldiff x heap_incr_multiple_mask = x / heap_incr_multiple * heap_incr_multiple.
Proof.
  intros H. change heap_incr_multiple_mask with (Z.ones 21). rewrite Z.ldiff_ones_r by lia.
  by rewrite Z.shiftr_div_pow2, Z.shiftl_mul_pow2 by lia.
Qed.
Lemma round_up_spec x :
  0 ≤ x < 2 ^ 63 →
  (heap_incr_multiple | round_up x) ∧ x ≤ round_up x < x + heap_incr_multiple.
Proof.
  intros H. unfold round_up. rewrite u64_small by (unfold heap_incr_multiple_mask, heap_incr_multiple; lia).
  rewrite down_multiple by (unfold heap_incr_multiple_mask, heap_incr_multiple; lia).
  split; [by exists ((x + heap_incr_multiple_mask) / heap_incr_multiple)|].
  pose proof (Z.div_mod (x + heap_incr_multiple_mask) heap_incr_multiple ltac:(done)).
  pose proof (Z.mod_pos_bound (x + heap_incr_multiple_mask) heap_incr_multiple ltac:(done)).
  unfold heap_incr_multiple_mask, heap_incr_multiple in *. lia.
Qed.

(** What the system has left, in whole increments, and the fallback. *)
Definition heap_room (m : memory_info) : Z :=
  if total_mem_usage m + 2 * heap_incr_multiple <=? total_mem_available m
  then (total_mem_available m - total_mem_usage m - heap_incr_multiple) / heap_incr_multiple * heap_incr_multiple
  else 0x20000000.
(** Sizes that do not wrap around. *)
Definition sizes_ok (m : memory_info) : Prop :=
  0 ≤ total_mem_available m < 2 ^ 63 ∧ 0 ≤ total_mem_usage m < 2 ^ 63 ∧
  0 ≤ applet_heap_size m < 2 ^ 63 ∧ 0 ≤ applet_heap_reservation_size m < 2 ^ 63.


Lemma heap_room_spec m :
  sizes_ok m → (heap_incr_multiple | heap_room m) ∧ 0 < heap_room m.
Proof.
  intros (Ha & Hu & _). unfold heap_room. case_match eqn:E; [|by split; [exists 256|]].
  split; [by eexists|]. apply Z.leb_le in E.
  assert (1 ≤ (total_mem_available m - total_mem_usage m - heap_incr_multiple) / heap_incr_multiple)
    by (apply Z.div_le_lower_bound; [done|]; lia).
  unfold heap_incr_multiple in *; lia.
Qed.
(** The size before the settings are looked at. *)
Lemma heap_size_room m :
  sizes_ok m →
  heap_size m =
  (if negb (applet_heap_size m =? 0) then Z.min (round_up (applet_heap_size m)) (heap_room m)
   else if negb (applet_heap_reservation_size m =? 0)
   then if round_up (applet_heap_reservation_size m) <? heap_room m
        then heap_room m - round_up (applet_heap_reservation_size m) else heap_room m
   else heap_room m).
Proof.
  intros (Ha & Hu & _). unfold heap_size. set (available := total_mem_available m) in *. set (usage := total_mem_usage m) in *.
  rewrite (u64_small (usage + _)) by (unfold heap_incr_multiple; lia).
  assert (Hroom : (let size := if usage + heap_incr_multiple <? available
       then Z.ldiff (u64 (available - usage - heap_incr_multiple)) heap_incr_multiple_mask else 0 in
       if size =? 0 then 0x20000000 else size) = heap_room m).
  { unfold heap_room. fold available usage. destruct (Z.ltb_spec (usage + heap_incr_multiple) available) as [Hlt|Hge].
    - rewrite u64_small by (unfold heap_incr_multiple in *; lia). rewrite down_multiple by lia. cbv zeta.
      pose proof (Z.div_mod (available - usage - heap_incr_multiple) heap_incr_multiple ltac:(done)) as Hd.
      pose proof (Z.mod_pos_bound (available - usage - heap_incr_multiple) heap_incr_multiple ltac:(done)) as Hm.
      repeat case_match; rewrite ?Z.eqb_eq, ?Z.eqb_neq, ?Z.leb_le, ?Z.leb_gt in *; unfold heap_incr_multiple in *; lia.
    - rewrite (proj2 (Z.leb_gt _ _)) by (unfold heap_incr_multiple in *; lia). done. }
  cbv zeta in *. rewrite Hroom. destruct (negb _); [|done]. by destruct (Z.ltb_spec (round_up (applet_heap_size m)) (heap_room m)); [rewrite Z.min_l by lia|rewrite Z.min_r by lia].
Qed.

(** C28: The heap given to an applet is a positive number of whole increments within what the
    system has left, or within the fallback of 512 MiB; asked for a size, it is less than that size
    and one increment of 2 MiB; asked to leave a reservation, it leaves it if the reservation is
    smaller than what is left, up to less than an increment, and takes all otherwise.  The sizes are
    taken to be below 2^63, where nothing wraps around. *)
Theorem applet_heap_bounds m :
  sizes_ok m →
  (heap_incr_multiple | heap_size m) ∧ 0 < heap_size m ≤ heap_room m ∧
  (applet_heap_size m ≠ 0 → heap_size m < applet_heap_size m + heap_incr_multiple) ∧
  (applet_heap_size m = 0 →
   heap_size m + applet_heap_reservation_size m ≤ heap_room m ∨
   heap_size m = heap_room m ∧ heap_room m < applet_heap_reservation_size m + heap_incr_multiple).
Proof.
  intros Hok. rewrite heap_size_room by done. destruct (heap_room_spec m Hok) as [Hdr Hr].
  destruct Hok as (_ & _ & H1 & H2).
  pose proof (round_up_spec _ H1) as [D1 R1]. pose proof (round_up_spec _ H2) as [D2 R2].
  destruct (Z.eqb_spec (applet_heap_size m) 0) as [E1|E1]; cbn [negb].
  - destruct (Z.eqb_spec (applet_heap_reservation_size m) 0) as [E2|E2]; cbn [negb]; [split_and!; first [done|lia]|].
    destruct (Z.ltb_spec (round_up (applet_heap_reservation_size m)) (heap_room m));
      (split_and!; first [by apply Z.divide_sub_r|done|lia]).
  - split_and!; [by destruct (Z.min_spec (round_up (applet_heap_size m)) (heap_room m)) as [[_ ->]|[_ ->]]|lia..].
Qed.


Lemma zeros_behind n m : 0 ≤ n < m → ∃ t, zdrop n (zreplicate m Byte.x00) = Byte.x00 :: t.
Proof.
  intros H. unfold zdrop, zreplicate. rewrite drop_replicate.
  destruct (Z.to_nat m - Z.to_nat n)%nat as [|k] eqn:E; [lia|]. by exists (replicate k Byte.x00).
Qed.
(** The application reads the argument string out of its buffer exactly when the string is shorter
    than the buffer; otherwise the buffer holds no terminator and reading goes on behind it. *)
Lemma argv_buffer a :
  Byte.x00 ∉ a →
  c_str (overwrite (zreplicate ARGV_SIZE Byte.x00) 0 (ztake ARGV_SIZE a)) =
  if zlen a <? ARGV_SIZE then Some a else None.
Proof.
  intros Ha. unfold overwrite. rewrite ztake_0 by done. cbn [app]. pose proof (zlen_nonneg a) as Hn.
  destruct (Z.ltb_spec (zlen a) ARGV_SIZE) as [H|H].
  - rewrite ztake_all by lia. destruct (zeros_behind (0 + zlen a) ARGV_SIZE) as [t ->]; [lia|]. by apply c_str_terminated.
  - rewrite (zdrop_all (0 + _)) by (rewrite zlen_ztake, zlen_zreplicate; unfold ARGV_SIZE in *; lia).
    rewrite app_nil_r. apply c_str_no_nul. intros Hin. apply Ha. unfold ztake in Hin.
    rewrite <- (take_drop (Z.to_nat ARGV_SIZE) a). apply elem_of_app. by left.
Qed.


(** *** The next application *)

Lemma c_str_inv b s : c_str b = Some s → zlen s < zlen b ∧ Byte.x00 ∉ s.
Proof.
  revert s. induction b as [|x b IH]; intros s; [done|]. cbn [c_str]. case_bool_decide as Hx.
  - intros [= <-]. rewrite zlen_cons. pose proof (zlen_nonneg b). split; [unfold zlen at 1; cbn [length]; lia|apply not_elem_of_nil].
  - rewrite fmap_Some. intros (t & Ht & ->). destruct (IH t Ht) as [Hl Hn]. rewrite !zlen_cons. split; [lia|].
    rewrite not_elem_of_cons. split; [congruence|done].
Qed.
Lemma str_bytes b : str (String.string_of_list_byte b) = b.
Proof. apply String.list_byte_of_string_of_list_byte. Qed.

(** A program loaded for a path is queued, with the argument string it is loaded with. *)
Lemma HBLLoad_argv change path args w file nso npdm :
  fopen "/squash/applet_host.nso" = Some nso → fopen "/squash/applet_host.npdm" = Some npdm →
  Process.hbmenu (Process.applets w) = None → fopen (Process.transmute_path path) = Some file →
  ∃ w', Process.HBLLoad_with fopen TerminateProcess change path args w = Done w' ∧
    Process.queued (Process.applets w') = Process.queued (Process.applets w) ++ [length (procs w)] ∧
    what (the (length (procs w)) w') = Applet ∧ argv (codes (the (length (procs w)) w')) = args.
Proof.
  intros E1 E2 Hm Ef. unfold Process.HBLLoad_with, Process.CreateProcess. rewrite Ef, E1, E2.
  cbn [Files.ActualFile_new mbind outcome_bind]. set (w1 := Process.set_procs _ w).
  assert (Hlt : (length (procs w) < length (procs w1))%nat) by (unfold w1; cbn [Process.set_procs procs]; rewrite length_app; cbn; lia).
  unfold Process.QueueLaunch_with. rewrite the_upd_eq by done. unfold w1 at 1. rewrite Process.the_created.
  cbn [what Process.set_code Process.new_process].
  change (Process.hbmenu (Process.applets (upd (length (procs w)) ?f w1))) with (Process.hbmenu (Process.applets w)).
  rewrite Hm. cbn [mbind outcome_bind]. eexists. split; [reflexivity|]. unfold Process.signal_if_ready.
  assert (Hthe : the (length (procs w)) (upd (length (procs w)) (Process.set_code
    (Process.mk_code [Files.mk_ActualFile file None] args "" "")) w1) =
    Process.set_code (Process.mk_code [Files.mk_ActualFile file None] args "" "") (Process.new_process Applet))
    by (rewrite the_upd_eq by done; unfold w1; by rewrite Process.the_created).
  destruct (Process.ReadyToLaunch _); (split; [done|]);
    change (the ?q (Process.Signal ?x)) with (the q x); change (the ?q (Process.on_applets ?f ?x)) with (the q x); by rewrite Hthe.
Qed.


Lemma signal_if_ready_same w :
  procs (Process.signal_if_ready w) = procs w ∧
  Process.queued (Process.applets (Process.signal_if_ready w)) = Process.queued (Process.applets w) ∧
  Process.hbmenu (Process.applets (Process.signal_if_ready w)) = Process.hbmenu (Process.applets w) ∧
  Process.monitored (Process.applets (Process.signal_if_ready w)) = Process.monitored (Process.applets w).
Proof. unfold Process.signal_if_ready. by destruct (Process.ReadyToLaunch w). Qed.
Lemma Reattach_queued n w : Process.queued (Process.applets (Process.Reattach n w)) = Process.queued (Process.applets w).
Proof. unfold Process.Reattach. by destruct n, (Process.monitored _). Qed.

(** C11: What an application leaves in the buffers for the next load arrives.  If the application is
    the applet that the tracker watches, no hbmenu is connected and the path names a file that can
    be opened, then when the tracker hears that the application has exited, the program of that
    path is queued as the next applet; and whenever that one is attached later, with the code it
    was queued with, the configuration its own shim makes has a buffer out of which it reads
    exactly the argument string. *)
Theorem next_argv_arrives change s i ret path args sp sa w file nso npdm :
  fopen "/squash/applet_host.nso" = Some nso → fopen "/squash/applet_host.npdm" = Some npdm →
  fopen (Process.transmute_path (String.string_of_list_byte sp)) = Some file →
  c_str path = Some sp → sp ≠ [] → c_str args = Some sa → zlen args = ARGV_SIZE →
  (of_process s < length (procs w))%nat →
  Process.hbmenu (Process.applets w) = None → Process.monitored (Process.applets w) = Some (of_process s) →
  ∃ w1 w2, step (OpReturn ret path args) s (Application i, w) = Done (Ended, w1) ∧
    Process.tracker_StateChanged fopen TerminateProcess change Process.Exited w1 = Done w2 ∧
    let next := length (procs w) in
    Process.queued (Process.applets w2) = Process.queued (Process.applets w) ++ [next] ∧
    what (the next w2) = Applet ∧
    ∀ pr pid heap w3,
      codes (the next w3) = codes (the next w2) → proc (the next w3) = Some pid →
      heap_entries pr = Done heap →
      ∃ image, configure pr (IHBABIShim next w3) w3 = Done image ∧
        arguments (i_entries image) = Some sa.
Proof.
  intros E1 E2 E3 Hs Hne Ha Hlen Hlt Hm Hmon.
  destruct (c_str_inv args sa Ha) as [Hshort Hnul].
  destruct (handed_back s i ret path args sp sa w) as (w1 & H1 & Ew & Ea & El); [done..|].
  destruct (signal_if_ready_same w1) as (P1 & P2 & P3 & P4). set (w0 := Process.signal_if_ready w1) in *.
  assert (Ew0 : the (of_process s) w0 = the (of_process s) w1) by (unfold the; by rewrite P1).
  destruct (HBLLoad_argv change (String.string_of_list_byte sp) (String.string_of_list_byte sa) w0 file nso npdm)
    as (w2 & H2 & Q & Wh & Ar); [done|done|by rewrite P3, Ea|done|].
  exists w1, (Process.Reattach None w2). split; [done|].
  unfold Process.tracker_StateChanged. rewrite bool_decide_eq_true_2 by done. fold w0.
  rewrite P4, Ea, Hmon. cbv beta iota zeta. rewrite !P3, !Ea, !Hm. rewrite !(bool_decide_eq_false_2 (None = Some _)) by done.
  rewrite Ew0, Ew.
  cbn [codes next_load_path next_load_argv Process.SetResult Process.SetNextLoadPath Process.set_code].
  rewrite bool_decide_eq_false_2 by (intros E; apply Hne; by rewrite <- (str_bytes sp), E).
  rewrite H2. cbn [mbind outcome_bind]. rewrite P1, El, P2, Ea in Q. rewrite P1, El in Wh, Ar.
  split; [done|]. rewrite Reattach_queued, Q, (Process.Reattach_fields what), (Process.Reattach_fields codes), Wh by done.
  split_and!; [done..|]. intros pr pid heap w3 Hc Hp Hh. eexists. split; [by apply configure_spec|].
  cbn [i_entries]. rewrite arguments_configured, Hc, Ar, argv_buffer; rewrite str_bytes; [|done].
  by rewrite (proj2 (Z.ltb_lt _ _)) by lia.
Qed.

End shim.
(** *** Examples *)

(** An applet that its shim has just attached to the device, launched suspended or not. *)
Definition ex_attached (suspended : bool) : world :=
  Process.ex_world [Process.OpOpenAppletShim 0; Process.OpCreate "applet" 1; Process.OpAppendCode 0 true;
    Process.OpCodeReceived 0 2 "/sd/tmp/file_0.nro"; Process.OpLaunch suspended 0 3; Process.OpPopApplet;
    Process.OpOpenAppletShim 81].
Definition ex_memory_info : memory_info := mk_memory 0x30000000 0x1234567 0 0x500000.
Definition ex_set_heap (size : Z) : Z + Z := inr 0x800000000.
Definition ex_empty : entry := mk_entry (OTHER_KEY 0) false.
Definition ex_buffer (s : string) : bytes := str s ++ zreplicate (ARGV_SIZE - zlen (str s)) Byte.x00.
Definition ex_heap : list entry := [mk_entry (OVERRIDE_HEAP 0x800000000 (heap_size ex_memory_info)) true].

Lemma shim_runs_application_witness :
  ∃ w1 w2,
    run Process.ex_fopen Process.ex_memory 1 Process.ok Process.ok id 7 (fun _ => 3) ex_empty ex_set_heap
      [OpBegin (Host ex_memory_info); OpStart; OpReturn 5 (ex_buffer "sdmc:/b.nro") (ex_buffer "sdmc:/b.nro -v")]
      (IHBABIShim 2 0 (ex_attached false)) (Begin, ex_attached false) = Done (Ended, w2) ∧
    state (the 0 w1) = Running ∧ result (the 0 w2) = 5 ∧
    next_load_path (codes (the 0 w2)) = "sdmc:/b.nro"%string.
Proof.
  destruct (shim_runs_application Process.ex_fopen Process.ex_memory 1 Process.ok Process.ok id 2 7 (fun _ => 3) ex_empty
    ex_set_heap (Host ex_memory_info) 0 81 ex_heap 5 (ex_buffer "sdmc:/b.nro") (ex_buffer "sdmc:/b.nro -v")
    (str "sdmc:/b.nro") (str "sdmc:/b.nro -v") (ex_attached false)) as (w1 & w2 & _ & S1 & R & _ & Er & Ep & _); [vm_compute; reflexivity..|].
  exists w1, w2. split; [exact R|]. split; [exact S1|]. split; [exact Er|]. rewrite Ep. reflexivity.
Defined.

Lemma suspended_shim_waits_witness :
  let w := ex_attached true in let s := IHBABIShim 2 0 w in
  ∃ i w1 w2,
    run Process.ex_fopen Process.ex_memory 1 Process.ok Process.ok id 7 (fun _ => 3) ex_empty ex_set_heap
      [OpBegin Hbabi; OpStart; OpStart] s (Begin, w) = Done (Waiting i, w1) ∧
    Process.Terminate Process.ex_fopen Process.ex_memory 1 Process.ok Process.ok 0 w1 = Done w2 ∧
    step Process.ex_fopen Process.ex_memory 1 Process.ok Process.ok id 7 (fun _ => 3) ex_empty ex_set_heap
      OpStart s (Waiting i, w2) = Done (Ended, w2).
Proof.
  intros w s.
  destruct (suspended_shim_waits Process.ex_fopen Process.ex_memory 1 Process.ok Process.ok id 2 7 (fun _ => 3) ex_empty
    ex_set_heap Hbabi 0 81 [] w) as (w1 & R & _ & _ & T); [vm_compute; reflexivity..|].
  destruct (T eq_refl) as (w2 & E & St). eexists _, w1, w2. split; [exact R|]. split; [exact E|exact St].
Defined.

Lemma next_argv_arrives_witness :
  let w := ex_attached false in
  ∃ w1 w2 image,
    step Process.ex_fopen Process.ex_memory 1 Process.ok Process.ok id 7 (fun _ => 3) ex_empty ex_set_heap
      (OpReturn 0 (ex_buffer "sdmc:/b.nro") (ex_buffer "sdmc:/b.nro -v")) (IHBABIShim 2 0 w)
      (Application (mk_image [] 0), w) = Done (Ended, w1) ∧
    what (the 1 w2) = Applet ∧
    configure Process.ex_fopen Process.ex_memory 1 Process.ok Process.ok id 7 (fun _ => 3) ex_empty ex_set_heap
      Hbabi (IHBABIShim 2 1 (upd 1 (Process.set_proc 82) w2)) (upd 1 (Process.set_proc 82) w2) = Done image ∧
    arguments (i_entries image) = Some (str "sdmc:/b.nro -v").
Proof.
  intros w.
  destruct (next_argv_arrives Process.ex_fopen Process.ex_memory 1 Process.ok Process.ok id 2 7 (fun _ => 3) ex_empty
    ex_set_heap (fun _ _ w => Done w) (IHBABIShim 2 0 w) (mk_image [] 0) 0 (ex_buffer "sdmc:/b.nro") (ex_buffer "sdmc:/b.nro -v")
    (str "sdmc:/b.nro") (str "sdmc:/b.nro -v") w Process.ex_file Process.ex_file Process.ex_file)
    as (w1 & w2 & R & T & _ & Wh & A).
  5: discriminate.
  7: (vm_compute; constructor).
  1-8: (vm_compute; reflexivity).
  exists w1, w2.
  destruct (A Hbabi 82 [] (upd 1 (Process.set_proc 82) w2)) as (image & C & Ar); [..|reflexivity|].
  - rewrite the_upd_eq; [reflexivity|]. vm_compute in R. injection R as <-. vm_compute in T. injection T as <-.
    vm_compute. repeat constructor.
  - rewrite the_upd_eq; [reflexivity|]. vm_compute in R. injection R as <-. vm_compute in T. injection T as <-.
    vm_compute. repeat constructor.
  - exists image. split_and!; [exact R|exact Wh|exact C|exact Ar].
Defined.

Lemma applet_heap_bounds_witness :
  sizes_ok ex_memory_info ∧ 0 < heap_size ex_memory_info ≤ 0x2ea00000.
Proof.
  assert (H : sizes_ok ex_memory_info) by (vm_compute; intuition discriminate).
  destruct (applet_heap_bounds ex_memory_info H) as (_ & B & _). split; [exact H|].
  split; [apply B|]. etrans; [apply B|]. vm_compute. discriminate.
Defined.

End Shim.
