(* ===== verification/AppletControl.v ===== *)
(** * twili_applet_shim/applet_control.cpp, applet_common.cpp: the control applet

    The program that has the system create a library applet for every process the tracker of
    [Process] has queued.  It is modelled one call at a time: [place] is where it is, [advance] makes
    its next call (to the device, or to the system, whose answer is an argument) and goes on to the
    next place, and between two of its steps the device may do anything ([Device]).  Its calls to the
    device are [Process]'s operations.  A session it closes is noticed by the device some time later
    ([Lost], [LostControl]); when an exception leaves the loop the program ends, which closes the
    applets' controllers and the control session.

    [process_queued] is the handler of the tracker's event run without interruption; it is a run of
    the steps ([queue_is_a_run]).  Connecting to the services at the start is left out. *)
From S2P Require Import Prelude Err Files Process.

Module AppletControl.
Import Err.
Import Files(EOK, FILE).
#[local] Existing Instance Files.ActualFile_file.
Import Process(world, procs, the, upd, applets, queued, created, has_control_process, state, proc,
  commands, process_queued_event, on_applets, set_control, set_queued, set_created, GetCommand, PopCommand,
  SetResult, Exited, State, ReadyToLaunch, one_applet, returns, sane).

(** ** State *)

(** The applet of the system, by the number of its creation, and the process it hosts. *)
Record controlled : Type := mk_controlled { ilaa : nat; controller : nat }.
(** What the system is asked for. *)
Inductive call : Type :=
| CreateLibraryApplet (n : nat) | StartApplet (n : nat)
| RequestExit (n : nat) | RequestForeground (n : nat).
Record control : Type := mk_control { running : list controlled; creations : nat; calls : list call }.
Definition called (e : call) (c : control) : control := mk_control (running c) (creations c) (calls c ++ [e]).
Definition set_running (l : list controlled) (c : control) : control := mk_control l (creations c) (calls c).

(** Why the wait returns. *)
Inductive signal : Type :=
| ProcessQueued
| ControllerEvent (k : nat)                (* of the [k]-th applet *)
| AppletStateChanged (k : nat)
| NothingSignalled
| WaitFails.

(** Where the program is: in its wait, in the handler of the tracker's event, in one of an applet's
    events, or in the loop over the applets that may be done. *)
Inductive place : Type :=
| Waiting
| Signalled                                (* before the event is reset *)
| Asking                                   (* GetCommand *)
| Popping                                  (* PopApplet *)
| Making (p : nat)                         (* CreateLibraryApplet *)
| Adding (n p : nat)                       (* the constructor of ControlledApplet *)
| Beginning (n : nat)                      (* Start *)
| Commanding (a : controlled)              (* the controller's GetCommand *)
| Requesting (a : controlled) (e : call)
| Resulting (a : controlled)
| Sweeping (i : nat).                      (* IsCompleted of the [i]-th *)
Definition program : Type := place * control.

Section control.
Context (fopen : string → option FILE) (temp_directory : string) (memory : Z → list (Z * Z * Z * Z)) (svc_error : Z).
Context (TerminateProcess : Z → Z) (SetExternalContentSource ClearExternalContentSource AttachSession : nat → Z).
Context (TerminateProgram DebugActiveProcess TerminateDebugProcess : Z → Z).
(** The system's answer to each call, and to the request for an applet's event. *)
Context (answer : call → Z) (GetAppletStateChangedEvent : nat → Z).
#[local] Notation PopApplet := (Process.PopApplet fopen memory svc_error TerminateProcess
  SetExternalContentSource ClearExternalContentSource AttachSession).
#[local] Notation ChangeState := (Process.ChangeState fopen memory svc_error TerminateProcess ClearExternalContentSource).
#[local] Notation ReleaseControlProcess := (Process.ReleaseControlProcess fopen memory svc_error TerminateProcess ClearExternalContentSource).
#[local] Notation handle := (Process.handle fopen temp_directory memory svc_error TerminateProcess
  SetExternalContentSource ClearExternalContentSource AttachSession TerminateProgram DebugActiveProcess TerminateDebugProcess).

(** ** Operations *)

(** What a part of the program leaves: the code of the exception that ended it, if any. *)
Definition left_with : Type := option Z * control * world.
Definition AssertOk (code : Z) : option Z := if code =? EOK then None else Some code.

(** A controller is closed. *)
Definition gone (p : nat) (w : world) : outcome world := ChangeState p Exited w.

(** An applet for process [p]; what has been made is lost again with an exception. *)
Definition create (p : nat) (c : control) (w : world) : outcome left_with :=
  let n := creations c in
  let c := called (CreateLibraryApplet n) (mk_control (running c) (S n) (calls c)) in
  match AssertOk (answer (CreateLibraryApplet n)), AssertOk (GetAppletStateChangedEvent n) with
  | Some code, _ | None, Some code => w ← gone p w; Done (Some code, c, w)
  | None, None =>
      let c := set_running (running c ++ [mk_controlled n p]) c in
      Done (AssertOk (answer (StartApplet n)), called (StartApplet n) c, w)
  end.
Fixpoint queue_loop (fuel : nat) (c : control) (w : world) : outcome left_with :=
  match fuel with
  | O => OutOfFuel
  | S fuel =>
      if GetCommand w =? EOK then
        '(r, out, w) ← PopApplet w;
        match out with
        | None => if r =? TWILI_ERR_NO_LONGER_REQUESTED_TO_LAUNCH then queue_loop fuel c w
                  else Done (Some r, c, w)
        | Some p =>
            '(e, c, w) ← create p c w;
            match e with None => queue_loop fuel c w | Some _ => Done (e, c, w) end
        end
      else Done (None, c, w)
  end.
Definition queue_fuel : nat := 2.
Definition ResetSignal (w : world) : world := on_applets (fun t => set_control (has_control_process t) false t) w.
(** The handler catches its exceptions. *)
Definition process_queued (c : control) (w : world) : outcome left_with :=
  if process_queued_event (applets w) then
    '(_, c, w) ← queue_loop queue_fuel c (ResetSignal w); Done (None, c, w)
  else Done (None, c, w).

Definition SetResult_of (a : controlled) (result : Z) (w : world) : world :=
  if result =? EOK then w else upd (controller a) (SetResult (u32 result)) w.

(** *** One call at a time *)

(** What a step leaves: the program, unless it has ended, and the processes whose controllers it
    has closed. *)
Definition stepped : Type := option program * list nat * world.
(** An exception that nobody catches ends the program. *)
Definition ended (c : control) (w : world) : stepped := (None, controller <$> running c, w).

(** The wait returns. *)
Definition wake (s : signal) (c : control) (w : world) : stepped :=
  match s with
  | ProcessQueued => (Some (if process_queued_event (applets w) then Signalled else Sweeping 0, c), [], w)
  | ControllerEvent k => (Some (match running c !! k with Some a => Commanding a | None => Sweeping 0 end, c), [], w)
  | AppletStateChanged k => (Some (match running c !! k with Some a => Resulting a | None => Sweeping 0 end, c), [], w)
  | NothingSignalled => (Some (Sweeping 0, c), [], w)
  | WaitFails => ended c w
  end.

(** The next call.  Where it is one to the system, [r] is the code it answers, and [completed] what
    IsCompleted has found. *)
Definition advance (r : Z) (completed : bool) (x : program) (w : world) : outcome stepped :=
  let '(here, c) := x in
  let go here c := Done (Some (here, c), [], w) in
  match here with
  | Waiting => go Waiting c
  | Signalled => Done (Some (Asking, c), [], ResetSignal w)
  | Asking => if GetCommand w =? EOK then go Popping c else go (Sweeping 0) c
  | Popping =>
      '(code, out, w) ← PopApplet w;
      Done (Some (match out with
                  | Some p => Making p
                  | None => if code =? TWILI_ERR_NO_LONGER_REQUESTED_TO_LAUNCH then Asking else Sweeping 0
                  end, c), [], w)
  | Making p =>
      let n := creations c in
      let c := called (CreateLibraryApplet n) (mk_control (running c) (S n) (calls c)) in
      if r =? EOK then go (Adding n p) c else Done (Some (Sweeping 0, c), [p], w)
  | Adding n p =>
      if r =? EOK then go (Beginning n) (set_running (running c ++ [mk_controlled n p]) c)
      else Done (Some (Sweeping 0, c), [p], w)
  | Beginning n => go (if r =? EOK then Asking else Sweeping 0) (called (StartApplet n) c)
  | Commanding a =>
      match PopCommand (the (controller a) w) with
      | (None, _) => go (Sweeping 0) c
      | (Some command, _) =>
          Done (Some (if command =? 0 then Requesting a (RequestExit (ilaa a))
                      else if command =? 1 then Requesting a (RequestForeground (ilaa a))
                      else Commanding a, c), [], upd (controller a) (fun x => (PopCommand x).2) w)
      end
  | Requesting a e => if r =? EOK then go (Commanding a) (called e c) else Done (ended (called e c) w)
  | Resulting a => Done (Some (Sweeping 0, c), [], SetResult_of a r w)
  | Sweeping i =>
      match running c !! i with
      | None => go Waiting c
      | Some a =>
          if negb (r =? EOK) then Done (ended c w)
          else if completed then Done (Some (Sweeping i, set_running (delete i (running c)) c), [controller a], w)
          else go (Sweeping (S i)) c
      end
  end.

(** ** Together with the device *)

(** The program, while there is one; what it has closed that the device has not noticed yet: the
    controllers of the processes [lost], and the control session; and the device. *)
Record joint : Type := mk_joint {
  prog : option program;
  lost : list nat;
  left_control : bool;
  dev : world }.

Inductive act : Type :=
| Wake (s : signal)
| Advance (r : Z) (completed : bool)
| StartProgram                             (* which opens the control session *)
| Lost (k : nat)                           (* the device notices *)
| LostControl
| Device (o : Process.op).
Definition from_program (o : Process.op) : bool :=
  match o with Process.OpReleaseControl | Process.OpPopApplet => true | _ => false end.

Definition after (x : joint) (y : stepped) : joint :=
  let '(p, l, w) := y in
  mk_joint p (lost x ++ l) (match p with None => true | Some _ => left_control x end) w.
Definition perform (a : act) (x : joint) : outcome joint :=
  match a with
  | Wake s => match prog x with
              | Some (Waiting, c) => Done (after x (wake s c (dev x)))
              | _ => Done x
              end
  | Advance r completed => match prog x with
                    | Some p => y ← advance r completed p (dev x); Done (after x y)
                    | None => Done x
                    end
  | StartProgram =>
      match prog x with
      | Some _ => Done x
      | None =>
          if has_control_process (applets (dev x)) then Done x
          else w ← handle (Process.OpOpenAppletShim 0) (dev x);
               Done (mk_joint (Some (Waiting, mk_control [] 0 [])) (lost x) (left_control x) w)
      end
  | Lost k =>
      match lost x !! k with
      | Some p => w ← gone p (dev x); Done (mk_joint (prog x) (delete k (lost x)) (left_control x) w)
      | None => Done x
      end
  | LostControl =>
      if left_control x then w ← ReleaseControlProcess (dev x); Done (mk_joint (prog x) (lost x) false w)
      else Done x
  | Device o => w ← handle o (dev x); Done (mk_joint (prog x) (lost x) (left_control x) w)
  end.
Fixpoint serve (l : list act) (x : joint) : outcome joint :=
  match l with [] => Done x | a :: l => x ← perform a x; serve l x end.

(** When an act can happen: a device's step that is not the program's, when it is enabled. *)
Definition can (a : act) (x : joint) : Prop :=
  match a with
  | Device o => from_program o = false ∧ Process.enabled temp_directory o (dev x)
  | _ => True
  end.
Definition moves (x x' : joint) : Prop := ∃ a, can a x ∧ perform a x = Done x'.
(** Nothing runs. *)
Definition start : joint := mk_joint None [] false Process.init.
(** A list of acts that can all happen. *)
Fixpoint can_all (l : list act) (x : joint) : Prop :=
  match l with
  | [] => True
  | a :: l => can a x ∧ match perform a x with Done y => can_all l y | _ => False end
  end.

(** The steps that are not the program's, and the program's of a list. *)
Definition by_device (a : act) : bool :=
  match a with Lost _ | LostControl | Device _ => true | _ => false end.
Definition own_acts (l : list act) : list act := List.filter (fun a => negb (by_device a)) l.
(** No shim opens a session, and no lost control session is noticed. *)
Definition undisturbed (a : act) : Prop :=
  match a with Device (Process.OpOpenAppletShim _) | LostControl => False | _ => True end.

(** ** Lemmas *)

#[local] Notation ends := Process.ends.
#[local] Notation returns_chain := Process.returns_chain.
#[local] Notation calm := Process.calm.

Lemma returns_ends_and {A} (m : outcome A) P Q : returns m P → ends m Q → returns m (fun a => P a ∧ Q a).
Proof. destruct m; cbn; auto. Qed.
Lemma gone_calm p w : one_applet w → returns (gone p w) (calm w).
Proof. apply (Process.Exit_calm fopen temp_directory memory svc_error TerminateProcess SetExternalContentSource
  ClearExternalContentSource AttachSession TerminateProgram DebugActiveProcess TerminateDebugProcess). Qed.
Lemma gone_spec p w : sane w → returns (gone p w) (Process.changed p Exited w).
Proof. apply (Process.ChangeState_spec fopen temp_directory memory svc_error TerminateProcess SetExternalContentSource
  ClearExternalContentSource AttachSession TerminateProgram DebugActiveProcess TerminateDebugProcess). Qed.

(** What a pop hands out, and what it says when it hands out nothing. *)
Definition popped (x : Z * option nat * world) : Prop :=
  match x with
  | (r, None, _) => r ≠ TWILI_ERR_NO_LONGER_REQUESTED_TO_LAUNCH
  | (_, Some p, w) => p ∈ created (applets w)
  end.
Lemma pop_popped fuel w :
  ends (Process.pop_queued fopen memory svc_error TerminateProcess SetExternalContentSource
    ClearExternalContentSource AttachSession fuel w) popped.
Proof.
  revert w. induction fuel as [|fuel IH]; intros w; [done|]. cbn [Process.pop_queued].
  destruct (queued (applets w)) as [|p l].
  - unfold Process.pop_hbmenu. apply (Process.ends_bind _ _ (fun _ => True)); [done|]. intros [w1 h] _.
    apply (Process.ends_bind _ _ (fun _ => True)); [done|]. intros [r w2] _.
    apply (Process.ends_bind _ _ (fun _ => True)); [done|]. intros w3 _.
    apply Process.ends_done. cbn. apply elem_of_app. right. by apply list_elem_of_singleton.
  - apply (Process.ends_bind _ _ (fun _ => True)); [done|]. intros [r w1] _.
    destruct (Z.eqb_spec r TWILI_ERR_NO_LONGER_REQUESTED_TO_LAUNCH) as [Hr|Hr]; [apply IH|].
    destruct (negb _); apply Process.ends_done; [done|]. cbn. apply elem_of_app. right. by apply list_elem_of_singleton.
Qed.
Lemma GetCommand_ready w : one_applet w → GetCommand w = EOK → Process.no_applet w.
Proof.
  intros Hw Hg. apply Process.ready_no_applet; [done|]. unfold GetCommand in Hg. by destruct (ReadyToLaunch w).
Qed.
Lemma PopApplet_spec w :
  Process.no_applet w → returns (PopApplet w) (fun x => one_applet x.2 ∧ popped x).
Proof.
  intros Hw. apply returns_ends_and; [|apply pop_popped].
  unfold Process.PopApplet, Process.PopQueuedProcess.
  eapply Process.returns_mono; [apply (Process.pop_queued_one fopen temp_directory memory svc_error TerminateProcess
    SetExternalContentSource ClearExternalContentSource AttachSession TerminateProgram DebugActiveProcess TerminateDebugProcess)|].
  - exact Hw.
  - unfold Process.rounds. destruct (Process.monitored _); lia.
  - by intros [[r p] w1].
Qed.
Lemma created_not_ready p w : p ∈ created (applets w) → (GetCommand w =? EOK) = false.
Proof.
  intros Hp. unfold GetCommand, ReadyToLaunch. destruct (created (applets w)); [by apply not_elem_of_nil in Hp|done].
Qed.

Lemma upd_one p f w : Process.same_core f → one_applet w → one_applet (upd p f w).
Proof. intros Hf Hw. by apply (Process.calm_one w), Process.calm_upd. Qed.
Lemma PopCommand_core : Process.same_core (fun x => (PopCommand x).2).
Proof. intros x. unfold PopCommand. by destruct (commands x). Qed.
Lemma reset_one w : one_applet w → one_applet (ResetSignal w).
Proof. intros Hw. apply (Process.calm_one w), Process.keeps_calm; [done|]. by apply Process.keeps_applets, Hw. Qed.

(** Processes that have exited, or are made to, have exited afterwards. *)
Definition exits (l : list nat) (w w' : world) : Prop :=
  (length (procs w) ≤ length (procs w'))%nat ∧
  ∀ q, (q < length (procs w))%nat → state (the q w) = Exited ∨ q ∈ l → state (the q w') = Exited.
Lemma exit_all_spec l w :
  one_applet w → returns (Process.exit_all fopen memory svc_error TerminateProcess ClearExternalContentSource l w)
    (fun w' => one_applet w' ∧ created (applets w') = created (applets w) ∧ exits l w w').
Proof.
  revert w. induction l as [|p l IH]; intros w Hw.
  - cbn. split; [done|]. split; [done|]. split; [done|]. intros q _ [H|H]; [done|by apply not_elem_of_nil in H].
  - cbn [Process.exit_all]. eapply returns_chain; [apply Process.returns_and; [by apply gone_calm|by apply gone_spec, Hw]|].
    intros w1 [H1 H2]. eapply Process.returns_mono; [apply IH, H1|]. intros w2 (H3 & Ec & Hl & He).
    split; [done|]. split; [rewrite Ec; apply H1|]. pose proof (Process.c_length _ _ _ _ H2) as Hl2.
    split; [lia|]. intros q Hq Hor. apply He; [lia|]. rewrite elem_of_cons in Hor.
    destruct (decide (q = p)) as [->|Hne].
    + left. by rewrite (Process.c_state _ _ _ _ H2), bool_decide_eq_true_2.
    + rewrite (Process.c_other _ _ _ _ H2) by done. destruct Hor as [H|[H|H]]; [by left|done|by right].
Qed.

Lemma ReleaseControlProcess_spec w :
  one_applet w → returns (ReleaseControlProcess w) (fun w' =>
    one_applet w' ∧ created (applets w') = [] ∧ exits (created (applets w)) w w' ∧
    (Process.no_applet w → Process.no_applet w')).
Proof.
  intros Hw. unfold Process.ReleaseControlProcess. destruct (negb _); [done|].
  set (w1 := on_applets _ w).
  assert (calm w w1) as H1 by (by apply Process.keeps_calm, Process.keeps_applets, Hw).
  apply (returns_chain _ _ (fun w2 => (one_applet w2 ∧ created (applets w2) = created (applets w1) ∧
    exits (created (applets w)) w1 w2) ∧ (created (applets w) = [] → w2 = w1))).
  { change (created (applets w1)) with (created (applets w)). pose proof (exit_all_spec (created (applets w)) w1 (Process.calm_one _ _ H1)) as H.
    apply (Process.returns_and _ _ (fun w2 => created (applets w) = [] → w2 = w1)); [exact H|].
    destruct (created (applets w)); [done|]. by eapply Process.returns_mono. }
  intros w2 [(H2 & Ec & He) Hempty]. rewrite (Process.sane_menu w2) by apply H2. cbn [mbind outcome_bind returns].
  split_and!; [|done|done|].
  - destruct H2 as [[Hh Hm Hn] Hc Hl Ht Hsh Ha]. by repeat constructor.
  - intros Hn. assert (w2 = w1) as -> by apply Hempty, Hn.
    assert (Process.no_applet w1) as Hn1 by (by eapply Process.calm_no_applet).
    destruct Hn1 as ([[Hh Hm Hnd] Hc Hl Ht Hsh Ha] & E1 & E2). split; [by repeat constructor|]. by split.
Qed.

(** *** The program and the device together *)

(** What every reachable state has: one applet at a time, and no applet between the program's
    GetCommand and its PopApplet. *)
Definition ready_to_pop (p : option program) (w : world) : Prop :=
  match p with Some (Popping, _) => Process.no_applet w | _ => True end.
Definition holds (x : joint) : Prop := one_applet (dev x) ∧ ready_to_pop (prog x) (dev x).

Lemma ready_same p w w' : (Process.no_applet w → Process.no_applet w') → ready_to_pop p w → ready_to_pop p w'.
Proof. destruct p as [[[] c]|]; cbn; auto. Qed.
Lemma advance_holds r completed p w :
  one_applet w → ready_to_pop (Some p) w →
  returns (advance r completed p w) (fun '(p', _, w') => one_applet w' ∧ ready_to_pop p' w').
Proof.
  intros Hw Hp. destruct p as [here c]. destruct here as [| | | |q|n q|n|a|a e|a|i]; cbn [advance].
  - done.
  - split; [by apply reset_one|done].
  - destruct (GetCommand w =? EOK) eqn:E; [|done]. split; [done|].
    apply GetCommand_ready; [done|]. by apply Z.eqb_eq.
  - eapply returns_chain; [by apply PopApplet_spec|]. intros [[code out] w1] [H1 _]. cbn [returns snd] in *.
    split; [done|]. destruct out; [done|]. by destruct (code =? _).
  - by destruct (r =? EOK).
  - by destruct (r =? EOK).
  - by destruct (r =? EOK).
  - destruct (PopCommand (the (controller a) w)) as [[cmd|] y]; [|done].
    split; [by apply upd_one; [apply PopCommand_core|]|]. destruct (cmd =? 0); [done|]. by destruct (cmd =? 1).
  - by destruct (r =? EOK).
  - split; [|done]. unfold SetResult_of. destruct (r =? EOK); [done|]. by apply upd_one.
  - destruct (running c !! i); [|done]. destruct (negb _); [done|]. by destruct completed.
Qed.

(** A step of the device at which nothing attaches. *)
Lemma device_calm o w :
  from_program o = false → (∀ pid, o ≠ Process.OpOpenAppletShim pid) → Process.enabled temp_directory o w →
  ¬ Process.null_stream o w → one_applet w → returns (handle o w) (calm w).
Proof.
  intros Hf Ho. apply (Process.handle_calm fopen temp_directory memory svc_error TerminateProcess SetExternalContentSource
    ClearExternalContentSource AttachSession TerminateProgram DebugActiveProcess TerminateDebugProcess).
  destruct o; try done. by destruct (Ho pid).
Qed.
Lemma device_ready o w :
  from_program o = false → Process.enabled temp_directory o w → ¬ Process.null_stream o w →
  Process.no_applet w → returns (handle o w) Process.no_applet.
Proof.
  intros Hf He Hn Hw. destruct o as [| | | | | | | | | |pid| | | | | | | | | | | | |].
  11: { cbn [Process.handle]. unfold Process.OpenAppletShim. destruct (has_control_process _) eqn:E; cbn [negb].
    - unfold Process.AttachHostProcess. by rewrite (proj1 (proj2 Hw)).
    - unfold Process.AttachControlProcess. rewrite E. cbn [returns].
      eapply Process.calm_no_applet; [exact Hw|]. apply Process.keeps_calm, Process.keeps_applets; [|done..|]; apply Hw. }
  all: eapply Process.returns_mono; [by apply device_calm; [..|apply Hw]|]; intros w1 H1; by eapply Process.calm_no_applet.
Qed.
Lemma device_one o w :
  Process.enabled temp_directory o w → ¬ Process.null_stream o w → one_applet w → returns (handle o w) one_applet.
Proof. apply (Process.handle_one fopen temp_directory memory svc_error TerminateProcess SetExternalContentSource
    ClearExternalContentSource AttachSession TerminateProgram DebugActiveProcess TerminateDebugProcess). Qed.

(** Code that is received into a file that could not be made. *)
Definition writes_null (a : act) (x : joint) : Prop :=
  match a with Device o => Process.null_stream o (dev x) | _ => False end.
Lemma perform_holds a x : can a x → ¬ writes_null a x → holds x → returns (perform a x) holds.
Proof.
  intros Ha Hn [Hw Hp]. destruct x as [p l left w]; cbn [prog lost left_control dev] in *.
  destruct a as [s|r completed| |k| |o]; cbn [perform prog lost left_control dev].
  - destruct p as [[[] c]|]; try by split. destruct s as [|k|k| |]; cbn [wake after returns].
    + split; [done|]. by destruct (process_queued_event _).
    + split; [done|]. by destruct (running c !! k).
    + split; [done|]. by destruct (running c !! k).
    + by split.
    + by split.
  - destruct p as [p|]; [|by split]. eapply returns_chain; [by apply advance_holds|]. intros [[p' l'] w'] H. exact H.
  - destruct p; [by split|]. destruct (has_control_process _); [by split|].
    eapply returns_chain; [apply (device_one (Process.OpOpenAppletShim 0)); [done|by intros []|done]|]. by intros w1 H1.
  - destruct (l !! k) as [q|]; [|by split]. eapply returns_chain; [by apply gone_calm|]. intros w1 H1.
    split; [apply H1|]. eapply ready_same; [|exact Hp]. intros Hno. by eapply Process.calm_no_applet.
  - destruct left; [|by split]. eapply returns_chain; [by apply ReleaseControlProcess_spec|]. intros w1 (H1 & _ & _ & H2).
    split; [done|]. by eapply ready_same.
  - destruct Ha as [Hf He]. apply (returns_chain _ _ (fun w1 => one_applet w1 ∧ ready_to_pop p w1)); [|done].
    apply Process.returns_and; [by apply device_one|]. destruct p as [[[] c]|]; cbn [ready_to_pop] in *;
      try by (eapply Process.returns_mono; [by apply device_one|]). by apply device_ready.
Qed.
Lemma perform_null a x : writes_null a x → perform a x = Undefined.
Proof.
  destruct a as [| | | | |o]; try done. intros H. cbn [perform]. by rewrite Process.handle_null.
Qed.
Lemma writes_null_dec a x : Decision (writes_null a x).
Proof. destruct a; cbn [writes_null]; try apply _. apply Process.null_stream_dec. Defined.

Lemma step_holds a x y : can a x → perform a x = Done y → holds x → holds y.
Proof.
  intros Ha E Hx. assert (Hn : ¬ writes_null a x) by (intros H%perform_null; congruence).
  pose proof (perform_holds a x Ha Hn Hx) as H. by rewrite E in H.
Qed.
Lemma moves_holds x : rtc moves start x → holds x.
Proof.
  revert x. apply (rtc_ind_r holds); [split; [apply Process.init_one|done]|].
  intros x y _ (a & Ha & E) Hx. by eapply step_holds.
Qed.
Lemma can_all_moves l x : can_all l x → ∃ y, serve l x = Done y ∧ rtc moves x y.
Proof.
  revert x. induction l as [|a l IH]; intros x; [by exists x|]. cbn [can_all serve]. intros [Ha H].
  destruct (perform a x) as [y| | | |] eqn:E; [|done..]. destruct (IH y H) as (z & Ez & Hz).
  exists z. split; [exact Ez|]. eapply rtc_l; [|exact Hz]. by exists a.
Qed.

(** C14: The control applet and the device work together safely, one call at a time.  However the
    program's calls, the signals it waits for, its ends and starts, the sessions it has closed and
    the device's own steps are interleaved, whatever the system answers: at most one applet has
    attached and not exited, none has while another is created, and when the program is about to
    pop a process the tracker is still ready, even if the process it was told of has gone in
    between.  No step goes on for ever, and none is undefined but the one that writes code into a
    file that could not be made. *)
Theorem control_and_device_safe x :
  rtc moves start x →
  (∀ p q, Process.live p (dev x) → Process.live q (dev x) → p = q) ∧
  (created (applets (dev x)) ≠ [] → ∀ p, ¬ Process.live p (dev x)) ∧
  (∀ c, prog x = Some (Popping, c) → created (applets (dev x)) = [] ∧ ∀ p, ¬ Process.live p (dev x)) ∧
  ∀ a, can a x → perform a x ≠ OutOfFuel ∧ (perform a x = Undefined ↔ writes_null a x).
Proof.
  intros Hr. pose proof (moves_holds x Hr) as Hx. pose proof Hx as [Hw Hp]. split_and!.
  - intros p q H1 H2. apply (Process.oa_live _ Hw) in H1, H2. congruence.
  - apply (Process.oa_alone _ Hw).
  - intros c E. rewrite E in Hp. apply Hp.
  - intros a Ha. destruct (writes_null_dec a x) as [Hn|Hn].
    + by rewrite perform_null.
    + pose proof (perform_holds a x Ha Hn Hx) as H. by destruct (perform a x).
Qed.

(** *** The handler of the tracker's event, without interruption *)

Lemma serve_app l1 l2 x : serve (l1 ++ l2) x = (y ← serve l1 x; serve l2 y).
Proof.
  revert x. induction l1 as [|a l1 IH]; intros x; [done|]. cbn [app serve].
  destruct (perform a x); cbn [mbind outcome_bind]; [apply IH|done..].
Qed.
Lemma serve_call r b p q left w p' l w' rest :
  advance r b p w = Done (Some p', l, w') →
  serve (Advance r b :: rest) (mk_joint (Some p) q left w) = serve rest (mk_joint (Some p') (q ++ l) left w').
Proof. intros E. cbn [serve perform prog dev]. by rewrite E. Qed.
Lemma serve_go r b p q left w p' w' rest :
  advance r b p w = Done (Some p', [], w') →
  serve (Advance r b :: rest) (mk_joint (Some p) q left w) = serve rest (mk_joint (Some p') q left w').
Proof. intros E. by rewrite (serve_call _ _ _ _ _ _ _ _ _ _ E), List.app_nil_r. Qed.
Lemma serve_lost c q p left w w' rest :
  gone p w = Done w' →
  serve (Lost (length q) :: rest) (mk_joint c (q ++ [p]) left w) = serve rest (mk_joint c q left w').
Proof.
  intros E. cbn [serve perform lost dev prog left_control]. rewrite lookup_app_r, Nat.sub_diag by done.
  cbn [lookup list_lookup]. rewrite E. cbn [mbind outcome_bind]. by rewrite delete_middle, List.app_nil_r.
Qed.
(** The acts the run is made of: the program's calls, and the device noticing what it closes. *)
Definition of_the_loop (a : act) : bool := match a with Advance _ _ | Lost _ => true | _ => false end.

Lemma create_run p c w e c1 w1 q left :
  create p c w = Done (e, c1, w1) →
  ∃ l, forallb of_the_loop l = true ∧ serve l (mk_joint (Some (Making p, c)) q left w) =
    Done (mk_joint (Some (match e with None => Asking | Some _ => Sweeping 0 end, c1)) q left w1).
Proof.
  unfold create, AssertOk. set (n := creations c). destruct (answer (CreateLibraryApplet n) =? EOK) eqn:E1; cbn [mbind outcome_bind].
  2:{ destruct (gone p w) as [w2| | | |] eqn:G; [|done..]. cbn [mbind outcome_bind]. intros [= <- <- <-].
    exists [Advance (answer (CreateLibraryApplet n)) false; Lost (length q)]. split; [done|].
    erewrite serve_call by (cbn [advance]; fold n; by rewrite E1). by rewrite (serve_lost _ _ _ _ _ _ _ G). }
  destruct (GetAppletStateChangedEvent n =? EOK) eqn:E2; cbn [mbind outcome_bind].
  2:{ destruct (gone p w) as [w2| | | |] eqn:G; [|done..]. cbn [mbind outcome_bind]. intros [= <- <- <-].
    exists [Advance EOK false; Advance (GetAppletStateChangedEvent n) false; Lost (length q)]. split; [done|].
    erewrite serve_go by done. erewrite serve_call by (cbn [advance]; by rewrite E2). by rewrite (serve_lost _ _ _ _ _ _ _ G). }
  intros [= <- <- <-]. exists [Advance EOK false; Advance EOK false; Advance (answer (StartApplet n)) false]. split; [done|].
  erewrite serve_go by done. erewrite serve_go by done. erewrite serve_go by done.
  by destruct (answer (StartApplet n) =? EOK).
Qed.
Lemma queue_loop_run fuel c w e c1 w1 q left :
  queue_loop fuel c w = Done (e, c1, w1) →
  ∃ l, forallb of_the_loop l = true ∧
    serve l (mk_joint (Some (Asking, c)) q left w) = Done (mk_joint (Some (Sweeping 0, c1)) q left w1).
Proof.
  revert c w. induction fuel as [|fuel IH]; intros c w; [done|]. cbn [queue_loop].
  destruct (GetCommand w =? EOK) eqn:Eg.
  2:{ intros [= <- <- <-]. exists [Advance EOK false]. split; [done|].
    by erewrite serve_go by (cbn [advance]; by rewrite Eg). }
  destruct (PopApplet w) as [[[code out] w2]| | | |] eqn:Ep; [|done..]. cbn [mbind outcome_bind].
  assert (Hpop : serve [Advance EOK false; Advance EOK false] (mk_joint (Some (Asking, c)) q left w) =
    Done (mk_joint (Some (match out with Some p => Making p | None =>
      if code =? TWILI_ERR_NO_LONGER_REQUESTED_TO_LAUNCH then Asking else Sweeping 0 end, c)) q left w2)).
  { erewrite serve_go by (cbn [advance]; by rewrite Eg). by erewrite serve_go by (cbn [advance]; by rewrite Ep). }
  destruct out as [p|].
  - destruct (create p c w2) as [[[e2 c2] w3]| | | |] eqn:Ec; [|done..]. cbn [mbind outcome_bind].
    destruct (create_run _ _ _ _ _ _ q left Ec) as (l & Hl & El). destruct e2.
    + intros [= <- <- <-]. exists ([Advance EOK false; Advance EOK false] ++ l). split; [done|]. by rewrite serve_app, Hpop.
    + intros (l' & Hl' & El')%IH. exists ([Advance EOK false; Advance EOK false] ++ l ++ l'). split.
      * by rewrite !forallb_app, Hl, Hl'.
      * rewrite serve_app, Hpop. cbn [mbind outcome_bind]. by rewrite serve_app, El.
  - destruct (code =? _).
    + intros (l' & Hl' & El')%IH. exists ([Advance EOK false; Advance EOK false] ++ l'). split; [done|].
      by rewrite serve_app, Hpop.
    + intros [= <- <- <-]. exists [Advance EOK false; Advance EOK false]. by split.
Qed.
(** The handler run at once is a run of the steps. *)
Theorem queue_is_a_run c w c1 w1 q left :
  process_queued_event (applets w) = true → process_queued c w = Done (None, c1, w1) →
  ∃ l, forallb of_the_loop l = true ∧
    serve (Wake ProcessQueued :: Advance EOK false :: l) (mk_joint (Some (Waiting, c)) q left w) =
      Done (mk_joint (Some (Sweeping 0, c1)) q left w1).
Proof.
  intros Hev. unfold process_queued. rewrite Hev.
  destruct (queue_loop queue_fuel c (ResetSignal w)) as [[[e c2] w2]| | | |] eqn:E; [|done..].
  cbn [mbind outcome_bind]. intros [= <- <-]. apply (queue_loop_run _ _ _ _ _ _ q left) in E as (l & Hl & El).
  exists l. split; [done|]. change (serve (Wake ProcessQueued :: ?l) ?x) with (y ← perform (Wake ProcessQueued) x; serve l y).
  cbn [perform prog dev wake]. rewrite Hev. cbn [after lost left_control mbind outcome_bind]. rewrite List.app_nil_r.
  by erewrite serve_go by done.
Qed.

(** What a queued process needs to be launched. *)
Definition launchable (p : nat) (w : world) : Prop :=
  Process.exit_pending (Process.launching (the p w)) = false ∧
  (∃ nro out, Process.files (Process.codes (the p w)) = [nro] ∧ Files.Create nro = Done (EOK, out)) ∧
  SetExternalContentSource p = EOK ∧ AttachSession p = EOK.

Lemma pop_first p l w :
  queued (applets w) = p :: l → launchable p w →
  ∃ w', PopApplet w = Done (EOK, Some p, w') ∧ queued (applets w') = l ∧
    created (applets w') = created (applets w) ++ [p] ∧
    process_queued_event (applets w') = process_queued_event (applets w) ∧
    Process.log w' = Process.log w ++ [Process.CallSetECS p].
Proof.
  intros Eq (H1 & (nro & out & H2 & H3) & H4 & H5). unfold Process.PopApplet, Process.PopQueuedProcess.
  cbn [Process.pop_queued]. rewrite Eq. set (w1 := on_applets (set_queued l) w).
  rewrite (Process.PrepareForLaunch_ok _ _ _ _ _ _ _ p w1 nro out) by done.
  cbn [mbind outcome_bind]. eexists. split; [reflexivity|]. by split_and!.
Qed.

(** *** A queued process is started *)

Lemma own_acts_app l1 l2 : own_acts (l1 ++ l2) = own_acts l1 ++ own_acts l2.
Proof. apply List.filter_app. Qed.
(** The device's acts before the program's next, and the rest. *)
Lemma own_acts_cons l a rest :
  own_acts l = a :: rest → ∃ l1 l2, l = l1 ++ a :: l2 ∧ own_acts l1 = [] ∧ own_acts l2 = rest.
Proof.
  induction l as [|b l IH]; [done|]. unfold own_acts in *. cbn [List.filter].
  destruct (by_device b) eqn:E; cbn [negb].
  - intros (l1 & l2 & -> & H1 & H2)%IH. exists (b :: l1), l2. split_and!; [done| |done]. cbn [List.filter]. by rewrite E.
  - intros [= -> <-]. by exists [], l.
Qed.
Lemma can_all_app l1 l2 x y : can_all (l1 ++ l2) x → serve l1 x = Done y → can_all l1 x ∧ can_all l2 y.
Proof.
  revert x. induction l1 as [|a l1 IH]; intros x; cbn [app can_all serve]; [by intros H [= <-]|].
  intros [Ha H]. destruct (perform a x) as [z| | | |]; [|done..]. intros E. destruct (IH z H E). by split.
Qed.
Lemma serve_app_inv l1 l2 x z : serve (l1 ++ l2) x = Done z → ∃ y, serve l1 x = Done y ∧ serve l2 y = Done z.
Proof. rewrite serve_app. destruct (serve l1 x) as [y| | | |]; [|done..]. by exists y. Qed.

(** The device's acts leave the program where it is, and no more is created unless a shim attaches
    or the control session is lost. *)
Lemma device_act a x y :
  by_device a = true → can a x → perform a x = Done y → holds x →
  prog y = prog x ∧ (undisturbed a → created (applets (dev y)) = created (applets (dev x))).
Proof.
  intros Hb Ha E Hx. assert (Hn : ¬ writes_null a x) by (intros H%perform_null; congruence).
  destruct a as [| | |k| |o]; try done; cbn [perform] in E.
  - destruct (lost x !! k); [|by injection E as <-]. pose proof (gone_calm n (dev x) (proj1 Hx)) as H.
    destruct (gone n (dev x)) as [w1| | | |]; [|done..]. injection E as <-. split; [done|]. intros _. apply H.
  - destruct (left_control x); [|by injection E as <-]. destruct (ReleaseControlProcess _); [|done..].
    injection E as <-. by split.
  - destruct (handle o (dev x)) as [w1| | | |] eqn:Eh; [|done..]. injection E as <-. split; [done|]. intros Hu.
    destruct Ha as [Hf He].
    assert (H : returns (handle o (dev x)) (calm (dev x))) by (apply device_calm; [done|by intros pid ->|done|done|apply Hx]).
    rewrite Eh in H. apply H.
Qed.
Lemma device_acts l x y :
  own_acts l = [] → can_all l x → serve l x = Done y → holds x →
  holds y ∧ prog y = prog x ∧ (Forall undisturbed l → created (applets (dev y)) = created (applets (dev x))).
Proof.
  revert x. induction l as [|a l IH]; intros x; cbn [can_all serve]; [by intros _ _ [= <-]|].
  unfold own_acts. cbn [List.filter]. destruct (by_device a) eqn:Hb; [|done]. cbn [negb]. intros Ho [Ha H].
  destruct (perform a x) as [z| | | |] eqn:E; [|done..]. cbn [mbind outcome_bind]. intros Ey Hx.
  destruct (device_act a x z Hb Ha E Hx) as [Hp Hc].
  destruct (IH z Ho H Ey (step_holds _ _ _ Ha E Hx)) as (H1 & H2 & H3).
  split; [exact H1|]. split; [congruence|].
  intros [Hu1 Hu2]%Forall_cons_1. rewrite (H3 Hu2). by apply Hc.
Qed.
(** The program's next call, with what the device does before. *)
Lemma next_call l r b rest x z p p' :
  own_acts l = Advance r b :: rest → can_all l x → serve l x = Done z → holds x → prog x = Some p →
  (∀ w, advance r b p w = Done (Some p', [], w)) →
  ∃ l' y, own_acts l' = rest ∧ can_all l' y ∧ serve l' y = Done z ∧ holds y ∧ prog y = Some p' ∧
    (Forall undisturbed l → Forall undisturbed l' ∧ created (applets (dev y)) = created (applets (dev x))).
Proof.
  intros (l1 & l2 & -> & H1 & H2)%own_acts_cons Hc E Hx Hp Hstep.
  apply serve_app_inv in E as (y & E1 & E2). destruct (can_all_app _ _ _ _ Hc E1) as [Hc1 Hc2].
  destruct (device_acts l1 x y H1 Hc1 E1 Hx) as (Hy & Py & Cy). cbn [can_all serve] in Hc2, E2.
  destruct Hc2 as [Ha Hc2].
  assert (Ep : perform (Advance r b) y = Done (mk_joint (Some p') (lost y ++ []) (left_control y) (dev y))).
  { cbn [perform]. rewrite Py, Hp, Hstep. done. }
  pose proof (step_holds _ _ _ Ha Ep Hy) as Hz. rewrite Ep in Hc2, E2. exists l2, (mk_joint (Some p') (lost y ++ []) (left_control y) (dev y)).
  do 3 (split; [done|]). split; [exact Hz|]. split; [done|]. intros [Hu1 Hu2]%Forall_app. apply Forall_cons_1 in Hu2 as [_ Hu2]. split; [done|]. by apply Cy.
Qed.

(** C22: A queued process is started, once.  The program is told that the tracker is ready; the
    device goes on; when the program pops and the process at the front of the queue can be
    launched, that is the one it gets.  However the device's steps lie between the program's next
    three calls, if the system grants them, the program has then asked for exactly one applet, started
    it and put it with that process in its list.  While no shim has attached and the control session
    is there, that process alone is created, so the program is told to pop nothing more. *)
Theorem queued_applet_started p q c x x1 waits steps y :
  holds x → prog x = Some (Asking, c) → GetCommand (dev x) = EOK →
  own_acts waits = [] → can_all (Advance EOK false :: waits) x → serve (Advance EOK false :: waits) x = Done x1 →
  queued (applets (dev x1)) = p :: q → launchable p (dev x1) →
  own_acts steps = [Advance EOK false; Advance EOK false; Advance EOK false] →
  can_all (Advance EOK false :: steps) x1 → serve (Advance EOK false :: steps) x1 = Done y →
  (∃ x2, perform (Advance EOK false) x1 = Done x2 ∧ prog x2 = Some (Making p, c) ∧
     queued (applets (dev x2)) = q ∧ created (applets (dev x2)) = [p]) ∧
  (∃ c', prog y = Some (Asking, c') ∧
     running c' = running c ++ [mk_controlled (creations c) p] ∧
     calls c' = calls c ++ [CreateLibraryApplet (creations c); StartApplet (creations c)]) ∧
  (Forall undisturbed steps → created (applets (dev y)) = [p] ∧ GetCommand (dev y) ≠ EOK).
Proof.
  intros Hx Hp Hg Hw Hc E Eq Hl Hs Hc' E'.
  (* the program is told to pop, and waits *)
  cbn [can_all serve] in Hc, E. destruct Hc as [Ha Hc].
  assert (Ep : perform (Advance EOK false) x = Done (mk_joint (Some (Popping, c)) (lost x ++ []) (left_control x) (dev x))).
  { cbn [perform]. rewrite Hp. cbn [advance]. by rewrite Hg. }
  pose proof (step_holds _ _ _ Ha Ep Hx) as Hz. rewrite Ep in Hc, E.
  destruct (device_acts _ _ _ Hw Hc E Hz) as (H1 & P1 & _).
  (* it pops *)
  destruct (pop_first p q (dev x1) Eq Hl) as (w2 & E2 & Q2 & C2 & _).
  assert (Hempty : created (applets (dev x1)) = []).
  { destruct H1 as [_ H1]. rewrite P1 in H1. apply H1. }
  rewrite Hempty in C2. cbn [can_all serve] in Hc', E'. destruct Hc' as [Ha' Hc'].
  assert (Ep' : perform (Advance EOK false) x1 = Done (mk_joint (Some (Making p, c)) (lost x1 ++ []) (left_control x1) w2)).
  { cbn [perform]. rewrite P1. cbn [prog advance]. by rewrite E2. }
  split; [eexists; split; [exact Ep'|done]|]. pose proof (step_holds _ _ _ Ha' Ep' H1) as H2. rewrite Ep' in Hc', E'.
  (* it asks for the applet, adds it and starts it *)
  destruct (next_call _ _ _ _ _ _ (Making p, c) _ Hs Hc' E' H2 eq_refl (fun _ => eq_refl)) as (l3 & y3 & O3 & K3 & E3 & H3 & P3 & U3).
  destruct (next_call _ _ _ _ _ _ _ _ O3 K3 E3 H3 P3 (fun _ => eq_refl)) as (l4 & y4 & O4 & K4 & E4 & H4 & P4 & U4).
  destruct (next_call _ _ _ _ _ _ _ _ O4 K4 E4 H4 P4 (fun _ => eq_refl)) as (l5 & y5 & O5 & K5 & E5 & H5 & P5 & U5).
  destruct (device_acts _ _ _ O5 K5 E5 H5) as (H6 & P6 & U6). split.
  - rewrite P6, P5. eexists. split; [reflexivity|]. split; [done|]. cbn. by rewrite <- app_assoc.
  - intros (V3 & F3)%U3. destruct (U4 V3) as (V4 & F4). destruct (U5 V4) as (V5 & F5). specialize (U6 V5).
    assert (Hy : created (applets (dev y)) = [p]) by (rewrite U6, F5, F4, F3; exact C2). split; [done|].
    apply Z.eqb_neq, (created_not_ready p). rewrite Hy. by apply list_elem_of_singleton.
Qed.


(** An applet the system refuses to create leaves its process created: nothing may be launched. *)
Theorem refused_applet_blocks p l c w code :
  one_applet w → (p < length (procs w))%nat →
  process_queued_event (applets w) = true → GetCommand w = EOK → queued (applets w) = p :: l → launchable p w →
  answer (CreateLibraryApplet (creations c)) = code → code ≠ EOK →
  returns (process_queued c w) (fun '(e, c', w') =>
    e = None ∧ running c' = running c ∧ created (applets w') = [p] ∧ GetCommand w' ≠ EOK).
Proof.
  intros Hw Hlt Hev Hg Eq Hl Ha Hc. unfold process_queued. rewrite Hev.
  destruct (pop_first p l (ResetSignal w)) as (w1 & Hp & Q & Cr & Ev & _); [done|done|].
  assert (Hempty : created (applets w) = []).
  { unfold GetCommand, ReadyToLaunch in Hg. by destruct (created (applets w)). }
  change (created (applets (ResetSignal w))) with (created (applets w)) in Cr. rewrite Hempty in Cr.
  assert (Hg' : GetCommand (ResetSignal w) = EOK) by done.
  pose proof (PopApplet_spec (ResetSignal w) (GetCommand_ready _ (reset_one w Hw) Hg')) as H1. rewrite Hp in H1. destruct H1 as [H1 _]. cbn [snd] in H1.
  cbn [queue_loop queue_fuel]. rewrite (proj2 (Z.eqb_eq _ _) Hg'), Hp. cbn [mbind outcome_bind].
  unfold create, AssertOk. rewrite Ha, (proj2 (Z.eqb_neq _ _) Hc).
  pose proof (gone_calm p w1 H1) as H2. destruct (gone p w1) as [w2| | | |]; [|done..]. cbn [mbind outcome_bind returns] in *.
  assert (Hcr : created (applets w2) = [p]) by (by rewrite (Process.calm_created _ _ H2)).
  split_and!; [done..|]. apply Z.eqb_neq, (created_not_ready p). rewrite Hcr. by apply list_elem_of_singleton.
Qed.

(** The answer the program is prepared for never comes: a process that is no longer wanted is
    skipped, and at the end of the queue the menu is handed out. *)
Theorem pop_never_says_gone x c r b y :
  prog x = Some (Popping, c) → perform (Advance r b) x = Done y → prog y ≠ Some (Asking, c).
Proof.
  intros Hp. cbn [perform]. rewrite Hp. cbn [advance]. pose proof (pop_popped (S (S (length (queued (applets (dev x)))))) (dev x)) as H.
  change (Process.ends (PopApplet (dev x)) popped) in H.
  destruct (PopApplet (dev x)) as [[[code [p|]] w1]| | | |] eqn:E; [| |done..]; cbn [mbind outcome_bind]; intros [= <-]; [done|].
  assert (Hc : code ≠ TWILI_ERR_NO_LONGER_REQUESTED_TO_LAUNCH) by exact (H _ eq_refl).
  cbn [after prog]. by rewrite (proj2 (Z.eqb_neq _ _) Hc).
Qed.

(** The end of the control applet ends what it controls.  When the program has ended and the device
    has noticed the sessions it closed, every process it controlled and every process that waited
    for its shim has exited; the tracker holds none, and processes that had exited stay so. *)
Theorem control_end_exits_all x :
  holds x → prog x = None → left_control x = true →
  returns (serve (replicate (length (lost x)) (Lost 0) ++ [LostControl]) x) (fun y =>
    holds y ∧ lost y = [] ∧ left_control y = false ∧ created (applets (dev y)) = [] ∧
    ∀ p, (p < length (procs (dev x)))%nat →
      state (the p (dev x)) = Exited ∨ p ∈ lost x ∨ p ∈ created (applets (dev x)) →
      state (the p (dev y)) = Exited).
Proof.
  destruct x as [pr l left w]. cbn [lost left_control prog dev]. intros [Hw _] -> ->. cbn [dev] in Hw.
  assert (Hall : serve (replicate (length l) (Lost 0) ++ [LostControl]) (mk_joint None l true w) =
    (w1 ← Process.exit_all fopen memory svc_error TerminateProcess ClearExternalContentSource l w;
     w2 ← ReleaseControlProcess w1; Done (mk_joint None [] false w2))).
  { clear Hw. revert w. induction l as [|p l IH]; intros w.
    - cbn. by destruct (ReleaseControlProcess w).
    - cbn [replicate length app serve perform lost dev prog left_control lookup list_lookup delete list_delete Process.exit_all].
      unfold gone. destruct (ChangeState p Exited w) as [w1| | | |]; cbn [mbind outcome_bind]; [|done..]. apply IH. }
  rewrite Hall. eapply returns_chain; [by apply exit_all_spec|]. intros w1 (H1 & Ec & Hl1 & He1).
  eapply returns_chain; [by apply ReleaseControlProcess_spec|]. intros w2 (H2 & E2 & (Hl2 & He2) & _).
  cbn [returns lost left_control dev prog]. split; [by split|]. do 3 (split; [done|]). intros p Hp Hor. apply He2; [lia|].
  rewrite Ec. destruct Hor as [H|[H|H]]; [left; apply He1; auto..|by right].
Qed.

End control.

(** *** Examples *)

Definition ex_answer (e : call) : Z := EOK.
#[local] Notation ex_perform := (perform Process.ex_fopen "/tmp" Process.ex_memory 1 Process.ok Process.ok Process.ok Process.ok
  Process.ok Process.ok Process.ok).
Definition ex_serve (l : list act) : joint :=
  match serve Process.ex_fopen "/tmp" Process.ex_memory 1 Process.ok Process.ok Process.ok Process.ok Process.ok Process.ok Process.ok
    l start with Done x => x | _ => start end.
(** The next call, which the system grants; and no applet is done. *)
Definition next : act := Advance EOK false.
Definition ex_launched : list act :=
  [StartProgram; Device (Process.OpCreate "applet" 1); Device (Process.OpAppendCode 0 true);
   Device (Process.OpCodeReceived 0 2 "/sd/tmp/file_0.nro"); Device (Process.OpLaunch false 0 3)].
(** The program is about to ask for a command. *)
Definition ex_asking : list act := ex_launched ++ [Wake ProcessQueued; next].
Definition ex_control (x : joint) : control := match prog x with Some (_, c) => c | None => mk_control [] 0 [] end.

Lemma ex_safe l : can_all Process.ex_fopen "/tmp" Process.ex_memory 1 Process.ok Process.ok Process.ok Process.ok
    Process.ok Process.ok Process.ok l start →
  rtc (moves Process.ex_fopen "/tmp" Process.ex_memory 1 Process.ok Process.ok Process.ok Process.ok Process.ok Process.ok
    Process.ok) start (ex_serve l).
Proof. intros (y & E & H)%can_all_moves. unfold ex_serve. by rewrite E. Qed.
Ltac can_go := apply ex_safe; vm_compute; split_and!; try done; by exists 0%N.

(** The shim attaches before the program has started the applet's neighbour; and the client goes
    between GetCommand and PopApplet. *)
Definition ex_started : list act := ex_asking ++ [next; next; next; next; next; Device (Process.OpOpenAppletShim 81)].
Definition ex_between : list act := ex_asking ++ [next; Device (Process.OpDestroy 0)].
Lemma control_and_device_safe_witness :
  let x := ex_serve ex_started in let y := ex_serve ex_between in
  Process.live 0 (dev x) ∧ (∀ p, Process.live p (dev x) → p = 0%nat) ∧
  prog y = Some (Popping, ex_control y) ∧ created (applets (dev y)) = [] ∧ ex_perform next y ≠ Undefined ∧
  match ex_perform next y with Done z => bool_decide (created (applets (dev z)) = [1%nat]) | _ => false end = true.
Proof.
  intros x y. assert (H0 : Process.live 0 (dev x)) by (split_and!; vm_compute; discriminate || reflexivity).
  assert (Hp : prog y = Some (Popping, ex_control y)) by (vm_compute; reflexivity).
  destruct (control_and_device_safe Process.ex_fopen "/tmp" Process.ex_memory 1 Process.ok Process.ok Process.ok Process.ok
    Process.ok Process.ok Process.ok x) as (H1 & _); [can_go|].
  destruct (control_and_device_safe Process.ex_fopen "/tmp" Process.ex_memory 1 Process.ok Process.ok Process.ok Process.ok
    Process.ok Process.ok Process.ok y) as (_ & _ & H3 & H4); [can_go|].
  destruct (H3 _ Hp) as [Hc _]. destruct (H4 next I) as [_ [Hu _]].
  assert (Hd : match ex_perform next y with Done z => bool_decide (created (applets (dev z)) = [1%nat]) | _ => false end = true) by (vm_compute; reflexivity).
  clear H3 H4. clearbody x y. split; [exact H0|]. split; [intros p Hp'; exact (H1 p 0%nat Hp' H0)|]. split; [exact Hp|].
  split; [exact Hc|]. split; [|exact Hd]. intros H. exact (Hu H).
Defined.

(** A second client's process is queued, and the shim attaches, between the program's calls. *)
Definition ex_waits : list act := [Device (Process.OpCreate "applet" 4)].
Definition ex_steps : list act :=
  [next; Device (Process.OpAppendCode 1 true); next; Device Process.OpPrune; next].
Lemma queued_applet_started_witness :
  let x := ex_serve ex_asking in
  let y := ex_serve (ex_asking ++ next :: ex_waits ++ next :: ex_steps) in
  running (ex_control y) = [mk_controlled 0 0] ∧ created (applets (dev y)) = [0%nat].
Proof.
  intros x y.
  destruct (queued_applet_started Process.ex_fopen "/tmp" Process.ex_memory 1 Process.ok Process.ok Process.ok Process.ok
    Process.ok Process.ok Process.ok 0 [] (ex_control x) x (ex_serve (ex_asking ++ next :: ex_waits)) ex_waits ex_steps y)
    as (_ & (c' & Hc & R & _) & C).
  - eapply moves_holds. can_go.
  - vm_compute; reflexivity.
  - vm_compute; reflexivity.
  - reflexivity.
  - vm_compute; split_and!; done.
  - vm_compute; reflexivity.
  - vm_compute; reflexivity.
  - split; [vm_compute; reflexivity|]. split; [|split; reflexivity].
    destruct (Files.Create (Files.mk_ActualFile Process.ex_file None)) as [[r out]| | | |] eqn:E; [|vm_compute in E; discriminate..].
    exists (Files.mk_ActualFile Process.ex_file None), out. split; [vm_compute; reflexivity|]. rewrite E. f_equal. f_equal.
    transitivity (match Files.Create (Files.mk_ActualFile Process.ex_file None) with Done (r, _) => r | _ => 1 end);
      [by rewrite E|vm_compute; reflexivity].
  - reflexivity.
  - vm_compute; split_and!; done.
  - vm_compute; reflexivity.
  - split.
    + unfold ex_control. rewrite Hc, R. vm_compute. reflexivity.
    + apply C. repeat constructor.
Defined.


(** The client has gone, and the applet does not take the request to exit: the program ends, and
    the device notices. *)
Definition ex_ended : list act :=
  ex_started ++ [next; Wake NothingSignalled; next; next; Device (Process.OpDestroy 0); Wake (ControllerEvent 0); next;
    Advance 5 false].
Example ex_end :
  let x := ex_serve ex_ended in let y := ex_serve (ex_ended ++ [Lost 0; LostControl]) in
  (prog x, lost x, left_control x) = (None, [0%nat], true) ∧ state (the 0 (dev x)) ≠ Exited ∧
  state (the 0 (dev y)) = Exited ∧ has_control_process (applets (dev y)) = false.
Proof. vm_compute. by split_and!. Qed.

End AppletControl.
