(* ===== verification/ToolClient.v ===== *)
(** * twib/tool: the client of the daemon, remote objects and their calls

    [SendSmartSyncRequest] packs a call's arguments, sends them under a fresh tag and waits;
    the event thread finds the callback of a response's tag ([PostResponse]); the call unpacks
    its results.  Template parameters are data, as in [Request] and [Response]: a value, what
    is to be unpacked ([kind]), and a parameter of a call, [in], [out] or [out_object].

    What the client does is a list of [event]s; its threads' steps are [op]s, in any order.  A
    thread that sends a request tests [failed], then enters its callback into the map under
    the lock, then sends ([callers] are those in between); the event thread answers, or, when
    the connection has failed, calls and erases the callbacks one by one without the lock
    ([failing]): a thread that enters a callback meanwhile races with it, which is undefined.
    [FailAllRequests] starts again whenever the event loop wakes up after the failure.  Reads
    of the plain [bool failed] are taken to be atomic.  A [RemoteObject] that is destroyed
    closes its object with a request it waits for; on the event thread, that wait is
    [waiting], after which the thread handles nothing more.  How a thread waits for its
    callback is [sync_step].  The random numbers and the largest allocation that succeeds are
    arguments.  The packed form of msgpack values is their bytes. *)
From S2P Require Import Prelude Err Protocol Request Response.
Import Protocol.

Module ToolClient.
Import Err.

(** ** Packing *)

(** A vector of plain data is its size and the bytes of its elements. *)
Inductive value : Type :=
| Elements (size : Z) (raw : bytes)
| Values (l : list value)
| Text (l : bytes)
| Dump (l : bytes)
| Plain (l : bytes).

Inductive kind : Type :=
| KVector (element_size : Z)
| KVectorOf (k : kind)
| KString
| KMsgPack
| KPlain (size : Z).

(** [PackingHelper<T>::Pack] *)
Fixpoint Pack (v : value) (input_buffer : bytes) : bytes :=
  match v with
  | Elements n raw => input_buffer ++ le_split 8 n ++ raw
  | Values l =>
      foldl (fun input_buffer v => Pack v input_buffer) (input_buffer ++ le_split 8 (zlen l)) l
  | Text l | Dump l => input_buffer ++ le_split 8 (zlen l) ++ l
  | Plain l => input_buffer ++ l
  end.

Section unpacking.
Context (heap : Z).
(** The size of an element that is not plain data. *)
Context (object_size : Z).

(** A string is read in full or not at all. *)
Definition Unpack_string (output_buffer : bytes) : option bytes * bytes :=
  match Request.read 8 output_buffer with
  | None => (None, output_buffer)
  | Some (n, output_buffer) =>
      match Request.read (le_combine n) output_buffer with
      | None => (None, output_buffer)
      | Some (l, output_buffer) => (Some l, output_buffer)
      end
  end.

(** [PackingHelper<T>::Unpack] *)
Fixpoint Unpack (k : kind) (output_buffer : bytes) : outcome (option value * bytes) :=
  match k with
  | KVector element_size =>
      match Request.read 8 output_buffer with
      | None => Done (None, output_buffer)
      | Some (n, output_buffer) =>
          let size := le_combine n in
          _ ← Request.allocate heap element_size size;
          match Request.read (size * element_size) output_buffer with
          | None => Done (None, output_buffer)
          | Some (raw, output_buffer) => Done (Some (Elements size raw), output_buffer)
          end
      end
  | KVectorOf k =>
      match Request.read 8 output_buffer with
      | None => Done (None, output_buffer)
      | Some (n, output_buffer) =>
          let size := le_combine n in
          _ ← Request.allocate heap object_size size;
          '(l, output_buffer) ←
            (fix each (i : nat) (output_buffer : bytes) : outcome (option (list value) * bytes) :=
               match i with
               | O => Done (Some [], output_buffer)
               | S i =>
                   '(v, output_buffer) ← Unpack k output_buffer;
                   match v with
                   | None => Done (None, output_buffer)
                   | Some v =>
                       '(l, output_buffer) ← each i output_buffer;
                       Done (option_map (cons v) l, output_buffer)
                   end
               end) (Z.to_nat size) output_buffer;
          Done (option_map Values l, output_buffer)
      end
  | KString => let '(l, output_buffer) := Unpack_string output_buffer in Done (option_map Text l, output_buffer)
  | KMsgPack => let '(l, output_buffer) := Unpack_string output_buffer in Done (option_map Dump l, output_buffer)
  | KPlain size =>
      match Request.read size output_buffer with
      | None => Done (None, output_buffer)
      | Some (l, output_buffer) => Done (Some (Plain l), output_buffer)
      end
  end.

(** ** Messages *)

Record RemoteObject : Type := mk_RemoteObject { o_device : Z; o_object : Z }.

Record request : Type := mk_request {
  rq_device : Z; rq_object : Z; rq_command : Z; rq_tag : Z; rq_payload : bytes }.
Record response : Type := mk_response {
  r_device : Z; r_object : Z; result_code : Z; r_tag : Z; r_payload : bytes;
  r_objects : list RemoteObject }.

(** ** Calls *)

Inductive param : Type := In (v : value) | Out (k : kind) | OutObject.
Inductive result : Type := Got (v : value) | GotObject (o : RemoteObject).

(** [WrappingHelper::Pack] of the arguments in order. *)
Definition pack_params (args : list param) : bytes :=
  foldl (fun input_buffer p => match p with In v => Pack v input_buffer | _ => input_buffer end)
    [] args.

(** [WrappingHelper::Unpack] of the arguments in order, up to the first that fails. *)
Fixpoint unpack_params (args : list param) (output_buffer : bytes) (objects : list RemoteObject) :
    outcome (list result * bool) :=
  match args with
  | [] => Done ([], true)
  | In _ :: args => unpack_params args output_buffer objects
  | Out k :: args =>
      '(v, output_buffer) ← Unpack k output_buffer;
      match v with
      | None => Done ([], false)
      | Some v => '(l, ok) ← unpack_params args output_buffer objects; Done (Got v :: l, ok)
      end
  | OutObject :: args =>
      match Request.read 4 output_buffer with
      | None => Done ([], false)
      | Some (index, output_buffer) =>
          match objects !! Z.to_nat (le_combine index) with
          | None => Done ([], false)
          | Some o => '(l, ok) ← unpack_params args output_buffer objects; Done (GotObject o :: l, ok)
          end
      end
  end.

(** [SendSmartSyncRequestWithoutAssert], after the wait: the code, and the results. *)
Definition sync_result (args : list param) (r : response) : outcome (Z * list result) :=
  if negb (result_code r =? 0) then Done (result_code r, [])
  else
    '(l, ok) ← unpack_params args (r_payload r) (r_objects r);
    if ok : bool then Done (0, l) else Throws (ResultError TWILI_ERR_PROTOCOL_BAD_RESPONSE).
(** [SendSmartSyncRequest] *)
Definition checked_result (args : list param) (r : response) : outcome (list result) :=
  '(code, l) ← sync_result args r;
  if negb (code =? 0) then Throws (ResultError code) else Done l.
(** [SendSmartRequest]'s callback has the arguments by reference; they are gone by the time it
    is called.  [in] parameters are not looked at, [out] ones are written through a reference
    that is in the parameter that is gone, [out_object] ones when there is an object. *)
Fixpoint unpack_gone (args : list param) (output_buffer : bytes) (objects : list RemoteObject) :
    outcome bool :=
  match args with
  | [] => Done true
  | In _ :: args => unpack_gone args output_buffer objects
  | Out _ :: _ => Undefined
  | OutObject :: _ =>
      match Request.read 4 output_buffer with
      | None => Done false
      | Some (index, _) =>
          match objects !! Z.to_nat (le_combine index) with None => Done false | Some _ => Undefined end
      end
  end.
(** What the callback calls the user's function with: an error's code first, which does not end
    it, and then what comes of the unpacking. *)
Definition async_calls (args : list param) (r : response) : list Z * outcome Z :=
  (if negb (result_code r =? 0) then [result_code r] else [],
   ok ← unpack_gone args (r_payload r) (r_objects r);
   Done (if ok : bool then 0 else TWILI_ERR_PROTOCOL_BAD_RESPONSE)).

(** The wait of [SendSyncRequestWithoutAssert]: the thread looks at the answer ([while(!rs)])
    and sleeps in [condvar.wait]; the callback, called once on another thread or on its own,
    stores the answer and wakes it up. *)
Inductive sync_thread : Type := Looking | Sleeping | Asleep | Returned.
Record sync : Type := mk_sync { s_thread : sync_thread; s_answer : bool }.
Inductive sync_op : Type := SyncLook | SyncSleep | SyncAnswer.
Definition sync_init : sync := mk_sync Looking false.
Definition sync_step (o : sync_op) (s : sync) : sync :=
  match o, s_thread s with
  | SyncLook, Looking => mk_sync (if s_answer s then Returned else Sleeping) (s_answer s)
  | SyncSleep, Sleeping => mk_sync Asleep (s_answer s)
  | SyncAnswer, Asleep => mk_sync Looking true
  | SyncAnswer, th => mk_sync th true
  | _, _ => s
  end.
Definition sync_run (l : list sync_op) (s : sync) : sync := foldl (fun s o => sync_step o s) s l.

(** ** Client *)

(** A call's callback, by its number, or that of the request that closes an object; what is
    sent is noted with the callback that waits for its response. *)
Inductive callback : Type := Call (n : nat) | Close (o : RemoteObject).
#[local] Instance RemoteObject_eq_dec : EqDecision RemoteObject.
Proof. solve_decision. Defined.
#[local] Instance callback_eq_dec : EqDecision callback.
Proof. solve_decision. Defined.

Inductive event : Type :=
| Sent (f : callback) (m : message)
| Called (f : callback) (r : response).

(** A thread in [SendRequest], past the test of [failed]; [cl_tagged]: its callback is entered. *)
Record caller : Type := mk_caller {
  cl_request : request; cl_callback : callback; cl_tagged : bool }.

Record client : Type := mk_client {
  response_map : omap callback;
  failed : bool;
  fail_code : Z;
  draws : nat;                       (* of the random device *)
  waiting : option RemoteObject;     (* the event thread, in a destructor *)
  callers : list caller;
  failing : bool }.                  (* the event thread, in the loop of FailAllRequests *)

(** [std::random_device] *)
Context (rng : nat → Z).
(** The field of a header that is never set. *)
Context (junk_pad : Z).

Definition init : client := mk_client [] false 0 0 None [] false.
Definition set_map (m : omap callback) (c : client) : client :=
  mk_client m (failed c) (fail_code c) (draws c) (waiting c) (callers c) (failing c).
Definition set_waiting (o : RemoteObject) (c : client) : client :=
  mk_client (response_map c) (failed c) (fail_code c) (draws c) (Some o) (callers c) (failing c).
Definition set_callers (l : list caller) (c : client) : client :=
  mk_client (response_map c) (failed c) (fail_code c) (draws c) (waiting c) l (failing c).

(** [SocketClient::SendRequestImpl] *)
Definition SendRequestImpl (f : callback) (rq : request) : event :=
  Sent f (mkMessage (mkHeader (rq_device rq) (rq_object rq) (rq_command rq) (rq_tag rq)
                     (zlen (rq_payload rq)) 0 junk_pad) (rq_payload rq) []).

Definition fail_response (code : Z) : response := mk_response 0 0 code 0 [] [].

(** [response_map[tag] = f] *)
Definition assign (tag : Z) (f : callback) (m : omap callback) : omap callback :=
  om_insert tag f (om_erase tag m).

(** Under the lock: a tag is drawn, and the callback entered under it. *)
Definition Register (rq : request) (f : callback) (c : client) : client * request :=
  let tag := rng (draws c) in
  (mk_client (assign tag f (response_map c)) (failed c) (fail_code c) (S (draws c)) (waiting c)
     (callers c) (failing c),
   mk_request (rq_device rq) (rq_object rq) (rq_command rq) tag (rq_payload rq)).

(** [Client::SendRequest] on the event thread, which alone fails requests. *)
Definition SendRequest (rq : request) (f : callback) (c : client) : client * list event :=
  if failed c then (c, [Called f (fail_response (fail_code c))])
  else let '(c, rq) := Register rq f c in (c, [SendRequestImpl f rq]).
(** [Client::SendRequest] on another thread, up to the lock. *)
Definition begin_request (rq : request) (f : callback) (c : client) : client * list event :=
  if failed c then (c, [Called f (fail_response (fail_code c))])
  else (set_callers (callers c ++ [mk_caller rq f false]) c, []).
(** The rest of it, for the thread [i]: the callback is entered, then the request is sent. *)
Definition resume (i : nat) (c : client) : outcome (client * list event) :=
  match callers c !! i with
  | None => Done (c, [])
  | Some w =>
      if cl_tagged w then
        Done (set_callers (delete i (callers c)) c, [SendRequestImpl (cl_callback w) (cl_request w)])
      else if failing c then Undefined
      else
        let '(c, rq) := Register (cl_request w) (cl_callback w) c in
        Done (set_callers (<[i := mk_caller rq (cl_callback w) true]> (callers c)) c, [])
  end.

(** [RemoteObject::SendRequest] *)
Definition object_request (o : RemoteObject) (command : Z) (payload : bytes) : request :=
  mk_request (o_device o) (o_object o) command 0 payload.
Definition close_request (o : RemoteObject) : request := object_request o CLOSE_OBJECT [].

(** [~RemoteObject] of these objects, on the event thread: it waits for a response only itself
    could receive. *)
Fixpoint destroy (l : list RemoteObject) (c : client) : client * list event :=
  match l with
  | [] => (c, [])
  | o :: l =>
      if o_object o =? 0 then destroy l c
      else
        let '(c, e) := SendRequest (close_request o) (Close o) c in
        if failed c then let '(c, e') := destroy l c in (c, e ++ e')
        else (set_waiting o c, e)
  end.

(** The loop that reads the object ids: whether there were enough. *)
Fixpoint read_objects (n : nat) (device : Z) (object_ids : bytes) (acc : list RemoteObject) :
    bool * list RemoteObject :=
  match n with
  | O => (true, acc)
  | S n =>
      match Request.read 4 object_ids with
      | None => (false, acc)
      | Some (id, object_ids) =>
          read_objects n device object_ids (acc ++ [mk_RemoteObject device (le_combine id)])
      end
  end.

Definition PostResponse (m : message) (c : client) : outcome (client * list event) :=
  let mh := m_header m in
  _ ← Request.allocate heap 16 (object_count mh);
  let '(enough, objects) := read_objects (Z.to_nat (object_count mh)) (device_id mh) (m_objects m) [] in
  if negb enough then Done (destroy objects c)
  else
    match om_find (tag mh) (response_map c) with
    | None => Done (destroy objects c)
    | Some f =>
        Done (set_map (om_erase (tag mh) (response_map c)) c,
              [Called f (mk_response (device_id mh) (object_id mh) (command_id mh) (tag mh)
                           (m_payload m) objects)])
    end.

(** [FailAllRequests] up to its loop, and one turn of the loop. *)
Definition FailAllRequests (code : Z) (c : client) : client :=
  mk_client (response_map c) true code (draws c) (waiting c) (callers c) true.
Definition fail_next (c : client) : client * list event :=
  match response_map c with
  | [] => (mk_client [] (failed c) (fail_code c) (draws c) (waiting c) (callers c) false, [])
  | (_, f) :: m => (set_map m c, [Called f (fail_response (fail_code c))])
  end.

(** ** The client's threads: what can happen next *)

Inductive op : Type :=
| OpCall (n : nat) (o : RemoteObject) (command : Z) (args : list param)
| OpDestroy (o : RemoteObject)       (* on a thread of the caller *)
| OpStep (i : nat)
| OpReceive (m : message)            (* the event thread, from here on *)
| OpError
| OpFailNext.

Definition handle (o : op) (c : client) : outcome (client * list event) :=
  match o with
  | OpCall n o command args =>
      Done (begin_request (object_request o command (pack_params args)) (Call n) c)
  | OpDestroy o =>
      Done (if o_object o =? 0 then (c, []) else begin_request (close_request o) (Close o) c)
  | OpStep i => resume i c
  | OpReceive m => PostResponse m c
  | OpError => Done (FailAllRequests TWILI_ERR_IO_ERROR c, [])
  | OpFailNext => Done (fail_next c)
  end.
(** The event thread handles nothing while it waits or fails requests. *)
Definition enabled (o : op) (c : client) : bool :=
  match o with
  | OpCall _ _ _ _ | OpDestroy _ | OpStep _ => true
  | OpReceive _ | OpError => negb (bool_decide (is_Some (waiting c))) && negb (failing c)
  | OpFailNext => failing c
  end.
Fixpoint run (l : list op) (c : client) : outcome (client * list event) :=
  match l with
  | [] => Done (c, [])
  | o :: l =>
      if enabled o c then
        '(c, e) ← handle o c; '(c, e') ← run l c; Done (c, e ++ e')
      else run l c
  end.

(** ** Specification *)

Definition tally {A} (p : A → bool) (l : list A) : nat := length (List.filter p l).
(** How often call [n] was made, has its callback in the map, is still on its way there, and
    was answered. *)
Definition calls (n : nat) (l : list op) : nat :=
  tally (fun o => match o with OpCall n' _ _ _ => bool_decide (n' = n) | _ => false end) l.
Definition held (n : nat) (c : client) : nat :=
  tally (fun p => bool_decide (p.2 = Call n)) (response_map c).
Definition begun (n : nat) (c : client) : nat :=
  tally (fun w => negb (cl_tagged w) && bool_decide (cl_callback w = Call n)) (callers c).
Definition answered (n : nat) (e : list event) : nat :=
  tally (fun e => match e with Called f _ => bool_decide (f = Call n) | _ => false end) e.

(** No tag is drawn twice, so far. *)
Definition tags_differ (c : client) : Prop :=
  ∀ i j, (i < draws c)%nat → (j < draws c)%nat → rng i = rng j → i = j.

(** The map is a map, and its keys are tags that were drawn. *)
Definition inv (c : client) : Prop :=
  om_sorted (response_map c) ∧
  ∀ t f, om_find t (response_map c) = Some f → ∃ i, (i < draws c)%nat ∧ rng i = t.
(** What an action does that makes call [n] [k] times. *)
Definition acts (n k : nat) (c c' : client) (e : list event) : Prop :=
  inv c → (draws c ≤ draws c')%nat ∧ inv c' ∧
    (answered n e + (held n c' + begun n c') ≤ held n c + begun n c + k)%nat ∧
    (tags_differ c' → (answered n e + (held n c' + begun n c') = held n c + begun n c + k)%nat).

(** A request with this tag was sent for [f], or is about to be. *)
Definition asked (f : callback) (t : Z) (e : list event) (c : client) : Prop :=
  (∃ m, Sent f m ∈ e ∧ tag (m_header m) = t) ∨
  (∃ w, w ∈ callers c ∧ cl_callback w = f ∧ cl_tagged w = true ∧ rq_tag (cl_request w) = t).
(** Who waits has asked with the tag it waits for, and who was answered got a response with
    the tag of a request of its own, or the failure of the connection. *)
Definition linked (e : list event) (c : client) : Prop :=
  (∀ t f, om_find t (response_map c) = Some f → asked f t e c) ∧
  (∀ f r, Called f r ∈ e → asked f (r_tag r) e c ∨ r = fail_response TWILI_ERR_IO_ERROR) ∧
  (failed c = true ∨ failing c = true → fail_code c = TWILI_ERR_IO_ERROR).

(** What the device's handler makes of an argument. *)
Definition as_arg (v : value) : option Request.arg :=
  match v with
  | Elements n raw => Some (Request.Vector n raw)
  | Text l => Some (Request.String l)
  | Plain l => Some (Request.Pod l)
  | _ => None
  end.
Definition ins (args : list param) : list value :=
  args ≫= (fun p => match p with In v => [v] | _ => [] end).

(** What the tool should read for what the device packs, if the kinds agree and it fits. *)
Fixpoint reads (k : kind) (v : Response.value) : option value :=
  match k, v with
  | KVector size, Response.VVector size' l =>
      if (size =? size') && (0 <? size) && forallb (fun e => zlen e =? size) l && (zlen l * size <=? heap)
      then Some (Elements (zlen l) (concat l)) else None
  | KVector 1, Response.VBuffer l => if zlen l <=? heap then Some (Elements (zlen l) l) else None
  | KVectorOf k, Response.VVectorOf l =>
      if (0 <? object_size) && (zlen l * object_size <=? heap) then option_map Values (mapM (reads k) l) else None
  | KString, Response.VString l => if zlen l <? 2 ^ 64 then Some (Text l) else None
  | KMsgPack, Response.VMsgPack l => if zlen l <? 2 ^ 64 then Some (Dump l) else None
  | KPlain size, Response.VPod l => if zlen l =? size then Some (Plain l) else None
  | _, _ => None
  end.
Fixpoint reads_params (args : list param) (vs : list Response.value) (device : Z) : option (list result) :=
  match args, vs with
  | [], [] => Some []
  | In _ :: args, vs => reads_params args vs device
  | Out k :: args, v :: vs =>
      match reads k v, reads_params args vs device with
      | Some w, Some l => Some (Got w :: l)
      | _, _ => None
      end
  | OutObject :: args, Response.VObject id :: vs =>
      option_map (cons (GotObject (mk_RemoteObject device id))) (reads_params args vs device)
  | _, _ => None
  end.

(** ** Lemmas *)

(** *** Callbacks *)

Lemma tally_app {A} (p : A → bool) l l' : tally p (l ++ l') = (tally p l + tally p l')%nat.
Proof. unfold tally. by rewrite List.filter_app, length_app. Qed.
Lemma tally_cons {A} (p : A → bool) x l : tally p (x :: l) = ((if p x then 1 else 0) + tally p l)%nat.
Proof. unfold tally. cbn. by destruct (p x). Qed.
Lemma tally_insert {A} (p : Z * A → bool) t a (m : omap A) : tally p (om_insert t a m) = tally p ((t, a) :: m).
Proof.
  induction m as [|[t' a'] m IH]; [done|]. cbn [om_insert]. destruct (t <? t'); [done|].
  rewrite !tally_cons in *. lia.
Qed.
Lemma erase_absent {A} t (m : omap A) : om_find t m = None → om_erase t m = m.
Proof.
  induction m as [|[t' a] m IH]; [done|]. cbn. destruct (t' =? t); [done|]. intros H. by rewrite IH.
Qed.
Lemma sorted_tail_absent {A} t (a : A) (m : omap A) : om_sorted ((t, a) :: m) → om_find t m = None.
Proof.
  intros Hs. apply StronglySorted_inv in Hs as [_ Hall]. cbn in Hall.
  destruct (om_find t m) as [a'|] eqn:E; [|done]. apply om_find_in, (in_map fst) in E.
  rewrite List.Forall_forall in Hall. specialize (Hall t E). lia.
Qed.
Lemma tally_erase {A} (p : Z * A → bool) t a (m : omap A) :
  om_sorted m → om_find t m = Some a → tally p m = ((if p (t, a) then 1 else 0) + tally p (om_erase t m))%nat.
Proof.
  induction m as [|[t' a'] m IH]; [done|]. intros Hs. cbn [om_find om_erase].
  destruct (Z.eqb_spec t' t) as [->|Hne].
  - intros [= ->]. by rewrite tally_cons, erase_absent by by eapply sorted_tail_absent.
  - intros E. rewrite !tally_cons, IH by (done || by apply StronglySorted_inv in Hs as [? _]). lia.
Qed.

Lemma tally_delete {A} (p : A → bool) i x l :
  l !! i = Some x → tally p l = ((if p x then 1 else 0) + tally p (delete i l))%nat.
Proof.
  revert i. induction l as [|y l IH]; intros [|i]; try done.
  - intros [= ->]. apply tally_cons.
  - intros E. change (delete (S i) (y :: l)) with (y :: delete i l). rewrite !tally_cons, (IH i E). lia.
Qed.
Lemma tally_alter {A} (p : A → bool) i x y l :
  l !! i = Some x →
  (tally p (<[i := y]> l) + (if p x then 1 else 0) = tally p l + (if p y then 1 else 0))%nat.
Proof.
  revert i. induction l as [|z l IH]; intros [|i]; try done.
  - intros [= ->]. change (<[0%nat:=y]> (x :: l)) with (y :: l). rewrite !tally_cons. lia.
  - intros E. change (<[S i:=y]> (z :: l)) with (z :: <[i:=y]> l).
    rewrite !tally_cons. specialize (IH i E). lia.
Qed.
Lemma tally_zero {A} (p : A → bool) l : (∀ x, x ∈ l → p x = false) → tally p l = 0%nat.
Proof.
  induction l as [|x l IH]; intros H; [done|]. rewrite tally_cons, H by by left.
  apply IH. intros y Hy. apply H. by right.
Qed.

Lemma acts_refl n c : acts n 0 c c [].
Proof. intros H. split_and!; [lia|done|cbn; lia|intros _; cbn; lia]. Qed.
Lemma acts_trans n k1 k2 c c1 c2 e1 e2 :
  acts n k1 c c1 e1 → acts n k2 c1 c2 e2 → acts n (k1 + k2) c c2 (e1 ++ e2).
Proof.
  intros A B H. destruct (A H) as (D1 & I1 & L1 & E1). destruct (B I1) as (D2 & I2 & L2 & E2).
  unfold answered in *. rewrite tally_app. split_and!; [lia|done|lia|]. intros Ht.
  assert (tags_differ c1) as Ht1 by (intros i j Hi Hj; apply Ht; lia).
  specialize (E1 Ht1). specialize (E2 Ht). lia.
Qed.
(** Nothing that [acts] counts has changed. *)
Lemma acts_same n c c' e :
  response_map c' = response_map c → draws c' = draws c → begun n c' = begun n c →
  answered n e = 0%nat → acts n 0 c c' e.
Proof.
  intros Em Ed Eb Ea [Hs Hk]. unfold held, inv. rewrite Em, Ed, Eb, Ea.
  by split_and!; [lia|done|exact Hk|lia|lia].
Qed.

(** A callback is entered: it takes the place of the one that has its tag, if one has. *)
Lemma register_spec n rq f c :
  inv c → let c' := (Register rq f c).1 in
  draws c' = S (draws c) ∧ inv c' ∧
  (held n c' ≤ held n c + if bool_decide (f = Call n) then 1 else 0)%nat ∧
  (tags_differ c' → held n c' = held n c + if bool_decide (f = Call n) then 1 else 0)%nat.
Proof.
  intros [Hs Hk]. cbn zeta. unfold Register. cbn [fst]. set (t := rng (draws c)). set (m := response_map c).
  assert (om_find t (om_erase t m) = None) as En by (by rewrite om_find_erase, Z.eqb_refl).
  assert (tally (fun p => bool_decide (p.2 = Call n)) (om_erase t m) ≤ held n c)%nat as Hle.
  { unfold held. fold m. destruct (om_find t m) as [g|] eqn:E; [|by rewrite erase_absent].
    rewrite (tally_erase _ t g m Hs E). lia. }
  unfold held, assign in *. cbn [response_map draws]. rewrite !tally_insert, !tally_cons. cbn [snd].
  split_and!; [done| |lia|].
  - split; [by apply om_sorted_insert; [apply om_sorted_erase|]|]. cbn [response_map draws].
    intros t' g. rewrite om_find_insert by done. destruct (Z.eqb_spec t t') as [<-|].
    + intros _. exists (draws c). split; [lia|done].
    + rewrite om_find_erase. destruct (t =? t'); [done|]. intros E. destruct (Hk t' g E) as (i & ? & ?).
      exists i. split; [lia|done].
  - intros Ht. rewrite erase_absent; [fold m; lia|]. destruct (om_find t m) as [g|] eqn:E; [|done].
    destruct (Hk t g E) as (i & Hi & Ei). apply Ht in Ei; cbn; lia.
Qed.
(** An error is reported at once; otherwise the event thread enters its callback and sends. *)
Lemma acts_send n rq f c :
  let '(c', e) := SendRequest rq f c in acts n (if bool_decide (f = Call n) then 1 else 0) c c' e.
Proof.
  unfold SendRequest. destruct (failed c).
  - intros H. unfold answered. rewrite tally_cons. cbn. split_and!; [lia|done|lia|intros; lia].
  - enough (acts n (if bool_decide (f = Call n) then 1 else 0) c (Register rq f c).1
      [SendRequestImpl f (Register rq f c).2]) as H by exact H.
    intros Hi. pose proof (register_spec n rq f c Hi) as (Hd & Hi' & Hle & Heq).
    change (begun n (Register rq f c).1) with (begun n c). change (answered n _) with 0%nat.
    rewrite Hd. split_and!; [lia|exact Hi'|lia|]. intros Ht. specialize (Heq Ht). lia.
Qed.
Lemma acts_begin n rq f c :
  let '(c', e) := begin_request rq f c in acts n (if bool_decide (f = Call n) then 1 else 0) c c' e.
Proof.
  unfold begin_request. destruct (failed c).
  - intros H. unfold answered. rewrite tally_cons. cbn. split_and!; [lia|done|lia|intros; lia].
  - intros [Hs Hk]. unfold held, begun, answered. cbn [set_callers response_map callers].
    rewrite tally_app, tally_cons. cbn [cl_tagged cl_callback negb andb].
    split_and!; [cbn; lia|by split|cbn; lia|intros _; cbn; lia].
Qed.
Lemma acts_resume n i c c' e : resume i c = Done (c', e) → acts n 0 c c' e.
Proof.
  unfold resume. destruct (callers c !! i) as [w|] eqn:Ew; [|intros [= <- <-]; apply acts_refl].
  destruct (cl_tagged w) eqn:Et.
  - intros [= <- <-]. apply acts_same; [done..| |done]. unfold begun. cbn [set_callers callers].
    rewrite (tally_delete _ i w (callers c) Ew), Et. done.
  - destruct (failing c); [done|]. intros [= <- <-].
    set (w' := mk_caller _ (cl_callback w) true).
    enough (acts n 0 c (set_callers (<[i := w']> (callers c))
      (Register (cl_request w) (cl_callback w) c).1) []) as H by exact H.
    intros Hi. pose proof (register_spec n (cl_request w) (cl_callback w) c Hi) as (Hd & Hi' & Hle & Heq).
    pose proof (tally_alter (fun w => negb (cl_tagged w) && bool_decide (cl_callback w = Call n))
      i w w' (callers c) Ew) as Hb. cbv beta in Hb. rewrite Et in Hb. cbn [negb andb w' cl_tagged] in Hb.
    change (tally _ (callers c)) with (begun n c) in Hb.
    set (c1 := (Register _ _ c).1) in *. set (l := <[i := w']> (callers c)) in *.
    change (tally _ l) with (begun n (set_callers l c1)) in Hb.
    change (held n (set_callers l c1)) with (held n c1). change (answered n []) with 0%nat.
    change (draws (set_callers l c1)) with (draws c1). rewrite Hd.
    split_and!; [lia|exact Hi'|lia|]. intros Ht. specialize (Heq Ht). lia.
Qed.
Lemma acts_destroy n l c : let '(c', e) := destroy l c in acts n 0 c c' e.
Proof.
  revert c. induction l as [|o l IH]; intros c; [apply acts_refl|]. cbn [destroy].
  destruct (o_object o =? 0); [apply IH|].
  pose proof (acts_send n (close_request o) (Close o) c) as H1. destruct (SendRequest _ _ c) as [c1 e1].
  rewrite bool_decide_eq_false_2 in H1 by done. destruct (failed c1).
  - specialize (IH c1). destruct (destroy l c1) as [c2 e2]. by apply (acts_trans n 0 0 c c1 c2).
  - exact H1.
Qed.
Lemma acts_post n m c c' e : PostResponse m c = Done (c', e) → acts n 0 c c' e.
Proof.
  unfold PostResponse. destruct (Request.allocate _ _ _); [|done..]. cbn [mbind outcome_bind].
  destruct (read_objects _ _ _ _) as [enough objects].
  pose proof (acts_destroy n objects c) as Hd.
  destruct enough; cbn [negb]; [|by intros [= E]; rewrite E in Hd].
  destruct (om_find (tag (m_header m)) (response_map c)) as [f|] eqn:E; [|by intros [= E']; rewrite E' in Hd].
  intros [= <- <-] [Hs Hk]. unfold answered. rewrite tally_cons.
  unfold held. change (begun n (set_map _ c)) with (begun n c).
  cbn [set_map response_map draws]. rewrite (tally_erase _ _ f (response_map c) Hs E).
  split_and!; [lia| |cbn; lia|intros _; cbn; lia].
  split; [by apply om_sorted_erase|]. cbn [set_map response_map draws]. intros t g.
  rewrite om_find_erase. destruct (_ =? _); [done|apply Hk].
Qed.
Lemma acts_fail_next n c : let '(c', e) := fail_next c in acts n 0 c c' e.
Proof.
  unfold fail_next. destruct (response_map c) as [|[t f] m] eqn:Em; [by apply acts_same|].
  intros [Hs Hk]. unfold held, answered, inv. rewrite Em in *. change (begun n (set_map m c)) with (begun n c).
  cbn [set_map response_map draws]. rewrite !tally_cons. cbn [snd].
  split_and!; [lia|by apply StronglySorted_inv in Hs as [? _]| |cbn; lia|intros _; cbn; lia].
  intros t' g E. pose proof (sorted_tail_absent t f m Hs) as En. apply (Hk t' g). cbn [om_find].
  destruct (Z.eqb_spec t t') as [->|]; [congruence|done].
Qed.
Lemma acts_handle n o c c' e :
  handle o c = Done (c', e) → acts n (calls n [o]) c c' e.
Proof.
  unfold handle, calls. destruct o as [k o cmd args|o|i|m| |]; rewrite tally_cons; cbn -[acts fail_next].
  - pose proof (acts_begin n (object_request o cmd (pack_params args)) (Call k) c) as H.
    intros [= E]. rewrite E in H. assert (bool_decide (Call k = Call n) = bool_decide (k = n)) as Eb
      by (apply bool_decide_ext; naive_solver). rewrite Eb in H. by rewrite Nat.add_0_r.
  - destruct (o_object o =? 0); [intros [= <- <-]; apply acts_refl|].
    pose proof (acts_begin n (close_request o) (Close o) c) as H. intros [= E]. rewrite E in H.
    by rewrite bool_decide_eq_false_2 in H.
  - apply acts_resume.
  - apply acts_post.
  - intros [= <- <-]. by apply acts_same.
  - pose proof (acts_fail_next n c) as H. intros [= E]. by rewrite E in H.
Qed.
Lemma acts_run n l c c' e : run l c = Done (c', e) → acts n (calls n l) c c' e.
Proof.
  revert c c' e. induction l as [|o l IH]; intros c c' e; cbn [run].
  { intros [= <- <-]. apply acts_refl. }
  assert (calls n (o :: l) = calls n [o] + calls n l)%nat as Ec by (unfold calls; rewrite !tally_cons; cbn; lia).
  destruct (enabled o c) eqn:Ee; [|].
  - intros ([c1 e1] & E1 & ([c2 e2] & E2 & [= <- <-])%bind_Done_inv)%bind_Done_inv.
    rewrite Ec. eapply acts_trans; [by eapply acts_handle|by apply IH].
  - intros E. replace (calls n (o :: l)) with (calls n l); [by apply IH|].
    destruct o; try discriminate Ee; unfold calls; by rewrite tally_cons.
Qed.
Lemma client_init_inv : inv init.
Proof. by split; [constructor|]. Qed.

(** *** Who is answered has asked *)

(** Those that were about to send still are, or have sent. *)
Definition still_asking (c : client) (e : list event) (c' : client) : Prop :=
  ∀ w, w ∈ callers c → cl_tagged w = true →
    w ∈ callers c' ∨ ∃ m, Sent (cl_callback w) m ∈ e ∧ tag (m_header m) = rq_tag (cl_request w).
Lemma asked_still f t e c e' c' : asked f t e c → still_asking c e' c' → asked f t (e ++ e') c'.
Proof.
  intros [(m & Hm & Ht)|(w & Hw & <- & Hg & <-)] H.
  - left. exists m. split; [by apply elem_of_app; left|done].
  - destruct (H w Hw Hg) as [Hw'|(m & Hm & Ht)]; [right; by exists w|].
    left. exists m. split; [by apply elem_of_app; right|done].
Qed.
Lemma asked_new f t e e' c : asked f t e' c → asked f t (e ++ e') c.
Proof. intros [(m & Hm & Ht)|H]; [left; exists m; split; [by apply elem_of_app; right|done]|by right]. Qed.
Lemma linked_grow e c e' c' :
  linked e c → still_asking c e' c' →
  (∀ t f, om_find t (response_map c') = Some f → om_find t (response_map c) = Some f ∨ asked f t e' c') →
  (∀ f r, Called f r ∈ e' → om_find (r_tag r) (response_map c) = Some f ∨
    r = fail_response (fail_code c) ∧ (failed c = true ∨ failing c = true)) →
  (failed c' = true ∨ failing c' = true →
    fail_code c' = TWILI_ERR_IO_ERROR ∨ fail_code c' = fail_code c ∧ (failed c = true ∨ failing c = true)) →
  linked (e ++ e') c'.
Proof.
  intros (Hm & Hc & Hf) Hs Hmap Hcalled Hfail. split_and!.
  - intros t f E. destruct (Hmap t f E) as [E'|H]; [|by apply asked_new].
    by apply (asked_still f t e c e' c'); [apply Hm|].
  - intros f r [Hin|Hin]%elem_of_app.
    + destruct (Hc f r Hin) as [H|H]; [left; by apply (asked_still f _ e c)|by right].
    + destruct (Hcalled f r Hin) as [E|[-> H]]; [left; by apply (asked_still f _ e c); [apply Hm|]|].
      right. by rewrite (Hf H).
  - intros H. destruct (Hfail H) as [?|[-> H']]; [done|by apply Hf].
Qed.
Lemma still_same c e c' : callers c' = callers c → still_asking c e c'.
Proof. intros E w Hw _. left. by rewrite E. Qed.

Lemma linked_send rq f e c :
  linked e c → let '(c', e') := SendRequest rq f c in linked (e ++ e') c'.
Proof.
  intros H. unfold SendRequest. destruct (failed c) eqn:Ef.
  - apply (linked_grow e c); [done|by apply still_same|by left| |by right; split; [|auto]].
    intros g r [= -> ->]%list_elem_of_singleton. right. auto.
  - apply (linked_grow e c); [done|by apply still_same| | |].
    + cbn [response_map]. unfold assign. intros t g.
      rewrite om_find_insert by by rewrite om_find_erase, Z.eqb_refl.
      destruct (Z.eqb_spec (rng (draws c)) t) as [<-|Hne].
      * intros [= ->]. right. left. eexists. split; [by apply list_elem_of_singleton|done].
      * rewrite om_find_erase. destruct (_ =? t); [done|auto].
    + by intros g r ?%list_elem_of_singleton.
    + cbn. rewrite Ef. auto.
Qed.
Lemma linked_waiting e c o : linked e c → linked e (set_waiting o c).
Proof. done. Qed.
Lemma linked_destroy l e c :
  linked e c → let '(c', e') := destroy l c in linked (e ++ e') c'.
Proof.
  revert e c. induction l as [|o l IH]; intros e c H; cbn [destroy]; [by rewrite app_nil_r|].
  destruct (o_object o =? 0); [by apply IH|].
  pose proof (linked_send (close_request o) (Close o) e c H) as H1.
  destruct (SendRequest _ _ c) as [c1 e1]. destruct (failed c1) eqn:Ef; [|by apply linked_waiting].
  specialize (IH (e ++ e1) c1 H1). destruct (destroy l c1) as [c2 e2]. by rewrite app_assoc.
Qed.
Lemma linked_post m e c c' e' : linked e c → PostResponse m c = Done (c', e') → linked (e ++ e') c'.
Proof.
  intros H. unfold PostResponse. destruct (Request.allocate _ _ _); [|done..]. cbn [mbind outcome_bind].
  destruct (read_objects _ _ _ _) as [enough objects]. pose proof (linked_destroy objects e c H) as Hd.
  destruct enough; cbn [negb]; [|by intros [= E]; rewrite E in Hd].
  destruct (om_find (tag (m_header m)) (response_map c)) as [f|] eqn:E; [|by intros [= E']; rewrite E' in Hd].
  intros [= <- <-]. apply (linked_grow e c); [done|by apply still_same| | |cbn; auto].
  - cbn [set_map response_map]. intros t g. rewrite om_find_erase. destruct (_ =? t); [done|auto].
  - intros g r [= -> ->]%list_elem_of_singleton. by left.
Qed.
Lemma linked_resume i e c c' e' : linked e c → resume i c = Done (c', e') → linked (e ++ e') c'.
Proof.
  intros H. unfold resume. destruct (callers c !! i) as [w|] eqn:Ew; [|intros [= <- <-]; by rewrite app_nil_r].
  destruct (cl_tagged w) eqn:Et.
  - intros [= <- <-]. apply (linked_grow e c); [done| |auto|by intros f r ?%list_elem_of_singleton|cbn; auto].
    intros w' Hw' _. rewrite (delete_Permutation _ _ _ Ew) in Hw'. apply elem_of_cons in Hw' as [->|Hw']; [|by left].
    right. eexists. split; [by apply list_elem_of_singleton|done].
  - destruct (failing c); [done|]. intros [= <- <-].
    apply (linked_grow e c); [done| | |by intros f r ?%not_elem_of_nil|cbn; auto].
    + intros w' Hw' Hg. left. apply list_elem_of_lookup in Hw' as [j Hj]. cbn.
      apply (list_elem_of_lookup_2 _ j). rewrite list_lookup_insert_ne; [done|]. intros ->. congruence.
    + cbn [set_callers response_map]. unfold assign. intros t g.
      rewrite om_find_insert by by rewrite om_find_erase, Z.eqb_refl.
      destruct (Z.eqb_spec (rng (draws c)) t) as [<-|Hne].
      * intros [= <-]. right. right.
        exists (mk_caller (Register (cl_request w) (cl_callback w) c).2 (cl_callback w) true).
        split; [|done]. apply (list_elem_of_lookup_2 _ i), list_lookup_insert_eq.
        by eapply lookup_lt_Some.
      * rewrite om_find_erase. destruct (_ =? t); [done|auto].
Qed.
Lemma linked_begin rq f e c :
  linked e c → let '(c', e') := begin_request rq f c in linked (e ++ e') c'.
Proof.
  intros H. unfold begin_request. destruct (failed c) eqn:Ef.
  - apply (linked_grow e c); [done|by apply still_same|by left| |by right; split; [|auto]].
    intros g r [= -> ->]%list_elem_of_singleton. right. auto.
  - apply (linked_grow e c); [done| |auto|by intros g r ?%not_elem_of_nil|cbn; auto].
    intros w Hw _. left. cbn. by apply elem_of_app; left.
Qed.
Lemma linked_fail_next e c :
  linked e c → inv c → failing c = true → let '(c', e') := fail_next c in linked (e ++ e') c'.
Proof.
  intros H [Hs _] Hf. unfold fail_next. destruct (response_map c) as [|[t f] m] eqn:Em.
  - apply (linked_grow e c); [done|by apply still_same|by intros|by intros f r ?%not_elem_of_nil|cbn; auto].
  - assert (om_find t (response_map c) = Some f) as Et by by rewrite Em; cbn; rewrite Z.eqb_refl.
    destruct H as (Hm & Hc & Hfc).
    apply (linked_grow e c); [by split_and!|by apply still_same| | |cbn; auto].
    + intros t' g E. left. rewrite Em. cbn [om_find]. destruct (Z.eqb_spec t t') as [<-|]; [|exact E].
      cbn in E. by rewrite (sorted_tail_absent t f m Hs) in E.
    + intros g r [= -> ->]%list_elem_of_singleton. right. auto.
Qed.
Lemma linked_handle o e c c' e' :
  linked e c → inv c → enabled o c = true → handle o c = Done (c', e') → linked (e ++ e') c'.
Proof.
  intros H Hi He. unfold handle. destruct o as [k o cmd args|o|i|m| |].
  - pose proof (linked_begin (object_request o cmd (pack_params args)) (Call k) e c H) as H1.
    intros [= E]. by rewrite E in H1.
  - destruct (o_object o =? 0); [intros [= <- <-]; by rewrite app_nil_r|].
    pose proof (linked_begin (close_request o) (Close o) e c H) as H1. intros [= E]. by rewrite E in H1.
  - by apply linked_resume.
  - by apply linked_post.
  - intros [= <- <-].
    apply (linked_grow e c); [done|by apply still_same|auto|by intros f r ?%not_elem_of_nil|cbn; auto].
  - pose proof (linked_fail_next e c H Hi He) as H1. intros [= E]. by rewrite E in H1.
Qed.
Lemma linked_run l e c c' e' : linked e c → inv c → run l c = Done (c', e') → linked (e ++ e') c'.
Proof.
  revert e c c' e'. induction l as [|o l IH]; intros e c c' e' H Hi; cbn [run].
  { intros [= <- <-]. by rewrite app_nil_r. }
  destruct (enabled o c) eqn:He; [|by apply IH].
  intros ([c1 e1] & E1 & ([c2 e2] & E2 & [= <- <-])%bind_Done_inv)%bind_Done_inv.
  rewrite app_assoc. apply (IH _ c1); [by eapply linked_handle|by eapply (acts_handle 0)|done].
Qed.
Lemma init_linked : linked [] init.
Proof. split_and!; [done|by intros f r ?%not_elem_of_nil|by intros [?|?]]. Qed.

(** A client that waits on its event thread stays so, and answers nobody. *)
Definition stuck (c : client) : Prop :=
  is_Some (waiting c) ∧ failed c = false ∧ failing c = false.
Lemma stuck_handle o c c' e :
  stuck c → enabled o c = true → handle o c = Done (c', e) →
  waiting c' = waiting c ∧ stuck c' ∧ ∀ f r, Called f r ∉ e.
Proof.
  intros (Hw & Hf & Hl) Ee. unfold enabled in Ee. rewrite bool_decide_eq_true_2, Hl in Ee by done.
  assert (∀ rq f, let '(c1, e1) := begin_request rq f c in
    waiting c1 = waiting c ∧ stuck c1 ∧ ∀ f r, Called f r ∉ e1) as Hs.
  { intros rq f. unfold begin_request. rewrite Hf. split_and!; [done..|]. by intros ? ? ?%not_elem_of_nil. }
  destruct o as [k o cmd args|o|i|m| |]; try discriminate Ee; cbn [handle].
  - specialize (Hs (object_request o cmd (pack_params args)) (Call k)). intros [= E]. by rewrite E in Hs.
  - destruct (o_object o =? 0).
    + intros [= <- <-]. split_and!; [done..|]. by intros ? ? ?%not_elem_of_nil.
    + specialize (Hs (close_request o) (Close o)). intros [= E]. by rewrite E in Hs.
  - unfold resume. destruct (callers c !! i) as [w|].
    + destruct (cl_tagged w); [|rewrite Hl]; intros [= <- <-]; (split_and!; [done..|]);
        [by intros ? ? ?%list_elem_of_singleton|by intros ? ? ?%not_elem_of_nil].
    + intros [= <- <-]. split_and!; [done..|]. by intros ? ? ?%not_elem_of_nil.
Qed.
Lemma stuck_run l c c' e :
  stuck c → run l c = Done (c', e) → waiting c' = waiting c ∧ ∀ f r, Called f r ∉ e.
Proof.
  revert c c' e. induction l as [|o l IH]; intros c c' e Hs; cbn [run].
  { intros [= <- <-]. split; [done|]. by intros ? ? ?%not_elem_of_nil. }
  destruct (enabled o c) eqn:Ee; [|by apply IH].
  intros ([c1 e1] & E1 & ([c2 e2] & E2 & [= <- <-])%bind_Done_inv)%bind_Done_inv.
  destruct (stuck_handle o c c1 e1 Hs Ee E1) as (Ew & Hs1 & Hn).
  destruct (IH c1 c2 e2 Hs1 E2) as (Ew2 & Hn2).
  split; [by rewrite Ew2|]. intros f r [?|?]%elem_of_app; [by eapply Hn|by eapply Hn2].
Qed.

(** *** Packing and unpacking *)

(** *** Packing and unpacking *)

Lemma tool_value_ind (P : value → Prop) :
  (∀ n l, P (Elements n l)) → (∀ l, Forall P l → P (Values l)) → (∀ l, P (Text l)) →
  (∀ l, P (Dump l)) → (∀ l, P (Plain l)) → ∀ v, P v.
Proof.
  intros H1 H2 H3 H4 H5. fix IH 1. intros [n l|l|l|l|l]; [apply H1| |apply H3|apply H4|apply H5].
  apply H2. induction l as [|v l IHl]; constructor; [apply IH|exact IHl].
Qed.
Lemma Pack_app v b : Pack v b = b ++ Pack v [].
Proof.
  revert b. induction v as [n l|l IH|l|l|l] using tool_value_ind; intros b; try done. cbn [Pack app].
  assert (∀ a, foldl (fun b v => Pack v b) (b ++ a) l = b ++ foldl (fun b v => Pack v b) a l) as H; [|apply H].
  induction IH as [|v l Hv _ IHl]; intros a; [done|]. cbn [foldl]. rewrite Hv, <- app_assoc, IHl. by rewrite (Hv a).
Qed.
Lemma Pack_as_arg v a : as_arg v = Some a → Pack v [] = Request.encode_arg a.
Proof. destruct v; try done; by intros [= <-]. Qed.
Lemma pack_params_app args b :
  foldl (fun b p => match p with In v => Pack v b | _ => b end) b args =
  b ++ (ins args ≫= (fun v => Pack v [])).
Proof.
  revert b. induction args as [|[v|k|] args IH]; intros b; cbn [foldl]; [by rewrite app_nil_r| |by rewrite IH..].
  rewrite IH, Pack_app, <- app_assoc. done.
Qed.
Lemma pack_params_ins args : pack_params args = ins args ≫= (fun v => Pack v []).
Proof. apply pack_params_app. Qed.
Lemma pack_encode vs args :
  Forall2 (fun v a => as_arg v = Some a) vs args → vs ≫= (fun v => Pack v []) = Request.encode_args args.
Proof.
  induction 1 as [|v a vs args Ha _ IH]; [done|].
  change (Pack v [] ++ (vs ≫= (fun v => Pack v [])) = Request.encode_arg a ++ Request.encode_args args).
  by rewrite IH, (Pack_as_arg v a Ha).
Qed.

Lemma read_number n rest : 0 ≤ n < 2 ^ 64 →
  Request.read 8 (le_split 8 n ++ rest) = Some (le_split 8 n, rest) ∧ le_combine (le_split 8 n) = n.
Proof.
  intros Hn. split; [apply Request.read_exact, zlen_le_split|].
  rewrite le_combine_split. apply Z.mod_small. exact Hn.
Qed.
Lemma allocate_fits size n : heap < 2 ^ 63 → n * size ≤ heap → Request.allocate heap size n = Done tt.
Proof.
  intros Hh Hn. unfold Request.allocate. by rewrite !(proj2 (Z.ltb_ge _ _)) by lia.
Qed.
Lemma Unpack_string_exact l rest : zlen l < 2 ^ 64 →
  Unpack_string (le_split 8 (zlen l) ++ l ++ rest) = (Some l, rest).
Proof.
  intros Hl. pose proof (zlen_nonneg l). unfold Unpack_string.
  destruct (read_number (zlen l) (l ++ rest)) as [-> ->]; [lia|]. by rewrite Request.read_exact.
Qed.
Lemma concat_uniform size (l : list bytes) : forallb (fun e => zlen e =? size) l = true →
  zlen (concat l) = zlen l * size.
Proof.
  intros Hl. apply Response.zlen_concat_uniform, List.Forall_forall. rewrite forallb_forall in Hl.
  intros e He. by apply Z.eqb_eq, Hl.
Qed.
Lemma packed_list_cons v vs n :
  Response.packed_list (v :: vs) n =
    ((Response.packed v n).1 ++ (Response.packed_list vs (n + zlen (Response.packed v n).2)).1,
     (Response.packed v n).2 ++ (Response.packed_list vs (n + zlen (Response.packed v n).2)).2).
Proof.
  cbn [Response.packed_list]. destruct (Response.packed v n) as [d os]. cbn [fst snd].
  by destruct (Response.packed_list vs (n + zlen os)).
Qed.

(** What is packed is read back, and has no objects. *)
Lemma Unpack_packed_vector size v w n rest :
  heap < 2 ^ 63 → reads (KVector size) v = Some w →
  Unpack (KVector size) ((Response.packed v n).1 ++ rest) = Done (Some w, rest) ∧ (Response.packed v n).2 = [].
Proof.
  intros Hh E.
  assert ((∃ l, v = Response.VVector size l) ∨ size = 1 ∧ ∃ l, v = Response.VBuffer l) as [[l ->]|[-> [l ->]]].
  { destruct v; cbn in E; try (by destruct size as [|[]|]); [|by right; destruct size as [|[]|]; eauto].
    destruct (Z.eqb_spec size element_size) as [<-|]; [by eauto|by destruct size as [|[]|]]. }
  - cbn [reads] in E. rewrite Z.eqb_refl in E. cbn [andb] in E.
    assert ((if (0 <? size) && forallb (fun e => zlen e =? size) l && (zlen l * size <=? heap)
      then Some (Elements (zlen l) (concat l)) else None) = Some w) as E' by by destruct size as [|[]|].
    destruct (0 <? size) eqn:Hs; [|done]. destruct (forallb _ l) eqn:Hf; [|done].
    destruct (zlen l * size <=? heap) eqn:Hl; [|done]. injection E' as <-. split; [|done].
    pose proof (zlen_nonneg l). cbn [Response.packed fst Unpack]. rewrite <- app_assoc.
    destruct (read_number (zlen l) (concat l ++ rest)) as [-> ->]; [nia|].
    rewrite allocate_fits by lia. cbn [mbind outcome_bind].
    by rewrite Request.read_exact by by apply concat_uniform.
  - cbn [reads] in E. destruct (zlen l <=? heap) eqn:Hl; [|done]. injection E as <-. split; [|done].
    pose proof (zlen_nonneg l). cbn [Response.packed fst Unpack]. rewrite <- app_assoc.
    destruct (read_number (zlen l) (l ++ rest)) as [-> ->]; [lia|].
    rewrite allocate_fits by lia. cbn [mbind outcome_bind]. by rewrite Request.read_exact by lia.
Qed.
Lemma Unpack_packed k v w n rest :
  heap < 2 ^ 63 → reads k v = Some w →
  Unpack k ((Response.packed v n).1 ++ rest) = Done (Some w, rest) ∧ (Response.packed v n).2 = [].
Proof.
  intros Hh. revert v w n rest. induction k as [size|k IH| | |size]; intros v w n rest E;
    [by apply Unpack_packed_vector|destruct v as [| | |l| | |]; try done|destruct v; try done; cbn [reads] in E..].
  - cbn [reads] in E. destruct (0 <? object_size) eqn:Ho; [|done].
    destruct (zlen l * object_size <=? heap) eqn:Hl; [|done]. cbn [andb] in E.
    destruct (mapM (reads k) l) as [ws|] eqn:Em; [|done]. injection E as <-. pose proof (zlen_nonneg l).
    apply mapM_Some in Em. rewrite Response.packed_VVectorOf. cbn [fst snd Unpack]. rewrite <- app_assoc.
    set (each := fix each (i : nat) (output_buffer : bytes) : outcome (option (list value) * bytes) := _).
    assert (∀ n, each (length l) ((Response.packed_list l n).1 ++ rest) = Done (Some ws, rest) ∧
      (Response.packed_list l n).2 = []) as Heach.
    { clear -IH Em. induction Em as [|v w l ws E _ IHl]; intros n; [done|].
      destruct (IH v w n ((Response.packed_list l (n + 0)).1 ++ rest) E) as [E1 E2].
      destruct (IHl (n + 0)) as [E3 E4]. rewrite packed_list_cons. cbn [fst snd length]. rewrite E2.
      change (zlen []) with 0. rewrite E4. split; [|done].
      rewrite <- app_assoc. cbn. rewrite E1. cbn [mbind outcome_bind]. by rewrite E3. }
    destruct (Heach n) as [E3 ->]. split; [|done].
    destruct (read_number (zlen l) ((Response.packed_list l n).1 ++ rest)) as [-> ->]; [nia|].
    rewrite allocate_fits by lia. cbn [mbind outcome_bind].
    replace (Z.to_nat (zlen l)) with (length l) by (unfold zlen; lia). by rewrite E3.
  - destruct (zlen text <? 2 ^ 64) eqn:Hl; [|done]. injection E as <-.
    split; [|done]. cbn [Response.packed fst Unpack]. rewrite <- app_assoc. by rewrite Unpack_string_exact by lia.
  - destruct (zlen dump <? 2 ^ 64) eqn:Hl; [|done]. injection E as <-.
    split; [|done]. cbn [Response.packed fst Unpack]. rewrite <- app_assoc. by rewrite Unpack_string_exact by lia.
  - destruct (zlen representation =? size) eqn:Hl; [|done].
    injection E as <-. split; [|done]. cbn [Response.packed fst Unpack]. by rewrite Request.read_exact by lia.
Qed.

Lemma read_index n rest : 0 ≤ n < 2 ^ 32 →
  Request.read 4 (le_split 4 (u32 n) ++ rest) = Some (le_split 4 (u32 n), rest) ∧
  le_combine (le_split 4 (u32 n)) = n.
Proof.
  intros Hn. split; [apply Request.read_exact, zlen_le_split|].
  rewrite le_combine_split. change (2 ^ (8 * Z.of_nat 4)) with (2 ^ 32). unfold u32.
  rewrite (Z.mod_small n) by lia. apply Z.mod_small. lia.
Qed.
Lemma unpack_params_packed args vs device rs before after rest :
  heap < 2 ^ 63 → reads_params args vs device = Some rs →
  zlen before + zlen (Response.packed_list vs (zlen before)).2 < 2 ^ 32 →
  unpack_params args ((Response.packed_list vs (zlen before)).1 ++ rest)
    (before ++ map (mk_RemoteObject device) (Response.packed_list vs (zlen before)).2 ++ after) = Done (rs, true).
Proof.
  intros Hh. revert vs rs before. induction args as [|[w|k|] args IH]; intros vs rs before; cbn [reads_params].
  - destruct vs; [|done]. by intros [= <-].
  - intros E Hn. cbn [unpack_params]. apply IH; [|done]. destruct vs; exact E.
  - destruct vs as [|v vs]; [done|]. destruct (reads k v) as [w|] eqn:Ek; [|done].
    destruct (reads_params args vs device) as [l|] eqn:El; [|done]. intros [= <-].
    rewrite packed_list_cons. cbn [fst snd]. cbn [unpack_params]. rewrite <- !app_assoc.
    destruct (Unpack_packed k v w (zlen before)
      ((Response.packed_list vs (zlen before + zlen (Response.packed v (zlen before)).2)).1 ++ rest) Hh Ek) as [-> E2].
    rewrite E2. change (zlen []) with 0. rewrite Z.add_0_r. cbn [mbind outcome_bind app]. intros Hn.
    by rewrite (IH vs l before El Hn).
  - destruct vs as [|[| | | |id| |] vs]; try done.
    destruct (reads_params args vs device) as [l|] eqn:El; [|done]. intros [= <-].
    rewrite packed_list_cons. cbn [Response.packed fst snd]. change (zlen [id]) with 1. intros Hn.
    set (os := (Response.packed_list vs (zlen before + 1)).2) in *. pose proof (zlen_nonneg before). pose proof (zlen_nonneg os).
    rewrite zlen_app in Hn. change (zlen [id]) with 1 in Hn. cbn [unpack_params]. rewrite <- app_assoc.
    destruct (read_index (zlen before) ((Response.packed_list vs (zlen before + 1)).1 ++ rest)) as [-> ->]; [lia|].
    cbn [map app]. rewrite list_lookup_middle by (unfold zlen; lia).
    rewrite (cons_middle (mk_RemoteObject device id)), app_assoc.
    assert (zlen before + 1 = zlen (before ++ [mk_RemoteObject device id])) as En by (by rewrite zlen_app).
    subst os. rewrite En in *. rewrite (IH vs l _ El) by lia. done.
Qed.

Lemma sync_packed ps vs device jo tg rs :
  heap < 2 ^ 63 → reads_params ps vs device = Some rs → zlen (Response.packed_list vs 0).2 < 2 ^ 32 →
  sync_result ps (mk_response device jo 0 tg (Response.packed_list vs 0).1
    (map (mk_RemoteObject device) (Response.packed_list vs 0).2)) = Done (0, rs).
Proof.
  intros Hh Er Hn. unfold sync_result. cbn [result_code r_payload r_objects negb Z.eqb].
  pose proof (unpack_params_packed ps vs device rs [] [] [] Hh Er) as H. change (zlen []) with 0 in H.
  specialize (H Hn). rewrite !app_nil_r in H. cbn [app] in H. by rewrite H.
Qed.
Lemma checked_packed ps vs device jo tg rs :
  heap < 2 ^ 63 → reads_params ps vs device = Some rs → zlen (Response.packed_list vs 0).2 < 2 ^ 32 →
  checked_result ps (mk_response device jo 0 tg (Response.packed_list vs 0).1
    (map (mk_RemoteObject device) (Response.packed_list vs 0).2)) = Done rs.
Proof. intros Hh Er Hn. unfold checked_result. by rewrite (sync_packed _ _ _ _ _ rs). Qed.
Lemma read_objects_ids device os acc :
  Forall (fun i => 0 ≤ i < 2 ^ 32) os →
  read_objects (length os) device (encode_u32s os) acc = (true, acc ++ map (mk_RemoteObject device) os).
Proof.
  intros Hos. revert acc. induction Hos as [|i os Hi _ IH]; intros acc; cbn [length read_objects map].
  { by rewrite app_nil_r. }
  change (encode_u32s (i :: os)) with (le_split 4 i ++ encode_u32s os).
  rewrite Request.read_exact by apply zlen_le_split.
  rewrite le_combine_split, Z.mod_small by exact Hi. by rewrite IH, <- app_assoc.
Qed.

(** *** Asynchronous calls *)

Definition ins_only (ps : list param) : bool :=
  forallb (fun p => match p with In _ => true | _ => false end) ps.
Lemma unpack_gone_ins ps b os : ins_only ps = true → unpack_gone ps b os = Done true.
Proof. induction ps as [|[v|k|] ps IH]; cbn; auto; discriminate. Qed.
Lemma unpack_gone_out args k args' b os :
  ins_only args = true → unpack_gone (args ++ Out k :: args') b os = Undefined.
Proof. induction args as [|[v|k'|] args IH]; cbn; auto; discriminate. Qed.

(** *** The two ends of a call *)

Lemma call_reaches_handler (receive : bytes → Z) types args vs ps data pieces :
  heap < 2 ^ 63 → (∀ b, 0 ≤ receive b ≤ zlen b) →
  Forall2 (fun v a => as_arg v = Some a) vs args → Forall2 (Request.arg_ok heap) types args →
  ins ps = vs ++ option_list ((fun raw => Elements (zlen raw) raw) <$> data) →
  concat pieces = pack_params ps → zlen (concat pieces) < 2 ^ 64 →
  let stream := option_list ((fun raw => Request.Stream (zlen raw)) <$> data) in
  Forall2 (Request.arg_ok heap) (types ++ option_list ((fun _ => Request.AStream) <$> data)) (args ++ stream) ∧
  concat pieces = Request.encode_args (args ++ stream) ++ default [] data ∧
  Request.stream_of (args ++ stream) = (fun raw => zlen raw) <$> data.
Proof.
  intros Hh Hr Hvs Hargs Hins Hp Hlt stream.
  assert (Request.encode_args (args ++ stream) ++ default [] data = pack_params ps) as Epack.
  { rewrite pack_params_ins, Hins, bind_app, (pack_encode vs args Hvs). unfold stream, Request.encode_args.
    rewrite bind_app, <- app_assoc. f_equal. destruct data as [raw|]; [|done]. cbn. by rewrite !app_nil_r. }
  rewrite Hp. split; [|split; [done|]].
  - apply Forall2_app; [done|]. destruct data as [raw|]; [|constructor]. cbn. repeat constructor; [apply zlen_nonneg|].
    rewrite <- Epack in Hp. rewrite Hp, zlen_app in Hlt. change (default [] (Some raw)) with raw in Hlt.
    pose proof (zlen_nonneg (Request.encode_args (args ++ stream))). lia.
  - clear -Hvs. induction Hvs as [|v a vs args Ha _ IH]; [by destruct data|].
    cbn. by destruct v; try discriminate Ha; injection Ha as <-.
Qed.
Lemma PostResponse_served f client0 tg code jo jp vs c :
  let m := Response.response_message client0 tg code jo jp vs in
  heap < 2 ^ 63 → om_find tg (response_map c) = Some f →
  Forall (fun i => 0 ≤ i < 2 ^ 32) (Response.packed_list vs 0).2 →
  zlen (Response.packed_list vs 0).2 * 16 ≤ heap →
  PostResponse m c = Done (set_map (om_erase tg (response_map c)) c,
    [Called f (mk_response client0 jo code tg (m_payload m)
       (map (mk_RemoteObject client0) (Response.packed_list vs 0).2))]).
Proof.
  intros m Hh Ef Hos Hheap. unfold m, Response.response_message, PostResponse.
  destruct (Response.packed_list vs 0) as [payload os]. cbn [fst snd m_header m_payload m_objects object_count device_id object_id command_id tag] in *.
  rewrite allocate_fits by done. cbn [mbind outcome_bind].
  replace (Z.to_nat (zlen os)) with (length os) by (unfold zlen; lia).
  rewrite read_objects_ids by done. cbn [negb app]. by rewrite Ef.
Qed.

Lemma client_run_app l1 l2 c : run (l1 ++ l2) c =
  ('(c1, e1) ← run l1 c; '(c2, e2) ← run l2 c1; Done (c2, e1 ++ e2)).
Proof.
  revert c. induction l1 as [|o l1 IH]; intros c; cbn [app run].
  { cbn. by destruct (run l2 c) as [[]| | | |]. }
  destruct (enabled o c); [|apply IH]. destruct (handle o c) as [[c1 e1]| | | |]; try done. cbn [mbind outcome_bind].
  rewrite IH. destruct (run l1 c1) as [[c2 e2]| | | |]; try done. cbn [mbind outcome_bind].
  destruct (run l2 c2) as [[c3 e3]| | | |]; try done. cbn. by rewrite app_assoc.
Qed.
Lemma destroy_not_failed l c : failed c = false → let '(c', e) := destroy l c in
  failed c' = false ∧ failing c' = failing c ∧ (∀ f r, Called f r ∉ e) ∧
  (Exists (fun o => o_object o ≠ 0) l → is_Some (waiting c')).
Proof.
  intros Hf. induction l as [|o l IH]; cbn [destroy].
  { split_and!; [done|done|by intros ? ? ?%not_elem_of_nil|by intros ?%Exists_nil]. }
  destruct (Z.eqb_spec (o_object o) 0) as [E0|E0].
  - destruct (destroy l c) as [c' e]. destruct IH as (? & ? & ? & Hw). split_and!; [done..|].
    by intros [?|?]%Exists_cons; [|apply Hw].
  - unfold SendRequest. rewrite Hf. cbn. rewrite ?Hf. split_and!; [done|done| |by eexists].
    by intros f r ?%list_elem_of_singleton.
Qed.

(** The loop of [FailAllRequests], undisturbed, answers all that wait. *)
Lemma fail_loop c :
  failing c = true →
  ∃ c' e', run (repeat OpFailNext (S (length (response_map c)))) c = Done (c', e') ∧
    failing c' = false ∧ response_map c' = [] ∧ callers c' = callers c ∧
    ∀ n, answered n e' = held n c.
Proof.
  remember (response_map c) as m eqn:Em. revert c Em. induction m as [|[t f] m IH]; intros c Em Hf.
  - cbn [length repeat run enabled]. rewrite Hf. unfold handle, fail_next. rewrite <- Em.
    eexists _, _. split; [reflexivity|]. split_and!; [done..|]. intros n. unfold held. by rewrite <- Em.
  - destruct (IH (set_map m c) eq_refl Hf) as (c' & e' & E & Hl & Hm & Hc & Ha).
    cbn [set_map response_map] in E. cbn [length]. change (repeat OpFailNext (S (S (length m)))) with
      (OpFailNext :: repeat OpFailNext (S (length m))).
    cbn [run enabled]. rewrite Hf. unfold handle at 1, fail_next. rewrite <- Em. cbn [mbind outcome_bind].
    rewrite E. cbn [mbind outcome_bind]. eexists _, _. split; [reflexivity|]. split_and!; [done..|].
    intros n. specialize (Ha n). unfold answered, held in *. cbn [set_map response_map] in Ha.
    rewrite <- Em. cbn [app]. rewrite !tally_cons. cbn [snd]. by rewrite Ha.
Qed.

(** ** Theorems *)

(** C4: no call is answered twice, and none is forgotten while the tags differ.  In every run
    of the client's threads, in any order, a call has been answered, waits in the map, or has
    not got there yet, in all at most once; exactly once if no tag has been drawn twice.  When
    the connection has failed, the loop that follows answers every call that waits, a new
    call is answered at once, and only calls that had passed the test before can come after;
    and who is answered gets that failure, or a response whose tag is that of a request it has
    sent or is about to send. *)
Theorem calls_answered_once l c e :
  run l init = Done (c, e) →
  (∀ n, answered n e + (held n c + begun n c) ≤ calls n l)%nat ∧
  (tags_differ c → ∀ n, answered n e + (held n c + begun n c) = calls n l)%nat ∧
  (failing c = true → ∃ c' e',
     run (repeat OpFailNext (S (length (response_map c)))) c = Done (c', e') ∧ failing c' = false ∧
     ∀ n, held n c' = 0%nat ∧ answered n e' = held n c ∧ begun n c' = begun n c) ∧
  (failed c = true → ∀ n o command args,
     handle (OpCall n o command args) c =
       Done (c, [Called (Call n) (fail_response TWILI_ERR_IO_ERROR)])) ∧
  ∀ f r, Called f r ∈ e → asked f (r_tag r) e c ∨ r = fail_response TWILI_ERR_IO_ERROR.
Proof.
  intros E. pose proof (linked_run l [] init c e init_linked client_init_inv E) as (_ & Hlink & Hcode).
  pose proof (fun n => acts_run n l init c e E client_init_inv) as Ha. split_and!.
  - intros n. by destruct (Ha n) as (_ & _ & H & _).
  - intros Ht n. destruct (Ha n) as (_ & _ & _ & H). exact (H Ht).
  - intros Hf. destruct (fail_loop c Hf) as (c' & e' & E' & Hl & Hm & Hc & Hn).
    exists c', e'. split_and!; [done..|]. intros n. unfold held at 1, begun. rewrite Hm, Hc. by split_and!.
  - intros Hf n o command args. cbn [handle]. unfold begin_request.
    rewrite Hf, Hcode by by left. done.
  - exact Hlink.
Qed.

(** a tag that is drawn while a request with the same tag waits takes that request's
    place: its callback is lost, and the call is never answered, not even when the
    connection fails. *)
Theorem tag_collision_loses_call l0 c e0 n i w l c' e :
  run l0 init = Done (c, e0) → callers c !! i = Some w → cl_tagged w = false →
  om_find (rng (draws c)) (response_map c) = Some (Call n) → cl_callback w ≠ Call n →
  calls n (l0 ++ OpStep i :: l) = 1%nat →
  run (l0 ++ OpStep i :: l) init = Done (c', e) → answered n e = 0%nat.
Proof.
  intros E0 Hw Ht Ef Hne Hc E. rewrite client_run_app, E0 in E. cbn [mbind outcome_bind] in E.
  apply bind_Done_inv in E as ([c2 e2] & E & [= <- <-]).
  destruct (acts_run n l0 init c e0 E0 client_init_inv) as (_ & Hi & Hle & _).
  unfold calls in Hc. rewrite tally_app, tally_cons in Hc.
  pose proof (tally_erase (fun p => bool_decide (p.2 = Call n)) _ _ _ (proj1 Hi) Ef) as Hh.
  cbn [snd] in Hh. rewrite bool_decide_eq_true_2 in Hh by done.
  cbn [run enabled handle] in E. apply bind_Done_inv in E as ([c1 e1] & Es & E).
  apply bind_Done_inv in E as ([c3 e3] & E & [= <- <-]).
  destruct (acts_resume n i c c1 e1 Es Hi) as (_ & Hi1 & Hle1 & _).
  destruct (acts_run n l c1 c3 e3 E Hi1) as (_ & _ & Hle2 & _).
  unfold resume in Es. rewrite Hw, Ht in Es. destruct (failing c); [done|]. injection Es as <- <-.
  set (c1 := set_callers _ _) in *.
  assert (held n c1 + 1 = held n c)%nat as Hh1.
  { unfold c1, held. cbn [set_callers response_map]. unfold assign. rewrite tally_insert, tally_cons.
    cbn [snd]. rewrite bool_decide_eq_false_2 by congruence. lia. }
  assert (begun n c1 = begun n c) as Hb1.
  { unfold begun, c1. cbn [set_callers callers].
    pose proof (tally_alter (fun w => negb (cl_tagged w) && bool_decide (cl_callback w = Call n)) i w
      (mk_caller (Register (cl_request w) (cl_callback w) c).2 (cl_callback w) true) (callers c) Hw) as Hb.
    cbv beta in Hb. rewrite Ht in Hb. cbn [negb andb cl_tagged] in Hb.
    rewrite (bool_decide_eq_false_2 (cl_callback w = Call n)) in Hb by done.
    change (mk_caller _ _ _) with (mk_caller (Register (cl_request w) (cl_callback w) c).2 (cl_callback w) true).
    lia. }
  unfold answered, calls in *. change (held n init) with 0%nat in Hle.
  change (begun n init) with 0%nat in Hle. rewrite !tally_app. change (tally _ []) with 0%nat. lia.
Qed.

(** a call can be undone by the failure of the connection.  [FailAllRequests] runs over
    the map without the lock; a call that had passed the test of [failed] enters its callback
    meanwhile. *)
Theorem call_races_with_failure l c e n o command args :
  run l init = Done (c, e) → failed c = false → failing c = false → waiting c = None →
  run (l ++ [OpCall n o command args; OpError; OpStep (length (callers c))]) init = Undefined.
Proof.
  intros E Hf Hl Hw. rewrite client_run_app, E. cbn [mbind outcome_bind run enabled handle].
  unfold begin_request. rewrite Hf. cbn [mbind outcome_bind run enabled set_callers waiting failing].
  rewrite Hw, Hl. rewrite bool_decide_eq_false_2 by by intros [? ?]. cbn [negb andb handle].
  cbn [mbind outcome_bind run enabled handle]. unfold resume. cbn [FailAllRequests set_callers callers].
  rewrite list_lookup_middle by done. done.
Qed.

(** a response that nobody waits for stops the client if it brings an object.  The
    objects of the response are destroyed on the event thread, which asks for them to be
    closed and waits for the answer, that only it could receive: whatever comes afterwards,
    nobody is answered any more. *)
Theorem unknown_response_stops_client m os l c c' e :
  heap < 2 ^ 63 → failed c = false → failing c = false → waiting c = None →
  om_find (tag (m_header m)) (response_map c) = None →
  m_objects m = encode_u32s os → object_count (m_header m) = zlen os →
  Forall (fun i => 0 ≤ i < 2 ^ 32) os → Exists (fun i => i ≠ 0) os → zlen os * 16 ≤ heap →
  run (OpReceive m :: l) c = Done (c', e) →
  is_Some (waiting c') ∧ ∀ f r, Called f r ∉ e.
Proof.
  intros Hh Hf Hl Hw En Eo Ec Hos Hex Hheap E. cbn [run enabled handle] in E.
  rewrite Hl, bool_decide_eq_false_2 in E by (rewrite Hw; by intros [? ?]). cbn [negb andb] in E.
  unfold PostResponse in E. rewrite Ec, Eo, allocate_fits in E by done. cbn [mbind outcome_bind negb] in E.
  replace (Z.to_nat (zlen os)) with (length os) in E by (unfold zlen; lia).
  rewrite read_objects_ids in E by done. cbn [negb] in E. rewrite En in E.
  pose proof (destroy_not_failed ([] ++ map (mk_RemoteObject (device_id (m_header m))) os) c Hf) as Hd.
  destruct (destroy _ c) as [c1 e1]. destruct Hd as (Hf1 & Hl1 & Hn1 & Hw1).
  apply bind_Done_inv in E as ([? ?] & [= <- <-] & ([c2 e2] & E & [= <- <-])%bind_Done_inv).
  assert (is_Some (waiting c1)) as Hs by (apply Hw1, Exists_exists; apply Exists_exists in Hex as (i & Hi & Hi0);
    exists (mk_RemoteObject (device_id (m_header m)) i); split; [by apply list_elem_of_In, in_map, list_elem_of_In|done]).
  rewrite Hl in Hl1. destruct (stuck_run l c1 c2 e2 (conj Hs (conj Hf1 Hl1)) E) as (Ew & Hn2). split; [by rewrite Ew|].
  intros f r [?|?]%elem_of_app; [by eapply Hn1|by eapply Hn2].
Qed.

(** a call's arguments reach the command.  What the tool packs of a call's arguments, cut
    into any pieces, makes the device's handler of a command with these argument types invoke
    the command once with exactly these arguments; a last vector of bytes may go to a command
    that takes a stream, which gets exactly its bytes. *)
Theorem tool_call_reaches_command receive types args vs ps data pieces :
  heap < 2 ^ 63 → (∀ b, 0 ≤ receive b ≤ zlen b) →
  Forall2 (fun v a => as_arg v = Some a) vs args → Forall2 (Request.arg_ok heap) types args →
  ins ps = vs ++ option_list ((fun raw => Elements (zlen raw) raw) <$> data) →
  concat pieces = pack_params ps → zlen (concat pieces) < 2 ^ 64 →
  ∃ l, Request.run heap receive
      (Request.new_handler (types ++ option_list ((fun _ => Request.AStream) <$> data)) (zlen (concat pieces)))
      [] pieces =
    Done (Request.Invoke (args ++ option_list ((fun raw => Request.Stream (zlen raw)) <$> data)) :: l) ∧
    Request.streamed l = default [] data ∧ (data = None → l = []).
Proof.
  intros Hh Hr Hvs Hargs Hins Hp Hlt.
  destruct (call_reaches_handler receive types args vs ps data pieces Hh Hr Hvs Hargs Hins Hp Hlt) as (H1 & H2 & H3).
  destruct (Request.run_args heap receive _ _ pieces (default [] data) Hh Hr H1 H2 Hlt) as (l & E & Es & El & _).
  { rewrite H3. by destruct data. }
  exists l. split_and!; [exact E|exact Es|]. intros ->. by apply El.
Qed.

(** the device's answer is the call's result.  When the response in which the device
    packed some values, objects among them, reaches a client that waits for its tag, the
    waiting callback is called once, no longer waits, and the call gets exactly these values,
    and the objects the values stand for. *)
Theorem response_reaches_call f device tg jo jp ps vs rs c :
  let m := Response.response_message device tg 0 jo jp vs in
  heap < 2 ^ 63 → om_find tg (response_map c) = Some f →
  Forall (fun i => 0 ≤ i < 2 ^ 32) (Response.packed_list vs 0).2 → zlen (Response.packed_list vs 0).2 < 2 ^ 32 →
  zlen (Response.packed_list vs 0).2 * 16 ≤ heap → reads_params ps vs device = Some rs →
  ∃ c' r, PostResponse m c = Done (c', [Called f r]) ∧ om_find tg (response_map c') = None ∧
    checked_result ps r = Done rs.
Proof.
  intros m Hh Ef Hos Hn Hheap Er.
  eexists _, _. split; [by apply PostResponse_served|]. split.
  { cbn [set_map response_map]. by rewrite om_find_erase, Z.eqb_refl. }
  unfold m, Response.response_message. destruct (Response.packed_list vs 0) as [payload os] eqn:E.
  pose proof (checked_packed ps vs device jo tg rs Hh Er) as H. rewrite E in H. by apply H.
Qed.

(** a failed asynchronous call is answered twice, or worse.  [SendSmartRequest]'s callback
    does not return after it has reported the code: it goes on to unpack the empty results, and
    reports success for a call without results; for a call with a result it writes through the
    arguments, which are gone, as it does when the call has succeeded. *)
Theorem async_error_called_twice ps r :
  let '(first, rest) := async_calls ps r in
  (result_code r ≠ 0 → first = [result_code r]) ∧
  (ins_only ps = true → rest = Done 0) ∧
  (∀ args k args', ps = args ++ Out k :: args' → ins_only args = true → rest = Undefined).
Proof.
  unfold async_calls. split_and!.
  - intros Hr. by rewrite (proj2 (Z.eqb_neq _ _) Hr).
  - intros Hp. by rewrite unpack_gone_ins.
  - intros args k args' -> Ha. by rewrite unpack_gone_out.
Qed.

(** a thread can wait for ever for an answer it has got.  The callback of a synchronous call
    does not take the mutex the thread waits with: called between the thread's look at the
    answer and its sleep, it wakes nobody.  If the answer is there before the look, or comes
    while the thread sleeps, the call returns. *)
Theorem sync_wakeup_lost :
  sync_run [SyncLook; SyncAnswer; SyncSleep] sync_init = mk_sync Asleep true ∧
  (∀ l, SyncAnswer ∉ l → sync_run l (mk_sync Asleep true) = mk_sync Asleep true) ∧
  sync_run [SyncAnswer; SyncLook] sync_init = mk_sync Returned true ∧
  sync_run [SyncLook; SyncSleep; SyncAnswer; SyncLook] sync_init = mk_sync Returned true.
Proof.
  split_and!; try reflexivity. induction l as [|o l IH]; intros Hn; [done|].
  destruct o; try (apply IH; intros H; by apply Hn; right). by destruct Hn; left.
Qed.

End unpacking.

(** *** Examples *)

Definition ex_rng (i : nat) : Z := Z.of_nat i.
Definition ex_object : RemoteObject := mk_RemoteObject 7 0.
Definition ex_call (n : nat) : op := OpCall n ex_object 18 [In (Text (str "log")); OutObject].
(** The answer to the request with this tag, which brings object 5. *)
Definition ex_answer (tg : Z) : message := Response.response_message 7 tg 0 0 0 [Response.VObject 5].
Definition ex_run (rng : nat → Z) (l : list op) := run 1000 rng 0 l init.

Definition ex_ops : list op :=
  [ex_call 0; OpStep 0; OpStep 0; ex_call 1; OpStep 0; OpReceive (ex_answer 1); ex_call 2; OpError].
Lemma calls_answered_once_witness :
  ∃ c e, ex_run ex_rng ex_ops = Done (c, e) ∧
    (answered 1 e = 1 ∧ held 0 c = 1 ∧ begun 2 c = 1)%nat ∧
    (answered 0 e + (held 0 c + begun 0 c) = 1)%nat ∧
    (∃ c' e', run 1000 ex_rng 0 (repeat OpFailNext 2) c = Done (c', e') ∧ failing c' = false ∧
      ∀ n, held n c' = 0%nat ∧ answered n e' = held n c ∧ begun n c' = begun n c).
Proof.
  destruct (ex_run ex_rng ex_ops) as [[c e]| | | |] eqn:E; try (vm_compute in E; discriminate).
  destruct (calls_answered_once 1000 ex_rng 0 _ c e E) as (_ & H1 & H2 & _).
  vm_compute in E. injection E as <- <-. eexists _, _. split; [reflexivity|].
  split; [by vm_compute|]. split.
  - apply H1. intros i j _ _ Hij. by apply Nat2Z.inj.
  - apply H2. reflexivity.
Defined.
Lemma tag_collision_loses_call_witness :
  ∃ c e, ex_run (fun _ => 3) ([ex_call 0; OpStep 0; OpStep 0; ex_call 1] ++ OpStep 0 ::
      [OpStep 0; OpReceive (ex_answer 3); OpError; OpFailNext]) = Done (c, e) ∧
    answered 0 e = 0%nat ∧ answered 1 e = 1%nat.
Proof.
  destruct (ex_run (fun _ => 3) [ex_call 0; OpStep 0; OpStep 0; ex_call 1]) as [[c0 e0]| | | |] eqn:E0;
    try (vm_compute in E0; discriminate).
  destruct (ex_run (fun _ => 3) ([ex_call 0; OpStep 0; OpStep 0; ex_call 1] ++ OpStep 0 ::
      [OpStep 0; OpReceive (ex_answer 3); OpError; OpFailNext])) as [[c e]| | | |] eqn:E;
    try (vm_compute in E; discriminate).
  exists c, e. split; [reflexivity|]. split.
  - eapply (tag_collision_loses_call 1000 (fun _ => 3) 0 [ex_call 0; OpStep 0; OpStep 0; ex_call 1] c0 e0 0 0
      _ [OpStep 0; OpReceive (ex_answer 3); OpError; OpFailNext] c e); [exact E0|..|exact E];
      try (vm_compute in E0; injection E0 as <- _; reflexivity); discriminate.
  - vm_compute in E. by injection E as _ <-.
Defined.
Lemma call_races_with_failure_witness :
  ex_run ex_rng ([ex_call 0] ++ [ex_call 1; OpError; OpStep 1]) = Undefined.
Proof.
  destruct (ex_run ex_rng [ex_call 0]) as [[c e]| | | |] eqn:E; try (vm_compute in E; discriminate).
  refine (eq_trans _ (call_races_with_failure 1000 ex_rng 0 [ex_call 0] c e 1 ex_object 18
    [In (Text (str "log")); OutObject] E _ _ _)); vm_compute in E; by injection E as <- _.
Defined.
Lemma unknown_response_stops_client_witness :
  ∃ c c' e, ex_run ex_rng [ex_call 0; OpStep 0; OpStep 0] = Done (c, e) ∧
    run 1000 ex_rng 0 [OpReceive (ex_answer 9); OpReceive (ex_answer 0); OpError] c = Done (c', [Sent (Close (mk_RemoteObject 7 5))
      (mkMessage (mkHeader 7 5 CLOSE_OBJECT 1 0 0 0) [] [])]) ∧ is_Some (waiting c').
Proof.
  destruct (ex_run ex_rng [ex_call 0; OpStep 0; OpStep 0]) as [[c e]| | | |] eqn:E; try (vm_compute in E; discriminate).
  destruct (run 1000 ex_rng 0 [OpReceive (ex_answer 9); OpReceive (ex_answer 0); OpError] c) as [[c' e']| | | |] eqn:E';
    try (vm_compute in E; injection E as <- _; vm_compute in E'; discriminate).
  exists c, c', e. split; [reflexivity|]. split.
  - rewrite E'. do 2 f_equal. vm_compute in E. injection E as <- _. vm_compute in E'. injection E' as _ <-. reflexivity.
  - apply (unknown_response_stops_client 1000 ex_rng 0 (ex_answer 9) [5] [OpReceive (ex_answer 0); OpError] c c' e');
      [..|exact E']; try reflexivity; try (vm_compute in E; injection E as <- _; reflexivity).
    + repeat constructor; lia.
    + by constructor.
    + vm_compute. discriminate.
Defined.
Lemma tool_call_reaches_command_witness :
  let ps := [In (Plain (le_split 8 5)); Out KString; In (Elements 3 (str "abc"))] in
  ∃ l, Request.run 1000 (fun b => zlen b) (Request.new_handler [Request.APod 8; Request.AStream] 19) []
      [ztake 5 (pack_params ps); zdrop 5 (pack_params ps)] =
    Done (Request.Invoke [Request.Pod (le_split 8 5); Request.Stream 3] :: l) ∧
    Request.streamed l = str "abc".
Proof.
  intros ps. destruct (tool_call_reaches_command 1000 (fun b => zlen b) [Request.APod 8]
    [Request.Pod (le_split 8 5)] [Plain (le_split 8 5)]
    ps (Some (str "abc")) [ztake 5 (pack_params ps); zdrop 5 (pack_params ps)]) as (l & E & Es & _).
  - lia.
  - intros b. pose proof (zlen_nonneg b). lia.
  - by repeat constructor.
  - by repeat constructor.
  - reflexivity.
  - reflexivity.
  - vm_compute. reflexivity.
  - exists l. split; [exact E|exact Es].
Defined.
Lemma response_reaches_call_witness :
  let ps := [In (Text (str "log")); Out (KVectorOf KString); OutObject] in
  let vs := [Response.VVectorOf [Response.VString (str "a"); Response.VString []]; Response.VObject 5] in
  ∃ c' r, PostResponse 1000 ex_rng 0 (Response.response_message 7 1 0 0 0 vs) (mk_client [(1, Call 4)] false 0 2 None [] false) =
      Done (c', [Called (Call 4) r]) ∧
    checked_result 1000 32 ps r = Done [Got (Values [Text (str "a"); Text []]); GotObject (mk_RemoteObject 7 5)].
Proof.
  intros ps vs. destruct (response_reaches_call 1000 32 ex_rng 0 (Call 4) 7 1 0 0 ps vs
    [Got (Values [Text (str "a"); Text []]); GotObject (mk_RemoteObject 7 5)]
    (mk_client [(1, Call 4)] false 0 2 None [] false)) as (c' & r & E & _ & Er); try reflexivity.
  - repeat constructor; lia.
  - vm_compute. discriminate.
  - exists c', r. split; [exact E|exact Er].
Defined.
End ToolClient.
