(* ===== verification/Interfaces.v ===== *)
(** * The calls of the tool and the commands of the device

    Every remote call of twib/tool/interfaces, as the arguments it passes to
    [SendSmartSyncRequest] or [SendSmartRequest] ([call_of]), and every command of
    twili/bridge/interfaces, with the parameter types of its handler and what the handler
    responds with ([commands_of]).  The sizes of the types of libtransistor are arguments.

    A handler's response is the list of the types it passes to [RespondOk]; a handler that
    writes its response by hand is given the types of what it writes. *)
From S2P Require Import Prelude Err Protocol Request Response ToolClient.
Import Protocol.

Module Interfaces.
Import ToolClient.

Inductive interface : Type :=
| DeviceInterface | PipeReader | PipeWriter | Debugger | ProcessMonitor | FilesystemAccessor
| FileAccessor | DirectoryAccessor.

(** ** The tool *)

Definition u32_in (v : Z) : param := In (Plain (le_split 4 v)).
Definition u64_in (v : Z) : param := In (Plain (le_split 8 v)).
Definition string_in (s : bytes) : param := In (Text s).
Definition bytes_in (l : bytes) : param := In (Elements (zlen l) l).
Definition u64s_in (l : list Z) : param := In (Elements (zlen l) (l ≫= le_split 8)).
Definition u32_out : param := Out (KPlain 4).
Definition u64_out : param := Out (KPlain 8).
Definition bytes_out : param := Out (KVector 1).

(** The sizes of the tool's own types (DebugTypes.hpp and the interfaces' headers). *)
Definition sizeof_MemoryInfo : Z := 40.
Definition sizeof_PageInfo : Z := 4.
Definition sizeof_DebugEvent : Z := 144.
Definition sizeof_ThreadContext : Z := 800.
Definition sizeof_LoadedModuleInfo : Z := 48.
Definition sizeof_ProcessListEntry : Z := 40.
Definition sizeof_DirectoryEntry : Z := 784.

Record call : Type := mk_call { c_command : Z; c_params : list param }.

Inductive DeviceInterface_method : Type :=
| D_CreateMonitoredProcess (type : bytes)
| D_Reboot
| D_CoreDump (process_id : Z)
| D_Terminate (process_id : Z)
| D_ListProcesses
| D_Identify
| D_ListNamedPipes
| D_OpenNamedPipe (name : bytes)
| D_OpenActiveDebugger (pid : Z)
| D_GetMemoryInfo
| D_PrintDebugInfo
| D_LaunchUnmonitoredProcess (title_id storage_id launch_flags : Z)
| D_OpenFilesystemAccessor (fs : bytes)
| D_AsyncWaitToDebugApplication
| D_AsyncWaitToDebugTitle (tid : Z)
| D_WaitToDebugApplication
| D_WaitToDebugTitle (tid : Z)
| D_RebootUnsafe.
Definition DeviceInterface_call (m : DeviceInterface_method) : call :=
  let call c := mk_call (ITwibDeviceInterface_Command c) in
  match m with
  | D_CreateMonitoredProcess type => call CREATE_MONITORED_PROCESS [string_in type; OutObject]
  | D_Reboot => call REBOOT []
  | D_CoreDump pid => call COREDUMP [u64_in pid; bytes_out]
  | D_Terminate pid => call TERMINATE [u64_in pid]
  | D_ListProcesses => call LIST_PROCESSES [Out (KVector sizeof_ProcessListEntry)]
  | D_Identify => call IDENTIFY [Out KMsgPack]
  | D_ListNamedPipes => call LIST_NAMED_PIPES [Out (KVectorOf KString)]
  | D_OpenNamedPipe name => call OPEN_NAMED_PIPE [string_in name; OutObject]
  | D_OpenActiveDebugger pid => call OPEN_ACTIVE_DEBUGGER [u64_in pid; OutObject]
  | D_GetMemoryInfo => call GET_MEMORY_INFO [Out KMsgPack]
  | D_PrintDebugInfo => call PRINT_DEBUG_INFO []
  | D_LaunchUnmonitoredProcess title storage flags =>
      call LAUNCH_UNMONITORED_PROCESS [u32_in flags; u64_in title; u64_in storage; u64_out]
  | D_OpenFilesystemAccessor fs => call OPEN_FILESYSTEM_ACCESSOR [string_in fs; OutObject]
  | D_AsyncWaitToDebugApplication | D_WaitToDebugApplication => call WAIT_TO_DEBUG_APPLICATION [u64_out]
  | D_AsyncWaitToDebugTitle tid | D_WaitToDebugTitle tid => call WAIT_TO_DEBUG_TITLE [u64_in tid; u64_out]
  | D_RebootUnsafe => call REBOOT_UNSAFE []
  end.

Inductive Debugger_method : Type :=
| G_QueryMemory (addr : Z)
| G_ReadMemory (addr size : Z)
| G_WriteMemory (addr : Z) (data : bytes)
| G_GetDebugEvent
| G_GetThreadContext (thread_id : Z)
| G_SetThreadContext (thread_id : Z) (tc : bytes)
| G_ContinueDebugEvent (flags : Z) (thread_ids : list Z)
| G_BreakProcess
| G_GetTargetEntry
| G_AsyncWait
| G_LaunchDebugProcess
| G_GetNsoInfos
| G_GetNroInfos.
Definition Debugger_call (m : Debugger_method) : call :=
  let call c := mk_call (ITwibDebugger_Command c) in
  match m with
  | G_QueryMemory addr =>
      call QUERY_MEMORY [u64_in addr; Out (KPlain sizeof_MemoryInfo); Out (KPlain sizeof_PageInfo)]
  | G_ReadMemory addr size => call READ_MEMORY [u64_in addr; u64_in size; bytes_out]
  | G_WriteMemory addr data => call WRITE_MEMORY [u64_in addr; bytes_in data]
  | G_GetDebugEvent => call GET_DEBUG_EVENT [Out (KPlain sizeof_DebugEvent)]
  | G_GetThreadContext tid => call GET_THREAD_CONTEXT [u64_in tid; Out (KPlain sizeof_ThreadContext)]
  | G_SetThreadContext tid tc => call SET_THREAD_CONTEXT [u64_in tid; u32_in 15; In (Plain tc)]
  | G_ContinueDebugEvent flags tids => call CONTINUE_DEBUG_EVENT [u32_in flags; u64s_in tids]
  | G_BreakProcess => call BREAK_PROCESS []
  | G_GetTargetEntry => call GET_TARGET_ENTRY [u64_out]
  | G_AsyncWait => call WAIT_EVENT []
  | G_LaunchDebugProcess => call LAUNCH_DEBUG_PROCESS []
  | G_GetNsoInfos => call GET_NSO_INFOS [Out (KVector sizeof_LoadedModuleInfo)]
  | G_GetNroInfos => call GET_NRO_INFOS [Out (KVector sizeof_LoadedModuleInfo)]
  end.

Inductive ProcessMonitor_method : Type :=
| M_Launch | M_LaunchSuspended | M_AppendCode (code : bytes) | M_OpenStdin | M_OpenStdout
| M_OpenStderr | M_WaitStateChange.
Definition ProcessMonitor_call (m : ProcessMonitor_method) : call :=
  let call c := mk_call (ITwibProcessMonitor_Command c) in
  match m with
  | M_Launch => call Monitor_LAUNCH [u64_out]
  | M_LaunchSuspended => call Monitor_LAUNCH_SUSPENDED [u64_out]
  | M_AppendCode code => call Monitor_APPEND_CODE [bytes_in code]
  | M_OpenStdin => call Monitor_OPEN_STDIN [OutObject]
  | M_OpenStdout => call Monitor_OPEN_STDOUT [OutObject]
  | M_OpenStderr => call Monitor_OPEN_STDERR [OutObject]
  | M_WaitStateChange => call Monitor_WAIT_STATE_CHANGE [u32_out]
  end.

Inductive FilesystemAccessor_method : Type :=
| S_CreateFile (mode size : Z) (path : bytes)
| S_DeleteFile (path : bytes)
| S_CreateDirectory (path : bytes)
| S_DeleteDirectory (path : bytes)
| S_DeleteDirectoryRecursively (path : bytes)
| S_RenameFile (src dst : bytes)
| S_RenameDirectory (src dst : bytes)
| S_IsFile (path : bytes)
| S_OpenFile (mode : Z) (path : bytes)
| S_OpenDirectory (path : bytes).
Definition FilesystemAccessor_call (m : FilesystemAccessor_method) : call :=
  let call c := mk_call (ITwibFilesystemAccessor_Command c) in
  match m with
  | S_CreateFile mode size path => call CREATE_FILE [u32_in mode; u64_in size; string_in path]
  | S_DeleteFile path => call DELETE_FILE [string_in path]
  | S_CreateDirectory path => call CREATE_DIRECTORY [string_in path]
  | S_DeleteDirectory path => call DELETE_DIRECTORY [string_in path]
  | S_DeleteDirectoryRecursively path => call DELETE_DIRECTORY_RECURSIVELY [string_in path]
  | S_RenameFile src dst => call RENAME_FILE [string_in src; string_in dst]
  | S_RenameDirectory src dst => call RENAME_DIRECTORY [string_in src; string_in dst]
  | S_IsFile path => call GET_ENTRY_TYPE [string_in path; u32_out]
  | S_OpenFile mode path => call OPEN_FILE [u32_in mode; string_in path; OutObject]
  | S_OpenDirectory path => call OPEN_DIRECTORY [string_in path; OutObject]
  end.

Inductive FileAccessor_method : Type :=
| A_Read (offset size : Z) | A_Write (offset : Z) (vec : bytes) | A_Flush | A_SetSize (size : Z) | A_GetSize.
Definition FileAccessor_call (m : FileAccessor_method) : call :=
  let call c := mk_call (ITwibFileAccessor_Command c) in
  match m with
  | A_Read offset size => call File_READ [u64_in offset; u64_in size; bytes_out]
  | A_Write offset vec => call File_WRITE [u64_in offset; bytes_in vec]
  | A_Flush => call File_FLUSH []
  | A_SetSize size => call File_SET_SIZE [u64_in size]
  | A_GetSize => call File_GET_SIZE [u64_out]
  end.

Inductive DirectoryAccessor_method : Type := R_Read | R_GetEntryCount.
Definition DirectoryAccessor_call (m : DirectoryAccessor_method) : call :=
  let call c := mk_call (ITwibDirectoryAccessor_Command c) in
  match m with
  | R_Read => call Directory_READ [Out (KVector sizeof_DirectoryEntry)]
  | R_GetEntryCount => call Directory_GET_ENTRY_COUNT [u64_out]
  end.

Definition PipeReader_ReadSync : call :=
  mk_call (ITwibPipeReader_Command PipeReader_READ) [bytes_out].
Inductive PipeWriter_method : Type := W_WriteSync (data : bytes) | W_Close.
Definition PipeWriter_call (m : PipeWriter_method) : call :=
  match m with
  | W_WriteSync data => mk_call (ITwibPipeWriter_Command PipeWriter_WRITE) [bytes_in data]
  | W_Close => mk_call (ITwibPipeWriter_Command PipeWriter_CLOSE) []
  end.

Inductive method : Type :=
| OfDevice (m : DeviceInterface_method)
| OfDebugger (m : Debugger_method)
| OfMonitor (m : ProcessMonitor_method)
| OfFilesystem (m : FilesystemAccessor_method)
| OfFile (m : FileAccessor_method)
| OfDirectory (m : DirectoryAccessor_method)
| OfPipeReader
| OfPipeWriter (m : PipeWriter_method).
Definition call_of (m : method) : interface * call :=
  match m with
  | OfDevice m => (DeviceInterface, DeviceInterface_call m)
  | OfDebugger m => (Debugger, Debugger_call m)
  | OfMonitor m => (ProcessMonitor, ProcessMonitor_call m)
  | OfFilesystem m => (FilesystemAccessor, FilesystemAccessor_call m)
  | OfFile m => (FileAccessor, FileAccessor_call m)
  | OfDirectory m => (DirectoryAccessor, DirectoryAccessor_call m)
  | OfPipeReader => (PipeReader, PipeReader_ReadSync)
  | OfPipeWriter m => (PipeWriter, PipeWriter_call m)
  end.


(** The calls that go through [SendSmartRequest]. *)
Definition asynchronous (m : method) : bool :=
  match m with
  | OfDebugger G_AsyncWait
  | OfDevice (D_AsyncWaitToDebugApplication | D_AsyncWaitToDebugTitle _) => true
  | _ => false
  end.

(** ** The device *)

(** What a handler responds with. *)
Inductive reply : Type :=
| RPod (size : Z)
| RVector (element_size : Z)
| RStrings
| RMsgPack
| RObject.

(** A command and its handler's response, if it has one other than an error. *)
Record entry : Type := mk_entry { e_command : Request.command; e_reply : option (list reply) }.
Definition smart (command : Z) (types : list Request.arg_type) (r : list reply) : entry :=
  mk_entry (Request.mk_command command types) (Some r).
Definition failing (command : Z) (types : list Request.arg_type) : entry :=
  mk_entry (Request.mk_command command types) None.

Definition u32_arg : Request.arg_type := Request.APod 4.
Definition u64_arg : Request.arg_type := Request.APod 8.
Notation string_arg := Request.AString.
Notation stream_arg := Request.AStream.

(** The device's own types. *)
Definition sizeof_ProcessReport : Z := 40.
Definition sizeof_hos_LoadedModuleInfo : Z := 48.

Section device.
(** libtransistor's types. *)
Context (sizeof_memory_info sizeof_debug_event_info sizeof_thread_context sizeof_idirectoryentry : Z).

Definition ITwibDeviceInterface_dispatcher : list entry :=
  let c := ITwibDeviceInterface_Command in
  [ smart (c CREATE_MONITORED_PROCESS) [string_arg] [RObject];
    smart (c REBOOT) [] [];
    smart (c COREDUMP) [u64_arg] [RVector 1];
    smart (c TERMINATE) [u64_arg] [];
    smart (c LIST_PROCESSES) [] [RVector sizeof_ProcessReport];
    failing (c UPGRADE_TWILI) [];
    smart (c IDENTIFY) [] [RMsgPack];
    smart (c LIST_NAMED_PIPES) [] [RStrings];
    smart (c OPEN_NAMED_PIPE) [string_arg] [RObject];
    smart (c OPEN_ACTIVE_DEBUGGER) [u64_arg] [RObject];
    smart (c GET_MEMORY_INFO) [] [RMsgPack];
    smart (c PRINT_DEBUG_INFO) [] [];
    smart (c LAUNCH_UNMONITORED_PROCESS) [u32_arg; u64_arg; u64_arg] [RPod 8];
    smart (c OPEN_FILESYSTEM_ACCESSOR) [string_arg] [RObject];
    failing (c WAIT_TO_DEBUG_APPLICATION) [];
    smart (c WAIT_TO_DEBUG_TITLE) [u64_arg] [RPod 8];
    smart (c REBOOT_UNSAFE) [] [] ].

Definition ITwibDebugger_dispatcher : list entry :=
  let c := ITwibDebugger_Command in
  [ smart (c QUERY_MEMORY) [u64_arg] [RPod sizeof_memory_info; RPod 4];
    smart (c READ_MEMORY) [u64_arg; u64_arg] [RVector 1];
    smart (c WRITE_MEMORY) [u64_arg; stream_arg] [];
    failing (c LIST_THREADS) [];
    smart (c GET_DEBUG_EVENT) [] [RPod sizeof_debug_event_info];
    smart (c GET_THREAD_CONTEXT) [u64_arg] [RPod sizeof_thread_context];
    smart (c BREAK_PROCESS) [] [];
    smart (c CONTINUE_DEBUG_EVENT) [u32_arg; Request.AVector 8] [];
    smart (c SET_THREAD_CONTEXT) [u64_arg; u32_arg; Request.APod sizeof_thread_context] [];
    smart (c GET_NSO_INFOS) [] [RVector sizeof_hos_LoadedModuleInfo];
    smart (c WAIT_EVENT) [] [];
    smart (c GET_TARGET_ENTRY) [] [RPod 8];
    smart (c LAUNCH_DEBUG_PROCESS) [] [];
    smart (c GET_NRO_INFOS) [] [RVector sizeof_hos_LoadedModuleInfo] ].

Definition ITwibProcessMonitor_dispatcher : list entry :=
  let c := ITwibProcessMonitor_Command in
  [ smart (c Monitor_LAUNCH) [] [RPod 8];
    smart (c Monitor_LAUNCH_SUSPENDED) [] [RPod 8];
    smart (c Monitor_TERMINATE) [] [];
    smart (c Monitor_APPEND_CODE) [stream_arg] [];
    smart (c Monitor_OPEN_STDIN) [] [RObject];
    smart (c Monitor_OPEN_STDOUT) [] [RObject];
    smart (c Monitor_OPEN_STDERR) [] [RObject];
    smart (c Monitor_WAIT_STATE_CHANGE) [] [RPod 4] ].

Definition ITwibFilesystemAccessor_dispatcher : list entry :=
  let c := ITwibFilesystemAccessor_Command in
  [ smart (c CREATE_FILE) [u32_arg; u64_arg; string_arg] [];
    smart (c DELETE_FILE) [string_arg] [];
    smart (c CREATE_DIRECTORY) [string_arg] [];
    smart (c DELETE_DIRECTORY) [string_arg] [];
    smart (c DELETE_DIRECTORY_RECURSIVELY) [string_arg] [];
    smart (c RENAME_FILE) [string_arg; string_arg] [];
    smart (c RENAME_DIRECTORY) [string_arg; string_arg] [];
    smart (c GET_ENTRY_TYPE) [string_arg] [RPod 4];
    smart (c OPEN_FILE) [u32_arg; string_arg] [RObject];
    smart (c OPEN_DIRECTORY) [string_arg] [RObject] ].

Definition ITwibFileAccessor_dispatcher : list entry :=
  let c := ITwibFileAccessor_Command in
  [ smart (c File_READ) [u64_arg; u64_arg] [RVector 1];
    smart (c File_WRITE) [u64_arg; stream_arg] [];
    smart (c File_FLUSH) [] [];
    smart (c File_SET_SIZE) [u64_arg] [];
    smart (c File_GET_SIZE) [] [RPod 8] ].

Definition ITwibDirectoryAccessor_dispatcher : list entry :=
  let c := ITwibDirectoryAccessor_Command in
  [ smart (c Directory_READ) [] [RVector sizeof_idirectoryentry];
    smart (c Directory_GET_ENTRY_COUNT) [] [RPod 8] ].

Definition ITwibPipeReader_dispatcher : list entry :=
  [ smart (ITwibPipeReader_Command PipeReader_READ) [] [RVector 1] ].
Definition ITwibPipeWriter_dispatcher : list entry :=
  [ smart (ITwibPipeWriter_Command PipeWriter_WRITE) [stream_arg] [];
    smart (ITwibPipeWriter_Command PipeWriter_CLOSE) [] [] ].

Definition dispatcher_of (i : interface) : list entry :=
  match i with
  | DeviceInterface => ITwibDeviceInterface_dispatcher
  | PipeReader => ITwibPipeReader_dispatcher
  | PipeWriter => ITwibPipeWriter_dispatcher
  | Debugger => ITwibDebugger_dispatcher
  | ProcessMonitor => ITwibProcessMonitor_dispatcher
  | FilesystemAccessor => ITwibFilesystemAccessor_dispatcher
  | FileAccessor => ITwibFileAccessor_dispatcher
  | DirectoryAccessor => ITwibDirectoryAccessor_dispatcher
  end.
Definition commands_of (i : interface) : list Request.command := map e_command (dispatcher_of i).

(** ** Specification *)

(** What a command with these parameters makes of packed values: its arguments, and the bytes of
    the stream at their end. *)
Definition accept (heap : Z) (t : Request.arg_type) (v : value) : option Request.arg :=
  match t, v with
  | Request.AVector size, Elements n raw =>
      if (zlen raw =? n * size) && (0 <=? size) && (0 <=? n) && (n <? 2 ^ 64) && (zlen raw <=? heap)
      then Some (Request.Vector n raw) else None
  | string_arg, Text l => if zlen l <=? heap then Some (Request.String l) else None
  | Request.APod size, Plain l => if zlen l =? size then Some (Request.Pod l) else None
  | _, _ => None
  end.
Fixpoint accepts (heap : Z) (types : list Request.arg_type) (vs : list value) :
    option (list Request.arg * bytes) :=
  match types, vs with
  | [], [] => Some ([], [])
  | t :: types, v :: vs =>
      match accept heap t v with
      | Some a => option_map (fun '(l, d) => (a :: l, d)) (accepts heap types vs)
      | None =>
          match t, v, types, vs with
          | stream_arg, Elements n raw, [], [] =>
              if n =? zlen raw then Some ([Request.Stream n], raw) else None
          | _, _, _, _ => None
          end
      end
  | _, _ => None
  end.

(** The values a response of this type can have. *)
Definition has_type (r : reply) (v : Response.value) : bool :=
  match r, v with
  | RPod size, Response.VPod l => zlen l =? size
  | RVector size, Response.VVector size' l => (size =? size') && forallb (fun e => zlen e =? size) l
  | RStrings, Response.VVectorOf l =>
      forallb (fun v => match v with Response.VString _ => true | _ => false end) l
  | RMsgPack, Response.VMsgPack _ => true
  | RObject, Response.VObject _ => true
  | _, _ => false
  end.
(** What the tool has room for; a string takes [string_size] bytes besides its text. *)
Fixpoint has_room (heap string_size : Z) (v : Response.value) : bool :=
  match v with
  | Response.VVector size l => zlen l * size <=? heap
  | Response.VVectorOf l => (zlen l * string_size <=? heap) && forallb (has_room heap string_size) l
  | Response.VString l | Response.VMsgPack l => zlen l <? 2 ^ 64
  | _ => true
  end.

(** The arguments of the caller that have a size fit the device's heap; a thread's context has
    its size. *)
Definition sized (heap : Z) (m : method) : bool :=
  forallb (fun v => match v with Elements _ raw => (zlen raw <=? heap) | Text l => zlen l <=? heap | _ => true end)
    (ins (c_params (call_of m).2)) &&
  match m with
  | OfDebugger (G_SetThreadContext _ tc) => zlen tc =? sizeof_ThreadContext
  | OfDebugger (G_ContinueDebugEvent _ tids) => zlen tids <? 2 ^ 64
  | _ => true
  end.

(** The calls whose command only ever fails. *)
Definition never_answered (m : method) : bool :=
  match m with
  | OfDevice (D_AsyncWaitToDebugApplication | D_WaitToDebugApplication) => true
  | _ => false
  end.

(** What an asynchronous call's callback does with any response: an error's code, and then
    success if nothing is to be unpacked. *)
Definition async_answer (c : call) (r : response) : list Z * outcome Z :=
  (if negb (result_code r =? 0) then [result_code r] else [],
   if ins_only (c_params c) then Done 0 else Undefined).

(** What the tool has to read for what a handler responds with. *)
Definition matches (p : param) (r : reply) : bool :=
  match p, r with
  | Out (KPlain size), RPod size' => size =? size'
  | Out (KVector size), RVector size' => (size =? size') && (0 <? size)
  | Out (KVectorOf KString), RStrings | Out KMsgPack, RMsgPack | OutObject, RObject => true
  | _, _ => false
  end.
Fixpoint all_match (ps : list param) (rs : list reply) : bool :=
  match ps, rs with
  | [], [] => true
  | In _ :: ps, rs => all_match ps rs
  | p :: ps, r :: rs => matches p r && all_match ps rs
  | _, _ => false
  end.
Definition entry_of (i : interface) (command : Z) : option entry :=
  List.find (fun e => Request.cmd_id (e_command e) =? command) (dispatcher_of i).

(** ** Lemmas *)

Lemma accept_spec heap t v a :
  accept heap t v = Some a →
  Request.arg_ok heap t a ∧ as_arg v = Some a ∧ Request.stream_of [a] = None.
Proof.
  destruct t as [size| | |size], v as [n raw|l|l|l|l]; cbn [accept]; try done.
  - destruct (_ && _) eqn:E; [|done]. intros [= <-]. split_and!; [|done..]. cbn. lia.
  - destruct (_ <=? _) eqn:E; [|done]. intros [= <-]. split_and!; [|done..]. cbn. lia.
  - destruct (_ =? _) eqn:E; [|done]. intros [= <-]. split_and!; [|done..]. cbn. lia.
Qed.

Lemma accepts_spec heap types vs args data :
  accepts heap types vs = Some (args, data) → zlen (vs ≫= fun v => Pack v []) < 2 ^ 64 →
  Forall2 (Request.arg_ok heap) types args ∧
  (vs ≫= fun v => Pack v []) = Request.encode_args args ++ data ∧
  zlen data = default 0 (Request.stream_of args).
Proof.
  revert vs args data. induction types as [|t types IH]; intros [|v vs] args data; cbn [accepts]; try done.
  - intros [= <- <-] _. by split_and!; [constructor| |].
  - destruct (accept heap t v) as [a|] eqn:Ea.
    + destruct (accepts heap types vs) as [[l d]|] eqn:El; [|done]. intros [= <- <-] Hlt.
      apply accept_spec in Ea as (Hok & Ha & Hs). cbn [mbind list_bind] in *.
      rewrite (Pack_as_arg _ _ Ha), zlen_app in *.
      pose proof (zlen_nonneg (Request.encode_arg a)).
      destruct (IH vs l d El ltac:(lia)) as (H1 & H2 & H3).
      split_and!; [by constructor| |].
      * rewrite H2. unfold Request.encode_args. cbn. by rewrite <- app_assoc.
      * rewrite H3. by destruct a.
    + destruct t, v, types, vs; try done. destruct (_ =? _) eqn:En; [|done]. apply Z.eqb_eq in En as ->.
      intros [= <- <-] Hlt. cbn in Hlt |- *. rewrite ?app_nil_r in *. rewrite zlen_app in Hlt.
      pose proof (zlen_nonneg raw). pose proof (zlen_nonneg (le_split 8 (zlen raw))).
      split_and!; [repeat constructor; lia|done|done].
Qed.

Lemma accepts_run heap receive types ps args data pieces :
  heap < 2 ^ 63 → (∀ b, 0 ≤ receive b ≤ zlen b) → accepts heap types (ins ps) = Some (args, data) →
  concat pieces = pack_params ps → zlen (concat pieces) < 2 ^ 64 →
  ∃ l, Request.run heap receive (Request.new_handler types (zlen (concat pieces))) [] pieces =
    Done (Request.Invoke args :: l) ∧ Request.streamed l = data ∧
    (Request.stream_of args = None → l = []) ∧
    (Request.stream_of args ≠ None →
      ∃ d, Request.callbacks l d ∧ ((∀ b, receive b = zlen b) → d = [])).
Proof.
  intros Hh Hr Ha Hp Hlt. pose proof Hp as Hp'. rewrite pack_params_ins in Hp'. rewrite Hp' in Hlt.
  destruct (accepts_spec _ _ _ _ _ Ha Hlt) as (H1 & H2 & H3). rewrite <- Hp' in *.
  destruct (Request.run_args heap receive types args pieces data Hh Hr H1 H2 Hlt H3) as (l & E & Es & El).
  by exists l.
Qed.

Lemma strings_read heap string_size l :
  forallb (fun v => match v with Response.VString _ => true | _ => false end) l = true →
  forallb (has_room heap string_size) l = true →
  ∃ ws, mapM (reads heap string_size KString) l = Some ws.
Proof.
  intros Hl Hr. enough (∃ ws, Forall2 (fun v w => reads heap string_size KString v = Some w) l ws) as [ws H]
    by (exists ws; by apply mapM_Some_2).
  induction l as [|v l IH]; [by exists []|]. cbn [forallb] in Hl, Hr.
  apply andb_prop in Hl as [Hv Hl], Hr as [Hr Hrl]. destruct (IH Hl Hrl) as [ws E].
  destruct v; try done. exists (Text text :: ws). constructor; [|done]. cbn in Hr |- *. by rewrite Hr.
Qed.
Lemma matches_reads heap string_size k r v :
  0 < string_size → matches (Out k) r = true → has_type r v = true → has_room heap string_size v = true →
  ∃ w, reads heap string_size k v = Some w.
Proof.
  intros Hs. destruct k as [n|k'| | |n], r as [size|size| | |]; try done; try (destruct k'; done);
    cbn [matches]; destruct v as [size' l|l|l|l|l|l|l]; try done; cbn [has_type has_room reads].
  - intros [->%Z.eqb_eq Hn]%andb_prop [->%Z.eqb_eq Hl]%andb_prop Hroom.
    rewrite Z.eqb_refl, Hn, Hl, Hroom.
    exists (Elements (zlen l) (concat l)). by destruct size' as [|[]|].
  - destruct k'; [done..| |done|done]. intros _ Hl [Hroom Hf]%andb_prop.
    destruct (strings_read heap string_size l Hl Hf) as [ws E].
    rewrite (proj2 (Z.ltb_lt _ _) Hs), Hroom. exists (Values ws). cbn [andb].
    change (option_map Values (mapM (reads heap string_size KString) l) = Some (Values ws)). by rewrite E.
  - intros _ _ ->. by eexists.
  - intros ->%Z.eqb_eq -> _. by eexists.
Qed.
Lemma all_match_reads heap string_size device ps rs vs :
  0 < string_size → all_match ps rs = true →
  Forall2 (fun r v => has_type r v = true) rs vs → Forall (fun v => has_room heap string_size v = true) vs →
  ∃ res, reads_params heap string_size ps vs device = Some res.
Proof.
  intros Hs. revert rs vs. induction ps as [|p ps IH]; intros rs vs Hm Ht Hroom.
  - destruct rs; [|done]. inversion Ht; subst. by exists [].
  - destruct p as [w|k|].
    + destruct (IH rs vs ltac:(by destruct rs) Ht Hroom) as [res E]. exists res. destruct vs; exact E.
    + destruct rs as [|r rs]; [done|]. cbn [all_match] in Hm. apply andb_prop in Hm as [Hm Hms].
      destruct vs as [|v vs]; inversion Ht; subst. inversion Hroom; subst.
      destruct (matches_reads heap string_size k r v) as [w E]; try done.
      destruct (IH rs vs) as [res E']; try done. exists (Got w :: res). cbn. by rewrite E, E'.
    + destruct rs as [|r rs]; [done|]. cbn [all_match] in Hm. apply andb_prop in Hm as [Hm Hms].
      destruct vs as [|v vs]; inversion Ht; subst. inversion Hroom; subst.
      destruct r; try done. destruct v as [| | | |id| |]; try done.
      destruct (IH rs vs) as [res E']; try done. eexists. cbn. by rewrite E'.
Qed.

(** The call finds its command, which takes its arguments and gives its results. *)
Definition call_fits (heap : Z) (m : method) : Prop :=
  let '(i, c) := call_of m in
  ∃ e args data, entry_of i (c_command c) = Some e ∧
    (∀ size, Request.OpenRequest (commands_of i) (c_command c) size =
      (Request.Smart (c_command c) (Request.new_handler (Request.parameters (e_command e)) size), [])) ∧
    accepts heap (Request.parameters (e_command e)) (ins (c_params c)) = Some (args, data) ∧
    match e_reply e with
    | None => never_answered m = true
    | Some rs => all_match (c_params c) rs = true
    end.

Lemma accept_vector heap n raw size :
  zlen raw = n * size → 0 ≤ size → 0 ≤ n < 2 ^ 64 → zlen raw ≤ heap →
  accept heap (Request.AVector size) (Elements n raw) = Some (Request.Vector n raw).
Proof. intros ????. cbn. replace (_ && _) with true by lia. done. Qed.
Lemma accept_string heap l : zlen l ≤ heap → accept heap string_arg (Text l) = Some (Request.String l).
Proof. intros H. cbn. by rewrite (proj2 (Z.leb_le _ _) H). Qed.
Lemma accept_pod heap l size : zlen l = size → accept heap (Request.APod size) (Plain l) = Some (Request.Pod l).
Proof. intros <-. cbn. by rewrite Z.eqb_refl. Qed.
Lemma zlen_bind_le_split n l : zlen (l ≫= le_split n) = zlen l * Z.of_nat n.
Proof. induction l as [|x l IH]; [done|]. cbn. rewrite zlen_app, zlen_le_split, zlen_cons, IH. lia. Qed.

Lemma accepts_nil heap : accepts heap [] [] = Some ([], []).
Proof. done. Qed.
Lemma accepts_stream heap raw :
  accepts heap [stream_arg] [Elements (zlen raw) raw] = Some ([Request.Stream (zlen raw)], raw).
Proof. cbn. by rewrite Z.eqb_refl. Qed.
Lemma accepts_cons heap t v a types vs l d :
  accept heap t v = Some a → accepts heap types vs = Some (l, d) →
  accepts heap (t :: types) (v :: vs) = Some (a :: l, d).
Proof. intros Ha Hl. cbn [accepts]. by rewrite Ha, Hl. Qed.


End device.

#[local] Hint Resolve accepts_nil accepts_stream accepts_cons accept_string accept_pod zlen_le_split : served.

(** The call's command by computation, its arguments by the lemmas above. *)
Ltac call_served :=
  eexists _, _, _; split_and!;
  [ reflexivity | reflexivity
  | cbn [ins mbind list_bind c_params app Request.parameters e_command smart failing call_of snd
      DeviceInterface_call Debugger_call ProcessMonitor_call FilesystemAccessor_call FileAccessor_call
      DirectoryAccessor_call PipeWriter_call PipeReader_ReadSync string_in bytes_in u64s_in u32_in u64_in];
    eauto 8 with served
  | reflexivity ].

Lemma device_calls_fit mi de tc id heap m :
  sized heap (OfDevice m) = true → call_fits mi de tc id heap (OfDevice m).
Proof.
  unfold sized. intros [H _]%andb_prop. destruct m; cbn in H; try apply andb_prop in H as [H%Z.leb_le _]; call_served.
Qed.
Lemma filesystem_calls_fit mi de tc id heap m :
  sized heap (OfFilesystem m) = true → call_fits mi de tc id heap (OfFilesystem m).
Proof.
  unfold sized. intros [H _]%andb_prop. destruct m; cbn in H; try apply andb_prop in H as [H%Z.leb_le H'];
    try apply andb_prop in H' as [H'%Z.leb_le _]; call_served.
Qed.
Lemma file_calls_fit mi de tc id heap m : call_fits mi de tc id heap (OfFile m).
Proof. destruct m; call_served. Qed.
Lemma monitor_calls_fit mi de tc id heap m : call_fits mi de tc id heap (OfMonitor m).
Proof. destruct m; call_served. Qed.

Lemma directory_calls_fit mi de tc heap m : call_fits mi de tc sizeof_DirectoryEntry heap (OfDirectory m).
Proof. destruct m; call_served. Qed.
Lemma debugger_calls_fit heap id m :
  sized heap (OfDebugger m) = true →
  call_fits sizeof_MemoryInfo sizeof_DebugEvent sizeof_ThreadContext id heap (OfDebugger m).
Proof.
  unfold sized. intros [H H']%andb_prop.
  destruct m; try (clear H H'; call_served; fail).
  - apply Z.eqb_eq in H'. clear H. call_served.
  - cbn [call_of snd Debugger_call c_params u32_in u64s_in ins mbind list_bind app forallb andb] in H.
    apply andb_prop in H as [H%Z.leb_le _]. apply Z.ltb_lt in H'.
    pose proof (zlen_nonneg thread_ids).
    pose proof (accept_vector heap (zlen thread_ids) (thread_ids ≫= le_split 8) 8
      (zlen_bind_le_split 8 thread_ids) ltac:(lia) ltac:(lia) H).
    call_served.
Qed.

Lemma every_call_fits heap m :
  sized heap m = true →
  call_fits sizeof_MemoryInfo sizeof_DebugEvent sizeof_ThreadContext sizeof_DirectoryEntry heap m.
Proof.
  intros H. destruct m as [m|m|m|m|m|m| |m]; auto using device_calls_fit, debugger_calls_fit,
    monitor_calls_fit, filesystem_calls_fit, file_calls_fit, directory_calls_fit; [call_served|].
  destruct m; call_served.
Qed.

Lemma async_answered m :
  let '(i, c) := call_of m in asynchronous m = true → ∀ r, async_calls (c_params c) r = async_answer c r.
Proof.
  destruct m as [m|m|m|m|m|m| |m]; try done; destruct m; try done; intros _ r;
    unfold async_calls, async_answer; cbn; by destruct (result_code r =? 0).
Qed.


(** *** Examples *)

End Interfaces.
