(* ===== verification/Filesystem.v ===== *)
(** * The device's file system objects and a remote call in full

    twili/bridge/interfaces: the handlers of ITwibFilesystemAccessor, ITwibFileAccessor and
    ITwibDirectoryAccessor, ITwibDeviceInterface::OpenFilesystemAccessor, and the objects of a
    connection they live in.  The system's file service is the class [fsp_srv]; what it
    documents is the class [fsp_srv_laws].

    [remote] is one call of the tool in full: the arguments packed, the payload cut into pieces
    by the network ([cut]), the command opened and its arguments unpacked, the handler and its
    stream run, the response packed and then unpacked by the tool. *)
From stdpp Require Import gmap.
From S2P Require Import Prelude Err Protocol Request Response ToolClient Interfaces.
Import Protocol.

Module Filesystem.
Import Err ToolClient Interfaces.

(** ** The file service *)

(** A result or an error code; an operation that changes the storage gives its code. *)
Class fsp_srv (storage ifilesystem ifile idirectory : Type) : Type := {
  fsp_srv_mount_sd_card : storage → Z + ifilesystem;
  fsp_srv_open_bis_filesystem : Z → storage → Z + ifilesystem;
  ifilesystem_create_file : ifilesystem → Z → Z → bytes → storage → Z * storage;
  ifilesystem_delete_file : ifilesystem → bytes → storage → Z * storage;
  ifilesystem_create_directory : ifilesystem → bytes → storage → Z * storage;
  ifilesystem_delete_directory : ifilesystem → bytes → storage → Z * storage;
  ifilesystem_delete_directory_recursively : ifilesystem → bytes → storage → Z * storage;
  ifilesystem_rename_file : ifilesystem → bytes → bytes → storage → Z * storage;
  ifilesystem_rename_directory : ifilesystem → bytes → bytes → storage → Z * storage;
  ifilesystem_get_entry_type : ifilesystem → bytes → storage → Z + Z;
  ifilesystem_open_file : ifilesystem → Z → bytes → storage → Z + ifile;
  ifilesystem_open_directory : ifilesystem → Z → bytes → storage → Z + idirectory;
  ifile_read : ifile → Z → Z → storage → Z + bytes;          (* offset, size *)
  ifile_write : ifile → Z → bytes → storage → Z * storage;   (* offset *)
  ifile_flush : ifile → storage → Z * storage;
  ifile_set_size : ifile → Z → storage → Z * storage;
  ifile_get_size : ifile → storage → Z + Z;
  idirectory_read : idirectory → Z → storage → Z * list bytes * storage;   (* size of the buffer *)
  idirectory_get_entry_count : idirectory → storage → Z + Z }.

(** What the service promises of files: [file] is what a path holds, [opens] what a handle is
    for.  An operation with another code than 0 may have done anything to its own file. *)
Class fsp_srv_laws {storage ifilesystem ifile idirectory : Type} `{!fsp_srv storage ifilesystem ifile idirectory}
    (file : ifilesystem → bytes → storage → option bytes) (opens : ifile → ifilesystem * bytes) : Prop := {
  create_size ifs mode size p s s' :
    ifilesystem_create_file ifs mode size p s = (0, s') → 0 ≤ size → ∃ c, file ifs p s' = Some c ∧ zlen c = size;
  create_frame ifs mode size p s ifs' p' :
    (ifs', p') ≠ (ifs, p) → file ifs' p' (ifilesystem_create_file ifs mode size p s).2 = file ifs' p' s;
  open_file ifs mode p s f :
    ifilesystem_open_file ifs mode p s = inr f → opens f = (ifs, p) ∧ is_Some (file ifs p s);
  set_size_size f size s s' :
    ifile_set_size f size s = (0, s') → 0 ≤ size →
    ∃ c, file (opens f).1 (opens f).2 s' = Some c ∧ zlen c = size;
  set_size_frame f size s ifs p :
    (ifs, p) ≠ opens f → file ifs p (ifile_set_size f size s).2 = file ifs p s;
  write_data f offset data s s' c :
    ifile_write f offset data s = (0, s') → file (opens f).1 (opens f).2 s = Some c →
    0 ≤ offset → offset + zlen data ≤ zlen c →
    file (opens f).1 (opens f).2 s' = Some (overwrite c offset data);
  write_frame f offset data s ifs p :
    (ifs, p) ≠ opens f → file ifs p (ifile_write f offset data s).2 = file ifs p s;
  read_data f offset size s data c :
    ifile_read f offset size s = inr data → file (opens f).1 (opens f).2 s = Some c →
    ∃ k, k ≤ size ∧ data = ztake k (zdrop offset c);
  size_data f s n c :
    ifile_get_size f s = inr n → file (opens f).1 (opens f).2 s = Some c → n = zlen c;
  entry_type_range ifs p s t : ifilesystem_get_entry_type ifs p s = inr t → 0 ≤ t < 2 ^ 32;
  entry_type_error ifs p s code : ifilesystem_get_entry_type ifs p s = inl code → code ≠ 0;
  open_file_error ifs mode p s code : ifilesystem_open_file ifs mode p s = inl code → code ≠ 0;
  read_error f offset size s code : ifile_read f offset size s = inl code → code ≠ 0;
  get_size_error f s code : ifile_get_size f s = inl code → code ≠ 0 }.

Section filesystem.
Context {storage ifilesystem ifile idirectory : Type} `{!fsp_srv storage ifilesystem ifile idirectory}.
(** The heaps of the device and of the tool, and the size of a string object of the tool. *)
Context (device_heap heap string_size : Z).
(** libtransistor's types. *)
Context (sizeof_memory_info sizeof_debug_event_info sizeof_thread_context sizeof_idirectoryentry : Z).

(** ** Objects *)

(** A connection's objects; [Zero] is the device interface. *)
Inductive object : Type :=
| Zero
| FilesystemObject (ifs : ifilesystem)
| FileObject (f : ifile)
| DirectoryObject (d : idirectory).
Record device : Type := mk_device {
  state : storage;
  objects : gmap Z object;
  next_object_id : Z }.
Definition set_state (s : storage) (d : device) : device := mk_device s (objects d) (next_object_id d).

(** [MakeObject]: the next number, and an insertion that keeps an object that is there. *)
Definition MakeObject (o : object) (d : device) : Z * device :=
  let id := next_object_id d in
  (id, mk_device (state d) (match objects d !! id with Some _ => objects d | None => <[id := o]> (objects d) end)
         (u32 (id + 1))).

(** A response: a code other than 0, or values. *)
Definition answer : Type := Z + list Response.value.

(** [TWILI_BRIDGE_CHECK] of a code, then [RespondOk()]. *)
Definition checked (r : Z * storage) (d : device) : answer * device :=
  let '(code, s) := r in (if code =? 0 then inr [] else inl code, set_state s d).
(** [RespondOk] of a new object for a handle. *)
Definition opened {A} (r : Z + A) (o : A → object) (d : device) : answer * device :=
  match r with
  | inl code => (inl code, d)
  | inr h => let '(id, d) := MakeObject (o h) d in (inr [Response.VObject id], d)
  end.
Definition u32_value (v : Z) : Response.value := Response.VPod (le_split 4 v).
Definition u64_value (v : Z) : Response.value := Response.VPod (le_split 8 v).

(** ** ITwibDeviceInterface *)

(** The file system of a name. *)
Definition mount (fs : bytes) (s : storage) : option (Z + ifilesystem) :=
  if decide (fs = str "sd") then Some (fsp_srv_mount_sd_card s)
  else if decide (fs = str "nand_user") then Some (fsp_srv_open_bis_filesystem 30 s)
  else if decide (fs = str "nand_system") then Some (fsp_srv_open_bis_filesystem 31 s)
  else None.
Definition OpenFilesystemAccessor (fs : bytes) (d : device) : answer * device :=
  match mount fs (state d) with
  | None => (inl TWILI_ERR_UNKNOWN_FILESYSTEM, d)
  | Some r => opened r FilesystemObject d
  end.

(** ** ITwibFilesystemAccessor *)

(** [strncpy] of the string into a buffer of 0x301 bytes. *)
Definition path_size : Z := 769.
Fixpoint c_str (l : bytes) : bytes :=
  match l with
  | [] => []
  | b :: l => if decide (b = Byte.x00) then [] else b :: c_str l
  end.
Definition path_buffer (path : bytes) : bytes :=
  ztake path_size (c_str path ++ replicate (Z.to_nat path_size) Byte.x00).

Definition CreateFile ifs (mode size : Z) (path : bytes) (d : device) : answer * device :=
  checked (ifilesystem_create_file ifs mode size (path_buffer path) (state d)) d.
Definition DeleteFile ifs (path : bytes) (d : device) : answer * device :=
  checked (ifilesystem_delete_file ifs (path_buffer path) (state d)) d.
Definition CreateDirectory ifs (path : bytes) (d : device) : answer * device :=
  checked (ifilesystem_create_directory ifs (path_buffer path) (state d)) d.
Definition DeleteDirectory ifs (path : bytes) (d : device) : answer * device :=
  checked (ifilesystem_delete_directory ifs (path_buffer path) (state d)) d.
Definition DeleteDirectoryRecursively ifs (path : bytes) (d : device) : answer * device :=
  checked (ifilesystem_delete_directory_recursively ifs (path_buffer path) (state d)) d.
Definition RenameFile ifs (src dst : bytes) (d : device) : answer * device :=
  checked (ifilesystem_rename_file ifs (path_buffer src) (path_buffer dst) (state d)) d.
Definition RenameDirectory ifs (src dst : bytes) (d : device) : answer * device :=
  checked (ifilesystem_rename_directory ifs (path_buffer src) (path_buffer dst) (state d)) d.
Definition GetEntryType ifs (path : bytes) (d : device) : answer * device :=
  match ifilesystem_get_entry_type ifs (path_buffer path) (state d) with
  | inl code => (inl code, d)
  | inr entry_type => (inr [u32_value entry_type], d)
  end.
Definition OpenFile ifs (mode : Z) (path : bytes) (d : device) : answer * device :=
  opened (ifilesystem_open_file ifs mode (path_buffer path) (state d)) FileObject d.
Definition OpenDirectory ifs (path : bytes) (d : device) : answer * device :=
  opened (ifilesystem_open_directory ifs 3 (path_buffer path) (state d)) DirectoryObject d.

(** ** ITwibFileAccessor *)

Definition byte_vector (l : bytes) : Response.value := Response.VVector 1 (map (fun b => [b]) l).

Definition Read f (offset size : Z) (d : device) : outcome (answer * device) :=
  let size := Z.max size 262144 in
  _ ← Request.allocate device_heap 1 size;
  match ifile_read f offset size (state d) with
  | inl code => Done (inl code, d)
  | inr buffer => Done (inr [byte_vector buffer], d)
  end.
Definition Flush f (d : device) : answer * device := checked (ifile_flush f (state d)) d.
Definition SetSize f (size : Z) (d : device) : answer * device := checked (ifile_set_size f size (state d)) d.
Definition GetSize f (d : device) : answer * device :=
  match ifile_get_size f (state d) with
  | inl code => (inl code, d)
  | inr size => (inr [u64_value size], d)
  end.

(** The state the stream's callbacks share. *)
Record write_stream : Type := mk_write { w_file : ifile; offset_shared : Z; r : Z }.
Definition Write f (offset : Z) : write_stream := mk_write f offset 0.
(** [stream.receive], which takes everything, and [stream.finish]. *)
Definition Write_receive (buffer : bytes) (st : write_stream) (d : device) : write_stream * device :=
  if r st =? 0 then
    let '(code, s) := ifile_write (w_file st) (offset_shared st) buffer (state d) in
    (mk_write (w_file st) (u64 (offset_shared st + zlen buffer)) code, set_state s d)
  else (st, d).
Definition Write_finish (st : write_stream) : answer := if r st =? 0 then inr [] else inl (r st).

(** ** ITwibDirectoryAccessor *)

Definition Directory_Read h (d : device) : answer * device :=
  let '(code, entries, s) := idirectory_read h (32 * sizeof_idirectoryentry) (state d) in
  (if code =? 0 then inr [Response.VVector sizeof_idirectoryentry entries] else inl code, set_state s d).
Definition GetEntryCount h (d : device) : answer * device :=
  match idirectory_get_entry_count h (state d) with
  | inl code => (inl code, d)
  | inr count => (inr [u64_value count], d)
  end.

(** ** Serving a request *)

(** A command's function with its arguments: it answers, or it has set up its stream. *)
Inductive invoked : Type := Answered (a : answer) | Streams (st : write_stream).

(** The other commands of the device interface, which are not in this file. *)
Context (others : Z → list Request.arg → device → outcome (answer * device)).

Definition find_command {C} (encode : C → Z) (all : list C) (command : Z) : option C :=
  List.find (fun c => encode c =? command) all.
Definition answered (o : answer * device) : outcome (invoked * device) := Done (Answered o.1, o.2).
Definition num (l : bytes) : Z := le_combine l.

Definition invoke_filesystem ifs (command : Z) (args : list Request.arg) (d : device) : outcome (invoked * device) :=
  match find_command ITwibFilesystemAccessor_Command
    [CREATE_FILE; DELETE_FILE; CREATE_DIRECTORY; DELETE_DIRECTORY; DELETE_DIRECTORY_RECURSIVELY; RENAME_FILE;
     RENAME_DIRECTORY; GET_ENTRY_TYPE; OPEN_FILE; OPEN_DIRECTORY] command, args with
  | Some CREATE_FILE, [Request.Pod mode; Request.Pod size; Request.String path] =>
      answered (CreateFile ifs (num mode) (num size) path d)
  | Some DELETE_FILE, [Request.String path] => answered (DeleteFile ifs path d)
  | Some CREATE_DIRECTORY, [Request.String path] => answered (CreateDirectory ifs path d)
  | Some DELETE_DIRECTORY, [Request.String path] => answered (DeleteDirectory ifs path d)
  | Some DELETE_DIRECTORY_RECURSIVELY, [Request.String path] => answered (DeleteDirectoryRecursively ifs path d)
  | Some RENAME_FILE, [Request.String src; Request.String dst] => answered (RenameFile ifs src dst d)
  | Some RENAME_DIRECTORY, [Request.String src; Request.String dst] => answered (RenameDirectory ifs src dst d)
  | Some GET_ENTRY_TYPE, [Request.String path] => answered (GetEntryType ifs path d)
  | Some OPEN_FILE, [Request.Pod mode; Request.String path] => answered (OpenFile ifs (num mode) path d)
  | Some OPEN_DIRECTORY, [Request.String path] => answered (OpenDirectory ifs path d)
  | _, _ => Undefined
  end.
Definition invoke_file f (command : Z) (args : list Request.arg) (d : device) : outcome (invoked * device) :=
  match find_command ITwibFileAccessor_Command [File_READ; File_WRITE; File_FLUSH; File_SET_SIZE; File_GET_SIZE]
    command, args with
  | Some File_READ, [Request.Pod offset; Request.Pod size] =>
      o ← Read f (num offset) (num size) d; answered o
  | Some File_WRITE, [Request.Pod offset; Request.Stream _] => Done (Streams (Write f (num offset)), d)
  | Some File_FLUSH, [] => answered (Flush f d)
  | Some File_SET_SIZE, [Request.Pod size] => answered (SetSize f (num size) d)
  | Some File_GET_SIZE, [] => answered (GetSize f d)
  | _, _ => Undefined
  end.
Definition invoke_directory h (command : Z) (args : list Request.arg) (d : device) : outcome (invoked * device) :=
  match find_command ITwibDirectoryAccessor_Command [Directory_READ; Directory_GET_ENTRY_COUNT] command, args with
  | Some Directory_READ, [] => answered (Directory_Read h d)
  | Some Directory_GET_ENTRY_COUNT, [] => answered (GetEntryCount h d)
  | _, _ => Undefined
  end.
Definition invoke (o : object) (command : Z) (args : list Request.arg) (d : device) : outcome (invoked * device) :=
  match o with
  | Zero =>
      if command =? ITwibDeviceInterface_Command OPEN_FILESYSTEM_ACCESSOR then
        match args with [Request.String fs] => answered (OpenFilesystemAccessor fs d) | _ => Undefined end
      else o ← others command args d; answered o
  | FilesystemObject ifs => invoke_filesystem ifs command args d
  | FileObject f => invoke_file f command args d
  | DirectoryObject h => invoke_directory h command args d
  end.

(** What a request's handler does ([Request.event]), with the stream that was set up. *)
Fixpoint handle_events (o : object) (command : Z) (l : list Request.event) (st : option write_stream)
    (d : device) : outcome (list answer * device) :=
  match l with
  | [] => Done ([], d)
  | Request.Invoke args :: l =>
      '(i, d) ← invoke o command args d;
      match i with
      | Answered a => '(answers, d) ← handle_events o command l st d; Done (a :: answers, d)
      | Streams st => handle_events o command l (Some st) d
      end
  | Request.RespondError code :: l =>
      '(answers, d) ← handle_events o command l st d; Done (inl code :: answers, d)
  | Request.Received data :: l =>
      match st with
      | None => Throws bad_function_call
      | Some st => let '(st, d) := Write_receive data st d in handle_events o command l (Some st) d
      end
  | Request.Finished _ :: l =>
      match st with
      | None => Throws bad_function_call
      | Some st => '(answers, d) ← handle_events o command l (Some st) d; Done (Write_finish st :: answers, d)
      end
  end.

Definition interface_of (o : object) : interface :=
  match o with
  | Zero => DeviceInterface
  | FilesystemObject _ => FilesystemAccessor
  | FileObject _ => FileAccessor
  | DirectoryObject _ => DirectoryAccessor
  end.

(** The pieces a payload arrives in. *)
Context (cut : bytes → list bytes).

Definition serve (object_id command : Z) (payload : bytes) (d : device) : outcome (list answer * device) :=
  match objects d !! object_id with
  | None => Done ([inl TWILI_ERR_PROTOCOL_UNRECOGNIZED_OBJECT], d)
  | Some o =>
      if command =? CLOSE_OBJECT then
        Done ([inr []], if object_id =? 0 then d
                        else mk_device (state d) (delete object_id (objects d)) (next_object_id d))
      else
        let '(h, e) := Request.OpenRequest
          (commands_of sizeof_memory_info sizeof_debug_event_info sizeof_thread_context sizeof_idirectoryentry
            (interface_of o)) command (zlen payload) in
        match h with
        | Request.Discarding => handle_events o command e None d
        | Request.Smart c h =>
            events ← Request.run device_heap zlen h [] (cut payload);
            handle_events o command events None d
        end
  end.

(** ** A call of the tool *)

Definition response_of (object_id : Z) (a : answer) : response :=
  match a with
  | inl code => mk_response 0 object_id code 0 [] []
  | inr vs =>
      let '(payload, os) := Response.packed_list vs 0 in
      mk_response 0 object_id 0 0 payload (map (mk_RemoteObject 0) os)
  end.

(** The device's program does not survive an exception of a handler (on the TCP bridge): a
    [ResultError] goes to [twili::Abort], any other ends the process. *)
Definition terminated : Z := 0.
Definition on_device {A} (o : outcome A) : outcome A :=
  match o with
  | Throws (ResultError code) => Aborts code
  | Throws _ => Aborts terminated
  | o => o
  end.

(** [SendSmartSyncRequestWithoutAssert] and [SendSmartSyncRequest] on an object, and the
    request that closes it. *)
Definition remote (object_id : Z) (m : method) (d : device) : outcome (Z * list result * device) :=
  let c := (call_of m).2 in
  '(answers, d) ← on_device (serve object_id (c_command c) (pack_params (c_params c)) d);
  match answers with
  | [a] =>
      '(code, l) ← sync_result heap string_size (c_params c) (response_of object_id a);
      Done (code, l, d)
  | _ => Undefined
  end.
Definition remote_checked (object_id : Z) (m : method) (d : device) : outcome (list result * device) :=
  '(code, l, d) ← remote object_id m d;
  if code =? 0 then Done (l, d) else Throws (ResultError code).
Definition remote_close (object_id : Z) (d : device) : outcome device :=
  if object_id =? 0 then Done d
  else '(_, d) ← on_device (serve object_id CLOSE_OBJECT [] d); Done d.

(** ** Lemmas *)

Context (Hmi : sizeof_memory_info = sizeof_MemoryInfo) (Hde : sizeof_debug_event_info = sizeof_DebugEvent)
  (Htc : sizeof_thread_context = sizeof_ThreadContext) (Hid : sizeof_idirectoryentry = sizeof_DirectoryEntry).
Context (Hdevice_heap : device_heap < 2 ^ 63) (Hheap : heap < 2 ^ 63) (Hcut : ∀ b, concat (cut b) = b).

(** The calls without a vector have the arguments they pack. *)
Definition plain (ps : list param) : bool :=
  forallb (fun v => match v with Text _ | Plain _ => true | _ => false end) (ins ps).

Lemma accepts_plain h types vs args data :
  forallb (fun v => match v with Text _ | Plain _ => true | _ => false end) vs = true →
  accepts h types vs = Some (args, data) → args = base.omap as_arg vs ∧ Request.stream_of args = None.
Proof.
  revert vs args data. induction types as [|t types IH]; intros [|v vs] args data Hv; cbn [accepts]; try done.
  - by intros [= <- _].
  - apply andb_prop in Hv as [Hv Hvs]. destruct (accept h t v) as [a|] eqn:Ea.
    + destruct (accepts h types vs) as [[l d']|] eqn:El; [|done]. intros [= <- <-].
      apply accept_spec in Ea as (_ & Ha & _). destruct (IH vs l d' Hvs El) as [-> Hs].
      split; [cbn; by rewrite Ha|]. destruct v; try done; by injection Ha as <-.
    + destruct t, v; by destruct types, vs.
Qed.

Lemma serve_plain object_id m d o :
  objects d !! object_id = Some o → (call_of m).1 = interface_of o → sized device_heap m = true →
  plain (c_params (call_of m).2) = true → zlen (pack_params (c_params (call_of m).2)) < 2 ^ 64 →
  (c_command (call_of m).2 =? CLOSE_OBJECT) = false →
  serve object_id (c_command (call_of m).2) (pack_params (c_params (call_of m).2)) d =
    ('(i, d) ← invoke o (c_command (call_of m).2) (base.omap as_arg (ins (c_params (call_of m).2))) d;
     Done (match i with Answered a => [a] | Streams _ => [] end, d)).
Proof.
  intros Ho Hi Hs Hp Hlt Hc. unfold serve. rewrite Ho, Hc, Hmi, Hde, Htc, Hid, <- Hi.
  pose proof (every_call_fits device_heap m Hs) as Hf. unfold call_fits in Hf.
  destruct (call_of m) as [i [c ps]]. cbn [fst snd c_command c_params] in *.
  destruct Hf as (e & args & data & _ & Hopen & Ha & _). rewrite Hopen.
  destruct (accepts_plain _ _ _ _ _ Hp Ha) as [-> Hst].
  destruct (accepts_run device_heap zlen (Request.parameters (e_command e)) ps (base.omap as_arg (ins ps)) data (cut (pack_params ps)) Hdevice_heap) as (l & E & _ & Hl & _);
    [intros b; pose proof (zlen_nonneg b); lia|done|apply Hcut|by rewrite Hcut|].
  rewrite Hcut in E. rewrite E, (Hl Hst). cbn [mbind outcome_bind handle_events].
  destruct (invoke o c _ d) as [[[a|st] d']| | | |]; reflexivity.
Qed.

(** The tool's half: what a call makes of an answer. *)
Definition received (object_id : Z) (ps : list param) (a : answer) (d : device) : outcome (Z * list result * device) :=
  '(code, l) ← sync_result heap string_size ps (response_of object_id a); Done (code, l, d).

Lemma remote_plain object_id m d o a d' :
  objects d !! object_id = Some o → (call_of m).1 = interface_of o → sized device_heap m = true →
  plain (c_params (call_of m).2) = true → zlen (pack_params (c_params (call_of m).2)) < 2 ^ 64 →
  (c_command (call_of m).2 =? CLOSE_OBJECT) = false →
  invoke o (c_command (call_of m).2) (base.omap as_arg (ins (c_params (call_of m).2))) d = Done (Answered a, d') →
  remote object_id m d = received object_id (c_params (call_of m).2) a d'.
Proof. intros Ho Hi Hs Hp Hlt Hc E. unfold remote. by rewrite (serve_plain object_id m d o), E. Qed.

Lemma received_values object_id ps vs d rs :
  reads_params heap string_size ps vs 0 = Some rs → zlen (Response.packed_list vs 0).2 < 2 ^ 32 →
  received object_id ps (inr vs) d = Done (0, rs, d).
Proof.
  intros Er Hn. unfold received, response_of. pose proof (sync_packed heap string_size ps vs 0 object_id 0 rs Hheap Er Hn) as E.
  destruct (Response.packed_list vs 0) as [payload os]. cbn [fst snd] in E. by rewrite E.
Qed.
Lemma received_error object_id ps code d : code ≠ 0 → received object_id ps (inl code) d = Done (code, [], d).
Proof. intros H. unfold received, response_of, sync_result. cbn. by rewrite (proj2 (Z.eqb_neq _ _) H). Qed.

(** *** The calls of a file *)

Definition writes (ds : list bytes) (st : write_stream) (d : device) : write_stream * device :=
  foldl (fun '(st, d) data => Write_receive data st d) (st, d) ds.
Lemma handle_stream o command ds pending st d :
  handle_events o command (map Request.Received ds ++ [Request.Finished pending]) (Some st) d =
    Done ([Write_finish (writes ds st d).1], (writes ds st d).2).
Proof.
  revert st d. induction ds as [|data ds IH]; intros st d; [done|]. cbn [map app handle_events].
  unfold writes. cbn [foldl]. destruct (Write_receive data st d) as [st' d']. apply IH.
Qed.

(** What is written arrives in pieces, each written where the one before ended. *)
Lemma remote_write object_id f offset data d :
  objects d !! object_id = Some (FileObject f) → 0 ≤ offset < 2 ^ 64 → zlen data + 16 < 2 ^ 64 →
  let c := FileAccessor_call (A_Write offset data) in
  ∃ ds, concat ds = data ∧
    remote object_id (OfFile (A_Write offset data)) d =
      received object_id (c_params c) (Write_finish (writes ds (Write f offset) d).1) (writes ds (Write f offset) d).2.
Proof.
  intros Ho Hoff Hlt c. unfold remote. cbn [call_of snd]. fold c.
  assert (zlen (pack_params (c_params c)) < 2 ^ 64) as Hlt'.
  { unfold c. cbn [FileAccessor_call c_params]. rewrite pack_params_ins. unfold u64_in, bytes_in.
    cbn [ins mbind list_bind app Pack]. rewrite !app_nil_r, !zlen_app, !zlen_le_split. lia. }
  destruct (accepts_run device_heap zlen [u64_arg; Request.AStream] (c_params c)
    [Request.Pod (le_split 8 offset); Request.Stream (zlen data)] data (cut (pack_params (c_params c))) Hdevice_heap)
    as (l & E & Es & _ & Hl).
  { intros b. pose proof (zlen_nonneg b). lia. }
  { unfold c. cbn [FileAccessor_call c_params]. unfold u64_in, bytes_in. cbn [ins mbind list_bind app]. apply accepts_cons;
      [by apply accept_pod, zlen_le_split|apply accepts_stream]. }
  { apply Hcut. } { by rewrite Hcut. }
  destruct Hl as (pending & [ds ->] & Hp); [done|]. rewrite (Hp (fun _ => eq_refl)) in *. clear Hp.
  exists ds. split.
  { rewrite <- Es. unfold Request.streamed. rewrite bind_app. cbn. rewrite !app_nil_r.
    clear. induction ds as [|x ds IH]; [done|]. cbn. by rewrite IH. }
  rewrite Hcut in E. unfold serve. rewrite Ho. change (c_command c =? CLOSE_OBJECT) with false. cbn [interface_of].
  change (Request.OpenRequest _ _ ?size) with
    (Request.Smart 11 (Request.new_handler [u64_arg; Request.AStream] size), @nil Request.event).
  cbv iota beta. rewrite E. cbn [mbind outcome_bind handle_events].
  change (invoke (FileObject f) (c_command c) _ d) with (Done (Streams (Write f (num (le_split 8 offset))), d)).
  cbn [mbind outcome_bind]. rewrite handle_stream. unfold num. by rewrite le_combine_le_split by (by cbn).
Qed.

Lemma received_checked object_id ps r d :
  reads_params heap string_size ps [] 0 = Some [] →
  received object_id ps (checked r d).1 (checked r d).2 = Done (r.1, [], set_state r.2 d).
Proof.
  intros Hr. destruct r as [code s]. cbn [checked fst snd]. destruct (Z.eqb_spec code 0) as [->|Hc].
  - by apply received_values.
  - by apply received_error.
Qed.

(** The side conditions of [remote_plain]: the size of the packed arguments, and what the command
    makes of them. *)
Ltac payload_bound :=
  rewrite pack_params_ins; cbn [call_of snd c_params FilesystemAccessor_call FileAccessor_call DirectoryAccessor_call];
  unfold u32_in, u64_in, string_in; cbn [ins mbind list_bind app Pack u32_out u64_out bytes_out];
  rewrite ?app_nil_r, ?zlen_app, ?zlen_le_split; change (zlen []) with 0; lia.
Ltac command_args := cbv [num]; rewrite ?le_combine_le_split by (by cbn).

Lemma remote_SetSize object_id f size d :
  objects d !! object_id = Some (FileObject f) → 0 ≤ size < 2 ^ 64 →
  remote object_id (OfFile (A_SetSize size)) d =
    Done ((ifile_set_size f size (state d)).1, [], set_state (ifile_set_size f size (state d)).2 d).
Proof.
  intros Ho Hs. rewrite (remote_plain _ _ _ (FileObject f) (SetSize f size d).1 (SetSize f size d).2 Ho);
    [|reflexivity|reflexivity|reflexivity|payload_bound|reflexivity|].
  - apply received_checked. reflexivity.
  - change (answered (SetSize f (num (le_split 8 size)) d) = answered (SetSize f size d)). command_args. reflexivity.
Qed.
Lemma remote_GetSize object_id f d n :
  objects d !! object_id = Some (FileObject f) → ifile_get_size f (state d) = inr n →
  remote object_id (OfFile A_GetSize) d = Done (0, [Got (Plain (le_split 8 n))], d).
Proof.
  intros Ho Hn. rewrite (remote_plain _ _ _ (FileObject f) (inr [u64_value n]) d Ho);
    [|reflexivity|reflexivity|reflexivity|payload_bound|reflexivity|].
  - by apply received_values.
  - change (answered (GetSize f d) = Done (Answered (inr [u64_value n]), d)). unfold GetSize. by rewrite Hn.
Qed.
Lemma remote_GetSize_error object_id f d code :
  objects d !! object_id = Some (FileObject f) → ifile_get_size f (state d) = inl code → code ≠ 0 →
  remote object_id (OfFile A_GetSize) d = Done (code, [], d).
Proof.
  intros Ho Hn Hc. rewrite (remote_plain _ _ _ (FileObject f) (inl code) d Ho);
    [|reflexivity|reflexivity|reflexivity|payload_bound|reflexivity|].
  - by apply received_error.
  - change (answered (GetSize f d) = Done (Answered (inl code), d)). unfold GetSize. by rewrite Hn.
Qed.

Lemma reads_byte_vector data :
  zlen data ≤ heap → reads heap string_size (KVector 1) (byte_vector data) = Some (Elements (zlen data) data).
Proof.
  intros H. unfold byte_vector. cbn [reads]. change (1 =? 1) with true. change (0 <? 1) with true.
  assert (zlen (map (fun b : byte => [b]) data) = zlen data) as E by (unfold zlen; by rewrite length_map).
  rewrite E, Z.mul_1_r, (proj2 (Z.leb_le _ _) H), andb_true_r. cbn [andb].
  assert (forallb (fun e : bytes => zlen e =? 1) (map (fun b : byte => [b]) data) = true) as ->.
  { clear. induction data as [|b data IH]; [done|]. by cbn. }
  do 2 f_equal. clear. induction data as [|b data IH]; [done|]. cbn. by rewrite IH.
Qed.

(** [Read]'s invocation: the exception of the vector, the error or the data. *)
Lemma invoke_Read f offset size d :
  0 ≤ offset < 2 ^ 64 → 0 ≤ size < 2 ^ 64 →
  invoke (FileObject f) (ITwibFileAccessor_Command File_READ)
    [Request.Pod (le_split 8 offset); Request.Pod (le_split 8 size)] d = (o ← Read f offset size d; answered o).
Proof.
  intros Hoff Hs. change (invoke _ _ _ d) with
    (o ← Read f (num (le_split 8 offset)) (num (le_split 8 size)) d; answered o). by command_args.
Qed.
Lemma serve_Read object_id f offset size d :
  objects d !! object_id = Some (FileObject f) → 0 ≤ offset < 2 ^ 64 → 0 ≤ size < 2 ^ 64 →
  serve object_id (ITwibFileAccessor_Command File_READ)
    (pack_params (c_params (FileAccessor_call (A_Read offset size)))) d =
    ('(a, d) ← Read f offset size d; Done ([a], d)).
Proof.
  intros Ho Hoff Hs.
  assert (zlen (pack_params (c_params (call_of (OfFile (A_Read offset size))).2)) < 2 ^ 64) as Hlt by payload_bound.
  etransitivity; [exact (serve_plain object_id (OfFile (A_Read offset size)) d (FileObject f) Ho
    eq_refl eq_refl eq_refl Hlt eq_refl)|].
  change (base.omap as_arg _) with [Request.Pod (le_split 8 offset); Request.Pod (le_split 8 size)].
  cbn [call_of snd c_command FileAccessor_call]. rewrite invoke_Read by done.
  by destruct (Read f offset size d) as [[a d']| | | |].
Qed.
Lemma remote_Read object_id f offset size d data :
  objects d !! object_id = Some (FileObject f) → 0 ≤ offset < 2 ^ 64 → 0 ≤ size < 2 ^ 64 →
  Z.max size 262144 ≤ device_heap → ifile_read f offset (Z.max size 262144) (state d) = inr data →
  zlen data ≤ heap →
  remote object_id (OfFile (A_Read offset size)) d = Done (0, [Got (Elements (zlen data) data)], d).
Proof.
  intros Ho Hoff Hs Hh Hr Hd. unfold remote. cbn [call_of snd]. change (c_command (FileAccessor_call (A_Read offset size)))
    with (ITwibFileAccessor_Command File_READ). rewrite serve_Read with (f := f) by done.
  unfold Read. rewrite allocate_fits by lia. cbn [mbind outcome_bind]. rewrite Hr. cbn [on_device].
  apply received_values; [|done]. cbn [FileAccessor_call c_params]. unfold u64_in, bytes_out. cbn [reads_params].
  by rewrite reads_byte_vector.
Qed.
(** What does not fit the device's heap ends the device's program, whatever the file holds. *)
Lemma remote_Read_oversized object_id f offset size d :
  objects d !! object_id = Some (FileObject f) → 0 ≤ offset < 2 ^ 64 → 0 ≤ size < 2 ^ 64 →
  device_heap < Z.max size 262144 →
  remote object_id (OfFile (A_Read offset size)) d = Aborts terminated.
Proof.
  intros Ho Hoff Hs Hh. unfold remote. cbn [call_of snd]. change (c_command (FileAccessor_call (A_Read offset size)))
    with (ITwibFileAccessor_Command File_READ). rewrite serve_Read with (f := f) by done.
  unfold Read, Request.allocate. rewrite Z.mul_1_r, (proj2 (Z.ltb_lt _ _) Hh). by destruct (_ <? _).
Qed.

(** *** The calls of a file system *)

Lemma sized_text m path :
  zlen path ≤ device_heap → ins (c_params (call_of m).2) = [Text path] →
  match m with OfDebugger _ => False | _ => True end → sized device_heap m = true.
Proof.
  intros Hp E Hm. unfold sized. rewrite E. cbn [forallb]. rewrite (proj2 (Z.leb_le _ _) Hp). by destruct m.
Qed.

Lemma received_object object_id ps d id :
  reads_params heap string_size ps [Response.VObject id] 0 = Some [GotObject (mk_RemoteObject 0 id)] →
  received object_id ps (inr [Response.VObject id]) d = Done (0, [GotObject (mk_RemoteObject 0 id)], d).
Proof. intros E. by apply received_values. Qed.

Definition next_object (o : object) (d : device) : device := (MakeObject o d).2.

Lemma remote_OpenFile object_id ifs mode path d f :
  objects d !! object_id = Some (FilesystemObject ifs) → 0 ≤ mode < 2 ^ 32 → zlen path ≤ device_heap →
  ifilesystem_open_file ifs mode (path_buffer path) (state d) = inr f →
  remote object_id (OfFilesystem (S_OpenFile mode path)) d =
    Done (0, [GotObject (mk_RemoteObject 0 (next_object_id d))], next_object (FileObject f) d).
Proof.
  intros Ho Hm Hp Hf. rewrite (remote_plain _ _ _ (FilesystemObject ifs) (inr [Response.VObject (next_object_id d)])
    (next_object (FileObject f) d) Ho); [|reflexivity| |reflexivity|payload_bound|reflexivity|].
  - by apply received_object.
  - unfold sized. cbn. rewrite andb_true_r. by apply andb_true_intro; split; [apply Z.leb_le|].
  - change (answered (OpenFile ifs (num (le_split 4 mode)) path d) =
      Done (Answered (inr [Response.VObject (next_object_id d)]), next_object (FileObject f) d)).
    command_args. unfold OpenFile. by rewrite Hf.
Qed.
Lemma remote_OpenFile_error object_id ifs mode path d code :
  objects d !! object_id = Some (FilesystemObject ifs) → 0 ≤ mode < 2 ^ 32 → zlen path ≤ device_heap →
  ifilesystem_open_file ifs mode (path_buffer path) (state d) = inl code → code ≠ 0 →
  remote object_id (OfFilesystem (S_OpenFile mode path)) d = Done (code, [], d).
Proof.
  intros Ho Hm Hp Hf Hc. rewrite (remote_plain _ _ _ (FilesystemObject ifs) (inl code) d Ho);
    [|reflexivity| |reflexivity|payload_bound|reflexivity|].
  - by apply received_error.
  - unfold sized. cbn. rewrite andb_true_r. by apply andb_true_intro; split; [apply Z.leb_le|].
  - change (answered (OpenFile ifs (num (le_split 4 mode)) path d) = Done (Answered (inl code), d)).
    command_args. unfold OpenFile. by rewrite Hf.
Qed.
Lemma remote_CreateFile object_id ifs mode size path d :
  objects d !! object_id = Some (FilesystemObject ifs) → 0 ≤ mode < 2 ^ 32 → 0 ≤ size < 2 ^ 64 →
  zlen path ≤ device_heap →
  let r := ifilesystem_create_file ifs mode size (path_buffer path) (state d) in
  remote object_id (OfFilesystem (S_CreateFile mode size path)) d = Done (r.1, [], set_state r.2 d).
Proof.
  intros Ho Hm Hs Hp r.
  rewrite (remote_plain _ _ _ (FilesystemObject ifs) (CreateFile ifs mode size path d).1
    (CreateFile ifs mode size path d).2 Ho); [|reflexivity| |reflexivity|payload_bound|reflexivity|].
  - by apply received_checked.
  - unfold sized. cbn. rewrite andb_true_r. by apply andb_true_intro; split; [apply Z.leb_le|].
  - change (answered (CreateFile ifs (num (le_split 4 mode)) (num (le_split 8 size)) path d) =
      answered (CreateFile ifs mode size path d)). by command_args.
Qed.
Lemma remote_GetEntryType object_id ifs path d :
  objects d !! object_id = Some (FilesystemObject ifs) → zlen path ≤ device_heap →
  remote object_id (OfFilesystem (S_IsFile path)) d =
    match ifilesystem_get_entry_type ifs (path_buffer path) (state d) with
    | inl code => received object_id (c_params (FilesystemAccessor_call (S_IsFile path))) (inl code) d
    | inr t => Done (0, [Got (Plain (le_split 4 t))], d)
    end.
Proof.
  intros Ho Hp.
  rewrite (remote_plain _ _ _ (FilesystemObject ifs) (GetEntryType ifs path d).1 (GetEntryType ifs path d).2 Ho);
    [|reflexivity|by apply (sized_text _ path)|reflexivity|payload_bound|reflexivity|reflexivity].
  unfold GetEntryType. destruct (ifilesystem_get_entry_type _ _ _) as [code|t]; [done|].
  by apply received_values.
Qed.
Lemma remote_OpenFilesystemAccessor fs ifs d :
  objects d !! 0 = Some Zero → zlen fs ≤ device_heap → mount fs (state d) = Some (inr ifs) →
  remote 0 (OfDevice (D_OpenFilesystemAccessor fs)) d =
    Done (0, [GotObject (mk_RemoteObject 0 (next_object_id d))], next_object (FilesystemObject ifs) d).
Proof.
  intros Ho Hp Hm. rewrite (remote_plain _ _ _ Zero (inr [Response.VObject (next_object_id d)])
    (next_object (FilesystemObject ifs) d) Ho); [|reflexivity|by apply (sized_text _ fs)|reflexivity| |reflexivity|].
  - by apply received_object.
  - cbn [call_of snd c_params DeviceInterface_call]. payload_bound.
  - change (answered (OpenFilesystemAccessor fs d) =
      Done (Answered (inr [Response.VObject (next_object_id d)]), next_object (FilesystemObject ifs) d)).
    unfold OpenFilesystemAccessor. by rewrite Hm.
Qed.
Lemma remote_close_object object_id o d :
  objects d !! object_id = Some o → object_id ≠ 0 →
  remote_close object_id d = Done (mk_device (state d) (delete object_id (objects d)) (next_object_id d)).
Proof.
  intros Ho Hn. unfold remote_close, serve. rewrite (proj2 (Z.eqb_neq _ _) Hn), Ho. reflexivity.
Qed.

(** *** The calls of a directory *)

Lemma remote_OpenDirectory object_id ifs path d h :
  objects d !! object_id = Some (FilesystemObject ifs) → zlen path ≤ device_heap →
  ifilesystem_open_directory ifs 3 (path_buffer path) (state d) = inr h →
  remote object_id (OfFilesystem (S_OpenDirectory path)) d =
    Done (0, [GotObject (mk_RemoteObject 0 (next_object_id d))], next_object (DirectoryObject h) d).
Proof.
  intros Ho Hp Hh. rewrite (remote_plain _ _ _ (FilesystemObject ifs) (inr [Response.VObject (next_object_id d)])
    (next_object (DirectoryObject h) d) Ho); [|reflexivity|by apply (sized_text _ path)|reflexivity|payload_bound|reflexivity|].
  - by apply received_object.
  - change (answered (OpenDirectory ifs path d) =
      Done (Answered (inr [Response.VObject (next_object_id d)]), next_object (DirectoryObject h) d)).
    unfold OpenDirectory. by rewrite Hh.
Qed.
Lemma remote_GetEntryCount object_id h d n :
  objects d !! object_id = Some (DirectoryObject h) → idirectory_get_entry_count h (state d) = inr n →
  remote object_id (OfDirectory R_GetEntryCount) d = Done (0, [Got (Plain (le_split 8 n))], d).
Proof.
  intros Ho Hn. rewrite (remote_plain _ _ _ (DirectoryObject h) (inr [u64_value n]) d Ho);
    [|reflexivity|reflexivity|reflexivity|payload_bound|reflexivity|].
  - by apply received_values.
  - change (answered (GetEntryCount h d) = Done (Answered (inr [u64_value n]), d)). unfold GetEntryCount. by rewrite Hn.
Qed.
Lemma remote_Directory_Read object_id h d entries s :
  objects d !! object_id = Some (DirectoryObject h) →
  idirectory_read h (32 * sizeof_DirectoryEntry) (state d) = (0, entries, s) →
  forallb (fun e => zlen e =? sizeof_DirectoryEntry) entries = true → zlen entries * sizeof_DirectoryEntry ≤ heap →
  remote object_id (OfDirectory R_Read) d =
    Done (0, [Got (Elements (zlen entries) (concat entries))], set_state s d).
Proof.
  intros Ho Hr Hsize Hfit. rewrite (remote_plain _ _ _ (DirectoryObject h)
    (inr [Response.VVector sizeof_DirectoryEntry entries]) (set_state s d) Ho);
    [|reflexivity|reflexivity|reflexivity|payload_bound|reflexivity|].
  - apply received_values; [|done]. cbn [call_of snd c_params DirectoryAccessor_call reads_params reads].
    rewrite Z.eqb_refl, Hsize, (proj2 (Z.leb_le _ _) Hfit). reflexivity.
  - change (answered (Directory_Read h d) =
      Done (Answered (inr [Response.VVector sizeof_DirectoryEntry entries]), set_state s d)).
    unfold Directory_Read. by rewrite Hid, Hr.
Qed.

(** *** What a stream writes *)

Context (file : ifilesystem → bytes → storage → option bytes) (opens : ifile → ifilesystem * bytes)
  `{!fsp_srv_laws file opens}.

Lemma overwrite_nil (c : bytes) offset : overwrite c offset [] = c.
Proof. unfold overwrite. cbn. rewrite Z.add_0_r. apply ztake_zdrop. Qed.
Lemma overwrite_app (c a b : bytes) offset :
  0 ≤ offset ≤ zlen c →
  overwrite (overwrite c offset a) (offset + zlen a) b = overwrite c offset (a ++ b).
Proof.
  intros H. pose proof (zlen_nonneg a). pose proof (zlen_nonneg b).
  assert (zlen (ztake offset c ++ a) = offset + zlen a) as E.
  { rewrite zlen_app, zlen_ztake. lia. }
  unfold overwrite at 1 3. unfold overwrite. rewrite (app_assoc (ztake offset c)).
  rewrite ztake_app by lia. rewrite zdrop_app_ge by lia. rewrite E, zdrop_zdrop by lia.
  rewrite zlen_app, <- !app_assoc. do 4 f_equal. lia.
Qed.

(** If no write failed, the file holds the data, and no other file has changed. *)
Lemma writes_spec ds st d c :
  r st = 0 → file (opens (w_file st)).1 (opens (w_file st)).2 (state d) = Some c →
  0 ≤ offset_shared st → offset_shared st + zlen (concat ds) ≤ zlen c < 2 ^ 64 →
  r (writes ds st d).1 = 0 →
  ∃ s, (writes ds st d).2 = set_state s d ∧
    file (opens (w_file st)).1 (opens (w_file st)).2 s = Some (overwrite c (offset_shared st) (concat ds)) ∧
    ∀ ifs p, (ifs, p) ≠ opens (w_file st) → file ifs p s = file ifs p (state d).
Proof.
  revert st d c. induction ds as [|data ds IH]; intros st d c Hr Hc H0 H1 Hend.
  - exists (state d). split_and!; [by destruct d| |done]. cbn [concat]. by rewrite overwrite_nil.
  - cbn [concat] in *. rewrite zlen_app in H1. pose proof (zlen_nonneg (concat ds)). pose proof (zlen_nonneg data).
    unfold writes in *. cbn [foldl] in *. unfold Write_receive in *. rewrite Hr in *. change (0 =? 0) with true in *.
    cbv iota in *. pose proof (write_frame (w_file st) (offset_shared st) data (state d)) as Hframe.
    destruct (ifile_write _ _ _ _) as [code s1] eqn:E.
    destruct (decide (code = 0)) as [->|Hne].
    + pose proof (write_data _ _ _ _ _ _ E Hc H0 ltac:(lia)) as Hc1. rewrite u64_small in * by lia.
      destruct (IH (mk_write (w_file st) (offset_shared st + zlen data) 0) (set_state s1 d)
        (overwrite c (offset_shared st) data) eq_refl Hc1) as (s & Es & Hf & Hfr); cbn [w_file offset_shared r] in *;
        [lia|rewrite zlen_overwrite; lia|exact Hend|].
      exists s. rewrite Es. split_and!; [done| |].
      * rewrite Hf. f_equal. apply overwrite_app; lia.
      * intros ifs p Hp. rewrite Hfr by done. by apply Hframe.
    + exfalso. revert Hend. clear -Hne. set (st' := mk_write _ _ code).
      assert (r st' ≠ 0) as Hst by done. clearbody st'. generalize (set_state s1 d). revert Hst. clear.
      induction ds as [|x ds IH]; intros Hst d; [done|]. cbn [foldl]. unfold Write_receive.
      rewrite (proj2 (Z.eqb_neq _ _) Hst). by apply IH.
Qed.
(** A service whose writes succeed. *)
Lemma writes_reliable ds st d :
  (∀ f offset data s, (ifile_write f offset data s).1 = 0) → r st = 0 → r (writes ds st d).1 = 0.
Proof.
  intros Hw. revert st d. induction ds as [|data ds IH]; intros st d Hr; [done|].
  unfold writes. cbn [foldl]. unfold Write_receive. rewrite Hr. cbn [Z.eqb].
  pose proof (Hw (w_file st) (offset_shared st) data (state d)) as Hc.
  destruct (ifile_write _ _ _ _) as [code s]. by apply IH.
Qed.
End filesystem.
End Filesystem.
