(* ===== verification/FSCommands.v ===== *)
(** * The tool's file system commands

    twib/tool/Twib.cpp, class FSCommands: pull, push, ls, rm, mkdir and mv, over the calls of
    twib/tool/interfaces and the local files of twib/platform ([File]).  The world is the
    device of [Filesystem] and the host; the host's system calls are the class [posix], what
    they document is [posix_laws].  The messages for the user and the sorting of ls are left
    out. *)
From stdpp Require Import gmap.
From S2P Require Import Prelude Err Protocol Request Response ToolClient Interfaces Filesystem.
Import Protocol.

Module FSCommands.
Import Err ToolClient Interfaces Filesystem.

(** [None] is a failure of the call. *)
Class posix (host fd : Type) : Type := {
  stat : bytes → host → option (option bool);           (* is it a directory, if it exists *)
  open_rdonly : bytes → host → option (fd * host);
  open_wronly_creat : bytes → host → option (fd * host);
  fstat_size : fd → host → option Z;
  read : fd → Z → host → option (bytes * host);
  write : fd → bytes → host → option (Z * host);
  close : fd → host → host;
  stdout : fd }.

(** What the system documents: [contents] is what a path holds, [cursor] the path and the
    position of a descriptor. *)
Class posix_laws {host fd : Type} `{!posix host fd} (contents : bytes → host → option bytes)
    (cursor : fd → host → option (bytes * Z)) : Prop := {
  open_rdonly_cursor p h n h' :
    open_rdonly p h = Some (n, h') → cursor n h' = Some (p, 0) ∧ ∀ q, contents q h' = contents q h;
  fstat_size_contents n h p pos c size :
    fstat_size n h = Some size → cursor n h = Some (p, pos) → contents p h = Some c → size = zlen c;
  read_contents n size h data h' p pos c :
    read n size h = Some (data, h') → cursor n h = Some (p, pos) → contents p h = Some c →
    (∃ k, k ≤ size ∧ data = ztake k (zdrop pos c)) ∧ cursor n h' = Some (p, pos + zlen data) ∧
    ∀ q, contents q h' = contents q h;
  open_wronly_contents p h n h' :
    open_wronly_creat p h = Some (n, h') →
    cursor n h' = Some (p, 0) ∧ contents p h' = Some (default [] (contents p h)) ∧
    ∀ q, q ≠ p → contents q h' = contents q h;
  write_contents n data h k h' p pos c :
    write n data h = Some (k, h') → cursor n h = Some (p, pos) → contents p h = Some c → 0 ≤ pos ≤ zlen c →
    0 ≤ k ≤ zlen data ∧ cursor n h' = Some (p, pos + k) ∧
    contents p h' = Some (overwrite c pos (ztake k data)) ∧ ∀ q, q ≠ p → contents q h' = contents q h;
  close_contents n h q : contents q (close n h) = contents q h }.

Section commands.
Context {storage ifilesystem ifile idirectory : Type} `{!fsp_srv storage ifilesystem ifile idirectory}.
Context {host fd : Type} `{!posix host fd}.
#[local] Notation device := (@Filesystem.device storage ifilesystem ifile idirectory).
Context (device_heap heap string_size : Z).
Context (sizeof_memory_info sizeof_debug_event_info sizeof_thread_context sizeof_idirectoryentry : Z).
Context (others : Z → list Request.arg → device → outcome (Filesystem.answer * device)).
Context (cut : bytes → list bytes).

Record world : Type := mk_world { dev : device; local : host }.
Definition set_dev (d : device) (w : world) : world := mk_world d (local w).
Definition set_local (h : host) (w : world) : world := mk_world (dev w) h.

(** ** Local files *)

(** A descriptor, and whether it is closed when the object goes. *)
Record File : Type := mk_File { descriptor : fd; owned : bool }.

(** A system call that throws a [NetworkError] when it fails. *)
Definition syscall {A} (o : option (A * host)) (w : world) : outcome (A * world) :=
  match o with None => Throws runtime_error | Some (a, h) => Done (a, set_local h w) end.

Definition StatFile (path : bytes) (w : world) : outcome (option bool) :=
  match stat path (local w) with None => Throws runtime_error | Some s => Done s end.
Definition OpenForRead (path : bytes) (w : world) : outcome (File * world) :=
  '(n, w) ← syscall (open_rdonly path (local w)) w; Done (mk_File n true, w).
Definition OpenForClobberingWrite (path : bytes) (w : world) : outcome (File * world) :=
  '(n, w) ← syscall (open_wronly_creat path (local w)) w; Done (mk_File n true, w).
Definition BorrowStdout : File := mk_File stdout false.
Definition File_GetSize (f : File) (w : world) : outcome Z :=
  match fstat_size (descriptor f) (local w) with None => Throws runtime_error | Some n => Done n end.
Definition File_Read (f : File) (size : Z) (w : world) : outcome (bytes * world) :=
  syscall (read (descriptor f) size (local w)) w.
Definition File_Write (f : File) (data : bytes) (w : world) : outcome (Z * world) :=
  syscall (write (descriptor f) data (local w)) w.
Definition File_destroy (f : File) (w : world) : world :=
  if owned f then set_local (close (descriptor f) (local w)) w else w.

(** [basename] *)
Fixpoint drop_slashes (l : bytes) : bytes :=
  match l with
  | b :: l' => if decide (b = Byte.x2f) then drop_slashes l' else l
  | [] => []
  end.
Fixpoint until_slash (l : bytes) : bytes :=
  match l with
  | b :: l => if decide (b = Byte.x2f) then [] else b :: until_slash l
  | [] => []
  end.
Definition BaseName (path : bytes) : bytes :=
  let path := c_str path in
  if decide (path = []) then str "."
  else match drop_slashes (rev path) with
       | [] => str "/"
       | l => rev (until_slash l)
       end.

(** ** The calls, by the types they return *)

Definition on_dev {A} (o : outcome (A * device)) (w : world) : outcome (A * world) :=
  '(a, d) ← o; Done (a, set_dev d w).
Definition call (o : Z) (m : method) (w : world) : outcome (list result * world) :=
  on_dev (remote_checked device_heap heap string_size sizeof_memory_info sizeof_debug_event_info
    sizeof_thread_context sizeof_idirectoryentry others cut o m (dev w)) w.
Definition call_code (o : Z) (m : method) (w : world) : outcome (Z * list result * world) :=
  on_dev (remote device_heap heap string_size sizeof_memory_info sizeof_debug_event_info
    sizeof_thread_context sizeof_idirectoryentry others cut o m (dev w)) w.
(** [~RemoteObject] *)
Definition destroy_object (o : Z) (w : world) : outcome world :=
  d ← remote_close device_heap sizeof_memory_info sizeof_debug_event_info
    sizeof_thread_context sizeof_idirectoryentry others cut o (dev w);
  Done (set_dev d w).

Definition call_object (o : Z) (m : method) (w : world) : outcome (Z * world) :=
  '(l, w) ← call o m w; match l with [GotObject r] => Done (o_object r, w) | _ => Undefined end.
Definition call_void (o : Z) (m : method) (w : world) : outcome world :=
  '(l, w) ← call o m w; match l with [] => Done w | _ => Undefined end.
Definition call_number (o : Z) (m : method) (w : world) : outcome (Z * world) :=
  '(l, w) ← call o m w; match l with [Got (Plain v)] => Done (le_combine v, w) | _ => Undefined end.
Definition call_vector (o : Z) (m : method) (w : world) : outcome (Z * bytes * world) :=
  '(l, w) ← call o m w; match l with [Got (Elements n raw)] => Done (n, raw, w) | _ => Undefined end.

(** [CreateFile], [CreateDirectory]: false if there is one already. *)
Definition call_created (o : Z) (m : method) (w : world) : outcome (bool * world) :=
  '(code, _, w) ← call_code o m w;
  if code =? 1026 then Done (false, w)
  else if code =? 0 then Done (true, w) else Throws (ResultError code).
Definition IsFile (itfsa : Z) (path : bytes) (w : world) : outcome (option bool * world) :=
  '(code, l, w) ← call_code itfsa (OfFilesystem (S_IsFile path)) w;
  if code =? 514 then Done (None, w)
  else if negb (code =? 0) then Throws (ResultError code)
  else match l with [Got (Plain v)] => Done (Some (0 <? le_combine v), w) | _ => Undefined end.

(** ** The commands: the exit status *)

Definition SLASH : byte := Byte.x2f.
(** [if(s.back() != '/') s.push_back('/')] *)
Definition end_slash (s : bytes) : outcome bytes :=
  match last s with
  | None => Undefined
  | Some b => Done (if decide (b = SLASH) then s else s ++ [SLASH])
  end.
(** With more than one argument the last is the target. *)
Definition split_target (from : list bytes) (to : bytes) : list bytes * bytes :=
  if 1 <? zlen from then (removelast from, List.last from []) else (from, to).

Fixpoint pull_loop (fuel : nat) (itfa : Z) (dst : File) (total_size offset : Z) (w : world) :
    outcome (Z * world) :=
  match fuel with
  | O => OutOfFuel
  | S fuel =>
      if offset <? total_size then
        '(n, data, w) ← call_vector itfa (OfFile (A_Read offset (total_size - offset))) w;
        if n =? 0 then Done (1, w)
        else
          '(r, w) ← File_Write dst data w;
          if r <? n then Done (1, w)
          else pull_loop fuel itfa dst total_size (u64 (offset + n)) w
      else Done (0, w)
  end.
Definition pull_file (itfsa : Z) (pull_to : bytes) (is_target_directory : bool) (src : bytes) (w : world) :
    outcome (Z * world) :=
  '(itfa, w) ← call_object itfsa (OfFilesystem (S_OpenFile 1 (SLASH :: src))) w;
  '(dst, w) ← (if decide (pull_to = str "-") then Done (BorrowStdout, w)
               else OpenForClobberingWrite (if is_target_directory then pull_to ++ src else pull_to) w);
  '(total_size, w) ← call_number itfa (OfFile A_GetSize) w;
  '(status, w) ← pull_loop (S (Z.to_nat total_size)) itfa dst total_size 0 w;
  w ← destroy_object itfa (File_destroy dst w);
  Done (status, w).
(** The loop over the files; it ends with the first that fails. *)
Fixpoint for_files (f : bytes → world → outcome (Z * world)) (l : list bytes) (w : world) : outcome (Z * world) :=
  match l with
  | [] => Done (0, w)
  | src :: l => '(status, w) ← f src w; if status =? 0 then for_files f l w else Done (status, w)
  end.
Definition OpenFilesystem (fsname : bytes) (w : world) : outcome (Z * world) :=
  call_object 0 (OfDevice (D_OpenFilesystemAccessor fsname)) w.
(** A command on an open file system: it is closed at the end. *)
Definition with_filesystem (fsname : bytes) (f : Z → world → outcome (Z * world)) (w : world) : outcome (Z * world) :=
  '(itfsa, w) ← OpenFilesystem fsname w;
  '(status, w) ← f itfsa w;
  w ← destroy_object itfsa w;
  Done (status, w).

Definition DoPull (fsname : bytes) (pull_from : list bytes) (pull_to : bytes) (w : world) : outcome (Z * world) :=
  let '(pull_from, pull_to) := split_target pull_from pull_to in
  '(ok, is_target_directory, pull_to) ←
    (if decide (pull_to = str "-") then Done (true, false, pull_to)
     else
       target_stat ← StatFile pull_to w;
       let is_target_directory := default false target_stat in
       if (1 <? zlen pull_from) && negb is_target_directory then Done (false, false, pull_to)
       else if is_target_directory then to ← end_slash pull_to; Done (true, true, to)
       else Done (true, false, pull_to));
  if negb ok then Done (1, w)
  else with_filesystem fsname (fun itfsa => for_files (pull_file itfsa pull_to is_target_directory) pull_from) w.

Fixpoint push_loop (fuel : nat) (itfa : Z) (src : File) (total_size offset : Z) (w : world) : outcome (Z * world) :=
  match fuel with
  | O => OutOfFuel
  | S fuel =>
      if offset <? total_size then
        let n := Z.min (total_size - offset) 65536 in
        '(data, w) ← File_Read src n w;
        if zlen data <? n then Done (1, w)
        else
          w ← call_void itfa (OfFile (A_Write offset data)) w;
          push_loop fuel itfa src total_size (offset + n) w
      else Done (0, w)
  end.
Definition push_file (itfsa : Z) (push_to : bytes) (is_target_directory : bool) (src_path : bytes) (w : world) :
    outcome (Z * world) :=
  '(src, w) ← OpenForRead src_path w;
  let dst_path := if is_target_directory then push_to ++ BaseName src_path else push_to in
  total_size ← File_GetSize src w;
  '(_, w) ← call_created itfsa (OfFilesystem (S_CreateFile 0 total_size dst_path)) w;
  '(itfa, w) ← call_object itfsa (OfFilesystem (S_OpenFile 6 dst_path)) w;
  w ← call_void itfa (OfFile (A_SetSize total_size)) w;
  '(status, w) ← push_loop (S (Z.to_nat total_size)) itfa src total_size 0 w;
  w ← destroy_object itfa w;
  Done (status, File_destroy src w).
Definition DoPush (fsname : bytes) (push_from : list bytes) (push_to : bytes) (w : world) : outcome (Z * world) :=
  let '(push_from, push_to) := split_target push_from push_to in
  push_to ← (match push_to with
             | [] => Undefined
             | b :: _ => Done (if decide (b = SLASH) then push_to else SLASH :: push_to)
             end);
  with_filesystem fsname (fun itfsa w =>
    '(is_file_result, w) ← IsFile itfsa push_to w;
    let is_target_directory := match is_file_result with Some b => negb b | None => false end in
    if (1 <? zlen push_from) && negb is_target_directory then Done (1, w)
    else
      push_to ← (if is_target_directory : bool then end_slash push_to else Done push_to);
      for_files (push_file itfsa push_to is_target_directory) push_from w) w.

(** The entries that were read, until there are as many as were counted. *)
Fixpoint ls_loop (fuel : nat) (itda count : Z) (entries : list bytes) (w : world) :
    outcome (option (list bytes) * world) :=
  match fuel with
  | O => OutOfFuel
  | S fuel =>
      if zlen entries <? count then
        '(n, raw, w) ← call_vector itda (OfDirectory R_Read) w;
        if count <? u64 (zlen entries + n) then Done (None, w)
        else
          let batch := map (fun i => ztake sizeof_DirectoryEntry (zdrop (Z.of_nat i * sizeof_DirectoryEntry) raw))
                         (seq 0 (Z.to_nat n)) in
          ls_loop fuel itda count (entries ++ batch) w
      else Done (Some entries, w)
  end.
Definition DoLs (fuel : nat) (fsname ls_path : bytes) (w : world) : outcome (option (list bytes) * world) :=
  '(itfsa, w) ← OpenFilesystem fsname w;
  '(itda, w) ← call_object itfsa (OfFilesystem (S_OpenDirectory ls_path)) w;
  '(count, w) ← call_number itda (OfDirectory R_GetEntryCount) w;
  _ ← Request.allocate heap sizeof_DirectoryEntry count;
  '(entries, w) ← ls_loop fuel itda count [] w;
  w ← destroy_object itda w;
  w ← destroy_object itfsa w;
  Done (entries, w).

Definition DoRm (fsname : bytes) (rm_recursive : bool) (rm_path : bytes) : world → outcome (Z * world) :=
  with_filesystem fsname (fun itfsa w =>
    '(is_file_result, w) ← IsFile itfsa rm_path w;
    match is_file_result with
    | None => Done (1, w)
    | Some is_file =>
        w ← call_void itfsa (OfFilesystem
              (if is_file : bool then S_DeleteFile rm_path
               else if rm_recursive then S_DeleteDirectoryRecursively rm_path else S_DeleteDirectory rm_path)) w;
        Done (0, w)
    end).
Definition DoMkdir (fsname mkdir_path : bytes) : world → outcome (Z * world) :=
  with_filesystem fsname (fun itfsa w =>
    '(created, w) ← call_created itfsa (OfFilesystem (S_CreateDirectory mkdir_path)) w;
    Done (if created : bool then 0 else 1, w)).
Definition DoMv (fsname mv_src mv_dst : bytes) : world → outcome (Z * world) :=
  with_filesystem fsname (fun itfsa w =>
    '(is_src_file, w) ← IsFile itfsa mv_src w;
    match is_src_file with
    | None => Done (1, w)
    | Some is_file =>
        '(is_dst_file, w) ← IsFile itfsa mv_dst w;
        mv_dst ← (match is_dst_file with
                  | Some false => to ← end_slash mv_dst; Done (to ++ BaseName mv_src)
                  | _ => Done mv_dst
                  end);
        w ← call_void itfsa (OfFilesystem
              (if is_file : bool then S_RenameFile mv_src mv_dst else S_RenameDirectory mv_src mv_dst)) w;
        Done (0, w)
    end).

(** ** Lemmas *)

Context (file : ifilesystem → bytes → storage → option bytes) (opens : ifile → ifilesystem * bytes)
  `{!fsp_srv_laws file opens}.
Context (contents : bytes → host → option bytes) (cursor : fd → host → option (bytes * Z))
  `{!posix_laws contents cursor}.
Context (Hmi : sizeof_memory_info = sizeof_MemoryInfo) (Hde : sizeof_debug_event_info = sizeof_DebugEvent)
  (Htc : sizeof_thread_context = sizeof_ThreadContext) (Hid : sizeof_idirectoryentry = sizeof_DirectoryEntry).
Context (Hdevice_heap : device_heap < 2 ^ 63) (Hheap : heap < 2 ^ 63) (Hcut : ∀ b, concat (cut b) = b).

#[local] Notation storage_of w := (state (dev w)).
#[local] Notation object_of w o := (objects (dev w) !! o).

(** *** The calls on the world *)

Lemma call_Write itfa f offset data w :
  object_of w itfa = Some (FileObject f) → 0 ≤ offset < 2 ^ 64 → zlen data + 16 < 2 ^ 64 →
  ∃ ds, concat ds = data ∧
    call_void itfa (OfFile (A_Write offset data)) w =
      let '(st, d) := writes ds (Write f offset) (dev w) in
      if r st =? 0 then Done (set_dev d w) else Throws (ResultError (r st)).
Proof.
  intros Ho Hoff Hd. unfold call_void, call, remote_checked.
  destruct (remote_write device_heap heap string_size sizeof_memory_info sizeof_debug_event_info
    sizeof_thread_context sizeof_idirectoryentry others cut Hdevice_heap Hcut itfa f offset data (dev w)) as (ds & Hds & E); [done..|].
  exists ds. split; [done|]. rewrite E. destruct (writes ds (Write f offset) (dev w)) as [st d]. cbn [fst snd].
  unfold Write_finish. destruct (Z.eqb_spec (r st) 0) as [Hr|Hr].
  - rewrite (received_values heap string_size Hheap itfa _ [] d []) by done. reflexivity.
  - rewrite received_error by done. cbn [mbind outcome_bind on_dev]. by rewrite (proj2 (Z.eqb_neq _ _) Hr).
Qed.

Lemma set_dev_same w : set_dev (dev w) w = w.
Proof. by destruct w. Qed.
Lemma call_throws o m w code :
  code ≠ 0 →
  remote device_heap heap string_size sizeof_memory_info sizeof_debug_event_info sizeof_thread_context
    sizeof_idirectoryentry others cut o m (dev w) = Done (code, [], dev w) →
  call o m w = Throws (ResultError code).
Proof.
  intros Hc E. unfold call, remote_checked. rewrite E. cbn [mbind outcome_bind].
  by rewrite (proj2 (Z.eqb_neq _ _) Hc).
Qed.
Lemma call_done o m w l d :
  remote device_heap heap string_size sizeof_memory_info sizeof_debug_event_info sizeof_thread_context
    sizeof_idirectoryentry others cut o m (dev w) = Done (0, l, d) →
  call o m w = Done (l, set_dev d w).
Proof. intros E. unfold call, remote_checked. by rewrite E. Qed.

Lemma call_SetSize itfa f size w :
  object_of w itfa = Some (FileObject f) → 0 ≤ size < 2 ^ 64 →
  call_void itfa (OfFile (A_SetSize size)) w =
    let '(code, s) := ifile_set_size f size (storage_of w) in
    if code =? 0 then Done (set_dev (set_state s (dev w)) w) else Throws (ResultError code).
Proof.
  intros Ho Hs. unfold call_void, call, remote_checked. rewrite (remote_SetSize _ _ _ _ _ _ _ _ _ Hmi Hde Htc Hid
    Hdevice_heap Hheap Hcut itfa f) by done.
  destruct (ifile_set_size _ _ _) as [code s]. cbn [fst snd mbind outcome_bind]. by destruct (code =? 0).
Qed.
Lemma call_GetSize itfa f w :
  object_of w itfa = Some (FileObject f) →
  match ifile_get_size f (storage_of w) with
  | inl code => call_number itfa (OfFile A_GetSize) w = Throws (ResultError code)
  | inr n => 0 ≤ n < 2 ^ 64 → call_number itfa (OfFile A_GetSize) w = Done (n, w)
  end.
Proof.
  intros Ho. destruct (ifile_get_size _ _) as [code|n] eqn:E; unfold call_number.
  - rewrite (call_throws _ _ _ code); [done|by eapply get_size_error|].
    by rewrite (remote_GetSize_error _ _ _ _ _ _ _ _ _ Hmi Hde Htc Hid Hdevice_heap Hcut itfa f _ code)
      by (first [done|by eapply get_size_error]).
  - intros Hn. rewrite (call_done _ _ _ [Got (Plain (le_split 8 n))] (dev w)).
    + cbn [mbind outcome_bind]. by rewrite set_dev_same, le_combine_le_split.
    + by rewrite (remote_GetSize _ _ _ _ _ _ _ _ _ Hmi Hde Htc Hid Hdevice_heap Hheap Hcut itfa f _ n).
Qed.
Lemma call_OpenFile itfsa ifs mode path w :
  object_of w itfsa = Some (FilesystemObject ifs) → 0 ≤ mode < 2 ^ 32 → zlen path ≤ device_heap →
  call_object itfsa (OfFilesystem (S_OpenFile mode path)) w =
    match ifilesystem_open_file ifs mode (path_buffer path) (storage_of w) with
    | inl code => Throws (ResultError code)
    | inr f => Done (next_object_id (dev w), set_dev (next_object (FileObject f) (dev w)) w)
    end.
Proof.
  intros Ho Hm Hp. unfold call_object. destruct (ifilesystem_open_file _ _ _ _) as [code|f] eqn:E.
  - rewrite (call_throws _ _ _ code); [done|by eapply open_file_error|].
    by rewrite (remote_OpenFile_error _ _ _ _ _ _ _ _ _ Hmi Hde Htc Hid Hdevice_heap Hcut itfsa ifs mode path _ code)
      by (first [done|by eapply open_file_error]).
  - by rewrite (call_done _ _ _ _ _ (remote_OpenFile _ _ _ _ _ _ _ _ _ Hmi Hde Htc Hid Hdevice_heap Hheap Hcut
      itfsa ifs mode path _ f Ho Hm Hp E)).
Qed.
Lemma call_CreateFile itfsa ifs mode size path w :
  object_of w itfsa = Some (FilesystemObject ifs) → 0 ≤ mode < 2 ^ 32 → 0 ≤ size < 2 ^ 64 → zlen path ≤ device_heap →
  call_created itfsa (OfFilesystem (S_CreateFile mode size path)) w =
    let '(code, s) := ifilesystem_create_file ifs mode size (path_buffer path) (storage_of w) in
    if code =? 1026 then Done (false, set_dev (set_state s (dev w)) w)
    else if code =? 0 then Done (true, set_dev (set_state s (dev w)) w) else Throws (ResultError code).
Proof.
  intros Ho Hm Hs Hp. unfold call_created, call_code. rewrite (remote_CreateFile _ _ _ _ _ _ _ _ _ Hmi Hde Htc Hid
    Hdevice_heap Hheap Hcut itfsa ifs) by done. by destruct (ifilesystem_create_file _ _ _ _ _) as [code s].
Qed.
Lemma call_IsFile itfsa ifs path w :
  object_of w itfsa = Some (FilesystemObject ifs) → zlen path ≤ device_heap →
  IsFile itfsa path w =
    match ifilesystem_get_entry_type ifs (path_buffer path) (storage_of w) with
    | inl code => if code =? 514 then Done (None, w) else Throws (ResultError code)
    | inr t => Done (Some (0 <? t), w)
    end.
Proof.
  intros Ho Hp. unfold IsFile, call_code. rewrite (remote_GetEntryType _ _ _ _ _ _ _ _ _ Hmi Hde Htc Hid
    Hdevice_heap Hheap Hcut itfsa ifs) by done.
  destruct (ifilesystem_get_entry_type _ _ _) as [code|t] eqn:E.
  - assert (code ≠ 0) as Hc by (by eapply entry_type_error). rewrite received_error by done.
    cbn [on_dev mbind outcome_bind]. rewrite (proj2 (Z.eqb_neq code 0) Hc), set_dev_same. by destruct (code =? 514).
  - cbn [on_dev mbind outcome_bind]. change (0 =? 514) with false. cbn [negb Z.eqb].
    rewrite set_dev_same, le_combine_le_split; [done|]. by eapply entry_type_range.
Qed.
Lemma call_OpenFilesystem fsname ifs w :
  object_of w 0 = Some Zero → zlen fsname ≤ device_heap → mount fsname (storage_of w) = Some (inr ifs) →
  OpenFilesystem fsname w = Done (next_object_id (dev w), set_dev (next_object (FilesystemObject ifs) (dev w)) w).
Proof.
  intros Ho Hp Hm. unfold OpenFilesystem, call_object.
  by rewrite (call_done _ _ _ _ _ (remote_OpenFilesystemAccessor _ _ _ _ _ _ _ _ _ Hmi Hde Htc Hid Hdevice_heap
    Hheap Hcut fsname ifs _ Ho Hp Hm)).
Qed.
Lemma destroy_spec o obj w :
  object_of w o = Some obj → o ≠ 0 →
  destroy_object o w = Done (set_dev (mk_device (storage_of w) (delete o (objects (dev w))) (next_object_id (dev w))) w).
Proof. intros Ho Hn. unfold destroy_object. by rewrite (remote_close_object _ _ _ _ _ _ _ _ obj). Qed.

(** *** The loops *)

Lemma ztake_more (c : bytes) a n : 0 ≤ a → 0 ≤ n → ztake (a + n) c = ztake a c ++ ztake n (zdrop a c).
Proof.
  intros Ha Hn. rewrite <- (ztake_zdrop a c) at 1. destruct (Z.leb_spec a (zlen c)) as [H|H].
  - rewrite ztake_app_ge by (rewrite zlen_ztake; lia). f_equal. f_equal. rewrite zlen_ztake. lia.
  - rewrite zdrop_all, (ztake_all n []) by (change (zlen []) with 0; lia).
    rewrite !app_nil_r, (ztake_all a c) by lia. apply ztake_all. lia.
Qed.
Lemma overwrite_prefix (b c : bytes) a n :
  0 ≤ a → 0 ≤ n → a + n ≤ zlen b → zlen b = zlen c → ztake a b = ztake a c →
  ztake (a + n) (overwrite b a (ztake n (zdrop a c))) = ztake (a + n) c.
Proof.
  intros Ha Hn Hle El E. unfold overwrite. rewrite app_assoc, ztake_app.
  - rewrite E. symmetry. by apply ztake_more.
  - rewrite zlen_app, !zlen_ztake, zlen_zdrop. lia.
Qed.

(** The world after an action that only changes the storage and the host. *)
Definition moved (w w' : world) : Prop :=
  objects (dev w') = objects (dev w) ∧ next_object_id (dev w') = next_object_id (dev w).
Definition other_files (w w' : world) (fp : ifilesystem * bytes) : Prop :=
  ∀ ifs p, (ifs, p) ≠ fp → file ifs p (storage_of w') = file ifs p (storage_of w).
Definition same_host (w w' : world) : Prop := ∀ q, contents q (local w') = contents q (local w).

Lemma File_Read_spec src size w data w' p pos c :
  File_Read src size w = Done (data, w') → cursor (descriptor src) (local w) = Some (p, pos) →
  contents p (local w) = Some c →
  ∃ k, k ≤ size ∧ data = ztake k (zdrop pos c) ∧ cursor (descriptor src) (local w') = Some (p, pos + zlen data) ∧
    same_host w w' ∧ dev w' = dev w.
Proof.
  unfold File_Read, syscall. destruct (read _ _ _) as [[x h]|] eqn:E; [|done]. intros [= <- <-] Hcur Hc.
  destruct (read_contents _ _ _ _ _ _ _ _ E Hcur Hc) as ((k & Hk & ->) & Hcur' & Hsame). by exists k.
Qed.

Lemma push_loop_spec fuel itfa f src c b p w w' total offset :
  object_of w itfa = Some (FileObject f) → cursor (descriptor src) (local w) = Some (p, offset) →
  contents p (local w) = Some c → file (opens f).1 (opens f).2 (storage_of w) = Some b →
  zlen c = total → zlen b = total → total < 2 ^ 63 → 0 ≤ offset ≤ total → ztake offset b = ztake offset c →
  push_loop fuel itfa src total offset w = Done (0, w') →
  file (opens f).1 (opens f).2 (storage_of w') = Some c ∧ other_files w w' (opens f) ∧ same_host w w' ∧ moved w w'.
Proof.
  revert b w offset. induction fuel as [|fuel IH]; intros b w offset Ho Hcur Hc Hb Hlc Hlb Hlt Hoff Heq; [done|].
  cbn [push_loop]. destruct (Z.ltb_spec offset total) as [Hmore|Hdone].
  - set (n := Z.min (total - offset) 65536). intros ([data w1] & Hread & H)%bind_Done_inv.
    destruct (Z.ltb_spec (zlen data) n) as [|Hfull]; [done|].
    destruct (File_Read_spec _ _ _ _ _ _ _ _ Hread Hcur Hc) as (k & Hk & Hdata & Hcur1 & Hsame1 & Hdev1).
    assert (zlen data = n) as Hn by (subst data; rewrite zlen_ztake, zlen_zdrop in *; lia).
    assert (data = ztake n (zdrop offset c)) as Hdata'.
    { replace n with k; [done|]. subst data. rewrite zlen_ztake, zlen_zdrop in Hn. lia. }
    destruct (call_Write itfa f offset data w1) as (ds & Hds & E); [by rewrite Hdev1|lia|lia|].
    apply bind_Done_inv in H as (w2 & H2 & H). rewrite E in H2.
    destruct (writes_spec file opens ds (Write f offset) (dev w1) b) as (s & Es & Hf & Hfr); cbn [Write w_file offset_shared r];
      try done; try (rewrite ?Hdev1, ?Hds; first [done|lia]).
    { destruct (writes ds (Write f offset) (dev w1)) as [st d]. cbn [fst]. by destruct (Z.eqb_spec (r st) 0). }
    cbn [Write w_file offset_shared] in *. destruct (writes ds (Write f offset) (dev w1)) as [st d]. cbn [snd] in Es.
    destruct (r st =? 0); [|done]. injection H2 as <-. subst d. rewrite Hds, Hdata' in Hf.
    destruct (IH (overwrite b offset (ztake n (zdrop offset c))) (set_dev (set_state s (dev w1)) w1) (offset + n))
      as (Hf' & Ho' & Hh' & Hm'); cbn [set_dev set_state dev local state objects] in *.
    + by rewrite Hdev1.
    + by rewrite <- Hn.
    + by rewrite Hsame1.
    + exact Hf.
    + done.
    + rewrite zlen_overwrite; [done|lia|]. rewrite <- Hdata'. lia.
    + done.
    + lia.
    + apply overwrite_prefix; lia || done.
    + done.
    + split_and!; [done| | |].
      * intros ifs q Hq. rewrite Ho' by done. cbn [set_dev set_state dev state]. rewrite Hfr by done. by rewrite Hdev1.
      * intros q. rewrite Hh'. apply Hsame1.
      * destruct Hm' as [E1 E2]. unfold moved. rewrite E1, E2. cbn [set_dev set_state dev objects next_object_id].
        by rewrite Hdev1.
  - intros [= <-]. replace offset with total in Heq by lia. rewrite !ztake_all in Heq by lia. subst b.
    by split_and!.
Qed.

Lemma call_Read itfa f offset size c w :
  object_of w itfa = Some (FileObject f) → 0 ≤ offset < 2 ^ 64 → 0 ≤ size < 2 ^ 64 →
  file (opens f).1 (opens f).2 (storage_of w) = Some c → zlen c ≤ heap →
  if device_heap <? Z.max size 262144 then
    call_vector itfa (OfFile (A_Read offset size)) w = Aborts terminated
  else
    match ifile_read f offset (Z.max size 262144) (storage_of w) with
    | inl code => ∀ r, call_vector itfa (OfFile (A_Read offset size)) w ≠ Done r
    | inr data => call_vector itfa (OfFile (A_Read offset size)) w = Done (zlen data, data, w)
    end.
Proof.
  intros Ho Hoff Hs Hc Hh. unfold call_vector. destruct (Z.ltb_spec device_heap (Z.max size 262144)) as [Hbig|Hfit].
  - unfold call, remote_checked. by rewrite (remote_Read_oversized _ _ _ _ _ _ _ _ _ Hmi Hde Htc Hid Hdevice_heap Hcut itfa f).
  - destruct (ifile_read _ _ _ _) as [code|data] eqn:E.
    + intros r. unfold call, remote_checked, remote. cbn [call_of snd].
      change (c_command (FileAccessor_call (A_Read offset size))) with (ITwibFileAccessor_Command File_READ).
      rewrite (serve_Read _ _ _ _ _ _ _ Hmi Hde Htc Hid Hdevice_heap Hcut itfa f) by done.
      unfold Read. rewrite allocate_fits by lia. cbn [mbind outcome_bind]. rewrite E. cbn [on_device mbind outcome_bind].
      pose proof (received_error heap string_size itfa (c_params (FileAccessor_call (A_Read offset size))) code (dev w)) as Hr.
      unfold received in Hr. rewrite Hr by (by eapply read_error). cbn [mbind outcome_bind].
      by rewrite (proj2 (Z.eqb_neq code 0)) by (by eapply read_error).
    + rewrite (call_done _ _ _ [Got (Elements (zlen data) data)] (dev w)).
      * cbn [mbind outcome_bind]. by rewrite set_dev_same.
      * apply (remote_Read _ _ _ _ _ _ _ _ _ Hmi Hde Htc Hid Hdevice_heap Hheap Hcut itfa f); try done.
        destruct (read_data _ _ _ _ _ _ E Hc) as (k & Hk & ->). rewrite zlen_ztake, zlen_zdrop. pose proof (zlen_nonneg c). lia.
Qed.

Lemma File_Write_spec dst data w k w' p pos c :
  File_Write dst data w = Done (k, w') → cursor (descriptor dst) (local w) = Some (p, pos) →
  contents p (local w) = Some c → 0 ≤ pos ≤ zlen c →
  0 ≤ k ≤ zlen data ∧ cursor (descriptor dst) (local w') = Some (p, pos + k) ∧
  contents p (local w') = Some (overwrite c pos (ztake k data)) ∧
  (∀ q, q ≠ p → contents q (local w') = contents q (local w)) ∧ dev w' = dev w.
Proof.
  unfold File_Write, syscall. destruct (write _ _ _) as [[x h]|] eqn:E; [|done]. intros [= <- <-] Hcur Hc Hpos.
  destruct (write_contents _ _ _ _ _ _ _ _ E Hcur Hc Hpos) as (H1 & H2 & H3 & H4).
  destruct H1. by split_and!.
Qed.

Lemma zlen_overwrite_0 (old x : bytes) : zlen x ≤ zlen (overwrite old 0 x).
Proof.
  unfold overwrite. rewrite !zlen_app. pose proof (zlen_nonneg (ztake 0 old)).
  pose proof (zlen_nonneg (zdrop (0 + zlen x) old)). lia.
Qed.

(** What a read gives is a piece of the file at the offset. *)
Lemma read_piece f offset size s x c :
  ifile_read f offset size s = inr x → file (opens f).1 (opens f).2 s = Some c → 0 ≤ offset ≤ zlen c →
  zlen x ≤ zlen c - offset ∧ x = ztake (zlen x) (zdrop offset c).
Proof.
  intros Er Hc Hoff. destruct (read_data _ _ _ _ _ _ Er Hc) as (k & _ & ->).
  rewrite zlen_ztake, zlen_zdrop. split; [lia|]. destruct (Z.leb_spec k (zlen c - offset)) as [H|H].
  - destruct (Z.leb_spec 0 k); [f_equal; lia|]. rewrite !ztake_0 by lia. done.
  - rewrite !ztake_all; [done|rewrite zlen_zdrop; lia..].
Qed.
Lemma pull_loop_spec fuel itfa f dst c old p w w' offset :
  object_of w itfa = Some (FileObject f) → cursor (descriptor dst) (local w) = Some (p, offset) →
  contents p (local w) = Some (overwrite old 0 (ztake offset c)) →
  file (opens f).1 (opens f).2 (storage_of w) = Some c → zlen c ≤ heap → 0 ≤ offset ≤ zlen c →
  pull_loop fuel itfa dst (zlen c) offset w = Done (0, w') →
  contents p (local w') = Some (overwrite old 0 c) ∧ (∀ q, q ≠ p → contents q (local w') = contents q (local w)) ∧
  dev w' = dev w.
Proof.
  revert w offset. induction fuel as [|fuel IH]; intros w offset Ho Hcur Hcon Hc Hh Hoff; [done|].
  cbn [pull_loop]. destruct (Z.ltb_spec offset (zlen c)) as [Hmore|Hdone].
  - intros ([[n data] w1] & Hread & H)%bind_Done_inv.
    pose proof (call_Read itfa f offset (zlen c - offset) c w Ho ltac:(lia) ltac:(lia) Hc Hh) as E.
    destruct (device_heap <? _); [by rewrite E in Hread|].
    destruct (ifile_read _ _ _ _) as [code|x] eqn:Er; [by destruct (E (n, data, w1))|].
    rewrite E in Hread. injection Hread as <- <- <-. clear E.
    destruct (read_piece _ _ _ _ _ _ Er Hc Hoff) as [Hlx Hx'].
    destruct (Z.eqb_spec (zlen x) 0); [done|].
    apply bind_Done_inv in H as ([m w2] & Hw & H). destruct (Z.ltb_spec m (zlen x)) as [|Hfull]; [done|].
    assert (zlen (ztake offset c) = offset) as Hlo by (rewrite zlen_ztake; lia).
    pose proof (zlen_overwrite_0 old (ztake offset c)) as Hge. rewrite Hlo in Hge.
    destruct (File_Write_spec _ _ _ _ _ _ _ _ Hw Hcur Hcon ltac:(lia)) as (Hm & Hcur2 & Hcon2 & Hsame2 & Hdev2).
    assert (m = zlen x) as -> by lia. rewrite (ztake_all (zlen x)) in Hcon2 by lia.
    rewrite u64_small in H by (pose proof (zlen_nonneg x); lia).
    pose proof (zlen_nonneg x).
    destruct (IH w2 (offset + zlen x)) as (H1 & H2 & H3).
    + by rewrite Hdev2.
    + done.
    + rewrite Hcon2, ztake_more, <- Hx' by lia. f_equal. rewrite <- overwrite_app by (zlen_facts; lia).
      by rewrite Hlo.
    + by rewrite Hdev2.
    + done.
    + lia.
    + done.
    + split_and!; [done| |by rewrite H3]. intros q Hq. rewrite H2 by done. by apply Hsame2.
  - intros [= <-]. rewrite ztake_all in Hcon by lia. by split_and!.
Qed.

(** *** One file *)

Lemma next_object_spec o w :
  object_of w (next_object_id (dev w)) = None → 0 ≤ next_object_id (dev w) < 2 ^ 32 - 1 →
  next_object o (dev w) =
    mk_device (storage_of w) (<[next_object_id (dev w) := o]> (objects (dev w))) (next_object_id (dev w) + 1).
Proof. intros Hn Hr. unfold next_object, MakeObject. cbn [snd]. by rewrite Hn, u32_small by lia. Qed.

Lemma OpenForRead_spec path w src w' :
  OpenForRead path w = Done (src, w') →
  cursor (descriptor src) (local w') = Some (path, 0) ∧ same_host w w' ∧ dev w' = dev w.
Proof.
  unfold OpenForRead, syscall. destruct (open_rdonly _ _) as [[n h]|] eqn:E; [|done]. intros [= <- <-].
  by destruct (open_rdonly_cursor _ _ _ _ E).
Qed.
Lemma File_GetSize_spec f w size p pos c :
  File_GetSize f w = Done size → cursor (descriptor f) (local w) = Some (p, pos) → contents p (local w) = Some c →
  size = zlen c.
Proof.
  unfold File_GetSize. destruct (fstat_size _ _) as [n|] eqn:E; [|done]. intros [= <-] Hcur Hc.
  by eapply fstat_size_contents.
Qed.
Lemma File_destroy_spec f w : same_host w (File_destroy f w) ∧ dev (File_destroy f w) = dev w.
Proof. unfold File_destroy. destruct (owned f); [|done]. split; [|done]. intros q. apply close_contents. Qed.

(** The target is created if it is not there, opened, and given its size. *)
Lemma created_opened_sized {A} itfsa ifs path size (K : Z → world → outcome A) w res :
  object_of w itfsa = Some (FilesystemObject ifs) → object_of w (next_object_id (dev w)) = None →
  0 < next_object_id (dev w) < 2 ^ 32 - 1 → zlen path ≤ device_heap → 0 ≤ size < 2 ^ 64 →
  ('(_, w) ← call_created itfsa (OfFilesystem (S_CreateFile 0 size path)) w;
   '(itfa, w) ← call_object itfsa (OfFilesystem (S_OpenFile 6 path)) w;
   w ← call_void itfa (OfFile (A_SetSize size)) w; K itfa w) = Done res →
  let n := next_object_id (dev w) in
  ∃ f b s, opens f = (ifs, path_buffer path) ∧
    K n (set_dev (mk_device s (<[n := FileObject f]> (objects (dev w))) (n + 1)) w) = Done res ∧
    file ifs (path_buffer path) s = Some b ∧ zlen b = size ∧
    ∀ ifs' p', (ifs', p') ≠ (ifs, path_buffer path) → file ifs' p' s = file ifs' p' (storage_of w).
Proof.
  intros Ho Hnone Hr Hfit Hs H n. rewrite (call_CreateFile itfsa ifs) in H by (done || lia).
  pose proof (create_frame ifs 0 size (path_buffer path) (storage_of w)) as Hfr1.
  destruct (ifilesystem_create_file _ _ _ _ _) as [code s1]. cbn [snd] in Hfr1.
  set (w1 := set_dev (set_state s1 (dev w)) w) in *.
  assert (('(itfa, w) ← call_object itfsa (OfFilesystem (S_OpenFile 6 path)) w1;
    w ← call_void itfa (OfFile (A_SetSize size)) w; K itfa w) = Done res) as H1.
  { destruct (code =? 1026); [exact H|]. by destruct (code =? 0). }
  clear H. rewrite (call_OpenFile itfsa ifs) in H1 by (done || lia).
  destruct (ifilesystem_open_file _ _ _ _) as [|f] eqn:Eopen; [done|].
  destruct (open_file _ _ _ _ _ Eopen) as [Hopens _]. cbn [mbind outcome_bind] in H1.
  rewrite next_object_spec in H1 by (done || (cbn; lia)).
  rewrite (call_SetSize _ f) in H1 by (done || (cbn; by rewrite lookup_insert_eq)).
  match type of H1 with context [ifile_set_size f size ?st] =>
    pose proof (set_size_frame f size st) as Hfr2; destruct (ifile_set_size f size st) as [code2 s2] eqn:Esize end.
  destruct (Z.eqb_spec code2 0) as [->|]; [|done].
  apply set_size_size in Esize as (b & Hb & Hlb); [|lia]. rewrite Hopens in *.
  exists f, b, s2. split_and!; [done|exact H1|done|done|].
  intros ifs' p' Hp. rewrite Hfr2 by done. by apply Hfr1.
Qed.

Lemma push_file_spec itfsa ifs push_to is_dir src c w w' :
  let dst := if is_dir : bool then push_to ++ BaseName src else push_to in
  object_of w itfsa = Some (FilesystemObject ifs) → object_of w (next_object_id (dev w)) = None →
  0 < next_object_id (dev w) < 2 ^ 32 - 1 → zlen dst ≤ device_heap →
  contents src (local w) = Some c → zlen c < 2 ^ 63 →
  push_file itfsa push_to is_dir src w = Done (0, w') →
  file ifs (path_buffer dst) (storage_of w') = Some c ∧ other_files w w' (ifs, path_buffer dst) ∧
  same_host w w' ∧ objects (dev w') = objects (dev w) ∧ next_object_id (dev w') = next_object_id (dev w) + 1.
Proof.
  intros dst Ho Hnone Hn Hfit Hc Hlt. unfold push_file. fold dst. pose proof (zlen_nonneg c) as Hpos.
  intros ([sf w1] & H1 & H)%bind_Done_inv. apply OpenForRead_spec in H1 as (Hcur & Hsame1 & Hdev1).
  apply bind_Done_inv in H as (size & Hsize & H).
  apply (File_GetSize_spec _ _ _ src 0 c) in Hsize as ->; [|done|by rewrite Hsame1].
  rewrite <- Hdev1 in Ho, Hnone, Hn.
  destruct (created_opened_sized itfsa ifs dst (zlen c) _ w1 _ Ho Hnone Hn Hfit ltac:(lia) H)
    as (f & b & s & Hopens & H' & Hb & Hlb & Hfr). clear H. rewrite Hdev1 in *. set (n := next_object_id (dev w)) in *.
  apply bind_Done_inv in H' as ([status w5] & Hloop & H').
  assert (status = 0) as ->. { apply bind_Done_inv in H' as (w6 & _ & H'). by injection H'. }
  set (w4 := set_dev _ w1) in *. assert (object_of w4 n = Some (FileObject f)) as Hof by (cbn; by rewrite lookup_insert_eq).
  destruct (push_loop_spec (S (Z.to_nat (zlen c))) n f sf c b src w4 w5 (zlen c) 0) as (Hf & Hoth & Hhost & Eo5 & En5); try done; try lia.
  { by cbn; rewrite Hsame1. } { by rewrite Hopens. }
  rewrite (destroy_spec n (FileObject f)) in H' by (rewrite ?Eo5; done || lia).
  cbn [mbind outcome_bind] in H'. injection H' as <-. set (w6 := set_dev _ w5).
  destruct (File_destroy_spec sf w6) as [Hh6 Hd6]. unfold other_files. rewrite Hd6, Hopens in *. cbn [fst snd] in *.
  split_and!.
  - exact Hf.
  - intros ifs' p' Hp. cbn [w6 set_dev dev state]. rewrite Hoth by done. by apply Hfr.
  - intros q. rewrite Hh6. cbn. rewrite Hhost. cbn. apply Hsame1.
  - cbn. rewrite Eo5. cbn. by apply delete_insert_id.
  - cbn. by rewrite En5.
Qed.

Lemma OpenForClobberingWrite_spec path w dst w' :
  OpenForClobberingWrite path w = Done (dst, w') →
  cursor (descriptor dst) (local w') = Some (path, 0) ∧
  contents path (local w') = Some (default [] (contents path (local w))) ∧
  (∀ q, q ≠ path → contents q (local w') = contents q (local w)) ∧ dev w' = dev w.
Proof.
  unfold OpenForClobberingWrite, syscall. destruct (open_wronly_creat _ _) as [[n h]|] eqn:E; [|done].
  intros [= <- <-]. destruct (open_wronly_contents _ _ _ _ E) as (H1 & H2 & H3). by split_and!.
Qed.

Lemma pull_file_spec itfsa ifs pull_to is_dir src c w w' :
  let target := if is_dir : bool then pull_to ++ src else pull_to in
  object_of w itfsa = Some (FilesystemObject ifs) → object_of w (next_object_id (dev w)) = None →
  0 < next_object_id (dev w) < 2 ^ 32 - 1 → zlen src < device_heap → pull_to ≠ str "-" →
  file ifs (path_buffer (SLASH :: src)) (storage_of w) = Some c → zlen c ≤ heap →
  pull_file itfsa pull_to is_dir src w = Done (0, w') →
  contents target (local w') = Some (overwrite (default [] (contents target (local w))) 0 c) ∧
  (∀ q, q ≠ target → contents q (local w') = contents q (local w)) ∧
  storage_of w' = storage_of w ∧ objects (dev w') = objects (dev w) ∧
  next_object_id (dev w') = next_object_id (dev w) + 1.
Proof.
  intros target Ho Hnone Hn Hfit Hto Hc Hheapc. unfold pull_file.
  rewrite (call_OpenFile itfsa ifs) by (done || lia || (rewrite zlen_cons; lia)).
  destruct (ifilesystem_open_file _ _ _ _) as [|f] eqn:Eopen; [done|].
  destruct (open_file _ _ _ _ _ Eopen) as [Hopens _]. cbn [mbind outcome_bind].
  rewrite next_object_spec by (done || lia). set (n := next_object_id (dev w)) in *. set (w1 := set_dev _ w).
  rewrite decide_False by done. fold target. intros ([dst w2] & H2 & H)%bind_Done_inv.
  apply OpenForClobberingWrite_spec in H2 as (Hcur & Hcon & Hoth & Hdev2).
  assert (object_of w2 n = Some (FileObject f)) as Hof by (rewrite Hdev2; cbn; by rewrite lookup_insert_eq).
  assert (file (opens f).1 (opens f).2 (storage_of w2) = Some c) as Hc2 by (rewrite Hdev2, Hopens; done).
  pose proof (call_GetSize n f w2 Hof) as Hsize.
  destruct (ifile_get_size _ _) as [|size] eqn:Es; [by rewrite Hsize in H|].
  apply (size_data _ _ _ c) in Es as ->; [|done]. pose proof (zlen_nonneg c). rewrite Hsize in H by lia.
  cbn [mbind outcome_bind] in H. apply bind_Done_inv in H as ([status w3] & Hloop & H).
  assert (status = 0) as ->. { apply bind_Done_inv in H as (w4 & _ & H). by injection H. }
  destruct (pull_loop_spec (S (Z.to_nat (zlen c))) n f dst c (default [] (contents target (local w))) target w2 w3 0)
    as (Hr & Hoth3 & Hdev3); try done; try lia.
  destruct (File_destroy_spec dst w3) as [Hh4 Hd4].
  rewrite (destroy_spec n (FileObject f)) in H by (rewrite ?Hd4, ?Hdev3; done || lia).
  cbn [mbind outcome_bind] in H. injection H as <-. cbn [set_dev dev local state objects next_object_id].
  rewrite Hd4, Hdev3, Hdev2. cbn [w1 set_dev dev local state objects next_object_id].
  rewrite !Hh4, Hr. split_and!; [done| |done|by apply delete_insert_id|done].
  intros q Hq. rewrite Hh4, Hoth3 by done. by apply Hoth.
Qed.

(** *** A command *)

Definition absolute (path : bytes) : bytes :=
  match path with b :: _ => if decide (b = SLASH) then path else SLASH :: path | [] => [] end.
Definition inside (directory name : bytes) : bytes :=
  match last directory with
  | Some b => (if decide (b = SLASH) then directory else directory ++ [SLASH]) ++ name
  | None => name
  end.

(** The device has the file system, and numbers for some objects. *)
Record ready (fsname : bytes) (ifs : ifilesystem) (w : world) : Prop := {
  ready_zero : object_of w 0 = Some Zero;
  ready_name : zlen fsname ≤ device_heap;
  ready_mount : mount fsname (storage_of w) = Some (inr ifs);
  ready_range : 0 < next_object_id (dev w) < 2 ^ 32 - 2;
  ready_fresh id : next_object_id (dev w) ≤ id → object_of w id = None }.

Definition opened_world (ifs : ifilesystem) (w : world) : world :=
  set_dev (mk_device (storage_of w) (<[next_object_id (dev w) := FilesystemObject ifs]> (objects (dev w)))
    (next_object_id (dev w) + 1)) w.
Lemma with_filesystem_opens fsname ifs f w :
  ready fsname ifs w →
  with_filesystem fsname f w =
    ('(status, w') ← f (next_object_id (dev w)) (opened_world ifs w);
     w' ← destroy_object (next_object_id (dev w)) w'; Done (status, w')).
Proof.
  intros [Hz Hname Hm Hr Hf]. unfold with_filesystem. rewrite (call_OpenFilesystem fsname ifs) by done.
  cbn [mbind outcome_bind]. rewrite next_object_spec; [done|by apply Hf|lia].
Qed.
(** The file system is closed at the end. *)
Lemma with_filesystem_done fsname ifs f w w' status :
  ready fsname ifs w → with_filesystem fsname f w = Done (status, w') →
  ∃ w2, f (next_object_id (dev w)) (opened_world ifs w) = Done (status, w2) ∧
    (objects (dev w2) = objects (dev (opened_world ifs w)) →
      w' = set_dev (mk_device (storage_of w2) (objects (dev w)) (next_object_id (dev w2))) w2).
Proof.
  intros Hr H. rewrite (with_filesystem_opens fsname ifs) in H by done. destruct Hr as [_ _ _ Hrange Hfresh].
  apply bind_Done_inv in H as ([status2 w2] & Hf & H). exists w2.
  assert (status2 = status) as ->. { apply bind_Done_inv in H as (w3 & _ & H). by injection H. }
  split; [done|]. intros Eo. rewrite (destroy_spec _ (FilesystemObject ifs)) in H
    by (rewrite ?Eo; first [lia|by cbn; rewrite lookup_insert_eq]).
  cbn [mbind outcome_bind] in H. injection H as <-. rewrite Eo. cbn [opened_world set_dev dev objects].
  by rewrite delete_insert_id by (by apply Hfresh).
Qed.
Lemma end_slash_inside directory to name : end_slash directory = Done to → to ++ name = inside directory name.
Proof. unfold end_slash, inside. destruct (last directory); [|done]. by intros [= <-]. Qed.
Lemma opened_lookup ifs w :
  object_of (opened_world ifs w) (next_object_id (dev w)) = Some (FilesystemObject ifs).
Proof. cbn. by rewrite lookup_insert_eq. Qed.
Lemma opened_fresh fsname ifs w :
  ready fsname ifs w → object_of (opened_world ifs w) (next_object_id (dev (opened_world ifs w))) = None.
Proof. intros [_ _ _ Hr Hf]. cbn. rewrite lookup_insert_ne by lia. apply Hf. lia. Qed.

(** Where the file of a push goes. *)
Definition push_target (ifs : ifilesystem) (src dst : bytes) (s : storage) : bytes :=
  match ifilesystem_get_entry_type ifs (path_buffer (absolute dst)) s with
  | inr 0 => inside (absolute dst) (BaseName src)
  | _ => absolute dst
  end.
Lemma for_one_file f src w status w' : for_files f [src] w = Done (status, w') → f src w = Done (status, w').
Proof.
  cbn [for_files]. intros ([s w1] & E & H)%bind_Done_inv. rewrite E. destruct (Z.eqb_spec s 0) as [->|]; by injection H as <- <-.
Qed.

Lemma DoPush_next fsname ifs src dst to c w w' :
  let target := push_target ifs src dst (storage_of w) in
  ready fsname ifs w → contents src (local w) = Some c → zlen c < 2 ^ 63 →
  zlen (absolute dst) ≤ device_heap → zlen target ≤ device_heap →
  DoPush fsname [src; dst] to w = Done (0, w') →
  file ifs (path_buffer target) (storage_of w') = Some c ∧ other_files w w' (ifs, path_buffer target) ∧
  same_host w w' ∧ objects (dev w') = objects (dev w) ∧
  next_object_id (dev w') = next_object_id (dev w) + 2.
Proof.
  intros target Hready Hc Hlt Hdst Htarget H. unfold DoPush in H. change (split_target [src; dst] to) with ([src], dst) in H.
  cbv beta iota in H. apply bind_Done_inv in H as (dst' & Hd & H).
  assert (dst' = absolute dst) as -> by (destruct dst; [done|by injection Hd as <-]). clear Hd.
  apply (with_filesystem_done fsname ifs) in H as (w2 & H & Hend); [|done].
  rewrite (call_IsFile _ ifs) in H by (done || apply opened_lookup).
  change (storage_of (opened_world ifs w)) with (storage_of w) in H.
  assert (∃ (is_dir : bool) (to' : bytes), (if is_dir then to' ++ BaseName src else to') = target ∧
    for_files (push_file (next_object_id (dev w)) to' is_dir) [src] (opened_world ifs w) = Done (0, w2))
    as (is_dir & to' & Et & H1).
  { subst target. unfold push_target. destruct (ifilesystem_get_entry_type _ _ _) as [code|t] eqn:E.
    - exists false, (absolute dst). destruct (code =? 514); [|done]. by split.
    - pose proof (entry_type_range _ _ _ _ E). cbn [mbind outcome_bind] in H.
      destruct (Z.ltb_spec 0 t); cbn [negb andb] in H.
      + exists false, (absolute dst). split; [by destruct t|exact H].
      + assert (t = 0) as -> by lia. apply bind_Done_inv in H as (to' & Hto & H).
        exists true, to'. split; [by apply end_slash_inside|exact H]. }
  apply for_one_file in H1. pose proof Hready as [_ _ _ Hrange _].
  apply (push_file_spec _ ifs to' is_dir src c) in H1; try done;
    [|apply opened_lookup|by eapply opened_fresh|cbn; lia|by rewrite Et].
  rewrite Et in H1. destruct H1 as (Hf & Hoth & Hhost & Eo & En). rewrite (Hend Eo).
  split_and!; try done. cbn [set_dev dev next_object_id]. rewrite En. cbn. lia.
Qed.
(** Where the file of a pull goes. *)
Definition pull_target (src dst : bytes) (h : host) : bytes :=
  match stat dst h with Some (Some true) => inside dst src | _ => dst end.

Lemma DoPull_spec fsname ifs src dst to c w w' :
  let target := pull_target src dst (local w) in
  ready fsname ifs w → file ifs (path_buffer (SLASH :: src)) (storage_of w) = Some c → zlen c ≤ heap →
  zlen src < device_heap → dst ≠ str "-" →
  DoPull fsname [src; dst] to w = Done (0, w') →
  contents target (local w') = Some (overwrite (default [] (contents target (local w))) 0 c) ∧
  (∀ q, q ≠ target → contents q (local w') = contents q (local w)) ∧
  storage_of w' = storage_of w ∧ objects (dev w') = objects (dev w).
Proof.
  intros target Hready Hc Hlt Hsrc Hdst H. unfold DoPull in H. change (split_target [src; dst] to) with ([src], dst) in H.
  cbv beta iota in H. rewrite decide_False in H by done.
  assert (∃ (is_dir : bool) (to' : bytes), (if is_dir then to' ++ src else to') = target ∧ to' ≠ str "-" ∧
    with_filesystem fsname (fun itfsa => for_files (pull_file itfsa to' is_dir) [src]) w = Done (0, w'))
    as (is_dir & to' & Et & Hto & H1).
  { subst target. unfold pull_target, StatFile in *. destruct (stat dst (local w)) as [st|]; [|done].
    cbn [mbind outcome_bind] in H. destruct st as [[]|]; cbn [default] in H.
    - change (if (1 <? zlen [src]) && negb true then _ else ?x) with x in H.
      destruct (end_slash dst) as [to'| | | |] eqn:Es; try done. exists true, to'.
      split_and!; [by apply end_slash_inside| |exact H]. intros ->. unfold end_slash in Es.
      destruct (last dst) as [b|] eqn:El; [|done]. case_decide; injection Es as Es; [done|].
      by destruct dst as [|x [|y dst]].
    - by exists false, dst.
    - by exists false, dst. }
  apply (with_filesystem_done fsname ifs) in H1 as (w2 & H1 & Hend); [|done].
  apply for_one_file in H1. pose proof Hready as [_ _ _ Hrange _].
  apply (pull_file_spec _ ifs to' is_dir src c) in H1; try done;
    [|apply opened_lookup|by eapply opened_fresh|cbn; lia].
  rewrite Et in H1. destruct H1 as (Hcon & Hoth & Hs & Eo & _). rewrite (Hend Eo). by split_and!.
Qed.

(** *** A service and a host that do not fail *)

Record reliable_device : Prop := {
  ok_entry_type ifs p s code : ifilesystem_get_entry_type ifs p s = inl code → code = 514;
  ok_create ifs mode size p s : let r := ifilesystem_create_file ifs mode size p s in
    r.1 = 0 ∨ r.1 = 1026 ∧ is_Some (file ifs p r.2);
  ok_open ifs mode p s : is_Some (file ifs p s) → ∃ f, ifilesystem_open_file ifs mode p s = inr f;
  ok_set_size f size s : (ifile_set_size f size s).1 = 0;
  ok_write f offset data s : (ifile_write f offset data s).1 = 0;
  ok_size f s : is_Some (file (opens f).1 (opens f).2 s) → ∃ n, ifile_get_size f s = inr n;
  ok_read f offset size s c : file (opens f).1 (opens f).2 s = Some c → 0 ≤ offset < zlen c → 0 < size →
    ∃ data, ifile_read f offset size s = inr data ∧ data ≠ [] }.
Record reliable_host : Prop := {
  ok_stat p h : is_Some (stat p h);
  ok_open_rdonly p h : is_Some (contents p h) → is_Some (open_rdonly p h);
  ok_fstat n p pos h : cursor n h = Some (p, pos) → is_Some (contents p h) → is_Some (fstat_size n h);
  ok_read_host n size p pos c h : cursor n h = Some (p, pos) → contents p h = Some c →
    ∃ h', read n size h = Some (ztake size (zdrop pos c), h');
  ok_open_wronly p h : is_Some (open_wronly_creat p h);
  ok_write_host n data p pos c h : cursor n h = Some (p, pos) → contents p h = Some c → 0 ≤ pos ≤ zlen c →
    ∃ h', write n data h = Some (zlen data, h') }.
Context (Hdev : reliable_device) (Hhost : reliable_host).

Lemma push_loop_succeeds fuel itfa f src c b p w total offset :
  object_of w itfa = Some (FileObject f) → cursor (descriptor src) (local w) = Some (p, offset) →
  contents p (local w) = Some c → file (opens f).1 (opens f).2 (storage_of w) = Some b →
  zlen c = total → zlen b = total → total < 2 ^ 63 → 0 ≤ offset ≤ total → total - offset < Z.of_nat fuel →
  ∃ w', push_loop fuel itfa src total offset w = Done (0, w').
Proof.
  revert b w offset. induction fuel as [|fuel IH]; intros b w offset Ho Hcur Hc Hb Hlc Hlb Hlt Hoff Hfuel; [lia|].
  cbn [push_loop]. destruct (Z.ltb_spec offset total) as [Hmore|]; [|by exists w].
  set (n := Z.min (total - offset) 65536). destruct (ok_read_host Hhost _ n _ _ _ _ Hcur Hc) as [h1 Er].
  set (data := ztake n (zdrop offset c)) in *. set (w1 := set_local h1 w).
  assert (File_Read src n w = Done (data, w1)) as Hread by (unfold File_Read; by rewrite Er).
  rewrite Hread. cbn [mbind outcome_bind].
  assert (zlen data = n) as Hn by (unfold data; rewrite zlen_ztake, zlen_zdrop; lia).
  rewrite Hn, (proj2 (Z.ltb_ge n n)) by lia.
  destruct (File_Read_spec _ _ _ _ _ _ _ _ Hread Hcur Hc) as (_ & _ & _ & Hcur1 & Hsame1 & _).
  destruct (call_Write itfa f offset data w1) as (ds & Hds & E); [done|lia|lia|]. rewrite E.
  pose proof (writes_reliable ds (Write f offset) (dev w1) (ok_write Hdev) eq_refl) as Hr0.
  destruct (writes_spec file opens ds (Write f offset) (dev w1) b) as (s & Es & Hf & _);
    cbn [Write w_file offset_shared r]; try done; [lia|rewrite Hds; lia|].
  destruct (writes ds (Write f offset) (dev w1)) as [st d]. cbn [fst snd] in Hr0, Es. subst d.
  rewrite Hr0. cbn [Z.eqb mbind outcome_bind]. rewrite Hds in Hf. cbn [Write w_file offset_shared] in Hf.
  apply (IH (overwrite b offset data)); try done.
  - by rewrite <- Hn.
  - by cbn; rewrite Hsame1.
  - rewrite zlen_overwrite; [done|lia..].
  - lia.
  - lia.
Qed.

Lemma pull_loop_succeeds fuel itfa f dst c old p w offset :
  object_of w itfa = Some (FileObject f) → cursor (descriptor dst) (local w) = Some (p, offset) →
  contents p (local w) = Some (overwrite old 0 (ztake offset c)) →
  file (opens f).1 (opens f).2 (storage_of w) = Some c → zlen c ≤ heap → 0 ≤ offset ≤ zlen c →
  Z.max (zlen c) 262144 ≤ device_heap → zlen c - offset < Z.of_nat fuel →
  ∃ w', pull_loop fuel itfa dst (zlen c) offset w = Done (0, w').
Proof.
  revert w offset. induction fuel as [|fuel IH]; intros w offset Ho Hcur Hcon Hc Hh Hoff Hdh Hfuel; [lia|].
  cbn [pull_loop]. destruct (Z.ltb_spec offset (zlen c)) as [Hmore|]; [|by exists w].
  pose proof (call_Read itfa f offset (zlen c - offset) c w Ho ltac:(lia) ltac:(lia) Hc Hh) as E.
  rewrite (proj2 (Z.ltb_ge device_heap _)) in E by lia.
  destruct (ok_read Hdev f offset (Z.max (zlen c - offset) 262144) (storage_of w) c Hc ltac:(lia) ltac:(lia)) as (x & Er & Hx).
  rewrite Er in E. rewrite E. cbn [mbind outcome_bind].
  destruct (Z.eqb_spec (zlen x) 0) as [H0|H0]; [destruct Hx; apply zlen_0_inv; lia|].
  assert (zlen (ztake offset c) = offset) as Hlo by (rewrite zlen_ztake; lia).
  pose proof (zlen_overwrite_0 old (ztake offset c)) as Hge. rewrite Hlo in Hge.
  destruct (ok_write_host Hhost _ x _ _ _ _ Hcur Hcon ltac:(lia)) as [h2 Ew]. set (w2 := set_local h2 w).
  assert (File_Write dst x w = Done (zlen x, w2)) as Hw by (unfold File_Write; by rewrite Ew).
  rewrite Hw. cbn [mbind outcome_bind]. rewrite (proj2 (Z.ltb_ge (zlen x) _)) by lia.
  destruct (File_Write_spec _ _ _ _ _ _ _ _ Hw Hcur Hcon ltac:(lia)) as (_ & Hcur2 & Hcon2 & _).
  rewrite (ztake_all (zlen x)) in Hcon2 by lia.
  destruct (read_piece f offset (Z.max (zlen c - offset) 262144) (storage_of w) x c Er Hc ltac:(lia)) as [Hlx Hxp].
  pose proof (zlen_nonneg x). rewrite u64_small by lia. apply IH; try done; try lia.
  rewrite Hcon2, ztake_more, <- Hxp by lia. f_equal. rewrite <- overwrite_app by (zlen_facts; lia).
  by rewrite Hlo.
Qed.

Lemma created_opened_sized_succeeds {A} itfsa ifs path size (K : Z → world → outcome A) w :
  object_of w itfsa = Some (FilesystemObject ifs) → object_of w (next_object_id (dev w)) = None →
  0 < next_object_id (dev w) < 2 ^ 32 - 1 → zlen path ≤ device_heap → 0 ≤ size < 2 ^ 64 →
  let n := next_object_id (dev w) in
  ∃ f b s, opens f = (ifs, path_buffer path) ∧
    ('(_, w) ← call_created itfsa (OfFilesystem (S_CreateFile 0 size path)) w;
     '(itfa, w) ← call_object itfsa (OfFilesystem (S_OpenFile 6 path)) w;
     w ← call_void itfa (OfFile (A_SetSize size)) w; K itfa w) =
      K n (set_dev (mk_device s (<[n := FileObject f]> (objects (dev w))) (n + 1)) w) ∧
    file ifs (path_buffer path) s = Some b ∧ zlen b = size.
Proof.
  intros Ho Hnone Hr Hfit Hs n. rewrite (call_CreateFile itfsa ifs) by (done || lia).
  pose proof (ok_create Hdev ifs 0 size (path_buffer path) (storage_of w)) as Hcreate.
  pose proof (create_size ifs 0 size (path_buffer path) (storage_of w)) as Hsize.
  destruct (ifilesystem_create_file _ _ _ _ _) as [code s1]. cbn [fst snd] in Hcreate.
  set (w1 := set_dev (set_state s1 (dev w)) w).
  assert (is_Some (file ifs (path_buffer path) s1)) as Hsome.
  { destruct Hcreate as [->|[_ ?]]; [|done]. by destruct (Hsize s1 eq_refl ltac:(lia)) as (c & -> & _). }
  assert ((if code =? 1026 then Done (false, w1) else if code =? 0 then Done (true, w1) else Throws (ResultError code))
    = Done (code =? 0, w1)) as -> by (by destruct Hcreate as [->|[-> _]]).
  cbn [mbind outcome_bind]. rewrite (call_OpenFile itfsa ifs) by (done || lia).
  destruct (ok_open Hdev ifs 6 (path_buffer path) s1 Hsome) as [f Eopen].
  change (storage_of w1) with s1. rewrite Eopen. destruct (open_file _ _ _ _ _ Eopen) as [Hopens _].
  cbn [mbind outcome_bind]. rewrite next_object_spec by (done || (cbn; lia)).
  rewrite (call_SetSize _ f) by (done || (cbn; by rewrite lookup_insert_eq)).
  pose proof (ok_set_size Hdev f size s1) as Hcode. cbn [set_dev dev state]. change (storage_of w1) with s1.
  destruct (ifile_set_size f size s1) as [code2 s2] eqn:Es. cbn [fst] in Hcode. subst code2.
  apply set_size_size in Es as (b & Hb & Hlb); [|lia]. rewrite Hopens in Hb.
  exists f, b, s2. by split_and!.
Qed.

Lemma push_file_succeeds itfsa ifs push_to is_dir src c w :
  let dst := if is_dir : bool then push_to ++ BaseName src else push_to in
  object_of w itfsa = Some (FilesystemObject ifs) → object_of w (next_object_id (dev w)) = None →
  0 < next_object_id (dev w) < 2 ^ 32 - 1 → zlen dst ≤ device_heap →
  contents src (local w) = Some c → zlen c < 2 ^ 63 →
  ∃ w', push_file itfsa push_to is_dir src w = Done (0, w').
Proof.
  intros dst Ho Hnone Hn Hfit Hc Hlt. unfold push_file. fold dst. pose proof (zlen_nonneg c) as Hpos.
  destruct (ok_open_rdonly Hhost src (local w) ltac:(by rewrite Hc)) as [[n1 h1] Eopen].
  assert (OpenForRead src w = Done (mk_File n1 true, set_local h1 w)) as E1 by (unfold OpenForRead; by rewrite Eopen).
  rewrite E1. cbn [mbind outcome_bind]. apply OpenForRead_spec in E1 as (Hcur & Hsame1 & _).
  set (sf := mk_File n1 true) in *. set (w1 := set_local h1 w) in *.
  assert (contents src (local w1) = Some c) as Hc1 by (by rewrite Hsame1).
  destruct (ok_fstat Hhost _ _ _ _ Hcur ltac:(by rewrite Hc1)) as [size Esize].
  assert (File_GetSize sf w1 = Done size) as E2 by (unfold File_GetSize; by rewrite Esize).
  rewrite E2. cbn [mbind outcome_bind]. apply (File_GetSize_spec _ _ _ src 0 c) in E2 as ->; [|done..].
  destruct (created_opened_sized_succeeds itfsa ifs dst (zlen c) (fun itfa w =>
    '(status, w) ← push_loop (S (Z.to_nat (zlen c))) itfa sf (zlen c) 0 w;
    w ← destroy_object itfa w; Done (status, File_destroy sf w)) w1) as (f & b & s & Hopens & E & Hb & Hlb); try done; [lia|].
  change (next_object_id (dev w1)) with (next_object_id (dev w)) in *.
  rewrite E. clear E. set (w4 := set_dev _ w1). set (n := next_object_id (dev w)) in *.
  assert (object_of w4 n = Some (FileObject f)) as Hof by (cbn; by rewrite lookup_insert_eq).
  assert (file (opens f).1 (opens f).2 (storage_of w4) = Some b) as Hb4 by (by rewrite Hopens).
  destruct (push_loop_succeeds (S (Z.to_nat (zlen c))) n f sf c b src w4 (zlen c) 0) as [w5 E]; try done; try lia.
  destruct (push_loop_spec (S (Z.to_nat (zlen c))) n f sf c b src w4 w5 (zlen c) 0) as (_ & _ & _ & Eo & _); try done; try lia.
  rewrite E. cbn [mbind outcome_bind]. rewrite (destroy_spec n (FileObject f)) by (rewrite ?Eo; done || lia).
  eexists. reflexivity.
Qed.

Lemma pull_file_succeeds itfsa ifs pull_to is_dir src c w :
  object_of w itfsa = Some (FilesystemObject ifs) → object_of w (next_object_id (dev w)) = None →
  0 < next_object_id (dev w) < 2 ^ 32 - 1 → zlen src < device_heap → pull_to ≠ str "-" →
  file ifs (path_buffer (SLASH :: src)) (storage_of w) = Some c → zlen c ≤ heap → Z.max (zlen c) 262144 ≤ device_heap →
  ∃ w', pull_file itfsa pull_to is_dir src w = Done (0, w').
Proof.
  intros Ho Hnone Hn Hfit Hto Hc Hheapc Hdh. unfold pull_file.
  rewrite (call_OpenFile itfsa ifs) by (done || lia || (rewrite zlen_cons; lia)).
  destruct (ok_open Hdev ifs 1 (path_buffer (SLASH :: src)) (storage_of w) ltac:(by rewrite Hc)) as [f Eopen].
  rewrite Eopen. destruct (open_file _ _ _ _ _ Eopen) as [Hopens _]. cbn [mbind outcome_bind].
  rewrite next_object_spec by (done || lia). set (n := next_object_id (dev w)) in *. set (w1 := set_dev _ w).
  rewrite decide_False by done. set (target := if is_dir : bool then pull_to ++ src else pull_to).
  destruct (ok_open_wronly Hhost target (local w1)) as [[n2 h2] E2].
  assert (OpenForClobberingWrite target w1 = Done (mk_File n2 true, set_local h2 w1)) as Ew
    by (unfold OpenForClobberingWrite; by rewrite E2).
  rewrite Ew. cbn [mbind outcome_bind]. apply OpenForClobberingWrite_spec in Ew as (Hcur & Hcon & _ & _).
  set (dst := mk_File n2 true) in *. set (w2 := set_local h2 w1) in *.
  assert (object_of w2 n = Some (FileObject f)) as Hof by (cbn; by rewrite lookup_insert_eq).
  assert (file (opens f).1 (opens f).2 (storage_of w2) = Some c) as Hc2 by (by rewrite Hopens).
  pose proof (call_GetSize n f w2 Hof) as Hsize. destruct (ok_size Hdev f (storage_of w2) ltac:(by rewrite Hc2)) as [size Es].
  rewrite Es in Hsize. apply (size_data _ _ _ c) in Es as ->; [|done]. pose proof (zlen_nonneg c).
  rewrite Hsize by lia. cbn [mbind outcome_bind].
  destruct (pull_loop_succeeds (S (Z.to_nat (zlen c))) n f dst c (default [] (contents target (local w))) target w2 0)
    as [w3 E3]; try done; try lia.
  destruct (pull_loop_spec (S (Z.to_nat (zlen c))) n f dst c (default [] (contents target (local w))) target w2 w3 0)
    as (_ & _ & Hdev3); try done; try lia.
  rewrite E3. cbn [mbind outcome_bind]. destruct (File_destroy_spec dst w3) as [_ Hd4].
  rewrite (destroy_spec n (FileObject f)) by (rewrite ?Hd4, ?Hdev3; done || lia). eexists. reflexivity.
Qed.

Lemma with_filesystem_succeeds fsname ifs f w w2 :
  ready fsname ifs w → f (next_object_id (dev w)) (opened_world ifs w) = Done (0, w2) →
  objects (dev w2) = objects (dev (opened_world ifs w)) → ∃ w', with_filesystem fsname f w = Done (0, w').
Proof.
  intros Hr Hf Eo. rewrite (with_filesystem_opens fsname ifs), Hf by done. cbn [mbind outcome_bind].
  destruct Hr as [_ _ _ Hrange _]. rewrite (destroy_spec _ (FilesystemObject ifs)).
  - eexists. reflexivity.
  - rewrite Eo. apply opened_lookup.
  - lia.
Qed.
Lemma for_one_file_0 f src w w' : f src w = Done (0, w') → for_files f [src] w = Done (0, w').
Proof. intros E. cbn [for_files]. by rewrite E. Qed.

Lemma DoPush_succeeds fsname ifs src dst to c w :
  ready fsname ifs w → contents src (local w) = Some c → zlen c < 2 ^ 63 → dst ≠ [] →
  zlen (absolute dst) ≤ device_heap → zlen (push_target ifs src dst (storage_of w)) ≤ device_heap →
  ∃ w', DoPush fsname [src; dst] to w = Done (0, w').
Proof.
  intros Hready Hc Hlt Hne Hdst Htarget. unfold DoPush. change (split_target [src; dst] to) with ([src], dst).
  cbv beta iota. assert (match dst with [] => Undefined | b :: _ =>
    Done (if decide (b = SLASH) then dst else SLASH :: dst) end = Done (absolute dst)) as -> by (by destruct dst).
  cbn [mbind outcome_bind]. pose proof Hready as [_ _ _ Hrange _].
  assert (∃ (is_dir : bool) (to' : bytes), zlen (if is_dir then to' ++ BaseName src else to') ≤ device_heap ∧
    ∀ K, ('(is_file_result, w) ← IsFile (next_object_id (dev w)) (absolute dst) (opened_world ifs w);
      let is_target_directory := match is_file_result with Some b => negb b | None => false end in
      if (1 <? zlen [src]) && negb is_target_directory then Done (1, w)
      else push_to ← (if is_target_directory : bool then end_slash (absolute dst) else Done (absolute dst));
           K push_to is_target_directory w) = (K to' is_dir (opened_world ifs w) : outcome (Z * world)))
    as (is_dir & to' & Hfit & HK).
  { rewrite (call_IsFile _ ifs) by (done || apply opened_lookup).
    change (storage_of (opened_world ifs w)) with (storage_of w). unfold push_target in Htarget.
    destruct (ifilesystem_get_entry_type _ _ _) as [code|t] eqn:E.
    - rewrite (ok_entry_type Hdev _ _ _ _ E). by exists false, (absolute dst).
    - pose proof (entry_type_range _ _ _ _ E). destruct (Z.ltb_spec 0 t).
      + by exists false, (absolute dst).
      + assert (t = 0) as -> by lia. destruct (end_slash (absolute dst)) as [to'| | | |] eqn:Es;
          try (exfalso; unfold end_slash in Es; destruct (last (absolute dst)) eqn:El; [done|];
               apply last_None in El; destruct dst; [done|]; cbn in El; by case_decide).
        exists true, to'. by rewrite (end_slash_inside _ _ (BaseName src) Es). }
  destruct (push_file_succeeds (next_object_id (dev w)) ifs to' is_dir src c (opened_world ifs w)) as [w2 E]; try done.
  - apply opened_lookup.
  - by eapply opened_fresh.
  - cbn. lia.
  - apply (with_filesystem_succeeds fsname ifs _ w w2 Hready).
    + rewrite (HK (fun to' is_dir => for_files (push_file _ to' is_dir) [src])). by apply for_one_file_0.
    + apply (push_file_spec _ ifs to' is_dir src c) in E as (_ & _ & _ & Eo & _); try done.
      * apply opened_lookup.
      * by eapply opened_fresh.
      * cbn. lia.
Qed.

Lemma DoPull_succeeds fsname ifs src dst to c w :
  ready fsname ifs w → file ifs (path_buffer (SLASH :: src)) (storage_of w) = Some c → zlen c ≤ heap →
  Z.max (zlen c) 262144 ≤ device_heap → zlen src < device_heap → dst ≠ str "-" → stat dst (local w) ≠ Some (Some true) →
  ∃ w', DoPull fsname [src; dst] to w = Done (0, w').
Proof.
  intros Hready Hc Hlt Hdh Hsrc Hdst Hstat. unfold DoPull. change (split_target [src; dst] to) with ([src], dst).
  cbv beta iota. rewrite decide_False by done. unfold StatFile. pose proof Hready as [_ _ _ Hrange _].
  destruct (ok_stat Hhost dst (local w)) as [st Est]. rewrite Est in *. cbn [mbind outcome_bind].
  assert (default false st = false) as -> by (by destruct st as [[]|]). cbn [mbind outcome_bind negb andb Z.ltb].
  change (1 <? zlen [src]) with false. cbn [andb mbind outcome_bind negb].
  destruct (pull_file_succeeds (next_object_id (dev w)) ifs dst false src c (opened_world ifs w)) as [w2 E]; try done.
  - apply opened_lookup.
  - by eapply opened_fresh.
  - cbn. lia.
  - apply (with_filesystem_succeeds fsname ifs _ w w2 Hready).
    + by apply for_one_file_0.
    + apply (pull_file_spec _ ifs dst false src c) in E as (_ & _ & _ & Eo & _); try done.
      * apply opened_lookup.
      * by eapply opened_fresh.
      * cbn. lia.
Qed.

Lemma overwrite_whole (old c : bytes) : overwrite old 0 c = c ++ zdrop (zlen c) old.
Proof. unfold overwrite. by rewrite ztake_0, Z.add_0_l by lia. Qed.

(** ** Theorems *)

(** C10: a push stores the file.  If a push of one local file ends with status 0, whatever part of
    each payload the network delivers at a time, the target on the device (inside it, when it is a
    directory) holds exactly the bytes of the local file; no other file of the device and no local
    file has changed, and the device has no object more than before. *)
Theorem push_stores_file fsname ifs src dst to c w w' :
  let target := push_target ifs src dst (storage_of w) in
  ready fsname ifs w → contents src (local w) = Some c → zlen c < 2 ^ 63 →
  zlen (absolute dst) ≤ device_heap → zlen target ≤ device_heap →
  DoPush fsname [src; dst] to w = Done (0, w') →
  file ifs (path_buffer target) (storage_of w') = Some c ∧
  (∀ ifs' p, (ifs', p) ≠ (ifs, path_buffer target) → file ifs' p (storage_of w') = file ifs' p (storage_of w)) ∧
  (∀ q, contents q (local w') = contents q (local w)) ∧ objects (dev w') = objects (dev w).
Proof.
  intros target Hready Hc Hlt Hdst Htarget H.
  by destruct (DoPush_next fsname ifs src dst to c w w' Hready Hc Hlt Hdst Htarget H) as (? & ? & ? & ? & _).
Qed.

(** a pull does not cut the local file.  After a pull with status 0 the target holds the bytes
    of the device's file, and behind them whatever an older and longer local file held there: the
    file is opened for writing without being emptied. *)
Theorem pull_keeps_old_tail fsname ifs src dst to c w w' :
  let target := pull_target src dst (local w) in
  ready fsname ifs w → file ifs (path_buffer (SLASH :: src)) (storage_of w) = Some c → zlen c ≤ heap →
  zlen src < device_heap → dst ≠ str "-" →
  DoPull fsname [src; dst] to w = Done (0, w') →
  contents target (local w') = Some (c ++ zdrop (zlen c) (default [] (contents target (local w)))) ∧
  (∀ q, q ≠ target → contents q (local w') = contents q (local w)) ∧
  storage_of w' = storage_of w ∧ objects (dev w') = objects (dev w).
Proof.
  intros target. rewrite <- overwrite_whole. intros Hready Hc Hh Hsrc Hdst H.
  exact (DoPull_spec fsname ifs src dst to c w w' Hready Hc Hh Hsrc Hdst H).
Qed.

(** C9: a file that fits can be pushed and pulled back.  Let the file service and the host not fail, and
    the device have object numbers left.  Let the file fit into the tool's memory, and
    the larger of it and the 256 KiB of a transfer into the device's; let the name be one of the
    device's root that is no directory, and the local file to pull to not exist.  Then the push and
    the pull both end with status 0, and the new file is the old one, on both sides.  (Without these:
    [pull_keeps_old_tail], [large_pull_ends_device].) *)
Theorem transfer_round_trip fsname ifs src name back to to' c w :
  ready fsname ifs w → next_object_id (dev w) < 2 ^ 32 - 4 → (∀ s, mount fsname s = Some (inr ifs)) →
  contents src (local w) = Some c → zlen c ≤ heap → Z.max (zlen c) 262144 ≤ device_heap →
  absolute name = SLASH :: name → zlen name < device_heap →
  ifilesystem_get_entry_type ifs (path_buffer (SLASH :: name)) (storage_of w) ≠ inr 0 →
  back ≠ str "-" → contents back (local w) = None → (∀ h, stat back h ≠ Some (Some true)) →
  ∃ w1 w2, DoPush fsname [src; name] to w = Done (0, w1) ∧ DoPull fsname [name; back] to' w1 = Done (0, w2) ∧
    file ifs (path_buffer (SLASH :: name)) (storage_of w2) = Some c ∧ contents back (local w2) = Some c ∧
    contents src (local w2) = Some c ∧ objects (dev w2) = objects (dev w).
Proof.
  intros Hready Hids Hmount Hc Hh Hdh Habs Hname Hdir Hback Hnew Hstat.
  assert (push_target ifs src name (storage_of w) = SLASH :: name) as Et.
  { unfold push_target. rewrite Habs. destruct (ifilesystem_get_entry_type _ _ _) as [|[]]; done. }
  assert (zlen (SLASH :: name) ≤ device_heap) as Hfit by (rewrite zlen_cons; lia).
  destruct (DoPush_succeeds fsname ifs src name to c w) as [w1 E1]; try done; try lia; try (by rewrite ?Habs, ?Et).
  { by intros ->. }
  destruct (DoPush_next fsname ifs src name to c w w1) as (Hf & _ & Hsame & Eo & En); try done; try lia;
    try (by rewrite ?Habs, ?Et).
  rewrite Et in Hf.
  assert (ready fsname ifs w1) as Hready1.
  { destruct Hready as [Hz Hn _ Hr Hfr]. split; [by rewrite Eo|done|apply Hmount|lia|].
    intros id Hid'. rewrite Eo. apply Hfr. lia. }
  destruct (DoPull_succeeds fsname ifs name back to' c w1) as [w2 E2]; try done.
  assert (pull_target name back (local w1) = back) as Ep.
  { unfold pull_target. pose proof (Hstat (local w1)). by destruct (stat back (local w1)) as [[[]|]|]. }
  destruct (DoPull_spec fsname ifs name back to' c w1 w2) as (Hcon & Hoth & Hs & Eo2); try done.
  rewrite Ep in Hcon, Hoth. rewrite Hsame, Hnew, overwrite_whole in Hcon. cbn [default] in Hcon.
  rewrite zdrop_all, app_nil_r in Hcon by (apply zlen_nonneg).
  exists w1, w2. split_and!; try done; [by rewrite Hs| |by rewrite Eo2].
  rewrite Hoth, Hsame; [done|]. intros ->. by rewrite Hnew in Hc.
Qed.

(** a file larger than the device's memory cannot be pulled.  The device makes a buffer of the
    larger, not the smaller, of the size asked for and its limit of 0x40000 bytes; the tool asks for all
    that is left, and the allocation's exception ends the device's program. *)
Theorem large_pull_ends_device itfsa ifs pull_to src f c w :
  object_of w itfsa = Some (FilesystemObject ifs) → object_of w (next_object_id (dev w)) = None →
  0 < next_object_id (dev w) < 2 ^ 32 - 1 → zlen src < device_heap → pull_to ≠ str "-" →
  ifilesystem_open_file ifs 1 (path_buffer (SLASH :: src)) (storage_of w) = inr f →
  file ifs (path_buffer (SLASH :: src)) (storage_of w) = Some c →
  ifile_get_size f (storage_of w) = inr (zlen c) → zlen c ≤ heap → 0 < zlen c → device_heap < Z.max (zlen c) 262144 →
  is_Some (open_wronly_creat pull_to (local w)) →
  pull_file itfsa pull_to false src w = Aborts terminated.
Proof.
  intros Ho Hnone Hn Hfit Hto Eopen Hc Hsz Hh Hpos Hbig [[n2 h2] E2]. unfold pull_file.
  rewrite (call_OpenFile itfsa ifs) by (done || lia || (rewrite zlen_cons; lia)).
  rewrite Eopen. destruct (open_file _ _ _ _ _ Eopen) as [Hopens _]. cbn [mbind outcome_bind].
  rewrite next_object_spec by (done || lia). set (n := next_object_id (dev w)) in *. set (w1 := set_dev _ w).
  rewrite decide_False by done. unfold OpenForClobberingWrite, syscall.
  change (local w1) with (local w). rewrite E2. cbn [mbind outcome_bind]. set (w2 := set_local h2 w1).
  assert (object_of w2 n = Some (FileObject f)) as Hof by (cbn; by rewrite lookup_insert_eq).
  pose proof (call_GetSize n f w2 Hof) as Hsize. change (storage_of w2) with (storage_of w) in Hsize.
  rewrite Hsz in Hsize. rewrite Hsize by lia. cbn [mbind outcome_bind pull_loop].
  rewrite (proj2 (Z.ltb_lt 0 (zlen c))), Z.sub_0_r by lia.
  pose proof (call_Read n f 0 (zlen c) c w2 Hof ltac:(lia) ltac:(lia)) as E. rewrite Hopens in E.
  rewrite (proj2 (Z.ltb_lt device_heap _) Hbig) in E. by rewrite E.
Qed.

(** ls of a directory that shrinks never ends.  The tool asks for the number of entries and then
    reads until it has as many; once the directory gives no more, each read brings an empty batch,
    and the loop goes on for ever. *)
Theorem ls_never_ends itda h count entries fuel w :
  object_of w itda = Some (DirectoryObject h) → zlen entries < count < 2 ^ 64 →
  idirectory_read h (32 * sizeof_DirectoryEntry) (storage_of w) = (0, [], storage_of w) → 0 ≤ heap →
  ls_loop fuel itda count entries w = OutOfFuel.
Proof.
  intros Ho Hcount Hr Hh. pose proof (zlen_nonneg entries). induction fuel as [|fuel IH]; [done|]. cbn [ls_loop].
  rewrite (proj2 (Z.ltb_lt _ _)) by lia. unfold call_vector.
  rewrite (call_done _ _ _ _ _ (remote_Directory_Read _ _ _ _ _ _ _ _ _ Hmi Hde Htc Hid Hdevice_heap Hheap Hcut
    itda h (dev w) [] (storage_of w) Ho Hr eq_refl Hh)).
  cbn [mbind outcome_bind]. change (zlen []) with 0. rewrite Z.add_0_r, u64_small, (proj2 (Z.ltb_ge _ _)) by lia.
  cbn [Z.to_nat seq map]. rewrite app_nil_r.
  replace (set_dev (set_state (storage_of w) (dev w)) w) with w by (by destruct w as [[]]). exact IH.
Qed.

End commands.

(** *** Examples: files in memory *)

Definition upd (p : bytes) (c : option bytes) (m : bytes → option bytes) : bytes → option bytes :=
  fun q => if decide (q = p) then c else m q.
Definition zeros (n : Z) : bytes := replicate (Z.to_nat n) Byte.x00.
(** One file system; its directories count three entries and give none. *)
#[local] Instance memory_fs : fsp_srv (bytes → option bytes) unit bytes unit := {
  fsp_srv_mount_sd_card _ := inr tt;
  fsp_srv_open_bis_filesystem _ _ := inr tt;
  ifilesystem_create_file _ _ size p s :=
    match s p with Some _ => (1026, s) | None => (0, upd p (Some (zeros size)) s) end;
  ifilesystem_delete_file _ p s := match s p with Some _ => (0, upd p None s) | None => (514, s) end;
  ifilesystem_create_directory _ _ s := (514, s);
  ifilesystem_delete_directory _ _ s := (514, s);
  ifilesystem_delete_directory_recursively _ _ s := (514, s);
  ifilesystem_rename_file _ p q s := match s p with Some c => (0, upd q (Some c) (upd p None s)) | None => (514, s) end;
  ifilesystem_rename_directory _ _ _ s := (514, s);
  ifilesystem_get_entry_type _ p s := match s p with Some _ => inr 1 | None => inl 514 end;
  ifilesystem_open_file _ _ p s := match s p with Some _ => inr p | None => inl 514 end;
  ifilesystem_open_directory _ _ _ _ := inr tt;
  ifile_read p offset size s := match s p with Some c => inr (ztake size (zdrop offset c)) | None => inl 514 end;
  ifile_write p offset data s := match s p with Some c => (0, upd p (Some (overwrite c offset data)) s) | None => (0, s) end;
  ifile_flush _ s := (0, s);
  ifile_set_size p size s :=
    (0, upd p (Some (ztake size (match s p with Some c => c | None => [] end ++ zeros size))) s);
  ifile_get_size p s := match s p with Some c => inr (zlen c) | None => inl 514 end;
  idirectory_read _ _ s := (0, [], s);
  idirectory_get_entry_count _ _ := inr 3 }.
Record memory_host : Type := mk_host { m_files : bytes → option bytes; m_fds : list (bytes * Z) }.
#[local] Instance memory_posix : posix memory_host nat := {
  stat p h := Some (match m_files h p with Some _ => Some false | None => None end);
  open_rdonly p h :=
    match m_files h p with
    | Some _ => Some (length (m_fds h), mk_host (m_files h) (m_fds h ++ [(p, 0)]))
    | None => None
    end;
  open_wronly_creat p h :=
    Some (length (m_fds h),
          mk_host (upd p (Some (match m_files h p with Some c => c | None => [] end)) (m_files h)) (m_fds h ++ [(p, 0)]));
  fstat_size n h :=
    match m_fds h !! n with Some (p, _) => option_map zlen (m_files h p) | None => None end;
  read n size h :=
    match m_fds h !! n with
    | Some (p, pos) =>
        match m_files h p with
        | Some c =>
            let data := ztake size (zdrop pos c) in
            Some (data, mk_host (m_files h) (<[n := (p, pos + zlen data)]> (m_fds h)))
        | None => None
        end
    | None => None
    end;
  write n data h :=
    match m_fds h !! n with
    | Some (p, pos) =>
        match m_files h p with
        | Some c => Some (zlen data, mk_host (upd p (Some (overwrite c pos data)) (m_files h))
                                       (<[n := (p, pos + zlen data)]> (m_fds h)))
        | None => None
        end
    | None => None
    end;
  close _ h := h;
  stdout := O }.
Definition memory_file (_ : unit) (p : bytes) (s : bytes → option bytes) : option bytes := s p.
Definition memory_opens (p : bytes) : unit * bytes := (tt, p).

Lemma upd_same p c m : upd p c m p = c.
Proof. unfold upd. by rewrite decide_True. Qed.
Lemma upd_other p c m q : q ≠ p → upd p c m q = m q.
Proof. intros. unfold upd. by rewrite decide_False. Qed.
Lemma zlen_zeros n : 0 ≤ n → zlen (zeros n) = n.
Proof. intros. unfold zeros, zlen. rewrite length_replicate. lia. Qed.

#[local] Instance memory_fs_laws : fsp_srv_laws memory_file memory_opens.
Proof.
  split; unfold memory_file, memory_opens; cbn.
  - intros _ _ size p s s' E Hs. destruct (s p); [done|]. injection E as <-. rewrite upd_same.
    exists (zeros size). by rewrite zlen_zeros.
  - intros [] _ size p s [] p' Hp. destruct (s p); [done|]. cbn. apply upd_other. by intros ->.
  - intros [] _ p s f E. destruct (s p) eqn:Ep; [|done]. injection E as <-. by split.
  - intros f size s s' [= <-] Hs. rewrite upd_same. eexists. split; [done|].
    rewrite zlen_ztake, zlen_app, zlen_zeros by done. pose proof (zlen_nonneg (match s f with Some c => c | None => [] end)). lia.
  - intros f size s [] p Hp. apply upd_other. by intros ->.
  - intros f offset data s s' c E Hc _ _. rewrite Hc in E. injection E as <-. apply upd_same.
  - intros f offset data s [] p Hp. destruct (s f); [|done]. cbn. apply upd_other. by intros ->.
  - intros f offset size s data c E Hc. rewrite Hc in E. injection E as <-. exists size. split; [lia|done].
  - intros f s n c E Hc. rewrite Hc in E. by injection E as <-.
  - intros _ p s t E. destruct (s p); [|done]. by injection E as <-.
  - intros _ p s code E. destruct (s p); [done|]. by injection E as <-.
  - intros _ _ p s code E. destruct (s p); [done|]. by injection E as <-.
  - intros f offset size s code E. destruct (s f); [done|]. by injection E as <-.
  - intros f s code E. destruct (s f); [done|]. by injection E as <-.
Qed.

Definition memory_contents (p : bytes) (h : memory_host) : option bytes := m_files h p.
Definition memory_cursor (n : nat) (h : memory_host) : option (bytes * Z) := m_fds h !! n.
#[local] Instance memory_posix_laws : posix_laws memory_contents memory_cursor.
Proof.
  split; unfold memory_contents, memory_cursor; cbn.
  - intros p h n h' E. destruct (m_files h p); [|done]. injection E as <- <-. cbn.
    by rewrite list_lookup_middle.
  - intros n h p pos c size E Hcur Hc. rewrite Hcur, Hc in E. by injection E as <-.
  - intros n size h data h' p pos c E Hcur Hc. rewrite Hcur, Hc in E. injection E as <- <-. cbn.
    split_and!; [exists size; split; [lia|done]| |done].
    rewrite list_lookup_insert_eq; [done|]. by apply lookup_lt_Some in Hcur.
  - intros p h n h' [= <- <-]. cbn. rewrite list_lookup_middle, upd_same by done.
    split_and!; [done|by destruct (m_files h p)|]. intros q Hq. by apply upd_other.
  - intros n data h k h' p pos c E Hcur Hc Hpos. rewrite Hcur, Hc in E. injection E as <- <-. cbn.
    pose proof (zlen_nonneg data). rewrite list_lookup_insert_eq, upd_same, ztake_all by (lia || by apply lookup_lt_Some in Hcur).
    split_and!; [lia|lia|done|done|]. intros q Hq. by apply upd_other.
  - done.
Qed.

Lemma memory_reliable : reliable_device memory_file memory_opens.
Proof.
  split; unfold memory_file, memory_opens; cbn.
  - intros _ p s code E. destruct (s p); [done|]. by injection E as <-.
  - intros [] _ size p s. destruct (s p) eqn:E; cbn; [right|by left]. by rewrite E.
  - intros [] _ p s [c ->]. by exists p.
  - done.
  - intros f offset data s. by destruct (s f).
  - intros f s [c ->]. by eexists.
  - intros f offset size s c -> Hoff Hs. eexists. split; [done|]. intros E. apply (f_equal zlen) in E.
    rewrite zlen_ztake, zlen_zdrop in E. change (zlen []) with 0 in E. lia.
Qed.
Lemma memory_host_reliable : reliable_host memory_contents memory_cursor.
Proof.
  split; unfold memory_contents, memory_cursor; cbn.
  - by eexists.
  - intros p h [c ->]. by eexists.
  - intros n p pos h -> [c ->]. by eexists.
  - intros n size p pos c h -> ->. by eexists.
  - by eexists.
  - intros n data p pos c h -> -> _. by eexists.
Qed.

Definition ex_cut (l : bytes) : list bytes := [ztake 5 l; zdrop 5 l].
Lemma ex_cut_concat l : concat (ex_cut l) = l.
Proof. cbn. rewrite app_nil_r. apply ztake_zdrop. Qed.
Definition memory_device : Type := @Filesystem.device (bytes → option bytes) unit bytes unit.
Definition ex_others (_ : Z) (_ : list Request.arg) (d : memory_device) :
    outcome (Filesystem.answer * memory_device) := Done (inl 1, d).
Definition ex_device (files : bytes → option bytes) : memory_device := mk_device files {[0 := Zero]} 1.
(** The host has the file [a], and a longer one, [old]. *)
Definition ex_host : memory_host :=
  mk_host (upd (str "a") (Some (str "hello world")) (upd (str "old") (Some (str "0123456789")) (fun _ => None))) [].
Definition memory_world : Type := @world (bytes → option bytes) unit bytes unit memory_host.
Definition ex_world (files : bytes → option bytes) : memory_world := mk_world (ex_device files) ex_host.
Definition ex_heap : Z := 2 ^ 20.
Lemma ex_ready files :
  ready ex_heap (str "sd") tt (ex_world files).
Proof.
  split; [done|by vm_compute|done|by vm_compute|]. intros id Hid. cbn in Hid |- *. apply lookup_singleton_ne. lia.
Qed.
Definition ex_push (dst : string) (w : memory_world) : outcome (Z * memory_world) :=
  DoPush ex_heap ex_heap 32 40 144 800 784 ex_others ex_cut (str "sd") [str "a"; str dst] (str "/") w.
Definition ex_pull (src dst : string) (w : memory_world) : outcome (Z * memory_world) :=
  DoPull ex_heap ex_heap 32 40 144 800 784 ex_others ex_cut (str "sd") [str src; str dst] (str ".") w.

Lemma ex_heap_fits : ex_heap < 2 ^ 63.
Proof. reflexivity. Qed.

(** A run that ends with status 0. *)
Definition succeeds {A} (o : outcome (Z * A)) : bool := match o with Done (0, _) => true | _ => false end.
Lemma succeeds_done {A} (o : outcome (Z * A)) : succeeds o = true → ∃ w', o = Done (0, w').
Proof. destruct o as [[[] w']| | | |]; try done. by exists w'. Qed.
Lemma ex_push_succeeds : succeeds (ex_push "dir" (ex_world (fun _ => None))) = true.
Proof. vm_compute. reflexivity. Qed.
Definition ex_remote : bytes → option bytes := upd (path_buffer (str "/x")) (Some (str "abc")) (fun _ => None).
Lemma ex_pull_succeeds : succeeds (ex_pull "x" "old" (ex_world ex_remote)) = true.
Proof. vm_compute. reflexivity. Qed.

Lemma push_stores_file_witness :
  ∃ w', ex_push "dir" (ex_world (fun _ => None)) = Done (0, w') ∧
    memory_file tt (path_buffer (str "/dir")) (state (dev w')) = Some (str "hello world") ∧
    objects (dev w') = {[0 := Zero]}.
Proof.
  destruct (succeeds_done _ ex_push_succeeds) as [w' E]. exists w'. split; [exact E|].
  pose proof (push_stores_file ex_heap ex_heap 32 40 144 800 784 ex_others ex_cut memory_file memory_opens
    memory_contents memory_cursor eq_refl eq_refl eq_refl eq_refl ex_heap_fits ex_heap_fits ex_cut_concat
    (str "sd") tt (str "a") (str "dir") (str "/") (str "hello world") (ex_world (fun _ => None)) w'
    (ex_ready _) eq_refl eq_refl) as H.
  destruct H as (H1 & _ & _ & H2); [discriminate|discriminate|exact E|].
  split; [exact H1|exact H2].
Defined.
Lemma pull_keeps_old_tail_witness :
  ∃ w', ex_pull "x" "old" (ex_world ex_remote) = Done (0, w') ∧
    memory_contents (str "old") (local w') = Some (str "abc3456789").
Proof.
  destruct (succeeds_done _ ex_pull_succeeds) as [w' E]. exists w'. split; [exact E|].
  pose proof (pull_keeps_old_tail ex_heap ex_heap 32 40 144 800 784 ex_others ex_cut memory_file memory_opens
    memory_contents memory_cursor eq_refl eq_refl eq_refl eq_refl ex_heap_fits ex_heap_fits ex_cut_concat
    (str "sd") tt (str "x") (str "old") (str ".") (str "abc") (ex_world ex_remote) w' (ex_ready _)) as H.
  destruct H as (H1 & _); [reflexivity|discriminate|reflexivity|discriminate|exact E|exact H1].
Defined.
Lemma transfer_round_trip_witness :
  ∃ w1 w2, ex_push "b" (ex_world (fun _ => None)) = Done (0, w1) ∧ ex_pull "b" "new" w1 = Done (0, w2) ∧
    memory_contents (str "new") (local w2) = Some (str "hello world").
Proof.
  pose proof (transfer_round_trip ex_heap ex_heap 32 40 144 800 784 ex_others ex_cut memory_file memory_opens
    memory_contents memory_cursor eq_refl eq_refl eq_refl eq_refl ex_heap_fits ex_heap_fits ex_cut_concat
    memory_reliable memory_host_reliable
    (str "sd") tt (str "a") (str "b") (str "new") (str "/") (str ".") (str "hello world") (ex_world (fun _ => None))
    (ex_ready _)) as H.
  destruct H as (w1 & w2 & H1 & H2 & _ & H3 & _);
    [reflexivity|reflexivity|reflexivity|discriminate|discriminate|reflexivity|reflexivity|discriminate|discriminate
    |reflexivity| |].
  - intros h. change (Some (match m_files h (str "new") with Some _ => Some false | None => None end) ≠ Some (Some true)).
    by destruct (m_files h (str "new")).
  - exists w1, w2. split; [exact H1|]. split; [exact H2|exact H3].
Defined.
(** A device with the file [x] open, whose memory is smaller than its buffer. *)
Lemma large_pull_ends_device_witness :
  let w := mk_world (mk_device ex_remote {[1 := FilesystemObject tt]} 2) ex_host : memory_world in
  pull_file (2 ^ 17) ex_heap 32 40 144 800 784 ex_others ex_cut 1 (str "new") false (str "x") w = Aborts terminated.
Proof.
  intros w. apply (large_pull_ends_device (2 ^ 17) ex_heap 32 40 144 800 784 ex_others ex_cut memory_file memory_opens
    eq_refl eq_refl eq_refl eq_refl ltac:(reflexivity) ex_heap_fits ex_cut_concat 1 tt (str "new") (str "x")
    (path_buffer (str "/x")) (str "abc") w); try reflexivity; try discriminate.
  - split; reflexivity.
  - by eexists.
Defined.
Lemma ls_never_ends_witness :
  let w := mk_world (mk_device ex_remote {[1 := DirectoryObject tt]} 2) ex_host : memory_world in
  ls_loop 1000 ex_heap 32 40 144 800 784 ex_others ex_cut 50 1 3 [] w = OutOfFuel.
Proof.
  intros w. apply (ls_never_ends 1000 ex_heap 32 40 144 800 784 ex_others ex_cut
    eq_refl eq_refl eq_refl eq_refl ltac:(reflexivity) ex_heap_fits ex_cut_concat 1 tt 3 [] 50 w); try reflexivity.
  - split; reflexivity.
  - discriminate.
Defined.
End FSCommands.
