(* ===== verification/Kernel.v ===== *)
(** * The system calls for debugging, and plain structs

    What the device's debugger and its crash reports ask of the kernel: the class [debug_svc] of
    system calls, the map of a process's memory, the events of a debugged process.  The layout of
    [memory_info_t] and [debug_event_info_t] is the one of twib/tool/DebugTypes.hpp.  A struct is
    written and read field by field ([encode_fields], [read_fields]). *)
From stdpp Require Import list_numbers.
From S2P Require Import Prelude Err Protocol.

Module Kernel.

(** ** Structs of little-endian numbers *)

(** The width in bytes and the value of each field. *)
Definition encode_fields (fs : list (nat * Z)) : bytes := concat (map (fun f => le_split f.1 f.2) fs).
Fixpoint read_fields (ws : list nat) (l : bytes) : list Z :=
  match ws with [] => [] | w :: ws => le_combine (take w l) :: read_fields ws (drop w l) end.
Definition slice (off n : Z) (l : bytes) : bytes := ztake n (zdrop off l).
Definition field (off n : Z) (l : bytes) : Z := le_combine (slice off n l).

(** ** Memory and events *)

Record memory_info : Type := mk_memory_info {
  mi_base : Z; mi_size : Z; memory_type : Z; memory_attribute : Z; permission : Z;
  device_ref_count : Z; ipc_ref_count : Z; mi_padding : Z }.
Definition encode_memory_info (mi : memory_info) : bytes :=
  encode_fields [(8%nat, mi_base mi); (8%nat, mi_size mi); (4%nat, memory_type mi); (4%nat, memory_attribute mi);
    (4%nat, permission mi); (4%nat, device_ref_count mi); (4%nat, ipc_ref_count mi); (4%nat, mi_padding mi)].

(** hos_types::LoadedModuleInfo *)
Record module_info : Type := mk_module_info { module_build_id : bytes; module_addr : Z; module_size : Z }.
Definition encode_module (i : module_info) : bytes :=
  ztake 32 (module_build_id i ++ zreplicate 32 Byte.x00) ++
  encode_fields [(8%nat, module_addr i); (8%nat, module_size i)].

(** An event is the bytes the kernel gives. *)
Definition debug_event : Type := bytes.
Definition sizeof_debug_event : Z := 144.
Definition event_type (e : debug_event) : Z := field 0 4 e.
Definition thread_id (e : debug_event) : Z := field 8 8 e.
Definition attach_title_id (e : debug_event) : Z := field 16 8 e.
Definition attach_process_id (e : debug_event) : Z := field 24 8 e.
Definition attach_process_name (e : debug_event) : bytes := slice 32 12 e.
Definition attach_mmu_flags (e : debug_event) : Z := field 44 4 e.
Definition attach_thread_id (e : debug_event) : Z := field 16 8 e.
Definition attach_tls_pointer (e : debug_event) : Z := field 24 8 e.
Definition attach_entrypoint (e : debug_event) : Z := field 32 8 e.
Definition exception_type (e : debug_event) : Z := field 16 4 e.

Definition ATTACH_PROCESS : Z := 0.
Definition ATTACH_THREAD : Z := 1.
Definition UNKNOWN : Z := 2.
Definition EXIT : Z := 3.
Definition EXCEPTION : Z := 4.
(** The code of [svcGetDebugEvent] when no event is pending. *)
Definition no_event : Z := 0x8c01.

(** A result or an error code; a call with no result gives its code.  A thread context is the
    bytes from its registers on. *)
Class debug_svc (K : Type) : Type := {
  svcDebugActiveProcess : Z → K → (Z + Z) * K;
  svcCloseHandle : Z → K → K;
  svcGetProcessId : Z → K → Z + Z;
  svcGetDebugEvent : Z → K → (Z + debug_event) * K;
  svcContinueDebugEvent : Z → Z → list Z → K → Z * K;
  svcBreakDebugProcess : Z → K → Z * K;
  svcQueryDebugProcessMemory : Z → Z → K → Z + (memory_info * Z);
  svcReadDebugProcessMemory : Z → Z → Z → K → Z + bytes;
  svcWriteDebugProcessMemory : Z → Z → bytes → K → Z * K;
  svcGetDebugThreadContext : Z → Z → Z → K → Z + bytes;
  svcSetDebugThreadContext : Z → Z → Z → bytes → K → Z * K }.

(** [twili::Assert] of a result. *)
Definition Assert {A} (r : Z + A) : outcome A := match r with inl code => Aborts code | inr a => Done a end.

Section laws.
Context {K : Type} `{!debug_svc K}.

(** The regions lie end to end from [a] to [b]. *)
Fixpoint tile (a : Z) (m : list memory_info) (b : Z) : Prop :=
  match m with
  | [] => a = b
  | mi :: m => mi_base mi = a ∧ 0 < mi_size mi ∧ tile (a + mi_size mi) m b
  end.

(** The map of a debugged process: the regions cover the address space, and a query gives the
    region of the address. *)
Record mapped (h : Z) (k : K) (m : list memory_info) : Prop := {
  mapped_tile : tile 0 m (2 ^ 64);
  mapped_query mi addr : mi ∈ m → mi_base mi ≤ addr < mi_base mi + mi_size mi →
    ∃ page, svcQueryDebugProcessMemory h addr k = inr (mi, page) }.

(** The bytes of a range, and that the kernel reads them inside one region. *)
Definition contents (memory : Z → byte) (a n : Z) : bytes := (fun i => memory (a + i)) <$> seqZ 0 n.
Definition reads (h : Z) (k : K) (memory : Z → byte) (mi : memory_info) : Prop :=
  ∀ off n, 0 ≤ off → 0 ≤ n → off + n ≤ mi_size mi →
    svcReadDebugProcessMemory h (mi_base mi + off) n k = inr (contents memory (mi_base mi + off) n).

(** The pending events of a handle, until there are no more. *)
Inductive raises (h : Z) : K → list debug_event → K → Prop :=
| raises_none k k' : svcGetDebugEvent h k = (inl no_event, k') → raises h k [] k'
| raises_event k k1 k2 e es :
    svcGetDebugEvent h k = (inr e, k1) → raises h k1 es k2 → raises h k (e :: es) k2.

End laws.

(** ** Lemmas *)

Lemma zlen_memory memory a n : 0 ≤ n → zlen (contents memory a n) = n.
Proof. intros. unfold contents, zlen. rewrite length_fmap, length_seqZ. lia. Qed.

Lemma contents_app memory a n m :
  0 ≤ n → 0 ≤ m → contents memory a (n + m) = contents memory a n ++ contents memory (a + n) m.
Proof.
  intros. unfold contents. rewrite seqZ_app, fmap_app by lia. f_equal.
  replace (0 + n) with (n + 0) by lia. rewrite <- fmap_add_seqZ, <- list_fmap_compose.
  apply list_fmap_ext. intros _ i _. cbn. f_equal. lia.
Qed.

Lemma zlen_encode_fields fs : zlen (encode_fields fs) = foldr (fun f n => Z.of_nat f.1 + n) 0 fs.
Proof.
  unfold encode_fields. induction fs as [|[w v] fs IH]; [done|]. cbn [map concat foldr fst snd].
  rewrite zlen_app, IH. unfold zlen at 1. by rewrite length_le_split.
Qed.

(** *** Parts of an encoded struct *)

Lemma slice_0 n l : slice 0 n l = ztake n l.
Proof. unfold slice. by rewrite zdrop_0 by lia. Qed.
Lemma slice_app l1 l2 off n : zlen l1 ≤ off → slice off n (l1 ++ l2) = slice (off - zlen l1) n l2.
Proof. intros. unfold slice. by rewrite zdrop_app_ge by done. Qed.
Lemma slice_front l1 l2 n : n = zlen l1 → slice 0 n (l1 ++ l2) = l1.
Proof. intros. by rewrite slice_0, ztake_app by done. Qed.

(** A field of an encoded struct. *)
Lemma field_here w v fs rest n :
  n = Z.of_nat w → field 0 n (encode_fields ((w, v) :: fs) ++ rest) = v mod 2 ^ (8 * Z.of_nat w).
Proof.
  intros ->. unfold field, encode_fields. cbn [map concat fst snd]. rewrite <- app_assoc.
  rewrite slice_front by (unfold zlen; by rewrite length_le_split). rewrite le_combine_split. do 2 f_equal. lia.
Qed.
Lemma field_later w v fs rest off n :
  Z.of_nat w ≤ off →
  field off n (encode_fields ((w, v) :: fs) ++ rest) = field (off - Z.of_nat w) n (encode_fields fs ++ rest).
Proof.
  intros. unfold field, encode_fields. cbn [map concat fst snd]. rewrite <- app_assoc.
  rewrite slice_app by (unfold zlen; by rewrite length_le_split). unfold zlen. by rewrite length_le_split.
Qed.

Lemma field_le w v rest n :
  n = Z.of_nat w → field 0 n (le_split w v ++ rest) = v mod 2 ^ (8 * Z.of_nat w).
Proof.
  intros ->. unfold field. rewrite slice_front by (unfold zlen; by rewrite length_le_split).
  rewrite le_combine_split. do 2 f_equal. lia.
Qed.
Lemma field_app l rest off n : zlen l ≤ off → field off n (l ++ rest) = field (off - zlen l) n rest.
Proof. intros. unfold field. by rewrite slice_app. Qed.

(** Fields that were written are read back, cut to their width. *)
Lemma read_encode_fields fs rest :
  read_fields (map fst fs) (encode_fields fs ++ rest) = map (fun f => f.2 mod 2 ^ (8 * Z.of_nat f.1)) fs.
Proof.
  unfold encode_fields. induction fs as [|[w v] fs IH]; [done|].
  cbn [map concat read_fields fst snd]. rewrite <- app_assoc.
  rewrite take_app_length', drop_app_length' by (by rewrite length_le_split). rewrite IH, le_combine_split.
  do 3 f_equal. lia.
Qed.

Section regions.
Context {K : Type} `{!debug_svc K}.

Lemma tile_le a m b : tile a m b → a ≤ b.
Proof. revert a. induction m as [|mi m IH]; cbn; intros a; [lia|]. intros (_ & ? & Ht%IH). lia. Qed.

Lemma tile_base a m b mi : tile a m b → mi ∈ m → a ≤ mi_base mi ∧ mi_base mi + mi_size mi ≤ b ∧ 0 < mi_size mi.
Proof.
  revert a. induction m as [|mi' m IH]; intros a Ht Hin; [by apply elem_of_nil in Hin|].
  destruct Ht as (Hb & Hs & Ht).
  apply elem_of_cons in Hin as [->|Hin]; [apply tile_le in Ht; lia|].
  apply IH in Ht; [lia|done].
Qed.

(** A query at the start of the rest of the map gives its first region. *)
Lemma query_next h k m m1 mi m2 :
  mapped h k m → m = m1 ++ mi :: m2 →
  ∃ page, svcQueryDebugProcessMemory h (mi_base mi) k = inr (mi, page).
Proof.
  intros Hm ->. assert (mi ∈ m1 ++ mi :: m2) as Hin by (apply elem_of_app; right; left).
  destruct (tile_base _ _ _ mi (mapped_tile _ _ _ Hm) Hin) as (_ & _ & ?).
  apply (mapped_query _ _ _ Hm); [done|lia].
Qed.

Lemma tile_app a m1 m2 b : tile a (m1 ++ m2) b ↔ ∃ c, tile a m1 c ∧ tile c m2 b.
Proof.
  revert a. induction m1 as [|mi m1 IH]; intros a; cbn.
  - split; [by eexists|]. by intros (c & -> & ?).
  - rewrite IH. split; [intros (? & ? & c & ? & ?); eauto|intros (c & (? & ? & ?) & ?); eauto].
Qed.
End regions.
End Kernel.
