(* ===== verification/CrashReport.v ===== *)
(** * twili/ELFCrashReport.{hpp,cpp}, twili/Elf.hpp: the core file of a process

    [Generate] attaches to a process as a debugger, collects notes about the process, its
    modules and its threads, and writes an ELF core file into a response: the header, the
    memory, the notes, the program headers.  The kernel is the class [Kernel.debug_svc], the
    response any transport of [Response].  [parse_core] is a reader of such files, independent
    of the code. *)
From stdpp Require Import list_numbers.
From S2P Require Import Prelude Err Protocol MessageConnection Response Kernel.
Import Protocol.

Module CrashReport.
Import Err Kernel.

(** ** Elf.hpp *)

Definition ET_CORE : Z := 4.
Definition EM_AARCH64 : Z := 0xB7.
Definition PT_LOAD : Z := 1.
Definition PT_NOTE : Z := 4.
Definition PF_X : Z := 1.
Definition PF_W : Z := 2.
Definition PF_R : Z := 4.
Definition NT_PRSTATUS : Z := 1.
Definition NT_PRPSINFO : Z := 3.
Definition NT_AUXV : Z := 6.
Definition NT_TWILI_PROCESS : Z := 6480.
Definition NT_TWILI_THREAD : Z := 6481.
Definition NT_TWILI_NSO : Z := 6482.
Definition AT_NULL : Z := 0.
Definition AT_ENTRY : Z := 9.
Definition sizeof_Phdr : Z := 56.
Definition sizeof_Shdr : Z := 64.
Definition sizeof_Ehdr : Z := 64.

(** What [Generate] leaves out of the header is zero or has the default of the struct. *)
Definition Elf64_Ehdr (phoff phnum : Z) : bytes :=
  [Byte.x7f; Byte.x45; Byte.x4c; Byte.x46; Byte.x02; Byte.x01; Byte.x01; Byte.x03] ++
  zreplicate 8 Byte.x00 ++
  encode_fields [(2%nat, ET_CORE); (2%nat, EM_AARCH64); (4%nat, 1); (8%nat, 0); (8%nat, phoff); (8%nat, 0);
    (4%nat, 0); (2%nat, sizeof_Ehdr); (2%nat, sizeof_Phdr); (2%nat, phnum); (2%nat, sizeof_Shdr); (2%nat, 0);
    (2%nat, 0)].
Definition Elf64_Phdr (type flags offset vaddr filesz memsz align : Z) : bytes :=
  encode_fields [(4%nat, type); (4%nat, flags); (8%nat, offset); (8%nat, vaddr); (8%nat, 0); (8%nat, filesz);
    (8%nat, memsz); (8%nat, align)].

(** ** State *)

Record VMA : Type := mk_VMA { file_offset : Z; virtual_addr : Z; size : Z; flags : Z }.
Record Note : Type := mk_Note { namesz : Z; descsz : Z; type : Z; name : bytes; desc : bytes }.
Record Thread : Type := mk_Thread { signo : Z; th_thread_id : Z; tls_pointer : Z; entrypoint : Z }.
Record report : Type := mk_report { vmas : list VMA; notes : list Note; threads : omap Thread }.
Definition new_report : report := mk_report [] [] [].

Definition AddVMA (virtual_addr size flags : Z) (rep : report) : report :=
  mk_report (vmas rep ++ [mk_VMA 0 virtual_addr size flags]) (notes rep) (threads rep).

(** [while(v.size() % 4 != 0) v.push_back(0)]: three turns at most. *)
Fixpoint pad_loop (fuel : nat) (l : bytes) : bytes :=
  match fuel with
  | O => l
  | S fuel => if zlen l mod 4 =? 0 then l else pad_loop fuel (l ++ [Byte.x00])
  end.
Definition pad4 (l : bytes) : bytes := pad_loop 4 l.

Definition AddNote (name : bytes) (type : Z) (desc : bytes) (rep : report) : report :=
  mk_report (vmas rep)
    (notes rep ++ [mk_Note (u32 (zlen name)) (u32 (zlen desc)) type (pad4 name) (pad4 desc)]) (threads rep).

Definition AddThread (thread_id tls_pointer entrypoint : Z) (rep : report) : report :=
  mk_report (vmas rep) (notes rep)
    (om_emplace thread_id (mk_Thread 0 thread_id tls_pointer entrypoint) (threads rep)).
Definition GetThread (thread_id : Z) (rep : report) : outcome Thread :=
  match om_find thread_id (threads rep) with Some t => Done t | None => Undefined end.
Definition set_signo (thread_id signal : Z) (rep : report) : outcome report :=
  t ← GetThread thread_id rep;
  Done (mk_report (vmas rep) (notes rep)
    (om_set thread_id (mk_Thread signal (th_thread_id t) (tls_pointer t) (entrypoint t)) (threads rep))).

(** ** Process::AddNotes *)

Definition twili_nso_info (i : module_info) : bytes :=
  encode_fields [(8%nat, module_addr i); (8%nat, module_size i)] ++ ztake 32 (module_build_id i).
(** [infos] is what [GetNsoInfos] left; its result code is not looked at. *)
Definition Process_AddNotes (infos : list module_info) (rep : report) : report :=
  foldl (fun rep i => AddNote (str "Twili") NT_TWILI_NSO (twili_nso_info i) rep) rep infos.
Definition auxv (target_entry : Z) : bytes :=
  encode_fields [(8%nat, AT_ENTRY); (8%nat, target_entry); (8%nat, AT_NULL); (8%nat, 0)].
Definition MonitoredProcess_AddNotes (infos : list module_info) (target_entry : Z) (rep : report) : report :=
  AddNote (str "CORE") NT_AUXV (auxv target_entry) (Process_AddNotes infos rep).
(** A monitored process has a target entry, another process has none. *)
Definition AddNotes (infos : list module_info) (target_entry : option Z) (rep : report) : report :=
  match target_entry with
  | Some e => MonitoredProcess_AddNotes infos e rep
  | None => Process_AddNotes infos rep
  end.

(** ** Generate *)

Section report.
Context {K T : Type} `{!debug_svc K} `{!Response.ResponseStateImpl T}.
(** The padding inside the structs, the fields of the message header that stay uninitialised,
    the signal numbers of the toolchain. *)
Context (junk : Z → byte) (junk_object_id junk_pad : Z).
Context (SIGILL SIGTRAP SIGSEGV SIGBUS : Z).

Definition padding (n : Z) : bytes := junk <$> seqZ 0 n.

Definition elf_prpsinfo (e : debug_event) : bytes :=
  [Byte.x00; Byte.x2e; Byte.x00; Byte.x00] ++ padding 4 ++
  encode_fields [(8%nat, 0); (4%nat, 0); (4%nat, 0); (4%nat, u32 (attach_process_id e)); (4%nat, 0); (4%nat, 0);
    (4%nat, 0)] ++
  attach_process_name e ++ zreplicate 4 Byte.x00 ++ zreplicate 80 Byte.x00.
Definition twili_process (e : debug_event) : bytes :=
  encode_fields [(8%nat, attach_title_id e); (8%nat, attach_process_id e)] ++
  attach_process_name e ++ encode_fields [(4%nat, attach_mmu_flags e)].
Definition twili_thread (e : debug_event) : bytes :=
  encode_fields [(8%nat, attach_thread_id e); (8%nat, attach_tls_pointer e); (8%nat, attach_entrypoint e)].

(** The signal of an exception; none for a type outside the table of names, which is read
    before. *)
Definition signal_of (exception_type : Z) : option Z :=
  match exception_type with
  | 0 | 8 => Some SIGILL
  | 1 | 2 => Some SIGSEGV
  | 3 => Some SIGBUS
  | 4 | 5 | 6 | 7 => Some SIGTRAP
  | _ => None
  end.

Definition handle_event (e : debug_event) (rep : report) : outcome report :=
  if event_type e =? ATTACH_PROCESS then
    Done (AddNote (str "Twili") NT_TWILI_PROCESS (twili_process e)
      (AddNote (str "CORE") NT_PRPSINFO (elf_prpsinfo e) rep))
  else if event_type e =? ATTACH_THREAD then
    Done (AddNote (str "Twili") NT_TWILI_THREAD (twili_thread e)
      (AddThread (attach_thread_id e) (attach_tls_pointer e) (attach_entrypoint e) rep))
  else if (event_type e =? UNKNOWN) || (event_type e =? EXIT) then Done rep
  else if event_type e =? EXCEPTION then
    match signal_of (exception_type e) with
    | Some signal => if thread_id e =? 0 then Done rep else set_signo (thread_id e) signal rep
    | None => Undefined
    end
  else Undefined.

Fixpoint event_loop (fuel : nat) (debug : Z) (rep : report) (k : K) : outcome (report * K) :=
  match fuel with
  | O => OutOfFuel
  | S fuel =>
      match svcGetDebugEvent debug k with
      | (inl code, k) => if code =? no_event then Done (rep, k) else Aborts code
      | (inr e, k) => rep ← handle_event e rep; event_loop fuel debug rep k
      end
  end.

(** I/O mappings are skipped. *)
Definition dumped (mi : memory_info) : bool :=
  negb (Z.land (permission mi) 1 =? 0) && negb (memory_type mi =? 1).
Definition elf_flags (permission : Z) : Z :=
  let f := 0 in
  let f := if Z.land permission 1 =? 0 then f else Z.lor f PF_R in
  let f := if Z.land permission 2 =? 0 then f else Z.lor f PF_W in
  if Z.land permission 4 =? 0 then f else Z.lor f PF_X.

Fixpoint vma_loop (fuel : nat) (debug vaddr : Z) (rep : report) (k : K) : outcome report :=
  match fuel with
  | O => OutOfFuel
  | S fuel =>
      '(mi, _) ← Assert (svcQueryDebugProcessMemory debug vaddr k);
      let rep := if dumped mi then AddVMA (mi_base mi) (mi_size mi) (elf_flags (permission mi)) rep else rep in
      let vaddr := u64 (mi_base mi + mi_size mi) in
      if 0 <? vaddr then vma_loop fuel debug vaddr rep k else Done rep
  end.

(** [Thread::GeneratePRSTATUS] *)
Definition GeneratePRSTATUS (t : Thread) (debug : Z) (k : K) : outcome bytes :=
  context ← Assert (svcGetDebugThreadContext debug (th_thread_id t) 15 k);
  Done (zreplicate 12 Byte.x00 ++ le_split 2 (signo t) ++ padding 2 ++
    encode_fields [(8%nat, 0); (8%nat, 0); (4%nat, u32 (th_thread_id t)); (4%nat, 0); (4%nat, 0); (4%nat, 0)] ++
    zreplicate 64 Byte.x00 ++ ztake 272 context ++ zreplicate 4 Byte.x00 ++ padding 4).
Fixpoint prstatus_loop (ts : omap Thread) (debug : Z) (rep : report) (k : K) : outcome report :=
  match ts with
  | [] => Done rep
  | (_, t) :: ts =>
      status ← GeneratePRSTATUS t debug k;
      prstatus_loop ts debug (AddNote (str "CORE") NT_PRSTATUS status rep) k
  end.

(** Where everything goes in the file. *)
Fixpoint assign_offsets (total_size : Z) (l : list VMA) : list VMA * Z :=
  match l with
  | [] => ([], total_size)
  | v :: l =>
      let '(l, total) := assign_offsets (u64 (total_size + size v)) l in
      (mk_VMA total_size (virtual_addr v) (size v) (flags v) :: l, total)
  end.
Definition notes_size (total_size : Z) (l : list Note) : Z :=
  foldl (fun total n => u64 (total + (4 + 4 + 4 + zlen (name n) + zlen (desc n)))) total_size l.

(** The memory of a region, a transfer buffer at a time. *)
Fixpoint write_vma (fuel : nat) (debug : Z) (v : VMA) (offset transfer : Z) (r : Response.ResponseState T) (k : K) :
    outcome (Response.ResponseState T) :=
  match fuel with
  | O => OutOfFuel
  | S fuel =>
      if offset <? size v then
        let n := if u64 (size v - offset) <? transfer then u64 (size v - offset) else transfer in
        data ← Assert (svcReadDebugProcessMemory debug (u64 (virtual_addr v + offset)) n k);
        r ← Response.Write data r;
        write_vma fuel debug v (u64 (offset + transfer)) transfer r k
      else Done r
  end.
Fixpoint write_vmas (debug : Z) (l : list VMA) (transfer : Z) (r : Response.ResponseState T) (k : K) :
    outcome (Response.ResponseState T) :=
  match l with
  | [] => Done r
  | v :: l => r ← write_vma (S (Z.to_nat (size v))) debug v 0 transfer r k; write_vmas debug l transfer r k
  end.

Definition note_bytes (n : Note) : bytes :=
  encode_fields [(4%nat, namesz n); (4%nat, descsz n); (4%nat, type n)] ++ name n ++ desc n.
Definition notes_bytes (l : list Note) : bytes := concat (map note_bytes l).
Definition note_phdr (notes_offset filesz : Z) : bytes := Elf64_Phdr PT_NOTE PF_R notes_offset 0 filesz 0 4.
Definition vma_phdr (v : VMA) : bytes :=
  Elf64_Phdr PT_LOAD (flags v) (file_offset v) (virtual_addr v) (size v) (size v) 4096.

(** From the notes and regions on: the response. *)
Definition write_core (debug : Z) (rep : report) (r : Response.ResponseState T) (k : K) :
    outcome (Response.ResponseState T) :=
  let '(vs, notes_offset) := assign_offsets sizeof_Ehdr (vmas rep) in
  let ph_offset := notes_size notes_offset (notes rep) in
  let total_size := u64 (ph_offset + u64 (sizeof_Phdr * u64 (1 + zlen vs))) in
  r ← Response.BeginOk junk_object_id junk_pad (u64 (8 + total_size)) 0 r;
  r ← Response.Write (le_split 8 total_size) r;
  r ← Response.Write (Elf64_Ehdr ph_offset (1 + zlen vs)) r;
  r ← write_vmas debug vs (Response.GetMaxTransferSize (Response.transport r)) r k;
  r ← Response.Write (notes_bytes (notes rep)) r;
  r ← Response.Write (note_phdr notes_offset (zlen (notes_bytes (notes rep))) ++ concat (map vma_phdr vs)) r;
  Response.Finalize r.

(** [pid], [infos] and [target_entry] are the process.  The handle is closed at the end. *)
Definition Generate (fuel : nat) (pid : Z) (infos : list module_info) (target_entry : option Z)
    (r : Response.ResponseState T) (k : K) : outcome (Response.ResponseState T * K) :=
  let rep := AddNotes infos target_entry new_report in
  match svcDebugActiveProcess pid k with
  | (inl code, k) => r ← Response.RespondError junk_object_id junk_pad code r; Done (r, k)
  | (inr debug, k) =>
      '(rep, k) ← event_loop fuel debug rep k;
      rep ← vma_loop fuel debug 0 rep k;
      rep ← prstatus_loop (threads rep) debug rep k;
      r ← write_core debug rep r k;
      Done (r, svcCloseHandle debug k)
  end.
End report.

(** ** A reader of core files *)

Record segment : Type := mk_segment { seg_vaddr : Z; seg_flags : Z; seg_data : bytes }.
Record core_note : Type := mk_core_note { note_name : bytes; note_type : Z; note_desc : bytes }.

Definition align4 (n : Z) : Z := (n + 3) / 4 * 4.
Fixpoint parse_notes (fuel : nat) (l : bytes) : option (list core_note) :=
  match l, fuel with
  | [], _ => Some []
  | _, O => None
  | _, S fuel =>
      let n := field 0 4 l in
      let d := field 4 4 l in
      let e := 12 + align4 n + align4 d in
      if zlen l <? e then None
      else (fun t => mk_core_note (slice 12 n l) (field 8 4 l) (slice (12 + align4 n) d l) :: t)
             <$> parse_notes fuel (zdrop e l)
  end.

(** What one program header describes. *)
Definition load_phdr (file ph : bytes) : option (list segment * list core_note) :=
  match read_fields [4%nat; 4%nat; 8%nat; 8%nat; 8%nat; 8%nat; 8%nat; 8%nat] ph with
  | [type; flags; offset; vaddr; _; filesz; _; _] =>
      if zlen file <? offset + filesz then None
      else if type =? PT_LOAD then Some ([mk_segment vaddr flags (slice offset filesz file)], [])
      else if type =? PT_NOTE then
        ns ← parse_notes (S (Z.to_nat filesz)) (slice offset filesz file); Some ([], ns)
      else Some ([], [])
  | _ => None
  end.
Fixpoint load_phdrs (n : nat) (file table : bytes) : option (list segment * list core_note) :=
  match n with
  | O => Some ([], [])
  | S n =>
      '(s, ns) ← load_phdr file (ztake sizeof_Phdr table);
      '(s', ns') ← load_phdrs n file (zdrop sizeof_Phdr table);
      Some (s ++ s', ns ++ ns')
  end.

Definition magic : bytes := [Byte.x7f; Byte.x45; Byte.x4c; Byte.x46; Byte.x02; Byte.x01].
Definition parse_core (file : bytes) : option (list segment * list core_note) :=
  if negb (bool_decide (ztake 6 file = magic)) || negb (field 16 2 file =? ET_CORE)
     || negb (field 54 2 file =? sizeof_Phdr) then None
  else
    let phoff := field 32 8 file in
    let phnum := field 56 2 file in
    if zlen file <? phoff + sizeof_Phdr * phnum then None
    else load_phdrs (Z.to_nat phnum) file (zdrop phoff file).

(** ** What should be in the file *)

Section contents.
Context (junk : Z → byte) (SIGILL SIGTRAP SIGSEGV SIGBUS : Z).

Definition segments_of (memory : Z → byte) (m : list memory_info) : list segment :=
  map (fun mi => mk_segment (mi_base mi) (elf_flags (permission mi)) (contents memory (mi_base mi) (mi_size mi)))
    (filter (fun mi => Is_true (dumped mi)) m).

(** The events the code has names for; an exception is in no thread or in one that was attached. *)
Fixpoint events_ok (ids : list Z) (l : list debug_event) : Prop :=
  match l with
  | [] => True
  | e :: l =>
      event_type e < 5 ∧
      (event_type e = EXCEPTION → exception_type e < 9 ∧ (thread_id e = 0 ∨ thread_id e ∈ ids)) ∧
      events_ok (if event_type e =? ATTACH_THREAD then attach_thread_id e :: ids else ids) l
  end.

Definition module_notes (infos : list module_info) (target_entry : option Z) : list core_note :=
  map (fun i => mk_core_note (str "Twili") NT_TWILI_NSO (twili_nso_info i)) infos ++
  match target_entry with Some e => [mk_core_note (str "CORE") NT_AUXV (auxv e)] | None => [] end.
Definition event_notes (e : debug_event) : list core_note :=
  if event_type e =? ATTACH_PROCESS then
    [mk_core_note (str "CORE") NT_PRPSINFO (elf_prpsinfo junk e);
     mk_core_note (str "Twili") NT_TWILI_PROCESS (twili_process e)]
  else if event_type e =? ATTACH_THREAD then [mk_core_note (str "Twili") NT_TWILI_THREAD (twili_thread e)]
  else [].

(** The signal of a thread: the one of its last exception. *)
Definition last_signal (tid : Z) (l : list debug_event) : Z :=
  foldl (fun s e =>
    if (event_type e =? EXCEPTION) && (thread_id e =? tid) && negb (tid =? 0)
    then default s (signal_of SIGILL SIGTRAP SIGSEGV SIGBUS (exception_type e)) else s) 0 l.
Definition attached (l : list debug_event) : list Z :=
  map attach_thread_id (filter (fun e => event_type e = ATTACH_THREAD) l).

(** The description of a thread: the signal, the id and the registers where the format has them. *)
Definition status_of (context : Z → bytes) (signal tid : Z) (d : bytes) : Prop :=
  zlen d = 392 ∧ slice 12 2 d = le_split 2 signal ∧ field 32 4 d = u32 tid ∧
  slice 112 272 d = ztake 272 (context tid).
End contents.

(** ** Lemmas: notes *)

Definition mk_note (c : core_note) : Note :=
  mk_Note (u32 (zlen (note_name c))) (u32 (zlen (note_desc c))) (note_type c) (pad4 (note_name c)) (pad4 (note_desc c)).
Definition add_notes (l : list core_note) (rep : report) : report :=
  mk_report (vmas rep) (notes rep ++ map mk_note l) (threads rep).
Definition note_ok (c : core_note) : Prop :=
  zlen (note_name c) ≤ 8 ∧ zlen (note_desc c) ≤ 512 ∧ 0 ≤ note_type c < 2 ^ 32.

Lemma add_notes_app l1 l2 rep : add_notes l2 (add_notes l1 rep) = add_notes (l1 ++ l2) rep.
Proof. unfold add_notes. cbn [vmas notes threads]. by rewrite map_app, app_assoc. Qed.
Lemma add_notes_nil rep : add_notes [] rep = rep.
Proof. unfold add_notes. cbn [map]. rewrite app_nil_r. by destruct rep. Qed.
Lemma AddNote_add name type desc rep : AddNote name type desc rep = add_notes [mk_core_note name type desc] rep.
Proof. done. Qed.

Ltac euclid := Z.to_euclidean_division_equations; lia.

Lemma pad_loop_spec n l :
  (Z.to_nat (- zlen l mod 4) < n)%nat → pad_loop n l = l ++ zreplicate (- zlen l mod 4) Byte.x00.
Proof.
  revert l. induction n as [|n IH]; intros l Hn; [lia|]. cbn [pad_loop]. zlen_facts.
  destruct (Z.eqb_spec (zlen l mod 4) 0) as [E|E].
  - replace (- zlen l mod 4) with 0 by euclid. by rewrite app_nil_r.
  - assert (- zlen l mod 4 = 1 + - (zlen l + 1) mod 4) as Em by euclid.
    assert (zlen (l ++ [Byte.x00]) = zlen l + 1) as El by (by rewrite zlen_app).
    assert (0 ≤ - (zlen l + 1) mod 4) by euclid.
    rewrite IH by (rewrite El; lia). rewrite El, Em, <- app_assoc. f_equal.
    unfold zreplicate. by rewrite Z2Nat.inj_add by lia.
Qed.
Lemma pad4_spec l : ∃ z, pad4 l = l ++ z ∧ zlen l + zlen z = align4 (zlen l).
Proof.
  exists (zreplicate (- zlen l mod 4) Byte.x00). unfold pad4, align4. zlen_facts.
  split; [apply pad_loop_spec; euclid|]. rewrite zlen_zreplicate. euclid.
Qed.
Lemma zlen_pad4 l : zlen (pad4 l) = align4 (zlen l).
Proof. destruct (pad4_spec l) as (z & -> & E). by rewrite zlen_app. Qed.

Lemma zlen_note_bytes c :
  zlen (note_bytes (mk_note c)) = 12 + align4 (zlen (note_name c)) + align4 (zlen (note_desc c)).
Proof.
  unfold note_bytes, mk_note. cbn [namesz descsz type name desc].
  rewrite !zlen_app, zlen_encode_fields, !zlen_pad4. cbn [foldr fst]. lia.
Qed.

Lemma parse_note c rest n :
  note_ok c →
  parse_notes (S n) (note_bytes (mk_note c) ++ rest) = (fun t => c :: t) <$> parse_notes n rest.
Proof.
  intros (Hn & Hd & Ht). pose proof (zlen_note_bytes c) as El. set (l := note_bytes (mk_note c) ++ rest).
  assert (zlen l = 12 + align4 (zlen (note_name c)) + align4 (zlen (note_desc c)) + zlen rest) as Ell
    by (subst l; by rewrite zlen_app, El).
  destruct (pad4_spec (note_name c)) as (z1 & E1 & L1), (pad4_spec (note_desc c)) as (z2 & E2 & L2).
  set (h := encode_fields [(4%nat, u32 (zlen (note_name c))); (4%nat, u32 (zlen (note_desc c))); (4%nat, note_type c)]).
  assert (zlen h = 12) as Lh by (subst h; by rewrite zlen_encode_fields).
  assert (l = h ++ note_name c ++ z1 ++ note_desc c ++ z2 ++ rest) as Hl.
  { subst l. unfold note_bytes, mk_note. cbn [namesz descsz type name desc]. fold h. rewrite E1, E2.
    by rewrite <- !app_assoc. }
  assert (field 0 4 l = zlen (note_name c)) as F0.
  { rewrite Hl. unfold h. rewrite field_here by done. change (2 ^ (8 * Z.of_nat 4)) with (2 ^ 32). zlen_facts.
    rewrite u32_small, Z.mod_small; lia. }
  assert (field 4 4 l = zlen (note_desc c)) as F4.
  { rewrite Hl. unfold h. rewrite field_later, field_here by done. change (2 ^ (8 * Z.of_nat 4)) with (2 ^ 32). zlen_facts.
    rewrite u32_small, Z.mod_small; lia. }
  assert (field 8 4 l = note_type c) as F8.
  { rewrite Hl. unfold h. do 2 rewrite field_later by done. rewrite field_here by done. by apply Z.mod_small. }
  assert (zdrop (12 + align4 (zlen (note_name c)) + align4 (zlen (note_desc c))) l = rest) as Hrest
    by (subst l; apply zdrop_app; lia).
  assert (slice 12 (zlen (note_name c)) l = note_name c) as Sn.
  { rewrite Hl, slice_app, Lh by lia. change (12 - 12) with 0. by rewrite slice_front. }
  assert (slice (12 + align4 (zlen (note_name c))) (zlen (note_desc c)) l = note_desc c) as Sd.
  { zlen_facts. rewrite Hl, slice_app, Lh, slice_app, slice_app by lia.
    replace (_ - _ - _ - _) with 0 by lia. by rewrite slice_front. }
  clearbody l. zlen_facts. destruct l as [|b0 l0]; [rewrite zlen_nil in Ell; lia|].
  cbn [parse_notes]. rewrite F0, F4, F8, Hrest, Sn, Sd. rewrite (proj2 (Z.ltb_ge _ _)) by lia.
  by destruct c.
Qed.

Lemma parse_notes_spec l n :
  (length l < n)%nat → Forall note_ok l → parse_notes n (notes_bytes (map mk_note l)) = Some l.
Proof.
  intros Hn Hok. revert n Hn. unfold notes_bytes. induction Hok as [|c l Hc _ IH]; intros n Hn; [by destruct n|].
  cbn [length] in Hn. destruct n as [|n]; [lia|]. cbn [map concat]. rewrite parse_note, IH by (done || lia). done.
Qed.

Lemma zlen_notes_bytes l :
  Forall note_ok l → zlen l ≤ zlen (notes_bytes (map mk_note l)) ≤ 1024 * zlen l.
Proof.
  unfold notes_bytes. induction 1 as [|c l (Hn & Hd & _) _ IH]; [done|]. cbn [map concat].
  rewrite zlen_app, zlen_note_bytes, zlen_cons. unfold align4. zlen_facts. euclid.
Qed.

(** ** Lemmas: what is collected *)

Section collect.
Context (junk : Z → byte) (SIGILL SIGTRAP SIGSEGV SIGBUS : Z).
#[local] Abbreviation handle_event := (handle_event junk SIGILL SIGTRAP SIGSEGV SIGBUS).
#[local] Abbreviation signal_of := (signal_of SIGILL SIGTRAP SIGSEGV SIGBUS).
#[local] Abbreviation last_signal := (last_signal SIGILL SIGTRAP SIGSEGV SIGBUS).
#[local] Abbreviation event_notes := (event_notes junk).

Lemma AddNotes_spec infos entry rep :
  AddNotes infos entry rep = add_notes (module_notes infos entry) rep.
Proof.
  assert (∀ rep, Process_AddNotes infos rep =
    add_notes (map (fun i => mk_core_note (str "Twili") NT_TWILI_NSO (twili_nso_info i)) infos) rep) as Hp.
  { unfold Process_AddNotes. induction infos as [|i infos IH]; intros rep0; [by rewrite add_notes_nil|].
    cbn [foldl map]. rewrite IH, AddNote_add, add_notes_app. done. }
  unfold AddNotes, module_notes, MonitoredProcess_AddNotes. destruct entry as [e|].
  - by rewrite Hp, AddNote_add, add_notes_app.
  - by rewrite Hp, app_nil_r.
Qed.

(** The threads after the events [seen], [ids] being the ones attached. *)
Record threads_ok (ids : list Z) (seen : list debug_event) (ts : omap Thread) : Prop := {
  threads_sorted : om_sorted ts;
  threads_ids tid : tid ∈ ids ↔ is_Some (om_find tid ts);
  threads_id tid t : om_find tid ts = Some t → th_thread_id t = tid;
  threads_signal tid : last_signal tid seen = default 0 (signo <$> om_find tid ts) }.

Lemma last_signal_snoc tid seen e :
  last_signal tid (seen ++ [e]) =
    if (event_type e =? EXCEPTION) && (thread_id e =? tid) && negb (tid =? 0)
    then default (last_signal tid seen) (signal_of (exception_type e)) else last_signal tid seen.
Proof. unfold CrashReport.last_signal. by rewrite foldl_app. Qed.

Lemma last_signal_other tid seen e :
  event_type e ≠ EXCEPTION ∨ thread_id e ≠ tid ∨ tid = 0 → last_signal tid (seen ++ [e]) = last_signal tid seen.
Proof.
  intros H. rewrite last_signal_snoc.
  destruct (Z.eqb_spec (event_type e) EXCEPTION), (Z.eqb_spec (thread_id e) tid), (Z.eqb_spec tid 0); cbn; try done.
  lia.
Qed.

Lemma threads_ok_attach ids seen ts e t :
  event_type e = ATTACH_THREAD → signo t = 0 → th_thread_id t = attach_thread_id e → threads_ok ids seen ts →
  threads_ok (attach_thread_id e :: ids) (seen ++ [e]) (om_emplace (attach_thread_id e) t ts).
Proof.
  intros He Hs0 Hid0 [Hs Hi Hid Hsig]. split.
  - by apply om_sorted_emplace.
  - intros tid. rewrite om_find_emplace, elem_of_cons, Hi. destruct (Z.eqb_spec (attach_thread_id e) tid) as [->|].
    + split; [by eexists|by left].
    + split; [by intros [?|]|by right].
  - intros tid t'. rewrite om_find_emplace. destruct (Z.eqb_spec (attach_thread_id e) tid) as [<-|]; [|apply Hid].
    intros [= <-]. destruct (om_find _ ts) eqn:Ef; [by apply Hid|done].
  - intros tid. rewrite last_signal_other by (left; by rewrite He). rewrite Hsig, om_find_emplace.
    destruct (Z.eqb_spec (attach_thread_id e) tid) as [<-|]; [|done].
    by destruct (om_find _ ts); cbn.
Qed.

Lemma threads_ok_skip ids seen ts e :
  event_type e ≠ EXCEPTION ∨ thread_id e = 0 → threads_ok ids seen ts → threads_ok ids (seen ++ [e]) ts.
Proof.
  intros He [Hs Hi Hid Hsig]. split; [done..|]. intros tid. rewrite <- Hsig. apply last_signal_other.
  destruct He as [?|Hz]; [by left|right]. rewrite Hz. destruct (decide (tid = 0)); [by right|left; lia].
Qed.

Lemma threads_ok_signal ids seen ts e t signal :
  event_type e = EXCEPTION → thread_id e ≠ 0 → signal_of (exception_type e) = Some signal →
  om_find (thread_id e) ts = Some t → threads_ok ids seen ts →
  threads_ok ids (seen ++ [e])
    (om_set (thread_id e) (mk_Thread signal (th_thread_id t) (tls_pointer t) (entrypoint t)) ts).
Proof.
  intros He Hz Hsg Ht [Hs Hi Hid Hsig]. split.
  - unfold om_sorted. by rewrite om_set_keys.
  - intros tid. rewrite Hi, om_find_set. destruct (Z.eqb_spec (thread_id e) tid) as [<-|]; [|done].
    rewrite Ht. cbn. split; by eexists.
  - intros tid t'. rewrite om_find_set. destruct (Z.eqb_spec (thread_id e) tid) as [<-|]; [|apply Hid].
    rewrite Ht. intros [= <-]. exact (Hid _ _ Ht).
  - intros tid. rewrite last_signal_snoc, om_find_set, He, Hsg, Hsig. cbn.
    destruct (Z.eqb_spec (thread_id e) tid) as [<-|]; [|done]. rewrite Ht.
    by rewrite (proj2 (Z.eqb_neq _ _) Hz).
Qed.

Lemma signal_of_small n : 0 ≤ n < 9 → ∃ s, signal_of n = Some s.
Proof.
  intros. assert (n = 0 ∨ n = 1 ∨ n = 2 ∨ n = 3 ∨ n = 4 ∨ n = 5 ∨ n = 6 ∨ n = 7 ∨ n = 8) as Hn by lia.
  repeat destruct Hn as [->|Hn]; try subst n; by eexists.
Qed.

Lemma field_nonneg off n l : 0 ≤ field off n l.
Proof. unfold field. apply le_combine_bound. Qed.

Lemma handle_event_spec e l rep ids seen :
  events_ok ids (e :: l) → threads_ok ids seen (threads rep) →
  ∃ ts ids', handle_event e rep = Done (mk_report (vmas rep) (notes rep ++ map mk_note (event_notes e)) ts) ∧
    threads_ok ids' (seen ++ [e]) ts ∧ events_ok ids' l ∧
    (∀ tid, tid ∈ ids' ↔ tid ∈ ids ∨ event_type e = ATTACH_THREAD ∧ tid = attach_thread_id e).
Proof.
  intros (Ht & Hx & Hl) Hok. unfold CrashReport.handle_event, CrashReport.event_notes.
  pose proof (field_nonneg 0 4 e : 0 ≤ event_type e) as H0.
  destruct (Z.eqb_spec (event_type e) ATTACH_PROCESS) as [E|E].
  { rewrite E in Hl. exists (threads rep), ids. rewrite !AddNote_add, add_notes_app. split_and!; [done| |done|].
    - apply threads_ok_skip; [by rewrite E; left|done].
    - intros tid. rewrite E. split; [by left|by intros [?|[? ?]]]. }
  destruct (Z.eqb_spec (event_type e) ATTACH_THREAD) as [E1|E1].
  { eexists _, (attach_thread_id e :: ids). rewrite AddNote_add. split_and!; [done| |done|].
    - by apply threads_ok_attach.
    - intros tid. rewrite elem_of_cons. split; [intros [?|?]; auto|intros [?|[_ ?]]; auto]. }
  assert (∀ tid, tid ∈ ids ↔ tid ∈ ids ∨ event_type e = ATTACH_THREAD ∧ tid = attach_thread_id e) as Hids.
  { intros tid. split; [by left|by intros [?|[? ?]]]. }
  destruct ((event_type e =? UNKNOWN) || (event_type e =? EXIT)) eqn:E2.
  { exists (threads rep), ids. cbn [map]. rewrite app_nil_r. split_and!; [by destruct rep| |done|done].
    apply threads_ok_skip; [|done]. left. intros Ex. by rewrite Ex in E2. }
  destruct (Z.eqb_spec (event_type e) EXCEPTION) as [E3|E3].
  2:{ apply orb_false_iff in E2 as [?%Z.eqb_neq ?%Z.eqb_neq].
      unfold ATTACH_PROCESS, ATTACH_THREAD, UNKNOWN, EXIT, EXCEPTION in *. lia. }
  destruct (Hx E3) as (Hx9 & Hin).
  destruct (signal_of_small (exception_type e)) as (sg & Esg); [pose proof (field_nonneg 16 4 e); unfold exception_type in *; lia|].
  rewrite Esg. cbn [map]. rewrite app_nil_r. destruct (Z.eqb_spec (thread_id e) 0) as [Ez|Ez].
  { exists (threads rep), ids. split_and!; [by destruct rep| |done|done]. apply threads_ok_skip; [by right|done]. }
  destruct Hin as [?|Hin]; [done|]. apply (threads_ids _ _ _ Hok) in Hin as (t & Et).
  unfold set_signo, GetThread. rewrite Et. cbn [mbind outcome_bind].
  eexists _, ids. split_and!; [done| |done|done]. by apply threads_ok_signal.
Qed.

Lemma event_loop_spec {K} `{!debug_svc K} h fuel k es k' rep ids seen :
  raises h k es k' → (length es < fuel)%nat → events_ok ids es → threads_ok ids seen (threads rep) →
  ∃ ts ids', event_loop junk SIGILL SIGTRAP SIGSEGV SIGBUS fuel h rep k =
      Done (mk_report (vmas rep) (notes rep ++ map mk_note (es ≫= event_notes)) ts, k') ∧
    threads_ok ids' (seen ++ es) ts ∧ (∀ tid, tid ∈ ids' ↔ tid ∈ ids ∨ tid ∈ attached es).
Proof.
  intros Hr. revert fuel rep ids seen. induction Hr as [k k' E|k k1 k2 e es E _ IH];
    intros fuel rep ids seen Hf He Hok; (destruct fuel as [|fuel]; [by cbn in Hf; lia|]); cbn [event_loop]; rewrite E.
  - exists (threads rep), ids. cbn. rewrite !app_nil_r. split_and!; [by destruct rep|done|].
    intros tid. unfold attached. cbn. set_solver.
  - destruct (handle_event_spec e es rep ids seen He Hok) as (ts & ids1 & Eh & Hok1 & He1 & Hids1).
    rewrite Eh. cbn [mbind outcome_bind].
    destruct (IH fuel (mk_report (vmas rep) (notes rep ++ map mk_note (event_notes e)) ts) ids1 (seen ++ [e]))
      as (ts2 & ids2 & El & Hok2 & Hids2); [cbn in Hf; lia|done|done|].
    exists ts2, ids2. rewrite El. cbn [vmas notes]. split_and!.
    + by rewrite bind_cons, map_app, app_assoc.
    + by rewrite <- app_assoc in Hok2.
    + intros tid. rewrite Hids2, Hids1. unfold attached. rewrite filter_cons.
      case_decide as Hd; cbn [map]; [rewrite elem_of_cons|]; intuition congruence.
Qed.
End collect.

Definition vma_of (mi : memory_info) : VMA := mk_VMA 0 (mi_base mi) (mi_size mi) (elf_flags (permission mi)).
Definition dumped_regions (m : list memory_info) : list memory_info := filter (fun mi => Is_true (dumped mi)) m.

Section collect_memory.
Context {K : Type} `{!debug_svc K} (h : Z) (k : K).

Lemma vma_loop_spec m m1 m2 a rep fuel :
  mapped h k m → m = m1 ++ m2 → m2 ≠ [] → 0 ≤ a → tile a m2 (2 ^ 64) → (length m2 ≤ fuel)%nat →
  vma_loop fuel h a rep k =
    Done (mk_report (vmas rep ++ map vma_of (dumped_regions m2)) (notes rep) (threads rep)).
Proof.
  intros Hm. revert m1 a rep fuel. induction m2 as [|mi m2 IH]; intros m1 a rep fuel Em Hne Ha Ht Hf; [done|].
  destruct fuel as [|fuel]; [cbn in Hf; lia|]. destruct Ht as (<- & Hs & Ht). cbn [vma_loop].
  destruct (query_next h k m m1 mi m2 Hm Em) as (page & ->). cbn [Assert mbind outcome_bind]. cbv zeta.
  set (rep1 := if dumped mi then _ else _).
  assert (mk_report (vmas rep ++ map vma_of (dumped_regions (mi :: m2))) (notes rep) (threads rep) =
    mk_report (vmas rep1 ++ map vma_of (dumped_regions m2)) (notes rep1) (threads rep1)) as ->.
  { subst rep1. unfold dumped_regions. rewrite filter_cons. destruct (dumped mi) eqn:Ed.
    - rewrite decide_True by done. cbn [map]. unfold AddVMA. cbn [vmas notes threads]. by rewrite <- app_assoc.
    - by rewrite decide_False by (intros []). }
  clearbody rep1. destruct m2 as [|mi2 m2].
  - cbn in Ht. rewrite Ht. change (u64 (2 ^ 64)) with 0. cbn. rewrite app_nil_r. by destruct rep1.
  - assert (mi_base mi + mi_size mi < 2 ^ 64) by (destruct Ht as (? & ? & ?%tile_le); lia).
    rewrite u64_small, (proj2 (Z.ltb_lt _ _)) by lia.
    apply (IH (m1 ++ [mi])); [by rewrite <- app_assoc|done|lia|done|cbn in *; lia].
Qed.

(** What the registers of a thread are. *)
Definition has_context (context : Z → bytes) (tid : Z) : Prop :=
  svcGetDebugThreadContext h tid 15 k = inr (context tid).

Context (junk : Z → byte).

Definition status_bytes (context : Z → bytes) (t : Thread) : bytes :=
  zreplicate 12 Byte.x00 ++ le_split 2 (signo t) ++ padding junk 2 ++
    encode_fields [(8%nat, 0); (8%nat, 0); (4%nat, u32 (th_thread_id t)); (4%nat, 0); (4%nat, 0); (4%nat, 0)] ++
    zreplicate 64 Byte.x00 ++ ztake 272 (context (th_thread_id t)) ++ zreplicate 4 Byte.x00 ++ padding junk 4.
Definition status_note (context : Z → bytes) (t : Thread) : core_note :=
  mk_core_note (str "CORE") NT_PRSTATUS (status_bytes context t).

Lemma prstatus_loop_spec context ts rep :
  (∀ tid t, In (tid, t) ts → has_context context (th_thread_id t)) →
  prstatus_loop junk ts h rep k = Done (add_notes (map (fun p => status_note context p.2) ts) rep).
Proof.
  revert rep. induction ts as [|[tid t] ts IH]; intros rep Hc; cbn [prstatus_loop map]; [by rewrite add_notes_nil|].
  unfold GeneratePRSTATUS. rewrite (Hc tid t) by (by left). cbn [Assert mbind outcome_bind].
  rewrite IH by (intros; eapply Hc; by right). by rewrite AddNote_add, add_notes_app.
Qed.

Lemma zlen_padding n : 0 ≤ n → zlen (padding junk n) = n.
Proof. intros. unfold padding, zlen. rewrite length_fmap, length_seqZ. lia. Qed.

Lemma status_bytes_spec context t :
  272 ≤ zlen (context (th_thread_id t)) →
  status_of context (signo t) (th_thread_id t) (status_bytes context t).
Proof.
  intros Hc. set (regs := ztake 272 (context (th_thread_id t))).
  set (f := encode_fields [(8%nat, 0); (8%nat, 0); (4%nat, u32 (th_thread_id t)); (4%nat, 0); (4%nat, 0); (4%nat, 0)]).
  assert (zlen f = 32) as Lf by (subst f; by rewrite zlen_encode_fields).
  assert (zlen (le_split 2 (signo t)) = 2) as L2 by (unfold zlen; by rewrite length_le_split).
  assert (zlen regs = 272) as Lr by (subst regs; rewrite zlen_ztake; lia).
  assert (zlen (padding junk 2) = 2) as P2 by (by apply zlen_padding).
  assert (zlen (padding junk 4) = 4) as P4 by (by apply zlen_padding).
  unfold status_of, status_bytes. fold regs f.
  assert (zlen (zreplicate 12 Byte.x00) = 12) as Z12 by done.
  assert (zlen (zreplicate 64 Byte.x00) = 64) as Z64 by done.
  split_and!.
  - rewrite !zlen_app, Z12, L2, P2, Lf, Z64, Lr, P4. done.
  - rewrite slice_app, Z12 by (rewrite Z12; lia). by apply slice_front.
  - unfold field. rewrite slice_app, Z12, slice_app, L2, slice_app, P2 by (rewrite ?Z12, ?L2, ?P2; lia).
    change (32 - 12 - 2 - 2) with 16.
    change (field 16 4 (f ++ zreplicate 64 Byte.x00 ++ regs ++ zreplicate 4 Byte.x00 ++ padding junk 4) =
      u32 (th_thread_id t)).
    unfold f. do 2 rewrite field_later by done. rewrite field_here by done. apply Z.mod_small, u32_range.
  - rewrite slice_app, Z12, slice_app, L2, slice_app, P2, slice_app, Lf, slice_app, Z64
      by (rewrite ?Z12, ?L2, ?P2, ?Lf, ?Z64; lia).
    change (112 - 12 - 2 - 2 - 32 - 64) with 0. by apply slice_front.
Qed.
End collect_memory.

(** ** Lemmas: the layout *)

Fixpoint located (a : Z) (l : list VMA) : list VMA :=
  match l with
  | [] => []
  | v :: l => mk_VMA a (virtual_addr v) (size v) (flags v) :: located (a + size v) l
  end.
Fixpoint sum_sizes (l : list VMA) : Z := match l with [] => 0 | v :: l => size v + sum_sizes l end.

Lemma sum_sizes_nonneg l : Forall (fun v => 0 < size v) l → 0 ≤ sum_sizes l.
Proof. induction 1; cbn [sum_sizes]; lia. Qed.

Lemma assign_offsets_spec a l :
  0 ≤ a → Forall (fun v => 0 < size v) l → a + sum_sizes l < 2 ^ 64 →
  assign_offsets a l = (located a l, a + sum_sizes l).
Proof.
  intros Ha Hl. revert a Ha. induction Hl as [|v l Hv Hl IH]; intros a Ha Hs; cbn [assign_offsets located sum_sizes] in *.
  - by rewrite Z.add_0_r.
  - pose proof (sum_sizes_nonneg l Hl). rewrite u64_small by lia.
    rewrite IH by lia. f_equal. lia.
Qed.
Lemma length_located a l : length (located a l) = length l.
Proof. revert a. induction l as [|v l IH]; intros a; cbn; [done|]. by rewrite IH. Qed.
Lemma sum_sizes_located a l : sum_sizes (located a l) = sum_sizes l.
Proof. revert a. induction l as [|v l IH]; intros a; [done|]. cbn. by rewrite <- (IH (a + size v)). Qed.

Lemma notes_size_spec a l :
  0 ≤ a → a + zlen (notes_bytes l) < 2 ^ 64 → notes_size a l = a + zlen (notes_bytes l).
Proof.
  unfold notes_size, notes_bytes. revert a. induction l as [|n l IH]; intros a Ha Hs; cbn [map concat foldl] in *.
  - rewrite zlen_nil. lia.
  - assert (zlen (note_bytes n) = 12 + zlen (name n) + zlen (desc n)) as En.
    { unfold note_bytes. rewrite !zlen_app, zlen_encode_fields. cbn [foldr fst]. lia. }
    rewrite zlen_app, En in *. zlen_facts. rewrite u64_small by lia. rewrite IH by lia. lia.
Qed.

(** ** Lemmas: the response *)

Section write.
Context {K T : Type} `{!debug_svc K} `{!Response.ResponseStateImpl T} `{HL : !Response.ResponseStateLaws T}.
Context (h : Z) (k : K) (memory : Z → byte).
Implicit Types r : Response.ResponseState T.

Record vma_ok (v : VMA) : Prop := {
  vma_size : 0 < size v < 2 ^ 63;
  vma_addr : 0 ≤ virtual_addr v ∧ virtual_addr v + size v ≤ 2 ^ 64;
  vma_reads off n : 0 ≤ off → 0 ≤ n → off + n ≤ size v →
    svcReadDebugProcessMemory h (virtual_addr v + off) n k = inr (contents memory (virtual_addr v + off) n) }.
Definition vma_data (v : VMA) : bytes := contents memory (virtual_addr v) (size v).

Lemma write_vma_spec v transfer fuel offset r :
  vma_ok v → 0 < transfer < 2 ^ 32 → 0 ≤ offset → (Z.to_nat (size v - offset) < fuel)%nat → offset < 2 ^ 63 + 2 ^ 32 →
  Response.good (Response.transport r) → u64 (Response.transferred_size r) = Response.transferred_size r →
  ∃ r', write_vma fuel h v offset transfer r k = Done r' ∧
    Response.wrote r (contents memory (virtual_addr v + offset) (size v - offset)) [] r'.
Proof.
  intros Hv Ht. revert offset r. induction fuel as [|fuel IH]; intros offset r Ho Hf Hb Hg Hu; [lia|].
  cbn [write_vma]. destruct (Z.ltb_spec offset (size v)).
  2:{ exists r. split; [done|].
      replace (contents _ _ _) with (@nil byte) by (unfold contents; by rewrite seqZ_nil by lia).
      by apply Response.wrote_nil. }
  destruct Hv as [Hs Ha Hr]. rewrite !(u64_small (size v - offset)) by lia.
  rewrite (u64_small (virtual_addr v + offset)) by lia.
  set (n := if size v - offset <? transfer then size v - offset else transfer).
  assert (n = Z.min transfer (size v - offset)) as En.
  { subst n. destruct (Z.ltb_spec (size v - offset) transfer); lia. }
  rewrite Hr by lia. cbn [Assert mbind outcome_bind].
  destruct (Response.Write_wrote (contents memory (virtual_addr v + offset) n) r Hg Hu) as (r1 & -> & W1).
  cbn [mbind outcome_bind]. rewrite (u64_small (offset + transfer)) by lia.
  destruct (IH (offset + transfer) r1) as (r2 & -> & W2);
    [lia|lia|lia|apply W1|by eapply Response.wrote_range|].
  exists r2. split; [done|]. pose proof (Response.wrote_trans _ _ _ _ _ _ _ W1 W2) as W.
  replace (contents memory (virtual_addr v + offset) (size v - offset)) with
    (contents memory (virtual_addr v + offset) n ++ contents memory (virtual_addr v + (offset + transfer)) (size v - (offset + transfer))).
  - exact W.
  - destruct (Z.le_gt_cases transfer (size v - offset)).
    + replace n with transfer by lia. replace (size v - offset) with (transfer + (size v - (offset + transfer))) by lia.
      rewrite contents_app by lia. do 2 f_equal. lia.
    + replace n with (size v - offset) by lia.
      unfold contents at 2. rewrite seqZ_nil by lia. by rewrite app_nil_r.
Qed.

Lemma write_vmas_spec l transfer r :
  Forall vma_ok l → 0 < transfer < 2 ^ 32 →
  Response.good (Response.transport r) → u64 (Response.transferred_size r) = Response.transferred_size r →
  ∃ r', write_vmas h l transfer r k = Done r' ∧ Response.wrote r (concat (map vma_data l)) [] r'.
Proof.
  intros Hl Ht. revert r. induction Hl as [|v l Hv _ IH]; intros r Hg Hu; cbn [write_vmas map concat].
  - exists r. split; [done|]. by apply Response.wrote_nil.
  - destruct (write_vma_spec v transfer (S (Z.to_nat (size v))) 0 r) as (r1 & -> & W1); try done; try lia.
    cbn [mbind outcome_bind]. destruct (IH r1) as (r2 & -> & W2); [apply W1|by eapply Response.wrote_range|].
    exists r2. split; [done|]. unfold vma_data. rewrite Z.add_0_r, Z.sub_0_r in W1.
    exact (Response.wrote_trans _ _ _ _ _ _ _ W1 W2).
Qed.

(** The file that is written. *)
Definition core_file (vs : list VMA) (ns : list Note) : bytes :=
  let notes_offset := sizeof_Ehdr + sum_sizes vs in
  let nb := notes_bytes ns in
  Elf64_Ehdr (notes_offset + zlen nb) (1 + zlen vs) ++ concat (map vma_data vs) ++ nb ++
  note_phdr notes_offset (zlen nb) ++ concat (map vma_phdr (located sizeof_Ehdr vs)).

Lemma zlen_Ehdr a b : zlen (Elf64_Ehdr a b) = 64.
Proof. unfold Elf64_Ehdr. rewrite !zlen_app, zlen_encode_fields. done. Qed.
Lemma zlen_Phdr a b c d e f g : zlen (Elf64_Phdr a b c d e f g) = 56.
Proof. unfold Elf64_Phdr. by rewrite zlen_encode_fields. Qed.
Lemma zlen_phdrs l : zlen (concat (map vma_phdr l)) = 56 * zlen l.
Proof.
  induction l as [|v l IH]; [done|]. cbn [map concat]. rewrite zlen_app, IH, zlen_cons. unfold vma_phdr.
  rewrite zlen_Phdr. lia.
Qed.
Lemma zlen_vma_data l : Forall vma_ok l → zlen (concat (map vma_data l)) = sum_sizes l.
Proof.
  induction 1 as [|v l Hv _ IH]; [done|]. cbn [map concat sum_sizes]. rewrite zlen_app, IH.
  unfold vma_data. rewrite zlen_memory; [done|]. destruct Hv. lia.
Qed.
Lemma zlen_core_file vs ns :
  Forall vma_ok vs → zlen (core_file vs ns) = 64 + sum_sizes vs + zlen (notes_bytes ns) + 56 * (1 + zlen vs).
Proof.
  intros Hv. unfold core_file. cbv zeta. rewrite !zlen_app, zlen_Ehdr, zlen_vma_data, zlen_phdrs by done.
  unfold note_phdr. rewrite zlen_Phdr. unfold zlen at 2. rewrite length_located. unfold zlen. lia.
Qed.

Lemma located_ok a l : Forall vma_ok l → Forall vma_ok (located a l).
Proof.
  intros Hl. revert a. induction Hl as [|v l [Hs Ha Hr] _ IH]; intros a; constructor; [by constructor|apply IH].
Qed.
Lemma located_data a l : map vma_data (located a l) = map vma_data l.
Proof. revert a. induction l as [|v l IH]; intros a; cbn; [done|]. by rewrite IH. Qed.

Definition byte_vector (l : bytes) : Response.value := Response.VVector 1 (map (fun b => [b]) l).
Lemma concat_singletons (l : bytes) : concat (map (fun b => [b]) l) = l.
Proof. induction l as [|b l IH]; cbn; [done|]. by rewrite IH. Qed.

Lemma byte_vector_message c tg jo jp l :
  encode_message (Response.response_message c tg 0 jo jp [byte_vector l]) =
    encode_header (mkHeader c jo 0 tg (8 + zlen l) 0 jp) ++ le_split 8 (zlen l) ++ l.
Proof.
  unfold Response.response_message, byte_vector. cbn [Response.packed_list Response.packed].
  assert (zlen (map (fun b => [b]) l) = zlen l) as -> by (unfold zlen; by rewrite length_map).
  rewrite concat_singletons.
  unfold encode_message. cbn [m_header m_payload m_objects]. rewrite !app_nil_r.
  assert (zlen (le_split 8 (zlen l) ++ l) = 8 + zlen l) as ->
    by (rewrite zlen_app; unfold zlen at 1; by rewrite length_le_split).
  done.
Qed.

Lemma layout_spec rep :
  Forall vma_ok (vmas rep) → zlen (core_file (vmas rep) (notes rep)) + 8 < 2 ^ 64 →
  assign_offsets sizeof_Ehdr (vmas rep) = (located sizeof_Ehdr (vmas rep), sizeof_Ehdr + sum_sizes (vmas rep)) ∧
  notes_size (sizeof_Ehdr + sum_sizes (vmas rep)) (notes rep) =
    sizeof_Ehdr + sum_sizes (vmas rep) + zlen (notes_bytes (notes rep)) ∧
  u64 (sizeof_Ehdr + sum_sizes (vmas rep) + zlen (notes_bytes (notes rep)) +
    u64 (sizeof_Phdr * u64 (1 + zlen (vmas rep)))) = zlen (core_file (vmas rep) (notes rep)).
Proof.
  intros Hv Hlen. rewrite zlen_core_file in * by done.
  assert (Forall (fun v => 0 < size v) (vmas rep)) as Hs by (eapply Forall_impl; [exact Hv|]; intros v []; lia).
  pose proof (sum_sizes_nonneg _ Hs). zlen_facts. unfold sizeof_Ehdr, sizeof_Phdr. split_and!.
  - apply assign_offsets_spec; [done..|lia].
  - apply notes_size_spec; lia.
  - rewrite (u64_small (1 + _)), (u64_small (56 * _)), u64_small by lia. lia.
Qed.

Lemma write_core_spec jo jp rep c tg (t : T) :
  Response.good t → Forall vma_ok (vmas rep) → 0 < Response.GetMaxTransferSize t < 2 ^ 32 →
  zlen (core_file (vmas rep) (notes rep)) + 8 < 2 ^ 64 →
  ∃ r', write_core jo jp h rep (Response.new_ResponseState c tg t) k = Done r' ∧
    Response.good (Response.transport r') ∧
    Response.wire (Response.transport r') = Response.wire t ++
      encode_message (Response.response_message c tg 0 jo jp [byte_vector (core_file (vmas rep) (notes rep))]).
Proof.
  intros Hg Hv Ht Hlen. destruct (layout_spec rep Hv Hlen) as (Ea & En & Etotal). rewrite byte_vector_message.
  unfold write_core. rewrite Ea, En. cbv zeta.
  assert (zlen (located sizeof_Ehdr (vmas rep)) = zlen (vmas rep)) as -> by (unfold zlen; by rewrite length_located).
  rewrite Etotal. set (file := core_file _ _) in *. zlen_facts. rewrite u64_small by lia.
  destruct (Response.BeginOk_spec jo jp (8 + zlen file) c tg t Hg) as (r1 & -> & Hg1 & Hts & Htot & Hob & Hex & Hmax & Hw1); [lia|].
  cbn [mbind outcome_bind].
  destruct (Response.Write_wrote (le_split 8 (zlen file)) r1 Hg1) as (r2 & -> & W2); [by rewrite Hts|]. cbn [mbind outcome_bind].
  set (eh := Elf64_Ehdr _ _).
  destruct (Response.Write_wrote eh r2) as (r3 & -> & W3); [apply W2|by eapply Response.wrote_range|]. cbn [mbind outcome_bind].
  pose proof (Response.wrote_trans _ _ _ _ _ _ _ W2 W3) as W23.
  destruct (write_vmas_spec (located sizeof_Ehdr (vmas rep)) (Response.GetMaxTransferSize (Response.transport r3)) r3)
    as (r4 & -> & W4); [by apply located_ok| |apply W3|by eapply Response.wrote_range|].
  { destruct W23 as (_ & _ & -> & _). by rewrite Hmax. }
  cbn [mbind outcome_bind].
  destruct (Response.Write_wrote (notes_bytes (notes rep)) r4) as (r5 & -> & W5); [apply W4|by eapply Response.wrote_range|].
  cbn [mbind outcome_bind]. set (ph := note_phdr _ _ ++ _).
  destruct (Response.Write_wrote ph r5) as (r6 & -> & W6); [apply W5|by eapply Response.wrote_range|].
  cbn [mbind outcome_bind]. rewrite located_data in W4.
  pose proof (Response.wrote_trans _ _ _ _ _ _ _ W23 (Response.wrote_trans _ _ _ _ _ _ _ W4
    (Response.wrote_trans _ _ _ _ _ _ _ W5 W6))) as W.
  rewrite <- (app_assoc (le_split 8 (zlen file))) in W. change (eh ++ _) with file in W.
  assert (zlen (le_split 8 (zlen file) ++ file) = 8 + zlen file) as L8
    by (rewrite zlen_app; unfold zlen at 1; by rewrite length_le_split).
  destruct (Response.Finalize_spec _ _ _ W) as (r' & E & Hg' & Hw'); [done|congruence|done|done|lia|lia|].
  exists r'. split_and!; [done|done|]. rewrite Hw', Hw1. by rewrite <- app_assoc.
Qed.
End write.

(** ** Lemmas: reading the file back *)

Lemma load_phdr_fields file type flags offset vaddr filesz memsz align rest :
  0 ≤ type < 2 ^ 32 → 0 ≤ flags < 2 ^ 32 → 0 ≤ offset < 2 ^ 64 → 0 ≤ vaddr < 2 ^ 64 → 0 ≤ filesz < 2 ^ 64 →
  offset + filesz ≤ zlen file →
  load_phdr file (Elf64_Phdr type flags offset vaddr filesz memsz align ++ rest) =
    if type =? PT_LOAD then Some ([mk_segment vaddr flags (slice offset filesz file)], [])
    else if type =? PT_NOTE then
      ns ← parse_notes (S (Z.to_nat filesz)) (slice offset filesz file); Some ([], ns)
    else Some ([], []).
Proof.
  intros. unfold load_phdr, Elf64_Phdr.
  pose proof (read_encode_fields [(4%nat, type); (4%nat, flags); (8%nat, offset); (8%nat, vaddr); (8%nat, 0); (8%nat, filesz);
    (8%nat, memsz); (8%nat, align)] rest) as E. cbn [map fst snd] in E. rewrite E. clear E.
  change (8 * Z.of_nat 4) with 32. change (8 * Z.of_nat 8) with 64.
  rewrite !(Z.mod_small type), !(Z.mod_small flags), (Z.mod_small offset), (Z.mod_small vaddr), (Z.mod_small filesz) by done.
  by rewrite (proj2 (Z.ltb_ge _ _)) by lia.
Qed.

Section parse.
Context {K : Type} `{!debug_svc K} (h : Z) (k : K) (memory : Z → byte).
#[local] Abbreviation vma_ok := (vma_ok h k memory).
#[local] Abbreviation vma_data := (vma_data memory).
#[local] Abbreviation core_file := (core_file memory).

Definition segment_of (v : VMA) : segment := mk_segment (virtual_addr v) (flags v) (vma_data v).

Lemma load_vmas file l a pre post :
  file = pre ++ concat (map vma_data l) ++ post → zlen pre = a → Forall vma_ok l →
  Forall (fun v => 0 ≤ flags v < 8) l → zlen file < 2 ^ 64 →
  load_phdrs (length l) file (concat (map vma_phdr (located a l))) = Some (map segment_of l, []).
Proof.
  intros Ef Ep Hv Hfl Hlen. revert a pre Ef Ep.
  induction Hv as [|v l Hv Hl IH]; intros a pre Ef Ep; cbn [length load_phdrs located map concat]; [done|].
  apply Forall_cons in Hfl as [Hf Hfl]. pose proof Hv as [Hs Ha _].
  assert (zlen (vma_data v) = size v) as Ld by (unfold CrashReport.vma_data; apply zlen_memory; lia).
  cbn [map concat] in Ef. rewrite <- app_assoc in Ef.
  assert (zlen file = a + size v + zlen (concat (map vma_data l) ++ post)) as Lf.
  { rewrite Ef, !zlen_app, Ep, Ld. lia. }
  zlen_facts. set (ph := vma_phdr _).
  assert (zlen ph = 56) as Lp by (subst ph; unfold vma_phdr; apply zlen_Phdr).
  rewrite ztake_app, zdrop_app by done.
  assert (load_phdr file ph = Some ([segment_of v], [])) as ->.
  { subst ph. unfold vma_phdr. cbn [flags file_offset virtual_addr size].
    rewrite <- (app_nil_r (Elf64_Phdr _ _ _ _ _ _ _)). rewrite load_phdr_fields by (unfold PT_LOAD; lia).
    cbn. unfold segment_of. do 4 f_equal. rewrite Ef, slice_app, Ep by lia. rewrite Z.sub_diag. by apply slice_front. }
  cbn [mbind option_bind]. rewrite (IH Hfl (a + size v) (pre ++ vma_data v)).
  - done.
  - by rewrite Ef, <- app_assoc.
  - by rewrite zlen_app, Ep, Ld.
Qed.

Lemma parse_core_file vs cs :
  Forall vma_ok vs → Forall (fun v => 0 ≤ flags v < 8) vs → Forall note_ok cs → 1 + zlen vs < 2 ^ 16 →
  zlen (core_file vs (map mk_note cs)) < 2 ^ 64 →
  parse_core (core_file vs (map mk_note cs)) = Some (map segment_of vs, cs).
Proof.
  intros Hv Hfl Hc Hn Hlen. pose proof (zlen_core_file h k memory vs (map mk_note cs) Hv) as El.
  pose proof (zlen_notes_bytes cs Hc) as Lns.
  set (nb := notes_bytes (map mk_note cs)) in *. set (file := core_file _ _) in *.
  set (off := sizeof_Ehdr + sum_sizes vs). set (data := concat (map vma_data vs)).
  assert (zlen data = sum_sizes vs) as Ld by (by eapply zlen_vma_data).
  set (table := note_phdr off (zlen nb) ++ concat (map vma_phdr (located sizeof_Ehdr vs))).
  set (eh := Elf64_Ehdr (off + zlen nb) (1 + zlen vs)).
  assert (file = eh ++ data ++ nb ++ table) as Ef by done.
  assert (zlen eh = 64) as Leh by apply zlen_Ehdr. unfold sizeof_Ehdr in off. zlen_facts.
  set (id := [Byte.x7f; Byte.x45; Byte.x4c; Byte.x46; Byte.x02; Byte.x01; Byte.x01; Byte.x03] ++ zreplicate 8 Byte.x00).
  set (rest := data ++ nb ++ table) in *.
  assert (∀ o n, 16 ≤ o → field o n file = field (o - 16) n (encode_fields [(2%nat, ET_CORE); (2%nat, EM_AARCH64); (4%nat, 1); (8%nat, 0);
    (8%nat, off + zlen nb); (8%nat, 0); (4%nat, 0); (2%nat, sizeof_Ehdr); (2%nat, sizeof_Phdr); (2%nat, 1 + zlen vs);
    (2%nat, sizeof_Shdr); (2%nat, 0); (2%nat, 0)] ++ rest)) as Hfield.
  { intros o n Ho. rewrite Ef. unfold eh, Elf64_Ehdr. rewrite app_assoc. fold id. unfold field.
    by rewrite <- app_assoc, slice_app by done. }
  assert (field 16 2 file = ET_CORE) as F1 by (rewrite Hfield, field_here by done; done).
  assert (field 54 2 file = sizeof_Phdr) as F2
    by (rewrite Hfield by done; do 8 rewrite field_later by done; by rewrite field_here).
  assert (field 32 8 file = off + zlen nb) as F3.
  { rewrite Hfield by done. do 4 rewrite field_later by done. rewrite field_here by done. apply Z.mod_small.
    change (8 * Z.of_nat 8) with 64. lia. }
  assert (field 56 2 file = 1 + zlen vs) as F4.
  { rewrite Hfield by done. do 9 rewrite field_later by done. rewrite field_here by done. apply Z.mod_small.
    change (8 * Z.of_nat 2) with 16. lia. }
  unfold parse_core. rewrite F1, F2, F3, F4. rewrite bool_decide_true by (by rewrite Ef). cbn [negb orb].
  change (ET_CORE =? ET_CORE) with true. change (sizeof_Phdr =? sizeof_Phdr) with true. cbn [negb orb]. cbv zeta.
  rewrite (proj2 (Z.ltb_ge _ _)) by (unfold sizeof_Phdr; lia).
  assert (zdrop (off + zlen nb) file = table) as ->.
  { rewrite Ef. unfold rest. rewrite !app_assoc. apply zdrop_app. rewrite !zlen_app. lia. }
  replace (Z.to_nat (1 + zlen vs)) with (S (length vs)) by (unfold zlen; lia). cbn [load_phdrs].
  unfold table. rewrite ztake_app, zdrop_app by (unfold note_phdr; by rewrite zlen_Phdr).
  unfold note_phdr. rewrite <- (app_nil_r (Elf64_Phdr _ _ _ _ _ _ _)).
  rewrite load_phdr_fields by (unfold PT_NOTE, PF_R; lia).
  assert (slice off (zlen nb) file = nb) as ->.
  { rewrite Ef. unfold rest. rewrite app_assoc, slice_app by (rewrite zlen_app; lia).
    replace (off - zlen (eh ++ data)) with 0 by (rewrite zlen_app; lia). by apply slice_front. }
  change (PT_NOTE =? PT_LOAD) with false. change (PT_NOTE =? PT_NOTE) with true. cbv iota.
  unfold nb at 2. rewrite parse_notes_spec by (done || (unfold zlen in *; lia)). cbn [mbind option_bind].
  rewrite (load_vmas file vs sizeof_Ehdr eh (nb ++ table)) by done. cbn. by rewrite app_nil_r.
Qed.
End parse.

(** ** Lemmas: the notes are small, the regions can be read *)

Lemma zlen_slice_le off n l : 0 ≤ n → zlen (slice off n l) ≤ n.
Proof. intros. unfold slice. rewrite zlen_ztake. zlen_facts. lia. Qed.

Lemma module_notes_ok infos entry : Forall note_ok (module_notes infos entry).
Proof.
  unfold module_notes. apply Forall_app. split.
  - apply Forall_map, Forall_true. intros i. split_and!; cbn [note_name note_desc note_type]; [done| |done|done].
    unfold twili_nso_info. rewrite zlen_app, zlen_encode_fields, zlen_ztake. cbn [foldr fst]. zlen_facts. lia.
  - destruct entry as [e|]; [|done]. apply Forall_singleton. split_and!; [done| |done|done].
    cbn [note_desc]. unfold auxv. by rewrite zlen_encode_fields.
Qed.

Lemma event_notes_ok junk e : Forall note_ok (event_notes junk e).
Proof.
  pose proof (zlen_slice_le 32 12 e ltac:(lia)) as Hn. unfold event_notes.
  destruct (_ =? ATTACH_PROCESS); [|destruct (_ =? ATTACH_THREAD)];
    repeat (apply Forall_cons; split); try apply Forall_nil_2;
    (split_and!; [done| |done|done]); cbn [note_desc].
  - unfold elf_prpsinfo, attach_process_name. rewrite !zlen_app, zlen_encode_fields, zlen_padding by lia.
    change (zlen (zreplicate 4 Byte.x00)) with 4. change (zlen (zreplicate 80 Byte.x00)) with 80.
    change (zlen [Byte.x00; Byte.x2e; Byte.x00; Byte.x00]) with 4. cbn [foldr fst]. lia.
  - unfold twili_process, attach_process_name. rewrite !zlen_app, !zlen_encode_fields. cbn [foldr fst]. lia.
  - unfold twili_thread. by rewrite zlen_encode_fields.
Qed.

Lemma status_note_ok junk context t : 272 ≤ zlen (context (th_thread_id t)) → note_ok (status_note junk context t).
Proof.
  intros Hc. destruct (status_bytes_spec junk context t Hc) as (Hl & _).
  split_and!; [done|cbn [status_note note_desc]; lia|done|done].
Qed.

Lemma zlen_event_notes junk es : zlen (es ≫= event_notes junk) ≤ 2 * zlen es.
Proof.
  induction es as [|e es IH]; [done|]. rewrite bind_cons, zlen_app, zlen_cons.
  assert (zlen (event_notes junk e) ≤ 2); [|lia]. unfold event_notes.
  by repeat case_match.
Qed.

Lemma elf_flags_range p : 0 ≤ elf_flags p < 8.
Proof.
  unfold elf_flags. destruct (Z.land p 1 =? 0), (Z.land p 2 =? 0), (Z.land p 4 =? 0); cbv; split; congruence.
Qed.

Lemma sum_sizes_elem v l : Forall (fun v => 0 < size v) l → v ∈ l → size v ≤ sum_sizes l.
Proof.
  induction 1 as [|v' l Hv Hl IH]; [by intros ?%elem_of_nil|]. cbn [sum_sizes].
  pose proof (sum_sizes_nonneg l Hl). intros [->|?%IH]%elem_of_cons; lia.
Qed.

Lemma elem_of_dumped mi m : mi ∈ dumped_regions m ↔ mi ∈ m ∧ dumped mi = true.
Proof. unfold dumped_regions. rewrite list_elem_of_filter, Is_true_true. tauto. Qed.

Lemma om_find_key {A} k (m : omap A) : k ∈ map fst m ↔ is_Some (om_find k m).
Proof.
  induction m as [|[k' a] m IH]; cbn [map fst om_find]; [rewrite elem_of_nil; by split; [|intros []]|].
  rewrite elem_of_cons, IH. destruct (Z.eqb_spec k' k) as [->|]; [split; [by eexists|by left]|].
  split; [by intros [?|]|by right].
Qed.
Lemma attached_length l : (length (attached l) ≤ length l)%nat.
Proof. unfold attached. rewrite length_map. apply length_filter. Qed.
Lemma om_sorted_nodup {A} (m : omap A) : om_sorted m → NoDup (map fst m).
Proof.
  unfold om_sorted. induction 1 as [|k l _ IH Hall]; constructor; [|done].
  intros Hin. rewrite Forall_forall in Hall. apply Hall in Hin. lia.
Qed.
Lemma om_in_find {A} k (a : A) m : om_sorted m → In (k, a) m → om_find k m = Some a.
Proof.
  unfold om_sorted. induction m as [|[k' a'] m IH]; [done|]. cbn [map fst om_find In].
  intros [Hs Hall]%StronglySorted_inv [[= -> ->]|Hin]; [by rewrite Z.eqb_refl|].
  destruct (Z.eqb_spec k' k) as [->|]; [|by apply IH]. rewrite Forall_forall in Hall.
  assert (k < k); [|lia]. apply Hall. apply (list_elem_of_fmap_2 fst m (k, a)). by apply list_elem_of_In.
Qed.

(** The threads at the end: sorted, each attached one once. *)
Lemma attached_threads s1 s2 s3 s4 ids es (ts : omap Thread) :
  threads_ok s1 s2 s3 s4 ids es ts → (∀ tid, tid ∈ ids ↔ tid ∈ [] ∨ tid ∈ attached es) → zlen ts ≤ zlen es.
Proof.
  intros [Hs Hi _ _] Hids. pose proof (attached_length es). unfold zlen.
  assert (length (map fst ts) ≤ length (attached es))%nat; [|rewrite length_map in *; lia].
  apply submseteq_length, NoDup_submseteq; [by apply om_sorted_nodup|].
  intros tid Hin%om_find_key%Hi%Hids. destruct Hin as [?%elem_of_nil|]; done.
Qed.

Section dump.
Context {K : Type} `{!debug_svc K} (h : Z) (k : K) (memory : Z → byte).

Lemma dumped_vmas_ok m :
  mapped h k m → (∀ mi, mi ∈ m → dumped mi = true → reads h k memory mi) →
  sum_sizes (map vma_of (dumped_regions m)) < 2 ^ 62 →
  Forall (vma_ok h k memory) (map vma_of (dumped_regions m)).
Proof.
  intros Hm Hr Hs. assert (∀ mi, mi ∈ dumped_regions m → 0 ≤ mi_base mi ∧ mi_base mi + mi_size mi ≤ 2 ^ 64 ∧ 0 < mi_size mi) as Hb.
  { intros mi [Hin _]%elem_of_dumped. destruct (tile_base _ _ _ _ (mapped_tile _ _ _ Hm) Hin). lia. }
  assert (Forall (fun v => 0 < size v) (map vma_of (dumped_regions m))) as Hp.
  { apply Forall_map, Forall_forall. intros mi Hin. cbn. apply Hb in Hin. lia. }
  apply Forall_map, Forall_forall. intros mi Hin. pose proof (Hb mi Hin).
  pose proof (sum_sizes_elem (vma_of mi) _ Hp ltac:(by apply list_elem_of_fmap_2)). cbn in *.
  apply elem_of_dumped in Hin as [Hin Hd]. split; cbn; [lia|lia|]. intros. by apply Hr.
Qed.

Lemma dumped_segments m : map (segment_of memory) (map vma_of (dumped_regions m)) = segments_of memory m.
Proof. unfold segments_of, dumped_regions. by rewrite map_map. Qed.
End dump.

Lemma in_keys {A} k (a : A) (m : omap A) : In (k, a) m → k ∈ map fst m.
Proof. intros Hin. apply (list_elem_of_fmap_2 fst m (k, a)). by apply list_elem_of_In. Qed.

Lemma notes_small junk context infos entry es (ts : omap Thread) :
  (∀ tid t, In (tid, t) ts → 272 ≤ zlen (context (th_thread_id t))) →
  zlen es < 2 ^ 20 → zlen infos < 2 ^ 20 → zlen ts ≤ zlen es →
  let cs := module_notes infos entry ++ (es ≫= event_notes junk) ++ map (fun p => status_note junk context p.2) ts in
  Forall note_ok cs ∧ zlen cs ≤ 2 ^ 24.
Proof.
  intros Hc Hes Hin Hts cs. subst cs. split.
  - apply Forall_app. split; [apply module_notes_ok|]. apply Forall_app. split.
    + apply Forall_bind, Forall_true, event_notes_ok.
    + apply Forall_map, Forall_forall. intros [tid th] Hin'%list_elem_of_In. cbn [snd].
      by eapply status_note_ok, Hc.
  - rewrite !zlen_app. pose proof (zlen_event_notes junk es). unfold module_notes. rewrite zlen_app.
    unfold zlen in *. rewrite !length_map. destruct entry; cbn [length]; lia.
Qed.

(** ** Generate *)

(** What the kernel does when the process [pid] is debugged: it gives a handle [h], the events
    [es], then the map [m], the [memory] of the regions that are dumped, and the registers of the
    threads. *)
Record debuggable {K} `{!debug_svc K} (pid : Z) (k : K) (h : Z) (es : list debug_event) (k' : K)
    (m : list memory_info) (memory : Z → byte) (context : Z → bytes) : Prop := {
  dbg_attach : ∃ k1, svcDebugActiveProcess pid k = (inr h, k1) ∧ raises h k1 es k';
  dbg_events : events_ok [] es;
  dbg_map : mapped h k' m;
  dbg_reads mi : mi ∈ m → dumped mi = true → reads h k' memory mi;
  dbg_context tid : tid ∈ attached es → has_context h k' context tid ∧ 272 ≤ zlen (context tid) }.

(** The report that has been collected. *)
Section generate.
Context {K : Type} `{!debug_svc K} (junk : Z → byte) (SIGILL SIGTRAP SIGSEGV SIGBUS : Z).

Lemma collect_spec fuel pid infos entry k h es k' m memory context :
  debuggable pid k h es k' m memory context → (length es < fuel)%nat → (length m ≤ fuel)%nat →
  ∃ k1 ts, svcDebugActiveProcess pid k = (inr h, k1) ∧
    ('(rep, k) ← event_loop junk SIGILL SIGTRAP SIGSEGV SIGBUS fuel h (AddNotes infos entry new_report) k1;
     rep ← vma_loop fuel h 0 rep k;
     rep ← prstatus_loop junk (threads rep) h rep k; Done (rep, k)) =
    Done (mk_report (map vma_of (dumped_regions m))
      (map mk_note (module_notes infos entry ++ (es ≫= event_notes junk) ++
                    map (fun p => status_note junk context p.2) ts)) ts, k') ∧
    om_sorted ts ∧ zlen ts ≤ zlen es ∧ (∀ tid, tid ∈ map fst ts ↔ tid ∈ attached es) ∧
    (∀ tid t, In (tid, t) ts → th_thread_id t = tid ∧ signo t = last_signal SIGILL SIGTRAP SIGSEGV SIGBUS tid es).
Proof.
  intros [(k1 & Ek & Hr) He Hm Hmem Hc] Hf1 Hf2. rewrite AddNotes_spec.
  set (rep0 := add_notes _ new_report).
  destruct (event_loop_spec junk SIGILL SIGTRAP SIGSEGV SIGBUS h fuel k1 es k' rep0 [] [] Hr Hf1 He) as (ts & ids & El & Hok & Hids).
  { split; try done; [constructor|intros tid; cbn; rewrite elem_of_nil; by split; [|intros []]]. }
  cbn [app] in Hok. exists k1, ts. split; [done|]. rewrite El. cbn [mbind outcome_bind].
  assert (∀ tid t, In (tid, t) ts → om_find tid ts = Some t) as Hfind
    by (intros; apply om_in_find; [apply Hok|done]).
  assert (∀ tid t, In (tid, t) ts → th_thread_id t = tid) as Hid
    by (intros tid t Hin%Hfind; by apply (threads_id _ _ _ _ _ _ _ Hok)).
  assert (∀ tid, tid ∈ map fst ts ↔ tid ∈ attached es) as Hkeys.
  { intros tid. rewrite om_find_key, <- (threads_ids _ _ _ _ _ _ _ Hok), Hids, elem_of_nil. tauto. }
  rewrite (vma_loop_spec h k' m [] m 0) by (done || apply Hm || (intros ->; by destruct Hm)).
  cbn [mbind outcome_bind vmas notes threads].
  rewrite (prstatus_loop_spec h k' junk context).
  2:{ intros tid t Hin. rewrite (Hid tid t Hin). apply Hc, Hkeys.
      apply (list_elem_of_fmap_2 fst ts (tid, t)). by apply list_elem_of_In. }
  cbn [mbind outcome_bind]. split_and!; [|apply Hok|by eapply attached_threads|done|].
  - unfold add_notes, rep0. cbn [vmas notes threads add_notes new_report]. cbn [app]. do 3 f_equal.
    by rewrite !map_app, <- app_assoc.
  - intros tid t Hin. split; [by apply Hid|]. apply Hfind in Hin.
    by rewrite (threads_signal _ _ _ _ _ _ _ Hok tid), Hin.
Qed.

Lemma signal_of_none n : 9 ≤ n → signal_of SIGILL SIGTRAP SIGSEGV SIGBUS n = None.
Proof.
  intros Hn. destruct n as [|p|p]; [lia| |lia]. unfold signal_of.
  do 4 (destruct p as [p|p|]; try done; try lia).
Qed.

(** The loop up to an event the code has no signal for. *)
Lemma event_loop_undefined h fuel k es e es2 k' rep ids seen :
  raises h k (es ++ e :: es2) k' → (length es < fuel)%nat → events_ok ids es →
  threads_ok SIGILL SIGTRAP SIGSEGV SIGBUS ids seen (threads rep) →
  event_type e = EXCEPTION → 9 ≤ exception_type e →
  event_loop junk SIGILL SIGTRAP SIGSEGV SIGBUS fuel h rep k = Undefined.
Proof.
  intros Hr. remember (es ++ e :: es2) as l eqn:El. revert fuel rep ids seen es El.
  induction Hr as [k k' E|k k1 k2 e1 l E Hr IH]; intros fuel rep ids seen es El Hf He Hok Ht Hx;
    [by destruct es|]. destruct fuel as [|fuel]; [lia|]. cbn [event_loop]. rewrite E.
  destruct es as [|e2 es]; injection El as -> ->.
  - unfold handle_event. rewrite Ht. cbn.
    by rewrite signal_of_none.
  - destruct (handle_event_spec junk SIGILL SIGTRAP SIGSEGV SIGBUS e2 es rep ids seen He Hok) as (ts & ids' & -> & Hok' & He' & _).
    cbn [mbind outcome_bind]. cbn in Hf.
    apply (IH fuel _ ids' (seen ++ [e2]) es); [done|lia|done..].
Qed.
End generate.

(** ** Theorems *)

(** C6: a core file can be read back.  When the kernel lets the device debug a process, the
    response is one message with a file, in any transport; a reader of ELF core files finds in
    it the memory of exactly the regions that are readable and are not I/O, at their addresses
    and with their permissions, and the notes: the modules and the entry point, the process and
    threads of the attach events, and for every attached thread once, in the order of the ids,
    its registers and the signal of its last exception. *)
Theorem core_dump_readable {K T} `{!debug_svc K} `{!Response.ResponseStateImpl T} `{!Response.ResponseStateLaws T}
    (junk : Z → byte) (jo jp SIGILL SIGTRAP SIGSEGV SIGBUS : Z) fuel pid infos entry c tg (t : T) (k : K)
    h es k' m memory context :
  debuggable pid k h es k' m memory context → Response.good t → 0 < Response.GetMaxTransferSize t < 2 ^ 32 →
  (length es < fuel)%nat → (length m ≤ fuel)%nat → zlen es < 2 ^ 20 → zlen infos < 2 ^ 20 →
  sum_sizes (map vma_of (dumped_regions m)) < 2 ^ 62 → 1 + zlen (dumped_regions m) < 2 ^ 16 →
  ∃ r' file statuses,
    Generate junk jo jp SIGILL SIGTRAP SIGSEGV SIGBUS fuel pid infos entry (Response.new_ResponseState c tg t) k =
      Done (r', svcCloseHandle h k') ∧
    Response.wire (Response.transport r') =
      Response.wire t ++ encode_message (Response.response_message c tg 0 jo jp [byte_vector file]) ∧
    parse_core file = Some (segments_of memory m,
      module_notes infos entry ++ (es ≫= event_notes junk) ++
      map (fun p => mk_core_note (str "CORE") NT_PRSTATUS p.2) statuses) ∧
    om_sorted statuses ∧ (∀ tid, tid ∈ map fst statuses ↔ tid ∈ attached es) ∧
    (∀ tid d, In (tid, d) statuses →
       status_of context (last_signal SIGILL SIGTRAP SIGSEGV SIGBUS tid es) tid d).
Proof.
  intros Hd Hg Hmax Hf1 Hf2 Hes Hin Hsum Hseg. pose proof Hd as [_ _ Hmap Hreads Hctx].
  destruct (collect_spec junk SIGILL SIGTRAP SIGSEGV SIGBUS fuel pid infos entry k h es k' m memory context Hd Hf1 Hf2)
    as (k1 & ts & Ek & E & Hs & Hlen & Hkeys & Hth).
  set (cs := module_notes infos entry ++ _) in E. set (vs := map vma_of (dumped_regions m)) in *.
  pose proof (dumped_vmas_ok h k' memory m Hmap Hreads Hsum) as Hv. fold vs in Hv.
  assert (∀ tid th, In (tid, th) ts → 272 ≤ zlen (context (th_thread_id th))) as Hc.
  { intros tid th Hi. rewrite (proj1 (Hth tid th Hi)). by eapply Hctx, Hkeys, in_keys. }
  destruct (notes_small junk context infos entry es ts Hc Hes Hin Hlen) as (Hcs & Lcs). fold cs in Hcs, Lcs.
  pose proof (zlen_notes_bytes cs Hcs) as Lnb.
  pose proof (zlen_core_file h k' memory vs (map mk_note cs) Hv) as Lfile.
  assert (zlen vs = zlen (dumped_regions m)) as Lvs by (subst vs; unfold zlen; by rewrite length_map).
  destruct (write_core_spec h k' memory jo jp (mk_report vs (map mk_note cs) ts) c tg t Hg Hv Hmax) as (r' & Er & _ & Hw);
    [cbn [vmas notes]; lia|].
  exists r', (core_file memory vs (map mk_note cs)), (map (fun p => (p.1, status_bytes junk context p.2)) ts).
  split_and!.
  - unfold Generate. rewrite Ek.
    destruct (event_loop _ _ _ _ _ _ _ _ k1) as [[rep1 k2]| | | |]; try discriminate E. cbn [mbind outcome_bind] in E |- *.
    destruct (vma_loop _ _ _ _ _) as [rep2| | | |]; try discriminate E. cbn [mbind outcome_bind] in E |- *.
    destruct (prstatus_loop _ _ _ _ _) as [rep3| | | |]; try discriminate E. cbn [mbind outcome_bind] in E |- *.
    injection E as -> ->. by rewrite Er.
  - exact Hw.
  - rewrite (parse_core_file h k' memory vs cs) by
      (done || lia || (apply Forall_map, Forall_true; intros mi; apply elf_flags_range)).
    unfold vs. rewrite dumped_segments. unfold cs. by rewrite map_map.
  - unfold om_sorted in *. by rewrite map_map.
  - intros tid. by rewrite map_map.
  - intros tid d ([tid' th] & [= <- <-] & Hi)%in_map_iff. destruct (Hth tid' th Hi) as [Eid <-].
    pose proof (status_bytes_spec junk context th (Hc _ _ Hi)) as Hst. by rewrite Eid in Hst.
Qed.

(** A kernel for the examples: the pending events, a page of code and nothing else. *)
Definition ex_map : list memory_info :=
  [mk_memory_info 0 4096 0 0 0 0 0 0; mk_memory_info 4096 64 3 0 5 0 0 0;
   mk_memory_info 4160 (2 ^ 64 - 4160) 0 0 0 0 0 0].
Definition ex_memory (a : Z) : byte := byte.of_Z a.
Definition ex_context (tid : Z) : bytes := zreplicate 272 (byte.of_Z tid).
#[local] Instance ex_kernel : debug_svc (list debug_event) := {
  svcDebugActiveProcess := fun pid k => if pid =? 0 then (inl 7, k) else (inr 9, k);
  svcCloseHandle := fun _ k => k;
  svcGetProcessId := fun h _ => inr 81;
  svcGetDebugEvent := fun _ k => match k with [] => (inl no_event, []) | e :: k => (inr e, k) end;
  svcContinueDebugEvent := fun _ _ _ k => (0, k);
  svcBreakDebugProcess := fun _ k => (0, k);
  svcQueryDebugProcessMemory := fun _ a _ =>
    match find (fun mi => (mi_base mi <=? a) && (a <? mi_base mi + mi_size mi)) ex_map with
    | Some mi => inr (mi, 0) | None => inl 1 end;
  svcReadDebugProcessMemory := fun _ a n _ => inr (contents ex_memory a n);
  svcWriteDebugProcessMemory := fun _ _ _ k => (0, k);
  svcGetDebugThreadContext := fun _ tid _ _ => inr (ex_context tid);
  svcSetDebugThreadContext := fun _ _ _ _ k => (0, k) }.

Definition ex_attach_thread (tid : Z) : debug_event :=
  encode_fields [(4%nat, ATTACH_THREAD); (4%nat, 0); (8%nat, 0); (8%nat, tid); (8%nat, 8192); (8%nat, 4096)].
Definition ex_exception (tid type : Z) : debug_event :=
  encode_fields [(4%nat, EXCEPTION); (4%nat, 0); (8%nat, tid); (4%nat, type)].
Definition ex_events : list debug_event := [ex_attach_thread 5; ex_attach_thread 3; ex_exception 5 1].

Lemma ex_raises h k : raises h k k [].
Proof. induction k as [|e k IH]; [by constructor|]. by eapply raises_event. Qed.
Lemma ex_mapped h k : mapped h k ex_map.
Proof.
  split; [cbn; lia|]. intros mi a Hin Ha. exists 0. cbn [svcQueryDebugProcessMemory ex_kernel].
  unfold ex_map in Hin. rewrite !elem_of_cons, elem_of_nil in Hin.
  cbn [find ex_map mi_base mi_size].
  destruct Hin as [->|[->|[->|[]]]]; cbn [mi_base mi_size] in Ha;
    destruct (Z.leb_spec 0 a), (Z.ltb_spec a (0 + 4096)), (Z.leb_spec 4096 a), (Z.ltb_spec a (4096 + 64)),
      (Z.leb_spec 4160 a), (Z.ltb_spec a (4160 + (2 ^ 64 - 4160))); done || lia.
Qed.
(** Events with a known type; each exception names an attached thread. *)
Ltac events_ok_tac :=
  cbn [events_ok ex_events];
  repeat match goal with
  | |- True => exact I
  | |- _ ∧ _ => split
  | |- _ < _ => reflexivity
  | |- _ → _ => let H := fresh in intros H; vm_compute in H; first [discriminate H | clear H]
  | |- events_ok _ _ => vm_compute
  | |- _ ∨ _ => right; vm_compute; repeat constructor
  end.

Lemma ex_debuggable : debuggable 81 ex_events 9 ex_events [] ex_map ex_memory ex_context.
Proof.
  split.
  - exists ex_events. split; [done|apply ex_raises].
  - events_ok_tac.
  - apply ex_mapped.
  - intros mi _ _ off n _ _ _. done.
  - intros tid _. split; [done|]. unfold ex_context. rewrite zlen_zreplicate. lia.
Qed.

Lemma core_dump_readable_witness :
  ∃ r' file statuses,
    @Generate _ _ ex_kernel (Response.tcp_impl Response.slow_send) (fun _ => Byte.x00) 7 0 4 5 11 10 9 81 [] (Some 4096)
      (Response.new_ResponseState 3 9 (Response.new_tcp tt)) ex_events = Done (r', []) ∧
    Response.sent (Response.transport r') =
      encode_message (Response.response_message 3 9 0 7 0 [byte_vector file]) ∧
    parse_core file = Some ([mk_segment 4096 5 (contents ex_memory 4096 64)],
      module_notes [] (Some 4096) ++ (ex_events ≫= event_notes (fun _ => Byte.x00)) ++
      map (fun p => mk_core_note (str "CORE") NT_PRSTATUS p.2) statuses) ∧
    om_sorted statuses ∧ (∀ tid, tid ∈ map fst statuses ↔ tid ∈ [5; 3]) ∧
    (∀ tid d, In (tid, d) statuses → status_of ex_context (last_signal 4 5 11 10 tid ex_events) tid d).
Proof.
  apply (@core_dump_readable _ _ ex_kernel (Response.tcp_impl Response.slow_send)
    (Response.tcp_laws Response.slow_send Response.slow_sends) (fun _ => Byte.x00) 7 0 4 5 11 10 9 81 [] (Some 4096) 3 9
    (Response.new_tcp tt) ex_events 9 ex_events [] ex_map ex_memory ex_context ex_debuggable);
    [reflexivity|vm_compute; split; reflexivity|cbn; lia|cbn; lia|reflexivity|reflexivity|reflexivity|reflexivity].
Defined.

(** an exception the code has no name for.  The kernel's type 9, an SError, is outside the
    table of names and has no signal: whatever events come before, reporting a process with
    such a pending exception has undefined behaviour. *)
Theorem core_dump_unknown_exception {K T} `{!debug_svc K} `{!Response.ResponseStateImpl T}
    (junk : Z → byte) (jo jp SIGILL SIGTRAP SIGSEGV SIGBUS : Z) fuel pid infos entry (r : Response.ResponseState T) (k : K)
    h k1 es e es2 k2 :
  svcDebugActiveProcess pid k = (inr h, k1) → raises h k1 (es ++ e :: es2) k2 → (length es < fuel)%nat →
  events_ok [] es → event_type e = EXCEPTION → 9 ≤ exception_type e →
  Generate junk jo jp SIGILL SIGTRAP SIGSEGV SIGBUS fuel pid infos entry r k = Undefined.
Proof.
  intros E Hr Hf He Ht Hx. unfold Generate. rewrite E, AddNotes_spec.
  rewrite (event_loop_undefined junk SIGILL SIGTRAP SIGSEGV SIGBUS h fuel k1 es e es2 k2 _ [] [] Hr Hf He); [done| |done|done].
  split; try done; [constructor|]. intros tid. cbn. rewrite elem_of_nil. by split; [|intros []].
Qed.

Lemma core_dump_unknown_exception_witness :
  @Generate _ _ ex_kernel (Response.tcp_impl Response.slow_send) (fun _ => Byte.x00) 7 0 4 5 11 10 9 81 [] None
    (Response.new_ResponseState 3 9 (Response.new_tcp tt)) [ex_attach_thread 5; ex_exception 5 9] = Undefined.
Proof.
  apply (@core_dump_unknown_exception _ _ ex_kernel (Response.tcp_impl Response.slow_send) (fun _ => Byte.x00) 7 0 4 5 11 10 9 81
    [] None _ _ 9 [ex_attach_thread 5; ex_exception 5 9] [ex_attach_thread 5] (ex_exception 5 9) [] []);
    [reflexivity|apply ex_raises|cbn; lia|vm_compute; split_and!; done|reflexivity|vm_compute; discriminate].
Defined.
End CrashReport.
