(* ===== verification/Debugger.v ===== *)
(** * twili/bridge/interfaces/ITwibDebugger.{hpp,cpp}: the device's debuggers

    A debugger holds a debug handle of the kernel ([Kernel.debug_svc]), the events it has taken
    from it and not given to the client yet, and perhaps a client that waits for an event.  The
    device keeps the titles that are being debugged.  Monitored processes and the loader's
    services are the classes [monitored] and [module_services]; [Process] is an instance of the
    first. *)
From stdpp Require Import gmap list_numbers.
From S2P Require Import Prelude Err Protocol Request Response Process Kernel.
Import Protocol.

Module Debugger.
Import Err Kernel.

(** ** What a debugger uses of the other parts *)

Class monitored (P : Type) : Type := {
  Continue : nat → P → outcome P;
  GetTargetEntry : nat → P → Z;
  FindMonitoredProcess : Z → P → option nat }.

(** [Services]: the result code, and the modules left in the vector. *)
Class module_services (K : Type) : Type := {
  StartProcess : Z → K → Z * K;
  GetNsoInfos : Z → K → Z * list module_info * K;
  GetNroInfos : Z → K → Z * list module_info * K }.

Definition process_monitored fopen memory svc_error TerminateProcess ClearExternalContentSource :
    monitored Process.world := {|
  Continue := Process.Continue fopen memory svc_error TerminateProcess ClearExternalContentSource;
  GetTargetEntry := fun p w => Process.target_entry (Process.the p w);
  FindMonitoredProcess := Process.FindMonitoredProcess |}.

Definition LoaderTitle : Z := 0x0100000000000001.
Definition RoTitle : Z := 0x0100000000000037.

(** ** State *)

Section debugger.
Context {K P : Type} `{!debug_svc K} `{!monitored P} `{!module_services K}.
(** The memory a request can have, and the result code of the library for what is missing. *)
Context (heap unimplemented : Z).

Record twili : Type := mk_twili { kernel : K; debugging_titles : gset Z; processes : P }.
Definition set_kernel (k : K) (w : twili) : twili := mk_twili k (debugging_titles w) (processes w).

(** [wait_handle] is the opener of the client that waits. *)
Record debugger : Type := mk_debugger {
  debug : Z; event_queue : list debug_event; title_id : Z; proc : option nat; wait_handle : option Z }.
Definition set_queue (q : list debug_event) (d : debugger) : debugger :=
  mk_debugger (debug d) q (title_id d) (proc d) (wait_handle d).
Definition set_title (t : Z) (d : debugger) : debugger :=
  mk_debugger (debug d) (event_queue d) t (proc d) (wait_handle d).
Definition set_wait (o : option Z) (d : debugger) : debugger :=
  mk_debugger (debug d) (event_queue d) (title_id d) (proc d) o.

Definition answer : Type := Z + list Response.value.
Definition u32_value (v : Z) : Response.value := Response.VPod (le_split 4 v).
Definition u64_value (v : Z) : Response.value := Response.VPod (le_split 8 v).
Definition byte_vector (l : bytes) : Response.value := Response.VVector 1 (map (fun b => [b]) l).
Definition module_vector (l : list module_info) : Response.value := Response.VVector 48 (map encode_module l).

(** [TWILI_BRIDGE_CHECK] of a code, before [RespondOk]. *)
Definition checked (r : Z * K) (vs : list Response.value) (w : twili) : answer * twili :=
  (if r.1 =? 0 then inr vs else inl r.1, set_kernel r.2 w).

(** ** Events *)

Fixpoint PumpEvents (fuel : nat) (d : debugger) (w : twili) : outcome (debugger * twili) :=
  match fuel with
  | O => OutOfFuel
  | S fuel =>
      match svcGetDebugEvent (debug d) (kernel w) with
      | (inl code, k) => if code =? no_event then Done (d, set_kernel k w) else Aborts code
      | (inr e, k) =>
          let d := set_queue (event_queue d ++ [e]) d in
          if event_type e =? ATTACH_PROCESS then
            if title_id d =? 0 then PumpEvents fuel (set_title (attach_title_id e) d) (set_kernel k w)
            else Aborts TWILI_ERR_INVALID_DEBUGGER_STATE
          else PumpEvents fuel d (set_kernel k w)
      end
  end.

(** The constructor. *)
Definition construct (fuel : nat) (handle : Z) (proc : option nat) (w : twili) : outcome (debugger * twili) :=
  w ← match proc with
      | Some p => ps ← Continue p (processes w); Done (mk_twili (kernel w) (debugging_titles w) ps)
      | None => Done w
      end;
  '(d, w) ← PumpEvents fuel (mk_debugger handle [] 0 proc None) w;
  if title_id d =? 0 then Aborts TWILI_ERR_INVALID_DEBUGGER_STATE
  else if bool_decide (title_id d ∈ debugging_titles w) then Aborts TWILI_ERR_INVALID_DEBUGGER_STATE
  else Done (d, mk_twili (kernel w) ({[title_id d]} ∪ debugging_titles w) (processes w)).

(** The destructor; the handle is a member and is closed after it. *)
Definition destroy (d : debugger) (w : twili) : twili :=
  let titles := if title_id d =? 0 then debugging_titles w else debugging_titles w ∖ {[title_id d]} in
  mk_twili (svcCloseHandle (debug d) (kernel w)) titles (processes w).

(** ITwibDeviceInterface::OpenActiveDebugger, up to the object that is made. *)
Definition OpenActiveDebugger (fuel : nat) (pid : Z) (w : twili) : outcome ((Z + debugger) * twili) :=
  match svcDebugActiveProcess pid (kernel w) with
  | (inl code, k) => Done (inl code, set_kernel k w)
  | (inr handle, k) =>
      '(d, w) ← construct fuel handle (FindMonitoredProcess pid (processes w)) (set_kernel k w);
      Done (inr d, w)
  end.

Definition GetDebugEvent (fuel : nat) (d : debugger) (w : twili) : outcome (answer * debugger * twili) :=
  '(d, w) ← PumpEvents fuel d w;
  match event_queue d with
  | [] => Done (inl no_event, d, w)
  | e :: q => Done (inr [Response.VPod e], set_queue q d, w)
  end.

(** ** Memory *)

Definition QueryMemory (addr : Z) (d : debugger) (w : twili) : answer :=
  match svcQueryDebugProcessMemory (debug d) addr (kernel w) with
  | inl code => inl code
  | inr (mi, page) => inr [Response.VPod (encode_memory_info mi); u32_value page]
  end.

(** The buffer has the size that was asked for, whatever was read into it. *)
Definition buffer_of (size : Z) (data : bytes) : bytes := ztake size (data ++ zreplicate size Byte.x00).
Definition ReadMemory (addr size : Z) (d : debugger) (w : twili) : outcome answer :=
  _ ← Request.allocate heap 1 size;
  match svcReadDebugProcessMemory (debug d) addr size (kernel w) with
  | inl code => Done (inl code)
  | inr data => Done (inr [byte_vector (buffer_of size data)])
  end.

(** What the stream's callbacks share: the address, and the first error. *)
Record write_stream : Type := mk_write { addr_ptr : Z; r : Z }.
Definition WriteMemory (addr : Z) : write_stream := mk_write addr 0.
Definition WriteMemory_receive (d : debugger) (buf : bytes) (st : write_stream) (w : twili) : write_stream * twili :=
  if r st =? 0 then
    let '(code, k) := svcWriteDebugProcessMemory (debug d) (addr_ptr st) buf (kernel w) in
    (mk_write (u64 (addr_ptr st + zlen buf)) code, set_kernel k w)
  else (st, w).
Definition WriteMemory_finish (st : write_stream) : answer := if r st =? 0 then inr [] else inl (r st).
Fixpoint receive_all (d : debugger) (pieces : list bytes) (st : write_stream) (w : twili) : write_stream * twili :=
  match pieces with
  | [] => (st, w)
  | b :: pieces => let '(st, w) := WriteMemory_receive d b st w in receive_all d pieces st w
  end.

(** ** Threads and the process *)

Definition ListThreads : answer := inl unimplemented.
Definition GetThreadContext (tid : Z) (d : debugger) (w : twili) : answer :=
  match svcGetDebugThreadContext (debug d) tid 15 (kernel w) with
  | inl code => inl code
  | inr context => inr [Response.VPod context]
  end.
Definition SetThreadContext (tid flags : Z) (context : bytes) (d : debugger) (w : twili) : answer * twili :=
  checked (svcSetDebugThreadContext (debug d) tid flags context (kernel w)) [] w.
Definition BreakProcess (d : debugger) (w : twili) : answer * twili :=
  checked (svcBreakDebugProcess (debug d) (kernel w)) [] w.
Definition ContinueDebugEvent (flags : Z) (tids : list Z) (d : debugger) (w : twili) : answer * twili :=
  checked (svcContinueDebugEvent (debug d) flags tids (kernel w)) [] w.

(** A system program that answers the question must not be stopped itself. *)
Definition GetNsoInfos_handler (d : debugger) (w : twili) : outcome (answer * twili) :=
  if bool_decide (LoaderTitle ∈ debugging_titles w) then Done (inl TWILI_ERR_SYSMODULE_BEING_DEBUGGED, w)
  else
    pid ← Assert (svcGetProcessId (debug d) (kernel w));
    let '(code, infos, k) := GetNsoInfos pid (kernel w) in Done (checked (code, k) [module_vector infos] w).
Definition GetNroInfos_handler (d : debugger) (w : twili) : outcome (answer * twili) :=
  if bool_decide (LoaderTitle ∈ debugging_titles w) then Done (inl TWILI_ERR_SYSMODULE_BEING_DEBUGGED, w)
  else if bool_decide (RoTitle ∈ debugging_titles w) then Done (inl TWILI_ERR_SYSMODULE_BEING_DEBUGGED, w)
  else
    pid ← Assert (svcGetProcessId (debug d) (kernel w));
    let '(code, infos, k) := GetNroInfos pid (kernel w) in Done (checked (code, k) [module_vector infos] w).
Definition LaunchDebugProcess (d : debugger) (w : twili) : outcome (answer * twili) :=
  pid ← Assert (svcGetProcessId (debug d) (kernel w));
  Done (checked (StartProcess pid (kernel w)) [] w).

(** The answer comes when the kernel signals the handle. *)
Definition WaitEvent (opener : Z) (d : debugger) : list (Z * answer) * debugger :=
  match wait_handle d with
  | Some _ => ([(opener, inl TWILI_ERR_ALREADY_WAITING)], d)
  | None => ([], set_wait (Some opener) d)
  end.
Definition signalled (d : debugger) : list (Z * answer) * debugger :=
  match wait_handle d with
  | Some opener => ([(opener, inr [])], set_wait None d)
  | None => ([], d)
  end.

(** The search through the memory map. *)
Definition is_code (mi : memory_info) : bool := (memory_type mi =? 3) && (permission mi =? 5).
Fixpoint candidates_loop (fuel : nat) (debug addr : Z) (candidates : list Z) (k : K) : outcome (list Z) :=
  match fuel with
  | O => OutOfFuel
  | S fuel =>
      '(mi, _) ← Assert (svcQueryDebugProcessMemory debug addr k);
      let candidates := if is_code mi then candidates ++ [mi_base mi] else candidates in
      let addr := u64 (mi_base mi + mi_size mi) in
      if mi_base mi <? addr then candidates_loop fuel debug addr candidates k else Done candidates
  end.
Definition GetTargetEntry_handler (fuel : nat) (d : debugger) (w : twili) : outcome answer :=
  match proc d with
  | Some p => Done (inr [u64_value (GetTargetEntry p (processes w))])
  | None =>
      candidates ← candidates_loop fuel (debug d) 0 [] (kernel w);
      Done (inr [u64_value match candidates with
                           | [] => 0
                           | [main] => main
                           | _ :: main :: _ => main
                           end])
  end.

(** ** A debugger over time *)

Inductive op : Type :=
| OpQueryMemory (addr : Z) | OpReadMemory (addr size : Z) | OpWriteMemory (addr : Z) (pieces : list bytes)
| OpListThreads | OpGetDebugEvent | OpGetThreadContext (tid : Z) | OpBreakProcess
| OpContinueDebugEvent (flags : Z) (tids : list Z) | OpSetThreadContext (tid flags : Z) (context : bytes)
| OpGetNsoInfos | OpWaitEvent | OpGetTargetEntry | OpLaunchDebugProcess | OpGetNroInfos.

Definition answered (opener : Z) (d : debugger) (o : answer * twili) : list (Z * answer) * debugger * twili :=
  ([(opener, o.1)], d, o.2).

(** A request with its opener: the answers it causes now. *)
Definition handle (fuel : nat) (o : op) (opener : Z) (d : debugger) (w : twili) :
    outcome (list (Z * answer) * debugger * twili) :=
  match o with
  | OpQueryMemory addr => Done (answered opener d (QueryMemory addr d w, w))
  | OpReadMemory addr size => a ← ReadMemory addr size d w; Done (answered opener d (a, w))
  | OpWriteMemory addr pieces =>
      let '(st, w) := receive_all d pieces (WriteMemory addr) w in
      Done (answered opener d (WriteMemory_finish st, w))
  | OpListThreads => Done (answered opener d (ListThreads, w))
  | OpGetDebugEvent => '(a, d, w) ← GetDebugEvent fuel d w; Done (answered opener d (a, w))
  | OpGetThreadContext tid => Done (answered opener d (GetThreadContext tid d w, w))
  | OpBreakProcess => Done (answered opener d (BreakProcess d w))
  | OpContinueDebugEvent flags tids => Done (answered opener d (ContinueDebugEvent flags tids d w))
  | OpSetThreadContext tid flags context => Done (answered opener d (SetThreadContext tid flags context d w))
  | OpGetNsoInfos => o ← GetNsoInfos_handler d w; Done (answered opener d o)
  | OpWaitEvent => let '(l, d) := WaitEvent opener d in Done (l, d, w)
  | OpGetTargetEntry => a ← GetTargetEntry_handler fuel d w; Done (answered opener d (a, w))
  | OpLaunchDebugProcess => o ← LaunchDebugProcess d w; Done (answered opener d o)
  | OpGetNroInfos => o ← GetNroInfos_handler d w; Done (answered opener d o)
  end.

(** What happens to a debugger: requests, signals of its handle, and the kernel going on as
    [evolves] allows. *)
Inductive item : Type :=
| Requested (o : op) (opener : Z) (l : list (Z * answer))
| Signalled (l : list (Z * answer)).
Inductive runs (evolves : Z → K → K → Prop) (fuel : nat) : debugger → twili → list item → debugger → twili → Prop :=
| runs_nil d w : runs evolves fuel d w [] d w
| runs_request o opener l d w d1 w1 tr d2 w2 :
    handle fuel o opener d w = Done (l, d1, w1) → runs evolves fuel d1 w1 tr d2 w2 →
    runs evolves fuel d w (Requested o opener l :: tr) d2 w2
| runs_signal l d w d1 tr d2 w2 :
    signalled d = (l, d1) → runs evolves fuel d1 w tr d2 w2 → runs evolves fuel d w (Signalled l :: tr) d2 w2
| runs_time k d w tr d2 w2 :
    evolves (debug d) (kernel w) k → runs evolves fuel d (set_kernel k w) tr d2 w2 →
    runs evolves fuel d w tr d2 w2.

Definition item_answers (i : item) : list (Z * answer) :=
  match i with Requested _ _ l => l | Signalled l => l end.
Definition item_openers (i : item) : list Z := match i with Requested _ opener _ => [opener] | Signalled _ => [] end.
(** The events a client was given. *)
Definition item_events (i : item) : list debug_event :=
  match i with Requested OpGetDebugEvent _ [(_, inr [Response.VPod e])] => [e] | _ => [] end.
Definition delivered (tr : list item) : list debug_event := tr ≫= item_events.
End debugger.

(** What the kernel promises of events: [history] are all events a handle ever had, [pending] the
    ones not taken yet; other calls may cause new events. *)
Class event_laws (K : Type) `{!debug_svc K, !module_services K} : Type := {
  history : Z → K → list debug_event;
  pending : Z → K → list debug_event;
  grows (h : Z) (k k' : K) : Prop :=
    ∃ es, history h k' = history h k ++ es ∧ pending h k' = pending h k ++ es;
  get_none h k : pending h k = [] →
    ∃ k', svcGetDebugEvent h k = (inl no_event, k') ∧ history h k' = history h k ∧ pending h k' = [];
  get_event h k e es : pending h k = e :: es →
    ∃ k', svcGetDebugEvent h k = (inr e, k') ∧ history h k' = history h k ∧ pending h k' = es;
  write_grows h a data k : grows h k (svcWriteDebugProcessMemory h a data k).2;
  set_context_grows h tid flags c k : grows h k (svcSetDebugThreadContext h tid flags c k).2;
  break_grows h k : grows h k (svcBreakDebugProcess h k).2;
  continue_grows h flags tids k : grows h k (svcContinueDebugEvent h flags tids k).2;
  start_grows h pid k : grows h k (StartProcess pid k).2;
  nso_grows h pid k : grows h k (GetNsoInfos pid k).2;
  nro_grows h pid k : grows h k (GetNroInfos pid k).2 }.

(** ** Lemmas *)

Section events.
Context {K P : Type} `{!debug_svc K} `{!monitored P} `{!module_services K} `{!event_laws K}.
Context (heap unimplemented : Z).
#[local] Abbreviation twili := (@twili K P).
#[local] Abbreviation handle := (@handle K P _ _ _ heap unimplemented).
#[local] Abbreviation runs := (@runs K P _ _ _ heap unimplemented).

Lemma grows_refl h (k : K) : grows h k k.
Proof. exists []. by rewrite !app_nil_r. Qed.
Lemma grows_trans h (k1 k2 k3 : K) : grows h k1 k2 → grows h k2 k3 → grows h k1 k3.
Proof.
  intros (es1 & H1 & P1) (es2 & H2 & P2). exists (es1 ++ es2). rewrite H2, P2, H1, P1. by rewrite <- !app_assoc.
Qed.

(** Pumping moves the pending events into the queue. *)
Lemma PumpEvents_spec fuel (d d' : debugger) (w w' : twili) :
  PumpEvents fuel d w = Done (d', w') →
  event_queue d' = event_queue d ++ pending (debug d) (kernel w) ∧ pending (debug d) (kernel w') = [] ∧
  history (debug d) (kernel w') = history (debug d) (kernel w) ∧ debug d' = debug d ∧
  wait_handle d' = wait_handle d ∧ proc d' = proc d ∧ processes w' = processes w ∧
  debugging_titles w' = debugging_titles w.
Proof.
  revert d w. induction fuel as [|fuel IH]; intros d w; [done|]. cbn [PumpEvents].
  destruct (pending (debug d) (kernel w)) as [|e es] eqn:Ep.
  - destruct (get_none _ _ Ep) as (k' & -> & Hh & Hp). rewrite Z.eqb_refl. intros [= <- <-].
    rewrite app_nil_r. done.
  - destruct (get_event _ _ _ _ Ep) as (k' & -> & Hh & Hp). cbv zeta.
    assert (∀ t, PumpEvents fuel (mk_debugger (debug d) (event_queue d ++ [e]) t (proc d) (wait_handle d)) (set_kernel k' w)
      = Done (d', w') →
      event_queue d' = event_queue d ++ e :: es ∧ pending (debug d) (kernel w') = [] ∧
      history (debug d) (kernel w') = history (debug d) (kernel w) ∧ debug d' = debug d ∧
      wait_handle d' = wait_handle d ∧ proc d' = proc d ∧ processes w' = processes w ∧
      debugging_titles w' = debugging_titles w) as Hnext.
    { intros t (Hq & Hp' & Hh' & ? & ? & ? & ? & ?)%IH. cbn [debug kernel set_kernel event_queue] in *.
      rewrite Hp in Hq. rewrite <- app_assoc in Hq. cbn in Hq. rewrite Hh in Hh'. by split_and!. }
    repeat case_match; try discriminate; apply Hnext.
Qed.

Lemma PumpEvents_fuel fuel (d : debugger) (w : twili) :
  (length (pending (debug d) (kernel w)) < fuel)%nat → PumpEvents fuel d w ≠ OutOfFuel.
Proof.
  revert d w. induction fuel as [|fuel IH]; intros d w Hf; [lia|]. cbn [PumpEvents].
  destruct (pending (debug d) (kernel w)) as [|e es] eqn:Ep.
  - destruct (get_none _ _ Ep) as (k' & -> & _). by rewrite Z.eqb_refl.
  - destruct (get_event _ _ _ _ Ep) as (k' & -> & _ & Hp). cbv zeta. cbn in Hf.
    repeat case_match; try done; apply IH; cbn; rewrite Hp; lia.
Qed.

Lemma receive_all_grows (d : debugger) pieces st (w : twili) :
  grows (debug d) (kernel w) (kernel (receive_all d pieces st w).2) ∧
  processes (receive_all d pieces st w).2 = processes w ∧
  debugging_titles (receive_all d pieces st w).2 = debugging_titles w.
Proof.
  revert st w. induction pieces as [|b pieces IH]; intros st w; cbn [receive_all]; [split; [apply grows_refl|done]|].
  destruct (WriteMemory_receive d b st w) as [st1 w1] eqn:E. destruct (IH st1 w1) as (Hg & Hp & Ht).
  assert (grows (debug d) (kernel w) (kernel w1) ∧ processes w1 = processes w ∧ debugging_titles w1 = debugging_titles w)
    as (Hg1 & Hp1 & Ht1).
  { unfold WriteMemory_receive in E. destruct (r st =? 0); [|injection E as <- <-; split; [apply grows_refl|done]].
    pose proof (write_grows (debug d) (addr_ptr st) b (kernel w)) as Hw.
    destruct (svcWriteDebugProcessMemory _ _ _ _) as [code k]. by injection E as <- <-. }
  split; [by eapply grows_trans|]. by rewrite Hp, Ht.
Qed.

Definition kept (del : list debug_event) (d : debugger) (w : twili) : Prop :=
  history (debug d) (kernel w) = del ++ event_queue d ++ pending (debug d) (kernel w).
Definition waiters (d : debugger) : list Z := option_list (wait_handle d).

Lemma kept_grows del (d : debugger) (w w' : twili) :
  grows (debug d) (kernel w) (kernel w') → kept del d w → kept del d w'.
Proof. intros (es & Hh & Hp) Hk. unfold kept in *. rewrite Hh, Hp, Hk. by rewrite <- !app_assoc. Qed.

(** A request that leaves the debugger as it is. *)
Definition plain_step (opener : Z) (d : debugger) (w : twili) (l : list (Z * answer)) (d' : debugger) (w' : twili) : Prop :=
  (∃ a, l = [(opener, a)]) ∧ d' = d ∧ grows (debug d) (kernel w) (kernel w').

Lemma handle_plain fuel o opener (d : debugger) (w : twili) l d' w' :
  o ≠ OpGetDebugEvent → o ≠ OpWaitEvent → handle fuel o opener d w = Done (l, d', w') →
  plain_step opener d w l d' w'.
Proof.
  intros Hne1 Hne2.
  assert (∀ a w1, grows (debug d) (kernel w) (kernel w1) → answered opener d (a, w1) = (l, d', w') →
    plain_step opener d w l d' w') as Hans.
  { intros a w1 Hg [= <- <- <-]. split; [by eexists|]. done. }
  assert (∀ c vs, grows (debug d) (kernel w) c.2 → answered opener d (checked c vs w) = (l, d', w') →
    plain_step opener d w l d' w') as Hchk by (intros c vs Hg; by apply Hans).
  assert (grows (debug d) (kernel w) (kernel w)) as Hrefl by apply grows_refl.
  destruct o; cbn [Debugger.handle]; try done.
  - intros E%(inj Done). by (eapply Hans; [|exact E]).
  - intros (a & _ & E%(inj Done))%bind_Done_inv. by (eapply Hans; [|exact E]).
  - destruct (receive_all_grows d pieces (WriteMemory addr) w) as (Hg & _).
    destruct (receive_all d pieces _ w) as [st w1]. intros E%(inj Done). by (eapply Hans; [|exact E]).
  - intros E%(inj Done). by (eapply Hans; [|exact E]).
  - intros E%(inj Done). by (eapply Hans; [|exact E]).
  - intros E%(inj Done). unfold BreakProcess in E. eapply Hchk; [|exact E]. apply break_grows.
  - intros E%(inj Done). unfold ContinueDebugEvent in E. eapply Hchk; [|exact E]. apply continue_grows.
  - intros E%(inj Done). unfold SetThreadContext in E. eapply Hchk; [|exact E]. apply set_context_grows.
  - unfold GetNsoInfos_handler. case_bool_decide; [intros E%(inj Done); by (eapply Hans; [|exact E])|].
    intros ([a w1] & (pid & _ & E1)%bind_Done_inv & E%(inj Done))%bind_Done_inv.
    pose proof (nso_grows (debug d) pid (kernel w)) as Hg.
    destruct (GetNsoInfos pid (kernel w)) as [[code infos] k]. apply (inj Done) in E1. rewrite <- E1 in E.
    by (eapply Hchk; [|exact E]).
  - intros (a & _ & E%(inj Done))%bind_Done_inv. by (eapply Hans; [|exact E]).
  - unfold LaunchDebugProcess. intros ([a w1] & (pid & _ & E1%(inj Done))%bind_Done_inv & E%(inj Done))%bind_Done_inv.
    rewrite <- E1 in E. eapply Hchk; [|exact E]. apply start_grows.
  - unfold GetNroInfos_handler. case_bool_decide; [intros E%(inj Done); by (eapply Hans; [|exact E])|].
    case_bool_decide; [intros E%(inj Done); by (eapply Hans; [|exact E])|].
    intros ([a w1] & (pid & _ & E1)%bind_Done_inv & E%(inj Done))%bind_Done_inv.
    pose proof (nro_grows (debug d) pid (kernel w)) as Hg.
    destruct (GetNroInfos pid (kernel w)) as [[code infos] k]. apply (inj Done) in E1. rewrite <- E1 in E.
    by (eapply Hchk; [|exact E]).
Qed.

Lemma GetDebugEvent_spec fuel (d d' : debugger) (w w' : twili) a del :
  GetDebugEvent fuel d w = Done (a, d', w') → kept del d w →
  debug d' = debug d ∧ wait_handle d' = wait_handle d ∧ pending (debug d) (kernel w') = [] ∧
  (a = inl no_event ∧ event_queue d' = [] ∧ kept del d' w' ∨
   ∃ e, a = inr [Response.VPod e] ∧ kept (del ++ [e]) d' w').
Proof.
  unfold GetDebugEvent, kept.
  intros ([d1 w1] & (Hq & Hp & Hh & Hd & Hw & _)%PumpEvents_spec & E)%bind_Done_inv Hk.
  rewrite <- Hh in Hk. destruct (event_queue d1) as [|e q] eqn:Eq; injection E as <- <- <-.
  - rewrite Hd, Hp. split_and!; try done. left. split_and!; [done|done|]. by rewrite Hk, Eq, <- Hq.
  - cbn [set_queue debug event_queue wait_handle]. rewrite Hd, Hp. split_and!; try done. right. exists e.
    split; [done|]. rewrite Hk, <- Hq. by rewrite app_nil_r, <- app_assoc.
Qed.

Lemma handle_spec fuel o opener (d : debugger) (w : twili) l d' w' del :
  handle fuel o opener d w = Done (l, d', w') → kept del d w →
  debug d' = debug d ∧ map fst l ++ waiters d' ≡ₚ opener :: waiters d ∧
  kept (del ++ item_events (Requested o opener l)) d' w'.
Proof.
  intros E Hk.
  assert (o = OpGetDebugEvent ∨ o = OpWaitEvent ∨ o ≠ OpGetDebugEvent ∧ o ≠ OpWaitEvent) as [->|[->|[Hne1 Hne2]]]
    by (destruct o; auto).
  - cbn [Debugger.handle] in E. apply bind_Done_inv in E as ([[a d1] w1] & E & [= <- <- <-]).
    destruct (GetDebugEvent_spec fuel d d1 w w1 a del E Hk) as (Hd & Hw & _ & [(-> & _ & Hk1)|(e & -> & Hk1)]);
      unfold waiters; rewrite Hd, Hw; cbn; rewrite ?app_nil_r; by split_and!.
  - cbn [Debugger.handle] in E. unfold WaitEvent in E. cbn [item_events]. unfold waiters.
    destruct (wait_handle d) eqn:Ew; injection E as <- <- <-; cbn; rewrite ?app_nil_r, ?Ew; by split_and!.
  - apply handle_plain in E as ((a & ->) & -> & Hg); [|done..].
    cbn [map fst]. split_and!; [done|done|].
    replace (item_events _) with (@nil debug_event) by (destruct o; naive_solver).
    rewrite app_nil_r. by eapply kept_grows.
Qed.

Lemma runs_spec fuel (d d' : debugger) (w w' : twili) tr del :
  runs grows fuel d w tr d' w' → kept del d w →
  debug d' = debug d ∧ kept (del ++ delivered tr) d' w' ∧
  map fst (tr ≫= item_answers) ++ waiters d' ≡ₚ (tr ≫= item_openers) ++ waiters d.
Proof.
  intros Hr. revert del. induction Hr as [d w|o opener l d w d1 w1 tr d2 w2 E _ IH|l d w d1 tr d2 w2 E _ IH|k d w tr d2 w2 Hg _ IH];
    intros del Hk; unfold delivered in *; rewrite ?bind_cons.
  - cbn. by rewrite app_nil_r.
  - destruct (handle_spec _ _ _ _ _ _ _ _ _ E Hk) as (Hd & Hp & Hk1).
    destruct (IH _ Hk1) as (Hd2 & Hk2 & Hp2). rewrite app_assoc. split_and!; [congruence|done|].
    cbn [item_answers item_openers]. rewrite map_app. cbn [app]. rewrite <- app_assoc, Hp2.
    rewrite (Permutation_app_comm (tr ≫= item_openers)), app_assoc, Hp. cbn. by rewrite Permutation_app_comm.
  - assert (debug d1 = debug d ∧ kept del d1 w ∧ map fst l ++ waiters d1 ≡ₚ waiters d) as (Hd & Hk1 & Hp).
    { unfold signalled in E. unfold kept, waiters in *.
      destruct (wait_handle d) eqn:Ew; injection E as <- <-; cbn; rewrite ?Ew; by split_and!. }
    destruct (IH _ Hk1) as (Hd2 & Hk2 & Hp2). cbn [item_events]. split_and!; [congruence|done|].
    cbn [item_answers item_openers]. rewrite map_app. cbn [app]. rewrite <- app_assoc, Hp2.
    rewrite (Permutation_app_comm (tr ≫= item_openers)), app_assoc, Hp. by rewrite Permutation_app_comm.
  - apply IH. by eapply kept_grows.
Qed.

(** *** The titles that are being debugged *)

Lemma PumpEvents_title fuel (d d' : debugger) (w w' : twili) :
  PumpEvents fuel d w = Done (d', w') → title_id d ≠ 0 → title_id d' = title_id d.
Proof.
  revert d w. induction fuel as [|fuel IH]; intros d w; [done|]. cbn [PumpEvents].
  destruct (svcGetDebugEvent (debug d) (kernel w)) as [[code|e] k].
  - destruct (code =? no_event); [|done]. by intros [= <- _].
  - cbv zeta. cbn [set_queue title_id]. intros E Hne. destruct (event_type e =? ATTACH_PROCESS).
    + destruct (Z.eqb_spec (title_id d) 0); done.
    + by apply IH in E.
Qed.

Lemma handle_title fuel o opener (d : debugger) (w : twili) l d' w' :
  handle fuel o opener d w = Done (l, d', w') → title_id d ≠ 0 →
  title_id d' = title_id d ∧ debugging_titles w' = debugging_titles w.
Proof.
  assert (∀ a w1, debugging_titles w1 = debugging_titles w → answered opener d (a, w1) = (l, d', w') →
    title_id d' = title_id d ∧ debugging_titles w' = debugging_titles w) as Hans.
  { by intros a w1 Hg [= <- <- <-]. }
  destruct o; cbn [Debugger.handle].
  1: intros E%(inj Done) _; by (eapply Hans; [|exact E]).
  1: intros (a & _ & E%(inj Done))%bind_Done_inv _; by (eapply Hans; [|exact E]).
  1: destruct (receive_all_grows d pieces (WriteMemory addr) w) as (_ & _ & Ht);
     destruct (receive_all d pieces _ w) as [st w1]; intros E%(inj Done) _; by (eapply Hans; [|exact E]).
  1: intros E%(inj Done) _; by (eapply Hans; [|exact E]).
  1: unfold GetDebugEvent;
     intros ([[a d1] w1] & ([d2 w2] & Ep & E2)%bind_Done_inv & [= <- <- <-])%bind_Done_inv Hne;
     pose proof (PumpEvents_title _ _ _ _ _ Ep Hne) as Ht; apply PumpEvents_spec in Ep as (_ & _ & _ & _ & _ & _ & _ & Hts);
     destruct (event_queue d2); injection E2 as <- <- <-; by split.
  6: unfold WaitEvent; destruct (wait_handle d); by intros [= <- <- <-].
  6: intros (a & _ & E%(inj Done))%bind_Done_inv _; by (eapply Hans; [|exact E]).
  1-4: intros E%(inj Done) _; by (eapply Hans; [|exact E]).
  all: unfold GetNsoInfos_handler, GetNroInfos_handler, LaunchDebugProcess;
    repeat (case_bool_decide; [intros E%(inj Done) _; by (eapply Hans; [|exact E])|]);
    intros ([a w1] & (pid & _ & E1)%bind_Done_inv & E%(inj Done))%bind_Done_inv _;
    repeat match type of E1 with context [let '(_, _) := ?x in _] => destruct x as [[? ?] ?] end;
    apply (inj Done) in E1; rewrite <- E1 in E; by (eapply Hans; [|exact E]).
Qed.

(** The open debuggers of a device. *)
Inductive device_step (fuel : nat) : list debugger * twili → list debugger * twili → Prop :=
| device_open pid ds d w w' :
    OpenActiveDebugger fuel pid w = Done (inr d, w') → device_step fuel (ds, w) (ds ++ [d], w')
| device_refused pid code ds w w' :
    OpenActiveDebugger fuel pid w = Done (inl code, w') → device_step fuel (ds, w) (ds, w')
| device_request o opener l ds1 d d' ds2 w w' :
    handle fuel o opener d w = Done (l, d', w') → device_step fuel (ds1 ++ d :: ds2, w) (ds1 ++ d' :: ds2, w')
| device_signal l ds1 d d' ds2 w :
    signalled d = (l, d') → device_step fuel (ds1 ++ d :: ds2, w) (ds1 ++ d' :: ds2, w)
| device_close ds1 d ds2 w : device_step fuel (ds1 ++ d :: ds2, w) (ds1 ++ ds2, destroy d w).

Record titles_ok (s : list debugger * twili) : Prop := {
  titles_set : debugging_titles s.2 = list_to_set (title_id <$> s.1);
  titles_nodup : NoDup (title_id <$> s.1);
  titles_nonzero : Forall (fun d => title_id d ≠ 0) s.1 }.

Lemma titles_replace ds1 d d' ds2 w w' :
  title_id d' = title_id d → debugging_titles w' = debugging_titles w →
  titles_ok (ds1 ++ d :: ds2, w) → titles_ok (ds1 ++ d' :: ds2, w').
Proof.
  intros Ht Hw [Hs Hn Hz]. cbn [fst snd] in *.
  assert (title_id <$> ds1 ++ d' :: ds2 = title_id <$> ds1 ++ d :: ds2) as E by (by rewrite !fmap_app, !fmap_cons, Ht).
  split; cbn [fst snd]; rewrite ?E, ?Hw; [done|done|].
  apply Forall_app in Hz as [? [? ?]%Forall_cons]. apply Forall_app; split; [done|]. apply Forall_cons; split; [|done]. by rewrite Ht.
Qed.

Lemma device_step_titles fuel s s' : device_step fuel s s' → titles_ok s → titles_ok s'.
Proof.
  intros Hstep Hok. destruct Hstep as [pid ds d w w' E|pid code ds w w' E|o opener l ds1 d d' ds2 w w' E|l ds1 d d' ds2 w E|ds1 d ds2 w].
  - destruct Hok as [Hs Hn Hz]. unfold OpenActiveDebugger in E. cbn [fst snd] in *.
    destruct (svcDebugActiveProcess pid (kernel w)) as [[code|h] k]; [done|].
    apply bind_Done_inv in E as ([d1 w1] & E & [= -> ->]). unfold construct in E.
    apply bind_Done_inv in E as (w2 & Ew & E). apply bind_Done_inv in E as ([d3 w3] & Ep & E).
    apply PumpEvents_spec in Ep as (_ & _ & _ & _ & _ & _ & _ & Hts).
    assert (debugging_titles w2 = debugging_titles w) as Et.
    { destruct (FindMonitoredProcess _ _); [|by injection Ew as <-]. by apply bind_Done_inv in Ew as (ps & _ & [= <-]). }
    destruct (Z.eqb_spec (title_id d3) 0); [done|]. case_bool_decide as Hin; [done|]. injection E as <- <-.
    rewrite Hts, Et, Hs in Hin. split; cbn [fst snd debugging_titles].
    + rewrite Hts, Et, Hs, fmap_app, list_to_set_app_L. cbn. set_solver.
    + rewrite fmap_app. apply NoDup_app. split_and!; [done| |apply NoDup_singleton].
      intros t Ht1 Ht2. set_solver.
    + by apply Forall_app; split; [|apply Forall_singleton].
  - destruct Hok as [Hs Hn Hz]. unfold OpenActiveDebugger in E.
    destruct (svcDebugActiveProcess pid (kernel w)) as [[code'|h] k]; [by injection E as _ <-|].
    by apply bind_Done_inv in E as ([d1 w1] & _ & E).
  - pose proof Hok as [_ _ Hz]. cbn [fst] in Hz. apply Forall_app in Hz as [_ [Hz _]%Forall_cons].
    destruct (handle_title _ _ _ _ _ _ _ _ E Hz). by eapply titles_replace.
  - assert (title_id d' = title_id d) by (unfold signalled in E; destruct (wait_handle d); by injection E as _ <-).
    by eapply titles_replace.
  - destruct Hok as [Hs Hn Hz]. cbn [fst snd] in *. rewrite fmap_app, fmap_cons in Hn.
    apply NoDup_app in Hn as (Hn1 & Hd & Hn2). apply NoDup_cons in Hn2 as [Hnd Hn2].
    apply Forall_app in Hz as [Hz1 [Hzd Hz2]%Forall_cons]. unfold destroy. rewrite (proj2 (Z.eqb_neq _ _)) by done.
    split; cbn [fst snd debugging_titles].
    + rewrite Hs, !fmap_app, fmap_cons, !list_to_set_app_L, list_to_set_cons.
      assert (title_id d ∉ title_id <$> ds1) by (intros Hin; apply (Hd _ Hin); by left). set_solver.
    + rewrite fmap_app. apply NoDup_app. split_and!; [done| |done]. intros t Ht1 Ht2. apply (Hd t Ht1). by right.
    + by apply Forall_app.
Qed.

(** Opening a debugger for a title that is being debugged. *)
Lemma open_twice fuel pid h k e (w : twili) :
  svcDebugActiveProcess pid (kernel w) = (inr h, k) → pending h k = [e] → event_type e = ATTACH_PROCESS →
  attach_title_id e ∈ debugging_titles w → FindMonitoredProcess pid (processes w) = None →
  OpenActiveDebugger (S (S fuel)) pid w = Aborts TWILI_ERR_INVALID_DEBUGGER_STATE.
Proof.
  intros E Hp He Ht Hf. unfold OpenActiveDebugger. rewrite E, Hf. unfold construct. cbn [mbind outcome_bind PumpEvents].
  cbn [debug kernel set_kernel]. destruct (get_event _ _ _ _ Hp) as (k1 & -> & _ & Hp1). cbv zeta.
  rewrite He. cbn [Z.eqb ATTACH_PROCESS set_queue set_title title_id debug event_queue].
  destruct (get_none _ _ Hp1) as (k2 & -> & _). rewrite Z.eqb_refl. simpl.
  destruct (attach_title_id e =? 0); [by simpl|].
  by rewrite bool_decide_true.
Qed.
End events.

(** *** The entry of the main module *)

Section entry.
Context {K : Type} `{!debug_svc K}.

(** The starts of the code regions, in the order of the addresses, and the one that is taken. *)
Definition code_bases (m : list memory_info) : list Z := map mi_base (filter (fun mi => Is_true (is_code mi)) m).
Definition main_of (bases : list Z) : Z :=
  match bases with [] => 0 | [main] => main | _ :: main :: _ => main end.

Lemma code_bases_cons mi m : code_bases (mi :: m) = (if is_code mi then [mi_base mi] else []) ++ code_bases m.
Proof.
  unfold code_bases. rewrite filter_cons. destruct (is_code mi) eqn:E.
  - by rewrite decide_True.
  - by rewrite decide_False by (intros []).
Qed.

Lemma candidates_spec h (k : K) m m1 m2 a cs fuel :
  mapped h k m → m = m1 ++ m2 → m2 ≠ [] → 0 ≤ a → tile a m2 (2 ^ 64) → (length m2 ≤ fuel)%nat →
  candidates_loop fuel h a cs k = Done (cs ++ code_bases m2).
Proof.
  intros Hm. revert m1 a cs fuel. induction m2 as [|mi m2 IH]; intros m1 a cs fuel Em Hne Ha Ht Hf; [done|].
  destruct fuel as [|fuel]; [cbn in Hf; lia|]. destruct Ht as (<- & Hs & Ht). cbn [candidates_loop].
  destruct (query_next h k m m1 mi m2 Hm Em) as (page & ->). cbn [Assert mbind outcome_bind]. cbv zeta.
  rewrite code_bases_cons. set (cs1 := if is_code mi then _ else _).
  assert (cs ++ (if is_code mi then [mi_base mi] else []) ++ code_bases m2 = cs1 ++ code_bases m2) as ->
    by (subst cs1; destruct (is_code mi); cbn; [by rewrite <- app_assoc|done]).
  clearbody cs1. destruct m2 as [|mi2 m2].
  - cbn in Ht. rewrite Ht. change (u64 (2 ^ 64)) with 0. rewrite (proj2 (Z.ltb_ge _ _)) by lia.
    unfold code_bases. cbn. by rewrite app_nil_r.
  - assert (mi_base mi + mi_size mi < 2 ^ 64) by (destruct Ht as (? & ? & ?%tile_le); lia).
    rewrite u64_small, (proj2 (Z.ltb_lt _ _)) by lia.
    apply (IH (m1 ++ [mi])); [by rewrite <- app_assoc|done|lia|done|cbn in *; lia].
Qed.

(** The same map as the search of a monitored process takes it. *)
Definition map_entries (m : list memory_info) : list (Z * Z * Z * Z) :=
  map (fun mi => (mi_base mi, mi_size mi, memory_type mi, permission mi)) m.
Definition pick (found entry : Z) (bases : list Z) : Z :=
  if found =? 0 then default entry (bases !! 1%nat) else if found =? 1 then default entry (bases !! 0%nat) else entry.

Lemma pick_next found entry base bases :
  0 ≤ found → pick (found + 1) (if found + 1 =? 2 then base else entry) bases = pick found entry (base :: bases).
Proof.
  intros Hf. unfold pick. destruct (Z.eqb_spec found 0) as [->|H0]; [done|].
  destruct (Z.eqb_spec found 1) as [->|H1]; [done|].
  rewrite (proj2 (Z.eqb_neq _ _)), (proj2 (Z.eqb_neq (found + 1) 1)), (proj2 (Z.eqb_neq (found + 1) 2)) by lia. done.
Qed.

Lemma find_entry_spec svc_error m a found entry :
  m ≠ [] → 0 ≤ a → tile a m (2 ^ 64) → 0 ≤ found →
  (∀ mi, last m = Some mi → is_code mi = false) →
  Process.find_entry svc_error (map_entries m) found entry =
    Done (found + zlen (code_bases m), pick found entry (code_bases m)).
Proof.
  revert a found entry. induction m as [|mi m IH]; intros a found entry Hne Ha Ht Hf Hlast; [done|].
  destruct Ht as (<- & Hs & Ht). cbn [map_entries map Process.find_entry]. fold (map_entries m).
  rewrite code_bases_cons. destruct m as [|mi2 m].
  - cbn in Ht. rewrite Ht. change (u64 (2 ^ 64)) with 0. cbn. rewrite (Hlast mi) by done. cbn.
    unfold pick. rewrite Z.add_0_r. by destruct (found =? 0), (found =? 1).
  - assert (mi_base mi + mi_size mi < 2 ^ 64) by (destruct Ht as (? & ? & ?%tile_le); lia).
    rewrite u64_small, (proj2 (Z.ltb_lt _ _)) by lia. fold (is_code mi).
    assert (∀ mi', last (mi2 :: m) = Some mi' → is_code mi' = false) as Hl by (intros mi' E; by apply Hlast).
    destruct (is_code mi).
    + rewrite (IH (mi_base mi + mi_size mi)) by (done || lia). cbn [app]. rewrite zlen_cons, pick_next by done.
      do 2 f_equal. lia.
    + by rewrite (IH (mi_base mi + mi_size mi)) by (done || lia).
Qed.
End entry.

(** *** Writing memory *)

Definition written (memory : Z → byte) (a : Z) (data : bytes) : Z → byte := fun x =>
  if decide (a ≤ x) then default (memory x) (data !! Z.to_nat (x - a)) else memory x.

(** What the kernel promises of a write that succeeds. *)
Class write_laws (K : Type) `{!debug_svc K} : Type := {
  mem : Z → K → Z → byte;
  write_law h a data k k' : 0 ≤ a → a + zlen data < 2 ^ 64 → svcWriteDebugProcessMemory h a data k = (0, k') →
    ∀ x, mem h k' x = written (mem h k) a data x }.

Lemma written_nil memory a x : written memory a [] x = memory x.
Proof. unfold written. by case_decide. Qed.
Lemma written_app memory a l1 l2 x :
  written (written memory a l1) (a + zlen l1) l2 x = written memory a (l1 ++ l2) x.
Proof.
  unfold written, zlen. destruct (decide (a + Z.of_nat (length l1) ≤ x)).
  - rewrite !decide_True by lia. rewrite lookup_app_r by lia.
    replace (Z.to_nat (x - a) - length l1)%nat with (Z.to_nat (x - (a + Z.of_nat (length l1)))) by lia.
    by rewrite (lookup_ge_None_2 l1) by lia.
  - destruct (decide (a ≤ x)); [|done]. by rewrite lookup_app_l by lia.
Qed.
Lemma written_ext f g a l x : f x = g x → written f a l x = written g a l x.
Proof. unfold written. by intros ->. Qed.

Section write_memory.
Context {K P : Type} `{!debug_svc K} `{!write_laws K}.

Lemma receive_all_failed (d : debugger) pieces st (w : @twili K P) :
  r st ≠ 0 → receive_all d pieces st w = (st, w).
Proof.
  intros Hr. induction pieces as [|b pieces IH]; [done|]. cbn [receive_all]. unfold WriteMemory_receive.
  by rewrite (proj2 (Z.eqb_neq _ _)).
Qed.

Lemma receive_all_spec (d : debugger) pieces a (w : @twili K P) st w' :
  receive_all d pieces (mk_write a 0) w = (st, w') → 0 ≤ a → a + zlen (concat pieces) < 2 ^ 64 →
  (r st = 0 ∧ ∀ x, mem (debug d) (kernel w') x = written (mem (debug d) (kernel w)) a (concat pieces) x) ∨
  (∃ pre b post k, pieces = pre ++ b :: post ∧
     (∀ x, mem (debug d) k x = written (mem (debug d) (kernel w)) a (concat pre) x) ∧
     svcWriteDebugProcessMemory (debug d) (u64 (a + zlen (concat pre))) b k = (r st, kernel w') ∧ r st ≠ 0).
Proof.
  revert a w. induction pieces as [|b pieces IH]; intros a w; cbn [receive_all concat].
  - intros [= <- <-] _ _. left. split; [done|]. intros x. by rewrite written_nil.
  - unfold WriteMemory_receive. cbn [r addr_ptr Z.eqb]. intros E Ha Hs. rewrite zlen_app in Hs. zlen_facts.
    destruct (svcWriteDebugProcessMemory (debug d) a b (kernel w)) as [code k] eqn:Ew.
    destruct (Z.eq_dec code 0) as [->|Hc].
    + assert (a + zlen b < 2 ^ 64) as Hb by lia. pose proof (write_law _ _ _ _ _ Ha Hb Ew) as Hm.
      rewrite u64_small in E by lia. apply IH in E; [|lia|cbn; lia]. cbn [kernel set_kernel] in E.
      destruct E as [[Hr Hx]|(pre & b' & post & k' & -> & Hx & Ew' & Hr)].
      * left. split; [done|]. intros x. rewrite Hx, <- written_app. by apply written_ext.
      * right. exists (b :: pre), b', post, k'. cbn [concat app]. split_and!; [done| | |done].
        -- intros x. rewrite Hx, <- written_app. by apply written_ext.
        -- by rewrite zlen_app, Z.add_assoc.
    + rewrite receive_all_failed in E by done. injection E as <- <-. right. exists [], b, pieces, (kernel w).
      cbn [concat app kernel set_kernel r]. split_and!; [done| | |done].
      * intros x. by rewrite written_nil.
      * change (zlen []) with 0. rewrite Z.add_0_r, u64_small by lia. done.
Qed.
End write_memory.

(** ** Theorems *)

(** A kernel for the examples: the events so far and the pending ones, and the memory. *)
Record ex_kernel : Type := mk_ex { ex_history : list debug_event; ex_pending : list debug_event; ex_mem : Z → byte }.
Definition ex_take (k : ex_kernel) : (Z + debug_event) * ex_kernel :=
  match ex_pending k with
  | [] => (inl no_event, k)
  | e :: es => (inr e, mk_ex (ex_history k) es (ex_mem k))
  end.
Definition ex_regions : list memory_info :=
  [mk_memory_info 0 4096 0 0 0 0 0 0; mk_memory_info 4096 4096 3 0 5 0 0 0; mk_memory_info 8192 4096 3 0 5 0 0 0;
   mk_memory_info 12288 (2 ^ 64 - 12288) 0 0 0 0 0 0].
#[export] Instance ex_svc : debug_svc ex_kernel := {
  svcDebugActiveProcess := fun pid k => (inr 9, k);
  svcCloseHandle := fun _ k => k;
  svcGetProcessId := fun _ _ => inr 81;
  svcGetDebugEvent := fun _ k => ex_take k;
  svcContinueDebugEvent := fun _ _ _ k => (0, k);
  svcBreakDebugProcess := fun _ k => (0, k);
  svcQueryDebugProcessMemory := fun _ a _ =>
    match find (fun mi => (mi_base mi <=? a) && (a <? mi_base mi + mi_size mi)) ex_regions with
    | Some mi => inr (mi, 0) | None => inl 1 end;
  svcReadDebugProcessMemory := fun _ a n k => inr (contents (ex_mem k) a n);
  svcWriteDebugProcessMemory := fun _ a data k => (0, mk_ex (ex_history k) (ex_pending k) (written (ex_mem k) a data));
  svcGetDebugThreadContext := fun _ _ _ _ => inr (zreplicate 800 Byte.x00);
  svcSetDebugThreadContext := fun _ _ _ _ k => (0, k) }.
#[export] Instance ex_modules : module_services ex_kernel := {
  StartProcess := fun _ k => (0, k);
  GetNsoInfos := fun _ k => (0, [], k);
  GetNroInfos := fun _ k => (0, [], k) }.
(** No monitored processes. *)
#[export] Instance ex_monitored : monitored unit := {
  Continue := fun _ u => Done u; GetTargetEntry := fun _ _ => 0; FindMonitoredProcess := fun _ _ => None }.

#[export] Instance ex_events : event_laws ex_kernel.
Proof.
  refine {| history := fun _ => ex_history; pending := fun _ => ex_pending |};
    try (intros; exists []; cbn; by rewrite !app_nil_r).
  - intros h k Hp. exists k. cbn. unfold ex_take. by rewrite Hp.
  - intros h k e es Hp. exists (mk_ex (ex_history k) es (ex_mem k)). cbn. unfold ex_take. by rewrite Hp.
Defined.
#[export] Instance ex_writes : write_laws ex_kernel.
Proof. refine {| mem := fun _ => ex_mem |}. by intros h a data k k' _ _ [= <-] x. Defined.

Lemma ex_regions_mapped h k : mapped h k ex_regions.
Proof.
  split; [cbn; lia|]. intros mi a Hin Ha. exists 0. cbn [svcQueryDebugProcessMemory ex_svc].
  unfold ex_regions in Hin. rewrite !elem_of_cons, elem_of_nil in Hin. cbn [find ex_regions mi_base mi_size].
  destruct Hin as [->|[->|[->|[->|[]]]]]; cbn [mi_base mi_size] in Ha;
    destruct (Z.leb_spec 0 a), (Z.ltb_spec a (0 + 4096)), (Z.leb_spec 4096 a), (Z.ltb_spec a (4096 + 4096)),
      (Z.leb_spec 8192 a), (Z.ltb_spec a (8192 + 4096)), (Z.leb_spec 12288 a), (Z.ltb_spec a (12288 + (2 ^ 64 - 12288)));
    done || lia.
Qed.

Definition ex_attach (title : Z) : debug_event :=
  encode_fields [(4%nat, ATTACH_PROCESS); (4%nat, 0); (8%nat, 0); (8%nat, title); (8%nat, 81)].
Definition ex_twili (es : list debug_event) : @twili ex_kernel unit := mk_twili (mk_ex es es (fun _ => Byte.x00)) ∅ tt.

(** C7: the events of a debugger.  Whatever requests, signals and new events follow its making,
    in any order: the events given to the client, those in the queue and those still in the
    kernel are all events the process ever had, in order, none lost and none twice; a client that
    is told there is none has been given all; and every request is answered exactly once, except
    a [WaitEvent] that still waits. *)
Theorem debug_events_in_order {K P} `{!debug_svc K, !monitored P, !module_services K, !event_laws K}
    heap unimplemented fuel h proc (w w1 w2 : @twili K P) d d2 tr :
  construct fuel h proc w = Done (d, w1) → pending h (kernel w) = history h (kernel w) →
  runs heap unimplemented grows fuel d w1 tr d2 w2 →
  history h (kernel w2) = delivered tr ++ event_queue d2 ++ pending h (kernel w2) ∧
  (∀ d3 w3, GetDebugEvent fuel d2 w2 = Done (inl no_event, d3, w3) → history h (kernel w3) = delivered tr) ∧
  map fst (tr ≫= item_answers) ++ waiters d2 ≡ₚ tr ≫= item_openers.
Proof.
  intros E Hp Hr. unfold construct in E.
  apply bind_Done_inv in E as (w0 & Ew & ([d0 w3] & Epump & E)%bind_Done_inv).
  assert (kernel w0 = kernel w) as Ek.
  { destruct proc; [|by injection Ew as <-]. by apply bind_Done_inv in Ew as (ps & _ & [= <-]). }
  apply PumpEvents_spec in Epump as (Hq & Hp0 & Hh0 & Hd0 & Hw0 & _). cbn [debug event_queue wait_handle] in *.
  destruct (title_id d0 =? 0); [done|]. case_bool_decide; [done|]. injection E as <- <-.
  destruct (runs_spec heap unimplemented _ _ _ _ _ _ [] Hr) as (Hd & Hk & Hperm).
  { unfold kept. cbn [kernel]. rewrite Hd0, Hh0, Hq, Hp0, Ek, Hp. cbn. by rewrite app_nil_r. }
  rewrite Hd0 in Hd. unfold kept in Hk. rewrite Hd in Hk. split_and!.
  - exact Hk.
  - intros d3 w4 E3. destruct (GetDebugEvent_spec _ _ _ _ _ _ (delivered tr) E3) as (Hd3 & _ & Hp3 & [(_ & Hq3 & Hk3)|(e & ? & _)]);
      [by unfold kept; rewrite Hd| |done].
    unfold kept in Hk3. rewrite Hd in Hp3. rewrite Hd3, Hd, Hq3, Hp3 in Hk3. rewrite Hk3. by rewrite app_nil_r.
  - unfold waiters at 2 in Hperm. rewrite Hw0 in Hperm. cbn in Hperm. by rewrite app_nil_r in Hperm.
Qed.

Lemma debug_events_in_order_witness :
  let tr := [Requested OpWaitEvent 1 []; Requested OpGetDebugEvent 2 [(2, inr [Response.VPod (ex_attach 5)])]] in
  let w2 := mk_twili (mk_ex [ex_attach 5] [] (fun _ => Byte.x00)) ({[5]} ∪ ∅) tt in
  let d2 := mk_debugger 9 [] 5 None (Some 1) in
  history 9 (kernel w2) = delivered tr ++ event_queue d2 ++ pending 9 (kernel w2) ∧
  (∀ d3 w3, GetDebugEvent 2 d2 w2 = Done (inl no_event, d3, w3) → history 9 (kernel w3) = delivered tr) ∧
  map fst (tr ≫= item_answers) ++ waiters d2 ≡ₚ tr ≫= item_openers.
Proof.
  intros tr w2 d2.
  apply (debug_events_in_order 100 7 2 9 None (ex_twili [ex_attach 5]) w2 w2 (mk_debugger 9 [ex_attach 5] 5 None None) d2 tr);
    [reflexivity|reflexivity|].
  eapply runs_request; [reflexivity|]. eapply runs_request; [reflexivity|]. apply runs_nil.
Defined.

(** the titles that are being debugged.  After any sequence of opening, using and closing
    debuggers, the device's set holds exactly the titles of the open ones, which are all
    different; and opening a second process of a title that is being debugged ends the device's
    program. *)
Theorem debugger_titles {K P} `{!debug_svc K, !monitored P, !module_services K, !event_laws K}
    heap unimplemented fuel (w w' : @twili K P) ds :
  debugging_titles w = ∅ → rtc (device_step heap unimplemented fuel) ([], w) (ds, w') →
  debugging_titles w' = list_to_set (title_id <$> ds) ∧ NoDup (title_id <$> ds) ∧
  (∀ d pid h k e, d ∈ ds → svcDebugActiveProcess pid (kernel w') = (inr h, k) → pending h k = [e] →
     event_type e = ATTACH_PROCESS → attach_title_id e = title_id d → FindMonitoredProcess pid (processes w') = None →
     OpenActiveDebugger (S (S fuel)) pid w' = Aborts TWILI_ERR_INVALID_DEBUGGER_STATE).
Proof.
  intros Hw Hs. assert (titles_ok (ds, w')) as [Hset Hnd _].
  { assert (titles_ok ([], w)) as H0 by (split; cbn; [done|constructor|done]). revert H0.
    generalize dependent ([] : list debugger, w). intros s Hs. induction Hs as [|s1 s2 s3 Hstep _ IH]; [done|].
    intros H1. by eapply IH, device_step_titles. }
  cbn [fst snd] in *. split_and!; [done|done|]. intros d pid h k e Hin E Hp He Ht Hf.
  eapply open_twice; try done. rewrite Hset, Ht, elem_of_list_to_set. by apply list_elem_of_fmap_2.
Qed.

Lemma debugger_titles_witness :
  let w' := mk_twili (mk_ex [ex_attach 5] [] (fun _ => Byte.x00)) ({[5]} ∪ ∅) tt in
  debugging_titles w' = list_to_set (title_id <$> [mk_debugger 9 [ex_attach 5] 5 None None]) ∧
  NoDup (title_id <$> [mk_debugger 9 [ex_attach 5] 5 None None]) ∧
  (∀ d pid h k e, d ∈ [mk_debugger 9 [ex_attach 5] 5 None None] →
     svcDebugActiveProcess pid (kernel w') = (inr h, k) → pending h k = [e] →
     event_type e = ATTACH_PROCESS → attach_title_id e = title_id d → FindMonitoredProcess pid (processes w') = None →
     OpenActiveDebugger 4 pid w' = Aborts TWILI_ERR_INVALID_DEBUGGER_STATE).
Proof.
  intros w'. apply (debugger_titles 100 7 2 (ex_twili [ex_attach 5]) w'); [reflexivity|].
  eapply rtc_l; [|apply rtc_refl]. apply (device_open 100 7 2 81 []). reflexivity.
Defined.

(** the entry of the main module.  With the kernel's map of the process, the search ends, and
    answers the start of the second code region, of the only one, or zero; and with two regions
    it is the address the device finds for its monitored processes by another loop. *)
Theorem target_entry_found {K P} `{!debug_svc K, !monitored P, !module_services K}
    fuel svc_error (d : debugger) (w : @twili K P) m found :
  proc d = None → mapped (debug d) (kernel w) m → (length m ≤ fuel)%nat →
  GetTargetEntry_handler fuel d w = Done (inr [u64_value (main_of (code_bases m))]) ∧
  (length (code_bases m) = 2%nat → (∀ mi, last m = Some mi → is_code mi = false) →
     Process.find_entry svc_error (map_entries m) 0 found = Done (2, main_of (code_bases m))).
Proof.
  intros Hp Hm Hf. assert (m ≠ []) as Hne by (intros ->; by destruct Hm). split.
  - unfold GetTargetEntry_handler. rewrite Hp.
    by rewrite (candidates_spec _ _ m [] m 0 [] fuel Hm) by (done || apply Hm).
  - intros Hlen Hlast. rewrite (find_entry_spec svc_error m 0) by (done || apply Hm).
    destruct (code_bases m) as [|a [|b [|c l]]]; done.
Qed.

Lemma target_entry_found_witness :
  GetTargetEntry_handler 4 (mk_debugger 9 [] 5 None None) (ex_twili []) = Done (inr [u64_value 8192]) ∧
  (length [4096; 8192] = 2%nat → (∀ mi, last ex_regions = Some mi → is_code mi = false) →
     Process.find_entry 1 (map_entries ex_regions) 0 0 = Done (2, 8192)).
Proof.
  apply (target_entry_found 4 1 (mk_debugger 9 [] 5 None None) (ex_twili []) ex_regions 0);
    [reflexivity|apply ex_regions_mapped|cbn; lia].
Defined.

(** writing memory in pieces.  When the answer is success, the memory holds the data at the
    address, whatever pieces it came in, and nothing else changed; otherwise the answer is the
    error of the first piece that could not be written, the pieces before it are in memory and
    none after it was tried. *)
Theorem write_memory_stream {K P} `{!debug_svc K, !write_laws K} (d : debugger) pieces addr (w w' : @twili K P) st :
  receive_all d pieces (WriteMemory addr) w = (st, w') → 0 ≤ addr → addr + zlen (concat pieces) < 2 ^ 64 →
  (WriteMemory_finish st = inr [] ∧
     ∀ x, mem (debug d) (kernel w') x = written (mem (debug d) (kernel w)) addr (concat pieces) x) ∨
  (∃ pre b post k code, pieces = pre ++ b :: post ∧ WriteMemory_finish st = inl code ∧
     (∀ x, mem (debug d) k x = written (mem (debug d) (kernel w)) addr (concat pre) x) ∧
     svcWriteDebugProcessMemory (debug d) (u64 (addr + zlen (concat pre))) b k = (code, kernel w')).
Proof.
  intros E Ha Hs. unfold WriteMemory_finish.
  destruct (receive_all_spec d pieces addr w st w' E Ha Hs) as [[-> Hx]|(pre & b & post & k & -> & Hx & Ew & Hr)].
  - by left.
  - right. exists pre, b, post, k, (r st). by rewrite (proj2 (Z.eqb_neq _ _) Hr).
Qed.

Lemma write_memory_stream_witness :
  let d := mk_debugger 9 [] 5 None None in
  let pieces := [[Byte.x01]; [Byte.x02; Byte.x03]] in
  let w := ex_twili [] in
  let w' := mk_twili (mk_ex [] [] (written (written (fun _ => Byte.x00) 16 [Byte.x01]) 17 [Byte.x02; Byte.x03])) ∅ tt in
  let st := mk_write 19 0 in
  (WriteMemory_finish st = inr [] ∧
     ∀ x, mem (debug d) (kernel w') x = written (mem (debug d) (kernel w)) 16 (concat pieces) x) ∨
  (∃ pre b post k code, pieces = pre ++ b :: post ∧ WriteMemory_finish st = inl code ∧
     (∀ x, mem (debug d) k x = written (mem (debug d) (kernel w)) 16 (concat pre) x) ∧
     svcWriteDebugProcessMemory (debug d) (u64 (16 + zlen (concat pre))) b k = (code, kernel w')).
Proof.
  intros d pieces w w' st. apply (write_memory_stream d pieces 16 w w' st); [reflexivity|lia|reflexivity].
Defined.
End Debugger.
