(* ===== verification/GdbDevice.v ===== *)
(** * The GDB server over the device's debuggers

    [GdbStub] is proved against the class [ITwibDebugger], whose calls are remote ones.  Here the
    class is implemented by the handlers of [Debugger]: a connection with the debuggers that were
    opened through it; twib/tool/interfaces/ITwibDebugger.cpp turns their answers into values.
    That arguments and results survive the wire is shown in [Interfaces] and [ToolClient].  When a
    handler ends the device's program, this and all later calls fail. *)
From stdpp Require Import gmap.
From S2P Require Import Prelude Err Protocol Response Kernel Debugger.
From S2P Require GdbStub.
Import Protocol.

Module GdbDevice.
Import Err Kernel.

(** ** What the tool makes of an answer *)

Definition decode_exception (n : Z) : GdbStub.ExceptionType :=
  match n with
  | 0 => GdbStub.Trap | 1 => GdbStub.InstructionAbort | 2 => GdbStub.DataAbortMisc | 3 => GdbStub.PcSpAlignmentFault
  | 4 => GdbStub.DebuggerAttached | 5 => GdbStub.BreakPoint | 6 => GdbStub.UserBreak | 7 => GdbStub.DebuggerBreak
  | 8 => GdbStub.BadSvcId | 9 => GdbStub.SError | _ => GdbStub.UnknownException
  end.
Definition decode_event (e : debug_event) : GdbStub.DebugEvent :=
  GdbStub.mk_DebugEvent
    match event_type e with
    | 0 => GdbStub.AttachProcess
    | 1 => GdbStub.AttachThread (attach_thread_id e) (attach_tls_pointer e)
    | 2 => GdbStub.ExitProcess
    | 3 => GdbStub.ExitThread
    | 4 => GdbStub.Exception (decode_exception (exception_type e))
    | _ => GdbStub.UnknownEvent
    end (thread_id e).
Definition decode_context (c : bytes) : GdbStub.ThreadContext :=
  GdbStub.mk_ThreadContext (slice 0 268 c) (field 268 4 c) (slice 272 520 c) (field 792 8 c).
Definition encode_context (c : GdbStub.ThreadContext) : bytes :=
  GdbStub.tc_x c ++ le_split 4 (GdbStub.tc_pad c) ++ GdbStub.tc_fpr c ++ le_split 8 (GdbStub.tc_tpidr c).
Definition decode_module (m : bytes) : GdbStub.LoadedModuleInfo :=
  GdbStub.mk_LoadedModuleInfo (slice 0 32 m) (field 32 8 m) (field 40 8 m).

(** A code, or the result when it has the shape that is expected. *)
Definition result {A} (f : list Response.value → option A) (a : Debugger.answer) : A + Z :=
  match a with
  | inl code => inr code
  | inr vs => match f vs with Some x => inl x | None => inr TWILI_ERR_PROTOCOL_BAD_RESPONSE end
  end.
Definition no_result (vs : list Response.value) : option unit := match vs with [] => Some tt | _ => None end.
Definition bytes_result (vs : list Response.value) : option bytes :=
  match vs with [Response.VVector 1 l] => Some (concat l) | _ => None end.
Definition modules_result (vs : list Response.value) : option (list GdbStub.LoadedModuleInfo) :=
  match vs with [Response.VVector 48 l] => Some (map decode_module l) | _ => None end.
Definition pod_result {A} (f : bytes → A) (vs : list Response.value) : option A :=
  match vs with [Response.VPod b] => Some (f b) | _ => None end.
(** [GetDebugEvent]: the code for no event is not an error. *)
Definition event_result (a : Debugger.answer) : option GdbStub.DebugEvent + Z :=
  match a with
  | inl code => if code =? no_event then inl None else inr code
  | inr _ => match result (pod_result decode_event) a with inl e => inl (Some e) | inr c => inr c end
  end.

(** ** The connection *)

Section device.
Context {K P : Type} `{!debug_svc K, !Debugger.monitored P, !Debugger.module_services K, !Debugger.event_laws K}.
(** The memory for requests, the code of calls on a lost connection,
    the pieces a stream arrives in, the fuel of the search for the entry, the wait for a title. *)
Context (heap lost : Z) (cut : bytes → list bytes) (map_fuel : nat).
Context (await_title : Z → @Debugger.twili K P → Z + Z).

Record remote : Type := mk_remote {
  dev : @Debugger.twili K P; debuggers : omap Debugger.debugger; next_object_id : Z }.
Definition connection : Type := option remote.

(** A request to the debugger [h]. *)
Definition request {A} (h : Z) (f : Debugger.debugger → @Debugger.twili K P → outcome (A * Debugger.debugger * @Debugger.twili K P))
    (w : connection) : connection * (A + Z) :=
  match w with
  | None => (None, inr lost)
  | Some r =>
      match om_find h (debuggers r) with
      | None => (Some r, inr TWILI_ERR_PROTOCOL_UNRECOGNIZED_OBJECT)
      | Some d =>
          match f d (dev r) with
          | Done (a, d, v) => (Some (mk_remote v (om_set h d (debuggers r)) (next_object_id r)), inl a)
          | _ => (None, inr lost)
          end
      end
  end.
Definition flat {A B} (f : A → B + Z) (o : connection * (A + Z)) : connection * (B + Z) :=
  (o.1, match o.2 with inl a => f a | inr code => inr code end).
Definition asks {B} (f : list Response.value → option B) (h : Z)
    (g : Debugger.debugger → @Debugger.twili K P → outcome (Debugger.answer * @Debugger.twili K P)) (w : connection) :
    connection * (B + Z) :=
  flat (result f) (request h (fun d v => '(a, v) ← g d v; Done (a, d, v)) w).

Definition pump_fuel (d : Debugger.debugger) (v : @Debugger.twili K P) : nat :=
  S (length (Debugger.pending (Debugger.debug d) (Debugger.kernel v))).

#[export] Instance device_debugger : GdbStub.ITwibDebugger connection := {
  GetThreadContext := fun h tid => asks (pod_result decode_context) h (fun d v => Done (Debugger.GetThreadContext tid d v, v));
  SetThreadContext := fun h tid c =>
    asks no_result h (fun d v => Done (Debugger.SetThreadContext tid 15 (encode_context c) d v));
  ReadMemory := fun h addr size =>
    (* the size is a uint64_t *)
    if bool_decide (0 ≤ size < 2 ^ 64)
    then asks bytes_result h (fun d v => a ← Debugger.ReadMemory heap addr size d v; Done (a, v))
    else fun w => (w, inr lost);
  WriteMemory := fun h addr data => asks no_result h (fun d v =>
    let '(st, v) := Debugger.receive_all d (cut data) (Debugger.WriteMemory addr) v in
    Done (Debugger.WriteMemory_finish st, v));
  GetDebugEvent := fun h w => flat event_result (request h (fun d v => Debugger.GetDebugEvent (pump_fuel d v) d v) w);
  ContinueDebugEvent := fun h flags tids => asks no_result h (fun d v => Done (Debugger.ContinueDebugEvent flags tids d v));
  BreakProcess := fun h => asks no_result h (fun d v => Done (Debugger.BreakProcess d v));
  AsyncWait := fun h w => (request h (fun d v => Done (tt, (Debugger.WaitEvent h d).2, v)) w).1;
  GetTargetEntry := fun h =>
    asks (pod_result le_combine) h (fun d v => a ← Debugger.GetTargetEntry_handler map_fuel d v; Done (a, v));
  LaunchDebugProcess := fun h => asks no_result h Debugger.LaunchDebugProcess;
  GetNsoInfos := fun h => asks modules_result h Debugger.GetNsoInfos_handler;
  GetNroInfos := fun h => asks modules_result h Debugger.GetNroInfos_handler }.

(** ITwibDeviceInterface: a new debugger is an object of the connection; waiting for an
    application is not implemented by the device. *)
Definition open_fuel (pid : Z) (v : @Debugger.twili K P) : nat :=
  match svcDebugActiveProcess pid (Debugger.kernel v) with
  | (inr h, k) => S (length (Debugger.pending h k))
  | _ => O
  end.
#[export] Instance device_interface : GdbStub.ITwibDeviceInterface connection := {
  OpenActiveDebugger := fun pid w =>
    match w with
    | None => (None, inr lost)
    | Some r =>
        match Debugger.OpenActiveDebugger (open_fuel pid (dev r)) pid (dev r) with
        | Done (inl code, v) => (Some (mk_remote v (debuggers r) (next_object_id r)), inr code)
        | Done (inr d, v) =>
            (Some (mk_remote v (om_emplace (next_object_id r) d (debuggers r)) (u32 (next_object_id r + 1))),
             inl (next_object_id r))
        | _ => (None, inr lost)
        end
    end;
  WaitToDebugApplication := fun w => (w, inr TWILI_ERR_TODO);
  WaitToDebugTitle := fun tid w => (w, match w with None => inr lost | Some r => await_title tid (dev r) end) }.

(** ** The promises of the class *)

Lemma zlen_concat_singletons (l : bytes) : concat (map (fun b => [b]) l) = l.
Proof. induction l as [|b l IH]; cbn; [done|]. by rewrite IH. Qed.

#[export] Instance device_sized : GdbStub.GdbStub.SizedMemory connection.
Proof.
  intros h addr size w w' v. cbn [GdbStub.ReadMemory device_debugger]. case_bool_decide as Hs; [|done].
  unfold asks, flat, request. destruct w as [r|]; [|done]. destruct (om_find h (debuggers r)) as [d|]; [|done].
  destruct (Debugger.ReadMemory heap addr size d (dev r)) as [a| | | |] eqn:E; try done. cbn. intros [= _ Ha].
  apply bind_Done_inv in E as ([] & _ & E). destruct (svcReadDebugProcessMemory _ _ _ _) as [code|data]; injection E as <-; [done|].
  cbn in Ha. injection Ha as <-. rewrite zlen_concat_singletons. unfold Debugger.buffer_of.
  rewrite zlen_ztake, zlen_app, zlen_zreplicate. zlen_facts. lia.
Qed.

(** The events a debugger has still to give. *)
Definition to_give (h : Z) (w : connection) : list debug_event :=
  match w with
  | Some r =>
      match om_find h (debuggers r) with
      | Some d => Debugger.event_queue d ++ Debugger.pending (Debugger.debug d) (Debugger.kernel (dev r))
      | None => []
      end
  | None => []
  end.

Lemma give_event h w w' e :
  GdbStub.GetDebugEvent h w = (w', inl (Some e)) → ∃ x, e = decode_event x ∧ to_give h w = x :: to_give h w'.
Proof.
  cbn [GdbStub.GetDebugEvent device_debugger]. unfold flat, request, to_give. destruct w as [r|]; [|done].
  destruct (om_find h (debuggers r)) as [d|] eqn:Ed; [|done].
  destruct (Debugger.GetDebugEvent _ d (dev r)) as [[[a d1] v1]| | | |] eqn:E; try done. cbn [fst snd]. intros [= <- Ha].
  cbn [debuggers dev]. rewrite om_find_set, Z.eqb_refl, Ed. cbn [fmap option_fmap option_map].
  unfold Debugger.GetDebugEvent in E. apply bind_Done_inv in E as ([d2 v2] & (Hq & Hp & _ & Hd & _)%Debugger.PumpEvents_spec & E).
  destruct (Debugger.event_queue d2) as [|x q] eqn:Eq; injection E as <- <- <-; [done|].
  cbn in Ha. injection Ha as <-. exists x. split; [done|]. rewrite <- Hq. cbn. by rewrite Hd, Hp, app_nil_r.
Qed.

#[export] Instance device_finite : GdbStub.FiniteEvents connection.
Proof.
  refine {| GdbStub.pending := fun h w => length (to_give h w) |}.
  intros h w w' e (x & _ & ->)%give_event. cbn. lia.
Defined.

(** The process is announced once, when the debugger is made: no such event is in the kernel. *)
Definition announced (h : Z) (w : connection) : Prop :=
  match w with
  | Some r =>
      match om_find h (debuggers r) with
      | Some d => Forall (fun e => event_type e ≠ ATTACH_PROCESS) (Debugger.pending (Debugger.debug d) (Debugger.kernel (dev r)))
      | None => False
      end
  | None => False
  end.

Lemma PumpEvents_done fuel (d : Debugger.debugger) (v : @Debugger.twili K P) :
  (length (Debugger.pending (Debugger.debug d) (Debugger.kernel v)) < fuel)%nat →
  Forall (fun e => event_type e ≠ ATTACH_PROCESS) (Debugger.pending (Debugger.debug d) (Debugger.kernel v)) →
  ∃ o, Debugger.PumpEvents fuel d v = Done o.
Proof.
  revert d v. induction fuel as [|fuel IH]; intros d v Hf Ha; [lia|]. cbn [Debugger.PumpEvents].
  destruct (Debugger.pending (Debugger.debug d) (Debugger.kernel v)) as [|e es] eqn:Ep.
  - destruct (Debugger.get_none _ _ Ep) as (k' & -> & _). rewrite Z.eqb_refl. by eexists.
  - destruct (Debugger.get_event _ _ _ _ Ep) as (k' & -> & _ & Hp). cbv zeta. apply Forall_cons in Ha as [He Ha].
    rewrite (proj2 (Z.eqb_neq _ _) He). apply IH; cbn; rewrite Hp; [cbn in Hf; lia|done].
Qed.

Lemma take_event h w x l :
  announced h w → to_give h w = x :: l →
  ∃ w', GdbStub.GetDebugEvent h w = (w', inl (Some (decode_event x))) ∧ announced h w' ∧ to_give h w' = l.
Proof.
  cbn [GdbStub.GetDebugEvent device_debugger]. unfold announced, to_give, flat, request.
  destruct w as [r|]; [|done]. destruct (om_find h (debuggers r)) as [d|] eqn:Ed; [|done]. intros Ha Hg.
  destruct (PumpEvents_done (pump_fuel d (dev r)) d (dev r)) as ([d2 v2] & E); [unfold pump_fuel; lia|done|].
  pose proof E as (Hq & Hp & _ & Hd & _)%Debugger.PumpEvents_spec. rewrite Hg in Hq.
  unfold Debugger.GetDebugEvent. rewrite E. cbn [mbind outcome_bind]. rewrite Hq. cbn [fst snd].
  eexists. split; [done|]. cbn [debuggers dev]. rewrite om_find_set, Z.eqb_refl, Ed. cbn.
  rewrite Hd, Hp. split; [constructor|]. by rewrite app_nil_r.
Qed.

Lemma device_delivers h w es l :
  announced h w → to_give h w = es ++ l →
  ∃ w', GdbStub.GdbStub.delivers h w (map decode_event es) w' ∧ announced h w' ∧ to_give h w' = l.
Proof.
  revert w. induction es as [|x es IH]; intros w Ha Hg.
  - exists w. split_and!; [constructor|done|done].
  - destruct (take_event h w x (es ++ l) Ha Hg) as (w1 & E & Ha1 & Hg1).
    destruct (IH w1 Ha1 Hg1) as (w2 & Hd & Ha2 & Hg2). exists w2. split_and!; [|done|done].
    by eapply GdbStub.GdbStub.delivers_cons.
Qed.
End device.

(** ** Theorems *)


#[local] Existing Instances Debugger.ex_svc Debugger.ex_modules Debugger.ex_monitored Debugger.ex_events.

(** An attached server over the example kernel, with an event in the queue and one in the kernel. *)
Definition ex_exception (tid type : Z) : debug_event :=
  encode_fields [(4%nat, EXCEPTION); (4%nat, 0); (8%nat, tid); (4%nat, type)].
Definition ex_thread (tid tls : Z) : debug_event :=
  encode_fields [(4%nat, ATTACH_THREAD); (4%nat, 0); (8%nat, 0); (8%nat, tid); (8%nat, tls)].
Definition ex_connection : @connection Debugger.ex_kernel unit :=
  Some (mk_remote
    (Debugger.mk_twili (Debugger.mk_ex [ex_thread 2 512; ex_exception 2 5] [ex_exception 2 5] (fun _ => Byte.x00)) {[5]} tt)
    [(7, Debugger.mk_debugger 9 [ex_thread 2 512] 5 None None)] 8).
Definition ex_stub : GdbStub.GdbStub.stub (@connection Debugger.ex_kernel unit) :=
  GdbStub.GdbStub.mk_stub ex_connection GdbConnection.GdbConnection.init [] GdbStub.GdbStub.GdbStub_registry
    (Some (81, 1))
    [(81, GdbStub.GdbStub.mk_Process 81 7 [(1, GdbStub.GdbStub.mk_Thread 1 8192)] [1] true true)]
    (str "W00") true false true (GdbStub.GdbStub.mk_thread_info false None GdbStub.GdbStub.TEnd) false.

Lemma ex_stub_wf : GdbStub.GdbStub.wf ex_stub.
Proof.
  split; try done.
  - repeat constructor.
  - intros k q. unfold ex_stub. cbn [GdbStub.GdbStub.attached_processes om_find].
    destruct (Z.eqb_spec 81 k) as [<-|]; [|done]. intros [= <-].
    split_and!; [done|repeat constructor; lia|]. intros t th. cbn [GdbStub.GdbStub.threads om_find].
    destruct (Z.eqb_spec 1 t); [by intros [= <-]|done].
  - intros p t [= <- <-]. by eexists _, _.
Qed.


(** C5: a stop, from the kernel to the packet.  The events of a debugged process wait in the
    debugger's queue and in the kernel.  If those before the first exception change threads only,
    the server takes exactly them, in order, reports a stop with the signal of the kernel's
    exception and the thread it names, and its thread map is what the kernel's events make of it. *)
Theorem gdb_stop_on_device {K P} `{!debug_svc K, !Debugger.monitored P, !Debugger.module_services K, !Debugger.event_laws K}
    heap lost cut map_fuel fuel (s : GdbStub.GdbStub.stub (@connection K P)) p q es x rest :
  let I := device_debugger heap lost cut map_fuel in
  om_find p (GdbStub.GdbStub.attached_processes s) = Some q → GdbStub.GdbStub.pid q = p →
  GdbStub.GdbStub.thread_events_enabled s = false →
  announced (GdbStub.GdbStub.debugger q) (GdbStub.GdbStub.world s) →
  to_give (GdbStub.GdbStub.debugger q) (GdbStub.GdbStub.world s) = es ++ x :: rest →
  Forall (fun e => GdbStub.GdbStub.passes (decode_event e)) es → event_type x = EXCEPTION → thread_id x ≠ 0 →
  (length es + 2 ≤ fuel)%nat →
  ∃ s' q', GdbStub.GdbStub.IngestEvents fuel s p = Done (s', true) ∧
    GdbStub.GdbStub.stop_reason s' = str "T" ++
      GdbConnection.GdbConnection.Encode (GdbStub.GdbStub.signal_of (decode_exception (exception_type x)) 0) 1 ++
      str "thread:p" ++ GdbConnection.GdbConnection.Encode p 0 ++ str "." ++
      GdbConnection.GdbConnection.Encode (thread_id x) 0 ++ str ";" ∧
    om_find p (GdbStub.GdbStub.attached_processes s') = Some q' ∧ GdbStub.GdbStub.running q' = false ∧
    GdbStub.GdbStub.threads q' = foldl GdbStub.GdbStub.track (GdbStub.GdbStub.threads q) (map decode_event es).
Proof.
  intros I Hq Hpid Hte Ha Hg Hes Hx Ht Hf.
  destruct (device_delivers heap lost cut map_fuel _ _ es (x :: rest) Ha Hg) as (w1 & Hd & Ha1 & Hg1).
  destruct (take_event heap lost cut map_fuel _ _ x rest Ha1 Hg1) as (w2 & E & _).
  apply (GdbStub.GdbStub.IngestEvents_stop fuel s p q (map decode_event es) (decode_event x)
    (decode_exception (exception_type x)) w1 w2); try done.
  - by apply Forall_map.
  - unfold decode_event. cbn [GdbStub.event_type]. by rewrite Hx.
  - by rewrite length_map.
Qed.

Lemma gdb_stop_on_device_witness :
  let I := @device_debugger Debugger.ex_kernel unit _ _ _ _ 4096 1 (fun d => [d]) 4 in
  ∃ s' q', GdbStub.GdbStub.IngestEvents 3 ex_stub 81 = Done (s', true) ∧
    GdbStub.GdbStub.stop_reason s' = str "T05thread:p51.02;" ∧
    om_find 81 (GdbStub.GdbStub.attached_processes s') = Some q' ∧ GdbStub.GdbStub.running q' = false ∧
    GdbStub.GdbStub.threads q' = [(1, GdbStub.GdbStub.mk_Thread 1 8192); (2, GdbStub.GdbStub.mk_Thread 2 512)].
Proof.
  intros I. apply (gdb_stop_on_device 4096 1 (fun d => [d]) 4 3 ex_stub 81
    (GdbStub.GdbStub.mk_Process 81 7 [(1, GdbStub.GdbStub.mk_Thread 1 8192)] [1] true true)
    [ex_thread 2 512] (ex_exception 2 5) []); try reflexivity.
  - vm_compute. constructor; [discriminate|constructor].
  - constructor; [vm_compute; exact Logic.I|constructor].
  - vm_compute. discriminate.
Defined.
End GdbDevice.
