(* ===== verification/Tipc.v ===== *)
(** * twili/tipc.hpp: requests to services that speak TIPC

    A request is packed into the thread's message buffer, the kernel hands the buffer to the
    service, and the response is unpacked from it.  An argument of the template pack is a value of
    [arg]; the message buffer is its bytes, which keep what was in them where nothing is written.
    Handing the buffer over is an argument of the definitions ([svcSendSyncRequest]). *)
From S2P Require Import Prelude Err Protocol Kernel.
Import Protocol.

Module Tipc.
Import Err.

(** ** The arguments *)

(** Data that goes in, with its alignment; the size and alignment of data that comes out; handles,
    objects and the process id. *)
Inductive arg : Type :=
| InRaw (alignment : Z) (value : bytes)
| OutRaw (size alignment : Z)
| InHandle (handle : Z)
| OutHandle
| OutObject
| InPid
| OutPid.
Inductive out : Type := Nothing | Raw (data : bytes) | Handle (h : Z) | Object (h : Z) | Pid (pid : Z).

(** What a handler class says of its argument. *)
Definition in_item (a : arg) : Z * Z := match a with InRaw al v => (zlen v, al) | _ => (0, 1) end.
Definition in_special (a : arg) : bool := match a with InHandle _ | InPid => true | _ => false end.
Definition in_pid (a : arg) : bool := match a with InPid => true | _ => false end.
Definition in_handles (a : arg) : list Z := match a with InHandle h => [h] | _ => [] end.
Definition out_item (a : arg) : Z * Z := match a with OutRaw size al => (size, al) | _ => (0, 1) end.
Definition out_special (a : arg) : bool := match a with OutHandle | OutObject | OutPid => true | _ => false end.
Definition out_pid (a : arg) : bool := match a with OutPid => true | _ => false end.
Definition out_handles (a : arg) : Z := match a with OutHandle => 1 | _ => 0 end.
Definition out_objects (a : arg) : Z := match a with OutObject => 1 | _ => 0 end.

Definition any (f : arg → bool) (args : list arg) : bool := existsb f args.
Definition sum (f : arg → Z) (args : list arg) : Z := foldr (fun a n => f a + n) 0 args.

(** ** RawLayout *)

Definition align (offset alignment : Z) : Z := (offset + (alignment - 1)) / alignment * alignment.
(** The offset of each item, and the total size. *)
Fixpoint layout (offset : Z) (items : list (Z * Z)) : list Z * Z :=
  match items with
  | [] => ([], offset)
  | (size, al) :: items =>
      let here := align offset al in
      let '(l, total) := layout (here + size) items in (here :: l, total)
  end.
(** The number of words; none without arguments. *)
Definition TotalCount (items : list (Z * Z)) : Z :=
  match items with [] => 0 | _ => ((layout 0 items).2 + 3) / 4 end.

(** ** The message buffer *)

Definition BUFFER : Z := 256.
Definition store (offset : Z) (data buffer : bytes) : outcome bytes :=
  if offset + zlen data <=? zlen buffer then Done (overwrite buffer offset data) else Undefined.
Definition load (offset n : Z) (buffer : bytes) : outcome bytes :=
  if offset + n <=? zlen buffer then Done (Kernel.slice offset n buffer) else Undefined.
Definition put (i word : Z) (buffer : bytes) : outcome bytes := store (4 * i) (le_split 4 word) buffer.
Definition get (i : Z) (buffer : bytes) : outcome Z := b ← load (4 * i) 4 buffer; Done (le_combine b).

(** [FillHandle] of each argument. *)
Fixpoint fill_handles (handles : list Z) (i : Z) (buffer : bytes) : outcome (Z * bytes) :=
  match handles with
  | [] => Done (i, buffer)
  | h :: handles => buffer ← put i h buffer; fill_handles handles (i + 1) buffer
  end.
(** [Layout::Pack]: the data of each argument at its offset. *)
Fixpoint pack_raw (base : Z) (offsets : list Z) (args : list arg) (buffer : bytes) : outcome bytes :=
  match offsets, args with
  | o :: offsets, a :: args =>
      buffer ← match a with InRaw _ v => store (base + o) v buffer | _ => Done buffer end;
      pack_raw base offsets args buffer
  | _, _ => Done buffer
  end.

Definition bit (b : bool) : Z := if b then 1 else 0.
Definition PackRequest (request_tag : Z) (args : list arg) (buffer : bytes) : outcome bytes :=
  let items := map in_item args in
  let special := any in_special args in
  buffer ← put 0 (Z.land request_tag 0xffff) buffer;
  buffer ← put 1 (Z.lor (Z.land (TotalCount items) 0x3ff) (Z.shiftl (bit special) 31)) buffer;
  '(i, buffer) ← (if special then
      buffer ← put 2 (Z.lor (bit (any in_pid args)) (Z.shiftl (Z.land (zlen (args ≫= in_handles)) 0xf) 1)) buffer;
      '(i, buffer) ← (if any in_pid args
                      then buffer ← put 3 0 buffer; buffer ← put 4 0 buffer; Done (5, buffer)
                      else Done (3, buffer));
      fill_handles (args ≫= in_handles) i buffer
    else Done (2, buffer));
  pack_raw (4 * i) (layout 0 items).1 args buffer.

(** ** The response *)

Definition nothing (args : list arg) : list out := map (fun _ => Nothing) args.
Definition take_pid (pid : Z) (args : list arg) (outs : list out) : list out :=
  zip_with (fun a o => if out_pid a then Pid pid else o) args outs.
Fixpoint take_handles (i : Z) (args : list arg) (outs : list out) (buffer : bytes) : outcome (Z * list out) :=
  match args, outs with
  | a :: args, o :: outs =>
      match a with
      | OutHandle =>
          h ← get i buffer; '(i, outs) ← take_handles (i + 1) args outs buffer; Done (i, Handle h :: outs)
      | _ => '(i, outs) ← take_handles i args outs buffer; Done (i, o :: outs)
      end
  | _, _ => Done (i, outs)
  end.
Fixpoint take_objects (i : Z) (args : list arg) (outs : list out) (buffer : bytes) : outcome (Z * list out) :=
  match args, outs with
  | a :: args, o :: outs =>
      match a with
      | OutObject =>
          h ← get i buffer; '(i, outs) ← take_objects (i + 1) args outs buffer; Done (i, Object h :: outs)
      | _ => '(i, outs) ← take_objects i args outs buffer; Done (i, o :: outs)
      end
  | _, _ => Done (i, outs)
  end.
Fixpoint unpack_raw (base : Z) (offsets : list Z) (args : list arg) (outs : list out) (buffer : bytes) :
    outcome (list out) :=
  match offsets, args, outs with
  | o :: offsets, a :: args, x :: outs =>
      x ← match a with OutRaw size _ => b ← load (base + o) size buffer; Done (Raw b) | _ => Done x end;
      outs ← unpack_raw base offsets args outs buffer; Done (x :: outs)
  | _, _, _ => Done outs
  end.

(** The special header, the process id and the handles.  The id is read as one word of eight bytes
    that need not be aligned to eight, which the language leaves undefined; it is modelled as the
    processor reads it. *)
Definition unpack_special_header (args : list arg) (outs : list out) (buffer : bytes) :
    outcome (Z + (Z * list out)) :=
  sh0 ← get 2 buffer;
  let has_process_id := negb (Z.land sh0 1 =? 0) in
  if negb (bool_decide (has_process_id = any out_pid args)) then Done (inl TWILI_TIPC_ERR_UNEXPECTED_RESPONSE_PID)
  else if negb (Z.land (Z.shiftr sh0 1) 0xf =? sum out_handles args)
  then Done (inl TWILI_TIPC_ERR_UNEXPECTED_RESPONSE_COPY_HANDLE_COUNT)
  else if negb (Z.land (Z.shiftr sh0 5) 0xf =? sum out_objects args)
  then Done (inl TWILI_TIPC_ERR_UNEXPECTED_RESPONSE_MOVE_HANDLE_COUNT)
  else
    '(i, outs) ← (if has_process_id
                  then b ← load 12 8 buffer; Done (5, take_pid (le_combine b) args outs)
                  else Done (3, outs));
    '(i, outs) ← take_handles i args outs buffer;
    '(i, outs) ← take_objects i args outs buffer;
    Done (inr (i, outs)).

(** A code, or what came out of each argument. *)
Definition UnpackResponse (expected_tag : Z) (args : list arg) (buffer : bytes) : outcome (Z + list out) :=
  mh0 ← get 0 buffer;
  mh1 ← get 1 buffer;
  let items := map out_item args in
  let raw_count := Z.land mh1 0x3ff in
  let has_special_header := negb (Z.shiftr mh1 31 =? 0) in
  if negb (Z.land mh0 0xffff =? expected_tag) then Done (inl TWILI_TIPC_ERR_UNEXPECTED_RESPONSE_TAG)
  else if raw_count <? 1 then Done (inl TWILI_TIPC_ERR_UNEXPECTED_RESPONSE_RAW_COUNT)
  else if negb (raw_count - 1 =? TotalCount items) then Done (inl TWILI_TIPC_ERR_UNEXPECTED_RESPONSE_RAW_COUNT)
  else if negb (bool_decide (has_special_header = any out_special args))
  then Done (inl TWILI_TIPC_ERR_UNEXPECTED_RESPONSE_SPECIAL_HEADER)
  else
    let outs := nothing args in
    o ← (if has_special_header then unpack_special_header args outs buffer else Done (inr (2, outs)));
    match o with
    | inl code => Done (inl code)
    | inr (i, outs) =>
        result ← get i buffer;
        if negb (result =? 0) then Done (inl result)
        else outs ← unpack_raw (4 * (i + 1)) (layout 0 items).1 args outs buffer; Done (inr outs)
    end.

(** ** Object *)

Section object.
Context {K : Type} (svcSendSyncRequest : Z → bytes → K → Z * bytes * K) (svcCloseHandle : Z → K → K).

Record t : Type := mk_object { is_valid : bool; handle : Z }.
Definition invalid : t := mk_object false 0.

(** [buffer] is the thread's message buffer before. *)
Definition SendSyncRequest (id : Z) (args : list arg) (o : t) (buffer : bytes) (k : K) :
    outcome ((Z + list out) * bytes * K) :=
  buffer ← PackRequest (id + 16) args buffer;
  let '(r, buffer, k) := svcSendSyncRequest (handle o) buffer k in
  if negb (r =? 0) then Done (inl r, buffer, k)
  else res ← UnpackResponse (id + 16) args buffer; Done (res, buffer, k).

Definition Close (o : t) (buffer : bytes) (k : K) : outcome (t * bytes * K) :=
  buffer ← PackRequest 15 [] buffer;
  let '(_, buffer, k) := svcSendSyncRequest (handle o) buffer k in
  Done (mk_object false (handle o), buffer, svcCloseHandle (handle o) k).
Definition destroy (o : t) (buffer : bytes) (k : K) : outcome (bytes * K) :=
  if is_valid o then '(_, buffer, k) ← Close o buffer k; Done (buffer, k) else Done (buffer, k).
(** The move assignment: both objects afterwards. *)
Definition move_assign (this other : t) (buffer : bytes) (k : K) : outcome (t * t * bytes * K) :=
  '(buffer, k) ← destroy this buffer k;
  Done (mk_object (is_valid other) (handle other), mk_object false (handle other), buffer, k).
Definition move (other : t) : t * t := (other, mk_object false (handle other)).
End object.

(** ** A service's view *)

(** What a service finds in a request. *)
Record request_view : Type := mk_request { rq_tag : Z; rq_pid : bool; rq_handles : list Z; rq_raw : bytes }.
Definition words (n : nat) (l : bytes) : list Z := Kernel.read_fields (replicate n 4%nat) l.
Definition parse_request (b : bytes) : request_view :=
  let mh1 := Kernel.field 4 4 b in
  let special := negb (Z.shiftr mh1 31 =? 0) in
  let sh0 := Kernel.field 8 4 b in
  let pid := special && negb (Z.land sh0 1 =? 0) in
  let handles := if special then Z.land (Z.shiftr sh0 1) 0xf else 0 in
  let start := 8 + 4 * bit special + 8 * bit pid in
  mk_request (Z.land (Kernel.field 0 4 b) 0xffff) pid (words (Z.to_nat handles) (zdrop start b))
    (Kernel.slice (start + 4 * handles) (4 * Z.land mh1 0x3ff) b).

(** What it answers: the code, the process id, handles that are copied and objects that are moved,
    and data in whole words. *)
Record reply : Type := mk_reply { rp_result : Z; rp_pid : Z; rp_copied : list Z; rp_moved : list Z; rp_data : bytes }.
Definition build_reply (tag : Z) (args : list arg) (rp : reply) : bytes :=
  le_split 4 tag ++
  le_split 4 (Z.lor (1 + zlen (rp_data rp) / 4) (Z.shiftl (bit (any out_special args)) 31)) ++
  (if any out_special args then
     le_split 4 (Z.lor (bit (any out_pid args)) (Z.lor (Z.shiftl (zlen (rp_copied rp)) 1) (Z.shiftl (zlen (rp_moved rp)) 5))) ++
     (if any out_pid args then le_split 8 (rp_pid rp) else [])
   else []) ++
  encode_u32s (rp_copied rp ++ rp_moved rp) ++ le_split 4 (rp_result rp) ++ rp_data rp.

(** The data of a reply under the arguments it is for. *)
Fixpoint outputs (offsets : list Z) (args : list arg) (copied moved : list Z) (pid : Z) (data : bytes) : list out :=
  match offsets, args with
  | o :: offsets, a :: args =>
      match a with
      | OutRaw size _ => Raw (Kernel.slice o size data) :: outputs offsets args copied moved pid data
      | OutHandle => Handle (default 0 (head copied)) :: outputs offsets args (tail copied) moved pid data
      | OutObject => Object (default 0 (head moved)) :: outputs offsets args copied (tail moved) pid data
      | OutPid => Pid pid :: outputs offsets args copied moved pid data
      | _ => Nothing :: outputs offsets args copied moved pid data
      end
  | _, _ => []
  end.

Definition arg_ok (a : arg) : Prop :=
  match a with
  | InRaw al v => 0 < al
  | OutRaw size al => 0 ≤ size ∧ 0 < al
  | InHandle h => 0 ≤ h < 2 ^ 32
  | _ => True
  end.

(** ** Lemmas: layout *)

Lemma align_spec offset al : 0 < al → offset ≤ align offset al < offset + al ∧ (al | align offset al).
Proof.
  intros Ha. unfold align. split; [|apply Z.divide_factor_r].
  pose proof (Z.div_mod (offset + (al - 1)) al) as E. pose proof (Z.mod_pos_bound (offset + (al - 1)) al Ha). nia.
Qed.

(** The offsets follow each other without overlap, up to the total, each a multiple of its
    alignment. *)
Inductive fits : Z → list Z → list (Z * Z) → Z → Prop :=
| fits_nil a total : a ≤ total → fits a [] [] total
| fits_cons a o l size al items total :
    a ≤ o → (al | o) → 0 ≤ size → fits (o + size) l items total → fits a (o :: l) ((size, al) :: items) total.

Lemma layout_fits a items :
  Forall (fun i => 0 ≤ i.1 ∧ 0 < i.2) items → fits a (layout a items).1 items (layout a items).2.
Proof.
  intros Hi. revert a. induction Hi as [|[size al] items [Hs Ha] _ IH]; intros a; cbn [layout].
  - by constructor.
  - specialize (IH (align a al + size)). destruct (layout (align a al + size) items) as [l total]. cbn [fst snd] in *.
    destruct (align_spec a al Ha). by constructor; [lia|..].
Qed.
Lemma fits_le a l items total : fits a l items total → a ≤ total.
Proof. induction 1; lia. Qed.

Lemma in_items_ok args : Forall arg_ok args → Forall (fun i => 0 ≤ i.1 ∧ 0 < i.2) (map in_item args).
Proof.
  intros H. apply Forall_map. eapply Forall_impl; [exact H|]. intros [] Ha; cbn in *; zlen_facts; lia.
Qed.
Lemma out_items_ok args : Forall arg_ok args → Forall (fun i => 0 ≤ i.1 ∧ 0 < i.2) (map out_item args).
Proof. intros H. apply Forall_map. eapply Forall_impl; [exact H|]. intros [] Ha; cbn in *; lia. Qed.

(** Whole words hold the data. *)
Lemma TotalCount_spec items :
  Forall (fun i => 0 ≤ i.1 ∧ 0 < i.2) items → 0 ≤ (layout 0 items).2 ≤ 4 * TotalCount items.
Proof.
  intros Hi. pose proof (fits_le _ _ _ _ (layout_fits 0 items Hi)). unfold TotalCount.
  destruct items; [cbn in *; lia|]. Z.to_euclidean_division_equations; lia.
Qed.

(** ** Lemmas: the buffer *)

Lemma overwrite_front (l r data : bytes) off :
  off = zlen l → zlen data ≤ zlen r → overwrite (l ++ r) off data = l ++ data ++ zdrop (zlen data) r.
Proof.
  intros -> Hd. unfold overwrite. rewrite ztake_app by done. f_equal. f_equal.
  rewrite zdrop_app_ge by (zlen_facts; lia). f_equal. lia.
Qed.

Lemma put_next i w pre rest :
  zlen pre = 4 * i → 4 ≤ zlen rest → put i w (pre ++ rest) = Done ((pre ++ le_split 4 w) ++ zdrop 4 rest).
Proof.
  intros Hp Hr. unfold put, store. rewrite zlen_app, zlen_le_split.
  rewrite (proj2 (Z.leb_le _ _)) by lia. rewrite overwrite_front by (rewrite ?zlen_le_split; lia).
  rewrite zlen_le_split. by rewrite <- app_assoc.
Qed.

Lemma fill_handles_spec handles i pre rest :
  zlen pre = 4 * i → 4 * zlen handles ≤ zlen rest →
  fill_handles handles i (pre ++ rest) =
    Done (i + zlen handles, (pre ++ encode_u32s handles) ++ zdrop (4 * zlen handles) rest).
Proof.
  revert i pre rest. induction handles as [|h handles IH]; intros i pre rest Hp Hr; cbn [fill_handles].
  - change (zlen []) with 0. rewrite Z.add_0_r, zdrop_0 by lia. unfold encode_u32s. cbn. by rewrite app_nil_r.
  - rewrite zlen_cons in *. zlen_facts. rewrite put_next by lia. cbn [mbind outcome_bind].
    rewrite IH by (rewrite ?zlen_app, ?zlen_le_split, ?zlen_zdrop; lia).
    rewrite zdrop_zdrop by lia. unfold encode_u32s. rewrite bind_cons, <- !app_assoc.
    replace (i + 1 + zlen handles) with (i + (1 + zlen handles)) by lia.
    by replace (4 + 4 * zlen handles) with (4 * (1 + zlen handles)) by lia.
Qed.

(** Packing writes each argument's data at its offset and nothing before the first. *)
Lemma pack_raw_spec pre a offsets args area total :
  fits a offsets (map in_item args) total → total ≤ zlen area → 0 ≤ a →
  ∃ area', pack_raw (zlen pre) offsets args (pre ++ area) = Done (pre ++ area') ∧ zlen area' = zlen area ∧
    ztake a area' = ztake a area ∧
    (∀ j o al v, offsets !! j = Some o → args !! j = Some (InRaw al v) → Kernel.slice o (zlen v) area' = v ∧ (al | o)).
Proof.
  revert a offsets area. induction args as [|x args IH]; intros a offsets area Hf Ht Ha.
  - inversion Hf; subst. exists area. split_and!; done.
  - cbn [map] in Hf. inversion Hf as [|? o l size al items ? Hao Hal Hs Hf' E1 E2 E3]; subst. cbn [pack_raw].
    pose proof (fits_le _ _ _ _ Hf') as Hle.
    assert (∃ area1, match x with InRaw _ v => store (zlen pre + o) v (pre ++ area) | _ => Done (pre ++ area) end = Done (pre ++ area1) ∧
      zlen area1 = zlen area ∧ ztake o area1 = ztake o area ∧
      (∀ al v, x = InRaw al v → ztake (o + size) area1 = ztake o area ++ v)) as (area1 & -> & Hl1 & Hk1 & Hv1).
    { destruct x as [al' v| | | | | |]; try by (exists area; split_and!).
      injection E3 as E4 <-. unfold store. rewrite zlen_app, (proj2 (Z.leb_le _ _)) by lia.
      exists (overwrite area o v). split_and!.
      - f_equal. unfold overwrite. rewrite ztake_app_ge, <- app_assoc by lia. f_equal.
        replace (zlen pre + o - zlen pre) with o by lia. do 2 f_equal. rewrite zdrop_app_ge by (zlen_facts; lia). f_equal. lia.
      - apply zlen_overwrite; lia.
      - unfold overwrite. rewrite ztake_app; [done|]. rewrite zlen_ztake. zlen_facts. lia.
      - intros al' v' [= -> ->]. unfold overwrite. rewrite app_assoc. apply ztake_app. rewrite zlen_app, zlen_ztake. zlen_facts. lia. }
    cbn [mbind outcome_bind]. destruct (IH (o + size) l area1 Hf') as (area' & -> & Hl' & Hk' & Hv'); [lia|lia|].
    assert (ztake o area' = ztake o area1) as Hko.
    { apply (f_equal (ztake o)) in Hk'. rewrite !ztake_ztake in Hk'. by replace (Z.min o (o + size)) with o in Hk' by lia. }
    exists area'. split_and!; [done|lia| |].
    + apply (f_equal (ztake a)) in Hko. apply (f_equal (ztake a)) in Hk1. rewrite !ztake_ztake in *.
      replace (Z.min a o) with a in * by lia. congruence.
    + intros [|j] o' al' v Ho Hx; cbn in Ho, Hx; [|by eapply Hv'].
      injection Ho as <-. injection Hx as ->. injection E3 as E4 <-. split; [|done].
      unfold Kernel.slice. assert (zlen v = size) as E5 by congruence. rewrite E5.
      replace (ztake size (zdrop o area')) with (zdrop o (ztake (o + size) area')).
      * rewrite Hk', (Hv1 al v eq_refl). apply zdrop_app. rewrite zlen_ztake. zlen_facts. lia.
      * rewrite zdrop_ztake by lia. f_equal. lia.
Qed.

(** ** Lemmas: header words *)

(** The ranges are small, so the words' bits are checked on every value. *)
Definition range (n : Z) : list Z := map Z.of_nat (seq 0 (Z.to_nat n)).
Lemma in_range n z : 0 ≤ z < n → In z (range n).
Proof. intros. apply in_map_iff. exists (Z.to_nat z). split; [lia|]. apply in_seq. lia. Qed.

Definition count_word_ok (c : Z) (b : bool) : bool :=
  let w := Z.lor (Z.land c 0x3ff) (Z.shiftl (bit b) 31) mod 2 ^ 32 in
  let w' := Z.lor c (Z.shiftl (bit b) 31) mod 2 ^ 32 in
  (w =? w') && (Z.land w 0x3ff =? c) && Bool.eqb (negb (Z.shiftr w 31 =? 0)) b.
Definition special_word_ok (p : bool) (m c : Z) : bool :=
  let w := Z.lor (bit p) (Z.lor (Z.shiftl c 1) (Z.shiftl m 5)) mod 2 ^ 32 in
  Bool.eqb (negb (Z.land w 1 =? 0)) p && (Z.land (Z.shiftr w 1) 0xf =? c) && (Z.land (Z.shiftr w 5) 0xf =? m) &&
  (Z.lor (bit p) (Z.shiftl (Z.land c 0xf) 1) =? Z.lor (bit p) (Z.lor (Z.shiftl c 1) (Z.shiftl 0 5))).

Lemma count_word c b : 0 ≤ c < 1024 →
  let w := Z.lor (Z.land c 0x3ff) (Z.shiftl (bit b) 31) mod 2 ^ 32 in
  w = Z.lor c (Z.shiftl (bit b) 31) mod 2 ^ 32 ∧ Z.land w 0x3ff = c ∧ negb (Z.shiftr w 31 =? 0) = b.
Proof.
  intros Hc w. assert (forallb (fun c => count_word_ok c true && count_word_ok c false) (range 1024) = true) as H
    by (vm_compute; reflexivity).
  rewrite forallb_forall in H. specialize (H c (in_range _ _ Hc)). apply andb_true_iff in H as [H1 H2].
  assert (count_word_ok c b = true) as H by (by destruct b). unfold count_word_ok in H. fold w in H.
  apply andb_true_iff in H as [[?%Z.eqb_eq ?%Z.eqb_eq]%andb_true_iff ?%Bool.eqb_prop]. done.
Qed.

Lemma special_word p m c : 0 ≤ c < 16 → 0 ≤ m < 16 →
  let w := Z.lor (bit p) (Z.lor (Z.shiftl c 1) (Z.shiftl m 5)) mod 2 ^ 32 in
  negb (Z.land w 1 =? 0) = p ∧ Z.land (Z.shiftr w 1) 0xf = c ∧ Z.land (Z.shiftr w 5) 0xf = m ∧
  Z.lor (bit p) (Z.shiftl (Z.land c 0xf) 1) = Z.lor (bit p) (Z.lor (Z.shiftl c 1) (Z.shiftl 0 5)).
Proof.
  intros Hc Hm w.
  assert (forallb (fun c => forallb (fun m => special_word_ok true m c && special_word_ok false m c) (range 16)) (range 16) = true)
    as H by (vm_compute; reflexivity).
  rewrite forallb_forall in H. specialize (H c (in_range _ _ Hc)). cbv beta in H. rewrite forallb_forall in H.
  specialize (H m (in_range _ _ Hm)). apply andb_true_iff in H as [H1 H2].
  assert (special_word_ok p m c = true) as H by (by destruct p). unfold special_word_ok in H. fold w in H.
  apply andb_true_iff in H as [[[?%Bool.eqb_prop ?%Z.eqb_eq]%andb_true_iff ?%Z.eqb_eq]%andb_true_iff ?%Z.eqb_eq]. done.
Qed.

Lemma words_spec hs rest : Forall (fun h => 0 ≤ h < 2 ^ 32) hs → words (length hs) (encode_u32s hs ++ rest) = hs.
Proof.
  intros Hh. unfold words. pose proof (Kernel.read_encode_fields (map (fun h => (4%nat, h)) hs) rest) as E.
  rewrite !map_map in E. cbn [fst snd] in E.
  replace (replicate (length hs) 4%nat) with (map (fun _ : Z => 4%nat) hs) by (clear; induction hs; cbn; by f_equal).
  replace (encode_u32s hs) with (Kernel.encode_fields (map (fun h => (4%nat, h)) hs)).
  - rewrite E. clear E. induction Hh as [|h hs Hh _ IH]; [done|]. cbn [map]. rewrite IH. f_equal. by apply Z.mod_small.
  - unfold Kernel.encode_fields, encode_u32s. rewrite map_map. cbn [fst snd]. clear.
    induction hs as [|h hs IH]; [done|]. cbn [map concat]. by rewrite IH.
Qed.

(** ** Lemmas: a request *)

Definition request_header (tag : Z) (args : list arg) : bytes :=
  let hs := args ≫= in_handles in
  le_split 4 (Z.land tag 0xffff) ++
  le_split 4 (Z.lor (Z.land (TotalCount (map in_item args)) 0x3ff) (Z.shiftl (bit (any in_special args)) 31)) ++
  (if any in_special args then
     le_split 4 (Z.lor (bit (any in_pid args)) (Z.shiftl (Z.land (zlen hs) 0xf) 1)) ++
     (if any in_pid args then le_split 4 0 ++ le_split 4 0 else []) ++ encode_u32s hs
   else []).
Definition request_size (args : list arg) : Z :=
  zlen (request_header 0 args) + 4 * TotalCount (map in_item args).

Lemma zlen_request_header tag args :
  zlen (request_header tag args) =
    8 + (if any in_special args then 4 + 8 * bit (any in_pid args) + 4 * zlen (args ≫= in_handles) else 0).
Proof.
  unfold request_header. cbv zeta. rewrite !zlen_app, !zlen_le_split.
  destruct (any in_special args); [|done]. rewrite !zlen_app, zlen_le_split, zlen_encode_u32s.
  destruct (any in_pid args); cbn [bit]; rewrite ?zlen_app, ?zlen_le_split, ?zlen_nil; lia.
Qed.

#[local] Ltac lens := rewrite ?zlen_app, ?zlen_le_split, ?zlen_zdrop, ?zlen_encode_u32s, ?zlen_app, ?zlen_nil in *; zlen_facts; lia.

(** What a packed request is: the header, then an area with the data of each argument. *)
Definition packed (tag : Z) (args : list arg) (b : bytes) : Prop :=
  ∃ area, b = request_header tag args ++ area ∧ zlen b = BUFFER ∧
    (∀ j o al v, (layout 0 (map in_item args)).1 !! j = Some o → args !! j = Some (InRaw al v) →
       Kernel.slice o (zlen v) area = v ∧ (al | o)).

Lemma pack_after_header tag args i rest :
  Forall arg_ok args → request_size args ≤ BUFFER →
  zlen (request_header tag args) = 4 * i → zlen (request_header tag args ++ rest) = BUFFER →
  ∃ b, pack_raw (4 * i) (layout 0 (map in_item args)).1 args (request_header tag args ++ rest) = Done b ∧ packed tag args b.
Proof.
  intros Hok Hs Hi Hl. unfold request_size in Hs. rewrite (zlen_request_header 0) in Hs.
  pose proof (TotalCount_spec _ (in_items_ok args Hok)) as Htc. rewrite zlen_app, (zlen_request_header tag) in Hl.
  destruct (pack_raw_spec (request_header tag args) 0 _ args rest _ (layout_fits 0 _ (in_items_ok args Hok)))
    as (area & E & Hla & _ & Hv); [lia|done|].
  eexists. rewrite <- Hi. split; [exact E|]. exists area. split; [done|]. split; [|done].
  rewrite zlen_app, Hla, zlen_request_header. exact Hl.
Qed.

Lemma PackRequest_spec tag args buffer :
  Forall arg_ok args → zlen buffer = BUFFER → request_size args ≤ BUFFER →
  ∃ b, PackRequest tag args buffer = Done b ∧ packed tag args b.
Proof.
  intros Hok Hb Hs. pose proof (zlen_request_header tag args) as Hh. pose proof (pack_after_header tag args) as Hpack.
  assert (zlen (request_header tag args) ≤ BUFFER) as Hf.
  { unfold request_size in Hs. rewrite (zlen_request_header 0) in Hs. pose proof (TotalCount_spec _ (in_items_ok args Hok)). lia. }
  unfold PackRequest. cbv zeta. change (put 0 ?w buffer) with (put 0 w ([] ++ buffer)). unfold request_header, BUFFER in *. cbv zeta in *.
  zlen_facts. rewrite put_next by lens. cbn [mbind outcome_bind app].
  rewrite put_next by lens. cbn [mbind outcome_bind].
  destruct (any in_special args).
  2:{ cbn [mbind outcome_bind]. rewrite ?app_nil_r in *. apply Hpack; [done|exact Hs|lia|lens]. }
  rewrite put_next by lens. cbn [mbind outcome_bind].
  destruct (any in_pid args); cbn [bit] in *.
  - rewrite put_next by lens. cbn [mbind outcome_bind]. rewrite put_next by lens. cbn [mbind outcome_bind].
    rewrite fill_handles_spec by lens. cbn [mbind outcome_bind].
    specialize (Hpack (5 + zlen (args ≫= in_handles)) (zdrop (4 * zlen (args ≫= in_handles))
      (zdrop 4 (zdrop 4 (zdrop 4 (zdrop 4 (zdrop 4 buffer))))))).
    rewrite <- !app_assoc in *. apply Hpack; [done|exact Hs|lia|lens].
  - cbn [mbind outcome_bind]. rewrite fill_handles_spec by lens. cbn [mbind outcome_bind].
    specialize (Hpack (3 + zlen (args ≫= in_handles)) (zdrop (4 * zlen (args ≫= in_handles))
      (zdrop 4 (zdrop 4 (zdrop 4 buffer))))).
    rewrite app_nil_l, <- !app_assoc in *. apply Hpack; [done|exact Hs|lia|lens].
Qed.

(** The words of a header. *)
Lemma field_0 w r : Kernel.field 0 4 (le_split 4 w ++ r) = w mod 2 ^ 32.
Proof. by rewrite Kernel.field_le. Qed.
Lemma field_1 a w r : Kernel.field 4 4 (le_split 4 a ++ le_split 4 w ++ r) = w mod 2 ^ 32.
Proof. rewrite Kernel.field_app by lens. rewrite zlen_le_split. apply field_0. Qed.
Lemma field_2 a b w r : Kernel.field 8 4 (le_split 4 a ++ le_split 4 b ++ le_split 4 w ++ r) = w mod 2 ^ 32.
Proof. rewrite Kernel.field_app by lens. rewrite zlen_le_split. apply field_1. Qed.

Lemma fits_lookup a l items total j o size al :
  fits a l items total → l !! j = Some o → items !! j = Some (size, al) → a ≤ o ∧ o + size ≤ total.
Proof.
  intros Hf. revert j. induction Hf as [|a o' l size' al' items total Hao Ha Hs Hf IH]; intros [|j] Ho Hi; try done.
  - injection Ho as <-. injection Hi as <- <-. apply fits_le in Hf. lia.
  - destruct (IH _ Ho Hi). lia.
Qed.
Lemma slice_slice o n m (l : bytes) : 0 ≤ o → o + n ≤ m → Kernel.slice o n (ztake m l) = Kernel.slice o n l.
Proof. intros. unfold Kernel.slice. rewrite zdrop_ztake by lia. rewrite ztake_ztake. f_equal. lia. Qed.

Lemma special_none args : any in_special args = false → any in_pid args = false ∧ args ≫= in_handles = [].
Proof.
  unfold any. induction args as [|a args IH]; [done|]. cbn [existsb]. rewrite bind_cons.
  intros [Ha Hs]%orb_false_elim. destruct (IH Hs) as [-> ->]. by destruct a.
Qed.
Lemma in_handles_ok args : Forall arg_ok args → Forall (fun h => 0 ≤ h < 2 ^ 32) (args ≫= in_handles).
Proof.
  induction 1 as [|a args Ha _ IH]; [constructor|]. rewrite bind_cons. apply Forall_app. split; [|done].
  destruct a; (apply Forall_nil_2 || by apply Forall_singleton).
Qed.

(** What a service reads from a packed request. *)
Lemma parse_packed tag args b :
  packed tag args b → Forall arg_ok args → zlen (args ≫= in_handles) < 16 → request_size args ≤ BUFFER →
  ∃ raw, parse_request b = mk_request (Z.land tag 0xffff) (any in_pid args) (args ≫= in_handles) raw ∧
    zlen raw = 4 * TotalCount (map in_item args) ∧
    (∀ j o al v, (layout 0 (map in_item args)).1 !! j = Some o → args !! j = Some (InRaw al v) →
       Kernel.slice o (zlen v) raw = v ∧ (al | o)).
Proof.
  intros (area & Hb & Hl & Hv) Hok Hh Hs. set (n := TotalCount (map in_item args)).
  pose proof (TotalCount_spec _ (in_items_ok args Hok)) as Htc. fold n in Htc.
  assert (4 * n ≤ zlen area) as Hn.
  { unfold request_size in Hs. fold n in Hs. rewrite (zlen_request_header 0) in Hs.
    rewrite Hb, zlen_app, zlen_request_header in Hl. lia. }
  assert (zlen area ≤ 256) as Ha by (rewrite Hb, zlen_app in Hl; unfold BUFFER in Hl; zlen_facts; lia).
  exists (ztake (4 * n) area). split; [|split; [rewrite zlen_ztake; lia|]].
  2:{ intros j o al v Ho Hj. destruct (Hv j o al v Ho Hj) as [Hvj Hal]. split; [|done]. 
      pose proof (list_lookup_fmap in_item args j) as Hi. rewrite Hj in Hi.
      destruct (fits_lookup _ _ _ _ _ _ _ _ (layout_fits 0 _ (in_items_ok args Hok)) Ho Hi).
      by rewrite slice_slice by lia. }
  rewrite Hb. unfold parse_request, request_header. cbv zeta. rewrite <- !app_assoc, field_0, field_1. fold n.
  destruct (count_word n (any in_special args)) as (_ & -> & ->); [lia|].
  assert (Z.land (Z.land tag 65535 mod 2 ^ 32) 65535 = Z.land tag 65535) as ->.
  { rewrite (Z.mod_small (Z.land _ _)); [|change 65535 with (Z.ones 16); rewrite Z.land_ones by lia; Z.to_euclidean_division_equations; lia].
    change 65535 with (Z.ones 16). rewrite !Z.land_ones by lia. by rewrite Z.mod_mod. }
  destruct (any in_special args) eqn:Hsp; cbn [andb bit].
  2:{ destruct (special_none args Hsp) as [-> ->]. cbn [bit]. by f_equal. }
  rewrite <- !app_assoc, field_2.
  destruct (special_word (any in_pid args) 0 (zlen (args ≫= in_handles))) as (Hp & Hc & _ & ->);
    [zlen_facts; lia|lia|]. rewrite Hp, Hc.
  assert (Z.to_nat (zlen (args ≫= in_handles)) = length (args ≫= in_handles)) as -> by (unfold zlen; lia).
  assert (∀ pre, 8 + 4 * 1 + 8 * bit (any in_pid args) = zlen pre →
    mk_request (Z.land tag 65535) (any in_pid args)
      (words (length (args ≫= in_handles)) (zdrop (8 + 4 * 1 + 8 * bit (any in_pid args)) (pre ++ encode_u32s (args ≫= in_handles) ++ area)))
      (Kernel.slice (8 + 4 * 1 + 8 * bit (any in_pid args) + 4 * zlen (args ≫= in_handles)) (4 * n)
        (pre ++ encode_u32s (args ≫= in_handles) ++ area)) =
    mk_request (Z.land tag 65535) (any in_pid args) (args ≫= in_handles) (ztake (4 * n) area)) as Hgo.
  { intros pre ->. rewrite zdrop_app by done. rewrite words_spec by (by apply in_handles_ok). f_equal.
    rewrite Kernel.slice_app by lens. rewrite Kernel.slice_app by lens. rewrite zlen_encode_u32s.
    rewrite <- (Kernel.slice_0 (4 * n) area). f_equal. lia. }
  destruct (any in_pid args); cbn [bit] in *; rewrite ?app_nil_l, <- ?app_assoc;
    rewrite !(app_assoc _ _ (encode_u32s (args ≫= in_handles) ++ area)); apply Hgo; lens.
Qed.

(** ** Lemmas: a response *)

Lemma get_at i w pre r :
  zlen pre = 4 * i → get i (pre ++ le_split 4 w ++ r) = Done (w mod 2 ^ 32).
Proof.
  intros Hp. unfold get, load. rewrite (proj2 (Z.leb_le _ _)) by lens. cbn [mbind outcome_bind]. f_equal.
  change (le_combine (Kernel.slice (4 * i) 4 ?b)) with (Kernel.field (4 * i) 4 b). rewrite Kernel.field_app by lia.
  rewrite <- Hp, Z.sub_diag. apply field_0.
Qed.

(** What the steps leave in the arguments. *)
Fixpoint set_handles (args : list arg) (hs : list Z) (outs : list out) : list out :=
  match args, outs with
  | OutHandle :: args, _ :: outs => Handle (default 0 (head hs)) :: set_handles args (tail hs) outs
  | _ :: args, o :: outs => o :: set_handles args hs outs
  | _, _ => outs
  end.
Fixpoint set_objects (args : list arg) (hs : list Z) (outs : list out) : list out :=
  match args, outs with
  | OutObject :: args, _ :: outs => Object (default 0 (head hs)) :: set_objects args (tail hs) outs
  | _ :: args, o :: outs => o :: set_objects args hs outs
  | _, _ => outs
  end.
Fixpoint set_raw (offsets : list Z) (args : list arg) (data : bytes) (outs : list out) : list out :=
  match offsets, args, outs with
  | o :: offsets, a :: args, x :: outs =>
      match a with OutRaw size _ => Raw (Kernel.slice o size data) | _ => x end :: set_raw offsets args data outs
  | _, _, _ => outs
  end.

Lemma sum_cons f a args : sum f (a :: args) = f a + sum f args.
Proof. done. Qed.
Lemma sum_nonneg f args : (∀ a, 0 ≤ f a) → 0 ≤ sum f args.
Proof. intros Hf. unfold sum. induction args as [|a args IH]; cbn; [lia|]. specialize (Hf a). lia. Qed.
Lemma out_handles_nonneg a : 0 ≤ out_handles a. Proof. by destruct a. Qed.
Lemma out_objects_nonneg a : 0 ≤ out_objects a. Proof. by destruct a. Qed.

Lemma take_handles_spec args : ∀ hs i outs pre r,
  zlen pre = 4 * i → zlen hs = sum out_handles args → length outs = length args →
  Forall (fun h => 0 ≤ h < 2 ^ 32) hs →
  take_handles i args outs (pre ++ encode_u32s hs ++ r) = Done (i + zlen hs, set_handles args hs outs).
Proof.
  induction args as [|a args IH]; intros hs i outs pre r Hp Hn Hl Hh; destruct outs as [|o outs]; try done.
  - destruct hs; [by rewrite Z.add_0_r|]. rewrite zlen_cons in Hn. zlen_facts. cbn in Hn. lia.
  - cbn in Hl. pose proof (sum_nonneg out_handles args out_handles_nonneg).
    destruct a; cbn [take_handles set_handles]; try by rewrite IH; auto.
    destruct hs as [|h hs]; [rewrite sum_cons, zlen_nil in Hn; cbn [out_handles] in Hn; lia|]. inversion Hh as [|? ? Hh1 Hh2]; subst.
    unfold encode_u32s. rewrite bind_cons, <- app_assoc. fold (encode_u32s hs).
    rewrite get_at by done. cbn [mbind outcome_bind]. rewrite app_assoc.
    rewrite zlen_cons, sum_cons in *. cbn [out_handles] in Hn.
    rewrite IH; [|lens|lia|lia|done]. cbn. rewrite Z.mod_small by done. do 2 f_equal. lia.
Qed.
Lemma take_objects_spec args : ∀ hs i outs pre r,
  zlen pre = 4 * i → zlen hs = sum out_objects args → length outs = length args →
  Forall (fun h => 0 ≤ h < 2 ^ 32) hs →
  take_objects i args outs (pre ++ encode_u32s hs ++ r) = Done (i + zlen hs, set_objects args hs outs).
Proof.
  induction args as [|a args IH]; intros hs i outs pre r Hp Hn Hl Hh; destruct outs as [|o outs]; try done.
  - destruct hs; [by rewrite Z.add_0_r|]. rewrite zlen_cons in Hn. zlen_facts. cbn in Hn. lia.
  - cbn in Hl. pose proof (sum_nonneg out_objects args out_objects_nonneg).
    destruct a; cbn [take_objects set_objects]; try by rewrite IH; auto.
    destruct hs as [|h hs]; [rewrite sum_cons, zlen_nil in Hn; cbn [out_objects] in Hn; lia|]. inversion Hh as [|? ? Hh1 Hh2]; subst.
    unfold encode_u32s. rewrite bind_cons, <- app_assoc. fold (encode_u32s hs).
    rewrite get_at by done. cbn [mbind outcome_bind]. rewrite app_assoc.
    rewrite zlen_cons, sum_cons in *. cbn [out_objects] in Hn.
    rewrite IH; [|lens|lia|lia|done]. cbn. rewrite Z.mod_small by done. do 2 f_equal. lia.
Qed.

Lemma slice_in_front o n (l r : bytes) : 0 ≤ o → 0 ≤ n → o + n ≤ zlen l → Kernel.slice o n (l ++ r) = Kernel.slice o n l.
Proof.
  intros. rewrite <- (slice_slice o n (zlen l) (l ++ r)) by lia. by rewrite ztake_app.
Qed.

Lemma unpack_raw_spec pre data r a offsets args total : ∀ outs,
  fits a offsets (map out_item args) total → 0 ≤ a → total ≤ zlen data → length outs = length args →
  unpack_raw (zlen pre) offsets args outs (pre ++ data ++ r) = Done (set_raw offsets args data outs).
Proof.
  revert a offsets. induction args as [|x args IH]; intros a offsets outs Hf Ha Ht Hl.
  - inversion Hf; subst. done.
  - destruct outs as [|y outs]; [done|]. cbn in Hl. cbn [map] in Hf.
    inversion Hf as [|? o l size al items ? Hao Hal Hs Hf' E1 E2 E3]; subst. cbn [unpack_raw set_raw].
    pose proof (fits_le _ _ _ _ Hf') as Hle.
    rewrite (IH (o + size) l) by (done || lia).
    destruct x; try done. injection E3 as -> _. unfold load.
    rewrite (proj2 (Z.leb_le _ _)) by lens. cbn [mbind outcome_bind].
    rewrite Kernel.slice_app by lens. replace (zlen pre + o - zlen pre) with o by lia.
    by rewrite slice_in_front by lia.
Qed.

(** A response with nothing special leaves the arguments as they were. *)
Lemma out_special_none args :
  any out_special args = false →
  any out_pid args = false ∧ sum out_handles args = 0 ∧ sum out_objects args = 0.
Proof.
  unfold any. induction args as [|a args IH]; [done|]. cbn [existsb]. rewrite !sum_cons.
  intros [Ha Hs]%orb_false_elim. destruct (IH Hs) as (-> & -> & ->). by destruct a.
Qed.
Lemma set_handles_none args outs : any out_special args = false → set_handles args [] outs = outs.
Proof.
  revert outs. unfold any. induction args as [|a args IH]; intros outs Hs; [done|]. cbn [existsb] in Hs.
  apply orb_false_elim in Hs as [Ha Hs]. destruct outs as [|o outs]; [by destruct a|].
  destruct a; try done; cbn [set_handles]; by rewrite IH.
Qed.
Lemma set_objects_none args outs : any out_special args = false → set_objects args [] outs = outs.
Proof.
  revert outs. unfold any. induction args as [|a args IH]; intros outs Hs; [done|]. cbn [existsb] in Hs.
  apply orb_false_elim in Hs as [Ha Hs]. destruct outs as [|o outs]; [by destruct a|].
  destruct a; try done; cbn [set_objects]; by rewrite IH.
Qed.
Lemma take_pid_none pid args : any out_pid args = false → take_pid pid args (nothing args) = nothing args.
Proof.
  unfold any, take_pid, nothing. induction args as [|a args IH]; [done|]. cbn. intros [-> Hs]%orb_false_elim.
  by rewrite IH.
Qed.
Lemma length_set_handles args hs outs : length outs = length args → length (set_handles args hs outs) = length args.
Proof. revert hs outs. induction args as [|[] args IH]; intros hs [|o outs] Hl; try done; cbn in *; by rewrite IH by lia. Qed.
Lemma length_set_objects args hs outs : length outs = length args → length (set_objects args hs outs) = length args.
Proof. revert hs outs. induction args as [|[] args IH]; intros hs [|o outs] Hl; try done; cbn in *; by rewrite IH by lia. Qed.

(** The steps together. *)
Lemma outputs_spec a offsets args total copied moved pid data :
  fits a offsets (map out_item args) total →
  set_raw offsets args data (set_objects args moved (set_handles args copied (take_pid pid args (nothing args)))) =
    outputs offsets args copied moved pid data.
Proof.
  revert a offsets copied moved. unfold take_pid, nothing. induction args as [|x args IH]; intros a offsets copied moved Hf.
  - by inversion Hf.
  - cbn [map] in Hf. inversion Hf as [|? o l size al items ? Hao Hal Hs Hf' E1 E2 E3]; subst.
    destruct x; cbn; f_equal; by eapply IH.
Qed.

(** A reply of the shape the caller's arguments expect. *)
Record reply_ok (args : list arg) (rp : reply) : Prop := mk_reply_ok {
  ok_result : 0 ≤ rp_result rp < 2 ^ 32;
  ok_pid : 0 ≤ rp_pid rp < 2 ^ 64;
  ok_copied : Forall (fun h => 0 ≤ h < 2 ^ 32) (rp_copied rp);
  ok_moved : Forall (fun h => 0 ≤ h < 2 ^ 32) (rp_moved rp);
  ok_copied_count : zlen (rp_copied rp) = sum out_handles args;
  ok_moved_count : zlen (rp_moved rp) = sum out_objects args;
  ok_few : zlen (rp_copied rp) < 16 ∧ zlen (rp_moved rp) < 16;
  ok_data : zlen (rp_data rp) = 4 * TotalCount (map out_item args);
  ok_short : TotalCount (map out_item args) < 1023 }.
Definition reply_result (args : list arg) (rp : reply) : Z + list out :=
  if negb (rp_result rp =? 0) then inl (rp_result rp)
  else inr (outputs (layout 0 (map out_item args)).1 args (rp_copied rp) (rp_moved rp) (rp_pid rp) (rp_data rp)).

(** The end of a response: the result, then the data. *)
Lemma unpack_tail args rp pre rest i outs :
  Forall arg_ok args → reply_ok args rp → zlen pre = 4 * i → length outs = length args →
  (result ← get i (pre ++ le_split 4 (rp_result rp) ++ rp_data rp ++ rest);
   if negb (result =? 0) then Done (inl result)
   else outs ← unpack_raw (4 * (i + 1)) (layout 0 (map out_item args)).1 args outs
                 (pre ++ le_split 4 (rp_result rp) ++ rp_data rp ++ rest);
        Done (inr outs)) =
  Done (if negb (rp_result rp =? 0) then inl (rp_result rp)
        else inr (set_raw (layout 0 (map out_item args)).1 args (rp_data rp) outs)).
Proof.
  intros Hok Hrp Hp Hl. rewrite get_at by done. cbn [mbind outcome_bind].
  rewrite Z.mod_small by apply Hrp. destruct (negb (rp_result rp =? 0)); [done|].
  rewrite app_assoc. replace (4 * (i + 1)) with (zlen (pre ++ le_split 4 (rp_result rp))) by lens.
  pose proof (TotalCount_spec _ (out_items_ok args Hok)). pose proof (ok_data _ _ Hrp).
  by erewrite unpack_raw_spec; [|apply layout_fits, out_items_ok|..]; [..|lia|lia|].
Qed.

Lemma length_take_pid pid args : length (take_pid pid args (nothing args)) = length args.
Proof. unfold take_pid, nothing. rewrite length_zip_with, length_map. lia. Qed.

Lemma take_both args rp pre rest i outs :
  reply_ok args rp → zlen pre = 4 * i → length outs = length args →
  ('(i, outs) ← take_handles i args outs (pre ++ encode_u32s (rp_copied rp ++ rp_moved rp) ++ rest);
   '(i, outs) ← take_objects i args outs (pre ++ encode_u32s (rp_copied rp ++ rp_moved rp) ++ rest);
   Done (inr (i, outs) : Z + (Z * list out))) =
  Done (inr (i + zlen (rp_copied rp) + zlen (rp_moved rp), set_objects args (rp_moved rp) (set_handles args (rp_copied rp) outs))).
Proof.
  intros Hrp Hp Hl. destruct Hrp as [_ _ Hc Hm Hcc Hmc _ _ _].
  unfold encode_u32s. rewrite bind_app. fold (encode_u32s (rp_copied rp)) (encode_u32s (rp_moved rp)).
  rewrite <- app_assoc, take_handles_spec by done. cbn [mbind outcome_bind].
  rewrite (app_assoc pre), take_objects_spec; [done|lens|done|by apply length_set_handles|done].
Qed.

Lemma unpack_special args rp pre rest :
  reply_ok args rp → zlen pre = 8 →
  unpack_special_header args (nothing args)
    (pre ++ le_split 4 (Z.lor (bit (any out_pid args)) (Z.lor (Z.shiftl (zlen (rp_copied rp)) 1) (Z.shiftl (zlen (rp_moved rp)) 5))) ++
     (if any out_pid args then le_split 8 (rp_pid rp) else []) ++ encode_u32s (rp_copied rp ++ rp_moved rp) ++ rest) =
  Done (inr (3 + 2 * bit (any out_pid args) + zlen (rp_copied rp) + zlen (rp_moved rp),
    set_objects args (rp_moved rp) (set_handles args (rp_copied rp) (take_pid (rp_pid rp) args (nothing args))))).
Proof.
  intros Hrp Hpre. pose proof Hrp as [_ Hpid Hc Hm Hcc Hmc [Hcs Hms] _ _]. unfold unpack_special_header.
  rewrite get_at by lia. cbn [mbind outcome_bind].
  destruct (special_word (any out_pid args) (zlen (rp_moved rp)) (zlen (rp_copied rp))) as (-> & -> & -> & _);
    [zlen_facts; lia..|].
  rewrite bool_decide_eq_true_2, <- Hcc, <- Hmc, !Z.eqb_refl by done. cbn [negb].
  set (sh := Z.lor _ _). rewrite (app_assoc pre).
  destruct (any out_pid args) eqn:Hp; cbn [bit].
  - unfold load. rewrite (proj2 (Z.leb_le _ _)) by lens.
    rewrite Kernel.slice_app by lens. rewrite zlen_app, zlen_le_split, Hpre, Kernel.slice_front by lens.
    cbn [mbind outcome_bind]. rewrite le_combine_split, Z.mod_small by done.
    rewrite (app_assoc _ (le_split 8 _)), take_both by (exact Hrp || lens || apply length_take_pid). by do 3 f_equal.
  - cbn [mbind outcome_bind]. rewrite app_nil_l, take_both by (exact Hrp || lens || apply length_map).
    rewrite take_pid_none by done. by do 3 f_equal.
Qed.

Lemma UnpackResponse_spec tag args rp rest :
  Forall arg_ok args → reply_ok args rp → 0 ≤ tag < 2 ^ 16 →
  UnpackResponse tag args (build_reply tag args rp ++ rest) = Done (reply_result args rp).
Proof.
  intros Hok Hrp Htag. pose proof (TotalCount_spec _ (out_items_ok args Hok)) as Htc.
  pose proof (ok_data _ _ Hrp) as Hd. pose proof (ok_short _ _ Hrp) as Hs.
  unfold build_reply. rewrite <- !app_assoc. rewrite Hd.
  replace (1 + 4 * TotalCount (map out_item args) / 4) with (1 + TotalCount (map out_item args))
    by (Z.to_euclidean_division_equations; lia).
  unfold UnpackResponse. cbv zeta.
  rewrite <- (app_nil_l (le_split 4 tag ++ _)), (get_at 0) by done. cbn [mbind outcome_bind].
  rewrite app_nil_l, (get_at 1) by lens. cbn [mbind outcome_bind].
  destruct (count_word (1 + TotalCount (map out_item args)) (any out_special args)) as (E & Hc & Hb); [lia|].
  rewrite E in Hc, Hb. rewrite Hc, Hb.
  assert (Z.land (tag mod 2 ^ 32) 65535 = tag) as ->
    by (change 65535 with (Z.ones 16); rewrite Z.land_ones by lia; Z.to_euclidean_division_equations; lia).
  rewrite Z.eqb_refl, bool_decide_eq_true_2 by done. cbn [negb].
  rewrite (proj2 (Z.ltb_ge _ 1)) by lia. rewrite (proj2 (Z.eqb_eq (1 + _ - 1) _)) by lia. cbn [negb].
  pose proof (outputs_spec 0 _ args _ (rp_copied rp) (rp_moved rp) (rp_pid rp) (rp_data rp) (layout_fits 0 _ (out_items_ok args Hok))) as Ho.
  destruct (any out_special args) eqn:Hsp.
  - rewrite <- !app_assoc, (app_assoc (le_split 4 tag)), unpack_special by (exact Hrp || lens).
    cbn [mbind outcome_bind]. set (pre := le_split 4 tag ++ _). set (sh := le_split 4 (Z.lor (bit _) _)).
    set (pid := if any out_pid args then _ else _).
    rewrite (app_assoc pre), (app_assoc _ pid), (app_assoc _ (encode_u32s _)), unpack_tail; [|done|exact Hrp| |].
    + unfold reply_result. by rewrite Ho.
    + unfold pre, sh, pid. destruct (any out_pid args); cbn [bit]; lens.
    + by apply length_set_objects, length_set_handles, length_take_pid.
  - destruct (out_special_none args Hsp) as (Hnp & Hnh & Hno). pose proof Hrp as [? ? ? ? Hcc Hmc ? ? ?].
    assert (rp_copied rp = []) as Hc0 by (apply nil_length_inv; unfold zlen in *; lia).
    assert (rp_moved rp = []) as Hm0 by (apply nil_length_inv; unfold zlen in *; lia).
    cbn [mbind outcome_bind]. rewrite Hc0, Hm0 in *. rewrite !app_nil_l, (app_assoc (le_split 4 tag)), unpack_tail;
      [|done|exact Hrp|lens|by apply length_map].
    rewrite take_pid_none, set_handles_none, set_objects_none in Ho by done.
    unfold reply_result. by rewrite Hc0, Hm0, Ho.
Qed.

(** A response of any content is taken without a read outside the buffer. *)
Lemma get_ok i b : 0 ≤ i → 4 * i + 4 ≤ zlen b → ∃ w, get i b = Done w.
Proof. intros. unfold get, load. rewrite (proj2 (Z.leb_le _ _)) by lia. by eexists. Qed.

Lemma take_handles_ok args b : ∀ i outs, 0 ≤ i → 4 * (i + sum out_handles args) ≤ zlen b → length outs = length args →
  ∃ outs', take_handles i args outs b = Done (i + sum out_handles args, outs') ∧ length outs' = length args.
Proof.
  induction args as [|a args IH]; intros i outs Hi Hb Hl; destruct outs as [|o outs]; try done.
  { exists []. by rewrite Z.add_0_r. }
  rewrite sum_cons in *. cbn [length] in Hl. pose proof (sum_nonneg out_handles args out_handles_nonneg).
  destruct a; cbn [out_handles take_handles] in *;
    try by (destruct (IH i outs) as (l & -> & El); [lia..|]; exists (o :: l); cbn; rewrite El, Z.add_0_l).
  destruct (get_ok i b) as [h ->]; [lia..|]. cbn [mbind outcome_bind].
  destruct (IH (i + 1) outs) as (l & -> & El); [lia..|]. exists (Handle h :: l). cbn. rewrite El.
  split; [|done]. do 2 f_equal. lia.
Qed.
Lemma take_objects_ok args b : ∀ i outs, 0 ≤ i → 4 * (i + sum out_objects args) ≤ zlen b → length outs = length args →
  ∃ outs', take_objects i args outs b = Done (i + sum out_objects args, outs') ∧ length outs' = length args.
Proof.
  induction args as [|a args IH]; intros i outs Hi Hb Hl; destruct outs as [|o outs]; try done.
  { exists []. by rewrite Z.add_0_r. }
  rewrite sum_cons in *. cbn [length] in Hl. pose proof (sum_nonneg out_objects args out_objects_nonneg).
  destruct a; cbn [out_objects take_objects] in *;
    try by (destruct (IH i outs) as (l & -> & El); [lia..|]; exists (o :: l); cbn; rewrite El, Z.add_0_l).
  destruct (get_ok i b) as [h ->]; [lia..|]. cbn [mbind outcome_bind].
  destruct (IH (i + 1) outs) as (l & -> & El); [lia..|]. exists (Object h :: l). cbn. rewrite El.
  split; [|done]. do 2 f_equal. lia.
Qed.
Lemma unpack_raw_ok base b a offsets args total : ∀ outs,
  fits a offsets (map out_item args) total → 0 ≤ base → 0 ≤ a → base + total ≤ zlen b → length outs = length args →
  ∃ outs', unpack_raw base offsets args outs b = Done outs'.
Proof.
  revert a offsets. induction args as [|x args IH]; intros a offsets outs Hf Hbase Ha Ht Hl.
  - inversion Hf; subst. by eexists.
  - destruct outs as [|y outs]; [done|]. cbn in Hl. cbn [map] in Hf.
    inversion Hf as [|? o l size al items ? Hao Hal Hs Hf' E1 E2 E3]; subst. cbn [unpack_raw].
    pose proof (fits_le _ _ _ _ Hf'). destruct (IH (o + size) l outs) as [outs' E]; [done|lia..|].
    rewrite E. destruct x; try by eexists. injection E3 as -> _. unfold load.
    rewrite (proj2 (Z.leb_le _ _)) by lia. by eexists.
Qed.

(** The bytes a response to these arguments takes. *)
Definition response_size (args : list arg) : Z :=
  12 + (if any out_special args
        then 4 + 8 * bit (any out_pid args) + 4 * sum out_handles args + 4 * sum out_objects args else 0) +
  4 * TotalCount (map out_item args).

Lemma unpack_special_header_ok args b :
  12 + 8 * bit (any out_pid args) + 4 * sum out_handles args + 4 * sum out_objects args ≤ zlen b →
  ∃ r, unpack_special_header args (nothing args) b = Done r ∧
    (∀ i outs, r = inr (i, outs) →
       i = 3 + 2 * bit (any out_pid args) + sum out_handles args + sum out_objects args ∧ length outs = length args).
Proof.
  intros Hb. pose proof (sum_nonneg out_handles args out_handles_nonneg).
  pose proof (sum_nonneg out_objects args out_objects_nonneg). unfold unpack_special_header.
  assert (0 ≤ bit (any out_pid args)) by (by destruct (any out_pid args)).
  destruct (get_ok 2 b) as [sh ->]; [lia..|]. cbn [mbind outcome_bind].
  destruct (bool_decide _) eqn:Hp; cbn [negb]; [|by eexists]. apply bool_decide_eq_true in Hp. rewrite Hp.
  do 2 (case_match; [by eexists|]).
  assert (∀ i outs, i = 3 + 2 * bit (any out_pid args) → length outs = length args → ∃ r,
    ('(i, outs) ← take_handles i args outs b; '(i, outs) ← take_objects i args outs b; Done (inr (i, outs))) = Done (r : Z + (Z * list out)) ∧
    (∀ i outs, r = inr (i, outs) →
       i = 3 + 2 * bit (any out_pid args) + sum out_handles args + sum out_objects args ∧ length outs = length args)) as Hgo.
  { intros i outs Hi Hl. destruct (take_handles_ok args b i outs) as (l & -> & El); [lia..|]. cbn [mbind outcome_bind].
    destruct (take_objects_ok args b (i + sum out_handles args) l) as (l' & -> & El'); [lia..|]. cbn [mbind outcome_bind].
    eexists. split; [done|]. intros i' outs' E. injection E as <- <-. split; [lia|done]. }
  destruct (any out_pid args); cbn [bit mbind outcome_bind] in *; [|by apply Hgo; [lia|apply length_map]].
  unfold load. rewrite (proj2 (Z.leb_le _ _)) by lia. cbn [mbind outcome_bind].
  apply Hgo; [lia|apply length_take_pid].
Qed.

(** ** Theorems *)

(** The data of a request: each argument's bytes at its offset, which is a multiple of its
    alignment. *)
Definition carries (args : list arg) (raw : bytes) : Prop :=
  zlen raw = 4 * TotalCount (map in_item args) ∧
  (∀ j o al v, (layout 0 (map in_item args)).1 !! j = Some o → args !! j = Some (InRaw al v) →
     Kernel.slice o (zlen v) raw = v ∧ (al | o)).
(** A service behind the handle, which answers each request it reads. *)
Definition served (tag : Z) (args : list arg) (serve : request_view → reply) (rest : bytes)
    (h : Z) (buffer : bytes) (log : list request_view) : Z * bytes * list request_view :=
  (0, build_reply tag args (serve (parse_request buffer)) ++ rest, log ++ [parse_request buffer]).

(** A call: what the kernel is handed, and what the caller gets for the service's answer. *)
Lemma SendSyncRequest_served {K} (svc : Z → bytes → K → Z * bytes * K) id args o buffer k :
  Forall arg_ok args → zlen buffer = BUFFER → request_size args ≤ BUFFER → zlen (args ≫= in_handles) < 16 →
  0 ≤ id + 16 < 2 ^ 16 →
  ∃ b raw, carries args raw ∧ zlen b = BUFFER ∧
    parse_request b = mk_request (id + 16) (any in_pid args) (args ≫= in_handles) raw ∧
    (∀ rp rest k', reply_ok args rp → svc (handle o) b k = (0, build_reply (id + 16) args rp ++ rest, k') →
       SendSyncRequest svc id args o buffer k =
         Done (reply_result args rp, build_reply (id + 16) args rp ++ rest, k')).
Proof.
  intros Hok Hb Hs Hh Hid. destruct (PackRequest_spec (id + 16) args buffer Hok Hb Hs) as (b & E & Hp).
  destruct (parse_packed _ _ _ Hp Hok Hh Hs) as (raw & Er & Hraw & Hv). exists b, raw.
  assert (Z.land (id + 16) 0xffff = id + 16) as Et
    by (change 0xffff with (Z.ones 16); rewrite Z.land_ones by lia; by apply Z.mod_small).
  rewrite Et in Er. split_and!; [by split|by destruct Hp as (? & _ & ? & _)|done|].
  intros rp rest k' Hrp Es. unfold SendSyncRequest. rewrite E. cbn [mbind outcome_bind]. rewrite Es.
  cbn [negb Z.eqb]. by rewrite UnpackResponse_spec.
Qed.

(** C8: a call to a service goes through whole: the service reads one request with the command's
    tag, the process id flag, the handles in order and each argument's bytes at a multiple of its
    alignment, and the caller gets what the service answered: its code, or in each argument the
    data, the copied handle, the moved object or the process id of the reply. *)
Theorem tipc_call_round_trip id args buffer serve rest o log :
  Forall arg_ok args → zlen buffer = BUFFER → request_size args ≤ BUFFER → zlen (args ≫= in_handles) < 16 →
  0 ≤ id + 16 < 2 ^ 16 → (∀ rq, reply_ok args (serve rq)) →
  ∃ raw, carries args raw ∧
    let rq := mk_request (id + 16) (any in_pid args) (args ≫= in_handles) raw in
    SendSyncRequest (served (id + 16) args serve rest) id args o buffer log =
      Done (reply_result args (serve rq), build_reply (id + 16) args (serve rq) ++ rest, log ++ [rq]).
Proof.
  intros Hok Hb Hs Hh Hid Hserve.
  destruct (SendSyncRequest_served (served (id + 16) args serve rest) id args o buffer log Hok Hb Hs Hh Hid)
    as (b & raw & Hc & _ & Er & Hgo).
  exists raw. split; [done|]. cbv zeta. apply Hgo; [done|]. unfold served. by rewrite Er.
Qed.

(** whatever a service leaves in the message buffer, and whatever tag is expected, taking the
    response apart reads nothing outside the buffer: the counts are compared with the arguments
    before anything is read by them. *)
Theorem tipc_response_in_bounds tag args buffer :
  Forall arg_ok args → zlen buffer = BUFFER → response_size args ≤ BUFFER →
  ∃ r, UnpackResponse tag args buffer = Done r.
Proof.
  intros Hok Hb Hs. unfold BUFFER, response_size in *. pose proof (TotalCount_spec _ (out_items_ok args Hok)) as Htc.
  pose proof (sum_nonneg out_handles args out_handles_nonneg). pose proof (sum_nonneg out_objects args out_objects_nonneg).
  assert (0 ≤ bit (any out_pid args)) by (by destruct (any out_pid args)).
  assert (∀ i outs, 0 ≤ i → 4 * i + 4 + 4 * TotalCount (map out_item args) ≤ 256 → length outs = length args →
    ∃ r, (result ← get i buffer; if negb (result =? 0) then Done (inl result)
          else outs ← unpack_raw (4 * (i + 1)) (layout 0 (map out_item args)).1 args outs buffer; Done (inr outs)) =
         Done (r : Z + list out)) as Htail.
  { intros i outs Hi Hb' Hl. destruct (get_ok i buffer) as [w ->]; [lia..|]. cbn [mbind outcome_bind].
    destruct (negb (w =? 0)); [by eexists|].
    destruct (unpack_raw_ok (4 * (i + 1)) buffer 0 _ args _ outs (layout_fits 0 _ (out_items_ok args Hok)))
      as [l ->]; [lia..|done|by eexists]. }
  unfold UnpackResponse. assert (12 + 4 * TotalCount (map out_item args) ≤ 256) by (destruct (any out_special args); lia).
  destruct (get_ok 0 buffer) as [mh0 ->]; [lia..|]. cbn [mbind outcome_bind].
  destruct (get_ok 1 buffer) as [mh1 ->]; [lia..|]. cbn [mbind outcome_bind].
  destruct (negb (Z.land mh0 65535 =? tag)); [by eexists|]. destruct (Z.land mh1 1023 <? 1); [by eexists|].
  destruct (negb (Z.land mh1 1023 - 1 =? _)); [by eexists|].
  destruct (bool_decide _) eqn:Hsp; cbn [negb]; [|by eexists]. apply bool_decide_eq_true in Hsp. rewrite Hsp.
  destruct (any out_special args) eqn:Hs'; cbn [mbind outcome_bind]; [|by apply Htail; [lia..|apply length_map]].
  destruct (unpack_special_header_ok args buffer) as (r & -> & Hr); [lia..|]. cbn [mbind outcome_bind].
  destruct r as [code|[i outs]]; [by eexists|]. destruct (Hr i outs eq_refl) as [-> Hl]. apply Htail; [lia..|done].
Qed.

(** ** Examples *)

(** A command with a process id, a service name, a byte and a handle, which answers with a word, a
    handle and an object. *)
Definition ex_args : list arg :=
  [InPid; InRaw 1 [Byte.x01]; InRaw 8 (str "pm:dmnt" ++ [Byte.x00]); InHandle 7; OutRaw 4 4; OutHandle; OutObject].
Definition ex_reply : reply := mk_reply 0 0 [21] [22] (le_split 4 1000).
Definition ex_serve (rq : request_view) : reply := if rq_tag rq =? 19 then ex_reply else mk_reply 1 0 [21] [22] (le_split 4 0).

Lemma ex_args_ok : Forall arg_ok ex_args.
Proof. repeat constructor; cbn; lia. Qed.
Lemma ex_serve_ok rq : reply_ok ex_args (ex_serve rq).
Proof. unfold ex_serve. destruct (rq_tag rq =? 19); split; cbn; repeat constructor; (lia || done). Qed.

Lemma tipc_call_round_trip_witness :
  ∃ raw, carries ex_args raw ∧
    SendSyncRequest (served 19 ex_args ex_serve []) 3 ex_args (mk_object true 5) (zreplicate BUFFER Byte.x00) [] =
      Done (inr [Nothing; Nothing; Nothing; Nothing; Raw (le_split 4 1000); Handle 21; Object 22],
        build_reply 19 ex_args ex_reply, [mk_request 19 true [7] raw]).
Proof.
  refine (tipc_call_round_trip 3 ex_args (zreplicate BUFFER Byte.x00) ex_serve [] (mk_object true 5) [] ex_args_ok _ _ _ _ ex_serve_ok).
  all: vm_compute; intuition discriminate.
Defined.

Lemma tipc_response_in_bounds_witness : ∃ r, UnpackResponse 19 ex_args (zreplicate BUFFER Byte.x00) = Done r.
Proof.
  apply tipc_response_in_bounds; [apply ex_args_ok|done|]. vm_compute. discriminate.
Defined.

End Tipc.
