(* ===== verification/Services.v ===== *)
(** * twili/Services.cpp and twili/SystemVersion.cpp: the system's services

    The system's version selects the commands that are sent, and the services they are sent to.
    The kernel's call for TIPC requests ([svcSendSyncRequest]) and the IPC client of libtransistor
    are the class [ipc]; a request through the latter names its outputs by a value of [outs]. *)
From S2P Require Import Prelude Err Protocol Kernel Tipc.
Import Protocol.
Local Open Scope Z_scope.

Module SystemVersion.
Record t : Type := mk { major : Z; minor : Z; micro : Z }.
(** [operator<=>] compares the members in their order. *)
Definition lt (a b : t) : bool :=
  (major a <? major b) || (major a =? major b) &&
    ((minor a <? minor b) || (minor a =? minor b) && (micro a <? micro b)).
Definition ge (a b : t) : bool := negb (lt a b).

Inductive target : Type :=
| TARGET_VERSION_1_0_0 | TARGET_VERSION_2_0_0 | TARGET_VERSION_3_0_0 | TARGET_VERSION_4_0_0
| TARGET_VERSION_5_0_0 | TARGET_VERSION_11_0_0.

(** What the secure monitor answered: a result and its interface's version. *)
Definition of_exo_api (exo_api : Z) : t :=
  mk (Z.land (Z.shiftr exo_api 24) 0xff) (Z.land (Z.shiftr exo_api 16) 0xff) (Z.land (Z.shiftr exo_api 8) 0xff).
Definition target_of (current : t) : target :=
  if ge current (mk 11 0 0) then TARGET_VERSION_11_0_0
  else if ge current (mk 5 0 0) then TARGET_VERSION_5_0_0
  else if ge current (mk 4 0 0) then TARGET_VERSION_4_0_0
  else if ge current (mk 3 0 0) then TARGET_VERSION_3_0_0
  else if ge current (mk 2 0 0) then TARGET_VERSION_2_0_0
  else TARGET_VERSION_1_0_0.
Definition SetCurrent (env_set_target_version : target → Z) (result exo_api : Z) : outcome (option t) :=
  if negb (result =? 0) then Aborts result
  else
    let current := of_exo_api exo_api in
    let r := env_set_target_version (target_of current) in
    if negb (r =? 0) then Aborts r else Done (Some current).
Definition Current (current : option t) : outcome t :=
  match current with Some v => Done v | None => Aborts Err.TWILI_ERR_SYSTEM_VERSION_NOT_SET end.
End SystemVersion.

Module Services.
Import Err.

(** ** Requests *)

(** The outputs of a request, and what they are. *)
Inductive outs : Type → Type :=
| none : outs unit
| raw (size : Z) : outs Z
| copy_handle : outs Z
| move_handle : outs Z
| object : outs Z
| buffer (kind size : Z) : outs bytes
| pair {A B : Type} (a : outs A) (b : outs B) : outs (A * B).

(** The state: the thread's message buffer, and the rest of the system. *)
Definition state (K : Type) : Type := bytes * K.
Definition M (K A : Type) : Type := state K → outcome (A * state K).
#[export] Instance M_ret {K} : MRet (M K) := fun A a s => Done (a, s).
#[export] Instance M_bind {K} : MBind (M K) := fun A B f m s => '(a, s) ← m s; f a s.

(** The libraries and the kernel.  [error] is what [error()] gives of a result that is a value. *)
Class ipc (K : Type) := mk_ipc {
  svcSendSyncRequest : Z → bytes → K → Z * bytes * K;
  send : ∀ {A : Type}, Z → Z → list bytes → outs A → M K (Z + A);
  Initialize : M K (Z + Z);
  GetService : Z → string → M K (Z + Z);
  GetHandleForService : Z → string → M K (Z + Z);
  error : ∀ {A : Type}, A → outcome Z }.

Section services.
Context {K : Type} `{ipc K}.
Notation M := (M K).

Definition lift {A} (m : outcome A) : M A := fun s => a ← m; Done (a, s).
Definition Assert {A} (r : Z + A) : M A := lift (Kernel.Assert r).
Definition AssertOk {A} (r : Z + A) : M A := lift (match r with inl code => Throws (ResultError code) | inr a => Done a end).
(** A request to a TIPC object. *)
Definition tipc_send (id : Z) (args : list Tipc.arg) (o : Z) : M (Z + list Tipc.out) := fun s =>
  '(r, b, k) ← Tipc.SendSyncRequest svcSendSyncRequest id args (Tipc.mk_object true o) s.1 s.2; Done (r, (b, k)).

Lemma run_bind {A B} (m : M A) (f : A → M B) s a s' : m s = Done (a, s') → (m ≫= f) s = f a s'.
Proof. intros E. unfold mbind, M_bind. by rewrite E. Qed.
Lemma run_ret {A B} (a : A) (f : A → M B) s : (mret a ≫= f) s = f a s.
Proof. done. Qed.
Lemma run_lift {A B} (m : outcome A) (f : A → M B) s : (lift m ≫= f) s = (a ← m; f a s).
Proof. by destruct m. Qed.
Lemma Assert_ok {A} (a : A) : Assert (inr a : Z + A) = mret a.
Proof. done. Qed.

(** ** The versions *)

Inductive api : Type := Target_1_0_0 | Target_5_0_0 | Target_6_0_0 | Target_10_0_0 | Target_12_0_0.
Definition CreateForSystemVersion (sysver : SystemVersion.t) : outcome api :=
  if SystemVersion.lt sysver (SystemVersion.mk 1 0 0) then Aborts TWILI_ERR_OPERATION_NOT_SUPPORTED_FOR_SYSTEM_VERSION
  else if SystemVersion.lt sysver (SystemVersion.mk 5 0 0) then Done Target_1_0_0
  else if SystemVersion.lt sysver (SystemVersion.mk 6 0 0) then Done Target_5_0_0
  else if SystemVersion.lt sysver (SystemVersion.mk 10 0 0) then Done Target_6_0_0
  else if SystemVersion.lt sysver (SystemVersion.mk 12 0 0) then Done Target_10_0_0
  else Done Target_12_0_0.

(** PmDmntCommandTable. *)
Definition table (old new : Z) (v : api) : Z := match v with Target_1_0_0 => old | _ => new end.
Definition cmd_StartProcess : api → Z := table 2 1.
Definition cmd_GetProcessId : api → Z := table 3 2.
Definition cmd_HookToCreateProcess : api → Z := table 4 3.
Definition cmd_GetApplicationProcessId : api → Z := table 5 4.
Definition cmd_HookToCreateApplicationProcess : api → Z := table 6 5.

(** ObjectsHolder, with the observer of the later versions. *)
Record objects : Type := mk_objects {
  pm_dmnt : Z; ldr_dmnt : Z; ldr_shel : Z; ro_dmnt : Z; lr : Z; nifm_static : Z; nifm_general : Z; ns_dev : Z;
  pgl : Z; pgl_seo : Z }.

Definition CreateNifmGeneralServiceOld (nifm_static : Z) : M (Z + Z) := send nifm_static 4 [] object.
Definition ObjectsHolder (sm : Z) : M (Z → Z → objects) :=
  r ← GetService sm "pm:dmnt"; pm_dmnt ← Assert r;
  r ← GetService sm "ldr:dmnt"; ldr_dmnt ← Assert r;
  r ← GetService sm "ldr:shel"; ldr_shel ← Assert r;
  r ← GetService sm "ro:dmnt"; ro_dmnt ← Assert r;
  r ← GetService sm "lr"; lr ← Assert r;
  r ← GetService sm "nifm:s"; nifm_static ← Assert r;
  r ← CreateNifmGeneralServiceOld nifm_static; nifm_general ← Assert r;
  r ← GetService sm "ns:dev"; ns_dev ← Assert r;
  mret (mk_objects pm_dmnt ldr_dmnt ldr_shel ro_dmnt lr nifm_static nifm_general ns_dev).
Definition ObjectsHolder_10 (sm : Z) : M Z := r ← GetService sm "pgl"; AssertOk r.
Definition ObjectsHolder_12 (sm : Z) : M Z := r ← GetHandleForService sm "pgl"; AssertOk r.
Definition GetPGLObserver_10 (pgl : Z) : M Z := r ← send pgl 20 [] object; Assert r.
Definition GetPGLObserver_12 (pgl : Z) : M Z :=
  r ← tipc_send 20 [Tipc.OutObject] pgl;
  match r with
  | inl code => lift (Aborts code)
  | inr [Tipc.Object seo] => mret seo
  | inr _ => lift Undefined
  end.
Definition ServicesImpl (v : api) : M objects :=
  r ← Initialize; sm ← AssertOk r;
  o ← ObjectsHolder sm;
  match v with
  | Target_1_0_0 | Target_5_0_0 | Target_6_0_0 => mret (o 0 0)
  | Target_10_0_0 => pgl ← ObjectsHolder_10 sm; seo ← GetPGLObserver_10 pgl; mret (o pgl seo)
  | Target_12_0_0 => pgl ← ObjectsHolder_12 sm; seo ← GetPGLObserver_12 pgl; mret (o pgl seo)
  end.

(** ** The operations

    A code, or success with what is stored through the pointers; [GetNsoInfos] and [GetNroInfos]
    leave their vector whatever the code is. *)

Definition sizeof_module : Z := 48.
Definition resize (n : Z) (vec : bytes) : bytes := ztake (sizeof_module * n) (vec ++ zreplicate (sizeof_module * n) Byte.x00).
Definition unwrap {A} (r : Z + A) : Z := match r with inl code => code | inr _ => 0 end.
Definition infos (r : Z + Z * bytes) (n : Z) : Z * bytes :=
  match r with
  | inl code => (code, resize n (resize n []))
  | inr (num, vec) => (0, resize num vec)
  end.
Definition GetNsoInfos (o : objects) (pid : Z) : M (Z * bytes) :=
  r ← send (ldr_dmnt o) 2 [le_split 8 pid] (pair (raw 4) (buffer 0xa (sizeof_module * 0x10))); mret (infos r 0x10).
Definition GetNroInfos (o : objects) (pid : Z) : M (Z * bytes) :=
  r ← send (ro_dmnt o) 0 [le_split 8 pid] (pair (raw 4) (buffer 6 (sizeof_module * 0x40))); mret (infos r 0x40).

Section version.
Variable v : api.
Definition StartProcess (o : objects) (pid : Z) : M (Z + unit) := send (pm_dmnt o) (cmd_StartProcess v) [le_split 8 pid] none.
Definition GetProcessId (o : objects) (tid : Z) : M (Z + Z) := send (pm_dmnt o) (cmd_GetProcessId v) [le_split 8 tid] (raw 8).
Definition HookToCreateProcess (o : objects) (tid : Z) : M (Z + Z) :=
  send (pm_dmnt o) (cmd_HookToCreateProcess v) [le_split 8 tid] copy_handle.
Definition GetApplicationProcessId (o : objects) : M (Z + Z) := send (pm_dmnt o) (cmd_GetApplicationProcessId v) [] (raw 8).
Definition HookToCreateApplicationProcess (o : objects) : M (Z + Z) :=
  send (pm_dmnt o) (cmd_HookToCreateApplicationProcess v) [] copy_handle.
Definition ClearHook (o : objects) : M (Z + unit) := mret (inl TWILI_ERR_OPERATION_NOT_SUPPORTED_FOR_SYSTEM_VERSION).
Definition GetCurrentLimitInfo (o : objects) (category resource : Z) : M (Z + Z * Z) :=
  send (pm_dmnt o) 65001 [le_split 4 category; le_split 4 resource] (pair (raw 8) (raw 8)).
Definition CreateRequest (o : objects) (preset : Z) : M (Z + Z) := send (nifm_general o) 4 [le_split 4 preset] object.
Definition OpenLocationResolver (o : objects) (storage_id : Z) : M (Z + Z) := send (lr o) 0 [le_split 1 storage_id] object.
Definition SetExternalContentSource (o : objects) (tid : Z) : M (Z + Z) := send (ldr_shel o) 65000 [le_split 8 tid] move_handle.
Definition ClearExternalContentSource (o : objects) (tid : Z) : M (Z + unit) := send (ldr_shel o) 65001 [le_split 8 tid] none.

(** *** ns:dev before 10.0.0, pgl from then on, over TIPC from 12.0.0 on *)

Definition GetShellEventHandle_1 (o : objects) : M (Z + Z) := send (ns_dev o) 4 [] copy_handle.
Definition GetShellEventHandle_10 (o : objects) : M (Z + Z) := send (pgl_seo o) 0 [] copy_handle.
Definition GetShellEventHandle_12 (o : objects) : M (Z + Z) :=
  r ← tipc_send 0 [Tipc.OutHandle] (pgl_seo o);
  match r with
  | inl code => mret (inl code)
  | inr [Tipc.Handle h] => mret (inr h)
  | inr _ => lift Undefined
  end.

(** The pid and the type of a shell event; none when there are no more. *)
Definition ResultNotAvailable : Z := 0x4e4.
Definition GetShellEventInfo_1 (o : objects) : M (Z + option (Z * Z)) :=
  r ← send (ns_dev o) 5 [] (pair (raw 4) (raw 8));
  match r with
  | inl code => if (code =? 0x610) || (code =? 0x4e4) then mret (inr None) else mret (inl code)
  | inr (evt, pid) =>
      code ← lift (error (evt, pid));
      mret (inr (if code =? 0x4e4 then None else Some (pid, evt)))
  end.
Definition GetShellEventInfo_10 (o : objects) : M (Z + option (Z * Z)) :=
  r ← send (pgl_seo o) 1 [] (pair (raw 4) (raw 8));
  match r with
  | inl code => if code =? ResultNotAvailable then mret (inr None) else mret (inl code)
  | inr (evt, pid) => mret (inr (Some (pid, evt)))
  end.
Definition GetShellEventInfo_12 (o : objects) : M (Z + option (Z * Z)) :=
  r ← tipc_send 1 [Tipc.OutRaw 4 4; Tipc.OutRaw 8 8] (pgl_seo o);
  match r with
  | inl code => if code =? ResultNotAvailable then mret (inr None) else mret (inl code)
  | inr [Tipc.Raw evt; Tipc.Raw pid] => mret (inr (Some (le_combine pid, le_combine evt)))
  | inr _ => lift Undefined
  end.

(** [padding] is what the structure's last seven bytes hold. *)
Definition location (title_id storage_id : Z) (padding : bytes) : bytes :=
  le_split 8 title_id ++ le_split 1 storage_id ++ ztake 7 (padding ++ zreplicate 7 Byte.x00).
Definition LaunchProgram_1 (o : objects) (launch_flags title_id storage_id : Z) : M (Z + Z) :=
  send (ns_dev o) 0 [le_split 4 launch_flags; le_split 8 title_id; le_split 4 0; le_split 4 storage_id] (raw 8).
Definition LaunchProgram_10 (o : objects) (launch_flags title_id storage_id : Z) (padding : bytes) : M (Z + Z) :=
  send (pgl o) 0 [le_split 4 0; le_split 4 launch_flags; location title_id storage_id padding] (raw 8).
Definition LaunchProgram_12 (o : objects) (launch_flags title_id storage_id : Z) (padding : bytes) : M (Z + Z) :=
  r ← tipc_send 0 [Tipc.InRaw 8 (location title_id storage_id padding); Tipc.InRaw 4 (le_split 4 launch_flags);
        Tipc.InRaw 4 (le_split 4 0); Tipc.OutRaw 8 8] (pgl o);
  match r with
  | inl code => mret (inl code)
  | inr [_; _; _; Tipc.Raw pid] => mret (inr (le_combine pid))
  | inr _ => lift Undefined
  end.

Definition TerminateProgram_1 (o : objects) (pid : Z) : M (Z + unit) := send (ns_dev o) 1 [le_split 8 pid] none.
Definition TerminateProgram_10 (o : objects) (pid : Z) : M (Z + unit) := send (pgl o) 1 [le_split 8 pid] none.
Definition TerminateProgram_12 (o : objects) (pid : Z) : M (Z + unit) :=
  r ← tipc_send 1 [Tipc.InRaw 8 (le_split 8 pid)] (pgl o);
  mret (match r with inl code => inl code | inr _ => inr tt end).

(** The calls through the interface. *)
Definition by_version {A} (f1 f10 f12 : A) : A :=
  match v with Target_12_0_0 => f12 | Target_10_0_0 => f10 | _ => f1 end.
Definition GetShellEventHandle (o : objects) : M (Z + Z) :=
  by_version GetShellEventHandle_1 GetShellEventHandle_10 GetShellEventHandle_12 o.
Definition GetShellEventInfo (o : objects) : M (Z + option (Z * Z)) :=
  by_version GetShellEventInfo_1 GetShellEventInfo_10 GetShellEventInfo_12 o.
Definition LaunchProgram (o : objects) (launch_flags title_id storage_id : Z) (padding : bytes) : M (Z + Z) :=
  by_version (fun o f t s _ => LaunchProgram_1 o f t s) LaunchProgram_10 LaunchProgram_12 o launch_flags title_id storage_id padding.
Definition TerminateProgram (o : objects) (pid : Z) : M (Z + unit) :=
  by_version TerminateProgram_1 TerminateProgram_10 TerminateProgram_12 o pid.
End version.
(** ** The shell tracker's requests *)

Definition ShellProcessDefaultTitle : Z := 0x0100000000006482.
Definition RequestLaunchECSProgram (current : SystemVersion.t) (v : api) (o : objects) (padding : bytes) : M (Z + Z) :=
  let launch_flags := if SystemVersion.ge current (SystemVersion.mk 5 0 0) then 0xb else 0x31 in
  LaunchProgram v o launch_flags ShellProcessDefaultTitle 0 padding.

(** What the shell event's handler does: [exit] is what an exit notification does to the trackers
    ([Process.ShellExit]). *)
Definition shell_event {W} (exit : Z → W → outcome W) (e : Z * Z) (w : W) : outcome W :=
  if e.2 =? 1 then exit e.1 w else Done w.
Fixpoint shell_event_loop {W} (exit : Z → W → outcome W) (fuel : nat) (v : api) (o : objects) (w : W) : M W :=
  match fuel with
  | O => lift OutOfFuel
  | S fuel =>
      r ← GetShellEventInfo v o;
      i ← Assert r;
      match i with
      | None => mret w
      | Some e => w ← lift (shell_event exit e w); shell_event_loop exit fuel v o w
      end
  end.

(** ** The specification of the event source *)

Fixpoint shell_events {W} (exit : Z → W → outcome W) (l : list (Z * Z)) (w : W) : outcome W :=
  match l with [] => Done w | e :: l => w ← shell_event exit e w; shell_events exit l w end.
(** Each call gives the next of the pending events, then none. *)
Definition event_source (v : api) (o : objects) (good : state K → Prop) (pending : state K → list (Z * Z)) : Prop :=
  ∀ s, good s →
    ∃ s', GetShellEventInfo v o s = Done (inr (head (pending s)), s') ∧ good s' ∧ pending s' = tail (pending s).

Lemma shell_event_loop_spec {W} (exit : Z → W → outcome W) v o good pending :
  event_source v o good pending →
  ∀ s w, good s → ∃ s', good s' ∧ pending s' = [] ∧
    shell_event_loop exit (S (length (pending s))) v o w s = (w' ← shell_events exit (pending s) w; Done (w', s')).
Proof.
  intros Hsrc s w Hs. remember (pending s) as l eqn:E. revert s w Hs E.
  induction l as [|e l IH]; intros s w Hs E; destruct (Hsrc s Hs) as (s1 & E1 & Hs1 & Ep); rewrite <- E in *;
    cbn [head tail] in *; remember (shell_event_loop exit) as loop eqn:El; rewrite El; cbn [length shell_event_loop];
    rewrite (run_bind _ _ _ _ _ E1), Assert_ok, run_ret; subst loop; [by exists s1|].
  rewrite run_lift. cbn [shell_events]. destruct (shell_event exit e w) as [w1| | | |]; cbn [mbind outcome_bind].
  1: apply (IH s1 w1 Hs1 (eq_sym Ep)).
  all: destruct (IH s1 w Hs1 (eq_sym Ep)) as (s' & ? & ? & _); by exists s'.
Qed.

(** ** The observer of 12.0.0 *)

Definition info_args : list Tipc.arg := [Tipc.OutRaw 4 4; Tipc.OutRaw 8 8].
Definition observer_reply (l : list (Z * Z)) : Tipc.reply :=
  match l with
  | [] => Tipc.mk_reply ResultNotAvailable 0 [] [] (zreplicate 16 Byte.x00)
  | (pid, evt) :: _ => Tipc.mk_reply 0 0 [] [] (le_split 4 evt ++ zreplicate 4 Byte.x00 ++ le_split 8 pid)
  end.
(** The object answers the request for an event, with tag 17 and nothing in it, from a queue. *)
Definition observes (seo : Z) (pending : K → list (Z * Z)) : Prop :=
  ∀ b k, Tipc.parse_request b = Tipc.mk_request 17 false [] [] →
    ∃ k' rest, svcSendSyncRequest seo b k = (0, Tipc.build_reply 17 info_args (observer_reply (pending k)) ++ rest, k') ∧
      zlen (Tipc.build_reply 17 info_args (observer_reply (pending k)) ++ rest) = Tipc.BUFFER ∧ pending k' = tail (pending k).
Definition event_ok (e : Z * Z) : Prop := 0 ≤ e.1 < 2 ^ 64 ∧ 0 ≤ e.2 < 2 ^ 32.

Lemma observer_reply_ok l : Tipc.reply_ok info_args (observer_reply l).
Proof. destruct l as [|[pid evt] l]; split; cbn; (lia || done || constructor). Qed.

Lemma observer_event e l :
  Tipc.reply_result info_args (observer_reply (e :: l)) = inr [Tipc.Raw (le_split 4 e.2); Tipc.Raw (le_split 8 e.1)].
Proof.
  destruct e as [pid evt]. unfold Tipc.reply_result, observer_reply. cbn [Tipc.rp_result Tipc.rp_copied Tipc.rp_moved Tipc.rp_pid Tipc.rp_data].
  change (Tipc.layout 0 (map Tipc.out_item info_args)).1 with [0; 8]. unfold info_args.
  change (negb (0 =? 0)) with false. cbn [Tipc.outputs fst snd]. by do 3 f_equal.
Qed.

Lemma tipc_event_source o pending :
  observes (pgl_seo o) pending →
  event_source Target_12_0_0 o (fun s => zlen s.1 = Tipc.BUFFER ∧ Forall event_ok (pending s.2)) (fun s => pending s.2).
Proof.
  intros Hobs [b k] [Hb He]. cbn [fst snd] in *.
  destruct (Tipc.SendSyncRequest_served svcSendSyncRequest 1 info_args (Tipc.mk_object true (pgl_seo o)) b k)
    as (b' & raw & [Hraw _] & _ & Erq & Hgo); [by repeat constructor|done|done|done|done|].
  assert (raw = []) as -> by (change (zlen raw = 0) in Hraw; apply nil_length_inv; unfold zlen in Hraw; lia).
  destruct (Hobs b' k Erq) as (k' & rest & Es & Hl & Ep).
  exists (Tipc.build_reply 17 info_args (observer_reply (pending k)) ++ rest, k'). cbn [fst snd]. split_and!; [|done| |done].
  - unfold GetShellEventInfo, by_version, GetShellEventInfo_12, tipc_send. fold info_args.
    erewrite run_bind by (cbn [fst snd]; by rewrite (Hgo _ rest k' (observer_reply_ok _) Es)).
    destruct (pending k) as [|[pid evt] l]; [done|]. rewrite observer_event. cbn [fst snd head].
    rewrite !le_combine_split. inversion He as [|? ? [Hp Hv] _]; subst. cbn [fst snd] in *.
    by rewrite !Z.mod_small.
  - rewrite Ep. by destruct (pending k); inversion He.
Qed.

(** ** A program's launch on 12.0.0 *)

Definition launch_args (launch_flags title_id storage_id : Z) (padding : bytes) : list Tipc.arg :=
  [Tipc.InRaw 8 (location title_id storage_id padding); Tipc.InRaw 4 (le_split 4 launch_flags);
   Tipc.InRaw 4 (le_split 4 0); Tipc.OutRaw 8 8].
(** The program loader answers each request it reads with [serve] and logs it. *)
Definition launches (pgl : Z) (serve : Tipc.request_view → Tipc.reply) (log : K → list Tipc.request_view) : Prop :=
  ∀ b k, ∃ k' rest,
    svcSendSyncRequest pgl b k = (0, Tipc.build_reply 16 (launch_args 0 0 0 []) (serve (Tipc.parse_request b)) ++ rest, k') ∧
    log k' = log k ++ [Tipc.parse_request b].
(** What it reads in the data of a launch: the title, its storage, the flags, and zero. *)
Definition launch_view (raw : bytes) : list Z :=
  [Kernel.field 0 8 raw; Kernel.field 8 1 raw; Kernel.field 16 4 raw; Kernel.field 20 4 raw].

Lemma zlen_location t st pad : zlen (location t st pad) = 16.
Proof.
  unfold location. rewrite !zlen_app, !zlen_le_split, zlen_ztake, zlen_app, zlen_zreplicate. zlen_facts. lia.
Qed.
Lemma field_prefix o n m l : 0 ≤ o → o + n ≤ m → Kernel.field o n (Kernel.slice 0 m l) = Kernel.field o n l.
Proof. intros. unfold Kernel.field. by rewrite Kernel.slice_0, Tipc.slice_slice by done. Qed.

Lemma launch_carried flags t st pad raw :
  0 ≤ flags < 2 ^ 32 → 0 ≤ t < 2 ^ 64 → 0 ≤ st < 2 ^ 8 →
  Tipc.carries (launch_args flags t st pad) raw → launch_view raw = [t; st; flags; 0] ∧ zlen raw = 24.
Proof.
  intros Hf Ht Hs [Hl Hv]. pose proof (zlen_location t st pad) as Hz.
  assert ((Tipc.layout 0 (map Tipc.in_item (launch_args flags t st pad))) = ([0; 16; 20; 24], 24)) as El.
  { cbn [launch_args map Tipc.in_item Tipc.layout]. by rewrite Hz. }
  unfold Tipc.TotalCount in Hl. rewrite El in *. cbn [fst snd] in *.
  pose proof (proj1 (Hv 0%nat _ _ _ eq_refl eq_refl)) as H0. pose proof (proj1 (Hv 1%nat _ _ _ eq_refl eq_refl)) as H1.
  pose proof (proj1 (Hv 2%nat _ _ _ eq_refl eq_refl)) as H2. rewrite Hz in H0. rewrite zlen_le_split in H1, H2.
  change (Z.of_nat 4) with 4 in *.
  unfold launch_view. rewrite <- (field_prefix 0 8 16), <- (field_prefix 8 1 16), H0 by lia.
  unfold Kernel.field at 3 4. rewrite H1, H2, !le_combine_split. unfold location.
  rewrite Kernel.field_le by done. rewrite Kernel.field_app by (by rewrite zlen_le_split).
  rewrite zlen_le_split. change (8 - Z.of_nat 8) with 0. rewrite Kernel.field_le by done.
  rewrite !Z.mod_small by lia. by split.
Qed.

(** The arguments' values do not matter to a reply. *)
Lemma launch_reply_ok flags t st pad rp : Tipc.reply_ok (launch_args 0 0 0 []) rp → Tipc.reply_ok (launch_args flags t st pad) rp.
Proof. by intros []. Qed.
Lemma launch_reply flags t st pad rp :
  Tipc.reply_ok (launch_args 0 0 0 []) rp →
  Tipc.reply_result (launch_args flags t st pad) rp =
    (if Tipc.rp_result rp =? 0
     then inr [Tipc.Nothing; Tipc.Nothing; Tipc.Nothing; Tipc.Raw (Tipc.rp_data rp)] else inl (Tipc.rp_result rp)).
Proof.
  intros Hok. unfold Tipc.reply_result. destruct (_ =? 0); [|done]. cbn [negb launch_args map Tipc.out_item Tipc.layout fst Tipc.outputs].
  do 5 f_equal. pose proof (Tipc.ok_data _ _ Hok) as Hd. change (zlen (Tipc.rp_data rp) = 8) in Hd.
  rewrite Kernel.slice_0. f_equal. apply ztake_all. lia.
Qed.

(** ** Theorems *)

(** C33: on 12.0.0 and later the shell event's handler takes every event the observer holds, through
    TIPC, and none twice: the trackers see the exits in the order of the events, and the observer
    is left empty.  The loop ends after one call more than there are events. *)
Theorem shell_events_served {W} (exit : Z → W → outcome W) o pending b k w :
  observes (pgl_seo o) pending → zlen b = Tipc.BUFFER → Forall event_ok (pending k) →
  ∃ b' k', pending k' = [] ∧
    shell_event_loop exit (S (length (pending k))) Target_12_0_0 o w (b, k) =
      (w' ← shell_events exit (pending k) w; Done (w', (b', k'))).
Proof.
  intros Hobs Hb He.
  destruct (shell_event_loop_spec exit _ o _ _ (tipc_event_source o pending Hobs) (b, k) w) as ([b' k'] & _ & Hp & E);
    [by split|]. by exists b', k'.
Qed.

(** before 10.0.0 an event that the shell gives is not always taken: the test for "no more
    events" reads the error of a result that is a value.  What that read gives decides: it ends
    the call when it is undefined, and an event is dropped when it happens to be 0x4e4. *)
Theorem old_shell_events v o s evt pid s' :
  v ≠ Target_10_0_0 → v ≠ Target_12_0_0 → send (ns_dev o) 5 [] (pair (raw 4) (raw 8)) s = Done (inr (evt, pid), s') →
  GetShellEventInfo v o s =
    (code ← error (evt, pid); Done (inr (if code =? 0x4e4 then None else Some (pid, evt)), s')).
Proof.
  intros H1 H2 E. destruct v; try done; unfold GetShellEventInfo, by_version, GetShellEventInfo_1; rewrite (run_bind _ _ _ _ _ E), run_lift;
    by destruct (error (evt, pid)).
Qed.

(** C34: on 12.0.0 and later a launch reaches the program loader as one request with tag 16, whose
    24 bytes of data hold the title, its storage, the flags and a zero at the offsets of the
    interface, whatever the padding of the structure holds; the caller gets the pid or the code. *)
Theorem launch_reaches_loader o serve log flags t st pad b k :
  launches (pgl o) serve log → (∀ rq, Tipc.reply_ok (launch_args 0 0 0 []) (serve rq)) →
  zlen b = Tipc.BUFFER → 0 ≤ flags < 2 ^ 32 → 0 ≤ t < 2 ^ 64 → 0 ≤ st < 2 ^ 8 →
  ∃ raw b' k', let rq := Tipc.mk_request 16 false [] raw in
    launch_view raw = [t; st; flags; 0] ∧ zlen raw = 24 ∧ log k' = log k ++ [rq] ∧
    LaunchProgram Target_12_0_0 o flags t st pad (b, k) =
      Done (if Tipc.rp_result (serve rq) =? 0 then inr (le_combine (Tipc.rp_data (serve rq)))
            else inl (Tipc.rp_result (serve rq)), (b', k')).
Proof.
  intros Hsvc Hserve Hb Hf Ht Hs. pose proof (zlen_location t st pad) as Hz.
  destruct (Tipc.SendSyncRequest_served svcSendSyncRequest 0 (launch_args flags t st pad) (Tipc.mk_object true (pgl o)) b k)
    as (b' & raw & Hraw & _ & Erq & Hgo); [by repeat constructor|done| | |done|].
  { unfold Tipc.request_size, Tipc.TotalCount. cbn [launch_args map Tipc.in_item Tipc.layout]. by rewrite Hz. }
  { done. }
  destruct (launch_carried flags t st pad raw Hf Ht Hs Hraw) as [Hview Hlen].
  destruct (Hsvc b' k) as (k' & rest & Es & Hlog). rewrite Erq in Es, Hlog.
  pose proof (Hserve (Tipc.mk_request 16 false [] raw)) as Hok.
  exists raw. do 2 eexists. cbv zeta. split_and!; [done|done|exact Hlog|].
  unfold LaunchProgram, by_version, LaunchProgram_12, tipc_send. fold (launch_args flags t st pad).
  erewrite run_bind by (cbn [fst snd]; by rewrite (Hgo _ rest k' (launch_reply_ok _ _ _ _ _ Hok) Es)).
  rewrite launch_reply by done. by destruct (_ =? 0).
Qed.

(** ** Examples *)

(** A service's queue of events, and a log of requests, as the rest of the system. *)
End services.

Definition ex_state : Type := list (Z * Z) * list Tipc.request_view.
Definition ex_pad (b : bytes) : bytes := b ++ zreplicate (Tipc.BUFFER - zlen b) Byte.x00.
Definition ex_svc (handle : Z) (b : bytes) (k : ex_state) : Z * bytes * ex_state :=
  let rq := Tipc.parse_request b in
  if handle =? 1 then (0, ex_pad (Tipc.build_reply 17 info_args (observer_reply k.1)), (tail k.1, k.2))
  else (0, ex_pad (Tipc.build_reply 16 (launch_args 0 0 0 []) (Tipc.mk_reply 0 0 [] [] (le_split 8 77))), (k.1, k.2 ++ [rq])).
Definition ex_ipc : ipc ex_state :=
  mk_ipc ex_state ex_svc (fun A _ _ _ _ s => Done (inl 1, s)) (fun s => Done (inl 1, s)) (fun _ _ s => Done (inl 1, s))
    (fun _ _ s => Done (inl 1, s)) (fun A _ => Undefined).
Definition ex_objects : objects := mk_objects 0 0 0 0 0 0 0 0 2 1.

Lemma ex_observes : @observes _ ex_ipc 1 fst.
Proof.
  intros b k _. do 2 eexists. cbn [svcSendSyncRequest ex_ipc]. unfold ex_svc, ex_pad. cbn [Z.eqb Pos.eqb].
  split; [done|]. split; [|done]. rewrite zlen_app, zlen_zreplicate.
  cbn [fst snd]. assert (zlen (Tipc.build_reply 17 info_args (observer_reply k.1)) = 28) as ->; [|done].
  by destruct k as [[|[pid evt] l] ?].
Qed.

(** Two exits among three events. *)
Lemma shell_events_served_witness :
  ∃ b' k', k'.1 = [] ∧
    @shell_event_loop _ ex_ipc _ (fun pid l => Done (l ++ [pid])) 4 Target_12_0_0 ex_objects []
      (zreplicate Tipc.BUFFER Byte.x00, ([(80, 4); (80, 1); (81, 1)], [])) = Done ([80; 81], (b', k')).
Proof.
  apply (@shell_events_served _ ex_ipc _ (fun pid l => Done (l ++ [pid])) ex_objects fst
    (zreplicate Tipc.BUFFER Byte.x00) ([(80, 4); (80, 1); (81, 1)], []) []); [apply ex_observes|done|].
  repeat constructor; cbn; lia.
Defined.

Definition ex_event {A} (o : outs A) : Z + A :=
  match o with
  | pair a b => match a in outs A, b in outs B return Z + A * B with raw _, raw _ => inr (1, 80) | _, _ => inl 1 end
  | _ => inl 1
  end.

(** With an event from the shell and nothing defined about the error of a value, the call is
    undefined. *)
Lemma old_shell_events_witness :
  @GetShellEventInfo _ (mk_ipc unit (fun _ b k => (0, b, k))
      (fun A _ _ _ o s => Done (ex_event o, s))
      (fun s => Done (inl 1, s)) (fun _ _ s => Done (inl 1, s)) (fun _ _ s => Done (inl 1, s)) (fun A _ => Undefined))
    Target_6_0_0 ex_objects ([], tt) = Undefined.
Proof. by rewrite (old_shell_events _ _ _ 1 80 ([], tt)). Defined.

Lemma launch_reaches_loader_witness :
  ∃ raw b' k', let rq := Tipc.mk_request 16 false [] raw in
    launch_view raw = [0x0100000000006482; 0; 0xb; 0] ∧ zlen raw = 24 ∧ k'.2 = [rq] ∧
    @LaunchProgram _ ex_ipc Target_12_0_0 ex_objects 0xb 0x0100000000006482 0 [Byte.x01] (zreplicate Tipc.BUFFER Byte.x00, ([], [])) =
      Done (inr 77, (b', k')).
Proof.
  refine (@launch_reaches_loader _ ex_ipc ex_objects (fun _ => Tipc.mk_reply 0 0 [] [] (le_split 8 77)) snd 0xb _ 0 [Byte.x01]
    (zreplicate Tipc.BUFFER Byte.x00) ([], []) _ _ _ _ _ _).
  - intros b k. by do 2 eexists.
  - intros _. split; cbn; (lia || done || constructor).
  - done.
  - done.
  - done.
  - done.
Defined.
End Services.
