(* ===== verification/DeviceInterface.v ===== *)
(** * twili/bridge/interfaces/ITwibDeviceInterface.{hpp,cpp}: the device's first object

    The handlers of the interface.  A handler is a computation over the system's state, as in
    [Services], and returns the list of what it answered under the request's opener: one that forgets
    to return after an error would have two entries, one that forgets to answer none.  [handle] is
    the dispatcher for eleven of its seventeen commands.  ListProcesses, which writes its response
    while it goes, is [ListProcesses]; the other five are with the components they are about:
    [Process.CreateMonitoredProcess], [Process.DeviceTerminate], [CrashReport.Generate],
    [Debugger.OpenActiveDebugger] and [Filesystem.OpenFilesystemAccessor].

    The debugging calls of the kernel are [Kernel.debug_svc]; the encoding of msgpack objects is an
    argument.  What PrintDebugInfo prints is left out. *)
From S2P Require Import Prelude Err Protocol MessageConnection Request Response Kernel Services.
Import Protocol.
Local Open Scope Z_scope.

Module DeviceInterface.
Import Err Kernel.
#[local] Existing Instances Services.M_ret Services.M_bind.

(** The kernel's list of processes, at most as many as asked for, what it tells of the device's own
    process, its named ports, and a request that sends a buffer. *)
Class device_svc (K : Type) := {
  svcGetProcessList : Z → K → Z + list Z;
  svcGetInfo : Z → K → Z + Z;
  svcConnectToNamedPort : string → K → Z + Z;
  send_buffer : Z → Z → Z → bytes → K → (Z + unit) * K }.

(** What a msgpack object here is made of. *)
Inductive field_value : Type := Str (s : bytes) | Num (n : Z) | Bin (b : bytes) | Objects (l : list (list (string * Z))).
Definition msgpack_object : Type := list (string * field_value).

Section interface.
Context {K : Type} `{!debug_svc K} `{!Services.ipc K} `{!device_svc K}.
Context (dump : msgpack_object → bytes).
(** The services of the system's version, and the code of libtransistor for what is missing. *)
Context (version : Services.api) (services : Services.objects) (unspecified : Z).
Notation M := (Services.M K).

Definition answer : Type := Z + list Response.value.
(** What was answered, and under which opener. *)
Definition replies : Type := list (Z * answer).
Definition RespondError (opener code : Z) : replies := [(opener, inl code)].
Definition RespondOk (opener : Z) (args : list Response.value) : replies := [(opener, inr args)].
Definition kernel {A} (f : K → A * K) : M A := fun s => let '(a, k) := f s.2 in Done (a, (s.1, k)).
Definition kernel_state {A} (f : K → A) : M A := fun s => Done (f s.2, s).
(** [TWILI_BRIDGE_CHECK]: answers an error, and returns. *)
Definition check {A} (opener : Z) (r : Z + A) (f : A → M replies) : M replies :=
  match r with inl code => mret (RespondError opener code) | inr a => f a end.

(** ** The list of processes *)

Definition SELF : Z := 0xffff8001.
Record process_report : Type := mk_report {
  process_id : Z; result : Z; title_id : Z; process_name : bytes; mmu_flags : Z }.
Definition sizeof_ProcessReport : Z := 40.
(** [padding] is what lies between the result and the title. *)
Definition encode_report (padding : bytes) (p : process_report) : bytes :=
  encode_fields [(8%nat, process_id p); (4%nat, result p)] ++ ztake 4 (padding ++ zreplicate 4 Byte.x00) ++
  encode_fields [(8%nat, title_id p)] ++ process_name p ++ encode_fields [(4%nat, mmu_flags p)].

Definition set_result (code : Z) (p : process_report) : process_report :=
  mk_report (process_id p) code (title_id p) (process_name p) (mmu_flags p).
Definition attach (e : debug_event) (p : process_report) : process_report :=
  if event_type e =? ATTACH_PROCESS
  then mk_report (process_id p) (result p) (attach_title_id e) (attach_process_name e) (attach_mmu_flags e)
  else p.
Fixpoint report_events (fuel : nat) (debug : Z) (p : process_report) : M process_report :=
  match fuel with
  | O => Services.lift OutOfFuel
  | S fuel =>
      er ← kernel (svcGetDebugEvent debug);
      match er with
      | inr e => report_events fuel debug (attach e p)
      | inl code => mret (if code =? no_event then p else set_result code p)
      end
  end.
(** The debug handle is closed when the report is made. *)
Definition report_process (fuel : nat) (my_pid pid : Z) : M process_report :=
  let p := mk_report pid 0 0 (zreplicate 12 Byte.x00) 0 in
  if pid =? my_pid then mret (set_result TWILI_ERR_WONT_DEBUG_SELF p)
  else
    dr ← kernel (svcDebugActiveProcess pid);
    match dr with
    | inl code => mret (set_result code p)
    | inr debug =>
        p ← report_events fuel debug p;
        _ ← kernel (fun k => (tt, svcCloseHandle debug k));
        mret p
    end.

Section responding.
Context {T : Type} `{!Response.ResponseStateImpl T} (junk_object_id junk_pad : Z) (padding : bytes).
Fixpoint report_loop (fuel : nat) (my_pid : Z) (pids : list Z) (r : Response.ResponseState T) : M (Response.ResponseState T) :=
  match pids with
  | [] => mret r
  | pid :: pids =>
      p ← report_process fuel my_pid pid;
      r ← Services.lift (Response.Write (encode_report padding p) r);
      report_loop fuel my_pid pids r
  end.
Definition ListProcesses (fuel : nat) (r : Response.ResponseState T) : M (Response.ResponseState T) :=
  l ← kernel_state (svcGetProcessList 256); pids ← Services.Assert l;
  me ← kernel_state (svcGetProcessId SELF); my_pid ← Services.Assert me;
  r ← Services.lift (Response.BeginOk junk_object_id junk_pad (u64 (u64 (sizeof_ProcessReport * zlen pids) + 8)) 0 r);
  r ← Services.lift (Response.Write (le_split 8 (zlen pids)) r);
  r ← report_loop fuel my_pid pids r;
  Services.lift (Response.Finalize r).
End responding.

(** ** The other handlers *)

Definition UpgradeTwili (opener : Z) : replies := RespondError opener unspecified.
Definition WaitToDebugApplication (opener : Z) : replies := RespondError opener TWILI_ERR_TODO.
Definition PrintDebugInfo (opener : Z) : replies := RespondOk opener [].

(** The answer goes out before the console restarts. *)
Definition Reboot (opener : Z) : M replies :=
  r ← Services.Initialize; sm ← Services.Assert r;
  r ← Services.GetService sm "spsm"; spsm ← Services.Assert r;
  let l := RespondOk opener [] in
  r ← Services.send spsm 3 [[Byte.x01]] Services.none; _ ← Services.Assert r;
  mret l.
Definition RebootUnsafe (opener : Z) : M replies :=
  r ← kernel_state (svcConnectToNamedPort "bpc:ams"); bpc_ams ← Services.Assert r;
  let l := RespondOk opener [] in
  r ← kernel (send_buffer bpc_ams 65000 0x15 (zreplicate 0x350 Byte.x00)); _ ← Services.Assert r;
  mret l.

(** [std::string] of characters up to the first zero; there has to be one. *)
Fixpoint c_string (l : bytes) : outcome bytes :=
  match l with
  | [] => Undefined
  | b :: l => if bool_decide (b = Byte.x00) then Done [] else s ← c_string l; Done (b :: s)
  end.
Definition Identify (opener : Z) : M replies :=
  r ← Services.Initialize; sm ← Services.Assert r;
  r ← Services.GetService sm "set:sys"; set_sys ← Services.Assert r;
  r ← Services.GetService sm "set:cal"; set_cal ← Services.Assert r;
  r ← Services.send set_sys 3 [] (Services.buffer 0x1a 0x100); check opener r (fun firmware_version =>
  r ← Services.send set_cal 9 [] (Services.buffer 0 0x18); check opener r (fun serial_number =>
  r ← Services.send set_cal 0 [] (Services.buffer 0 6); check opener r (fun bluetooth_bd_address =>
  r ← Services.send set_cal 6 [] (Services.buffer 0 6); check opener r (fun wireless_lan_mac_address =>
  r ← Services.send set_sys 77 [] (Services.buffer 0x16 0x80); check opener r (fun device_nickname =>
  r ← Services.send set_sys 90 [] (Services.buffer 0 16); check opener r (fun mii_author_id =>
  serial ← Services.lift (c_string serial_number);
  nickname ← Services.lift (c_string device_nickname);
  mret (RespondOk opener [Response.VMsgPack (dump [("service", Str (str "twili")); ("protocol", Num VERSION);
    ("firmware_version", Bin firmware_version); ("serial_number", Str serial); ("bluetooth_bd_address", Bin bluetooth_bd_address);
    ("wireless_lan_mac_address", Bin wireless_lan_mac_address); ("device_nickname", Str nickname);
    ("mii_author_id", Bin mii_author_id)])]))))))).

Fixpoint limits_loop (n : nat) (i : Z) (acc : list (list (string * Z))) (opener : Z)
    (f : list (list (string * Z)) → M replies) : M replies :=
  match n with
  | O => f acc
  | S n =>
      r ← Services.GetCurrentLimitInfo services i 0;
      check opener r (fun rl => limits_loop n (i + 1)
        (acc ++ [[("category", i); ("current_value", rl.1); ("limit_value", rl.2)]]) opener f)
  end.
Definition GetMemoryInfo (opener : Z) : M replies :=
  r ← kernel_state (svcGetInfo 6); check opener r (fun total_mem_available =>
  r ← kernel_state (svcGetInfo 7); check opener r (fun total_mem_usage =>
  limits_loop 3 0 [] opener (fun limits => mret (RespondOk opener [Response.VMsgPack (dump [
    ("total_memory_available", Num total_mem_available);
    ("total_memory_usage", Num total_mem_usage); ("limits", Objects limits)])])))).

Definition u64_value (v : Z) : Response.value := Response.VPod (le_split 8 v).
Definition LaunchUnmonitoredProcess (opener flags tid storage : Z) (padding : bytes) : M replies :=
  r ← Services.LaunchProgram version services flags tid (u32 storage) padding;
  check opener r (fun pid => mret (RespondOk opener [u64_value pid])).

(** ** Named pipes: a map ordered by name *)

Definition ListNamedPipes (opener : Z) (named_pipes : list (bytes * nat)) : replies :=
  RespondOk opener [Response.VVectorOf (map (fun p => Response.VString p.1) named_pipes)].
(** The pipe that the new reader object is for. *)
Definition OpenNamedPipe (name : bytes) (named_pipes : list (bytes * nat)) : Z + nat :=
  match find (fun p => bool_decide (p.1 = name)) named_pipes with
  | Some p => inr p.2
  | None => inl TWILI_ERR_NO_SUCH_PIPE
  end.
(** The answer, with the [reader] made for the pipe. *)
Definition OpenNamedPipe_answer (opener reader : Z) (name : bytes) (named_pipes : list (bytes * nat)) : replies :=
  match OpenNamedPipe name named_pipes with
  | inl code => RespondError opener code
  | inr _ => RespondOk opener [Response.VObject reader]
  end.

(** ** Waiting for a title *)

(** [wh_debug_title]: the client that waits, and the title. *)
Definition waiting : Type := option (Z * Z).
Definition WaitToDebugTitle (opener tid : Z) (wh : waiting) : M (replies * waiting) :=
  match wh with
  | Some _ => mret (RespondError opener TWILI_ERR_ALREADY_WAITING, wh)
  | None =>
      r ← Services.HookToCreateProcess version services tid;
      match r with
      | inl code => mret (RespondError opener code, wh)
      | inr ev_debug_title => mret ([], Some (opener, tid))
      end
  end.
(** The event was signalled. *)
Definition title_created (wh : waiting) : M (replies * waiting) :=
  match wh with
  | None => mret ([], None)
  | Some (opener, tid) =>
      r ← Services.GetProcessId version services tid;
      mret (match r with inl code => RespondError opener code | inr pid => RespondOk opener [u64_value pid] end, None)
  end.

(** ** The interface over time *)

Inductive op : Type :=
| OpReboot | OpUpgradeTwili | OpIdentify | OpListNamedPipes | OpOpenNamedPipe (name : bytes) | OpGetMemoryInfo
| OpPrintDebugInfo | OpLaunchUnmonitoredProcess (flags tid storage : Z)
| OpWaitToDebugApplication | OpWaitToDebugTitle (tid : Z) | OpRebootUnsafe.
(** [reader] is the number a new object gets. *)
Definition handle (padding : bytes) (named_pipes : list (bytes * nat)) (reader : Z) (o : op) (opener : Z) (wh : waiting) :
    M (replies * waiting) :=
  let still (m : M replies) : M (replies * waiting) := l ← m; mret (l, wh) in
  match o with
  | OpReboot => still (Reboot opener)
  | OpUpgradeTwili => still (mret (UpgradeTwili opener))
  | OpIdentify => still (Identify opener)
  | OpListNamedPipes => still (mret (ListNamedPipes opener named_pipes))
  | OpOpenNamedPipe name => still (mret (OpenNamedPipe_answer opener reader name named_pipes))
  | OpGetMemoryInfo => still (GetMemoryInfo opener)
  | OpPrintDebugInfo => still (mret (PrintDebugInfo opener))
  | OpLaunchUnmonitoredProcess flags tid storage => still (LaunchUnmonitoredProcess opener flags tid storage padding)
  | OpWaitToDebugApplication => still (mret (WaitToDebugApplication opener))
  | OpWaitToDebugTitle tid => WaitToDebugTitle opener tid wh
  | OpRebootUnsafe => still (RebootUnsafe opener)
  end.
End interface.

(** The tool's entry of the list (twib/tool/interfaces/ITwibDeviceInterface.hpp). *)
Definition decode_entry (l : bytes) : process_report :=
  mk_report (field 0 8 l) (field 8 4 l) (field 16 8 l) (slice 24 12 l) (field 36 4 l).

(** ** What the list should say *)

Section reports.
Context {K : Type} `{!debug_svc K}.

(** The events of a handle, and the code after them. *)
Inductive ends (h : Z) : K → list debug_event → Z → K → Prop :=
| ends_code k code k' : svcGetDebugEvent h k = (inl code, k') → ends h k [] code k'
| ends_event k k1 k2 e es code :
    svcGetDebugEvent h k = (inr e, k1) → ends h k1 es code k2 → ends h k (e :: es) code k2.

Definition blank (pid code : Z) : process_report := mk_report pid code 0 (zreplicate 12 Byte.x00) 0.
(** The last attach event names the process; a code other than "no event" is its result. *)
Definition report_of (pid : Z) (es : list debug_event) (code : Z) : process_report :=
  let code := if code =? no_event then 0 else code in
  match last (filter (fun e => event_type e = ATTACH_PROCESS) es) with
  | Some e => mk_report pid code (attach_title_id e) (attach_process_name e) (attach_mmu_flags e)
  | None => blank pid code
  end.

(** What is seen of a process, in fewer than [fuel] events. *)
Inductive seen (fuel : nat) (my_pid : Z) (k : K) (pid : Z) : process_report → K → Prop :=
| seen_self : pid = my_pid → seen fuel my_pid k pid (blank pid TWILI_ERR_WONT_DEBUG_SELF) k
| seen_denied code k' :
    pid ≠ my_pid → svcDebugActiveProcess pid k = (inl code, k') → seen fuel my_pid k pid (blank pid code) k'
| seen_attached h k1 es code k2 :
    pid ≠ my_pid → svcDebugActiveProcess pid k = (inr h, k1) → ends h k1 es code k2 → (length es < fuel)%nat →
    seen fuel my_pid k pid (report_of pid es code) (svcCloseHandle h k2).
Inductive all_seen (fuel : nat) (my_pid : Z) : K → list Z → list process_report → K → Prop :=
| all_seen_nil k : all_seen fuel my_pid k [] [] k
| all_seen_cons k k1 k2 pid pids p ps :
    seen fuel my_pid k pid p k1 → all_seen fuel my_pid k1 pids ps k2 → all_seen fuel my_pid k (pid :: pids) (p :: ps) k2.

Definition report_ok (p : process_report) : Prop :=
  0 ≤ process_id p < 2 ^ 64 ∧ 0 ≤ result p < 2 ^ 32 ∧ 0 ≤ title_id p < 2 ^ 64 ∧ zlen (process_name p) = 12 ∧
  0 ≤ mmu_flags p < 2 ^ 32.

(** ** Lemmas *)

Lemma zlen_encode_report pad p : zlen (process_name p) = 12 → zlen (encode_report pad p) = sizeof_ProcessReport.
Proof.
  intros Hn. unfold encode_report. rewrite !zlen_app, !zlen_encode_fields, zlen_ztake, zlen_app, zlen_zreplicate.
  zlen_facts. cbn [foldr fst]. unfold sizeof_ProcessReport. lia.
Qed.

Lemma decode_encode_entry pad p : report_ok p → decode_entry (encode_report pad p) = p.
Proof.
  intros (Hp & Hr & Ht & Hn & Hm). destruct p as [pid r t name flags]. cbn [process_id result title_id process_name mmu_flags] in *.
  unfold decode_entry, encode_report. cbn [process_id result title_id process_name mmu_flags].
  set (pd := ztake 4 _). assert (zlen pd = 4) as Hpd.
  { unfold pd. rewrite zlen_ztake, zlen_app, zlen_zreplicate. zlen_facts. lia. }
  assert (∀ a b : Z, zlen (encode_fields [(8%nat, a); (4%nat, b)]) = 12) as H12 by (intros; by rewrite zlen_encode_fields).
  assert (∀ a : Z, zlen (encode_fields [(8%nat, a)]) = 8) as H8 by (intros; by rewrite zlen_encode_fields).
  rewrite field_here by done. rewrite (field_later _ _ _ _ 8) by done. rewrite field_here by done.
  rewrite !(field_app (encode_fields [(8%nat, pid); (4%nat, r)])), slice_app by (rewrite H12; done). rewrite !H12.
  rewrite !(field_app pd), (slice_app pd) by (rewrite Hpd; done). rewrite !Hpd, field_here by done.
  rewrite field_app, slice_app by (rewrite H8; done). rewrite !H8.
  rewrite field_app, slice_front by (rewrite Hn; done). rewrite Hn.
  rewrite <- (app_nil_r (encode_fields [(4%nat, flags)])), field_here by done. by rewrite !Z.mod_small.
Qed.

Lemma report_events_spec fuel h p b k es code k' :
  ends h k es code k' → (length es < fuel)%nat →
  report_events fuel h p (b, k) =
    Done ((if code =? no_event then foldl (fun p e => attach e p) p es else set_result code (foldl (fun p e => attach e p) p es)), (b, k')).
Proof.
  intros He. revert fuel p. induction He as [k code k' E|k k1 k2 e es code E _ IH]; intros [|fuel] p Hf; try (cbn in Hf; lia).
  - cbn [report_events]. erewrite Services.run_bind by (unfold kernel; cbn [fst snd]; by rewrite E). reflexivity.
  - cbn [report_events]. erewrite Services.run_bind by (unfold kernel; cbn [fst snd]; by rewrite E).
    cbn [foldl]. apply IH. cbn in Hf. lia.
Qed.

Lemma attach_all es p :
  foldl (fun p e => attach e p) p es =
    match last (filter (fun e => event_type e = ATTACH_PROCESS) es) with
    | Some e => mk_report (process_id p) (result p) (attach_title_id e) (attach_process_name e) (attach_mmu_flags e)
    | None => p
    end.
Proof.
  induction es as [|e es IH] using rev_ind; [done|].
  rewrite foldl_app, filter_app. cbn [foldl]. rewrite IH. unfold attach. cbn [filter list_filter].
  destruct (decide (event_type e = ATTACH_PROCESS)) as [E|E].
  - rewrite (proj2 (Z.eqb_eq _ _) E), last_snoc. by destruct (last _).
  - rewrite (proj2 (Z.eqb_neq _ _) E), app_nil_r. done.
Qed.

Lemma report_process_spec fuel my_pid pid p b k k' :
  seen fuel my_pid k pid p k' → report_process fuel my_pid pid (b, k) = Done (p, (b, k')).
Proof.
  intros [E|code k1 E Ed|h k1 es code k2 E Ed He Hf]; unfold report_process.
  - by rewrite (proj2 (Z.eqb_eq _ _) E).
  - rewrite (proj2 (Z.eqb_neq _ _) E). by erewrite Services.run_bind by (unfold kernel; cbn [fst snd]; by rewrite Ed).
  - rewrite (proj2 (Z.eqb_neq _ _) E). erewrite Services.run_bind by (unfold kernel; cbn [fst snd]; by rewrite Ed). cbv beta iota.
    erewrite Services.run_bind by (by apply (report_events_spec _ _ _ _ _ es code k2)).
    unfold mbind, Services.M_bind, kernel. cbn [fst snd mbind outcome_bind]. unfold mret, Services.M_ret. do 2 f_equal.
    rewrite attach_all. unfold report_of, blank. by destruct (last _), (code =? no_event).
Qed.

Lemma report_loop_spec {T} `{!Response.ResponseStateImpl T} `{!Response.ResponseStateLaws T} pad fuel my_pid b k pids ps k' :
  all_seen fuel my_pid k pids ps k' →
  ∀ r : Response.ResponseState T, Response.good (Response.transport r) → u64 (Response.transferred_size r) = Response.transferred_size r →
  ∃ r', report_loop pad fuel my_pid pids r (b, k) = Done (r', (b, k')) ∧
    Response.wrote r (concat (map (encode_report pad) ps)) [] r'.
Proof.
  induction 1 as [k|k k1 k2 pid pids p ps Hseen _ IH]; intros r Hg Hu.
  - exists r. split; [done|]. by apply Response.wrote_nil.
  - cbn [report_loop map concat]. rewrite (Services.run_bind _ _ _ _ _ (report_process_spec _ _ _ _ b _ _ Hseen)).
    destruct (Response.Write_wrote (encode_report pad p) r Hg Hu) as (r1 & E1 & W1).
    rewrite Services.run_lift, E1. cbn [mbind outcome_bind].
    destruct (IH r1) as (r' & E' & W2); [apply W1|by eapply Response.wrote_range|].
    exists r'. split; [exact E'|]. exact (Response.wrote_trans _ _ _ _ _ _ _ W1 W2).
Qed.

Lemma all_seen_length fuel my_pid k pids ps k' : all_seen fuel my_pid k pids ps k' → length ps = length pids.
Proof. induction 1; cbn; lia. Qed.
Lemma seen_pid fuel my_pid k pid p k' : seen fuel my_pid k pid p k' → process_id p = pid.
Proof. intros [| |h k1 es code k2]; [done..|]. unfold report_of. by destruct (last _). Qed.
Lemma all_seen_pids fuel my_pid k pids ps k' : all_seen fuel my_pid k pids ps k' → map process_id ps = pids.
Proof. induction 1 as [|k k1 k2 pid pids p ps Hs _ IH]; [done|]. cbn [map]. by rewrite IH, (seen_pid _ _ _ _ _ _ Hs). Qed.
End reports.

(** ** Theorems *)

(** C31: the list of processes.  The device attaches to each process but its own, and the answer is
    one message with as many entries as processes, in any transport.  The tool reads from them, in
    order, each process's id, and its title, name and flags as the last attach event gave them, or
    the code for which they could not be had; every process is let go again. *)
Theorem process_list_reported {K T} `{!debug_svc K} `{!device_svc K} `{!Response.ResponseStateImpl T}
    `{!Response.ResponseStateLaws T} (jo jp : Z) pad fuel c tg (t : T) b k pids my_pid ps k' :
  svcGetProcessList 256 k = inr pids → svcGetProcessId SELF k = inr my_pid → zlen pids ≤ 256 →
  all_seen fuel my_pid k pids ps k' → Forall report_ok ps →
  Response.good t → 0 ≤ Response.GetMaxTransferSize t →
  let entries := map (encode_report pad) ps in
  ∃ r', ListProcesses jo jp pad fuel (Response.new_ResponseState c tg t) (b, k) = Done (r', (b, k')) ∧
    Response.wire (Response.transport r') = Response.wire t ++
      encode_message (Response.response_message c tg 0 jo jp [Response.VVector sizeof_ProcessReport entries]) ∧
    map decode_entry entries = ps ∧ map process_id ps = pids.
Proof.
  intros Hl Hme Hn Hseen Hok Hg Ht entries.
  pose proof (all_seen_length _ _ _ _ _ _ Hseen) as Ln.
  assert (zlen entries = zlen pids) as Le by (unfold entries, zlen; rewrite length_map; lia).
  assert (zlen (concat entries) = sizeof_ProcessReport * zlen pids) as Lc.
  { rewrite (Response.zlen_concat_uniform sizeof_ProcessReport), Le; [lia|]. apply Forall_map.
    eapply Forall_impl; [exact Hok|]. intros p (_ & _ & _ & Hp & _). by apply zlen_encode_report. }
  unfold sizeof_ProcessReport in Lc. pose proof (zlen_nonneg pids).
  unfold ListProcesses.
  erewrite Services.run_bind by (unfold kernel_state; cbn [fst snd]; by rewrite Hl). rewrite Services.Assert_ok, Services.run_ret.
  erewrite Services.run_bind by (unfold kernel_state; cbn [fst snd]; by rewrite Hme). rewrite Services.Assert_ok, Services.run_ret.
  change (sizeof_ProcessReport * zlen pids) with (40 * zlen pids). rewrite (u64_small (40 * _)), u64_small by lia.
  destruct (Response.BeginOk_spec jo jp (40 * zlen pids + 8) c tg t Hg Ht)
    as (r1 & E1 & Hg1 & Hts & Htot & Hob & Hex & Hmax & Hw1). rewrite Services.run_lift, E1. cbn [mbind outcome_bind].
  destruct (Response.Write_wrote (le_split 8 (zlen pids)) r1 Hg1) as (r2 & E2 & W2); [by rewrite Hts|].
  rewrite Services.run_lift, E2. cbn [mbind outcome_bind].
  destruct (report_loop_spec pad fuel my_pid b k pids ps k' Hseen r2) as (r3 & E3 & W3);
    [apply W2|by eapply Response.wrote_range|]. rewrite (Services.run_bind _ _ _ _ _ E3).
  pose proof (Response.wrote_trans _ _ _ _ _ _ _ W2 W3) as W. fold entries in W.
  destruct (Response.Finalize_spec _ _ _ W) as (r' & E & _ & Hw');
    [done|rewrite Htot, zlen_app, zlen_le_split, Lc; lia|done|done|rewrite zlen_app, zlen_le_split, Lc; lia|lia|].
  exists r'. split_and!.
  - unfold Services.lift. by rewrite E.
  - rewrite Hw', Hw1, <- app_assoc. f_equal. unfold Response.response_message. cbn [Response.packed_list Response.packed].
    unfold encode_message. cbn [m_header m_payload m_objects]. rewrite !app_nil_r, Le, zlen_app, zlen_le_split, Lc.
    do 3 f_equal; change (zlen []) with 0; lia.
  - unfold entries. rewrite map_map. clear -Hok. induction Hok as [|p ps Hp _ IH]; [done|].
    cbn [map]. by rewrite IH, decode_encode_entry.
  - by eapply all_seen_pids.
Qed.

(** ** Requests over time *)

Section runs.
Context {K : Type} `{!debug_svc K} `{!Services.ipc K} `{!device_svc K}.
Context (dump : msgpack_object → bytes) (version : Services.api) (services : Services.objects) (unspecified : Z).

(** Requests, the event of a title's process, and what each answered. *)
Inductive item : Type :=
| Requested (o : op) (opener : Z) (l : replies)
| Created (l : replies).
Inductive runs : waiting → Services.state K → list item → waiting → Services.state K → Prop :=
| runs_nil wh s : runs wh s [] wh s
| runs_request padding named_pipes reader o opener l wh s wh1 s1 tr wh2 s2 :
    handle dump version services unspecified padding named_pipes reader o opener wh s = Done (l, wh1, s1) →
    runs wh1 s1 tr wh2 s2 → runs wh s (Requested o opener l :: tr) wh2 s2
| runs_created l wh s wh1 s1 tr wh2 s2 :
    title_created version services wh s = Done (l, wh1, s1) →
    runs wh1 s1 tr wh2 s2 → runs wh s (Created l :: tr) wh2 s2.
Definition item_answers (i : item) : replies := match i with Requested _ _ l => l | Created l => l end.
Definition item_openers (i : item) : list Z := match i with Requested _ opener _ => [opener] | Created _ => [] end.
Definition waits (wh : waiting) : list Z := match wh with Some (opener, _) => [opener] | None => [] end.

Lemma bind_inv {A B} (m : Services.M K A) (f : A → Services.M K B) s r :
  (m ≫= f) s = Done r → ∃ a s1, m s = Done (a, s1) ∧ f a s1 = Done r.
Proof. intros ([a s1] & Em & Ef)%bind_Done_inv. by exists a, s1. Qed.

(** Every answer is one answer under [opener]. *)
Definition answers_once (opener : Z) (m : Services.M K replies) : Prop :=
  ∀ s l s', m s = Done (l, s') → map fst l = [opener].
Lemma once_ret opener a : answers_once opener (mret [(opener, a)]).
Proof. by intros s l s' [= <- _]. Qed.
Lemma once_bind {A} opener (m : Services.M K A) f :
  (∀ a, answers_once opener (f a)) → answers_once opener (m ≫= f).
Proof. intros Hf s l s' (a & s1 & _ & E)%bind_inv. by eapply Hf. Qed.
Lemma once_check {A} opener (r : Z + A) f : (∀ a, answers_once opener (f a)) → answers_once opener (check opener r f).
Proof. intros Hf. destruct r; [apply once_ret|apply Hf]. Qed.
Ltac each_once := repeat (apply once_bind || apply once_check || apply once_ret; intros).

Lemma handle_openers padding pipes reader o opener wh s l wh' s' :
  handle dump version services unspecified padding pipes reader o opener wh s = Done (l, wh', s') →
  map fst l ++ waits wh' ≡ₚ opener :: waits wh.
Proof.
  assert (Hstill : ∀ m, answers_once opener m →
    (l ← m; mret (l, wh) : Services.M K (replies * waiting)) s = Done (l, wh', s') → map fst l ++ waits wh' ≡ₚ opener :: waits wh).
  { intros m Hm (a & s1 & E & [= <- <- _])%bind_inv. by rewrite (Hm _ _ _ E). }
  unfold handle. destruct o; try apply Hstill.
  - unfold Reboot. each_once.
  - apply once_ret.
  - unfold Identify. each_once.
  - apply once_ret.
  - unfold OpenNamedPipe_answer. destruct (OpenNamedPipe _ _); apply once_ret.
  - unfold GetMemoryInfo. each_once.
  - apply once_ret.
  - unfold LaunchUnmonitoredProcess. each_once.
  - apply once_ret.
  - unfold WaitToDebugTitle. destruct wh as [[o' tid']|]; [by intros [= <- <- _]|].
    intros (r & s1 & _ & Hr)%bind_inv. destruct r; by injection Hr as <- <- _.
  - unfold RebootUnsafe. each_once.
Qed.
Lemma created_openers wh s l wh' s' :
  title_created version services wh s = Done (l, wh', s') → map fst l ++ waits wh' = waits wh.
Proof.
  unfold title_created. destruct wh as [[o tid]|]; [|by intros [= <- <- _]].
  intros (r & s1 & _ & Hr)%bind_inv. destruct r; by injection Hr as <- <- _.
Qed.

(** C32: each of eleven commands of the interface (reboot and its unsafe form, upgrade, identify, the
    two for named pipes, memory, debug information, launch, and the two waits) is answered once on
    every path that comes back.  In a run of such requests, with the events that wake the waiting
    client, the answers given, with the one client that still waits, are those of the requests made,
    with the one that waited before: none is answered twice and none forgotten; and a second wait is
    refused while one waits. *)
Theorem device_requests_answered wh s tr wh' s' :
  runs wh s tr wh' s' →
  map fst (tr ≫= item_answers) ++ waits wh' ≡ₚ waits wh ++ (tr ≫= item_openers) ∧
  (∀ opener tid o padding pipes reader s0, wh' = Some o →
     handle dump version services unspecified padding pipes reader (OpWaitToDebugTitle tid) opener wh' s0 =
       Done ([(opener, inl TWILI_ERR_ALREADY_WAITING)], wh', s0)).
Proof.
  intros Hr. split; [|by intros opener tid o padding pipes reader s0 ->].
  induction Hr as [|padding pipes reader o opener l wh s wh1 s1 tr wh2 s2 E _ IH|l wh s wh1 s1 tr wh2 s2 E _ IH].
  - by rewrite app_nil_r.
  - apply handle_openers in E. rewrite !bind_cons, map_app, <- app_assoc, IH. cbn [item_answers item_openers].
    rewrite app_assoc, E. cbn [app]. apply Permutation_middle.
  - apply created_openers in E. rewrite !bind_cons, map_app, <- app_assoc, IH. cbn [item_answers item_openers].
    by rewrite app_assoc, E.
Qed.
End runs.

(** ** Examples *)

(** A kernel with three processes: the device, one that can be debugged and has one attach event,
    and one that cannot. *)
Definition ex_attach : debug_event :=
  encode_fields [(4%nat, ATTACH_PROCESS); (4%nat, 0); (8%nat, 0); (8%nat, 0x0100000000006480); (8%nat, 81)] ++
  str "hello_world_" ++ encode_fields [(4%nat, 7)] ++ zreplicate 96 Byte.x00.
#[local] Instance ex_kernel : debug_svc (list debug_event) := {
  svcDebugActiveProcess := fun pid k => if pid =? 81 then (inr 9, k) else (inl 5, k);
  svcCloseHandle := fun _ k => k;
  svcGetProcessId := fun h _ => inr 80;
  svcGetDebugEvent := fun _ k => match k with [] => (inl no_event, []) | e :: k => (inr e, k) end;
  svcContinueDebugEvent := fun _ _ _ k => (0, k);
  svcBreakDebugProcess := fun _ k => (0, k);
  svcQueryDebugProcessMemory := fun _ _ _ => inl 1;
  svcReadDebugProcessMemory := fun _ _ _ _ => inl 1;
  svcWriteDebugProcessMemory := fun _ _ _ k => (0, k);
  svcGetDebugThreadContext := fun _ _ _ _ => inl 1;
  svcSetDebugThreadContext := fun _ _ _ _ k => (0, k) }.
#[local] Instance ex_device : device_svc (list debug_event) := {
  svcGetProcessList := fun _ _ => inr [80; 81; 82]; svcGetInfo := fun _ _ => inr 0;
  svcConnectToNamedPort := fun _ _ => inr 8; send_buffer := fun _ _ _ _ k => (inr tt, k) }.
Definition ex_reports : list process_report :=
  [blank 80 TWILI_ERR_WONT_DEBUG_SELF; mk_report 81 0 0x0100000000006480 (str "hello_world_") 7; blank 82 5].

Lemma ex_all_seen : all_seen 2 80 [ex_attach] [80; 81; 82] ex_reports [].
Proof.
  eapply all_seen_cons; [by apply seen_self|]. eapply all_seen_cons.
  - change (mk_report 81 0 0x0100000000006480 (str "hello_world_") 7) with (report_of 81 [ex_attach] no_event).
    eapply (seen_attached _ _ _ _ 9); [done|done|by repeat econstructor|cbn; lia].
  - eapply all_seen_cons; [by apply seen_denied|constructor].
Qed.
Lemma ex_reports_ok : Forall report_ok ex_reports.
Proof.
  unfold ex_reports. rewrite !Forall_cons. split_and!; try apply Forall_nil_2.
  all: vm_compute; intuition discriminate.
Qed.
Lemma process_list_reported_witness :
  let t := Response.mk_tcp tt false 7 [] [] in
  ∃ r', @ListProcesses _ ex_kernel ex_device _ (Response.tcp_impl Response.slow_send) 0 0 [] 2 (Response.new_ResponseState 4 5 t) ([], [ex_attach]) =
      Done (r', ([], [])) ∧
    map decode_entry (map (encode_report []) ex_reports) = ex_reports ∧ map process_id ex_reports = [80; 81; 82].
Proof.
  intros t.
  destruct (@process_list_reported _ _ ex_kernel ex_device (Response.tcp_impl Response.slow_send) (Response.tcp_laws Response.slow_send Response.slow_sends)
    0 0 [] 2 4 5 t [] [ex_attach] [80; 81; 82] 80 ex_reports [] eq_refl eq_refl) as (r' & E & _ & Hd & Hp).
  - done.
  - exact ex_all_seen.
  - exact ex_reports_ok.
  - done.
  - done.
  - exists r'. by split_and!.
Defined.

(** Two clients wait for a title: the second is refused, and the first is given the pid. *)
Definition ex_output {A} (o : Services.outs A) : Z + A :=
  match o in Services.outs A return Z + A with
  | Services.copy_handle => inr 3 | Services.raw _ => inr 77 | _ => inl 1
  end.
#[local] Instance ex_ipc : Services.ipc (list debug_event) :=
  Services.mk_ipc _ (fun _ b k => (0, b, k)) (fun A _ _ _ o s => Done (ex_output o, s)) (fun s => Done (inl 1, s))
    (fun _ _ s => Done (inl 1, s)) (fun _ _ s => Done (inl 1, s)) (fun A _ => Undefined).
Definition ex_services : Services.objects := Services.mk_objects 1 2 3 4 5 6 7 8 9 10.
Definition ex_trace : list item :=
  [Requested (OpWaitToDebugTitle 100) 1 []; Requested (OpWaitToDebugTitle 100) 2 [(2, inl TWILI_ERR_ALREADY_WAITING)];
   Requested OpUpgradeTwili 3 [(3, inl 9)]; Requested (OpOpenNamedPipe (str "debug")) 4 [(4, inr [Response.VObject 12])];
   Requested (OpOpenNamedPipe (str "none")) 5 [(5, inl TWILI_ERR_NO_SUCH_PIPE)];
   Requested OpRebootUnsafe 6 [(6, inr [])]; Created [(1, inr [u64_value 77])]].
Lemma ex_runs :
  runs (fun _ => []) Services.Target_6_0_0 ex_services 9 None ([], []) ex_trace None ([], []).
Proof.
  do 6 (eapply (runs_request _ _ _ _ [] [(str "debug", 0%nat)] 12); [reflexivity|]).
  eapply runs_created; [reflexivity|]. constructor.
Qed.
Lemma device_requests_answered_witness :
  map fst (ex_trace ≫= item_answers) ++ [] ≡ₚ [] ++ [1; 2; 3; 4; 5; 6].
Proof. exact (proj1 (device_requests_answered _ _ _ _ _ _ _ _ _ ex_runs)). Defined.
End DeviceInterface.
