(* ===== verification/DeviceService.v ===== *)
(** * twili/service: the services the device offers to the programs on it

    ITwiliService, which every program can open, and the two kinds of IAppletShim.  Their
    requests find a pipe, or attach the program as the shim of a process of [Process].  The objects
    they hand out are those of [Shim] and [PipeClients].  The named pipes are the map the bridge's
    device interface ([DeviceInterface]) shows to the tool: [std::map], ordered by the names'
    bytes; the pipes themselves are numbered, as the code shares pointers to them. *)
From S2P Require Import Prelude Err Buffer Pipe PipeClients Files Process Shim DeviceInterface.
From Stdlib Require Import Sorted.

Module DeviceService.
Import Err.
Import Files(EOK, FILE).

(** ** State *)

Inductive standard : Type := Stdin | Stdout | Stderr.
(** The device's own stream, a pipe of a process, or a named pipe. *)
Inductive pipe_ref : Type := OwnFile (fd : Z) | OfProcess (p : nat) (s : standard) | Named (i : nat).
Inductive object : Type :=
| Pipe (r : pipe_ref)
| HBABIShim (h : Shim.hbabi)
| ControlImpl | HostImpl (p : nat) | Controller (p : nat).

Record twili : Type := mk_twili {
  processes : Process.world;
  named_pipes : list (bytes * nat);
  pipes : list PipeClients.pipe;
  clients : PipeClients.world;
  destroy_flag : bool }.
Definition set_processes (w : Process.world) (t : twili) : twili :=
  mk_twili w (named_pipes t) (pipes t) (clients t) (destroy_flag t).

(** *** [std::map<std::string, ...>] *)

Fixpoint less (a b : bytes) : bool :=
  match a, b with
  | _, [] => false
  | [], _ => true
  | x :: a, y :: b =>
      if (Byte.to_N x <? Byte.to_N y)%N then true
      else if (Byte.to_N y <? Byte.to_N x)%N then false else less a b
  end.
Fixpoint emplace (name : bytes) (i : nat) (m : list (bytes * nat)) : list (bytes * nat) * bool :=
  match m with
  | [] => ([(name, i)], true)
  | (k, j) :: m' =>
      if less name k then ((name, i) :: m, true)
      else if less k name then let '(r, b) := emplace name i m' in ((k, j) :: r, b)
      else (m, false)
  end.

(** ** Operations *)

Inductive request : Type :=
| Empty | InPid (pid : Z) | InPidProcess (pid process : Z) | InName (name_buffer : bytes).

Section service.
Context (fopen : string → option FILE) (memory : Z → list (Z * Z * Z * Z)) (svc_error : Z).
Context (TerminateProcess : Z → Z) (SetExternalContentSource ClearExternalContentSource AttachSession : nat → Z).
Context (library_applet : Z) (pipe_buffer_size_limit : Z).
#[local] Notation AttachHostProcess := (Process.AttachHostProcess fopen memory svc_error TerminateProcess ClearExternalContentSource).
#[local] Notation ShellAttachHostProcess := (Process.ShellAttachHostProcess fopen memory svc_error TerminateProcess ClearExternalContentSource).
#[local] Notation PopApplet := (Process.PopApplet fopen memory svc_error TerminateProcess
  SetExternalContentSource ClearExternalContentSource AttachSession).
#[local] Notation IHBABIShim := (Shim.IHBABIShim library_applet).

Definition OpenPipe (pid fd : Z) (t : twili) : Z + object :=
  match Process.FindMonitoredProcess pid (processes t) with
  | None => inr (Pipe (OwnFile fd))
  | Some p =>
      match fd with
      | 0 => inr (Pipe (OfProcess p Stdin))
      | 1 => inr (Pipe (OfProcess p Stdout))
      | 2 => inr (Pipe (OfProcess p Stderr))
      | _ => inl TWILI_ERR_INVALID_PIPE
      end
  end.
Definition OpenHBABIShim (pid : Z) (t : twili) : Z + object :=
  match Process.FindMonitoredProcess pid (processes t) with
  | None => inl TWILI_ERR_UNRECOGNIZED_PID
  | Some p => inr (HBABIShim (IHBABIShim p (processes t)))
  end.
Definition OpenAppletShim (process : Z) (t : twili) : outcome ((Z + object) * twili) :=
  if negb (Process.has_control_process (Process.applets (processes t))) then
    w ← Process.AttachControlProcess (processes t); Done (inr ControlImpl, set_processes w t)
  else
    '(w, p) ← AttachHostProcess process (processes t); Done (inr (HostImpl p), set_processes w t).
Definition OpenShellShim (process : Z) (t : twili) : outcome ((Z + object) * twili) :=
  '(w, p) ← ShellAttachHostProcess process (processes t);
  Done (inr (HBABIShim (IHBABIShim p w)), set_processes w t).

(** [strnlen] *)
Fixpoint until_nul (b : bytes) : bytes :=
  match b with [] => [] | x :: b => if bool_decide (x = Byte.x00) then [] else x :: until_nul b end.
Definition CreateNamedOutputPipe (name_buffer : bytes) (t : twili) : (Z + object) * twili :=
  let name := until_nul name_buffer in
  let i := length (pipes t) in
  let '(m, inserted) := emplace name i (named_pipes t) in
  if inserted : bool then
    (inr (Pipe (Named i)), mk_twili (processes t) m (pipes t ++ [Pipe.TwibPipe pipe_buffer_size_limit]) (clients t) (destroy_flag t))
  else (inl TWILI_ERR_PIPE_ALREADY_EXISTS, t).
Definition Destroy (t : twili) : twili := mk_twili (processes t) (named_pipes t) (pipes t) (clients t) true.

(** [ITwiliService::Dispatch]: an error, or the object when there is one. *)
Definition Dispatch (request_id : Z) (rq : request) (t : twili) : outcome ((Z + option object) * twili) :=
  let answer (x : (Z + object) * twili) :=
    (match x.1 with inl code => inl code | inr o => inr (Some o) end, x.2) in
  match request_id, rq with
  | 0, InPid pid => Done (answer (OpenPipe pid 0 t, t))
  | 1, InPid pid => Done (answer (OpenPipe pid 1 t, t))
  | 2, InPid pid => Done (answer (OpenPipe pid 2 t, t))
  | 3, InPid pid => Done (answer (OpenHBABIShim pid t, t))
  | 4, InPidProcess _ process => x ← OpenAppletShim process t; Done (answer x)
  | 5, InPidProcess _ process => x ← OpenShellShim process t; Done (answer x)
  | 10, InName name => Done (answer (CreateNamedOutputPipe name t))
  | 999, Empty => Done (inr None, Destroy t)
  | _, _ => Done (inl 1, t)
  end.

(** *** IAppletShim *)

Inductive mode : Type := Control | Host.
Inductive applet_reply : Type := OutMode (m : mode) | OutEvent | OutCommand (c : Z) | OutObject (o : object).
(** [IAppletShim::Dispatch] with the overrides of [ControlImpl] and [HostImpl]. *)
Definition AppletShim_Dispatch (shim : object) (request_id : Z) (w : Process.world) :
    outcome ((Z + applet_reply) * Process.world) :=
  match shim, request_id with
  | ControlImpl, 0 => Done (inr (OutMode Control), w)
  | ControlImpl, 100 => Done (inr OutEvent, w)
  | ControlImpl, 101 =>
      Done (if Process.GetCommand w =? EOK then inr (OutCommand 0) else inl (Process.GetCommand w), w)
  | ControlImpl, 102 =>
      '(r, p, w) ← PopApplet w;
      Done (match p with Some p => inr (OutObject (Controller p)) | None => inl r end, w)
  | HostImpl _, 0 => Done (inr (OutMode Host), w)
  | HostImpl p, 202 => Done (inr (OutObject (HBABIShim (IHBABIShim p w))), w)
  | ControlImpl, 202 | HostImpl _, 100 | HostImpl _, 101 | HostImpl _, 102 => Done (inl TWILI_ERR_APPLET_SHIM_WRONG_MODE, w)
  | _, _ => Done (inl 1, w)
  end.

(** *** The requests of a named pipe's two ends *)

Definition on_pipe (i : nat) (f : PipeClients.pipe * PipeClients.world → outcome (PipeClients.pipe * PipeClients.world))
    (t : twili) : outcome twili :=
  match pipes t !! i with
  | None => Undefined
  | Some p =>
      '(p, w) ← f (p, clients t);
      Done (mk_twili (processes t) (named_pipes t) (<[i := p]> (pipes t)) w (destroy_flag t))
  end.
(** The program's write request, and the tool's read request. *)
Definition ProgramWrite (depth : nat) (i : nat) (rq : Z) (data : bytes) : twili → outcome twili :=
  on_pipe i (PipeClients.IPipeTwib_Write depth rq data).
Definition ToolRead (depth : nat) (i : nat) (opener : Z) : twili → outcome twili :=
  on_pipe i (PipeClients.Reader_Read depth opener).
End service.

(** ** Lemmas *)

Lemma byte_value_inj x y : Byte.to_N x = Byte.to_N y → x = y.
Proof. intros E. apply (f_equal Byte.of_N) in E. rewrite !Byte.of_to_N in E. congruence. Qed.
Lemma less_irrefl a : less a a = false.
Proof. induction a as [|x a IH]; [done|]. cbn [less]. by rewrite N.ltb_irrefl. Qed.
Lemma less_trans a b c : less a b = true → less b c = true → less a c = true.
Proof.
  revert b c. induction a as [|x a IH]; intros [|y b] [|z c]; cbn [less]; try done.
  destruct (N.ltb_spec (Byte.to_N x) (Byte.to_N y)), (N.ltb_spec (Byte.to_N y) (Byte.to_N x)),
    (N.ltb_spec (Byte.to_N y) (Byte.to_N z)), (N.ltb_spec (Byte.to_N z) (Byte.to_N y)),
    (N.ltb_spec (Byte.to_N x) (Byte.to_N z)), (N.ltb_spec (Byte.to_N z) (Byte.to_N x)); try done; try lia.
  apply IH.
Qed.
Lemma less_total a b : less a b = false → less b a = false → a = b.
Proof.
  revert b. induction a as [|x a IH]; intros [|y b]; cbn [less]; try done.
  destruct (N.ltb_spec (Byte.to_N x) (Byte.to_N y)), (N.ltb_spec (Byte.to_N y) (Byte.to_N x)); try done; try lia.
  intros H1 H2. f_equal; [apply byte_value_inj; lia|by apply IH].
Qed.

(** The names of a [std::map] are in order. *)
Definition ordered (m : list (bytes * nat)) : Prop := StronglySorted (fun a b => less a b = true) m.*1.

Lemma emplace_fresh name i m :
  name ∉ m.*1 → ∃ m1 m2, m = m1 ++ m2 ∧ emplace name i m = (m1 ++ (name, i) :: m2, true).
Proof.
  induction m as [|[k j] m IH]; intros Hn; [by exists [], []|]. cbn [emplace]. cbn in Hn. rewrite not_elem_of_cons in Hn.
  destruct (less name k) eqn:E1; [by exists [], ((k, j) :: m)|]. destruct (less k name) eqn:E2.
  - destruct IH as (m1 & m2 & -> & ->); [by apply Hn|]. by exists ((k, j) :: m1), m2.
  - destruct Hn as [[] _]. by apply less_total.
Qed.
Lemma emplace_known name i m : ordered m → name ∈ m.*1 → emplace name i m = (m, false).
Proof.
  induction m as [|[k j] m IH]; intros Ho Hin; [by apply not_elem_of_nil in Hin|]. cbn in Ho, Hin.
  apply StronglySorted_inv in Ho as [Ho Hall]. cbn [emplace]. apply elem_of_cons in Hin as [->|Hin].
  - by rewrite !less_irrefl.
  - rewrite Forall_forall in Hall. pose proof (Hall name Hin) as Hk. cbn [fst] in Hk.
    destruct (less name k) eqn:E; [by pose proof (less_trans k name k Hk E) as H; rewrite less_irrefl in H|]. rewrite Hk. by rewrite IH.
Qed.
Lemma emplace_ordered name i m : ordered m → ordered (emplace name i m).1.
Proof.
  unfold ordered. induction m as [|[k j] m IH]; intros Ho; [by repeat constructor|]. cbn [emplace].
  destruct (less name k) eqn:E1.
  - cbn. constructor; [done|]. constructor; [done|]. apply StronglySorted_inv in Ho as [_ Hall].
    eapply Forall_impl; [exact Hall|]. intros a. by apply less_trans.
  - destruct (less k name) eqn:E2; [|done]. cbn in Ho. apply StronglySorted_inv in Ho as [Ho Hall].
    specialize (IH Ho). destruct (decide (name ∈ m.*1)) as [Hin|Hn].
    + rewrite emplace_known in IH |- * by done. cbn. by constructor.
    + destruct (emplace_fresh name i m Hn) as (m1 & m2 & -> & E). rewrite E in IH |- *. cbn in *.
      constructor; [done|]. rewrite fmap_app in Hall |- *. apply Forall_app in Hall as [H1 H2].
      apply Forall_app. split; [done|]. by constructor.
Qed.

Lemma find_skip name m1 m2 :
  name ∉ m1.*1 → find (fun p : bytes * nat => bool_decide (p.1 = name)) (m1 ++ m2) =
  find (fun p => bool_decide (p.1 = name)) m2.
Proof.
  induction m1 as [|[k j] m1 IH]; intros Hn; [done|]. cbn in *. rewrite not_elem_of_cons in Hn.
  rewrite bool_decide_eq_false_2 by (intros ->; by destruct Hn). by apply IH, Hn.
Qed.
Lemma opens_emplaced name i m :
  name ∉ m.*1 → DeviceInterface.OpenNamedPipe name (emplace name i m).1 = inr i.
Proof.
  intros Hn. destruct (emplace_fresh name i m Hn) as (m1 & m2 & -> & ->). unfold DeviceInterface.OpenNamedPipe. cbn [fst].
  rewrite find_skip by (rewrite fmap_app, elem_of_app in Hn; tauto). cbn. by rewrite bool_decide_eq_true_2.
Qed.
Lemma opens_other name other i m :
  name ∉ m.*1 → other ≠ name →
  DeviceInterface.OpenNamedPipe other (emplace name i m).1 = DeviceInterface.OpenNamedPipe other m.
Proof.
  intros Hn Ho. destruct (emplace_fresh name i m Hn) as (m1 & m2 & -> & ->). unfold DeviceInterface.OpenNamedPipe. cbn [fst].
  clear Hn. induction m1 as [|[k j] m1 IH]; cbn.
  - by rewrite bool_decide_eq_false_2 by done.
  - case_bool_decide; [done|]. exact IH.
Qed.

(** A program's write on an open pipe with room is answered, and in the pipe. *)
Lemma program_write n lim rq data (p : PipeClients.pipe) w :
  PipeClients.open_pipe lim p → data ≠ [] →
  zlen (Buffer.contents (Pipe.buffer p)) + zlen data ≤ lim < 2 ^ 61 →
  ∃ p', PipeClients.IPipeTwib_Write (S n) rq data (p, w) =
      Done (p', PipeClients.add_reply w (PipeClients.IpcResult rq 0)) ∧
    PipeClients.open_pipe lim p' ∧ Buffer.contents (Pipe.buffer p') = Buffer.contents (Pipe.buffer p) ++ data.
Proof.
  intros [Hst He Hwf Hl] Hne Hroom. unfold PipeClients.IPipeTwib_Write. cbn [Pipe.exec Pipe.dispatch].
  pose proof (Pipe.zlen_pos_nonempty _ Hne) as Hpos. pose proof (zlen_nonneg (Buffer.contents (Pipe.buffer p))) as Hn.
  unfold Pipe.Write at 1. rewrite (proj2 (Z.eqb_neq _ _)), He, Hst by lia. cbn [orb].
  destruct (Buffer.Write_spec (Pipe.buffer p) data) as (pb & -> & Hpb & Hlb & Hcb);
    [done|unfold Buffer.vector_max_size; lia|].
  assert (Buffer.fits (Pipe.buffer p) (zlen data)) as Hfit by (rewrite (Buffer.fits_limit _ _ lim Hl); lia).
  rewrite bool_decide_eq_true_2 by done. rewrite decide_True in Hcb by done.
  eexists. split; [reflexivity|]. split; [split; try done; cbn; congruence|done].
Qed.
Lemma new_pipe_open lim : 0 ≤ lim < 2 ^ 63 →
  PipeClients.open_pipe lim (Pipe.TwibPipe lim) ∧ Buffer.contents (Pipe.buffer (Pipe.TwibPipe (RC := PipeClients.read_callback) (WC := PipeClients.write_callback) lim)) = [].
Proof. intros Hl. destruct (Buffer.Buffer_limited_wf lim Hl) as [Hwf Hc]. by split; [split|]. Qed.

(** ** Theorems *)

Section theorems.
Context (fopen : string → option FILE) (memory : Z → list (Z * Z * Z * Z)) (svc_error : Z).
Context (TerminateProcess : Z → Z) (ClearExternalContentSource : nat → Z).
Context (library_applet lim : Z).
#[local] Notation Dispatch := (Dispatch fopen memory svc_error TerminateProcess ClearExternalContentSource library_applet lim).

(** The names stay in order, and name pipes there are. *)
Definition well_named (t : twili) : Prop :=
  ordered (named_pipes t) ∧ Forall (fun p => (p.2 < length (pipes t))%nat) (named_pipes t).
Definition same_names (t t' : twili) : Prop := named_pipes t' = named_pipes t ∧ pipes t' = pipes t.

Lemma OpenAppletShim_names process t o t' :
  OpenAppletShim fopen memory svc_error TerminateProcess ClearExternalContentSource process t = Done (o, t') → same_names t t'.
Proof.
  unfold OpenAppletShim. destruct (negb _).
  - destruct (Process.AttachControlProcess _); cbn; intros E; by simplify_eq.
  - destruct (Process.AttachHostProcess _ _ _ _ _ _ _) as [[w p]| | | |]; cbn; intros E; by simplify_eq.
Qed.
Lemma OpenShellShim_names process t o t' :
  OpenShellShim fopen memory svc_error TerminateProcess ClearExternalContentSource library_applet process t = Done (o, t') → same_names t t'.
Proof.
  unfold OpenShellShim.
  destruct (Process.ShellAttachHostProcess _ _ _ _ _ _ _) as [[w p]| | | |]; cbn; intros E; by simplify_eq.
Qed.
Lemma Dispatch_names id rq t r t' :
  Dispatch id rq t = Done (r, t') → same_names t t' ∨ ∃ name_buffer, t' = (CreateNamedOutputPipe lim name_buffer t).2.
Proof.
  intros E. destruct rq as [|pid|pid process|nb]; unfold DeviceService.Dispatch in E.
  - left. repeat case_match; by simplify_eq.
  - left. repeat case_match; by simplify_eq.
  - left. destruct (OpenAppletShim _ _ _ _ _ _ _) as [[o1 t1]| | | |] eqn:E1,
      (OpenShellShim _ _ _ _ _ _ _ _) as [[o2 t2]| | | |] eqn:E2;
      try (apply OpenAppletShim_names in E1); try (apply OpenShellShim_names in E2);
      repeat case_match; by simplify_eq/=.
  - repeat case_match; simplify_eq; try (by left); right; by exists nb.
Qed.

Lemma opened_name name i (m : list (bytes * nat)) :
  DeviceInterface.OpenNamedPipe name m = inr i → name ∈ m.*1 ∧ ∃ p, p ∈ m ∧ p.2 = i.
Proof.
  unfold DeviceInterface.OpenNamedPipe. destruct (find _ m) as [p|] eqn:E; [|done]. intros [= <-].
  apply find_some in E as [Hin Hp]. apply bool_decide_eq_true in Hp as <-.
  apply list_elem_of_In in Hin. split; [|by exists p]. by apply list_elem_of_fmap_2.
Qed.

(** No request of a program disturbs the named pipes: they stay in order, with pipes behind them,
    and none is lost or exchanged. *)
Theorem named_pipes_kept id rq t r t' :
  well_named t → Dispatch id rq t = Done (r, t') →
  well_named t' ∧ ∀ name i, DeviceInterface.OpenNamedPipe name (named_pipes t) = inr i →
    DeviceInterface.OpenNamedPipe name (named_pipes t') = inr i ∧ pipes t' !! i = pipes t !! i.
Proof.
  intros [Ho Hf] [[E1 E2]|[nb ->]]%Dispatch_names.
  - split; [split; rewrite ?E2, E1; done|]. intros name i. by rewrite E1, E2.
  - unfold CreateNamedOutputPipe. set (name := until_nul nb).
    destruct (decide (name ∈ (named_pipes t).*1)) as [Hin|Hn].
    + rewrite emplace_known by done. by split.
    + pose proof (emplace_ordered name (length (pipes t)) _ Ho) as Ho'.
      destruct (emplace_fresh name (length (pipes t)) _ Hn) as (m1 & m2 & Em & Ee).
      rewrite Ee in Ho' |- *. cbn [snd named_pipes pipes]. split; [split|].
      * exact Ho'.
      * cbn [named_pipes pipes]. rewrite Em in Hf. apply Forall_app in Hf as [F1 F2]. rewrite Forall_app, Forall_cons.
        rewrite length_app. split_and!; [|cbn; lia|].
        all: eapply Forall_impl; [eassumption|]; cbn; intros; lia.
      * intros other i Hi. destruct (opened_name _ _ _ Hi) as [Hk (p & Hp & <-)].
        rewrite Forall_forall in Hf. pose proof (Hf p Hp) as Hlt. split; [|by apply lookup_app_l].
        pose proof (opens_other name other (length (pipes t)) (named_pipes t) Hn) as H. rewrite Ee in H. cbn [fst] in H.
        rewrite H; [done|]. by intros ->.
Qed.

(** C23: A named pipe carries data from a program to the tool.  When a program creates a pipe with a
    name that is free, the tool is shown that name and opens that very pipe with it; data that is not
    empty and fits into the new pipe is answered with success when the program writes it, and is
    exactly what the tool's next read gets; and the name cannot be taken again.  (A write that has to
    wait for room is lost: [Pipe.pipe_loses_waiting_write].) *)
Theorem named_pipe_carries n t name_buffer data rq o :
  let name := until_nul name_buffer in
  well_named t → name ∉ (named_pipes t).*1 → data ≠ [] → zlen data ≤ lim < 2 ^ 61 →
  o ∉ PipeClients.begun (clients t) →
  let i := length (pipes t) in
  ∃ t1 t2 t3,
    Dispatch 10 (InName name_buffer) t = Done (inr (Some (Pipe (Named i))), t1) ∧
    name ∈ (named_pipes t1).*1 ∧ DeviceInterface.OpenNamedPipe name (named_pipes t1) = inr i ∧
    ProgramWrite (S n) i rq data t1 = Done t2 ∧
    PipeClients.replies (clients t2) = PipeClients.replies (clients t) ++ [PipeClients.IpcResult rq 0] ∧
    ToolRead (S n) i o t2 = Done t3 ∧
    PipeClients.replies (clients t3) = PipeClients.replies (clients t2) ++ [PipeClients.RespondOk o (Some data)] ∧
    Dispatch 10 (InName name_buffer) t3 = Done (inl TWILI_ERR_PIPE_ALREADY_EXISTS, t3).
Proof.
  intros name [Ho Hf] Hn Hne Hroom Hb i. pose proof (zlen_nonneg data) as Hpos.
  pose proof (opens_emplaced name i (named_pipes t) Hn) as Hopen.
  pose proof (emplace_ordered name i _ Ho) as Ho'.
  destruct (emplace_fresh name i (named_pipes t) Hn) as (m1 & m2 & Em & Ee).
  rewrite Ee in Hopen, Ho'. cbn [fst] in Hopen, Ho'. set (m := m1 ++ (name, i) :: m2) in *.
  assert (Hin : name ∈ m.*1) by (unfold m; rewrite fmap_app; cbn; set_solver).
  destruct (new_pipe_open lim) as [Hp Hc]; [lia|].
  destruct (program_write n lim rq data _ (clients t) Hp Hne) as (p1 & Ew & Hp1 & Hc1); [rewrite Hc; unfold zlen at 1; cbn [length]; lia|].
  destruct (PipeClients.reader_takes_all n lim o p1 (PipeClients.add_reply (clients t) (PipeClients.IpcResult rq 0)) Hp1)
    as (p2 & w2 & Er & _ & _ & Rr); [by rewrite Hc1, Hc|done|].
  rewrite Hc in Hc1. cbn [app] in Hc1. rewrite Hc1 in Rr.
  assert (Hat : ∀ p : PipeClients.pipe, (pipes t ++ [p]) !! i = Some p)
    by (intros p; unfold i; by rewrite lookup_app_r, Nat.sub_diag by reflexivity).
  assert (Hset : ∀ p q : PipeClients.pipe, <[i := q]> (pipes t ++ [p]) = pipes t ++ [q])
    by (intros p q; unfold i; by rewrite insert_app_r_alt, Nat.sub_diag by reflexivity).
  exists (mk_twili (processes t) m (pipes t ++ [Pipe.TwibPipe lim]) (clients t) (destroy_flag t)),
    (mk_twili (processes t) m (pipes t ++ [p1]) (PipeClients.add_reply (clients t) (PipeClients.IpcResult rq 0)) (destroy_flag t)),
    (mk_twili (processes t) m (pipes t ++ [p2]) w2 (destroy_flag t)).
  split_and!; try done.
  - unfold DeviceService.Dispatch, CreateNamedOutputPipe. fold name i. by rewrite Ee.
  - unfold ProgramWrite, on_pipe. cbn [pipes clients]. rewrite Hat, Ew. cbn [mbind outcome_bind]. by rewrite Hset.
  - unfold ToolRead, on_pipe. cbn [pipes clients]. rewrite Hat, Er. cbn [mbind outcome_bind]. by rewrite Hset.
  - unfold DeviceService.Dispatch, CreateNamedOutputPipe. fold name. cbn [named_pipes]. by rewrite (emplace_known name _ m).
Qed.
End theorems.

(** *** Example *)

Definition ex_twili : twili :=
  mk_twili Process.init [(str "a", 0%nat); (str "z", 1%nat)] [Pipe.TwibPipe 64; Pipe.TwibPipe 64] (PipeClients.mk_world [] [] []) false.
Lemma named_pipe_carries_witness :
  ∃ t1 t2 t3,
    Dispatch Process.ex_fopen Process.ex_memory 1 Process.ok Process.ok 2 64 10 (InName (str "log" ++ [Byte.x00; Byte.x41])) ex_twili =
      Done (inr (Some (Pipe (Named 2))), t1) ∧
    ProgramWrite 1 2 7 (str "hello") t1 = Done t2 ∧ ToolRead 1 2 9 t2 = Done t3 ∧
    PipeClients.replies (clients t3) = [PipeClients.IpcResult 7 0; PipeClients.RespondOk 9 (Some (str "hello"))].
Proof.
  destruct (named_pipe_carries Process.ex_fopen Process.ex_memory 1 Process.ok Process.ok 2 64 0 ex_twili
    (str "log" ++ [Byte.x00; Byte.x41]) (str "hello") 7 9) as (t1 & t2 & t3 & E1 & _ & _ & E2 & R2 & E3 & R3 & _).
  - split; [|by repeat constructor]. unfold ordered. by repeat constructor.
  - cbn. rewrite !not_elem_of_cons. split_and!; [discriminate..|by apply not_elem_of_nil].
  - discriminate.
  - split; vm_compute; [discriminate|reflexivity].
  - cbn. by apply not_elem_of_nil.
  - exists t1, t2, t3. split; [exact E1|]. split; [exact E2|]. split; [exact E3|]. rewrite R3, R2. reflexivity.
Defined.

End DeviceService.
