(* ===== verification/ToolCommands.v ===== *)
(** * twib/tool/Twib.cpp: the commands of the tool

    The commands with a logic of their own: the tables, the choice of a device, running a
    program, saving a core file, launching a title, and looking up a result code.  (The file
    commands are in [FSCommands].)  Text is [bytes], a remote call is a [method] of [Interfaces]
    or an argument of the definitions, and so are the functions of the C library that do I/O.  A
    program that is run has three threads here, two that copy its output and the one that joins them
    ([run_step]); the one that sends it standard input is only its handler ([SignalRead]). *)
From S2P Require Import Prelude Err Protocol ToolClient Interfaces DeviceInterface.
Import Protocol.
Local Open Scope Z_scope.

Module ToolCommands.
Import Err Interfaces.

(** ** Text *)

(** What [%s] prints of a string: the characters before the first zero. *)
Fixpoint c_str (l : bytes) : bytes :=
  match l with [] => [] | b :: l => if bool_decide (b = Byte.x00) then [] else b :: c_str l end.

Definition digit (d : Z) : byte := byte.of_Z (if d <? 10 then 48 + d else 87 + d).
(** The digits of a number, at most [fuel] and one more. *)
Fixpoint digits_loop (fuel : nat) (base n : Z) (acc : bytes) : bytes :=
  let acc := digit (n mod base) :: acc in
  match fuel with
  | O => acc
  | S fuel => if n / base =? 0 then acc else digits_loop fuel base (n / base) acc
  end.
Definition digits (base n : Z) : bytes := digits_loop 64 base n [].
Definition pad_left (c : byte) (width : Z) (l : bytes) : bytes := zreplicate (width - zlen l) c ++ l.
Definition pad_right (width : Z) (l : bytes) : bytes := l ++ zreplicate (width - zlen l) (ch " ").
Definition ToHex_width (num width : Z) (prefix : bool) : bytes :=
  (if prefix then str "0x" else []) ++ pad_left (ch "0") width (digits 16 num).
Definition ToHex (num : Z) (prefix : bool) : bytes := (if prefix then str "0x" else []) ++ digits 16 num.

(** A table of rows with as many columns each. *)
Definition widths (n : nat) (rows : list (list bytes)) : list Z :=
  foldl (fun ws r => zip_with Z.max ws (map zlen r)) (replicate n 0) rows.
Fixpoint print_row (ws : list Z) (r : list bytes) : bytes :=
  match ws, r with
  | [w], [c] => pad_right w (c_str c) ++ [Byte.x0a]
  | w :: ws, c :: r => pad_right w (c_str c) ++ str " | " ++ print_row ws r
  | _, _ => []
  end.
Definition PrintTable (n : nat) (rows : list (list bytes)) : list bytes := map (print_row (widths n rows)) rows.

Definition process_row (p : DeviceInterface.process_report) : list bytes :=
  [ToHex (DeviceInterface.process_id p) true; ToHex (DeviceInterface.result p) true; ToHex (DeviceInterface.title_id p) true;
   ztake 12 (DeviceInterface.process_name p); ToHex (DeviceInterface.mmu_flags p) true].
Definition ListProcesses (l : list DeviceInterface.process_report) : list bytes :=
  PrintTable 5 ([str "Process ID"; str "Result"; str "Title ID"; str "Process Name"; str "MMU Flags"] :: map process_row l).

(** [strtoul]: white space, a sign, "0x" in base 16, then digits; the largest value on overflow. *)
Definition is_space (c : byte) : bool := let z := byte.unsigned c in (z =? 32) || (9 <=? z) && (z <=? 13).
Fixpoint skip_space (l : bytes) : bytes :=
  match l with c :: l' => if is_space c then skip_space l' else l | [] => [] end.
Definition digit_value (base : Z) (c : byte) : option Z :=
  let z := byte.unsigned c in
  let d := if (48 <=? z) && (z <=? 57) then z - 48
           else if (97 <=? z) && (z <=? 122) then z - 87
           else if (65 <=? z) && (z <=? 90) then z - 55 else 36 in
  if d <? base then Some d else None.
Fixpoint number (base acc : Z) (l : bytes) : Z :=
  match l with
  | c :: l => match digit_value base c with Some d => number base (acc * base + d) l | None => acc end
  | [] => acc
  end.
Definition sign (l : bytes) : bool * bytes :=
  match l with c :: l' => if bool_decide (c = ch "-") then (true, l') else if bool_decide (c = ch "+") then (false, l') else (false, l) | [] => (false, []) end.
Definition prefix (base : Z) (l : bytes) : bytes :=
  match l with
  | z :: x :: c :: l' =>
      if (base =? 16) && bool_decide (z = ch "0") && (bool_decide (x = ch "x") || bool_decide (x = ch "X"))
         && bool_decide (is_Some (digit_value 16 c)) then c :: l' else l
  | _ => l
  end.
Definition strtoul (base : Z) (l : bytes) : Z :=
  let '(negative, l) := sign (skip_space l) in
  let n := number base 0 (prefix base l) in
  if 2 ^ 64 <=? n then 2 ^ 64 - 1 else if negative then u64 (- n) else n.
(** [std::stoul] throws where there is no digit, and on overflow. *)
Definition stoul (base : Z) (l : bytes) : outcome Z :=
  let '(negative, l) := sign (skip_space l) in
  match prefix base l with
  | c :: l =>
      match digit_value base c with
      | None => Throws invalid_argument
      | Some _ =>
          let n := number base 0 (c :: l) in
          if 2 ^ 64 <=? n then Throws out_of_range else Done (if negative then u64 (- n) else n)
      end
  | [] => Throws invalid_argument
  end.

(** ** The device *)

(** The device's id, or the exit code. *)
Definition choose_device (device_id_str : bytes) (devices : list Z) : outcome (Z + Z) :=
  match device_id_str with
  | _ :: _ => id ← stoul 16 device_id_str; Done (inr (u32 id))
  | [] => match devices with [] => Done (inl 1) | [id] => Done (inr id) | _ => Done (inl 1) end
  end.

(** ** Running a program *)

(** The calls before the program's output is waited for. *)
Definition run_calls (code : bytes) (applet shell suspend : bool) : Z + list method :=
  if negb applet && negb shell then inl 1
  else inr ([OfDevice (D_CreateMonitoredProcess (if shell then str "shell" else if applet then str "applet" else str "managed"));
             OfMonitor (M_AppendCode code);
             OfMonitor (if suspend then M_LaunchSuspended else M_Launch);
             OfMonitor M_OpenStdout; OfMonitor M_OpenStderr; OfMonitor M_OpenStdin]).

(** The threads that copy the program's output, and the one that started them. *)
Inductive stream : Type := Stdout | Stderr.
#[export] Instance stream_eq_dec : EqDecision stream.
Proof. solve_decision. Defined.
(** A pump is about to read, or has read a piece and writes it, or has returned. *)
Inductive pump : Type := Reading | Writing (piece : bytes) | Returned.
(** The command waits for a pump's thread, then for the program's exit; then it is done. *)
Inductive place : Type := Joining (s : stream) | Watching | Exit.
Inductive thread : Type := Pump (s : stream) | Main.
#[export] Instance thread_eq_dec : EqDecision thread.
Proof. solve_decision. Defined.

Section run.
Context {W : Type}.
(** [fwrite] of a whole string to a stream, in bytes written. *)
Context (fwrite : stream → bytes → W → Z * W).
(** A call of [ReadSync] and of [WaitStateChange]: an error code, or the answer. *)
Context (ReadSync : stream → W → (Z + bytes) * W) (WaitStateChange : W → (Z + Z) * W).

Record running : Type := mk_running { stdout_pump : pump; stderr_pump : pump; main : place; world : W }.
Definition pump_of (s : stream) (x : running) : pump := match s with Stdout => stdout_pump x | Stderr => stderr_pump x end.
Definition set_pump (s : stream) (p : pump) (w : W) (x : running) : running :=
  match s with
  | Stdout => mk_running p (stderr_pump x) (main x) w
  | Stderr => mk_running (stdout_pump x) p (main x) w
  end.
Definition EXITED : Z := 6.

(** The pump's next call.  Writing less than asked for is an exception nobody catches; an error
    other than the end of the file ends the program ([Die]). *)
Definition pump_output (s : stream) (x : running) : outcome running :=
  match pump_of s x with
  | Reading =>
      match ReadSync s (world x) with
      | (inr piece, w) => Done (set_pump s (Writing piece) w x)
      | (inl code, w) => if code =? TWILI_ERR_EOF then Done (set_pump s Returned w x) else Aborts 1
      end
  | Writing piece =>
      let '(r, w) := fwrite s piece (world x) in
      if (r <? zlen piece) && (0 <? zlen piece) then Throws runtime_error else Done (set_pump s Reading w x)
  | Returned => Done x
  end.
Definition at_place (m : place) (w : W) (x : running) : running := mk_running (stdout_pump x) (stderr_pump x) m w.
(** What the command does next; [join] blocks until the thread has returned. *)
Definition run_main (x : running) : outcome running :=
  match main x with
  | Joining s =>
      match pump_of s x with
      | Returned => Done (at_place (match s with Stdout => Joining Stderr | Stderr => Watching end) (world x) x)
      | _ => Done x
      end
  | Watching =>
      match WaitStateChange (world x) with
      | (inr state, w) => Done (at_place (if state =? EXITED then Exit else Watching) w x)
      | (inl _, w) => Aborts 1
      end
  | Exit => Done x
  end.
Definition run_step (t : thread) (x : running) : outcome running :=
  match t with Pump s => pump_output s x | Main => run_main x end.
(** The threads in the order in which they get to run. *)
Fixpoint run_threads (l : list thread) (x : running) : outcome running :=
  match l with [] => Done x | t :: l => x ← run_step t x; run_threads l x end.
(** Both threads have been started. *)
Definition run_started (w : W) : running := mk_running Reading Reading (Joining Stdout) w.
End run.
Arguments running W : clear implicits.

Section io.
Context {W : Type} (fwrite : bytes → W → Z * W) (ferror : W → bool).
(** The core file.  On an error the message's missing argument is read. *)
Fixpoint save_core (fuel : nat) (core : bytes) (written : Z) (w : W) : outcome W :=
  if written <? zlen core then
    match fuel with
    | O => OutOfFuel
    | S fuel =>
        let '(r, w) := fwrite (zdrop written core) w in
        if (r <=? 0) || ferror w then Undefined else save_core fuel core (written + r) w
    end
  else Done w.
End io.

(** InputPump::SignalRead: what [read] returned, and the calls of the writer it causes. *)
Definition SignalRead (buffer_size : Z) (read : option bytes) : outcome (list PipeWriter_method) :=
  match read with
  | Some (c :: l) => Done [W_WriteSync (c :: l)]
  | Some [] => Done [W_Close]
  | None => Throws runtime_error
  end.

(** ** Memory information *)

Definition one_mib : Z := 1024 * 1024.
(** Used and available in MiB, and per cent. *)
Definition memory_line (used available : Z) : outcome (Z * Z * Z) :=
  if available =? 0 then Undefined else Done (used / one_mib, available / one_mib, u64 (used * 100) / available).
Definition category_labels : list bytes := [str "System"; str "Application"; str "Applet"].
Fixpoint limit_lines (l : list (Z * Z * Z)) : outcome (list (bytes * (Z * Z * Z))) :=
  match l with
  | [] => Done []
  | (category, current, limit) :: l =>
      label ← match (if category <? 0 then None else category_labels !! Z.to_nat category) with Some s => Done s | None => Undefined end;
      line ← memory_line current limit;
      rest ← limit_lines l; Done ((label, line) :: rest)
  end.

(** ** Launching a title *)

Definition storage_id (launch_storage : bytes) : Z :=
  let named s := bool_decide (launch_storage = str s) in
  if named "none"%string then 0
  else if named "host"%string then 1
  else if named "gamecard"%string || named "gc"%string then 2
  else if named "nand-system"%string || named "system"%string then 3
  else if named "nand-user"%string || named "user"%string then 4
  else if named "sdcard"%string || named "sd"%string then 5
  else 0.

(** ** Result codes *)

Definition parse_code (decimal : bool) (code : bytes) : Z :=
  if decimal then u32 (strtoul 10 code)
  else if (zlen code =? 9) && bool_decide (code !! 4%nat = Some (ch "-")) then
    let module := u32 (strtoul 10 (ztake 4 code)) in
    let code := u32 (strtoul 10 (ztake 4 (zdrop 5 code))) in
    Z.lor (u32 (Z.shiftl code 9)) (Z.land (u32 (module - 2000)) 511)
  else u32 (strtoul 16 code).
(** [%04d-%04d] and [0x%x]. *)
Definition print_code (result : Z) : bytes :=
  pad_left (ch "0") 4 (digits 10 (Z.land result 511 + 2000)) ++ str "-" ++ pad_left (ch "0") 4 (digits 10 (Z.shiftr result 9)).
Definition lookup_error (decimal : bool) (code : bytes) : bytes * bytes * ResultDescription :=
  let result := parse_code decimal code in
  (print_code result, ToHex result true, Lookup result).

(** ** Lemmas: numbers *)

Lemma digit_value_digit base d : 0 ≤ d < base → base ≤ 16 → digit_value base (digit d) = Some d.
Proof.
  intros Hd Hb. unfold digit_value. cbv zeta.
  assert (forallb (fun n => let d := Z.of_nat n in let z := byte.unsigned (digit d) in
    (if (48 <=? z) && (z <=? 57) then z - 48 else if (97 <=? z) && (z <=? 122) then z - 87
     else if (65 <=? z) && (z <=? 90) then z - 55 else 36) =? d) (seq 0 16) = true) as H by (vm_compute; reflexivity).
  rewrite forallb_forall in H. specialize (H (Z.to_nat d)). cbv zeta in H. rewrite Z2Nat.id in H by lia.
  rewrite (proj1 (Z.eqb_eq _ _) (H ltac:(apply in_seq; lia))). by rewrite (proj2 (Z.ltb_lt _ _)) by lia.
Qed.

(** The digits of a number, read back. *)
Lemma number_digits_loop base fuel n acc :
  2 ≤ base ≤ 16 → 0 ≤ n < base ^ (Z.of_nat fuel + 1) →
  number base 0 (digits_loop fuel base n acc) = number base n acc.
Proof.
  intros Hb. revert n acc. induction fuel as [|fuel IH]; intros n acc Hn.
  - change (Z.of_nat 0 + 1) with 1 in Hn. rewrite Z.pow_1_r in Hn. cbn [digits_loop number].
    rewrite Z.mod_small by lia. by rewrite digit_value_digit by lia.
  - pose proof (Z.mod_pos_bound n base). pose proof (Z.div_mod n base). cbn [digits_loop].
    destruct (Z.eqb_spec (n / base) 0) as [E|E].
    + cbn [number]. rewrite digit_value_digit by lia. f_equal. lia.
    + rewrite IH.
      * cbn [number]. rewrite digit_value_digit by lia. f_equal. lia.
      * split; [apply Z.div_pos; lia|]. apply Z.div_lt_upper_bound; [lia|].
        rewrite <- Z.pow_succ_r by lia. replace (Z.succ (Z.of_nat fuel + 1)) with (Z.of_nat (S fuel) + 1) by lia. apply Hn.
Qed.
Lemma number_digits base n : 2 ≤ base ≤ 16 → 0 ≤ n < 2 ^ 64 → number base 0 (digits base n) = n.
Proof.
  intros Hb Hn. unfold digits. rewrite number_digits_loop; [done|done|]. split; [lia|].
  apply Z.lt_le_trans with (2 ^ 65); [lia|]. change (Z.of_nat 64 + 1) with 65. apply Z.pow_le_mono_l. lia.
Qed.
(** A number starts with a digit. *)
Lemma digits_loop_head base fuel n acc :
  2 ≤ base → 0 ≤ n → ∃ d l, digits_loop fuel base n acc = digit d :: l ∧ 0 ≤ d < base.
Proof.
  intros Hb. revert n acc. induction fuel as [|fuel IH]; intros n acc Hn; cbn [digits_loop].
  - exists (n mod base), acc. split; [done|]. by apply Z.mod_pos_bound; lia.
  - destruct (n / base =? 0); [|by apply IH, Z.div_pos; lia].
    exists (n mod base), acc. split; [done|]. by apply Z.mod_pos_bound; lia.
Qed.
Lemma digit_plain d : 0 ≤ d < 16 → is_space (digit d) = false ∧ digit d ≠ ch "-" ∧ digit d ≠ ch "+".
Proof.
  intros Hd.
  assert (forallb (fun n => let c := digit (Z.of_nat n) in negb (is_space c) && negb (bool_decide (c = ch "-")) &&
    negb (bool_decide (c = ch "+"))) (seq 0 16) = true) as H by (vm_compute; reflexivity).
  rewrite forallb_forall in H. specialize (H (Z.to_nat d)). cbv zeta in H. rewrite Z2Nat.id in H by lia.
  apply andb_true_iff in H as [[H1 H2]%andb_true_iff H3]; [|apply in_seq; lia].
  apply negb_true_iff in H1, H2, H3. split_and!; [done|by apply bool_decide_eq_false in H2|by apply bool_decide_eq_false in H3].
Qed.
Lemma prefix_other base l : base ≠ 16 → prefix base l = l.
Proof.
  intros Hne. unfold prefix. rewrite (proj2 (Z.eqb_neq base 16)) by done. by destruct l as [|? [|? [|? ?]]].
Qed.
Lemma digits_no_dash base n : 2 ≤ base ≤ 16 → 0 ≤ n → Forall (fun c => c ≠ ch "-") (digits base n).
Proof.
  intros Hb. unfold digits.
  assert (∀ fuel n acc, 0 ≤ n → Forall (fun c => c ≠ ch "-") acc → Forall (fun c => c ≠ ch "-") (digits_loop fuel base n acc)) as H.
  { induction fuel as [|fuel IH]; intros m acc Hm Ha; pose proof (Z.mod_pos_bound m base); cbn [digits_loop].
    - constructor; [|done]. apply digit_plain. lia.
    - assert (Forall (fun c => c ≠ ch "-") (digit (m mod base) :: acc)) by (constructor; [apply digit_plain; lia|done]).
      destruct (m / base =? 0); [done|]. apply IH; [apply Z.div_pos; lia|done]. }
  intros Hn. by apply H.
Qed.
Lemma strtoul_digits base pre n :
  2 ≤ base ≤ 16 → 0 ≤ n < 2 ^ 64 → pre = [] ∧ base ≠ 16 ∨ pre = str "0x" ∧ base = 16 →
  strtoul base (pre ++ digits base n) = n.
Proof.
  intros Hb Hn Hpre. destruct (digits_loop_head base 64 n [] ltac:(lia) ltac:(lia)) as (d & l & E & Hd).
  pose proof (number_digits base n Hb Hn) as Hnum. fold (digits base n) in E.
  assert (strtoul base (pre ++ digits base n) = (let m := number base 0 (digits base n) in if 2 ^ 64 <=? m then 2 ^ 64 - 1 else m)) as ->.
  2:{ cbv zeta. rewrite Hnum. by rewrite (proj2 (Z.leb_gt _ _)) by lia. }
  destruct (digit_plain d) as (Hsp & Hm & Hpl); [lia|]. unfold strtoul. destruct Hpre as [[-> Hne]|[-> ->]].
  - rewrite app_nil_l, E. cbn [skip_space]. rewrite Hsp. cbn [sign]. rewrite !bool_decide_eq_false_2 by done.
    by rewrite prefix_other.
  - rewrite E. change (str "0x") with [ch "0"; ch "x"]. cbn [app skip_space].
    change (is_space (ch "0")) with false. cbv iota. cbn [sign].
    rewrite !bool_decide_eq_false_2 by (vm_compute; discriminate). cbn [prefix].
    rewrite digit_value_digit by lia. done.
Qed.

(** A code is its two parts. *)
Lemma lor_parts z n : 0 ≤ z → 0 ≤ n → Z.lor (Z.shiftl (Z.shiftr z n) n) (Z.land z (Z.ones n)) = z.
Proof.
  intros Hz Hn. apply Z.bits_inj'. intros i Hi. rewrite Z.lor_spec, Z.land_spec, Z.testbit_ones_nonneg, Z.shiftl_spec by lia.
  destruct (Z.ltb_spec i n).
  - rewrite Z.testbit_neg_r, andb_true_r by lia. done.
  - rewrite Z.shiftr_spec, andb_false_r, orb_false_r by lia. f_equal. lia.
Qed.

(** The four figures of a part of a code. *)
Lemma four_figures n : 0 ≤ n < 10000 →
  zlen (pad_left (ch "0") 4 (digits 10 n)) = 4 ∧ strtoul 10 (pad_left (ch "0") 4 (digits 10 n)) = n.
Proof.
  intros Hn.
  assert (forallb (fun n => let n := Z.of_nat n in let l := pad_left (ch "0") 4 (digits 10 n) in
    (zlen l =? 4) && (strtoul 10 l =? n)) (seq 0 (Z.to_nat 10000)) = true) as H by (vm_compute; reflexivity).
  rewrite forallb_forall in H. specialize (H (Z.to_nat n)). cbv zeta in H. rewrite Z2Nat.id in H by lia.
  apply andb_true_iff in H as [?%Z.eqb_eq ?%Z.eqb_eq]; [done|]. apply in_seq. lia.
Qed.

(** ** Lemmas: tables *)

Lemma zlen_c_str l : zlen (c_str l) ≤ zlen l.
Proof.
  induction l as [|b l IH]; [done|]. cbn [c_str]. rewrite zlen_cons. destruct (bool_decide _).
  - rewrite zlen_nil. pose proof (zlen_nonneg l). lia.
  - rewrite zlen_cons. lia.
Qed.
Lemma zlen_pad_right w l : zlen l ≤ w → zlen (pad_right w l) = w.
Proof. intros. unfold pad_right. rewrite zlen_app, zlen_zreplicate. zlen_facts. lia. Qed.

(** Every column is at least as wide as each of its cells. *)
Definition wide (ws : list Z) (r : list bytes) : Prop := Forall2 (fun w c => zlen c ≤ w) ws r.
Lemma wide_grows ws ws' r : wide ws r → length ws' = length ws → wide (zip_with Z.max ws ws') r.
Proof.
  intros H. revert ws'. induction H as [|w c ws r Hw _ IH]; intros [|w' ws'] Hl; try done; constructor; [lia|].
  apply IH. cbn in Hl. lia.
Qed.
Lemma wide_new ws r : length r = length ws → wide (zip_with Z.max ws (map zlen r)) r.
Proof.
  revert r. induction ws as [|w ws IH]; intros [|c r] Hl; try done; constructor; [lia|]. apply IH. cbn in Hl. lia.
Qed.
Lemma widths_wide n rows : Forall (fun r => length r = n) rows → Forall (wide (widths n rows)) rows.
Proof.
  intros Hr. unfold widths.
  assert (∀ ws, length ws = n → length (foldl (fun ws r => zip_with Z.max ws (map zlen r)) ws rows) = n ∧
    Forall (wide (foldl (fun ws r => zip_with Z.max ws (map zlen r)) ws rows)) rows ∧
    (∀ r, wide ws r → wide (foldl (fun ws r => zip_with Z.max ws (map zlen r)) ws rows) r)) as H.
  { induction Hr as [|r rows Hl _ IH]; intros ws Hw; [done|]. cbn [foldl].
    destruct (IH (zip_with Z.max ws (map zlen r))) as (Hn & Hall & Hkeep); [rewrite length_zip_with, length_map; lia|].
    split_and!; [done| |].
    - constructor; [|done]. apply Hkeep, wide_new. lia.
    - intros r' Hr'. apply Hkeep, wide_grows; [done|]. rewrite length_map. lia. }
  apply (H (replicate n 0)). apply length_replicate.
Qed.
Lemma zlen_print_row ws r : wide ws r → ws ≠ [] → zlen (print_row ws r) = foldr Z.add 0 ws + 3 * zlen ws - 2.
Proof.
  induction 1 as [|w c ws r Hw Hr IH]; [done|]. intros _. pose proof (zlen_c_str c). destruct Hr as [|w' c' ws r Hw' Hr].
  - cbn [print_row foldr]. change (zlen [w]) with 1. rewrite zlen_app, zlen_pad_right by lia.
    change (zlen [Byte.x0a]) with 1. lia.
  - change (print_row (w :: w' :: ws) (c :: c' :: r)) with (pad_right w (c_str c) ++ str " | " ++ print_row (w' :: ws) (c' :: r)).
    rewrite !zlen_app, zlen_pad_right, IH by (done || lia). change (zlen (str " | ")) with 3.
    rewrite (zlen_cons _ (w' :: ws)). cbn [foldr]. lia.
Qed.

(** ** Theorems *)

(** what "twib err" prints of a code can be given to it again: the hexadecimal form of every
    code, and the 2000-0000 form of every code whose description number has four figures; a longer
    number is printed in full and read as something else. *)
Theorem printed_code_is_read result :
  0 ≤ result < 2 ^ 32 →
  parse_code false (ToHex result true) = result ∧
  (Z.shiftr result 9 < 10000 → parse_code false (print_code result) = result) ∧
  parse_code false (print_code (Z.lor (Z.shiftl 10000 9) 239)) = 0x2239.
Proof.
  intros Hr. split_and!; [| |by vm_compute].
  - assert (strtoul 16 (str "0x" ++ digits 16 result) = result) as E by (apply strtoul_digits; [lia|lia|by right]).
    destruct (digits_loop_head 16 64 result [] ltac:(lia) ltac:(lia)) as (d & l & Ed & _). fold (digits 16 result) in Ed.
    unfold parse_code. change (ToHex result true) with (str "0x" ++ digits 16 result).
    rewrite E, bool_decide_eq_false_2, andb_false_r; [by apply u32_small|].
    rewrite lookup_app_r by (cbn; lia). cbn [length str String.list_byte_of_string Nat.sub]. intros Hc.
    pose proof (digits_no_dash 16 result ltac:(lia) ltac:(lia)) as Hd. rewrite Forall_lookup in Hd. by eapply Hd.
  - intros Hcode. pose proof (Z.land_ones result 9 ltac:(lia)) as Hm. change (Z.ones 9) with 511 in Hm.
    pose proof (Z.mod_pos_bound result (2 ^ 9)). rewrite Z.shiftr_div_pow2 in Hcode by lia.
    pose proof (Z.div_pos result (2 ^ 9)). pose proof (Z.div_mod result (2 ^ 9)).
    destruct (four_figures (Z.land result 511 + 2000)) as [La Ea]; [lia|].
    destruct (four_figures (result / 2 ^ 9)) as [Lb Eb]; [lia|].
    unfold parse_code, print_code. rewrite Z.shiftr_div_pow2 by lia.
    set (a := pad_left (ch "0") 4 (digits 10 (Z.land result 511 + 2000))) in *.
    set (b := pad_left (ch "0") 4 (digits 10 (result / 2 ^ 9))) in *. clearbody a b.
    rewrite !zlen_app, La, Lb. change (4 + (zlen (str "-") + 4) =? 9) with true.
    assert (length a = 4%nat) as Hla by (unfold zlen in La; lia).
    rewrite bool_decide_eq_true_2 by (rewrite lookup_app_r, Hla by lia; done). cbn [andb].
    rewrite ztake_app by lia. rewrite (app_assoc a), zdrop_app by (rewrite zlen_app; change (zlen (str "-")) with 1; lia).
    rewrite ztake_all by lia. rewrite Ea, Eb, (u32_small (_ + 2000)), (u32_small (result / _)) by lia.
    replace (Z.land result 511 + 2000 - 2000) with (Z.land result 511) by lia. rewrite (u32_small (Z.land _ _)) by lia.
    rewrite <- (Z.shiftr_div_pow2 result 9), u32_small by (rewrite ?Z.shiftl_mul_pow2, ?Z.shiftr_div_pow2; lia).
    rewrite <- Z.land_assoc. change (Z.land 511 511) with (Z.ones 9). apply lor_parts; lia.
Qed.

Lemma printed_code_is_read_witness :
  parse_code false (ToHex 0x2cef true) = 0x2cef ∧ parse_code false (print_code 0x2cef) = 0x2cef.
Proof.
  destruct (printed_code_is_read 0x2cef) as (H1 & H2 & _); [lia|]. split; [exact H1|]. by apply H2.
Defined.

(** Every line of a table is as long as every other. *)
Lemma table_aligned n rows : Forall (fun r => length r = n) rows → (0 < n)%nat →
  Forall (fun l => zlen l = foldr Z.add 0 (widths n rows) + 3 * Z.of_nat n - 2) (PrintTable n rows).
Proof.
  intros Hr Hn. pose proof (widths_wide n rows Hr) as Hw. unfold PrintTable. apply Forall_map.
  rewrite Forall_forall in *. intros r Hin. pose proof (Hw r Hin) as Hwr.
  assert (length (widths n rows) = n) as Hl by (rewrite (Forall2_length _ _ _ Hwr); by apply Hr).
  rewrite zlen_print_row; [unfold zlen; by rewrite Hl|done|]. intros E. rewrite E in Hl. cbn in Hl. lia.
Qed.

Section run_laws.
Context {W : Type} (fwrite : stream → bytes → W → Z * W).
Context (ReadSync : stream → W → (Z + bytes) * W) (WaitStateChange : W → (Z + Z) * W).
(** What has been written to a stream, what its pipe will still give, the states that are still
    to come. *)
Context (out : stream → W → bytes) (chunks : stream → W → list bytes) (states : W → list Z).
Notation step := (run_step fwrite ReadSync WaitStateChange).
Notation run := (run_threads fwrite ReadSync WaitStateChange).

(** Everything but the named is as it was. *)
Definition same_but (o c : option stream) (w w' : W) : Prop :=
  (∀ s, o ≠ Some s → out s w' = out s w) ∧ (∀ s, c ≠ Some s → chunks s w' = chunks s w).
Record pipe_laws : Prop := mk_pipe_laws {
  read_chunk s w c l : chunks s w = c :: l →
    ∃ w', ReadSync s w = (inr c, w') ∧ chunks s w' = l ∧ same_but None (Some s) w w' ∧ states w' = states w;
  read_end s w : chunks s w = [] →
    ∃ w', ReadSync s w = (inl TWILI_ERR_EOF, w') ∧ same_but None None w w' ∧ states w' = states w;
  write_all s p w :
    ∃ w', fwrite s p w = (zlen p, w') ∧ out s w' = out s w ++ p ∧ same_but (Some s) None w w' ∧ states w' = states w;
  next_state w x l : states w = x :: l →
    ∃ w', WaitStateChange w = (inr x, w') ∧ states w' = l ∧ same_but None None w w' }.

Section one_run.
Context (Hlaws : pipe_laws) (w0 : W) (before after : list Z).

(** Nothing of a stream's output is lost or out of order: what has been written, what the pump
    holds and what is still to come make up the whole. *)
Definition pending (p : pump) : bytes := match p with Writing c => c | _ => [] end.
Definition stream_ok (s : stream) (x : running W) : Prop :=
  out s (world x) ++ pending (pump_of s x) ++ concat (chunks s (world x)) = out s w0 ++ concat (chunks s w0) ∧
  (pump_of s x = Returned → chunks s (world x) = []).
Definition main_ok (x : running W) : Prop :=
  match main x with
  | Joining Stdout => True
  | Joining Stderr => stdout_pump x = Returned
  | Watching | Exit => stdout_pump x = Returned ∧ stderr_pump x = Returned
  end.
Definition states_ok (x : running W) : Prop :=
  match main x with
  | Exit => states (world x) = after
  | _ => ∃ b, states (world x) = b ++ EXITED :: after ∧ Forall (fun s => s ≠ EXITED) b
  end.
Definition run_ok (x : running W) : Prop := (∀ s, stream_ok s x) ∧ main_ok x ∧ states_ok x.

(** What is left to do. *)
Definition pump_left (s : stream) (x : running W) : nat :=
  2 * length (chunks s (world x)) + match pump_of s x with Reading => 1 | Writing _ => 2 | Returned => 0 end.
Definition main_left (x : running W) : nat :=
  match main x with Joining Stdout => 2 | Joining Stderr => 1 | _ => 0 end +
  match main x with Exit => 0 | _ => length (states (world x)) end.
Definition left (x : running W) : nat := pump_left Stdout x + pump_left Stderr x + main_left x.
(** A thread that is not blocked and not done. *)
Definition can_run (t : thread) (x : running W) : bool :=
  match t with
  | Pump s => match pump_of s x with Returned => false | _ => true end
  | Main => match main x with
            | Joining s => match pump_of s x with Returned => true | _ => false end
            | Watching => true
            | Exit => false
            end
  end.

Lemma set_pump_same s p w (x : running W) : pump_of s (set_pump s p w x) = p ∧ world (set_pump s p w x) = w ∧ main (set_pump s p w x) = main x.
Proof. by destruct s. Qed.
Lemma set_pump_other s s' p w (x : running W) : s' ≠ s → pump_of s' (set_pump s p w x) = pump_of s' x.
Proof. by destruct s, s'. Qed.

(** What a pump's step leaves, when it is not blocked. *)
Lemma pump_step s x :
  run_ok x → can_run (Pump s) x = true →
  ∃ p w, pump_output fwrite ReadSync s x = Done (set_pump s p w x) ∧
    stream_ok s (set_pump s p w x) ∧ states w = states (world x) ∧
    (∀ s', s' ≠ s → out s' w = out s' (world x) ∧ chunks s' w = chunks s' (world x)) ∧
    (pump_left s (set_pump s p w x) < pump_left s x)%nat.
Proof.
  intros (Hs & _ & _) Hc. destruct (Hs s) as [Hok _]. unfold can_run in Hc. unfold pump_output, stream_ok, pump_left.
  destruct (pump_of s x) as [|piece|] eqn:Ep; [| |done]; cbn [pending app] in Hok.
  - destruct (chunks s (world x)) as [|c l] eqn:Ec.
    + destruct (read_end Hlaws s (world x) Ec) as (w & E & [Ho Hch] & Hst). exists Returned, w. rewrite E.
      destruct (set_pump_same s Returned w x) as (-> & -> & _). rewrite (Ho s), (Hch s), Ec by done. cbn [Z.eqb].
      rewrite Z.eqb_refl. split_and!; [done|done|done|done|by intros s' _; rewrite Ho, Hch|cbn; lia].
    + destruct (read_chunk Hlaws s (world x) c l Ec) as (w & E & Hl & [Ho Hch] & Hst). exists (Writing c), w. rewrite E.
      destruct (set_pump_same s (Writing c) w x) as (-> & -> & _). rewrite (Ho s), Hl by done.
      split_and!; [done|exact Hok|done|done| |cbn; lia]. intros s' Hne. rewrite Ho, Hch by congruence. done.
  - destruct (write_all Hlaws s piece (world x)) as (w & E & Hw & [Ho Hch] & Hst). exists Reading, w. rewrite E.
    rewrite Z.ltb_irrefl. destruct (set_pump_same s Reading w x) as (-> & -> & _). rewrite Hw, (Hch s) by done.
    split_and!; [done|by rewrite <- app_assoc|done|done| |cbn; lia]. intros s' Hne. rewrite Ho, Hch by congruence. done.
Qed.

Lemma pump_blocked s x : can_run (Pump s) x = false → pump_output fwrite ReadSync s x = Done x.
Proof. unfold can_run, pump_output. by destruct (pump_of s x). Qed.
Lemma main_ok_pump s p w x : can_run (Pump s) x = true → main_ok x → main_ok (set_pump s p w x).
Proof.
  unfold can_run, main_ok. destruct s; cbn; destruct (main x) as [[]| |]; try done.
  - by intros H E; rewrite E in H.
  - by intros H [E _]; rewrite E in H.
  - by intros H [E _]; rewrite E in H.
  - by intros H [_ E]; rewrite E in H.
  - by intros H [_ E]; rewrite E in H.
Qed.
Lemma pumps_ok_main (m : place) w x :
  (∀ s, stream_ok s x) → same_but None None (world x) w → ∀ s, stream_ok s (at_place m w x).
Proof.
  intros Hs [Ho Hc] s. destruct (Hs s) as [H1 H2]. unfold stream_ok, at_place in *. destruct s; cbn in *;
    rewrite Ho, Hc by done; by split.
Qed.
Lemma main_step x :
  run_ok x → can_run Main x = true →
  ∃ m w, run_main WaitStateChange x = Done (at_place m w x) ∧ run_ok (at_place m w x) ∧
    (left (at_place m w x) < left x)%nat.
Proof.
  intros (Hs & Hm & Hst) Hc.
  assert (Hsame : same_but None None (world x) (world x)) by by split.
  assert (Hleft : ∀ m w, same_but None None (world x) w → (main_left (at_place m w x) < main_left x)%nat →
    (left (at_place m w x) < left x)%nat).
  { intros m w [_ Hch] Hl. unfold left, pump_left. cbn [world stdout_pump stderr_pump pump_of at_place] in *.
    rewrite !Hch by done. lia. }
  unfold run_main, run_ok, main_ok, states_ok, main_left, can_run in *.
  destruct (main x) as [s| |] eqn:Em; [| |done].
  - exists (match s with Stdout => Joining Stderr | Stderr => Watching end), (world x).
    destruct (pump_of s x) eqn:Ep; [done..|]. split; [done|]. split.
    + split; [by apply pumps_ok_main|]. by destruct s.
    + apply Hleft; [done|]. destruct s; cbn; lia.
  - destruct Hst as (b & Eb & Hb). destruct b as [|y b].
    + destruct (next_state Hlaws (world x) EXITED after Eb) as (w & E & Hw & Hsame'). rewrite E.
      exists Exit, w. rewrite Z.eqb_refl. split; [done|]. split.
      * split; [by apply pumps_ok_main|]. by split.
      * apply Hleft; [done|]. cbn. rewrite Eb. cbn. lia.
    + destruct (next_state Hlaws (world x) y (b ++ EXITED :: after) Eb) as (w & E & Hw & Hsame'). rewrite E.
      apply Forall_cons in Hb as [Hy Hb]. exists Watching, w. rewrite (proj2 (Z.eqb_neq _ _)) by done. split; [done|]. split.
      * split; [by apply pumps_ok_main|]. split; [done|]. by exists b.
      * apply Hleft; [done|]. cbn. rewrite Eb, Hw. cbn. lia.
Qed.

(** One step keeps what holds; it is progress when the thread can run, and takes no other's turn. *)
Lemma step_ok t x :
  run_ok x → ∃ y, step t x = Done y ∧ run_ok y ∧ (left y ≤ left x)%nat ∧
    (can_run t x = true → (left y < left x)%nat) ∧
    ∀ t', t' ≠ t → can_run t' x = true → can_run t' y = true.
Proof.
  intros Hx. destruct (can_run t x) eqn:Hc.
  2:{ exists x. split; [|split_and!; try done; auto; apply Hx]. destruct t as [s|]; cbn [run_step]; [by apply pump_blocked|].
    unfold run_main. unfold can_run in Hc. destruct (main x) as [s| |]; try done. by destruct (pump_of s x). }
  destruct t as [s|]; cbn [run_step].
  - destruct (pump_step s x Hx Hc) as (p & w & E & Hok & Hst & Hother & Hleft). rewrite E.
    pose proof (set_pump_same s p w x) as (Hp & Hw & Hm). pose proof Hx as (Hs & Hmain & Hstates).
    assert (Hlt : (left (set_pump s p w x) < left x)%nat).
    { destruct (Hother (match s with Stdout => Stderr | Stderr => Stdout end)) as [_ Hch]; [by destruct s|].
      unfold left, main_left in *. rewrite Hm, Hw, Hst. unfold pump_left in *. destruct s; cbn [set_pump pump_of stdout_pump stderr_pump world] in *;
        rewrite Hch; lia. }
    eexists. split; [done|]. split; [split; [|split]|split; [lia|split; [auto|]]].
    + intros s'. destruct (decide (s' = s)) as [->|Hne]; [done|]. destruct (Hs s') as [H1 H2]. destruct (Hother s' Hne) as [Ho Hch].
      unfold stream_ok. by rewrite (set_pump_other s s') , Hw, Ho, Hch by done.
    + by apply main_ok_pump.
    + unfold states_ok in *. by rewrite Hm, Hw, Hst.
    + intros [s'|] Hne; cbn [can_run].
      * by rewrite (set_pump_other s s') by congruence.
      * rewrite Hm. destruct (main x) as [s'| |]; [|done..]. destruct (decide (s' = s)) as [->|Hne'].
        -- cbn [can_run] in Hc. by destruct (pump_of s x).
        -- by rewrite (set_pump_other s s').
  - destruct (main_step x Hx Hc) as (m & w & E & Hok & Hlt). rewrite E. eexists. split; [done|].
    split; [exact Hok|]. split; [lia|]. split; [auto|]. intros [[]|] Hne; done.
Qed.
Lemma run_ok_all l x :
  run_ok x → ∃ y, run l x = Done y ∧ run_ok y ∧ (left y ≤ left x)%nat ∧
    ∀ t, t ∈ l → can_run t x = true → (left y < left x)%nat.
Proof.
  revert x. induction l as [|t l IH]; intros x Hx.
  - exists x. split; [done|]. split; [done|]. split; [done|]. intros t Ht. by apply not_elem_of_nil in Ht.
  - destruct (step_ok t x Hx) as (y & E & Hy & Hle & Hlt & Hother). destruct (IH y Hy) as (z & Ez & Hz & Hle' & Hlt').
    exists z. cbn [run_threads]. rewrite E. cbn [mbind outcome_bind]. split; [exact Ez|]. split; [exact Hz|]. split; [lia|].
    intros t' Ht' Hc. destruct (decide (t' = t)) as [->|Hne]; [specialize (Hlt Hc); lia|].
    apply elem_of_cons in Ht' as [|Ht']; [done|]. specialize (Hlt' t' Ht' (Hother t' Hne Hc)). lia.
Qed.
(** Somebody can go on until the command is done. *)
Lemma someone_runs x : run_ok x → main x ≠ Exit → ∃ t, can_run t x = true.
Proof.
  intros (_ & Hm & _) Hx. unfold main_ok in Hm. destruct (main x) as [s| |] eqn:Em; [|by exists Main; cbn; rewrite Em|done].
  destruct (can_run (Pump s) x) eqn:E; [by exists (Pump s)|]. exists Main. cbn [can_run]. rewrite Em.
  cbn [can_run] in E. by destruct (pump_of s x).
Qed.
Lemma exit_stays l x y : main x = Exit → run_ok x → run l x = Done y → main y = Exit.
Proof.
  revert x. induction l as [|t l IH]; intros x Em Hx; cbn [run_threads]; [by intros [= <-]|].
  destruct (step_ok t x Hx) as (z & E & Hz & _). rewrite E. cbn [mbind outcome_bind]. apply IH; [|done].
  destruct t as [s|]; cbn [run_step] in E.
  - unfold pump_output in E. destruct (pump_of s x); [| |by injection E as <-].
    + destruct (ReadSync s (world x)) as [[code|c] w]; [destruct (code =? _); [|done]|]; injection E as <-; by rewrite (proj2 (proj2 (set_pump_same _ _ _ _))).
    + destruct (fwrite s piece (world x)) as [r w]. destruct (_ && _); [done|]. injection E as <-. by rewrite (proj2 (proj2 (set_pump_same _ _ _ _))).
  - unfold run_main in E. rewrite Em in E. by injection E as <-.
Qed.
Lemma rounds_finish rounds x :
  run_ok x → Forall (fun l => ∀ t, t ∈ l) rounds → (left x ≤ length rounds)%nat →
  ∃ y, run (concat rounds) x = Done y ∧ main y = Exit.
Proof.
  intros Hx Hr. revert x Hx. induction Hr as [|l rounds Hl _ IH]; intros x Hx Hf; cbn [concat length] in *.
  - exists x. split; [done|]. destruct (main x) as [[]| |] eqn:Em; [..|done];
      unfold left, main_left in Hf; rewrite Em in Hf; try (cbn in Hf; lia).
    destruct Hx as (_ & _ & Hst). unfold states_ok in Hst. rewrite Em in Hst. destruct Hst as (b & Eb & _).
    rewrite Eb, length_app in Hf. cbn in Hf. lia.
  - destruct (run_ok_all l x Hx) as (z & Ez & Hz & Hle & Hlt).
    assert (Happ : run (l ++ concat rounds) x = run (concat rounds) z).
    { clear -Ez. revert x Ez. induction l as [|t l IH]; intros x; cbn [run_threads app]; [by intros [= ->]|].
      destruct (step t x); cbn [mbind outcome_bind]; [apply IH|done..]. }
    rewrite Happ. destruct (main x) as [s| |] eqn:Em.
    3:{ destruct (run_ok_all (concat rounds) z Hz) as (y & Ey & _). exists y. split; [done|].
      eapply exit_stays; [|exact Hz|exact Ey]. by eapply exit_stays. }
    all: destruct (someone_runs x Hx) as (t & Ht); [by rewrite Em|]; specialize (Hlt t (Hl t) Ht); apply IH; [done|lia].
Qed.
Lemma run_started_ok : states w0 = before ++ EXITED :: after → Forall (fun x => x ≠ EXITED) before → run_ok (run_started w0).
Proof. intros Hst Hb. split; [by intros []|]. split; [done|]. by exists before. Qed.
End one_run.

(** C37: "twib run" shows the program's output and ends when the program does.  The two threads that
    copy the program's output and error streams and the thread that waits for them run in any order.
    As long as the pipes give their pieces and then the end, and everything that is written is
    taken: in every schedule each stream has received the pieces of its own pipe in order and once,
    all of them before the command asks for the first state of the process; it ends at the first
    state that is "exited" and asks for no other.  And it does end: in any schedule in which each
    thread gets to run often enough. *)
Theorem run_shows_output w0 before after :
  pipe_laws → states w0 = before ++ EXITED :: after → Forall (fun x => x ≠ EXITED) before →
  (∀ l, ∃ y, run l (run_started w0) = Done y ∧
    (∀ s, out s (world y) `prefix_of` out s w0 ++ concat (chunks s w0)) ∧
    (main y = Watching ∨ main y = Exit → ∀ s, out s (world y) = out s w0 ++ concat (chunks s w0)) ∧
    (main y = Exit → states (world y) = after)) ∧
  (∀ rounds, Forall (fun l => ∀ t, t ∈ l) rounds →
    (2 * length (chunks Stdout w0) + 2 * length (chunks Stderr w0) + length (states w0) + 4 ≤ length rounds)%nat →
    ∃ y, run (concat rounds) (run_started w0) = Done y ∧ main y = Exit).
Proof.
  intros Hlaws Hst Hb. pose proof (run_started_ok w0 before after Hst Hb) as H0. split.
  - intros l. destruct (run_ok_all Hlaws w0 after l _ H0) as (y & E & (Hs & Hm & Hy) & _). exists y. split; [done|]. split_and!.
    + intros s. destruct (Hs s) as [<- _]. by apply prefix_app_r.
    + intros Hdone s. destruct (Hs s) as [<- Hc]. unfold main_ok in Hm.
      assert (pump_of s y = Returned) as Hp by (destruct Hdone as [E'|E']; rewrite E' in Hm; by destruct s, Hm).
      rewrite Hc, Hp by done. by rewrite !app_nil_r.
    + intros E'. unfold states_ok in Hy. by rewrite E' in Hy.
  - intros rounds Hr Hlen. apply (rounds_finish Hlaws w0 after); [exact H0|done|].
    unfold left, pump_left, main_left. cbn. lia.
Qed.
End run_laws.

Section io_laws.
Context {W : Type} (fwrite : bytes → W → Z * W) (ferror : W → bool) (out : W → bytes).
(** A file that takes at least a byte each time is written whole. *)
Definition takes (w : W) : Prop :=
  ∀ s w, s ≠ [] → ∃ r w', fwrite s w = (r, w') ∧ 0 < r ≤ zlen s ∧ ferror w' = false ∧ out w' = out w ++ ztake r s.
Lemma core_saved core w :
  takes w → ∃ w', save_core fwrite ferror (length core) core 0 w = Done w' ∧ out w' = out w ++ core.
Proof.
  intros Ht.
  assert (∀ fuel n w, 0 ≤ n ≤ zlen core → zlen core - n ≤ Z.of_nat fuel →
    ∃ w', save_core fwrite ferror fuel core n w = Done w' ∧ out w' = out w ++ zdrop n core) as H.
  { induction fuel as [|fuel IH]; intros n w0 Hn Hf; cbn [save_core]; destruct (Z.ltb_spec n (zlen core)) as [Hl|Hl].
    - lia.
    - exists w0. split; [done|]. by rewrite (zdrop_all n core), app_nil_r by lia.
    - destruct (Ht (zdrop n core) w0) as (r & w1 & E & Hr & Hfe & Ho).
      { intros E. assert (zlen (zdrop n core) = 0) as E0 by (by rewrite E). rewrite zlen_zdrop in E0. lia. }
      rewrite zlen_zdrop in Hr. rewrite E, (proj2 (Z.leb_gt _ _)), Hfe by lia. cbn [orb].
      destruct (IH (n + r) w1) as (w2 & E2 & Ho2); [lia|lia|]. exists w2. split; [done|].
      rewrite Ho2, Ho, <- app_assoc. f_equal. rewrite <- (ztake_zdrop r (zdrop n core)) at 2. by rewrite zdrop_zdrop by lia.
    - exists w0. split; [done|]. by rewrite (zdrop_all n core), app_nil_r by lia. }
  destruct (H (length core) 0 w) as (w' & E & Ho); [zlen_facts; lia|unfold zlen; lia|].
  exists w'. split; [done|]. by rewrite Ho, zdrop_0 by lia.
Qed.
End io_laws.

(** Two pieces of output and one of errors, and two states before the exit; the threads run in a
    lopsided order at first. *)
Definition ex_world : Type := (bytes * bytes) * (list bytes * list bytes) * list Z.
Definition ex_out (s : stream) (w : ex_world) : bytes := match s with Stdout => w.1.1.1 | Stderr => w.1.1.2 end.
Definition ex_chunks (s : stream) (w : ex_world) : list bytes := match s with Stdout => w.1.2.1 | Stderr => w.1.2.2 end.
Definition ex_read (s : stream) (w : ex_world) : (Z + bytes) * ex_world :=
  match ex_chunks s w with
  | [] => (inl TWILI_ERR_EOF, w)
  | c :: cs => (inr c, (w.1.1, match s with Stdout => (cs, w.1.2.2) | Stderr => (w.1.2.1, cs) end, w.2))
  end.
Definition ex_state (w : ex_world) : (Z + Z) * ex_world :=
  match w.2 with [] => (inl 1, w) | x :: l => (inr x, (w.1, l)) end.
Definition ex_write (s : stream) (p : bytes) (w : ex_world) : Z * ex_world :=
  (zlen p, (match s with Stdout => (w.1.1.1 ++ p, w.1.1.2) | Stderr => (w.1.1.1, w.1.1.2 ++ p) end, w.1.2, w.2)).
Lemma ex_pipe_laws : pipe_laws ex_write ex_read ex_state ex_out ex_chunks snd.
Proof.
  split.
  - intros s [[o [a b]] l] c cs. unfold ex_read. intros E. rewrite E. eexists. split; [done|].
    destruct s; cbn; (split; [done|]); split; try done; split; try done; intros [] H; done.
  - intros s w E. unfold ex_read. rewrite E. by eexists.
  - intros s p [[[a b] c] l]. eexists. split; [done|]. destruct s; cbn; (split; [done|]); split; try done; split; try done; intros [] H; done.
  - intros [o l] x l' E. unfold ex_state. cbn in *. rewrite E. eexists. split; [done|]. by split.
Qed.
Definition ex_run0 : ex_world := (([], []), ([str "hello "; str "world"], [str "warning"]), [3; 4; 6]).
Definition ex_schedule : list (list thread) :=
  [Main; Main; Pump Stderr; Pump Stdout; Pump Stdout] :: replicate 13 [Pump Stdout; Pump Stderr; Main].
Lemma run_shows_output_witness :
  ∃ y, run_threads ex_write ex_read ex_state (concat ex_schedule) (run_started ex_run0) = Done y ∧ main y = Exit ∧
    ex_out Stdout (world y) = str "hello world" ∧ ex_out Stderr (world y) = str "warning".
Proof.
  destruct (run_shows_output ex_write ex_read ex_state ex_out ex_chunks snd ex_run0 [3; 4] [] ex_pipe_laws eq_refl)
    as [Hsafe Hends]; [by rewrite !Forall_cons|].
  destruct (Hends ex_schedule) as (y & E & Em).
  - unfold ex_schedule. rewrite Forall_cons. split; [|apply Forall_replicate]; intros [[]|]; rewrite !elem_of_cons; auto 10.
  - cbn. lia.
  - destruct (Hsafe (concat ex_schedule)) as (y' & E' & _ & Hall & _). rewrite E in E'. injection E' as <-.
    exists y. split; [exact E|]. split; [exact Em|]. rewrite !Hall by auto. by split.
Defined.
End ToolCommands.
